(* ===== verification/_CoqProject ===== *)
-Q . S2P
Prelude.v
Buddy.v
Sched.v
Smp.v
WaitQueue.v
CircularBuffer.v
SharedHeap.v
RRefDeque.v
Pipe.v
FdTable.v
BCache.v
Log.v
IndexMap.v
SashStore.v
Utf8.v
Resp.v
Shadow.v
Tx.v
Block.v
Inode.v
FileSystem.v
Directory.v
ICache.v
SpinLocks.v
VSpace.v
Memory.v
Maglev.v
Packet.v
Ixgbe.v
DriverCell.v
IxgbeVec.v
Nvme.v
NvmeVec.v
Virtio.v
VirtioNet.v
VirtioBlock.v
