(* ===== verification/Prelude.v ===== *)
(** * RedLeaf: a verification library for the operating system

    RedLeaf is an operating system in Rust.  A small kernel (kernel/) gives isolated domains
    memory, threads and interrupts; domains exchange objects on a shared heap; drivers, a
    file system, a network load balancer and a key-value store run as domains.  This library
    translates the parts of the code that keep state into executable Rocq definitions and proves
    what makes them correct.

    ** How the code is modelled

    A Rust function is a function into [outcome]: [Done] with a result, [Panic] (an explicit
    panic, a failed assertion, an index out of range, an overflow that is checked, an access to
    memory that holds nothing) or [Hang] (a loop that does not end within its fuel).  Stateful
    code is in the state monad [M S A]; Rust's [Result] is [result], an ordinary value.
    Machine integers are [Z] with their width written out; whether an overflow panics or wraps
    is the class [Profile], so a theorem under [Profile] holds for debug and release builds.
    Pointers, [Arc]s and [RRef]s are keys of a store, so that aliasing, reference counts and
    frees are visible.  Devices and other CPUs are not code of the repository: they are scripts
    of events that happen between two accesses of the driver, and the theorems hold for every
    script.

    This file has the monad, the integers, three program logics and list lemmas.  The logics are
    [run] (the program returns and its result satisfies a condition), [ensures] (if it
    returns) and [settles] (it returns or panics, and never hangs), each with the rules for
    sequencing.  [simulates] is the functional refinement of an abstract operation;
    [runs_simulates] carries it over to every sequence of operations, and
    [runs_simulates_left] does so where the invariant counts the operations that are left.

    ** Kernel (kernel/src)

    - Buddy: memory/buddy.rs.  Free lists through the free blocks.  Every history of
      allocations and frees hands out disjoint blocks of the region, as large and aligned as
      asked for, and no call panics; each allocation and each free is exact on the free memory.
    - VSpace: arch/vspace.rs, the four-level page tables.  [map_generic] makes exactly the
      asked translation and changes no other address; it returns when pages suffice.
    - Memory: memory/mod.rs and arch/mod.rs.  The choice of the region for Buddy, the global
      allocator over it, and [construct_pt]: the kernel's own space is the identity.
      Memory discharges, with Buddy, the page source that VSpace asks for.
    - Sched: thread.rs, one CPU: run queues as chains of threads, [schedule], sleeping,
      affinity, priority, rebalancing.  [schedule_chooses]: the next thread is a runnable one of
      the highest priority.
    - Smp: several CPUs running Sched in any interleaving of kernel entries.  Every thread is in
      at most one place of the machine, and every entry returns.
    - WaitQueue: waitqueue.rs, syscalls.rs, sync/condvar.rs.  A thread that waits for an
      interrupt is woken by its signal.
    - CircularBuffer: cb.rs.
    - SharedHeap: heap.rs, dropper.rs and interface/src/rref.  The death of a domain frees
      exactly its objects and what is reachable from them along the references that cleanup
      follows, each block once.  Cleanup does not look into an [Owned].
    - RRefDeque: arrays and queues of remote references refine bounded queues.
    - SpinLocks: lib/core/spin-rs.  Mutex, RwLock and Once under every interleaving of atomic
      accesses.

    ** The xv6 file system (domains/usr/xv6/kernel/fs/src), from the disk up

    - BCache: bcache.rs over the interface [BDev]; the cache refines a map from blocks to
      contents.  The memory disk of lib/external/libmembdev is the instance.
    - Shadow: domains/usr/shadow/bdev.  The shadow restarts a crashed disk domain; clients see the
      disk itself.  A crash runs no destructors, so it may leave the lock of the device held.
    - Log: log/.  A crash between any two block writes of a commit leaves, after recovery, all or
      nothing of the transaction.
    - Tx: the interface [TxBlocks] that the upper layers use, discharged by BCache and Log.
    - Block, Inode, Directory: block.rs, icache/inode.rs.  The bitmap, the block map, reading
      and writing a file, directories, all against [TxBlocks].
    - FileSystem: the layers together.  What is written to the direct blocks of a file is what
      is read; a committed write is atomic under crashes.  Blocks behind the direct ones are
      forgotten, which is a theorem as well.
    - ICache: icache/icache.rs.  The cache of inodes and path lookup, against the interface
      [Tree] of the directory tree, which Directory's entries on disk satisfy: lookup answers as
      the tree says, unless fewer than two cache entries are unused, and gives back the
      references it takes.  Two defects are proved: an inode in use is cached twice, and closing
      never frees an inode.
    - Pipe: pipe.rs.  The bytes read are the bytes written, in order, for any readers and
      writers.
    - FdTable: sysfile.rs, opened_file.rs, cross_thread_temp_store.rs, lib/core/tls.  In every
      history an open file lives as long as a descriptor refers to it.

    ** Drivers

    - DriverCell: the cell in which a driver domain keeps its device.
    - Ixgbe, IxgbeVec: lib/devices/ixgbe and domains/sys/driver/ixgbe.  The rings of the network
      card.  In every history each packet is in one place and the card touches no packet that
      the client kept; packets are dropped only when the client's queue is full.  The older
      [Vec] interface frees buffers that it hands out.
    - Nvme, NvmeVec: lib/devices/nvme and domains/sys/driver/nvme.  The queues with their phase
      tags, the commands, and all ways to submit.  In every history each request is in one place
      and requests come back in the order sent; only with a controller that completes in order
      is that the order in which they are finished.  A submission queue that is filled to the
      last slot may never be read by the controller.
    - Virtio: lib/devices/virtio/src/defs.rs, the descriptor tables and rings with their 16-bit
      counters and the invariant that both drivers share.
    - VirtioNet, VirtioBlock: lib/devices/virtio_net, lib/devices/virtio_block and their domains.
      In every history, with a device that works in any order, packets and requests are in one
      place and each is sent or served once.

    ** Network services

    - IndexMap, SashStore: lib/external/sashstore.  The hash tables refine a map of bounded
      size; the server computes its answers as the map does, but the packet it sends for a
      successful lookup does not hold the value.
    - Utf8, Resp: the RESP codec.  Decoding an encoded value gives it back; the decoder
      returns on every input and indexes nothing out of range.
    - Maglev, Packet: domains/lib/libbenchnet.  The table is full and balanced, the cache does not
      change answers; the forwarder writes constant addresses and ignores the choice.

    ** Interaction

    Memory puts Buddy under VSpace; Smp and WaitQueue run the operations of Sched; RRefDeque runs
    on SharedHeap, and the drivers use the bounded queues that RRefDeque refines; Log runs on BCache, Tx packs
    both, Block, Inode and Directory run on Tx, FileSystem closes the stack, and ICache uses
    Directory's entries; FdTable closes ends of Pipe; SashStore and Maglev run on IndexMap;
    IxgbeVec and NvmeVec put their devices into DriverCell; VirtioNet and VirtioBlock run on Virtio.

    ** Fuel and bounds

    Loops that are not structural run on fuel, and the theorems on them say that they return:
    the queues of Sched on the number of threads plus one (a chain visits a thread once); the
    cleanup of SharedHeap on the number of allocations (each nested call removes one); the
    decoder of Resp on the length of the input (each call consumes a byte); the filling of Maglev's
    table on its size plus one; the retry of Shadow on the number of crashes to come plus one; the polling
    loops of NvmeVec on the batch or on the events of the script; the collecting loops of VirtioNet
    and VirtioBlock on the number of chains plus one (a round frees a chain).  VSpace has a bound on the calls
    by the size of the range.  No number is chosen for the sake of a proof: sizes such as
    the thirty buffers, fifty inodes, hundred descriptors and ring lengths are the code's.

    ** Parameters

    Outside crates are classes with their documented laws: the entry encoding of x86,
    byteorder, slabmalloc, and the hashers of fnv and twox-hash (of which only the width is
    used).  The addresses the allocator returns to the shared heap, the order in which a HashMap
    is visited, and the generated table of types are arguments.

    ** Not modelled

    - Assembly and hardware set-up: boot, context switch, interrupt tables, APIC, PCI
      configuration, registers of the cards, serial port and screen.  Their effect is on machine
      state that the sources do not define.
    - The loading of domains: it relies on an outside ELF parser and writes through raw pointers.
    - The TPM and AHCI code, the HTTP server, and the xv6 network domain: I/O over outside
      protocol stacks, or loops around device registers.
    - Proxies and interface glue: generated by the build, or forwarding only.
    - Exhaustion of memory and of the stack, where the code does not handle it.
    - Debug output, statistics for printing, benchmarks, user programs, host tools.
    - Memory orderings weaker than sequential consistency, and races between two kernel entries
      that the code does not lock against. *)

From Stdlib Require Import ZArith Lia.
From stdpp Require Export base gmap list numbers.
From stdpp Require Import options.

Set Default Proof Using "Type".

(** ** Outcomes of Rust code

    A Rust function either returns a value, panics (an explicit [panic!], a
    failed assertion, an out-of-range index, a checked arithmetic overflow or
    a dereference of memory that holds nothing), or, for the loops that the
    model runs on fuel, does not finish within the fuel. *)

Inductive outcome (A : Type) : Type :=
  | Done (a : A)
  | Panic
  | Hang.
Arguments Done {A} a.
Arguments Panic {A}.
Arguments Hang {A}.

(** Rust's [Result]. *)
Inductive result (E A : Type) : Type :=
  | Ok (a : A)
  | Err (e : E).
Arguments Ok {E A} a.
Arguments Err {E A} e.

Global Instance outcome_ret : MRet outcome := fun _ a => Done a.
Global Instance outcome_bind : MBind outcome := fun _ _ f m =>
  match m with Done a => f a | Panic => Panic | Hang => Hang end.

(** Stateful code: a computation over a state [S]. *)
Definition M (S A : Type) : Type := S -> outcome (A * S).

Global Instance M_ret {S} : MRet (M S) := fun _ a s => Done (a, s).
Global Instance M_bind {S} : MBind (M S) := fun _ _ f m s =>
  match m s with Done (a, s') => f a s' | Panic => Panic | Hang => Hang end.

Definition get {S} : M S S := fun s => Done (s, s).
Definition put {S} (s : S) : M S unit := fun _ => Done (tt, s).
Definition gets {S A} (f : S -> A) : M S A := fun s => Done (f s, s).
Definition modify {S} (f : S -> S) : M S unit := fun s => Done (tt, f s).
Definition panic {S A} : M S A := fun _ => Panic.
Definition hang {S A} : M S A := fun _ => Hang.
Definition lift {S A} (o : outcome A) : M S A := fun s =>
  match o with Done a => Done (a, s) | Panic => Panic | Hang => Hang end.
Definition assert {S} (b : bool) : M S unit := fun s => if b then Done (tt, s) else Panic.

(** [.expect] and [.unwrap] on an [Option]. *)
Definition expect {A} (o : option A) : outcome A :=
  match o with Some a => Done a | None => Panic end.

(** Indexing a slice, an array or a [Vec]: out of range panics. *)
Definition index {A} (l : list A) (i : nat) : outcome A := expect (l !! i).

(** ** Machine integers

    A [w]-bit unsigned integer is a [Z] in [0, 2^w).  The build profile decides
    what an overflow does: it panics when overflow checks are on (the debug
    profile) and wraps around when they are off (the release profile, which is
    the default of the Makefile). *)

Class Profile : Type := overflow_checks : bool.

Definition in_width (w a : Z) : Prop := (0 <= a < 2 ^ w)%Z.
Definition wrap (w a : Z) : Z := (a mod 2 ^ w)%Z.

Definition checked `{Profile} (w a : Z) : outcome Z :=
  if ((0 <=? a) && (a <? 2 ^ w))%Z then Done a
  else if overflow_checks then Panic else Done (wrap w a).

Definition uadd `{Profile} (w a b : Z) : outcome Z := checked w (a + b)%Z.
Definition usub `{Profile} (w a b : Z) : outcome Z := checked w (a - b)%Z.
Definition umul `{Profile} (w a b : Z) : outcome Z := checked w (a * b)%Z.

(** [a << n]: a shift by the width or more panics when overflow is checked and
    otherwise uses the low bits of the amount; the bits shifted out are lost. *)
Definition ushl `{Profile} (w a n : Z) : outcome Z :=
  if (n <? w)%Z then Done (wrap w (Z.shiftl a n))
  else if overflow_checks then Panic else Done (wrap w (Z.shiftl a (n mod w))).

(** [usize::leading_zeros] and [usize::next_power_of_two]. *)
Definition leading_zeros (w a : Z) : Z := (if a =? 0 then w else w - 1 - Z.log2 a)%Z.
Definition next_power_of_two `{Profile} (w a : Z) : outcome Z :=
  let r := (2 ^ Z.log2_up a)%Z in
  if (r <? 2 ^ w)%Z then Done r
  else if overflow_checks then Panic else Done 0%Z.

Lemma checked_ok `{Profile} w a : in_width w a -> checked w a = Done a.
Proof.
  unfold checked, in_width. intros [H1 H2].
  rewrite (proj2 (Z.leb_le _ _) H1), (proj2 (Z.ltb_lt _ _) H2). done.
Qed.

(** ** Monad laws used as rewriting and inversion rules *)

Lemma bind_Done {S A B} (m : M S A) (k : A -> M S B) s a s' :
  m s = Done (a, s') -> (m ≫= k) s = k a s'.
Proof. intros H. unfold mbind, M_bind. by rewrite H. Qed.

Lemma bind_Done_inv {S A B} (m : M S A) (k : A -> M S B) s b s'' :
  (m ≫= k) s = Done (b, s'') ->
  exists a s', m s = Done (a, s') /\ k a s' = Done (b, s'').
Proof.
  unfold mbind, M_bind. destruct (m s) as [[a s']| |] eqn:E; try discriminate.
  eauto.
Qed.

Lemma bind_gets {S A B} (f : S -> A) (k : A -> M S B) s : (gets f ≫= k) s = k (f s) s.
Proof. done. Qed.
Lemma bind_get {S B} (k : S -> M S B) s : (get ≫= k) s = k s s.
Proof. done. Qed.
Lemma bind_modify {S B} (f : S -> S) (k : unit -> M S B) s : (modify f ≫= k) s = k tt (f s).
Proof. done. Qed.
Lemma bind_mret {S A B} (a : A) (k : A -> M S B) (s : S) : ((mret a : M S A) ≫= k) s = k a s.
Proof. done. Qed.
Lemma bind_lift {S A B} (a : A) (k : A -> M S B) (s : S) : (lift (Done a) ≫= k) s = k a s.
Proof. done. Qed.
Lemma bind_assert {S B} (k : unit -> M S B) (s : S) : (assert true ≫= k) s = k tt s.
Proof. done. Qed.
Lemma bind_assoc {S A B C} (m : M S A) (f : A -> M S B) (k : B -> M S C) s :
  ((m ≫= f) ≫= k) s = (m ≫= (fun a => f a ≫= k)) s.
Proof. unfold mbind, M_bind. by destruct (m s) as [[a s']| |]. Qed.

Lemma index_Some {A} (l : list A) i a : l !! i = Some a -> index l i = Done a.
Proof. intros H. unfold index. by rewrite H. Qed.

Lemma index_Done {A} (l : list A) i a : index l i = Done a <-> l !! i = Some a.
Proof. unfold index, expect. destruct (l !! i); naive_solver. Qed.

(** Step through a computation whose first action is known. *)
Ltac mstep H := rewrite (bind_Done _ _ _ _ _ H).

(** Run the actions whose result is immediate. *)
Ltac mrun := repeat first
  [ rewrite bind_gets | rewrite bind_get | rewrite bind_modify | rewrite bind_mret
  | rewrite bind_lift | rewrite bind_assoc ].

(** Invert a computation that returned. *)
Ltac minv H :=
  let a := fresh "a" in let s := fresh "s" in let E := fresh "E" in
  apply bind_Done_inv in H; destruct H as (a & s & E & H).

(** Case analysis on every boolean comparison of the goal, by arithmetic. *)
Ltac zcase :=
  repeat match goal with
  | |- context [Z.leb ?a ?b] => destruct (Z.leb_spec a b)
  | |- context [Z.ltb ?a ?b] => destruct (Z.ltb_spec a b)
  | |- context [Z.eqb ?a ?b] => destruct (Z.eqb_spec a b)
  | |- context [Nat.leb ?a ?b] => destruct (Nat.leb_spec a b)
  | |- context [Nat.ltb ?a ?b] => destruct (Nat.ltb_spec a b)
  | |- context [Nat.eqb ?a ?b] => destruct (Nat.eqb_spec a b)
  end.

Create HintDb redleaf discriminated.
#[export] Hint Constants Opaque : redleaf.
#[export] Hint Resolve checked_ok : redleaf.

(** ** Arrays of lists *)

Lemma concat_insert_Permutation {A} (ls : list (list A)) i l l' :
  ls !! i = Some l -> concat (<[i := l']> ls) ++ l ≡ₚ l' ++ concat ls.
Proof.
  revert i. induction ls as [|x ls IH]; intros [|i] H; simplify_eq/=; [solve_Permutation|].
  rewrite <- app_assoc, IH by done. solve_Permutation.
Qed.

Lemma concat_push_Permutation {A} (ls : list (list A)) i l t :
  ls !! i = Some l -> concat (<[i := t :: l]> ls) ≡ₚ t :: concat ls.
Proof.
  intros H. apply (Permutation_app_inv_r l).
  rewrite concat_insert_Permutation by done. simpl. by rewrite Permutation_app_comm.
Qed.

Lemma concat_pop_Permutation {A} (ls : list (list A)) i l t :
  ls !! i = Some (t :: l) -> concat ls ≡ₚ t :: concat (<[i := l]> ls).
Proof.
  intros H. pose proof (concat_insert_Permutation ls i (t :: l) l H) as Hp.
  apply (Permutation_app_inv_l l). rewrite <- Hp. solve_Permutation.
Qed.

Lemma elem_of_concat {A} (ls : list (list A)) x :
  x ∈ concat ls <-> exists l, x ∈ l /\ l ∈ ls.
Proof.
  induction ls as [|k ls IH]; simpl; [set_solver|].
  rewrite elem_of_app, IH. set_solver.
Qed.

(** ** Intrusive lists

    Several components link records that live in a shared store through a
    field of the records.  [chain nx m h l] says that the list that starts at
    [h] in the store [m], linked through the field [nx], holds exactly [l]. *)

Section Chains.
Context {V : Type} (nx : V -> option nat).

Fixpoint chain (m : gmap nat V) (h : option nat) (l : list nat) : Prop :=
  match l with
  | [] => h = None
  | t :: l => h = Some t /\ exists v, m !! t = Some v /\ chain m (nx v) l
  end.

Lemma chain_agree m m' h l :
  (forall t, t ∈ l -> nx <$> m' !! t = nx <$> m !! t) -> chain m h l -> chain m' h l.
Proof.
  revert h. induction l as [|t l IH]; intros h Hag; [done|].
  intros [-> (v & Hv & Hc)]. split; [done|].
  pose proof (Hag t ltac:(set_solver)) as Ht. rewrite Hv in Ht.
  destruct (m' !! t) as [v'|] eqn:Hv'; simplify_eq/=.
  exists v'. split; [done|]. rewrite Ht. apply IH; [set_solver|done].
Qed.

Lemma chain_insert m t v h l : t ∉ l -> chain m h l -> chain (<[t := v]> m) h l.
Proof.
  intros Hn. apply chain_agree. intros x Hx. rewrite lookup_insert_ne; [done|set_solver].
Qed.

Lemma chain_in m h l t : chain m h l -> t ∈ l -> is_Some (m !! t).
Proof.
  revert h. induction l as [|x l IH]; [set_solver|].
  intros h [-> (v & Hv & Hc)] [->|Hin]%elem_of_cons; eauto.
Qed.

Lemma chain_head m h l : chain m h l -> h = head l.
Proof. destruct l; [done|]. by intros [-> _]. Qed.

Lemma chain_push m t v h l :
  t ∉ l -> nx v = h -> chain m h l -> chain (<[t := v]> m) (Some t) (t :: l).
Proof.
  intros Hn <- Hc. split; [done|]. exists v. rewrite lookup_insert_eq.
  split; [done|]. by apply chain_insert.
Qed.

Lemma chains_agree m m' hs ls :
  (forall t, t ∈ concat ls -> nx <$> m' !! t = nx <$> m !! t) ->
  Forall2 (chain m) hs ls -> Forall2 (chain m') hs ls.
Proof.
  intros Hag H. induction H as [|h l hs ls Hc H IH]; simpl in *; constructor.
  - apply (chain_agree m); [set_solver|done].
  - apply IH. set_solver.
Qed.

Lemma chains_insert m t v hs ls :
  t ∉ concat ls -> Forall2 (chain m) hs ls -> Forall2 (chain (<[t := v]> m)) hs ls.
Proof.
  intros Hn. apply chains_agree. intros x Hx. rewrite lookup_insert_ne; [done|set_solver].
Qed.

Lemma chains_in m hs ls t : Forall2 (chain m) hs ls -> t ∈ concat ls -> is_Some (m !! t).
Proof.
  intros H. induction H as [|h l hs ls Hc H IH]; simpl; [set_solver|].
  intros [Hin|Hin]%elem_of_app; eauto using chain_in.
Qed.

(** Pushing onto and popping from the queue [i] of an array of queues. *)
Lemma chains_push m t v hs ls i h l :
  (t ∉ concat ls) -> hs !! i = Some h -> ls !! i = Some l -> nx v = h ->
  Forall2 (chain m) hs ls ->
  Forall2 (chain (<[t := v]> m)) (<[i := Some t]> hs) (<[i := t :: l]> ls).
Proof.
  intros Hn Hh Hl Hv H. apply Forall2_insert.
  - by apply chains_insert.
  - apply (chain_push _ _ _ h); [|done|].
    + intros Hin. apply Hn. apply elem_of_concat. exists l.
      split; [done|by eapply list_elem_of_lookup_2].
    + eapply Forall2_lookup_lr; eauto.
Qed.

Lemma chains_pop m t v v' hs ls i l :
  NoDup (concat ls) -> ls !! i = Some (t :: l) -> m !! t = Some v ->
  Forall2 (chain m) hs ls ->
  Forall2 (chain (<[t := v']> m)) (<[i := nx v]> hs) (<[i := l]> ls).
Proof.
  intros Hnd Hl Hv H.
  destruct (Forall2_lookup_r _ _ _ _ _ H Hl) as (h & Hh & _ & (w & Hw & Hc)). simplify_eq.
  rewrite (concat_pop_Permutation _ _ _ _ Hl), list.NoDup_cons in Hnd.
  apply chains_insert; [naive_solver|]. by apply Forall2_insert.
Qed.
End Chains.

(** A duplicate-free list of keys of a finite map is no longer than the map. *)
Lemma keys_length {V} (m : gmap nat V) (l : list nat) :
  NoDup l -> (forall t, t ∈ l -> is_Some (m !! t)) -> length l <= map_size m.
Proof.
  intros Hnd Hin. change (length l <= base.size m).
  rewrite <- size_dom, <- (size_list_to_set (C := gset nat) l Hnd).
  apply subseteq_size. intros t Ht. apply elem_of_list_to_set in Ht.
  by apply elem_of_dom, Hin.
Qed.


Lemma omap_none {A B} (f : A -> option B) (l : list A) : (forall a, a ∈ l -> f a = None) -> omap f l = [].
Proof. induction l as [|a l IH]; intros Hf; [done|]. cbn. rewrite Hf by left. apply IH. intros b Hb. apply Hf. by right. Qed.

(** ** Ring buffers

    [ring buf start l]: the slots of [buf] from [start] on, modulo its length,
    hold [l]. *)
Definition ring {A} (buf : list A) (start : nat) (l : list A) : Prop :=
  forall i x, l !! i = Some x -> buf !! ((start + i) mod length buf) = Some x.

Lemma mod_slot_ne n s i j : i < j < n -> (s + i) mod n <> (s + j) mod n.
Proof.
  intros H E. pose proof (Nat.div_mod_eq (s + i) n) as E1. pose proof (Nat.div_mod_eq (s + j) n) as E2.
  rewrite E in E1.
  assert (Hq : (s + j) = (s + i) + n * ((s + j) / n - (s + i) / n) \/
               (s + i) / n > (s + j) / n) by nia.
  destruct Hq as [Hq|Hq]; [|nia]. destruct ((s + j) / n - (s + i) / n); nia.
Qed.

Section Ring.
Context {A : Type}.
Implicit Types (buf l : list A) (x : A).

Lemma ring_nil buf s : ring buf s [].
Proof. intros i x. by rewrite lookup_nil. Qed.

Lemma ring_push buf s l x :
  length l < length buf -> ring buf s l ->
  ring (<[(s + length l) mod length buf := x]> buf) s (l ++ [x]).
Proof.
  intros Hl H i y Hi. rewrite length_insert.
  apply lookup_app_Some in Hi as [Hi|[Hge Hi]].
  - pose proof (lookup_lt_Some _ _ _ Hi). rewrite list_lookup_insert_ne; [by apply H|].
    apply not_eq_sym, mod_slot_ne. lia.
  - apply list_lookup_singleton_Some in Hi as [Hz <-]. replace i with (length l) by lia.
    apply list_lookup_insert_eq. apply Nat.mod_upper_bound. lia.
Qed.

Lemma ring_head buf s x l : ring buf s (x :: l) -> buf !! (s mod length buf) = Some x.
Proof. intros H. specialize (H 0 x eq_refl). by rewrite Nat.add_0_r in H. Qed.

Lemma ring_tail buf s x l : ring buf s (x :: l) -> ring buf (S s) l.
Proof. intros H i y Hi. specialize (H (S i) y Hi). by rewrite Nat.add_succ_r in H. Qed.

(** Only the slot numbers count. *)
Lemma ring_mod buf s l : ring buf (s mod length buf) l <-> ring buf s l.
Proof.
  unfold ring. split; intros H i x Hi; specialize (H i x Hi);
    [rewrite Nat.Div0.add_mod_idemp_l in H|rewrite Nat.Div0.add_mod_idemp_l]; done.
Qed.
End Ring.

(** ** Runs of a machine, and simulation *)

Section Runs.
Context {O A S T : Type}.

Fixpoint runs (step : O -> S -> outcome (A * S)) (os : list O) (s : S) : outcome (list A * S) :=
  match os with
  | [] => Done ([], s)
  | o :: os => r ← step o s; q ← runs step os (snd r); Done (fst r :: fst q, snd q)
  end.

(** What a run shows: its answers, or how it failed. *)
Definition shows {B} (r : outcome (B * S)) : outcome B :=
  match r with Done (b, _) => Done b | Panic => Panic | Hang => Hang end.

(** The two results agree and, when there are states, these are related. *)
Definition simulates {B} (R : S -> T -> Prop) (c : outcome (B * S)) (a : outcome (B * T)) : Prop :=
  match c, a with
  | Done (b, s), Done (b', t) => b = b' /\ R s t
  | Panic, Panic | Hang, Hang => True
  | _, _ => False
  end.

Lemma simulates_Done {B} (R : S -> T -> Prop) (b : B) s t : R s t -> simulates R (Done (b, s)) (Done (b, t)).
Proof. done. Qed.
End Runs.

(** Simulations compose along a run; the relation may count the operations that are left. *)
Lemma runs_simulates_left {O A S T} (R : nat -> S -> T -> Prop) (ok : O -> Prop)
    (cstep : O -> S -> outcome (A * S)) (astep : O -> T -> outcome (A * T)) os s t :
  (forall k o s t, R (Datatypes.S k) s t -> ok o -> simulates (R k) (cstep o s) (astep o t)) ->
  Forall ok os -> R (length os) s t -> simulates (R 0) (runs cstep os s) (runs astep os t).
Proof.
  intros Hstep Hok. revert s t. induction Hok as [|o os Ho Hok IH]; intros s t HR; [done|]. cbn [runs].
  specialize (Hstep (length os) o s t HR Ho).
  destruct (cstep o s) as [[a s']| |], (astep o t) as [[a' t']| |]; try done.
  destruct Hstep as [<- HR']. specialize (IH s' t' HR'). cbn [mbind outcome_bind fst snd].
  destruct (runs cstep os s') as [[l s'']| |], (runs astep os t') as [[l' t'']| |]; try done.
  destruct IH as [<- HR'']. done.
Qed.

Lemma runs_simulates {O A S T} (R : S -> T -> Prop) (ok : O -> Prop)
    (cstep : O -> S -> outcome (A * S)) (astep : O -> T -> outcome (A * T)) os s t :
  (forall o s t, R s t -> ok o -> simulates R (cstep o s) (astep o t)) ->
  Forall ok os -> R s t -> simulates R (runs cstep os s) (runs astep os t).
Proof. intros Hstep Hok HR. apply (runs_simulates_left (fun _ => R) ok); [intros _; apply Hstep|done|done]. Qed.

Lemma simulates_shows {B S T} (R : S -> T -> Prop) (c : outcome (B * S)) (a : outcome (B * T)) :
  simulates R c a -> shows c = shows a.
Proof. destruct c as [[b s]| |], a as [[b' t]| |]; try done. by intros [<- _]. Qed.

(** ** Computations that return

    [run m s post]: [m] returns from [s], and its result satisfies [post]. *)

Definition run {S A} (m : M S A) (s : S) (post : A -> S -> Prop) : Prop := exists a s', m s = Done (a, s') /\ post a s'.

Section Run.
Context {S A B : Type}.
Implicit Types (s : S).

Lemma run_ret (a : A) s (post : A -> S -> Prop) : post a s -> run (mret a) s post.
Proof. intros Hp. by exists a, s. Qed.

Lemma run_bind (m : M S A) (k : A -> M S B) s (mid : A -> S -> Prop) post :
  run m s mid -> (forall a s', mid a s' -> run (k a) s' post) -> run (m ≫= k) s post.
Proof. intros (a & s' & E & Hm) Hk. destruct (Hk a s' Hm) as (b & s'' & E' & Hp). exists b, s''. by mstep E. Qed.

Lemma run_assoc {C} (m : M S C) (f : C -> M S A) (k : A -> M S B) s post :
  run (m ≫= (fun c => f c ≫= k)) s post -> run ((m ≫= f) ≫= k) s post.
Proof. unfold run. by rewrite bind_assoc. Qed.

Lemma run_step (m : M S A) (k : A -> M S B) s a s' post : m s = Done (a, s') -> run (k a) s' post -> run (m ≫= k) s post.
Proof. intros E (b & s'' & E' & Hp). exists b, s''. by mstep E. Qed.

Lemma run_lift (o : outcome A) (a : A) (k : A -> M S B) s post :
  o = Done a -> run (k a) s post -> run (lift o ≫= k) s post.
Proof. intros -> Hk. by apply (run_step _ _ _ a s). Qed.

Lemma run_mono (m : M S A) s (post post' : A -> S -> Prop) :
  run m s post -> (forall a s', post a s' -> post' a s') -> run m s post'.
Proof. intros (a & s' & E & Hp) Hi. exists a, s'. auto. Qed.
End Run.

(** ** What holds when a computation returns

    [ensures m s post]: if [m] returns from [s], its result satisfies [post]. *)

Definition ensures {S A} (m : M S A) (s : S) (post : A -> S -> Prop) : Prop := forall a s', m s = Done (a, s') -> post a s'.

Section Ensures.
Context {S A B : Type}.
Implicit Types (s : S).

Lemma ensures_ret (a : A) s (post : A -> S -> Prop) : post a s -> ensures (mret a) s post.
Proof. intros Hp b s' E. by injection E as <- <-. Qed.

Lemma ensures_bind (m : M S A) (k : A -> M S B) s (mid : A -> S -> Prop) post :
  ensures m s mid -> (forall a s', mid a s' -> ensures (k a) s' post) -> ensures (m ≫= k) s post.
Proof. intros Hm Hk b s'' E. minv E. eapply Hk; [by apply Hm|done]. Qed.

Lemma ensures_mono (m : M S A) s (post post' : A -> S -> Prop) :
  ensures m s post -> (forall a s', post a s' -> post' a s') -> ensures m s post'.
Proof. intros Hm Hi a s' E. by apply Hi, Hm. Qed.

Lemma ensures_lift (o : outcome A) s (post : A -> S -> Prop) : (forall a, o = Done a -> post a s) -> ensures (lift o) s post.
Proof. intros Hp a s' E. unfold lift in E. destruct o; [|done..]. injection E as <- <-. by apply Hp. Qed.

Lemma ensures_get (k : S -> M S A) s post : ensures (k s) s post -> ensures (get ≫= k) s post.
Proof. done. Qed.

Lemma ensures_lift_bind (o : outcome A) (k : A -> M S B) s post :
  (forall a, o = Done a -> ensures (k a) s post) -> ensures (lift o ≫= k) s post.
Proof. intros Hk. eapply ensures_bind; [apply (ensures_lift o s (fun a s' => o = Done a /\ s' = s)); auto|]. intros a s' [E ->]. by apply Hk. Qed.

Lemma run_ensures (m : M S A) s post : run m s post -> ensures m s post.
Proof. intros (a & s' & E & Hp) b s'' E'. rewrite E in E'. by injection E' as <- <-. Qed.
End Ensures.

(** [settles m s post]: the call comes to an end, and [post] holds if it does not panic. *)
Definition settles {S A} (m : M S A) (s : S) (post : A -> S -> Prop) : Prop :=
  match m s with Done (a, s') => post a s' | Panic => True | Hang => False end.

Section Settles.
Context {S A B : Type}.

Lemma settles_ret (a : A) (s : S) (post : A -> S -> Prop) : post a s -> settles (mret a) s post.
Proof. done. Qed.

Lemma settles_bind (m : M S A) (k : A -> M S B) s (mid : A -> S -> Prop) post :
  settles m s mid -> (forall a s', mid a s' -> settles (k a) s' post) -> settles (m ≫= k) s post.
Proof. unfold settles, mbind, M_bind. destruct (m s) as [[a s']| |]; [|done..]. intros Hm Hk. by apply Hk. Qed.

Lemma settles_mono (m : M S A) s (post post' : A -> S -> Prop) :
  settles m s post -> (forall a s', post a s' -> post' a s') -> settles m s post'.
Proof. unfold settles. destruct (m s) as [[a s']| |]; auto. Qed.

Lemma settles_lift (o : outcome A) (s : S) (post : A -> S -> Prop) : o <> Hang -> (forall a, o = Done a -> post a s) -> settles (lift o) s post.
Proof. unfold settles, lift. destruct o; auto. Qed.

Lemma run_settles (m : M S A) s post : run m s post -> settles m s post.
Proof. intros (a & s' & E & Hp). unfold settles. by rewrite E. Qed.
End Settles.
