(* ===== verification/Buddy.v ===== *)
(** * The buddy allocator of physical memory (kernel/src/memory/buddy.rs)

    The allocator owns one physical region and keeps 27 intrusive free lists:
    the list of order [n] links the free blocks of [2^(12+n)] bytes through a
    [FreeBlock] header stored in the first bytes of each block.  The model keeps
    the headers in a finite map from block address to [next] pointer, so the
    lists are pointer structures here as they are in the code. *)

From Stdlib Require Import ZArith Lia.
From stdpp Require Import gmap list numbers.
From stdpp Require Import options.
From S2P Require Import Prelude.

Local Open Scope Z_scope.

(** ** Addresses and frames *)

Definition BASE_PAGE_SIZE : Z := 4096.
Definition KERNEL_BASE : Z := 0x000000000000.
Definition HEAP_ALIGN : Z := 2 * 1024 * 1024.

Definition kernel_vaddr_to_paddr `{Profile} (v : Z) : outcome Z := usub 64 v KERNEL_BASE.
Definition paddr_to_kernel_vaddr `{Profile} (p : Z) : outcome Z := uadd 64 p KERNEL_BASE.

(** A physical region of memory. *)
Record Frame : Type := mkFrame { base : Z; size : Z }.

(** [core::alloc::Layout]: a size and a power-of-two alignment. *)
Record Layout : Type := mkLayout { lsize : Z; lalign : Z }.

Definition valid_layout (l : Layout) : Prop :=
  0 <= lsize l < 2 ^ 63 /\ exists k, 0 <= k < 63 /\ lalign l = 2 ^ k.

(** [PowersOf2::log2] for [usize] (kernel/src/prelude.rs). *)
Definition log2 `{Profile} (a : Z) : outcome Z := usub 8 63 (leading_zeros 64 a).

(** ** The allocator *)

Record BuddyFrameAllocator : Type := mkBuddy {
  region : Frame;
  free_lists : list Z;          (* null is 0 *)
  min_block_size : Z;
  min_block_size_log2 : Z
}.

(** The allocator and the [FreeBlock] headers ([block |-> next]) in memory. *)
Record bst : Type := mkBst {
  alloc : BuddyFrameAllocator;
  blocks : gmap Z Z
}.

Definition MIN_HEAP_ALIGN : Z := HEAP_ALIGN.
Definition NORDERS : nat := 27.

Definition new : BuddyFrameAllocator :=
  mkBuddy (mkFrame 0 0) (replicate NORDERS 0) BASE_PAGE_SIZE 12.

Definition get_region (b : BuddyFrameAllocator) : Frame := region b.

Definition set_free_list (b : BuddyFrameAllocator) (order : nat) (p : Z) : BuddyFrameAllocator :=
  mkBuddy (region b) (<[order := p]> (free_lists b)) (min_block_size b) (min_block_size_log2 b).
Definition set_region_size (b : BuddyFrameAllocator) (sz : Z) : BuddyFrameAllocator :=
  mkBuddy (mkFrame (base (region b)) sz) (free_lists b) (min_block_size b) (min_block_size_log2 b).
Definition set_region_base (b : BuddyFrameAllocator) (a : Z) : BuddyFrameAllocator :=
  mkBuddy (mkFrame a (size (region b))) (free_lists b) (min_block_size b) (min_block_size_log2 b).

Section Ops.
Context `{Profile}.

Definition allocation_size (b : BuddyFrameAllocator) (layout : Layout) : outcome (option Z) :=
  if MIN_HEAP_ALIGN <? lalign layout then Done None
  else
    let sz := Z.max (lsize layout) (lalign layout) in
    let sz := Z.max sz (min_block_size b) in
    sz ← next_power_of_two 64 sz;
    if sz <=? size (region b) then Done (Some sz) else Done None.

Definition layout_to_order (b : BuddyFrameAllocator) (layout : Layout) : outcome (option nat) :=
  o ← allocation_size b layout;
  match o with
  | None => Done None
  | Some s =>
      l ← log2 s;
      d ← usub 8 l (min_block_size_log2 b);
      Done (Some (Z.to_nat d))
  end.

Definition order_to_size (b : BuddyFrameAllocator) (order : nat) : outcome Z :=
  ushl 64 1 (min_block_size_log2 b + Z.of_nat order).

Definition kernel_vaddr (f : Frame) : outcome Z := paddr_to_kernel_vaddr (base f).

(** Reading and writing the free-list heads and the block headers. *)
Definition read_head (order : nat) : M bst Z := fun s =>
  lift (index (free_lists (alloc s)) order) s.
Definition write_head (order : nat) (p : Z) : M bst unit := fun s =>
  if (order <? length (free_lists (alloc s)))%nat
  then Done (tt, mkBst (set_free_list (alloc s) order p) (blocks s)) else Panic.
Definition read_next (block : Z) : M bst Z := fun s => lift (expect (blocks s !! block)) s.
Definition write_next (block p : Z) : M bst unit := modify (fun s =>
  mkBst (alloc s) (<[block := p]> (blocks s))).

Definition free_list_pop (order : nat) : M bst (option Z) :=
  candidate ← read_head order;
  if candidate =? 0 then mret None
  else
    nxt ← read_next candidate;
    _ ← write_head order nxt;
    mret (Some candidate).

Definition free_list_insert (order : nat) (free_block_ptr : Z) : M bst unit :=
  _ ← assert (negb (free_block_ptr =? 0));
  h ← read_head order;
  _ ← write_next free_block_ptr h;
  write_head order free_block_ptr.

(** [checking] points either at a list head or at the [next] field of a block. *)
Inductive cursor : Type := CHead (order : nat) | CNext (block : Z).

Definition read_cursor (c : cursor) : M bst Z :=
  match c with CHead o => read_head o | CNext b => read_next b end.
Definition write_cursor (c : cursor) (p : Z) : M bst unit :=
  match c with CHead o => write_head o p | CNext b => write_next b p end.

Fixpoint free_list_remove_loop (fuel : nat) (checking : cursor) (block_ptr : Z) : M bst bool :=
  match fuel with
  | O => hang
  | S fuel =>
      cur ← read_cursor checking;
      if cur =? 0 then mret false
      else if cur =? block_ptr then
        nxt ← read_next cur;
        _ ← write_cursor checking nxt;
        mret true
      else free_list_remove_loop fuel (CNext cur) block_ptr
  end.

(** One more step than there are block headers is enough for any acyclic list. *)
Definition free_list_remove (order : nat) (block_ptr : Z) : M bst bool :=
  n ← gets (fun s => map_size (blocks s));
  free_list_remove_loop (S n) (CHead order) block_ptr.

(** [while order > order_needed]: [n] is [order - order_needed]. *)
Fixpoint split_loop (n : nat) (block size_to_split : Z) (order : nat) : M bst unit :=
  match n with
  | O => mret tt
  | S n =>
      let size_to_split := Z.shiftr size_to_split 1 in
      let order := (order - 1)%nat in
      let split := block + size_to_split in
      _ ← free_list_insert order split;
      split_loop n block size_to_split order
  end.

Definition split_free_block (block : Z) (order order_needed : nat) : M bst unit :=
  b ← gets alloc;
  size_to_split ← lift (order_to_size b order);
  split_loop (order - order_needed) block size_to_split order.

Definition buddy (b : BuddyFrameAllocator) (order : nat) (block : Z) : outcome (option Z) :=
  rbase ← kernel_vaddr (region b);
  relative ← usub 64 block rbase;
  sz ← order_to_size b order;
  if size (region b) <=? sz then Done None
  else Done (Some (rbase + Z.lxor relative sz)).

Fixpoint allocate_loop (order_needed : nat) (orders : list nat) : M bst (option Frame) :=
  match orders with
  | [] => mret None
  | order :: orders =>
      c ← free_list_pop order;
      match c with
      | Some block =>
          _ ← (if (order_needed <? order)%nat then split_free_block block order order_needed
               else mret tt);
          p ← lift (kernel_vaddr_to_paddr block);
          b ← gets alloc;
          sz ← lift (order_to_size b order_needed);
          mret (Some (mkFrame p sz))
      | None => allocate_loop order_needed orders
      end
  end.

Definition orders_from (order : nat) : M bst (list nat) :=
  n ← gets (fun s => length (free_lists (alloc s)));
  mret (seq order (n - order)).

Definition allocate (layout : Layout) : M bst (option Frame) :=
  b ← gets alloc;
  o ← lift (layout_to_order b layout);
  match o with
  | Some order_needed =>
      orders ← orders_from order_needed;
      allocate_loop order_needed orders
  | None => mret None
  end.

Fixpoint deallocate_loop (block : Z) (orders : list nat) : M bst unit :=
  match orders with
  | [] => mret tt
  | order :: orders =>
      b ← gets alloc;
      ob ← lift (buddy b order block);
      merged ← match ob with
               | Some bud =>
                   r ← free_list_remove order bud;
                   mret (if (r : bool) then Some (Z.min block bud) else None)
               | None => mret None
               end;
      match merged with
      | Some block' => deallocate_loop block' orders
      | None => free_list_insert order block
      end
  end.

Definition deallocate (frame : Frame) (layout : Layout) : M bst unit :=
  b ← gets alloc;
  o ← lift (layout_to_order b layout);
  initial_order ← lift (expect o);
  block ← lift (kernel_vaddr frame);
  orders ← orders_from initial_order;
  deallocate_loop block orders.

Definition add_memory (r : Frame) : M bst bool :=
  b ← gets alloc;
  if base (region b) =? 0 then
    p2 ← lift (next_power_of_two 64 (size r));
    let sz := Z.shiftr p2 1 in
    _ ← modify (fun s => mkBst (set_region_size (alloc s) (size r)) (blocks s));
    b ← gets alloc;
    o ← lift (layout_to_order b (mkLayout sz 1));
    order ← lift (expect o);
    _ ← modify (fun s => mkBst (set_region_base (alloc s) (base r)) (blocks s));
    v ← lift (kernel_vaddr r);
    _ ← free_list_insert order v;
    mret true
  else mret false.

End Ops.

Definition bst0 : bst := mkBst new ∅.

(** ** Representation: the free lists as lists of blocks *)

(** The size of a block of order [n]. *)
Definition bs (n : nat) : Z := 2 ^ (12 + Z.of_nat n).

(** [lseg m p l q]: from pointer [p], following the headers of [m], the blocks
    of [l] are visited in order and the walk ends at pointer [q]. *)
Fixpoint lseg (m : gmap Z Z) (p : Z) (l : list Z) (q : Z) : Prop :=
  match l with
  | [] => p = q
  | x :: l => p = x /\ x <> 0 /\ exists nxt, m !! x = Some nxt /\ lseg m nxt l q
  end.

Definition rep (s : bst) (ls : list (list Z)) : Prop :=
  Forall2 (fun h l => lseg (blocks s) h l 0) (free_lists (alloc s)) ls.

(** How many blocks of the lists hold the byte at address [x]. *)
Definition ind (a : Z) (n : nat) (x : Z) : Z :=
  if (a <=? x) && (x <? a + bs n) then 1 else 0.
Fixpoint cnt (n : nat) (l : list Z) (x : Z) : Z :=
  match l with [] => 0 | a :: l => ind a n x + cnt n l x end.
Fixpoint cover_from (n : nat) (ls : list (list Z)) (x : Z) : Z :=
  match ls with [] => 0 | l :: ls => cnt n l x + cover_from (S n) ls x end.
Definition cover (ls : list (list Z)) (x : Z) : Z := cover_from 0 ls x.

(** A block of order [n] inside the root block ([K] is the order of the root),
    at a multiple of its size from the base of the region. *)
Definition ok_blk (B : Z) (K n : nat) (a : Z) : Prop :=
  (n <= K)%nat /\ exists k, 0 <= k /\ a = B + k * bs n /\ k * bs n + bs n <= bs K.

(** The block one could merge with: its neighbour in the pair of the next order. *)
Definition partner (B : Z) (n : nat) (a : Z) : Z :=
  B + Z.lxor ((a - B) / bs n) 1 * bs n.

Record Inv (s : bst) (B : Z) (K : nat) (ls : list (list Z)) : Prop := mkInv {
  inv_min : min_block_size (alloc s) = 4096;
  inv_log : min_block_size_log2 (alloc s) = 12;
  inv_len : length (free_lists (alloc s)) = NORDERS;
  inv_base : base (region (alloc s)) = B;
  inv_pos : 0 < B;
  inv_top : B + size (region (alloc s)) < 2 ^ 63;
  inv_root : bs K <= size (region (alloc s));
  inv_K : (K < NORDERS)%nat;
  inv_rep : rep s ls;
  inv_blk : forall n l a, ls !! n = Some l -> a ∈ l -> ok_blk B K n a;
  inv_cover : forall x, cover ls x <= 1;
  inv_coal : forall n l a, ls !! n = Some l -> a ∈ l -> partner B n a ∉ l
}.

(** *** Sizes and indicators *)

Lemma bs_pos n : 0 < bs n.
Proof. unfold bs. apply Z.pow_pos_nonneg; lia. Qed.

Lemma bs_S n : bs (S n) = 2 * bs n.
Proof. unfold bs. rewrite <- Z.pow_succ_r by lia. f_equal. lia. Qed.

Lemma bs_mono n m : (n <= m)%nat -> bs n <= bs m.
Proof. intros. unfold bs. apply Z.pow_le_mono_r; lia. Qed.

Lemma bs_mul n d : bs (n + d) = 2 ^ Z.of_nat d * bs n.
Proof. unfold bs. rewrite <- Z.pow_add_r by lia. f_equal. lia. Qed.

Lemma ind_bounds a n x : 0 <= ind a n x <= 1.
Proof. unfold ind. destruct (_ && _); lia. Qed.

Lemma ind_self a n : ind a n a = 1.
Proof. pose proof (bs_pos n). unfold ind. zcase; simpl; lia. Qed.

Lemma ind_split a n x : ind a (S n) x = ind a n x + ind (a + bs n) n x.
Proof. pose proof (bs_pos n). unfold ind. rewrite bs_S. zcase; simpl; lia. Qed.

Lemma cnt_nonneg n l x : 0 <= cnt n l x.
Proof. induction l; simpl; [lia|]. pose proof (ind_bounds a n x). lia. Qed.

Lemma cover_from_nonneg n ls x : 0 <= cover_from n ls x.
Proof. revert n. induction ls; intros n; simpl; [lia|]. pose proof (cnt_nonneg n a x). specialize (IHls (S n)). lia. Qed.

Lemma cnt_app n l1 l2 x : cnt n (l1 ++ l2) x = cnt n l1 x + cnt n l2 x.
Proof. induction l1; simpl; lia. Qed.

Lemma cnt_elem n l a x : a ∈ l -> ind a n x <= cnt n l x.
Proof.
  intros Ha. apply list_elem_of_split in Ha as (l1 & l2 & ->).
  rewrite cnt_app. simpl. pose proof (cnt_nonneg n l1 x). pose proof (cnt_nonneg n l2 x). lia.
Qed.

Lemma cover_from_insert n ls i l l' x :
  ls !! i = Some l ->
  cover_from n (<[i := l']> ls) x = cover_from n ls x - cnt (n + i) l x + cnt (n + i) l' x.
Proof.
  revert n i. induction ls as [|k ls IH]; intros n [|i] Hi; simplify_eq/=.
  - rewrite Nat.add_0_r. lia.
  - rewrite (IH (S n) i Hi). rewrite <- plus_n_Sm. simpl. lia.
Qed.

Lemma cover_insert ls i l l' x :
  ls !! i = Some l -> cover (<[i := l']> ls) x = cover ls x - cnt i l x + cnt i l' x.
Proof. apply (cover_from_insert 0). Qed.

Lemma cover_from_elem n ls i l x : ls !! i = Some l -> cnt (n + i) l x <= cover_from n ls x.
Proof.
  revert n i. induction ls as [|k ls IH]; intros n [|i] Hi; simplify_eq/=.
  - rewrite Nat.add_0_r. pose proof (cover_from_nonneg (S n) ls x). lia.
  - specialize (IH (S n) i Hi). rewrite <- plus_n_Sm. simpl in IH. pose proof (cnt_nonneg n k x). lia.
Qed.

Lemma cover_elem ls i l x : ls !! i = Some l -> cnt i l x <= cover ls x.
Proof. apply (cover_from_elem 0). Qed.

(** A block whose bytes no list holds is in no list. *)
Lemma cover_fresh ls a i l : cover ls a <= 0 -> ls !! i = Some l -> a ∉ l.
Proof.
  intros Hc Hi Ha. pose proof (cover_elem ls i l a Hi). pose proof (cnt_elem i l a a Ha).
  pose proof (ind_self a i). lia.
Qed.

(** With at most one block per byte, a block is in one list, once. *)
Lemma cover_NoDup ls i l : (forall x, cover ls x <= 1) -> ls !! i = Some l -> NoDup l.
Proof.
  intros Hc Hi. assert (Hl : forall x, cnt i l x <= 1).
  { intros x. pose proof (cover_elem ls i l x Hi). specialize (Hc x). lia. }
  clear Hc Hi. induction l as [|a l IH]; constructor.
  - intros Ha. specialize (Hl a). simpl in Hl. pose proof (cnt_elem i l a a Ha).
    pose proof (ind_self a i). lia.
  - apply IH. intros x. specialize (Hl x). simpl in Hl. pose proof (ind_bounds a i x). lia.
Qed.

Lemma cover_disjoint ls i j l l' a :
  (forall x, cover ls x <= 1) -> ls !! i = Some l -> ls !! j = Some l' -> i <> j -> a ∈ l -> a ∉ l'.
Proof.
  intros Hc Hi Hj Hne Ha Ha'. specialize (Hc a).
  pose proof (cover_insert ls i l [] a Hi) as E. simpl in E.
  assert (Hj' : <[i := []]> ls !! j = Some l') by (by rewrite list_lookup_insert_ne).
  pose proof (cover_elem _ _ _ a Hj'). pose proof (cnt_elem i l a a Ha).
  pose proof (cnt_elem j l' a a Ha'). rewrite ind_self in *. lia.
Qed.

(** *** Linked segments *)

Lemma lseg_app m p l1 l2 q :
  lseg m p (l1 ++ l2) q <-> exists r, lseg m p l1 r /\ lseg m r l2 q.
Proof.
  revert p. induction l1 as [|x l1 IH]; intros p; simpl.
  - split; [eauto|]. intros (r & -> & ?). done.
  - split.
    + intros (-> & Hx & nxt & Hm & Hl). apply IH in Hl as (r & H1 & H2). eauto 10.
    + intros (r & (-> & Hx & nxt & Hm & Hl) & H2). split; [done|]. split; [done|].
      exists nxt. split; [done|]. apply IH. eauto.
Qed.

Lemma lseg_insert_ne m p l q x v : x ∉ l -> lseg m p l q -> lseg (<[x := v]> m) p l q.
Proof.
  revert p. induction l as [|y l IH]; intros p Hx; simpl; [done|].
  apply not_elem_of_cons in Hx as [Hxy Hx].
  intros (-> & Hy & nxt & Hm & Hl). split; [done|]. split; [done|].
  exists nxt. split; [by rewrite lookup_insert_ne|]. auto.
Qed.

(** Redirecting the last header of a segment redirects the segment. *)
Lemma lseg_redirect m p l x q v :
  NoDup (l ++ [x]) -> lseg m p (l ++ [x]) q -> lseg (<[x := v]> m) p (l ++ [x]) v.
Proof.
  intros Hnd Hl. apply lseg_app in Hl as (r & Hl & (-> & Hx & nxt & Hm & ->)).
  apply lseg_app. exists x. split.
  - apply lseg_insert_ne; [|done]. apply list.NoDup_app in Hnd as (_ & Hd & _).
    intros Hin. apply (Hd x Hin). set_solver.
  - simpl. split; [done|]. split; [done|]. exists v. by rewrite lookup_insert_eq.
Qed.

Lemma lseg_dom m p l q x : lseg m p l q -> x ∈ l -> x ∈ dom m.
Proof.
  revert p. induction l as [|y l IH]; intros p Hl Hx; [set_solver|].
  destruct Hl as (-> & _ & nxt & Hm & Hl). apply elem_of_cons in Hx as [->|Hx]; [|eauto].
  apply elem_of_dom. eauto.
Qed.

(** A duplicate-free segment is no longer than the map of headers. *)
Lemma lseg_length m p l q : NoDup l -> lseg m p l q -> (length l <= map_size m)%nat.
Proof.
  intros Hnd Hl. change (map_size m) with (base.size m).
  rewrite <- (size_dom (D := gset Z)). rewrite <- (size_list_to_set (C := gset Z)) by done.
  apply subseteq_size. intros x Hx. apply elem_of_list_to_set in Hx. eauto using lseg_dom.
Qed.

Lemma rep_lookup s ls n l :
  rep s ls -> ls !! n = Some l ->
  exists h, free_lists (alloc s) !! n = Some h /\ lseg (blocks s) h l 0.
Proof. intros Hr Hn. apply (Forall2_lookup_r _ _ _ _ _ Hr Hn). Qed.

(** Changing one list: its head and the headers of blocks of no other list. *)
Lemma rep_update b m h' ls n l l' m' :
  rep (mkBst b m) ls -> ls !! n = Some l ->
  lseg m' h' l' 0 ->
  (forall i k h, i <> n -> ls !! i = Some k -> lseg m h k 0 -> lseg m' h k 0) ->
  rep (mkBst (set_free_list b n h') m') (<[n := l']> ls).
Proof.
  intros Hr Hn Hl Hoth. unfold rep in *. simpl in *.
  apply Forall2_same_length_lookup_2.
  { rewrite !length_insert. apply (Forall2_length Hr). }
  intros i h k Hh Hk.
  destruct (decide (i = n)) as [->|Hne].
  - pose proof (lookup_lt_Some _ _ _ Hn). pose proof (Forall2_length Hr).
    rewrite list_lookup_insert_eq in Hh by lia. rewrite list_lookup_insert_eq in Hk by lia.
    by simplify_eq.
  - rewrite list_lookup_insert_ne in Hh by done. rewrite list_lookup_insert_ne in Hk by done.
    eapply Hoth; [done..|]. eapply (Forall2_lookup_lr _ _ _ _ _ _ Hr); done.
Qed.

Lemma set_free_list_id b n h : free_lists b !! n = Some h -> set_free_list b n h = b.
Proof. intros Hh. destruct b. unfold set_free_list. simpl in *. by rewrite list_insert_id. Qed.

(** *** The free-list operations refine list operations *)

Section FreeLists.
Context `{Profile}.

(** Everything but the free lists and the headers is left alone. *)
Definition same_params (s s' : bst) : Prop :=
  region (alloc s') = region (alloc s) /\
  min_block_size (alloc s') = min_block_size (alloc s) /\
  min_block_size_log2 (alloc s') = min_block_size_log2 (alloc s) /\
  length (free_lists (alloc s')) = length (free_lists (alloc s)).

Lemma same_params_refl s : same_params s s.
Proof. by repeat split. Qed.

Lemma same_params_trans s1 s2 s3 : same_params s1 s2 -> same_params s2 s3 -> same_params s1 s3.
Proof. intros (?&?&?&?) (?&?&?&?). repeat split; congruence. Qed.

Lemma same_params_set b m n h m' : same_params (mkBst b m) (mkBst (set_free_list b n h) m').
Proof. repeat split. simpl. apply length_insert. Qed.

Lemma read_head_Done s n h : free_lists (alloc s) !! n = Some h -> read_head n s = Done (h, s).
Proof. intros E. unfold read_head, lift, index, expect. by rewrite E. Qed.

Lemma write_head_Done s n p :
  (n < length (free_lists (alloc s)))%nat ->
  write_head n p s = Done (tt, mkBst (set_free_list (alloc s) n p) (blocks s)).
Proof. intros E. unfold write_head. by apply Nat.ltb_lt in E as ->. Qed.

Lemma read_next_Done s x v : blocks s !! x = Some v -> read_next x s = Done (v, s).
Proof. intros E. unfold read_next, lift, expect. by rewrite E. Qed.

Lemma free_list_pop_spec s ls n l :
  rep s ls -> ls !! n = Some l ->
  match l with
  | [] => free_list_pop n s = Done (None, s)
  | a :: l' => exists s', free_list_pop n s = Done (Some a, s') /\
      rep s' (<[n := l']> ls) /\ same_params s s'
  end.
Proof.
  intros Hr Hn. destruct (rep_lookup _ _ _ _ Hr Hn) as (h & Hh & Hl).
  destruct s as [b m]. unfold free_list_pop.
  destruct l as [|a l']; simpl in Hl; rewrite (bind_Done _ _ _ _ _ (read_head_Done _ _ _ Hh)).
  - subst h. done.
  - destruct Hl as (-> & Ha & nxt & Hm & Hl). rewrite (proj2 (Z.eqb_neq a 0) Ha).
    rewrite (bind_Done _ _ _ _ _ (read_next_Done (mkBst b m) _ _ Hm)).
    rewrite (bind_Done _ _ _ _ _ (write_head_Done _ _ nxt (lookup_lt_Some _ _ _ Hh))).
    eexists. split; [done|]. split; [|apply same_params_set].
    eapply rep_update; eauto.
Qed.

Lemma free_list_insert_spec s ls n l a :
  rep s ls -> ls !! n = Some l -> a <> 0 -> (forall i k, ls !! i = Some k -> a ∉ k) ->
  exists s', free_list_insert n a s = Done (tt, s') /\
    rep s' (<[n := a :: l]> ls) /\ same_params s s'.
Proof.
  intros Hr Hn Ha Hfresh. destruct (rep_lookup _ _ _ _ Hr Hn) as (h & Hh & Hl).
  destruct s as [b m]. unfold free_list_insert.
  assert (Has : assert (negb (a =? 0)) (mkBst b m) = Done (tt, mkBst b m)).
  { unfold assert. by rewrite (proj2 (Z.eqb_neq a 0) Ha). }
  mstep Has. rewrite (bind_Done _ _ _ _ _ (read_head_Done _ _ _ Hh)). simpl.
  unfold write_next at 1. unfold mbind at 1, M_bind at 1. simpl.
  rewrite write_head_Done by (simpl; eapply lookup_lt_Some; done).
  eexists. split; [done|]. split; [|apply same_params_set]. simpl.
  eapply rep_update; [done..| |].
  - simpl. split; [done|]. split; [done|]. exists h. rewrite lookup_insert_eq.
    split; [done|]. apply lseg_insert_ne; [by eapply Hfresh|done].
  - intros. apply lseg_insert_ne; [by eapply Hfresh|done].
Qed.

(** The walk of [free_list_remove] over the segment still to be checked. *)
Lemma remove_loop_spec fuel c p s h l :
  read_cursor c s = Done (h, s) -> lseg (blocks s) h l 0 -> (length l < fuel)%nat ->
  ((p ∉ l) /\ free_list_remove_loop fuel c p s = Done (false, s)) \/
  (exists l1 l2 nxt, l = l1 ++ p :: l2 /\ (p ∉ l1) /\ lseg (blocks s) nxt l2 0 /\
     free_list_remove_loop fuel c p s =
       (_ ← write_cursor (match list.last l1 with None => c | Some x => CNext x end) nxt; mret true) s).
Proof.
  revert c h fuel. induction l as [|x l IH]; intros c h fuel Hc Hl Hf;
    (destruct fuel as [|fuel]; [simpl in Hf; lia|]).
  - simpl in Hl. subst h. left. split; [set_solver|]. simpl. by mstep Hc.
  - destruct Hl as (-> & Hx & nxt & Hm & Hl). simpl. mstep Hc.
    rewrite (proj2 (Z.eqb_neq x 0) Hx). destruct (Z.eqb_spec x p) as [->|Hne].
    + right. exists [], l, nxt. split; [done|]. split; [set_solver|]. split; [done|].
      by rewrite (bind_Done _ _ _ _ _ (read_next_Done _ _ _ Hm)).
    + destruct (IH (CNext x) nxt fuel) as [[Hp E]|(l1 & l2 & nx & -> & Hp & Hl2 & E)];
        [by apply read_next_Done | done | simpl in Hf; lia | left | right].
      * split; [set_solver|done].
      * exists (x :: l1), l2, nx. split; [done|]. split; [set_solver|]. split; [done|].
        rewrite E. rewrite list.last_cons. by destruct (list.last l1).
Qed.

Lemma free_list_remove_spec s ls n l p :
  rep s ls -> (forall x, cover ls x <= 1) -> ls !! n = Some l ->
  ((p ∉ l) /\ free_list_remove n p s = Done (false, s)) \/
  (exists l1 l2 s', l = l1 ++ p :: l2 /\ free_list_remove n p s = Done (true, s') /\
     rep s' (<[n := l1 ++ l2]> ls) /\ same_params s s').
Proof.
  intros Hr Hc Hn. destruct (rep_lookup _ _ _ _ Hr Hn) as (h & Hh & Hl).
  pose proof (cover_NoDup _ _ _ Hc Hn) as Hnd. pose proof (lseg_length _ _ _ _ Hnd Hl) as Hlen.
  destruct s as [b m]. unfold free_list_remove, gets. unfold mbind, M_bind; fold (@mbind (M bst) _).
  destruct (remove_loop_spec (S (map_size m)) (CHead n) p (mkBst b m) h l)
    as [[Hp E]|(l1 & l2 & nxt & -> & Hp & Hl2 & E)];
    [by apply read_head_Done | done | simpl in *; lia | left | right].
  - done.
  - exists l1, l2. change (blocks (mkBst b m)) with m in *. rewrite E.
    destruct (list.last l1) as [x|] eqn:Hlast.
    + apply list.last_Some in Hlast as (l1' & ->). simpl. eexists. split; [done|].
      split; [unfold mbind, M_bind, write_next, modify; simpl; done|]. simpl.
      split; [|by repeat split]. rewrite <- (set_free_list_id b n h Hh).
      eapply rep_update; [done..| |].
      * apply lseg_app. exists nxt. rewrite <- (app_assoc l1' [x] (p :: l2)) in Hl.
        rewrite <- app_assoc in Hnd. apply list.NoDup_app in Hnd as (Hnd1 & Hd & Hnd2).
        apply lseg_app in Hl as (r & Hl1 & Hl'). apply lseg_app in Hl' as (r' & Hx & Hp').
        split.
        -- eapply lseg_redirect; [|apply lseg_app; eauto].
           apply list.NoDup_app. split; [done|]. split; [|apply NoDup_singleton].
           intros y Hy. specialize (Hd y Hy). set_solver.
        -- apply lseg_insert_ne; [|done]. apply list.NoDup_app in Hnd2 as (_ & Hd2 & _).
           specialize (Hd2 x). set_solver.
      * intros i k h' Hne Hk Hlk. apply lseg_insert_ne; [|done].
        eapply cover_disjoint; [done|exact Hn|exact Hk|done|set_solver].
    + apply list.last_None in Hlast as ->. simpl.
      pose proof (write_head_Done (mkBst b m) n nxt (lookup_lt_Some _ _ _ Hh)) as Hw.
      rewrite (bind_Done _ _ _ _ _ Hw). eexists. split; [done|]. split; [done|].
      split; [|apply same_params_set]. eapply rep_update; eauto.
Qed.

End FreeLists.

(** *** Order arithmetic *)

Section Orders.
Context `{Profile}.

Lemma order_to_size_spec b n :
  min_block_size_log2 b = 12 -> (n < NORDERS)%nat -> order_to_size b n = Done (bs n).
Proof.
  intros Hb Hn. unfold order_to_size, ushl. rewrite Hb. unfold NORDERS in Hn.
  rewrite (proj2 (Z.ltb_lt _ _)) by lia. f_equal. rewrite Z.shiftl_1_l.
  apply Z.mod_small. split; [apply Z.pow_nonneg; lia|]. apply Z.pow_lt_mono_r; lia.
Qed.

Lemma bs_lt n : (n < NORDERS)%nat -> bs n < 2 ^ 63.
Proof. intros Hn. unfold NORDERS in Hn. apply Z.pow_lt_mono_r; lia. Qed.

Lemma lxor_1 k : 0 <= k -> Z.lxor k 1 = if Z.even k then k + 1 else k - 1.
Proof. intros Hk. destruct k as [|[p|p|]|p]; try done; cbn; lia. Qed.

Lemma lxor_mul_pow k j : 0 <= j -> Z.lxor (k * 2 ^ j) (2 ^ j) = Z.lxor k 1 * 2 ^ j.
Proof.
  intros Hj. rewrite <- !Z.shiftl_mul_pow2 by done.
  replace (2 ^ j) with (Z.shiftl 1 j) by (by rewrite Z.shiftl_1_l).
  by rewrite Z.shiftl_lxor.
Qed.

Lemma buddy_spec b B K n a :
  min_block_size_log2 b = 12 -> (K < NORDERS)%nat -> base (region b) = B -> 0 < B ->
  B + size (region b) < 2 ^ 63 -> bs K <= size (region b) -> ok_blk B K n a ->
  buddy b n a = Done (if size (region b) <=? bs n then None else Some (partner B n a)).
Proof.
  intros Hlog HK HB Hpos Htop Hroot (Hn & k & Hk & -> & Hin).
  pose proof (bs_pos n). pose proof (bs_pos K).
  unfold buddy, kernel_vaddr, paddr_to_kernel_vaddr, uadd, usub, KERNEL_BASE. rewrite HB, Z.add_0_r.
  rewrite checked_ok by (unfold in_width; lia). simpl.
  rewrite checked_ok by (unfold in_width; nia). simpl.
  rewrite order_to_size_spec by (done || lia). simpl. destruct (_ <=? _); [done|].
  do 2 f_equal. unfold partner. replace (B + k * bs n - B) with (k * bs n) by lia.
  rewrite Z.div_mul by lia. f_equal. apply lxor_mul_pow. lia.
Qed.

(** Two partners inside the root are the halves of a block of the next order. *)
Lemma partner_merge B K n a :
  ok_blk B K n a -> ok_blk B K n (partner B n a) ->
  ok_blk B K (S n) (Z.min a (partner B n a)) /\
  forall x, ind (Z.min a (partner B n a)) (S n) x = ind a n x + ind (partner B n a) n x.
Proof.
  intros (Hn & k & Hk & -> & Hin) (_ & k' & Hk' & Hp & Hin').
  pose proof (bs_pos n). unfold partner in *.
  replace (B + k * bs n - B) with (k * bs n) in * by lia. rewrite Z.div_mul in * by lia.
  assert (Hlt : (n < K)%nat).
  { destruct (decide (n = K)) as [->|]; [|lia]. assert (k = 0 /\ k' = 0) as [-> ->] by nia.
    change (Z.lxor 0 1) with 1 in Hp. lia. }
  rewrite lxor_1 in * by done.
  assert (HK : bs K = 2 ^ Z.of_nat (K - S n) * bs (S n)) by (rewrite <- bs_mul; f_equal; lia).
  rewrite bs_S in HK. pose proof (Z.pow_pos_nonneg 2 (Z.of_nat (K - S n)) ltac:(lia) ltac:(lia)).
  destruct (Z.even k) eqn:E.
  - apply Z.even_spec in E as [j ->]. rewrite Z.min_l by nia. split.
    + split; [lia|]. exists j. rewrite bs_S. split; [lia|]. split; [lia|]. nia.
    + intros x. rewrite ind_split. do 2 f_equal. lia.
  - assert (Ho : Z.odd k = true) by (rewrite <- Z.negb_even, E; done).
    apply Z.odd_spec in Ho as [j ->]. rewrite Z.min_r by nia. split.
    + split; [lia|]. exists j. rewrite bs_S. split; [lia|]. split; [lia|]. nia.
    + intros x. rewrite ind_split. rewrite Z.add_comm. do 2 f_equal. lia.
Qed.

(** The two halves of a block inside the root. *)
Lemma ok_blk_halves B K n a :
  ok_blk B K (S n) a -> ok_blk B K n a /\ ok_blk B K n (a + bs n).
Proof.
  intros (Hn & k & Hk & -> & Hin). pose proof (bs_pos n). rewrite bs_S in *. split.
  - split; [lia|]. exists (2 * k). split; [lia|]. split; nia.
  - split; [lia|]. exists (2 * k + 1). split; [lia|]. split; nia.
Qed.

Lemma ok_blk_pos B K n a : 0 < B -> ok_blk B K n a -> 0 < a.
Proof. intros HB (_ & k & Hk & -> & _). pose proof (bs_pos n). nia. Qed.

(** Rebuilding the invariant after one list changed. *)
Lemma Inv_update s s' B K ls n l l' :
  Inv s B K ls -> same_params s s' -> ls !! n = Some l -> rep s' (<[n := l']> ls) ->
  (forall a, a ∈ l' -> ok_blk B K n a) ->
  (forall x, cover ls x - cnt n l x + cnt n l' x <= 1) ->
  (forall a, a ∈ l' -> partner B n a ∉ l') ->
  Inv s' B K (<[n := l']> ls).
Proof.
  intros [] (Hr & Hm & Hg & Hl) Hn Hrep Hblk Hcov Hcoal.
  constructor; try (rewrite ?Hr, ?Hm, ?Hg, ?Hl; done).
  - intros i k a Hi Ha. destruct (decide (i = n)) as [->|Hne].
    + rewrite list_lookup_insert_eq in Hi by (by eapply lookup_lt_Some). simplify_eq. auto.
    + rewrite list_lookup_insert_ne in Hi by done. eauto.
  - intros x. rewrite (cover_insert _ _ l) by done. auto.
  - intros i k a Hi Ha. destruct (decide (i = n)) as [->|Hne].
    + rewrite list_lookup_insert_eq in Hi by (by eapply lookup_lt_Some). simplify_eq. auto.
    + rewrite list_lookup_insert_ne in Hi by done. eauto.
Qed.

Lemma Inv_lookup s B K ls n : Inv s B K ls -> (n <= K)%nat -> exists l, ls !! n = Some l.
Proof.
  intros HI Hn. apply lookup_lt_is_Some_2. rewrite <- (Forall2_length (inv_rep _ _ _ _ HI)).
  rewrite (inv_len _ _ _ _ HI). pose proof (inv_K _ _ _ _ HI). lia.
Qed.

(** Taking blocks out of a list keeps the invariant. *)
Lemma Inv_sublist s s' B K ls n l l' :
  Inv s B K ls -> same_params s s' -> ls !! n = Some l -> rep s' (<[n := l']> ls) ->
  l' ⊆ l -> (forall x, cnt n l' x <= cnt n l x) -> Inv s' B K (<[n := l']> ls).
Proof.
  intros HI Hp Hn Hr Hsub Hcnt. eapply Inv_update; try done.
  - intros a Ha. eapply (inv_blk _ _ _ _ HI); [done|]. by apply Hsub.
  - intros x. specialize (Hcnt x). pose proof (inv_cover _ _ _ _ HI x). lia.
  - intros a Ha Hpa. apply (inv_coal _ _ _ _ HI n l a Hn); apply Hsub; done.
Qed.

Lemma partner_invol B K n a b :
  ok_blk B K n a -> ok_blk B K n b -> partner B n b = a -> b = partner B n a.
Proof.
  intros (_ & k & Hk & -> & _) (_ & j & Hj & -> & _). pose proof (bs_pos n). unfold partner.
  replace (B + j * bs n - B) with (j * bs n) by lia. rewrite Z.div_mul by lia. intros E.
  replace (B + k * bs n - B) with (k * bs n) by lia. rewrite Z.div_mul by lia.
  assert (Z.lxor j 1 = k) as <- by nia.
  by rewrite Z.lxor_assoc, Z.lxor_nilpotent, Z.lxor_0_r.
Qed.

Lemma partner_upper B K n a : ok_blk B K (S n) a -> partner B n (a + bs n) = a.
Proof.
  intros (_ & k & Hk & -> & _). pose proof (bs_pos n). unfold partner. rewrite bs_S.
  replace (B + k * (2 * bs n) + bs n - B) with ((2 * k + 1) * bs n) by lia.
  rewrite Z.div_mul by lia. rewrite lxor_1 by lia.
  replace (2 * k + 1) with (1 + 2 * k) by lia. rewrite Z.even_add_mul_2.
  change (Z.even 1) with false. cbv iota. lia.
Qed.

Lemma partner_ne B n a b : ok_blk B b n a -> partner B n a <> a.
Proof.
  intros (_ & k & Hk & -> & _). pose proof (bs_pos n). unfold partner.
  replace (B + k * bs n - B) with (k * bs n) by lia. rewrite Z.div_mul by lia.
  rewrite lxor_1 by done. destruct (Z.even k); nia.
Qed.

(** Giving a block whose partner is not free back to its list. *)
Lemma insert_Inv s B K ls n l a :
  Inv s B K ls -> ok_blk B K n a -> (forall x, cover ls x + ind a n x <= 1) ->
  ls !! n = Some l -> partner B n a ∉ l ->
  exists s' ls', free_list_insert n a s = Done (tt, s') /\ Inv s' B K ls' /\ same_params s s' /\
    ls' = <[n := a :: l]> ls /\ forall x, cover ls' x = cover ls x + ind a n x.
Proof.
  intros HI Hok Hc Hn Hpart.
  destruct (free_list_insert_spec s ls n l a) as (s' & E & Hr & Hp).
  { apply HI. } { done. } { pose proof (ok_blk_pos _ _ _ _ (inv_pos _ _ _ _ HI) Hok). lia. }
  { intros i k Hi. eapply cover_fresh; [|done]. specialize (Hc a). rewrite ind_self in Hc. lia. }
  exists s', (<[n := a :: l]> ls). split; [done|].
  assert (Hcov : forall x, cover (<[n := a :: l]> ls) x = cover ls x + ind a n x).
  { intros x. rewrite (cover_insert _ _ l) by done. simpl. lia. }
  split; [|by repeat split; try apply Hp]. eapply Inv_update; try done.
  - intros y [->|Hy]%elem_of_cons; [done|]. eapply (inv_blk _ _ _ _ HI); done.
  - intros x. specialize (Hc x). simpl. lia.
  - intros y [->|Hy]%elem_of_cons [Hyp|Hyp]%elem_of_cons.
    + by eapply partner_ne.
    + done.
    + apply Hpart. rewrite <- (partner_invol B K n a y); [done|done| |done].
      by eapply (inv_blk _ _ _ _ HI).
    + by apply (inv_coal _ _ _ _ HI n l y Hn Hy).
Qed.

Lemma pop_Inv s B K ls n a l :
  Inv s B K ls -> ls !! n = Some (a :: l) ->
  exists s' ls', free_list_pop n s = Done (Some a, s') /\ Inv s' B K ls' /\ same_params s s' /\
    ok_blk B K n a /\ forall x, cover ls' x + ind a n x = cover ls x.
Proof.
  intros HI Hn. destruct (free_list_pop_spec s ls n (a :: l)) as (s' & E & Hr & Hp);
    [apply HI|done|]. exists s', (<[n := l]> ls). split; [done|].
  split; [|split; [done|split]].
  - eapply Inv_sublist; [done..| |]; [set_solver|].
    intros x. simpl. pose proof (ind_bounds a n x). lia.
  - eapply (inv_blk _ _ _ _ HI); [done|set_solver].
  - intros x. rewrite (cover_insert _ _ (a :: l)) by done. simpl. lia.
Qed.

(** Splitting: the upper halves go back to the lists of the lower orders. *)
Lemma split_loop_spec d needed s B K ls a :
  Inv s B K ls -> ok_blk B K (needed + d) a -> (forall x, cover ls x + ind a (needed + d) x <= 1) ->
  exists s' ls', split_loop d a (bs (needed + d)) (needed + d) s = Done (tt, s') /\
    Inv s' B K ls' /\ same_params s s' /\
    forall x, cover ls' x + ind a needed x = cover ls x + ind a (needed + d) x.
Proof.
  revert s ls. induction d as [|d IH]; intros s ls HI Hok Hc; simpl.
  - exists s, ls. rewrite Nat.add_0_r. split; [done|]. split; [done|].
    split; [apply same_params_refl|]. lia.
  - rewrite <- plus_n_Sm in *. pose proof (partner_upper _ _ _ _ Hok) as Hup.
    apply ok_blk_halves in Hok as [Hlo Hhi].
    assert (Hsp : forall x, ind a (S (needed + d)) x
      = ind a (needed + d) x + ind (a + bs (needed + d)) (needed + d) x) by (intros; apply ind_split).
    rewrite Nat.sub_1_r. simpl Nat.pred.
    assert (Esz : Z.shiftr (bs (S (needed + d))) 1 = bs (needed + d)).
    { rewrite Z.shiftr_div_pow2 by lia. rewrite bs_S. change (2 ^ 1) with 2.
      rewrite Z.mul_comm. apply Z.div_mul. lia. }
    rewrite Esz. destruct (Inv_lookup _ _ _ _ (needed + d) HI (proj1 Hlo)) as (l & Hl).
    assert (Ha : cover ls a <= 0).
    { specialize (Hc a). rewrite Hsp, ind_self in Hc.
      pose proof (ind_bounds (a + bs (needed + d)) (needed + d) a). lia. }
    destruct (insert_Inv s B K ls (needed + d) l (a + bs (needed + d)))
      as (s1 & ls1 & E1 & HI1 & Hp1 & _ & Hc1); [done|done| |done| |].
    { intros x. specialize (Hc x). rewrite Hsp in Hc. pose proof (ind_bounds a (needed + d) x). lia. }
    { rewrite Hup. by eapply cover_fresh. }
    mstep E1. destruct (IH s1 ls1) as (s2 & ls2 & E2 & HI2 & Hp2 & Hc2); [done|done| |].
    { intros x. rewrite Hc1. specialize (Hc x). rewrite Hsp in Hc. lia. }
    exists s2, ls2. split; [done|]. split; [done|]. split; [by eapply same_params_trans|].
    intros x. rewrite Hc2, Hc1, Hsp. lia.
Qed.


Lemma deallocate_loop_spec m n s B K ls a :
  (n + m)%nat = NORDERS -> Inv s B K ls -> ok_blk B K n a ->
  (forall x, cover ls x + ind a n x <= 1) ->
  exists s' ls', deallocate_loop a (seq n m) s = Done (tt, s') /\ Inv s' B K ls' /\
    same_params s s' /\ forall x, cover ls' x = cover ls x + ind a n x.
Proof.
  revert n s ls a. induction m as [|m IH]; intros n s ls a Hm HI Hok Hc.
  { pose proof (inv_K _ _ _ _ HI). destruct Hok. lia. }
  simpl. destruct (Inv_lookup _ _ _ _ n HI (proj1 Hok)) as (l & Hl).
  assert (Hb := buddy_spec (alloc s) B K n a (inv_log _ _ _ _ HI) (inv_K _ _ _ _ HI)
    (inv_base _ _ _ _ HI) (inv_pos _ _ _ _ HI) (inv_top _ _ _ _ HI) (inv_root _ _ _ _ HI) Hok).
  unfold gets at 1. unfold mbind at 1, M_bind at 1. rewrite Hb.
  unfold mbind at 1, M_bind at 1, lift at 1.
  destruct (Z.leb_spec (size (region (alloc s))) (bs n)) as [Hbig|Hsmall].
  - (* the whole region: no partner can be free *)
    destruct (insert_Inv s B K ls n l a) as (s' & ls' & E & HI' & Hp & _ & Hc'); try done.
    { intros Hin. pose proof (inv_blk _ _ _ _ HI _ _ _ Hl Hin) as Hok'.
      pose proof (partner_merge _ _ _ _ Hok Hok') as [[Hlt _] _].
      pose proof (inv_root _ _ _ _ HI). pose proof (bs_pos n).
      pose proof (bs_mono (S n) K Hlt). rewrite bs_S in *. lia. }
    exists s', ls'. done.
  - destruct (free_list_remove_spec s ls n l (partner B n a))
      as [[Hno E]|(l1 & l2 & s1 & -> & E & Hr & Hp)];
      [apply HI|apply HI|done| |]; rewrite (bind_Done _ _ s _ _ (bind_Done _ _ _ _ _ E)); simpl.
    + destruct (insert_Inv s B K ls n l a) as (s' & ls' & E' & HI' & Hp & _ & Hc'); try done.
      exists s', ls'. done.
    + assert (Hok' : ok_blk B K n (partner B n a)).
      { eapply (inv_blk _ _ _ _ HI); [done|set_solver]. }
      destruct (partner_merge _ _ _ _ Hok Hok') as [Hokm Hind].
      assert (Hc1 : forall x, cover (<[n := l1 ++ l2]> ls) x = cover ls x - ind (partner B n a) n x).
      { intros x. rewrite (cover_insert _ _ _ _ _ Hl). rewrite !cnt_app. simpl. lia. }
      destruct (IH (S n) s1 (<[n := l1 ++ l2]> ls) (Z.min a (partner B n a)))
        as (s' & ls' & E' & HI' & Hp' & Hc'); [lia| |done| |].
      * eapply Inv_sublist; [done..| |]; [set_solver|].
        intros x. rewrite !cnt_app. simpl. pose proof (ind_bounds (partner B n a) n x). lia.
      * intros x. rewrite Hc1, Hind. specialize (Hc x). lia.
      * exists s', ls'. split; [done|]. split; [done|]. split; [by eapply same_params_trans|].
        intros x. rewrite Hc', Hc1, Hind. lia.
Qed.

Lemma ok_blk_shrink B K n d a : ok_blk B K (n + d) a -> ok_blk B K n a.
Proof.
  induction d as [|d IHd]; [by rewrite Nat.add_0_r|].
  rewrite <- plus_n_Sm. intros Hk. apply IHd. by apply ok_blk_halves in Hk as [? _].
Qed.

Lemma maybe_split_spec s B K ls a n needed :
  Inv s B K ls -> ok_blk B K n a -> (needed <= n)%nat -> (forall x, cover ls x + ind a n x <= 1) ->
  exists s' ls', (if (needed <? n)%nat then split_free_block a n needed else mret tt) s
       = Done (tt, s') /\ Inv s' B K ls' /\ same_params s s' /\ ok_blk B K needed a /\
       forall x, cover ls' x + ind a needed x = cover ls x + ind a n x.
Proof.
  intros HI Hok Hle Hc. destruct (Nat.ltb_spec needed n) as [Hlt|Hge].
  - unfold split_free_block, gets. unfold mbind, M_bind, lift. fold (@mbind (M bst) _).
    pose proof (inv_K _ _ _ _ HI). assert (n <= K)%nat by apply Hok.
    rewrite order_to_size_spec by (apply HI || lia).
    replace n with (needed + (n - needed))%nat in * by lia.
    replace (needed + (n - needed) - needed)%nat with (n - needed)%nat by lia.
    destruct (split_loop_spec (n - needed) needed s B K ls a)
      as (s' & ls' & E' & HI' & Hp' & Hc'); [done|done|done|].
    exists s', ls'. eauto 10 using ok_blk_shrink.
  - assert (n = needed) as -> by lia. exists s, ls. split; [done|]. split; [done|].
    split; [apply same_params_refl|]. done.
Qed.

Lemma allocate_loop_spec m n needed s B K ls :
  (n + m)%nat = NORDERS -> (needed <= n)%nat -> Inv s B K ls ->
  (allocate_loop needed (seq n m) s = Done (None, s) /\
     forall i l, (n <= i)%nat -> ls !! i = Some l -> l = []) \/
  (exists a s' ls', allocate_loop needed (seq n m) s = Done (Some (mkFrame a (bs needed)), s') /\
     Inv s' B K ls' /\ same_params s s' /\ ok_blk B K needed a /\
     forall x, cover ls' x + ind a needed x = cover ls x).
Proof.
  revert n. induction m as [|m IH]; intros n Hm Hn HI; simpl.
  { left. split; [done|]. intros i l Hi Hl. apply lookup_lt_Some in Hl.
    rewrite <- (Forall2_length (inv_rep _ _ _ _ HI)), (inv_len _ _ _ _ HI) in Hl. lia. }
  assert (exists l, ls !! n = Some l) as (l & Hl).
  { apply lookup_lt_is_Some_2. rewrite <- (Forall2_length (inv_rep _ _ _ _ HI)), (inv_len _ _ _ _ HI). lia. }
  destruct l as [|a l].
  - pose proof (free_list_pop_spec s ls n [] (inv_rep _ _ _ _ HI) Hl) as E. mstep E.
    destruct (IH (S n)) as [[E' Hall]|Hsome]; [lia|lia|done| |right; done].
    left. split; [done|]. intros i k Hi Hk. destruct (decide (i = n)) as [->|].
    + by simplify_eq.
    + eapply Hall; [|done]. lia.
  - right. destruct (pop_Inv s B K ls n a l HI Hl) as (s1 & ls1 & E & HI1 & Hp1 & Hok & Hc1).
    mstep E.
    destruct (maybe_split_spec s1 B K ls1 a n needed)
      as (s' & ls' & E' & HI' & Hp' & Hok' & Hc'); [done|done|lia| |].
    { intros x. specialize (Hc1 x). pose proof (inv_cover _ _ _ _ HI x). lia. }
    mstep E'. pose proof (ok_blk_pos _ _ _ _ (inv_pos _ _ _ _ HI) Hok') as Hapos.
    destruct Hok' as (HnK & k & Hk & -> & Hin).
    assert (Ev : kernel_vaddr_to_paddr (B + k * bs needed) = Done (B + k * bs needed)).
    { unfold kernel_vaddr_to_paddr, usub, KERNEL_BASE. rewrite Z.sub_0_r. apply checked_ok.
      pose proof (inv_top _ _ _ _ HI). pose proof (inv_root _ _ _ _ HI). pose proof (bs_pos needed).
      unfold in_width. lia. }
    exists (B + k * bs needed), s', ls'. rewrite Ev. unfold gets, lift, mbind, M_bind.
    rewrite order_to_size_spec by (apply HI' || (pose proof (inv_K _ _ _ _ HI); lia)).
    split; [done|]. split; [done|]. split; [by eapply same_params_trans|].
    split; [split; [done|by exists k]|]. intros x. rewrite Hc', Hc1. done.
Qed.


(** The order that a layout asks for. *)
Definition order_of (l : Layout) : nat :=
  Z.to_nat (Z.log2_up (Z.max (Z.max (lsize l) (lalign l)) 4096) - 12).

Lemma order_of_size l :
  bs (order_of l) = 2 ^ Z.log2_up (Z.max (Z.max (lsize l) (lalign l)) 4096).
Proof.
  unfold bs, order_of. f_equal. rewrite Z2Nat.id; [lia|].
  pose proof (Z.log2_up_le_mono 4096 (Z.max (Z.max (lsize l) (lalign l)) 4096) ltac:(lia)) as Hm.
  change (Z.log2_up 4096) with 12 in Hm. lia.
Qed.

Lemma order_of_fits l : lsize l <= bs (order_of l) /\ lalign l <= bs (order_of l).
Proof.
  rewrite order_of_size. set (m := Z.max _ _).
  pose proof (Z.log2_log2_up_spec m ltac:(lia)) as [_ Hm]. lia.
Qed.

Lemma layout_to_order_spec b l :
  valid_layout l -> min_block_size b = 4096 -> min_block_size_log2 b = 12 ->
  layout_to_order b l =
    Done (if (lalign l <=? MIN_HEAP_ALIGN) && (bs (order_of l) <=? size (region b))
          then Some (order_of l) else None).
Proof.
  intros [Hsz (k & Hk & Hal)] Hmin Hlog. unfold layout_to_order, allocation_size. rewrite Hmin, Hlog.
  rewrite Z.ltb_antisym. destruct (Z.leb_spec (lalign l) MIN_HEAP_ALIGN); simpl; [|done].
  rewrite order_of_size. set (m := Z.max (Z.max (lsize l) (lalign l)) 4096).
  assert (Hm : 12 <= Z.log2_up m <= 63).
  { split.
    - change 12 with (Z.log2_up 4096). apply Z.log2_up_le_mono. lia.
    - change 63 with (Z.log2_up (2 ^ 63)). apply Z.log2_up_le_mono.
      assert (2 ^ k < 2 ^ 63) by (apply Z.pow_lt_mono_r; lia). lia. }
  unfold next_power_of_two. rewrite (proj2 (Z.ltb_lt _ _)) by (apply Z.pow_lt_mono_r; lia). simpl.
  destruct (Z.leb_spec (2 ^ Z.log2_up m) (size (region b))); simpl; [|done].
  unfold log2, leading_zeros, usub. pose proof (Z.pow_pos_nonneg 2 (Z.log2_up m) ltac:(lia) ltac:(lia)).
  rewrite (proj2 (Z.eqb_neq _ _)) by lia. rewrite Z.log2_pow2 by lia.
  rewrite checked_ok by (unfold in_width; lia). simpl.
  rewrite checked_ok by (unfold in_width; lia). simpl.
  unfold order_of. fold m. do 3 f_equal. lia.
Qed.

(** Does the frame hold the byte at [x]? *)
Definition in_frame (f : Frame) (x : Z) : Z :=
  if (base f <=? x) && (x <? base f + size f) then 1 else 0.

Lemma Inv_size s B K ls : Inv s B K ls -> 0 < size (region (alloc s)).
Proof. intros HI. pose proof (inv_root _ _ _ _ HI). pose proof (bs_pos K). lia. Qed.

(** What one call of [allocate] promises. *)
Definition allocate_post (l : Layout) (B : Z) (K : nat) (ls : list (list Z)) (s : bst)
    (r : option Frame) (s' : bst) (ls' : list (list Z)) : Prop :=
  match r with
  | Some f =>
      lsize l <= size f /\ lalign l <= size f /\ lalign l <= MIN_HEAP_ALIGN /\
      size f = bs (order_of l) /\ (base f - B) mod size f = 0 /\ B <= base f /\ base f + size f <= B + bs K /\
      forall x, cover ls x = cover ls' x + in_frame f x
  | None =>
      s' = s /\ (MIN_HEAP_ALIGN < lalign l \/ size (region (alloc s)) < bs (order_of l) \/
                 forall n k, (order_of l <= n)%nat -> ls !! n = Some k -> k = [])
  end.

Lemma allocate_ok s B K ls l :
  Inv s B K ls -> valid_layout l ->
  exists r s' ls', allocate l s = Done (r, s') /\ Inv s' B K ls' /\ same_params s s' /\
    allocate_post l B K ls s r s' ls'.
Proof.
  intros HI Hv. unfold allocate, gets. unfold mbind, M_bind, lift. fold (@mbind (M bst) _).
  rewrite layout_to_order_spec by (done || apply HI).
  destruct (Z.leb_spec (lalign l) MIN_HEAP_ALIGN) as [Hal|Hal]; simpl;
    [destruct (Z.leb_spec (bs (order_of l)) (size (region (alloc s)))) as [Hfit|Hfit]; simpl|].
  2,3: exists None, s, ls; split; [done|]; split; [done|]; split; [apply same_params_refl|];
    split; [done|]; lia.
  rewrite (inv_len _ _ _ _ HI). destruct (decide (order_of l < NORDERS)%nat) as [Hlt|Hge].
  - destruct (allocate_loop_spec (NORDERS - order_of l) (order_of l) (order_of l) s B K ls)
      as [[E Hall]|(a & s' & ls' & E & HI' & Hp & Hok & Hc)]; [lia|lia|done| |].
    + exists None, s, ls. rewrite E. split; [done|]. split; [done|]. split; [apply same_params_refl|].
      split; [done|]. right. right. done.
    + exists (Some (mkFrame a (bs (order_of l)))), s', ls'. rewrite E.
      split; [done|]. split; [done|]. split; [done|]. simpl.
      pose proof (order_of_fits l). destruct Hok as (_ & k & Hk & -> & Hin).
      pose proof (bs_pos (order_of l)). split; [lia|]. split; [lia|]. split; [done|]. split; [done|].
      split; [|split; [nia|split; [lia|]]].
      * replace (B + k * bs (order_of l) - B) with (k * bs (order_of l)) by lia. apply Z.mod_mul. lia.
      * intros x. rewrite <- Hc. done.
  - replace (NORDERS - order_of l)%nat with 0%nat by lia. simpl. exists None, s, ls.
    split; [done|]. split; [done|]. split; [apply same_params_refl|]. split; [done|].
    right. right. intros n k Hn Hk. apply lookup_lt_Some in Hk.
    rewrite <- (Forall2_length (inv_rep _ _ _ _ HI)), (inv_len _ _ _ _ HI) in Hk. lia.
Qed.

(** A frame that may be given back under a layout: a block of the order of the
    layout, inside the root block, none of whose bytes is free. *)
Definition allocated (B : Z) (K : nat) (ls : list (list Z)) (f : Frame) (l : Layout) : Prop :=
  ok_blk B K (order_of l) (base f) /\ size f = bs (order_of l) /\
  forall x, cover ls x + in_frame f x <= 1.

Lemma deallocate_ok s B K ls l f :
  Inv s B K ls -> valid_layout l -> lalign l <= MIN_HEAP_ALIGN -> allocated B K ls f l ->
  exists s' ls', deallocate f l s = Done (tt, s') /\ Inv s' B K ls' /\ same_params s s' /\
    forall x, cover ls' x = cover ls x + in_frame f x.
Proof.
  intros HI Hv Hal (Hok & Hsz & Hc). unfold deallocate, gets. unfold mbind, M_bind, lift, expect.
  fold (@mbind (M bst) _). rewrite layout_to_order_spec by (done || apply HI).
  pose proof (inv_root _ _ _ _ HI). pose proof (bs_mono _ _ (proj1 Hok)). pose proof (inv_K _ _ _ _ HI).
  rewrite (proj2 (Z.leb_le _ _) Hal), (proj2 (Z.leb_le (bs _) _)) by lia. simpl.
  unfold kernel_vaddr, paddr_to_kernel_vaddr, uadd, KERNEL_BASE. rewrite Z.add_0_r.
  rewrite checked_ok.
  2: { destruct Hok as (_ & k & Hk & -> & Hin). pose proof (inv_top _ _ _ _ HI).
       pose proof (inv_pos _ _ _ _ HI). pose proof (bs_pos (order_of l)). unfold in_width. nia. }
  rewrite (inv_len _ _ _ _ HI).
  assert (Hi : forall x, in_frame f x = ind (base f) (order_of l) x).
  { intros x. unfold in_frame, ind. by rewrite Hsz. }
  destruct (deallocate_loop_spec (NORDERS - order_of l) (order_of l) s B K ls (base f))
    as (s' & ls' & E & HI' & Hp & Hc'); [destruct Hok; lia|done|done| |].
  { intros x. rewrite <- Hi. apply Hc. }
  exists s', ls'. split; [done|]. split; [done|]. split; [done|]. intros x. by rewrite Hi, Hc'.
Qed.

End Orders.

(** ** Properties of the allocator *)

Section Properties.
Context `{Profile}.

(** The order of the root block that [add_memory] frees. *)
Definition root_order (sz : Z) : nat := order_of (mkLayout (Z.shiftr (2 ^ Z.log2_up sz) 1) 1).

Lemma root_order_size sz :
  4096 <= sz -> bs (root_order sz) = Z.max 4096 (2 ^ (Z.log2_up sz - 1)).
Proof.
  intros Hsz. unfold root_order. rewrite order_of_size. simpl lsize. simpl lalign.
  assert (Hl : 12 <= Z.log2_up sz) by (change 12 with (Z.log2_up 4096); apply Z.log2_up_le_mono; lia).
  rewrite Z.shiftr_div_pow2 by lia. rewrite <- Z.pow_sub_r by lia.
  assert (H1 : 1 <= 2 ^ (Z.log2_up sz - 1)).
  { pose proof (Z.pow_pos_nonneg 2 (Z.log2_up sz - 1) ltac:(lia) ltac:(lia)). lia. }
  rewrite (Z.max_l _ 1) by lia. destruct (Z.max_spec 4096 (2 ^ (Z.log2_up sz - 1))) as [[Hlt ->]|[Hle ->]].
  - rewrite Z.max_l by lia. rewrite Z.log2_up_pow2 by lia. done.
  - rewrite Z.max_r by lia. done.
Qed.

Lemma root_order_bounds sz :
  4096 <= sz <= 2 ^ 39 ->
  (root_order sz < NORDERS)%nat /\ bs (root_order sz) <= sz <= 2 * bs (root_order sz).
Proof.
  intros Hsz. pose proof (root_order_size sz ltac:(lia)) as Hr.
  assert (Hl : 12 <= Z.log2_up sz) by (change 12 with (Z.log2_up 4096); apply Z.log2_up_le_mono; lia).
  assert (Hu : Z.log2_up sz <= 39).
  { change 39 with (Z.log2_up (2 ^ 39)). apply Z.log2_up_le_mono. lia. }
  pose proof (Z.log2_up_spec sz ltac:(lia)) as [Hlo Hhi]. rewrite <- Z.sub_1_r in Hlo.
  assert (Hdbl : 2 ^ Z.log2_up sz = 2 * 2 ^ (Z.log2_up sz - 1)).
  { rewrite <- Z.pow_succ_r by lia. f_equal. lia. }
  split; [|lia]. assert (Hb : bs (root_order sz) < bs NORDERS).
  { rewrite Hr. unfold bs, NORDERS.
    assert (2 ^ (Z.log2_up sz - 1) <= 2 ^ 38) by (apply Z.pow_le_mono_r; lia).
    change (2 ^ (12 + Z.of_nat 27)) with (2 ^ 39). lia. }
  destruct (decide (root_order sz < NORDERS)%nat) as [|Hge]; [done|].
  pose proof (bs_mono NORDERS (root_order sz) ltac:(lia)). lia.
Qed.

Lemma cover_replicate n k x : cover_from n (replicate k []) x = 0.
Proof. revert n. induction k; intros n; simpl; [done|]. rewrite IHk. done. Qed.

Lemma rep_new a : free_lists a = replicate NORDERS 0 -> rep (mkBst a ∅) (replicate NORDERS []).
Proof. intros Ha. unfold rep. cbn [alloc blocks]. rewrite Ha. apply Forall2_replicate. done. Qed.

Lemma add_memory_ok (r : Frame) :
  0 < base r -> 4096 <= size r <= 2 ^ 39 -> base r + size r < 2 ^ 63 ->
  exists s ls, let K := root_order (size r) in
    add_memory r bst0 = Done (true, s) /\ Inv s (base r) K ls /\
    (forall x, cover ls x = ind (base r) K x) /\
    bs K = Z.max 4096 (2 ^ (Z.log2_up (size r) - 1)) /\ size r <= 2 * bs K /\
    forall r', add_memory r' s = Done (false, s).
Proof.
  intros Hb Hsz Htop. set (K := root_order (size r)).
  destruct (root_order_bounds (size r) Hsz) as (HK & Hlo & Hhi). fold K in HK, Hlo, Hhi.
  set (b1 := set_region_base (set_region_size new (size r)) (base r)).
  assert (HI : Inv (mkBst b1 ∅) (base r) K (replicate NORDERS [])).
  { constructor; try done.
    - by apply rep_new.
    - intros n l a Hn Ha. apply lookup_replicate in Hn as [-> _]. set_solver.
    - intros n l a Hn Ha. apply lookup_replicate in Hn as [-> _]. set_solver. }
  destruct (insert_Inv (mkBst b1 ∅) (base r) K (replicate NORDERS []) K [] (base r))
    as (s & ls & E & HI' & Hp & _ & Hc); [done| | | |set_solver|].
  { split; [done|]. exists 0. pose proof (bs_pos K). split; [lia|]. split; lia. }
  { intros x. unfold cover. rewrite cover_replicate. pose proof (ind_bounds (base r) K x). lia. }
  { by apply lookup_replicate_2. }
  exists s, ls. split; [|split; [done|split; [|split; [|split; [done|]]]]].
  - unfold add_memory, gets, modify, lift, mbind, M_bind. simpl.
    unfold next_power_of_two. assert (Hl : Z.log2_up (size r) <= 39).
    { change 39 with (Z.log2_up (2 ^ 39)). apply Z.log2_up_le_mono. lia. }
    pose proof (Z.log2_up_nonneg (size r)).
    rewrite (proj2 (Z.ltb_lt _ _)) by (apply Z.pow_lt_mono_r; lia).
    assert (H39 : 0 <= 2 ^ Z.log2_up (size r) <= 2 ^ 39).
    { split; [apply Z.pow_nonneg; lia|apply Z.pow_le_mono_r; lia]. }
    rewrite layout_to_order_spec; [|split; simpl|done|done].
    2: { rewrite Z.shiftr_div_pow2 by lia. change (2 ^ 1) with 2.
         split; [apply Z.div_pos; lia|]. apply Z.div_lt_upper_bound; lia. }
    2: { exists 0. split; [lia|done]. }
    fold (root_order (size r)). fold K. simpl lalign. change (1 <=? MIN_HEAP_ALIGN) with true.
    simpl. rewrite (proj2 (Z.leb_le _ _)) by lia. simpl.
    unfold kernel_vaddr, paddr_to_kernel_vaddr, uadd, KERNEL_BASE. rewrite Z.add_0_r.
    rewrite checked_ok by (unfold in_width; lia). fold b1. rewrite E. done.
  - intros x. rewrite Hc. unfold cover. rewrite cover_replicate. lia.
  - apply root_order_size. lia.
  - intros r'. unfold add_memory, gets, mbind, M_bind. rewrite (inv_base _ _ _ _ HI').
    by rewrite (proj2 (Z.eqb_neq _ _)) by lia.
Qed.

(** [add_memory] on a fresh allocator accepts any region of 4 KiB to 512 GiB:
    it frees one root block at the base of the region, whose size is the power
    of two below the region's size (at least half of the region; exactly half
    when the size is a power of two above 4 KiB), establishes the invariant,
    and makes every later call refuse its region. *)
Theorem add_memory_establishes (r : Frame) :
  0 < base r -> 4096 <= size r <= 2 ^ 39 -> base r + size r < 2 ^ 63 ->
  exists s ls, let K := root_order (size r) in
    add_memory r bst0 = Done (true, s) /\ Inv s (base r) K ls /\
    (forall x, cover ls x = ind (base r) K x) /\
    bs K = Z.max 4096 (2 ^ (Z.log2_up (size r) - 1)) /\ size r <= 2 * bs K /\
    forall r', add_memory r' s = Done (false, s).
Proof. apply add_memory_ok. Qed.



(** [allocate] never panics and never runs out of steps.  On a heap that
    satisfies the invariant it either returns a frame that fits the layout, of
    exactly the power-of-two size of the layout's order, aligned to its size
    from the base of the region, inside the root block, and takes exactly the
    bytes of that frame out of the free lists; or returns [None], changes
    nothing, and then the request is over-aligned, larger than the region, or
    no block of the needed order or a larger one is free.  The invariant
    (lists well linked, blocks inside the root, no byte in two blocks, no two
    partners both free) is kept. *)
Theorem allocate_sound s B K ls l :
  Inv s B K ls -> valid_layout l ->
  exists r s' ls', allocate l s = Done (r, s') /\ Inv s' B K ls' /\
    allocate_post l B K ls s r s' ls'.
Proof.
  intros HI Hv. destruct (allocate_ok s B K ls l HI Hv) as (r & s' & ls' & E & HI' & _ & Hpost).
  eauto 10.
Qed.

(** [deallocate] of a frame that is allocated under its layout never panics,
    keeps the invariant (so it merges with free partners as far as possible),
    and adds exactly the bytes of the frame to the free lists. *)
Theorem deallocate_sound s B K ls l f :
  Inv s B K ls -> valid_layout l -> lalign l <= MIN_HEAP_ALIGN -> allocated B K ls f l ->
  exists s' ls', deallocate f l s = Done (tt, s') /\ Inv s' B K ls' /\
    forall x, cover ls' x = cover ls x + in_frame f x.
Proof.
  intros HI Hv Hal Ha. destruct (deallocate_ok s B K ls l f HI Hv Hal Ha) as (s' & ls' & E & HI' & _ & Hc).
  eauto 10.
Qed.

(** *** Coalescing *)

Lemma cover_pos ls x :
  0 < cover ls x -> exists n l a, ls !! n = Some l /\ a ∈ l /\ a <= x < a + bs n.
Proof.
  unfold cover. intros Hc.
  assert (Hgen : forall m, 0 < cover_from m ls x ->
    exists n l a, ls !! n = Some l /\ a ∈ l /\ a <= x < a + bs (m + n)).
  { clear Hc. induction ls as [|l ls IH]; intros m Hc; simpl in Hc; [lia|].
    destruct (Z.lt_ge_cases 0 (cnt m l x)) as [Hl|Hl].
    - exists 0%nat, l. clear IH Hc. induction l as [|a l IHl]; simpl in Hl; [lia|].
      unfold ind in Hl. destruct (_ && _) eqn:E.
      + exists a. rewrite Nat.add_0_r. split; [done|]. split; [set_solver|]. lia.
      + destruct IHl as (b & _ & Hb & Hx); [lia|]. exists b. split; [done|]. split; [set_solver|done].
    - destruct (IH (S m)) as (n & k & a & Hn & Ha & Hx); [lia|].
      exists (S n), k, a. rewrite <- plus_n_Sm. done. }
  apply (Hgen 0%nat Hc).
Qed.

(** Two blocks of the root that share a byte: the one of lower order is inside
    the other. *)
Lemma ok_blk_nested B K n m a c x :
  ok_blk B K n a -> ok_blk B K m c -> (n <= m)%nat -> a <= x < a + bs n -> c <= x < c + bs m ->
  c <= a /\ a + bs n <= c + bs m.
Proof.
  intros (_ & k & Hk & -> & _) (_ & j & Hj & -> & _) Hnm Hx Hx'.
  assert (Hm : bs m = 2 ^ Z.of_nat (m - n) * bs n) by (rewrite <- bs_mul; f_equal; lia).
  pose proof (Z.pow_pos_nonneg 2 (Z.of_nat (m - n)) ltac:(lia) ltac:(lia)).
  pose proof (bs_pos n). rewrite Hm in *. set (p := 2 ^ Z.of_nat (m - n)) in *.
  assert (j * p <= k) by nia. assert (k < (j + 1) * p) by nia. split; nia.
Qed.

Lemma partner_ok B K n a : ok_blk B K n a -> (n < K)%nat -> ok_blk B K n (partner B n a).
Proof.
  intros (Hn & k & Hk & -> & Hin) Hlt. pose proof (bs_pos n). unfold partner.
  replace (B + k * bs n - B) with (k * bs n) by lia. rewrite Z.div_mul by lia.
  assert (HK : bs K = 2 ^ Z.of_nat (K - S n) * bs (S n)) by (rewrite <- bs_mul; f_equal; lia).
  rewrite bs_S in HK. pose proof (Z.pow_pos_nonneg 2 (Z.of_nat (K - S n)) ltac:(lia) ltac:(lia)).
  set (p := 2 ^ Z.of_nat (K - S n)) in *. assert (k + 1 <= 2 * p) by nia.
  rewrite lxor_1 by done. split; [lia|]. destruct (Z.even k) eqn:E.
  - apply Z.even_spec in E as [j ->]. exists (2 * j + 1). split; [lia|]. split; [done|]. nia.
  - assert (Ho : Z.odd k = true) by (rewrite <- Z.negb_even, E; done).
    apply Z.odd_spec in Ho as [j ->]. exists (2 * j + 1 - 1). split; [lia|]. split; [done|]. nia.
Qed.

(** When every byte of the root is free, no block below the root order is. *)
Lemma full_no_small s B K ls :
  Inv s B K ls -> (forall x, cover ls x = ind B K x) ->
  forall n l, (n < K)%nat -> ls !! n = Some l -> l = [].
Proof.
  intros HI Hfull n. induction n as [n IH] using lt_wf_ind. intros l Hn Hl.
  destruct l as [|a l]; [done|exfalso].
  assert (Hoka : ok_blk B K n a) by (eapply (inv_blk _ _ _ _ HI); [done|set_solver]).
  pose proof (partner_ok _ _ _ _ Hoka Hn) as Hokp. set (p := partner B n a) in *.
  pose proof (bs_pos n).
  assert (Hp : cover ls p = 1).
  { rewrite Hfull. destruct Hokp as (_ & j & Hj & -> & Hin). unfold ind. zcase; simpl; nia. }
  destruct (cover_pos ls p) as (m & lm & c & Hm & Hc & Hpc); [lia|].
  pose proof (inv_blk _ _ _ _ HI _ _ _ Hm Hc) as Hokc.
  destruct (decide (m < n)%nat) as [Hmn|Hmn].
  { rewrite (IH m Hmn lm) in Hc; [set_solver|lia|done]. }
  destruct (decide (m = n)) as [->|Hne].
  - assert (c = p) as ->.
    { pose proof (ok_blk_nested B K n n p c p Hokp Hokc ltac:(lia) ltac:(lia) Hpc). lia. }
    simplify_eq. by apply (inv_coal _ _ _ _ HI n (a :: l) a); [done|set_solver|].
  - (* [c] is of a higher order, so it holds the pair and the byte [a] twice *)
    destruct (partner_merge _ _ _ _ Hoka Hokp) as [Hokm Hind]. fold p in Hokm, Hind.
    set (q := Z.min a p) in *. pose proof (bs_pos (S n)).
    assert (Hq : q <= p < q + bs (S n)).
    { specialize (Hind p). rewrite ind_self in Hind. pose proof (ind_bounds a n p).
      unfold ind in Hind at 1. destruct (_ && _) eqn:E in Hind; lia. }
    assert (Hqa : q <= a < q + bs (S n)).
    { specialize (Hind a). rewrite ind_self in Hind. pose proof (ind_bounds p n a).
      unfold ind in Hind at 1. destruct (_ && _) eqn:E in Hind; lia. }
    pose proof (ok_blk_nested B K (S n) m q c p Hokm Hokc ltac:(lia) Hq Hpc).
    assert (Hca : ind c m a = 1) by (unfold ind; zcase; simpl; lia).
    pose proof (inv_cover _ _ _ _ HI a) as Hcov.
    pose proof (cover_insert ls n (a :: l) [] a Hl) as E.
    assert (Hm' : <[n := []]> ls !! m = Some lm) by (by rewrite list_lookup_insert_ne).
    pose proof (cover_elem _ _ _ a Hm'). pose proof (cnt_elem m lm c a Hc).
    cbn [cnt] in E. rewrite ind_self in E. pose proof (cnt_nonneg n l a). lia.
Qed.

(** Freeing the last outstanding frame puts the whole heap back together:
    when the bytes of the frame and the free bytes make up the root block,
    [deallocate] leaves one free block, the root, on the list of its order and
    every other list empty. *)
Theorem deallocate_last_restores s B K ls l f :
  Inv s B K ls -> valid_layout l -> lalign l <= MIN_HEAP_ALIGN -> allocated B K ls f l ->
  (forall x, cover ls x + in_frame f x = ind B K x) ->
  exists s', deallocate f l s = Done (tt, s') /\
    free_lists (alloc s') = <[K := B]> (replicate NORDERS 0).
Proof.
  intros HI Hv Hal Ha Hfull. destruct (deallocate_ok s B K ls l f HI Hv Hal Ha) as (s' & ls' & E & HI' & _ & Hc).
  exists s'. split; [done|].
  assert (Hfull' : forall x, cover ls' x = ind B K x) by (intros; by rewrite Hc).
  pose proof (full_no_small _ _ _ _ HI' Hfull') as Hsmall.
  pose proof (inv_rep _ _ _ _ HI') as Hr. pose proof (inv_K _ _ _ _ HI') as HK. pose proof (bs_pos K).
  apply list_eq. intros i. destruct (decide (i < NORDERS)%nat) as [Hi|Hi].
  2: { rewrite !lookup_ge_None_2; [done| |]; rewrite ?length_insert, ?length_replicate, ?(inv_len _ _ _ _ HI'); lia. }
  destruct (lookup_lt_is_Some_2 ls' i) as (li & Hli).
  { rewrite <- (Forall2_length Hr), (inv_len _ _ _ _ HI'). done. }
  destruct (rep_lookup _ _ _ _ Hr Hli) as (h & Hh & Hseg). rewrite Hh.
  assert (Hblk : forall a, a ∈ li -> ok_blk B K i a) by (intros; by eapply (inv_blk _ _ _ _ HI')).
  destruct (decide (i = K)) as [->|Hne].
  - rewrite list_lookup_insert_eq by (rewrite length_replicate; done). f_equal.
    destruct (cover_pos ls' B) as (m & lm & c & Hm & Hcm & HcB).
    { rewrite Hfull', ind_self. lia. }
    destruct (inv_blk _ _ _ _ HI' _ _ _ Hm Hcm) as (HmK & _).
    destruct (decide (m = K)) as [->|]; [|rewrite (Hsmall m lm) in Hcm; [set_solver|lia|done]].
    simplify_eq. destruct li as [|a li]; [set_solver|]. destruct Hseg as (-> & _).
    destruct (Hblk a) as (_ & k & Hk & -> & Hin); [set_solver|]. nia.
  - rewrite list_lookup_insert_ne by done. rewrite lookup_replicate_2 by done. f_equal.
    destruct li as [|a li]; [done|]. destruct (Hblk a) as (Hle & _); [set_solver|].
    discriminate (Hsmall i (a :: li) ltac:(lia) Hli).
Qed.


(** *** Histories of the allocator *)

(** The states reachable from a fresh allocator that was given region [r], with
    the frames that are live: allocated under a layout and not yet freed. *)
Inductive history (r : Frame) : bst -> list (Frame * Layout) -> Prop :=
  | h_init s : add_memory r bst0 = Done (true, s) -> history r s []
  | h_alloc s live l f s' :
      history r s live -> valid_layout l -> allocate l s = Done (Some f, s') ->
      history r s' ((f, l) :: live)
  | h_fail s live l s' :
      history r s live -> valid_layout l -> allocate l s = Done (None, s') -> history r s' live
  | h_free s live1 f l live2 s' :
      history r s (live1 ++ (f, l) :: live2) -> deallocate f l s = Done (tt, s') ->
      history r s' (live1 ++ live2).

Fixpoint live_cover (live : list (Frame * Layout)) (x : Z) : Z :=
  match live with [] => 0 | (f, _) :: live => in_frame f x + live_cover live x end.

Definition live_ok (B : Z) (K : nat) (fl : Frame * Layout) : Prop :=
  valid_layout (snd fl) /\ lalign (snd fl) <= MIN_HEAP_ALIGN /\
  ok_blk B K (order_of (snd fl)) (base (fst fl)) /\ size (fst fl) = bs (order_of (snd fl)).

Lemma live_cover_app l1 l2 x : live_cover (l1 ++ l2) x = live_cover l1 x + live_cover l2 x.
Proof. induction l1 as [|[f l] l1 IH]; simpl; lia. Qed.

Lemma in_frame_bounds f x : 0 <= in_frame f x <= 1.
Proof. unfold in_frame. destruct (_ && _); lia. Qed.

Lemma live_cover_nonneg live x : 0 <= live_cover live x.
Proof. induction live as [|[f l] live IH]; simpl; [lia|]. pose proof (in_frame_bounds f x). lia. Qed.

Lemma allocate_post_live l B K ls s f s' ls' :
  valid_layout l -> Inv s B K ls -> allocate_post l B K ls s (Some f) s' ls' -> live_ok B K (f, l).
Proof.
  intros Hv HI (_ & _ & Hal & Hsz & Hmod & Hlo & Hhi & _). split; [done|]. split; [done|].
  split; [|done]. simpl. pose proof (bs_pos (order_of l)). rewrite Hsz in *.
  assert (HoK : (order_of l <= K)%nat).
  { destruct (decide (order_of l <= K)%nat) as [|Hgt]; [done|].
    pose proof (bs_mono (S K) (order_of l) ltac:(lia)). rewrite bs_S in *. pose proof (bs_pos K). lia. }
  split; [done|]. apply Z.mod_divide in Hmod; [|lia]. destruct Hmod as (k & Hk).
  exists k. split; [nia|]. split; [lia|]. lia.
Qed.

Lemma history_inv r s live :
  0 < base r -> 4096 <= size r <= 2 ^ 39 -> base r + size r < 2 ^ 63 -> history r s live ->
  exists ls, Inv s (base r) (root_order (size r)) ls /\
    Forall (live_ok (base r) (root_order (size r))) live /\
    forall x, cover ls x + live_cover live x = ind (base r) (root_order (size r)) x.
Proof.
  intros Hb Hsz Htop Hh. set (K := root_order (size r)).
  induction Hh as [s E|s live l f s' _ IH Hv E|s live l s' _ IH Hv E|s live1 f l live2 s' _ IH E].
  - destruct (add_memory_ok r Hb Hsz Htop) as (s0 & ls & E0 & HI & Hc & _).
    rewrite E in E0. simplify_eq. exists ls. split; [done|]. split; [constructor|].
    intros x. rewrite Hc. simpl. fold K. lia.
  - destruct IH as (ls & HI & Hlive & Hc).
    destruct (allocate_ok s _ _ ls l HI Hv) as (r0 & s0 & ls' & E0 & HI' & _ & Hpost).
    rewrite E in E0. simplify_eq. exists ls'. split; [done|]. split.
    + constructor; [|done]. exact (allocate_post_live _ _ _ _ _ _ _ _ Hv HI Hpost).
    + intros x. destruct Hpost as (_ & _ & _ & _ & _ & _ & _ & Hcov). simpl.
      rewrite <- (Hc x), (Hcov x). lia.
  - destruct IH as (ls & HI & Hlive & Hc).
    destruct (allocate_ok s _ _ ls l HI Hv) as (r0 & s0 & ls' & E0 & HI' & _ & Hpost).
    rewrite E in E0. simplify_eq. destruct Hpost as [-> _]. eauto.
  - destruct IH as (ls & HI & Hlive & Hc).
    apply Forall_app in Hlive as [Hl1 Hl2]. apply Forall_cons_iff in Hl2 as [(Hv & Hal & Hok & Hfs) Hl2].
    destruct (deallocate_ok s _ _ ls l f HI Hv Hal) as (s0 & ls' & E0 & HI' & _ & Hcov).
    { split; [done|]. split; [done|]. intros x. specialize (Hc x). rewrite live_cover_app in Hc.
      simpl in Hc. pose proof (live_cover_nonneg live1 x). pose proof (live_cover_nonneg live2 x).
      pose proof (ind_bounds (base r) K x). fold K in Hc. lia. }
    rewrite E in E0. simplify_eq. exists ls'. split; [done|]. split; [by apply Forall_app|].
    intros x. rewrite <- (Hc x), Hcov, !live_cover_app. simpl. lia.
Qed.

(** A block is large enough for its layout, and aligned to it where the region is. *)
Lemma live_aligned B K f l : live_ok B K (f, l) ->
  lsize l <= size f /\ (size f | base f - B) /\ ((lalign l | B) -> (lalign l | base f)).
Proof.
  intros ((_ & k & Hk & Hal) & _ & (_ & i & _ & Hb & _) & Hfs). simpl in *. destruct (order_of_fits l) as [H1 H2].
  assert (Hd : (lalign l | size f)).
  { rewrite Hfs, Hal in *. unfold bs in *. apply Z.pow_le_mono_r_iff in H2; [|lia..].
    exists (2 ^ (12 + Z.of_nat (order_of l) - k)). rewrite <- Z.pow_add_r by lia. f_equal. lia. }
  assert (Hs : (size f | base f - B)) by (exists i; rewrite Hb, Hfs; lia).
  split; [lia|]. split; [done|]. intros HB. replace (base f) with ((base f - B) + B) by lia.
  apply Z.divide_add_r; [exact (Z.divide_trans _ _ _ Hd Hs)|done].
Qed.

(** C2: in every history of allocations and frees from a fresh allocator, the
    live frames are pairwise disjoint, lie inside the region, have the size they were asked
    for, and are aligned to their size within the region and, where the start of the region is
    aligned to the layout, to the layout; every further [allocate] returns without a panic,
    and so does [deallocate] of any live frame under its layout.  The region has 4 KiB to 512 GiB. *)
Theorem history_safe r s live :
  0 < base r -> 4096 <= size r <= 2 ^ 39 -> base r + size r < 2 ^ 63 -> history r s live ->
  (forall l1 l2 l3 f g lf lg, live = l1 ++ (f, lf) :: l2 ++ (g, lg) :: l3 ->
     base f + size f <= base g \/ base g + size g <= base f) /\
  (forall f l, (f, l) ∈ live -> (base r <= base f /\ base f + size f <= base r + size r) /\
     lsize l <= size f /\ (size f | base f - base r) /\ ((lalign l | base r) -> (lalign l | base f))) /\
  (forall l, valid_layout l -> exists o s', allocate l s = Done (o, s')) /\
  (forall f l, (f, l) ∈ live -> exists s', deallocate f l s = Done (tt, s')).
Proof.
  intros Hb Hsz Htop Hh. destruct (history_inv r s live Hb Hsz Htop Hh) as (ls & HI & Hlive & Hc).
  destruct (root_order_bounds (size r) Hsz) as (HK & Hroot & _). set (K := root_order (size r)) in *.
  split; [|split; [|split]].
  - intros l1 l2 l3 f g lf lg ->. pose proof (proj1 (list.Forall_forall _ _) Hlive (f, lf) ltac:(set_solver)) as Hf.
    pose proof (proj1 (list.Forall_forall _ _) Hlive (g, lg) ltac:(set_solver)) as Hg.
    destruct Hf as (_ & _ & _ & Hfs). destruct Hg as (_ & _ & _ & Hgs). simpl in *.
    pose proof (bs_pos (order_of lf)). pose proof (bs_pos (order_of lg)).
    destruct (Z.le_gt_cases (base f + size f) (base g)); [auto|].
    destruct (Z.le_gt_cases (base g + size g) (base f)); [auto|]. exfalso.
    specialize (Hc (Z.max (base f) (base g))). revert Hc.
    rewrite live_cover_app. simpl. rewrite live_cover_app. simpl.
    set (x := Z.max (base f) (base g)). pose proof (live_cover_nonneg l1 x).
    pose proof (live_cover_nonneg l2 x). pose proof (live_cover_nonneg l3 x).
    pose proof (cover_from_nonneg 0 ls x). pose proof (ind_bounds (base r) K x).
    assert (in_frame f x = 1) as -> by (unfold in_frame, x; zcase; simpl; lia).
    assert (in_frame g x = 1) as -> by (unfold in_frame, x; zcase; simpl; lia).
    unfold cover. lia.
  - intros f l Hin. split; [|eapply live_aligned, (proj1 (list.Forall_forall _ _) Hlive (f, l) Hin)].
    pose proof (proj1 (list.Forall_forall _ _) Hlive (f, l) Hin) as (_ & _ & Hok & Hfs). simpl in *. destruct Hok as (_ & k & Hk & -> & Hin'). pose proof (bs_pos (order_of l)). rewrite Hfs. nia.
  - intros l Hv. destruct (allocate_ok s _ _ ls l HI Hv) as (o & s' & ls' & E & _). eauto.
  - intros f l Hin. pose proof (proj1 (list.Forall_forall _ _) Hlive (f, l) Hin) as (Hv & Hal & Hok & Hfs).
    destruct (deallocate_ok s _ _ ls l f HI Hv Hal) as (s' & ls' & E & _); [|eauto].
    split; [done|]. split; [done|]. intros x. specialize (Hc x).
    apply list_elem_of_split in Hin as (l1 & l2 & ->). rewrite live_cover_app in Hc. simpl in Hc.
    pose proof (live_cover_nonneg l1 x). pose proof (live_cover_nonneg l2 x).
    pose proof (ind_bounds (base r) K x). lia.
Qed.

End Properties.

(** ** Witnesses: a 64 KiB region at 16 MiB, and a 4 KiB request *)

Definition wit_region : Frame := mkFrame 0x1000000 0x10000.
Definition wit_layout : Layout := mkLayout 4096 4096.

Lemma wit_layout_valid : valid_layout wit_layout.
Proof. split; [simpl; lia|]. exists 12. split; [lia|done]. Defined.

Lemma add_memory_establishes_witness :
  exists s ls, add_memory (H := true) wit_region bst0 = Done (true, s) /\
    Inv s (base wit_region) (root_order (size wit_region)) ls.
Proof.
  destruct (add_memory_establishes (H := true) wit_region) as (s & ls & E & HI & _);
    [simpl; lia | simpl; lia | simpl; lia |]. exists s, ls. split; [exact E | exact HI].
Defined.

Lemma allocate_sound_witness :
  exists s B K ls r s', Inv s B K ls /\ allocate (H := true) wit_layout s = Done (r, s').
Proof.
  destruct (add_memory_ok (H := true) wit_region) as (s & ls & E & HI & _);
    [simpl; lia | simpl; lia | simpl; lia |].
  destruct (allocate_sound (H := true) s _ _ ls wit_layout HI wit_layout_valid) as (r & s' & ls' & E' & _).
  exists s, (base wit_region), (root_order (size wit_region)), ls, r, s'. split; [exact HI | exact E'].
Defined.

Definition wit_s0 : bst :=
  match add_memory (H := true) wit_region bst0 with Done (_, s) => s | _ => bst0 end.
Definition wit_s1 : bst :=
  match allocate (H := true) wit_layout wit_s0 with Done (_, s) => s | _ => bst0 end.
Definition wit_frame : Frame := mkFrame 0x1000000 4096.

(** The state after one 4 KiB allocation, and the frame it returned. *)
Lemma wit_allocated :
  exists ls, Inv wit_s1 0x1000000 (root_order 0x10000) ls /\
    allocated 0x1000000 (root_order 0x10000) ls wit_frame wit_layout /\
    forall x, cover ls x + in_frame wit_frame x = ind 0x1000000 (root_order 0x10000) x.
Proof.
  destruct (add_memory_ok (H := true) wit_region) as (s & ls & E & HI & Hc & _);
    [simpl; lia | simpl; lia | simpl; lia |].
  assert (s = wit_s0) as -> by (unfold wit_s0; rewrite E; reflexivity).
  destruct (allocate_ok (H := true) wit_s0 _ _ ls wit_layout HI wit_layout_valid)
    as (r & s' & ls' & E' & HI' & _ & Hpost).
  assert (s' = wit_s1) as -> by (unfold wit_s1; rewrite E'; reflexivity).
  assert (r = Some wit_frame) as -> by (revert E'; clear; vm_compute; congruence).
  pose proof (allocate_post_live _ _ _ _ _ _ _ _ wit_layout_valid HI Hpost) as (_ & _ & Hok & Hsz).
  destruct Hpost as (_ & _ & _ & _ & _ & _ & _ & Hcov). exists ls'. split; [exact HI'|].
  assert (Hfull : forall x, cover ls' x + in_frame wit_frame x = ind 0x1000000 (root_order 0x10000) x).
  { intros x. rewrite <- Hcov. apply Hc. }
  split; [|exact Hfull]. split; [exact Hok|]. split; [exact Hsz|].
  intros x. rewrite Hfull. apply ind_bounds.
Qed.

Lemma deallocate_sound_witness :
  exists s', deallocate (H := true) wit_frame wit_layout wit_s1 = Done (tt, s').
Proof.
  destruct wit_allocated as (ls & HI & Ha & _).
  destruct (deallocate_sound (H := true) wit_s1 _ _ ls wit_layout wit_frame HI wit_layout_valid)
    as (s' & ls' & E & _); [simpl; unfold MIN_HEAP_ALIGN, HEAP_ALIGN; lia | exact Ha |].
  exists s'. exact E.
Defined.

Lemma deallocate_last_restores_witness :
  exists s', deallocate (H := true) wit_frame wit_layout wit_s1 = Done (tt, s') /\
    free_lists (alloc s') = <[root_order 0x10000 := 0x1000000]> (replicate NORDERS 0).
Proof.
  destruct wit_allocated as (ls & HI & Ha & Hfull).
  apply (deallocate_last_restores (H := true) wit_s1 _ _ ls wit_layout wit_frame HI wit_layout_valid);
    [simpl; unfold MIN_HEAP_ALIGN, HEAP_ALIGN; lia | exact Ha | exact Hfull].
Defined.

Lemma history_safe_witness :
  history (H := true) wit_region wit_s1 [(wit_frame, wit_layout)] /\
  exists s', deallocate (H := true) wit_frame wit_layout wit_s1 = Done (tt, s').
Proof.
  assert (Hh : history (H := true) wit_region wit_s1 [(wit_frame, wit_layout)]).
  { apply (h_alloc wit_region wit_s0); [apply h_init; vm_compute; reflexivity | exact wit_layout_valid |].
    vm_compute. reflexivity. }
  split; [exact Hh|].
  destruct (history_safe (H := true) wit_region wit_s1 [(wit_frame, wit_layout)])
    as (_ & _ & _ & Hd); [simpl; lia | simpl; lia | simpl; lia | exact Hh |].
  apply (Hd wit_frame wit_layout). left.
Defined.
