(* ===== verification/Sched.v ===== *)
(** * The scheduler (kernel/src/thread.rs)

    Threads live behind [Arc<Mutex<Thread>>]; here they are the entries of a
    finite map from thread identities to [Thread] records, and the intrusive
    lists that the code builds through the [next] field are chains in that map.
    Each CPU owns a [Scheduler] with two arrays of 16 priority queues and
    the current thread; the rebalance queues and flags are shared.  The state
    [lst] is what one CPU sees; [Smp] puts several CPUs together.

    The loops run on fuel: the number of threads plus one for the loops over
    queues, the value of [highest] plus one for [get_highest].  The theorems
    are about runs that return, so they include that the fuel is enough.

    Printing, the interrupt flag and the register switch itself are left out. *)

From Stdlib Require Import ZArith Lia.
From stdpp Require Import base gmap list sorting strings.
From stdpp Require Import options.
From S2P Require Import Prelude.

Set Default Proof Using "Type".

(** ** Data *)

Definition MAX_PRIO : nat := 15.
Definition MAX_CPUS : nat := 64.
Definition MAX_CONT : nat := 10.

Inductive ThreadState :=
  | Running | Runnable | Paused | Waiting | Idle | Rebalanced.

Global Instance ThreadState_eq_dec : EqDecision ThreadState.
Proof. solve_decision. Defined.

Record Context := mkContext {
  r15 : Z; r14 : Z; r13 : Z; r12 : Z; r11 : Z; rbx : Z; rbp : Z; rsp : Z; rflags : Z }.

Definition Context_new : Context := mkContext 0 0 0 0 0 0 0 0 0.

(** The saved registers of a cross-domain call (lib/core/interfaces/syscalls). *)
Record Continuation := mkContinuation {
  c_func : Z; c_rax : Z; c_rcx : Z; c_rdx : Z; c_rsi : Z; c_rdi : Z; c_r8 : Z;
  c_r9 : Z; c_r10 : Z; c_rflags : Z; c_r15 : Z; c_r14 : Z; c_r13 : Z; c_r12 : Z;
  c_r11 : Z; c_rbx : Z; c_rbp : Z; c_rsp : Z }.

Definition Continuation_zeroed : Continuation :=
  mkContinuation 0 0 0 0 0 0 0 0 0 0 0 0 0 0 0 0 0 0.

(** A [*mut Continuation]: null, or entry [i] of the array inside thread [t]
    ([i = MAX_CONT] is the one-past-the-end pointer). *)
Inductive cptr := Null | Entry (t i : nat).

Global Instance cptr_eq_dec : EqDecision cptr.
Proof. solve_decision. Defined.

Record Thread := mkThread {
  id : Z;
  current_domain_id : Z;
  name : string;
  state : ThreadState;
  priority : nat;
  affinity : Z;
  rebalance : bool;
  context : Context;
  stack : Z;
  domain : option nat;
  next : option nat;
  next_domain : option nat;
  next_iwq : option nat;
  continuations : list Continuation;
  continuation_ptr : cptr }.

Definition set_next (n : option nat) (th : Thread) : Thread :=
  match th with
  | mkThread i d nm st p a r c sk dm _ nd ni cs cp => mkThread i d nm st p a r c sk dm n nd ni cs cp
  end.
Definition with_state (st : ThreadState) (th : Thread) : Thread :=
  match th with
  | mkThread i d nm _ p a r c sk dm n nd ni cs cp => mkThread i d nm st p a r c sk dm n nd ni cs cp
  end.
Definition with_rebalance (r : bool) (th : Thread) : Thread :=
  match th with
  | mkThread i d nm st p a _ c sk dm n nd ni cs cp => mkThread i d nm st p a r c sk dm n nd ni cs cp
  end.
Definition with_affinity (a : Z) (th : Thread) : Thread :=
  match th with
  | mkThread i d nm st p _ r c sk dm n nd ni cs cp => mkThread i d nm st p a r c sk dm n nd ni cs cp
  end.
Definition with_priority (p : nat) (th : Thread) : Thread :=
  match th with
  | mkThread i d nm st _ a r c sk dm n nd ni cs cp => mkThread i d nm st p a r c sk dm n nd ni cs cp
  end.
Definition with_continuation_ptr (cp : cptr) (th : Thread) : Thread :=
  match th with
  | mkThread i d nm st p a r c sk dm n nd ni cs _ => mkThread i d nm st p a r c sk dm n nd ni cs cp
  end.
Definition with_domain (dm : option nat) (th : Thread) : Thread :=
  match th with
  | mkThread i d nm st p a r c sk _ n nd ni cs cp => mkThread i d nm st p a r c sk dm n nd ni cs cp
  end.
Definition with_next_iwq (ni : option nat) (th : Thread) : Thread :=
  match th with
  | mkThread i d nm st p a r c sk dm n nd _ cs cp => mkThread i d nm st p a r c sk dm n nd ni cs cp
  end.
Definition with_next_domain (nd : option nat) (th : Thread) : Thread :=
  match th with
  | mkThread i d nm st p a r c sk dm n _ ni cs cp => mkThread i d nm st p a r c sk dm n nd ni cs cp
  end.

Record SchedulerQueue := mkSQ { highest : nat; prio_queues : list (option nat) }.

Definition SchedulerQueue_new : SchedulerQueue := mkSQ 0 (replicate (MAX_PRIO + 1) None).

Record Scheduler := mkSched {
  idle : option nat;
  active : bool;
  active_queue : SchedulerQueue;
  passive_queue : SchedulerQueue }.

Definition Scheduler_new : Scheduler :=
  mkSched None true SchedulerQueue_new SchedulerQueue_new.

Record ContinuationState := mkCS { cur : cptr; start : cptr; end_ : cptr }.

(** What one CPU works on: the shared threads, its own scheduler and current
    thread, the shared rebalance queues and flags, and [CONT_STATE]. *)
Record lst := mkL {
  threads : gmap nat Thread;
  sched : Scheduler;
  current : option nat;
  rb_queues : list (option nat);
  rb_flags : list bool;
  cont_state : ContinuationState }.

Definition set_threads (ths : gmap nat Thread) (s : lst) : lst :=
  mkL ths (sched s) (current s) (rb_queues s) (rb_flags s) (cont_state s).
Definition set_sched (sc : Scheduler) (s : lst) : lst :=
  mkL (threads s) sc (current s) (rb_queues s) (rb_flags s) (cont_state s).
Definition set_cur (c : option nat) (s : lst) : lst :=
  mkL (threads s) (sched s) c (rb_queues s) (rb_flags s) (cont_state s).
Definition set_rb_queues (q : list (option nat)) (s : lst) : lst :=
  mkL (threads s) (sched s) (current s) q (rb_flags s) (cont_state s).
Definition set_rb_flags (f : list bool) (s : lst) : lst :=
  mkL (threads s) (sched s) (current s) (rb_queues s) f (cont_state s).
Definition set_cont_state (c : ContinuationState) (s : lst) : lst :=
  mkL (threads s) (sched s) (current s) (rb_queues s) (rb_flags s) c.

(** [t.lock()]: read and update the thread behind the [Arc]. *)
Definition thread (t : nat) : M lst Thread := fun s =>
  match threads s !! t with Some th => Done (th, s) | None => Panic end.
Definition upd_thread (t : nat) (f : Thread -> Thread) : M lst unit :=
  th ← thread t; modify (fun s => set_threads (<[t := f th]> (threads s)) s).

(** The queue a method of [SchedulerQueue] is called on: [true] is
    [active_queue], [false] is [passive_queue]. *)
Definition queue_of (which : bool) (s : lst) : SchedulerQueue :=
  if which then active_queue (sched s) else passive_queue (sched s).
Definition set_queue (which : bool) (q : SchedulerQueue) (s : lst) : lst :=
  let sc := sched s in
  set_sched (if which then mkSched (idle sc) (active sc) q (passive_queue sc)
             else mkSched (idle sc) (active sc) (active_queue sc) q) s.

(** ** Rebalance queues *)

Definition rb_push_thread (queue : nat) (t : nat) : M lst unit :=
  qs ← gets rb_queues;
  previous_head ← lift (index qs queue);
  _ ← modify (fun s => set_rb_queues (<[queue := None]> (rb_queues s)) s);
  _ ← match previous_head with
      | Some node => upd_thread t (set_next (Some node))
      | None => upd_thread t (set_next None)
      end;
  modify (fun s => set_rb_queues (<[queue := Some t]> (rb_queues s)) s).

Definition rb_pop_thread (queue : nat) : M lst (option nat) :=
  qs ← gets rb_queues;
  previous_head ← lift (index qs queue);
  _ ← modify (fun s => set_rb_queues (<[queue := None]> (rb_queues s)) s);
  match previous_head with
  | Some node =>
      th ← thread node;
      _ ← upd_thread node (set_next None);
      _ ← modify (fun s => set_rb_queues (<[queue := next th]> (rb_queues s)) s);
      mret (Some node)
  | None => mret None
  end.

Definition rb_queue_signal (queue : nat) : M lst unit :=
  fl ← gets rb_flags;
  _ ← lift (index fl queue);
  modify (set_rb_flags (<[queue := true]> fl)).

Definition rb_queue_clear_signal (queue : nat) : M lst unit :=
  fl ← gets rb_flags;
  _ ← lift (index fl queue);
  modify (set_rb_flags (<[queue := false]> fl)).

Definition rb_check_signal (queue : nat) : M lst bool :=
  fl ← gets rb_flags; lift (index fl queue).

Definition rebalance_thread (t : nat) : M lst unit :=
  th ← thread t;
  let cpu_id := Z.to_nat (affinity th) in
  _ ← rb_push_thread cpu_id t;
  rb_queue_signal cpu_id.

(** ** Priority queues *)

Definition push_thread (which : bool) (queue t : nat) : M lst unit :=
  q ← gets (queue_of which);
  previous_head ← lift (index (prio_queues q) queue);
  _ ← modify (set_queue which (mkSQ (highest q) (<[queue := None]> (prio_queues q))));
  _ ← match previous_head with
      | Some node => upd_thread t (set_next (Some node))
      | None => upd_thread t (set_next None)
      end;
  modify (set_queue which (mkSQ (highest q) (<[queue := Some t]> (prio_queues q)))).

Definition pop_thread (which : bool) (queue : nat) : M lst (option nat) :=
  q ← gets (queue_of which);
  previous_head ← lift (index (prio_queues q) queue);
  _ ← modify (set_queue which (mkSQ (highest q) (<[queue := None]> (prio_queues q))));
  match previous_head with
  | Some node =>
      th ← thread node;
      _ ← upd_thread node (set_next None);
      _ ← modify (set_queue which (mkSQ (highest q) (<[queue := next th]> (prio_queues q))));
      mret (Some node)
  | None => mret None
  end.

Definition put_thread (which : bool) (t : nat) : M lst unit :=
  th ← thread t;
  let prio := priority th in
  _ ← push_thread which prio t;
  q ← gets (queue_of which);
  if highest q <? prio then modify (set_queue which (mkSQ prio (prio_queues q))) else mret tt.

Fixpoint get_highest_loop (fuel : nat) (which : bool) : M lst (option nat) :=
  match fuel with
  | O => hang
  | S fuel =>
      q ← gets (queue_of which);
      r ← pop_thread which (highest q);
      match r with
      | None =>
          if highest q =? 0 then mret None
          else
            q ← gets (queue_of which);
            _ ← modify (set_queue which (mkSQ (highest q - 1) (prio_queues q)));
            get_highest_loop fuel which
      | Some t => mret (Some t)
      end
  end.

Definition get_highest (which : bool) : M lst (option nat) :=
  q ← gets (queue_of which); get_highest_loop (S (highest q)) which.

(** ** The scheduler of a CPU *)

Definition set_idle_thread (t : nat) : M lst unit := modify (fun s =>
  let sc := sched s in
  set_sched (mkSched (Some t) (active sc) (active_queue sc) (passive_queue sc)) s).

Definition get_idle_thread : M lst nat :=
  sc ← gets sched;
  match idle sc with
  | Some t =>
      _ ← modify (set_sched (mkSched None (active sc) (active_queue sc) (passive_queue sc)));
      mret t
  | None => panic
  end.

Definition put_thread_in_passive (t : nat) : M lst unit :=
  sc ← gets sched;
  if negb (active sc) then put_thread true t else put_thread false t.

Definition get_next_active : M lst (option nat) :=
  sc ← gets sched;
  if active sc then get_highest true else get_highest false.

Fixpoint get_next_loop (fuel : nat) : M lst (option nat) :=
  match fuel with
  | O => hang
  | S fuel =>
      r ← get_next_active;
      match r with
      | Some t =>
          th ← thread t;
          match state th with
          | Runnable => mret (Some t)
          | Rebalanced => mret (Some t)
          | _ => _ ← put_thread_in_passive t; get_next_loop fuel
          end
      | None => mret None
      end
  end.

Definition fuel_of (s : lst) : nat := S (map_size (threads s)).

Definition get_next : M lst (option nat) := s ← get; get_next_loop (fuel_of s).

Definition flip_queues : M lst unit := modify (fun s =>
  let sc := sched s in
  if active sc
  then set_sched (mkSched (idle sc) false (active_queue sc) (passive_queue sc)) s
  else set_sched (mkSched (idle sc) true (active_queue sc) (passive_queue sc)) s).

Definition next_thread : M lst (option nat) :=
  r ← get_next;
  match r with
  | Some t => mret (Some t)
  | None =>
      _ ← flip_queues;
      r ← get_next;
      match r with
      | Some t => mret (Some t)
      | None => mret None
      end
  end.

Fixpoint process_rb_loop (fuel cpu_id : nat) : M lst unit :=
  match fuel with
  | O => hang
  | S fuel =>
      r ← rb_pop_thread cpu_id;
      match r with
      | Some t =>
          _ ← upd_thread t (fun th => with_state Runnable (with_rebalance false th));
          _ ← put_thread_in_passive t;
          process_rb_loop fuel cpu_id
      | None => mret tt
      end
  end.

Definition process_rb_queue (cpu_id : nat) : M lst unit :=
  s ← get;
  _ ← process_rb_loop (fuel_of s) cpu_id;
  rb_queue_clear_signal cpu_id.

Definition set_current (t : nat) : M lst unit := modify (set_cur (Some t)).
Definition get_current : M lst (option nat) :=
  c ← gets current; _ ← modify (set_cur None); mret c.
Definition get_current_ref : M lst nat :=
  c ← gets current; lift (expect c).

(** The loop of [schedule] that chooses the next thread: [None] is the early
    return that keeps the current thread. *)
Fixpoint schedule_loop (fuel : nat) : M lst (option nat) :=
  match fuel with
  | O => hang
  | S fuel =>
      r ← next_thread;
      match r with
      | None =>
          c ← get_current_ref;
          th ← thread c;
          match state th with
          | Runnable => mret None
          | Idle => mret None
          | _ => t ← get_idle_thread; mret (Some t)
          end
      | Some t =>
          th ← thread t;
          if rebalance th then _ ← rebalance_thread t; schedule_loop fuel
          else
            match state th with
            | Waiting => _ ← put_thread_in_passive t; schedule_loop fuel
            | _ => mret (Some t)
            end
      end
  end.

(** The bookkeeping of [CONT_STATE] around the register switch. *)
Definition switch_continuations (c t : nat) : M lst unit :=
  cs ← gets cont_state;
  _ ← upd_thread c (with_continuation_ptr (cur cs));
  th ← thread t;
  _ ← (if decide (continuation_ptr th = Null)
       then upd_thread t (with_continuation_ptr (Entry t 0)) else mret tt);
  th ← thread t;
  modify (set_cont_state (mkCS (continuation_ptr th) (Entry t 0) (Entry t MAX_CONT))).

(** The rest of [schedule] once the next thread is chosen. *)
Definition switch_to (t : nat) : M lst unit :=
  oc ← get_current;
  match oc with
  | None => mret tt
  | Some c =>
      _ ← set_current t;
      th ← thread c;
      _ ← match state th with
          | Idle => set_idle_thread c
          | _ => put_thread_in_passive c
          end;
      switch_continuations c t
  end.

Definition choose_and_switch : M lst unit :=
  s ← get;
  r ← schedule_loop (fuel_of s);
  match r with
  | None => mret tt
  | Some t => switch_to t
  end.

Definition schedule (cpu_id : nat) : M lst unit :=
  b ← rb_check_signal cpu_id;
  _ ← (if b : bool then process_rb_queue cpu_id else mret tt);
  choose_and_switch.

(** [do_yield] of a thread running on [cpu_id]. *)
Definition do_yield (cpu_id : nat) : M lst unit := schedule cpu_id.

(** ** Threads *)

Definition STACK_SIZE_IN_PAGES : Z := 4096.

(** The stack memory [stack_u8] comes from [alloc_stack]; [die] is the address
    of the function every new thread starts in.  The two words written at the
    top of the stack are outside the model. *)
Definition init_stack (stack_u8 func die : Z) (th : Thread) : Thread :=
  let die_return := (stack_u8 + (STACK_SIZE_IN_PAGES * 4096 - 2 * 8))%Z in
  match th with
  | mkThread i d nm st p a r (mkContext _ c14 c13 c12 c11 cbx cbp _ cfl) _ dm n nd ni cs cp =>
      mkThread i d nm st p a r (mkContext func c14 c13 c12 c11 cbx cbp die_return cfl)
        stack_u8 dm n nd ni cs cp
  end.

Definition Thread_new (tid : Z) (nm : string) (stack_u8 func die : Z) : Thread :=
  init_stack stack_u8 func die
    (mkThread tid 0 nm Runnable 0 0 false Context_new 0 None None None None
       (replicate MAX_CONT Continuation_zeroed) Null).

(** [Arc::new(Mutex::new(th))] at the fresh identity [t]. *)
Definition alloc_thread (t : nat) (th : Thread) : M lst unit :=
  modify (fun s => set_threads (<[t := th]> (threads s)) s).

Definition create_thread (t : nat) (tid : Z) (nm : string) (stack_u8 func die : Z) : M lst unit :=
  _ ← alloc_thread t (Thread_new tid nm stack_u8 func die);
  put_thread_in_passive t.

Definition init_threads (t : nat) (tid : Z) (kernel_domain : nat) (stack_u8 func die : Z) : M lst unit :=
  _ ← alloc_thread t (Thread_new tid "idle" stack_u8 func die);
  _ ← upd_thread t (fun th => with_continuation_ptr (Entry t 0)
        (with_state Idle (with_domain (Some kernel_domain) th)));
  _ ← set_idle_thread t;
  set_current t.

(** ** The system calls on a thread handle ([PThread]) *)

(** The states a domain may ask for (lib/core/interfaces/syscalls). *)
Inductive SysThreadState := SysRunnable | SysPaused | SysWaiting.

Definition get_id (t : nat) : M lst Z := th ← thread t; mret (id th).

Definition set_affinity (active_cpus : Z) (t : nat) (aff : Z) : M lst unit :=
  if (active_cpus <=? wrap 32 aff)%Z then mret tt
  else upd_thread t (fun th => with_state Rebalanced (with_rebalance true (with_affinity aff th))).

Definition set_priority (t : nat) (prio : Z) : M lst unit :=
  if (Z.of_nat MAX_PRIO <? prio)%Z then mret tt
  else upd_thread t (with_priority (Z.to_nat prio)).

Definition set_state (t : nat) (st : SysThreadState) : M lst unit :=
  match st with
  | SysWaiting => upd_thread t (with_state Waiting)
  | SysRunnable => upd_thread t (with_state Runnable)
  | _ => mret tt
  end.

Definition sleep (cpu_id t : nat) : M lst unit :=
  _ ← upd_thread t (with_state Waiting); do_yield cpu_id.

(** ** The continuation stack

    [cont_addr t] is the address of the array inside thread [t]. *)
Definition ptr_addr (cont_addr : nat -> Z) (p : cptr) : Z :=
  match p with Null => 0 | Entry t i => cont_addr t + 144 * Z.of_nat i end.

(** Reading through a pointer: the one-past-the-end entry holds nothing. *)
Definition deref (p : cptr) : M lst Continuation :=
  match p with
  | Null => panic
  | Entry t i => th ← thread t; lift (index (continuations th) i)
  end.

Definition pop_continuation (cont_addr : nat -> Z) : M lst Continuation :=
  cs ← gets cont_state;
  if (ptr_addr cont_addr (cur cs) <=? ptr_addr cont_addr (start cs))%Z then panic
  else
    let ptr := cur cs in
    match ptr with
    | Null => panic
    | Entry t i =>
        _ ← modify (set_cont_state (mkCS (Entry t (i - 1)) (start cs) (end_ cs)));
        deref ptr
    end.

(** The copy [dst] that the code fills in is a local variable. *)
Definition push_continuation (cont_addr : nat -> Z) (cont : Continuation) : M lst unit :=
  cs ← gets cont_state;
  if (ptr_addr cont_addr (end_ cs) <=? ptr_addr cont_addr (cur cs))%Z then panic
  else
    dst ← deref (cur cs);
    let dst := mkContinuation (c_func cont) (c_rax cont) (c_rcx cont) (c_rdx cont) (c_rsi cont)
      (c_rdi cont) (c_r8 cont) (c_r9 cont) (c_r10 cont) (c_rflags cont) (c_r15 cont) (c_r14 cont)
      (c_r13 cont) (c_r12 cont) (c_r11 cont) (c_rbx cont) (c_rbp cont) (c_rsp cont) in
    match cur cs with
    | Null => panic
    | Entry t i => modify (set_cont_state (mkCS (Entry t (i + 1)) (start cs) (end_ cs)))
    end.

(** ** The queues as lists

    [LS] holds the contents of the two arrays of priority queues of a CPU and
    of the rebalance queues; [rep] says that the heads and the [next] fields
    represent it. *)

Record LS := mkLS { la : list (list nat); lp : list (list nat); lr : list (list nat) }.

Definition lq (w : bool) (G : LS) : list (list nat) := if w then la G else lp G.
Definition set_lq (w : bool) (L : list (list nat)) (G : LS) : LS :=
  if w then mkLS L (lp G) (lr G) else mkLS (la G) L (lr G).
Definition set_lr (L : list (list nat)) (G : LS) : LS := mkLS (la G) (lp G) L.
Definition members (G : LS) : list nat := concat (la G) ++ concat (lp G) ++ concat (lr G).

(** The order in which [get_highest] empties an array of queues. *)
Definition order (L : list (list nat)) : list nat := concat (reverse L).

Definition top (h : nat) (L : list (list nat)) : Prop :=
  forall i l, L !! i = Some l -> h < i -> l = [].

Record rep (s : lst) (G : LS) : Prop := mkRep {
  rep_q : forall w, Forall2 (chain next (threads s)) (prio_queues (queue_of w s)) (lq w G);
  rep_r : Forall2 (chain next (threads s)) (rb_queues s) (lr G);
  rep_ql : forall w, length (lq w G) = MAX_PRIO + 1;
  rep_rl : length (lr G) = MAX_CPUS;
  rep_fl : length (rb_flags s) = MAX_CPUS;
  rep_top : forall w, highest (queue_of w s) <= MAX_PRIO /\ top (highest (queue_of w s)) (lq w G);
  rep_nd : NoDup (members G) }.

(** What the queue operations leave alone: everything of a thread but its
    [next] field, all of the threads outside [X], the current and idle threads. *)
Definition core (th : Thread) : Thread := set_next None th.

Record sim (X : list nat) (s s' : lst) : Prop := mkSim {
  sim_core : forall t, core <$> threads s' !! t = core <$> threads s !! t;
  sim_out : forall t, t ∉ X -> threads s' !! t = threads s !! t;
  sim_cur : current s' = current s;
  sim_idle : idle (sched s') = idle (sched s);
  sim_cont : cont_state s' = cont_state s }.

Lemma sim_refl X s : sim X s s.
Proof. by split. Qed.

Lemma sim_trans X s1 s2 s3 : sim X s1 s2 -> sim X s2 s3 -> sim X s1 s3.
Proof.
  intros [a1 b1 c1 d1 e1] [a2 b2 c2 d2 e2]. split; intros; [by rewrite a2, a1 | by rewrite b2, b1 | congruence..].
Qed.

Lemma sim_weaken X Y s s' : X ⊆ Y -> sim X s s' -> sim Y s s'.
Proof. intros H [a b c d e]. split; auto. Qed.

Lemma core_set_next n th : core (set_next n th) = core th.
Proof. by destruct th. Qed.

Lemma core_fields a b : core a = core b ->
  state a = state b /\ priority a = priority b /\ affinity a = affinity b /\
  rebalance a = rebalance b /\ continuation_ptr a = continuation_ptr b.
Proof. destruct a, b. unfold core, set_next. intros [=]. subst. repeat split. Qed.

Lemma sim_thread X s s' t th : sim X s s' -> threads s !! t = Some th ->
  exists th', threads s' !! t = Some th' /\ core th' = core th.
Proof.
  intros H Ht. pose proof (sim_core _ _ _ H t) as Hc. rewrite Ht in Hc.
  destruct (threads s' !! t); simplify_eq/=. eauto.
Qed.

Lemma sim_thread_r X s s' t th : sim X s s' -> threads s' !! t = Some th ->
  exists th', threads s !! t = Some th' /\ core th = core th'.
Proof.
  intros H Ht. pose proof (sim_core _ _ _ H t) as Hc. rewrite Ht in Hc.
  destruct (threads s !! t); simplify_eq/=. eauto.
Qed.

(** Changing only the [next] field of [t]. *)
Lemma core_insert (m : gmap nat Thread) t th n x : m !! t = Some th ->
  core <$> <[t := set_next n th]> m !! x = core <$> m !! x.
Proof.
  intros H. destruct (decide (x = t)) as [->|].
  - by rewrite lookup_insert_eq, H; simpl; rewrite core_set_next.
  - by rewrite lookup_insert_ne.
Qed.

Lemma thread_Done s t th : threads s !! t = Some th -> thread t s = Done (th, s).
Proof. intros H. unfold thread. by rewrite H. Qed.

Lemma upd_thread_Done s t th f : threads s !! t = Some th ->
  upd_thread t f s = Done (tt, set_threads (<[t := f th]> (threads s)) s).
Proof. intros H. unfold upd_thread. mstep (thread_Done _ _ _ H). done. Qed.

(** *** Arrays of queues *)

Lemma order_single l : order [l] = l.
Proof. unfold order. apply app_nil_r. Qed.

Lemma order_app L1 L2 : order (L1 ++ L2) = order L2 ++ order L1.
Proof. unfold order. by rewrite reverse_app, concat_app. Qed.

Lemma order_Permutation L : order L ≡ₚ concat L.
Proof.
  induction L as [|l L IH]; [done|]. change (l :: L) with ([l] ++ L).
  rewrite order_app, concat_app, IH, order_single. simpl. rewrite app_nil_r.
  apply Permutation_app_comm.
Qed.

Lemma order_nils L : (forall i l, L !! i = Some l -> l = []) -> order L = [].
Proof.
  intros H. apply Permutation_nil. rewrite order_Permutation.
  induction L as [|l L IH]; simpl; [done|].
  rewrite (H 0 l) by done. apply IH. intros i. apply (H (S i)).
Qed.

Lemma order_top L h l : top h L -> L !! h = Some l -> order L = l ++ order (take h L).
Proof.
  intros Ht Hl. rewrite <- (take_drop_middle L h l Hl) at 1.
  change (l :: drop (S h) L) with ([l] ++ drop (S h) L).
  rewrite !order_app, order_single, (order_nils (drop (S h) L)); [done|].
  intros i l' Hi. rewrite lookup_drop in Hi. apply (Ht (S h + i)); [done|lia].
Qed.

Lemma top_insert L h l i : top h L -> i <= h -> top h (<[i := l]> L).
Proof.
  intros Ht Hi j l' Hj Hlt. rewrite list_lookup_insert_ne in Hj by lia. by eapply Ht.
Qed.

Lemma filter_order_insert (P : nat -> Prop) `{!forall x, Decision (P x)} L i l t :
  ~ P t -> L !! i = Some l -> filter P (order (<[i := t :: l]> L)) = filter P (order L).
Proof.
  intros HP Hl. rewrite <- (take_drop_middle L i l Hl) at 2.
  rewrite insert_take_drop by (by eapply lookup_lt_Some).
  change ((t :: l) :: drop (S i) L) with ([t :: l] ++ drop (S i) L).
  change (l :: drop (S i) L) with ([l] ++ drop (S i) L).
  rewrite !order_app, !order_single, !list.filter_app, filter_cons_False by done. done.
Qed.

(** *** Arithmetic of the ghost lists *)

Lemma lq_set w L G : lq w (set_lq w L G) = L.
Proof. by destruct w. Qed.

Lemma lq_set_ne w L G : lq (negb w) (set_lq w L G) = lq (negb w) G.
Proof. by destruct w. Qed.

Definition others (w : bool) (G : LS) : list nat := concat (lq (negb w) G) ++ concat (lr G).

Lemma members_lq w G : members G ≡ₚ concat (lq w G) ++ others w G.
Proof. unfold members, others. destruct w; simpl; solve_Permutation. Qed.

Lemma others_set w L G : others w (set_lq w L G) = others w G.
Proof. by destruct w. Qed.

Lemma members_push w G i l t : lq w G !! i = Some l ->
  members (set_lq w (<[i := t :: l]> (lq w G)) G) ≡ₚ t :: members G.
Proof.
  intros Hl. rewrite (members_lq w), lq_set, others_set, concat_push_Permutation by done.
  by rewrite (members_lq w G).
Qed.

Lemma members_pop w G i l t : lq w G !! i = Some (t :: l) ->
  members G ≡ₚ t :: members (set_lq w (<[i := l]> (lq w G)) G).
Proof.
  intros Hl. rewrite (members_lq w G), (concat_pop_Permutation _ _ _ _ Hl).
  by rewrite (members_lq w (set_lq _ _ _)), lq_set, others_set.
Qed.

Lemma queue_set w q s : queue_of w (set_queue w q s) = q.
Proof. by destruct w. Qed.

Lemma queue_set_ne w q s : queue_of (negb w) (set_queue w q s) = queue_of (negb w) s.
Proof. by destruct w. Qed.

(** *** Specifications of the queue operations *)

(** The state after one queue and the threads changed. *)
Definition upd (w : bool) (q : SchedulerQueue) (m : gmap nat Thread) (s : lst) : lst :=
  set_queue w q (set_threads m s).

Lemma rep_upd w q m s G L :
  rep s G -> (forall t, t ∈ others w G -> m !! t = threads s !! t) ->
  Forall2 (chain next m) (prio_queues q) L -> length L = MAX_PRIO + 1 ->
  highest q <= MAX_PRIO -> top (highest q) L -> NoDup (members (set_lq w L G)) ->
  rep (upd w q m s) (set_lq w L G).
Proof.
  intros [Hq Hr Hql Hrl Hfl Ht Hnd] Hm HL Hlen Hhi Htop Hnd'.
  assert (Ho : forall t, t ∈ others w G -> next <$> m !! t = next <$> threads s !! t)
    by (intros; by rewrite Hm).
  split; try done.
  - intros w'. destruct (decide (w' = w)) as [->|Hne].
    + by rewrite lq_set; destruct w.
    + assert (w' = negb w) as -> by (by destruct w, w'). rewrite lq_set_ne.
      specialize (Hq (negb w)). apply (chains_agree _ (threads s)); [|by destruct w].
      intros t Ht'. apply Ho. unfold others. set_solver.
  - destruct w; apply (chains_agree _ (threads s)); try done; intros t Ht'; apply Ho;
      unfold others; set_solver.
  - intros w'. pose proof (Hql w'). by destruct w, w'.
  - by destruct w.
  - intros w'. pose proof (Ht w'). by destruct w, w'.
Qed.

Lemma push_thread_spec w p t th s G l :
  rep s G -> (t ∉ members G) -> threads s !! t = Some th -> lq w G !! p = Some l ->
  exists n, prio_queues (queue_of w s) !! p = Some n /\
  push_thread w p t s =
    Done (tt, upd w (mkSQ (highest (queue_of w s)) (<[p := Some t]> (prio_queues (queue_of w s))))
                    (<[t := set_next n th]> (threads s)) s).
Proof.
  intros H Hn Ht Hl.
  destruct (Forall2_lookup_r _ _ _ _ _ (rep_q _ _ H w) Hl) as (n & Hh & Hc).
  exists n. split; [done|]. unfold push_thread, gets.
  unfold mbind at 1, M_bind at 1.
  unfold index, expect. rewrite Hh. unfold lift, mbind, M_bind.
  destruct n as [n|]; unfold modify; (erewrite upd_thread_Done; [|by destruct w]); by destruct w.
Qed.

Lemma put_thread_spec w t th s G :
  rep s G -> (t ∉ members G) -> threads s !! t = Some th -> priority th <= MAX_PRIO ->
  exists s' l, put_thread w t s = Done (tt, s') /\ lq w G !! priority th = Some l /\
    rep s' (set_lq w (<[priority th := t :: l]> (lq w G)) G) /\ sim [t] s s' /\
    active (sched s') = active (sched s).
Proof.
  intros H Hn Ht Hp.
  destruct (lookup_lt_is_Some_2 (lq w G) (priority th)) as [l Hl].
  { rewrite (rep_ql _ _ H). lia. }
  destruct (push_thread_spec w _ t th s G l H Hn Ht Hl) as (n & Hh & Hpush).
  destruct (rep_top _ _ H w) as [Hhi Htop].
  set (q := queue_of w s) in *. set (hs := <[_ := Some t]> (prio_queues q)) in *.
  set (m := <[t := _]> (threads s)) in *.
  exists (upd w (mkSQ (highest q `max` priority th) hs) m s), l.
  split; [|split; [done|split; [|split]]].
  - unfold put_thread. mstep (thread_Done _ _ _ Ht). mstep Hpush.
    unfold gets, mbind, M_bind, upd. rewrite queue_set. cbn [highest prio_queues].
    destruct (Nat.ltb_spec (highest q) (priority th)).
    + unfold modify. rewrite Nat.max_r by lia.
      by destruct w.
    + rewrite Nat.max_l by lia. done.
  - apply rep_upd; simpl; try done.
    + intros x Hx. unfold m. apply lookup_insert_ne. rewrite (members_lq w) in Hn. set_solver.
    + eapply chains_push; eauto.
      * rewrite (members_lq w) in Hn. set_solver.
      * by destruct th.
      * apply (rep_q _ _ H).
    + rewrite length_insert. apply (rep_ql _ _ H).
    + lia.
    + apply top_insert; [|lia]. intros i l' Hi Hlt. eapply Htop; [done|]. lia.
    + rewrite members_push by done. constructor; [done|]. apply (rep_nd _ _ H).
  - split; [| |by destruct w..].
    + intros x. destruct w; by apply core_insert.
    + intros x Hx. destruct w; apply lookup_insert_ne; set_solver.
  - by destruct w.
Qed.

Lemma pop_thread_spec w p s G :
  rep s G -> p <= MAX_PRIO ->
  exists s' l, lq w G !! p = Some l /\ pop_thread w p s = Done (head l, s') /\
    rep s' (set_lq w (<[p := tail l]> (lq w G)) G) /\ sim l s s' /\
    active (sched s') = active (sched s) /\
    highest (queue_of w s') = highest (queue_of w s).
Proof.
  intros H Hp. destruct (lookup_lt_is_Some_2 (lq w G) p) as [l Hl].
  { rewrite (rep_ql _ _ H). lia. }
  destruct (Forall2_lookup_r _ _ _ _ _ (rep_q _ _ H w) Hl) as (n & Hh & Hc).
  unfold pop_thread, gets. unfold mbind at 1, M_bind at 1.
  unfold index, expect. rewrite Hh. set (q := queue_of w s) in *.
  destruct (rep_top _ _ H w) as [Hhi Htop].
  destruct l as [|t l].
  - simpl in Hc. subst n. exists s, []. split; [done|].
    assert (Hq : mkSQ (highest q) (<[p:=None]> (prio_queues q)) = q)
      by (destruct q; simpl in *; f_equal; by apply list_insert_id).
    split; [|rewrite list_insert_id by done; destruct w, G; auto using sim_refl].
    unfold lift, mbind, M_bind, modify. rewrite Hq. by destruct w, s as [? [] ? ? ? ?].
  - destruct Hc as [-> (v & Hv & Hc)].
    exists (upd w (mkSQ (highest q) (<[p := next v]> (prio_queues q)))
             (<[t := set_next None v]> (threads s)) s), (t :: l).
    split; [done|]. split; [|split; [|split; [|split]]]; [| | |by destruct w..].
    + unfold lift, mbind, M_bind, modify. erewrite thread_Done by (by destruct w).
      erewrite upd_thread_Done by (by destruct w). by destruct w.
    + simpl. apply rep_upd; simpl; try done.
      * intros x Hx. apply lookup_insert_ne. pose proof (rep_nd _ _ H) as Hnd.
        rewrite (members_lq w), (concat_pop_Permutation _ _ _ _ Hl), list.NoDup_app in Hnd. set_solver.
      * eapply chains_pop; eauto; [|apply (rep_q _ _ H)].
        pose proof (rep_nd _ _ H) as Hnd. rewrite (members_lq w) in Hnd.
        apply list.NoDup_app in Hnd. tauto.
      * rewrite length_insert. apply (rep_ql _ _ H).
      * intros i l' Hi Hlt. destruct (decide (i = p)) as [->|].
        -- specialize (Htop _ _ Hl Hlt). done.
        -- rewrite list_lookup_insert_ne in Hi by done. by eapply Htop.
      * pose proof (rep_nd _ _ H) as Hnd. rewrite (members_pop w _ _ _ _ Hl) in Hnd.
        by apply NoDup_cons_1_2 in Hnd.
    + split; [| |by destruct w..].
      * intros x. destruct w; by apply core_insert.
      * intros x Hx. destruct w; apply lookup_insert_ne; set_solver.
Qed.

Lemma set_lq_id w G : set_lq w (lq w G) G = G.
Proof. by destruct w, G. Qed.

Lemma set_lq_set w L L' G : set_lq w L' (set_lq w L G) = set_lq w L' G.
Proof. by destruct w. Qed.

Lemma lq_members w G l i : lq w G !! i = Some l -> l ⊆ members G.
Proof.
  intros Hl x Hx. rewrite (members_lq w), elem_of_app, elem_of_concat. left.
  exists l. split; [done|]. by eapply list_elem_of_lookup_2.
Qed.

Lemma rep_lower w s G h :
  rep s G -> highest (queue_of w s) = S h -> lq w G !! S h = Some [] ->
  rep (set_queue w (mkSQ (S h - 1) (prio_queues (queue_of w s))) s) G.
Proof.
  intros H Hh Hl. rewrite <- (set_lq_id w G).
  replace (set_queue _ _ _) with
    (upd w (mkSQ h (prio_queues (queue_of w s))) (threads s) s)
    by (simpl; rewrite Nat.sub_0_r; by destruct w).
  destruct (rep_top _ _ H w) as [Hhi Htop]. rewrite Hh in *.
  apply rep_upd; simpl; try done; rewrite ?set_lq_id; try apply H.
  - lia.
  - intros i l Hi Hlt. destruct (decide (i = S h)) as [->|]; [by simplify_eq|].
    eapply Htop; [done|lia].
Qed.

Lemma get_highest_loop_spec fuel w s G :
  rep s G -> highest (queue_of w s) < fuel ->
  exists s' L', get_highest_loop fuel w s = Done (head (order (lq w G)), s') /\
    rep s' (set_lq w L' G) /\ order L' = tail (order (lq w G)) /\
    sim (members G) s s' /\ active (sched s') = active (sched s).
Proof.
  revert s. induction fuel as [|fuel IH]; intros s H Hf; [lia|].
  destruct (rep_top _ _ H w) as [Hhi Htop].
  destruct (pop_thread_spec w _ s G H Hhi) as (s1 & l & Hl & Hpop & Hrep & Hsim & Hact & Hh1).
  pose proof (order_top _ _ _ Htop Hl) as Ho.
  cbn [get_highest_loop]. rewrite bind_gets. mstep Hpop.
  destruct l as [|t l]; cbn [hd_error tl] in *.
  - rewrite list_insert_id, set_lq_id in Hrep by done.
    destruct (Nat.eqb_spec (highest (queue_of w s)) 0) as [Hz|Hz].
    + exists s1, (lq w G). rewrite Hz in Ho. rewrite Ho, set_lq_id. simpl.
      split_and!; try done. by eapply sim_weaken; [|done]; set_solver.
    + destruct (highest (queue_of w s)) as [|h] eqn:E; [done|].
      pose proof (rep_lower w s1 G h Hrep Hh1 Hl) as Hlow.
      cbv match. rewrite bind_gets, bind_modify, Hh1.
      destruct (IH _ Hlow) as (s' & L' & Hrun & Hr' & HL' & Hs' & Ha').
      { rewrite queue_set. simpl. lia. }
      exists s', L'. split_and!; try done.
      * eapply sim_trans; [by eapply sim_weaken; [|done]; set_solver|].
        eapply sim_trans; [|done]. by destruct w.
      * rewrite Ha', <- Hact. by destruct w.
  - exists s1, (<[highest (queue_of w s) := l]> (lq w G)). rewrite Ho. simpl.
    split_and!; try done; [|by eapply sim_weaken; [by eapply lq_members|]].
    rewrite (order_top _ (highest (queue_of w s)) l).
    + by rewrite take_insert_ge.
    + by apply top_insert.
    + apply list_lookup_insert_eq. by eapply lookup_lt_Some.
Qed.

Lemma get_highest_spec w s G :
  rep s G ->
  exists s' L', get_highest w s = Done (head (order (lq w G)), s') /\
    rep s' (set_lq w L' G) /\ order L' = tail (order (lq w G)) /\
    sim (members G) s s' /\ active (sched s') = active (sched s).
Proof. intros H. apply get_highest_loop_spec; [done|lia]. Qed.

(** A thread the scheduler may pick. *)
Definition ready (m : gmap nat Thread) (t : nat) : bool :=
  match m !! t with
  | Some th => match state th with Runnable | Rebalanced => true | _ => false end
  | None => false
  end.

Definition rebalanced (m : gmap nat Thread) (t : nat) : bool :=
  match m !! t with Some th => rebalance th | None => false end.

Lemma ready_core m m' t : core <$> m' !! t = core <$> m !! t -> ready m' t = ready m t.
Proof.
  unfold ready. destruct (m' !! t) as [a|], (m !! t) as [b|]; simpl; intros H; simplify_eq; [|done].
  by destruct (core_fields _ _ H) as (-> & _).
Qed.

Lemma rebalanced_core m m' t :
  core <$> m' !! t = core <$> m !! t -> rebalanced m' t = rebalanced m t.
Proof.
  unfold rebalanced. destruct (m' !! t) as [a|], (m !! t) as [b|]; simpl; intros H; simplify_eq; [|done].
  by destruct (core_fields _ _ H) as (_ & _ & _ & -> & _).
Qed.

(** The ready threads of a list, in its order. *)
Definition sel (m : gmap nat Thread) (l : list nat) : list nat :=
  filter (fun t => ready m t = true) l.

Lemma sel_sim X s s' l : sim X s s' -> sel (threads s') l = sel (threads s) l.
Proof.
  intros H. apply list_filter_iff. intros t.
  by rewrite (ready_core _ _ t (sim_core _ _ _ H t)).
Qed.

Lemma sel_app m l1 l2 : sel m (l1 ++ l2) = sel m l1 ++ sel m l2.
Proof. apply list.filter_app. Qed.

(** Well-formed threads: priorities and CPU numbers are in range, and exactly
    the idle threads [idles] are in state [Idle]. *)
Section Invariant.
Context (idles : list nat).

Definition wf_thread (t : nat) (th : Thread) : Prop :=
  priority th <= MAX_PRIO /\
  (rebalance th = true -> (0 <= affinity th < Z.of_nat MAX_CPUS)%Z) /\
  (state th = Idle <-> t ∈ idles).

Definition wf (m : gmap nat Thread) : Prop :=
  forall t th, m !! t = Some th -> wf_thread t th.

Lemma wf_sim X s s' : sim X s s' -> wf (threads s) -> wf (threads s').
Proof.
  intros H Hwf t th Ht. destruct (sim_thread_r _ _ _ _ _ H Ht) as (th0 & Ht0 & Hc).
  destruct (core_fields _ _ Hc) as (E1 & E2 & E3 & E4 & _).
  unfold wf_thread. rewrite E1, E2, E3, E4. by apply Hwf.
Qed.

Lemma put_thread_in_passive_spec t th s G w :
  rep s G -> w = active (sched s) -> (t ∉ members G) -> threads s !! t = Some th ->
  priority th <= MAX_PRIO ->
  exists s' l, put_thread_in_passive t s = Done (tt, s') /\
    lq (negb w) G !! priority th = Some l /\
    rep s' (set_lq (negb w) (<[priority th := t :: l]> (lq (negb w) G)) G) /\ sim [t] s s' /\
    active (sched s') = w.
Proof.
  intros H -> Hn Ht Hp. unfold put_thread_in_passive. rewrite bind_gets.
  destruct (put_thread_spec (negb (active (sched s))) t th s G H Hn Ht Hp) as (s' & l & Hs).
  exists s', l. by destruct (active (sched s)).
Qed.

Lemma get_next_active_eq s : get_next_active s = get_highest (active (sched s)) s.
Proof. unfold get_next_active. rewrite bind_gets. by destruct (active (sched s)). Qed.

Lemma order_in_members w G t : t ∈ order (lq w G) -> t ∈ members G.
Proof. rewrite (members_lq w), order_Permutation. set_solver. Qed.

Lemma rep_in s G t : rep s G -> t ∈ members G -> exists th, threads s !! t = Some th.
Proof.
  intros H. unfold members. rewrite !elem_of_app. intros [Hin|[Hin|Hin]].
  - eapply (chains_in _ _ _ _ _ (rep_q _ _ H true)); done.
  - eapply (chains_in _ _ _ _ _ (rep_q _ _ H false)); done.
  - eapply (chains_in _ _ _ _ _ (rep_r _ _ H)); done.
Qed.

Lemma set_lq_lr w L G : lr (set_lq w L G) = lr G.
Proof. by destruct w. Qed.

Lemma members_order_tail w G L' t l :
  order (lq w G) = t :: l -> order L' = l -> members G ≡ₚ t :: members (set_lq w L' G).
Proof.
  intros Ho Hl. rewrite (members_lq w G), (members_lq w (set_lq _ _ _)), lq_set, others_set.
  by rewrite <- !order_Permutation, Ho, Hl.
Qed.

(** What [get_next] and [next] leave: the ghost lists [G'] hold what [G] held
    but the thread returned, and the rebalance queues are untouched. *)
Definition taken (r : option nat) (s s' : lst) (G G' : LS) : Prop :=
  rep s' G' /\ sim (members G) s s' /\ lr G' = lr G /\
  members G ≡ₚ option_list r ++ members G'.

Lemma get_next_loop_spec fuel s G w :
  rep s G -> wf (threads s) -> w = active (sched s) -> length (order (lq w G)) < fuel ->
  exists s' G', let r := head (sel (threads s) (order (lq w G))) in
    get_next_loop fuel s = Done (r, s') /\ taken r s s' G G' /\ active (sched s') = w /\
    sel (threads s) (order (lq w G')) = tail (sel (threads s) (order (lq w G))) /\
    sel (threads s) (order (lq (negb w) G')) = sel (threads s) (order (lq (negb w) G)).
Proof.
  revert s G. induction fuel as [|fuel IH]; intros s G H Hwf -> Hf; [lia|].
  set (w := active (sched s)) in *.
  destruct (get_highest_spec w s G H) as (s1 & L' & Hrun & Hrep & HL & Hsim & Hact).
  cbn [get_next_loop]. mstep (eq_trans (get_next_active_eq s) Hrun).
  destruct (order (lq w G)) as [|t l] eqn:Ho; cbn [hd_error tl] in *.
  { exists s1, (set_lq w L' G). simpl. unfold taken.
    rewrite lq_set, lq_set_ne, HL, set_lq_lr. split_and!; try done. simpl.
    by rewrite (members_lq w G), (members_lq w (set_lq _ _ _)), lq_set, others_set,
      <- !order_Permutation, HL, Ho. }
  pose proof (members_order_tail w G L' t l Ho HL) as Hperm.
  assert (Hnd : t ∉ members (set_lq w L' G)).
  { pose proof (rep_nd _ _ H) as Hnd. rewrite Hperm in Hnd. by apply NoDup_cons_1_1 in Hnd. }
  destruct (rep_in s G t H) as [th Ht]; [rewrite Hperm; set_solver|].
  destruct (sim_thread _ _ _ _ _ Hsim Ht) as (th1 & Ht1 & Hc1).
  destruct (core_fields _ _ Hc1) as (Est & Epr & _).
  mstep (thread_Done _ _ _ Ht1).
  destruct (ready (threads s) t) eqn:Hready.
  - assert (Hsel : sel (threads s) (t :: l) = t :: sel (threads s) l) by (by apply filter_cons_True).
    rewrite Hsel. exists s1, (set_lq w L' G). cbn [hd_error tl]. rewrite lq_set, lq_set_ne, HL.
    split_and!; try done; [|split_and!; try done; by rewrite set_lq_lr].
    unfold ready in Hready. rewrite Ht, <- Est in Hready. by destruct (state th1).
  - assert (Hsel : sel (threads s) (t :: l) = sel (threads s) l).
    { apply filter_cons_False. by rewrite Hready. }
    destruct (put_thread_in_passive_spec t th1 s1 _ w Hrep (eq_sym Hact) Hnd Ht1)
      as (s2 & k & Hput & Hk & Hrep2 & Hsim2 & Hact2); [rewrite Epr; by apply (Hwf t)|].
    assert (Hs12 : sim (members G) s s2).
    { eapply sim_trans; [done|]. eapply sim_weaken; [|done]. rewrite Hperm. set_solver. }
    set (G2 := set_lq (negb w) _ _) in *.
    assert (HG2 : members G2 ≡ₚ members G) by (unfold G2; by rewrite members_push, Hperm).
    assert (Hw2 : lq w G2 = L') by (unfold G2; clearbody w; by destruct w).
    destruct (IH s2 G2 Hrep2 (wf_sim _ _ _ Hs12 Hwf) (eq_sym Hact2)) as
      (s' & G' & Hrun2 & (Hr' & Hs' & Hlr & Hp') & Ha' & Hsa & Hsp).
    { rewrite Hw2, HL. simpl in Hf. lia. }
    rewrite !(sel_sim _ _ _ _ Hs12), Hw2, HL in *. rewrite Hsel. exists s', G'.
    unfold taken. split_and!; try done.
    + unfold ready in Hready. rewrite Ht, <- Est in Hready.
      destruct (state th1); try discriminate; by mstep Hput.
    + eapply sim_trans; [done|]. eapply sim_weaken; [|done]. by rewrite HG2.
    + rewrite Hlr. unfold G2. by rewrite !set_lq_lr.
    + by rewrite <- HG2.
    + rewrite Hsp. unfold G2. rewrite lq_set. unfold sel. rewrite filter_order_insert.
      * by rewrite lq_set_ne.
      * by rewrite Hready.
      * done.
Qed.

Lemma members_length s G : rep s G -> length (members G) <= map_size (threads s).
Proof.
  intros H. apply keys_length; [apply H|]. intros t Ht. by apply (rep_in s G).
Qed.

Lemma order_length w s G : rep s G -> length (order (lq w G)) < fuel_of s.
Proof.
  intros H. pose proof (members_length s G H) as Hl.
  rewrite (members_lq w), length_app, <- order_Permutation in Hl. unfold fuel_of. lia.
Qed.

Lemma get_next_spec s G w :
  rep s G -> wf (threads s) -> w = active (sched s) ->
  exists s' G', let r := head (sel (threads s) (order (lq w G))) in
    get_next s = Done (r, s') /\ taken r s s' G G' /\ active (sched s') = w /\
    sel (threads s) (order (lq w G')) = tail (sel (threads s) (order (lq w G))) /\
    sel (threads s) (order (lq (negb w) G')) = sel (threads s) (order (lq (negb w) G)).
Proof.
  intros H Hwf Hw. unfold get_next. rewrite bind_get.
  apply get_next_loop_spec; try done. by apply order_length.
Qed.

(** The ready threads in the order in which [next] hands them out. *)
Definition runq (s : lst) (G : LS) : list nat :=
  let w := active (sched s) in
  sel (threads s) (order (lq w G) ++ order (lq (negb w) G)).

Definition flipped (s : lst) : lst :=
  let sc := sched s in
  set_sched (mkSched (idle sc) (negb (active sc)) (active_queue sc) (passive_queue sc)) s.

Lemma flip_queues_eq s : flip_queues s = Done (tt, flipped s).
Proof. unfold flip_queues, modify, flipped. by destruct (active (sched s)). Qed.

Lemma rep_flipped s G : rep s G -> rep (flipped s) G.
Proof. intros []. split; try done; intros []; naive_solver. Qed.

Lemma next_spec s G :
  rep s G -> wf (threads s) ->
  exists s' G', let r := head (runq s G) in
    next_thread s = Done (r, s') /\ taken r s s' G G' /\ runq s' G' = tail (runq s G).
Proof.
  intros H Hwf. set (w := active (sched s)).
  destruct (get_next_spec s G w H Hwf eq_refl)
    as (s1 & G1 & Hrun & (Hr1 & Hs1 & Hlr1 & Hp1) & Ha1 & Hsa & Hsp).
  unfold next_thread, runq. fold w. rewrite sel_app. mstep Hrun.
  destruct (sel (threads s) (order (lq w G))) as [|t l] eqn:E; cbn [hd_error tl app] in *.
  - mstep (flip_queues_eq s1).
    assert (Hsf : sim (members G) s (flipped s1)) by (eapply sim_trans; [done|by split]).
    destruct (get_next_spec (flipped s1) G1 (negb w)) as
      (s2 & G2 & Hrun2 & (Hr2 & Hs2 & Hlr2 & Hp2) & Ha2 & Hsa2 & Hsp2).
    { by apply rep_flipped. } { by eapply wf_sim. } { simpl. by rewrite Ha1. }
    rewrite negb_involutive in Hsp2. rewrite !(sel_sim _ _ _ _ Hsf) in *.
    rewrite Hsp in *. rewrite Hsa in Hsp2. simpl in Hp1.
    assert (Hs' : sim (members G) s s2).
    { eapply sim_trans; [done|]. eapply sim_weaken; [|done]. by rewrite Hp1. }
    exists s2, G2. split; [|split].
    + mstep Hrun2. by destruct (head _).
    + split_and!; [done..|congruence|by rewrite Hp1].
    + rewrite Ha2, sel_app, !(sel_sim _ _ _ _ Hs'), negb_involutive, Hsa2, Hsp2.
      by rewrite app_nil_r.
  - exists s1, G1. split; [done|]. split; [done|].
    by rewrite Ha1, sel_app, !(sel_sim _ _ _ _ Hs1), Hsa, Hsp.
Qed.

(** *** Rebalancing *)

Lemma members_rb_push G i l t : lr G !! i = Some l ->
  members (set_lr (<[i := t :: l]> (lr G)) G) ≡ₚ t :: members G.
Proof.
  intros Hl. unfold members. simpl. rewrite concat_push_Permutation by done. solve_Permutation.
Qed.

Lemma members_rb_pop G i l t : lr G !! i = Some (t :: l) ->
  members G ≡ₚ t :: members (set_lr (<[i := l]> (lr G)) G).
Proof.
  intros Hl. unfold members. simpl. rewrite (concat_pop_Permutation _ _ _ _ Hl). solve_Permutation.
Qed.

(** The state after the rebalance queues and the threads changed. *)
Definition upd_rb (q : list (option nat)) (m : gmap nat Thread) (s : lst) : lst :=
  set_rb_queues q (set_threads m s).

Lemma rep_upd_rb q m s G L :
  rep s G -> (forall t, t ∈ concat (la G) ++ concat (lp G) -> m !! t = threads s !! t) ->
  Forall2 (chain next m) q L -> length L = MAX_CPUS ->
  NoDup (members (set_lr L G)) -> rep (upd_rb q m s) (set_lr L G).
Proof.
  intros [Hq Hr Hql Hrl Hfl Ht Hnd] Hm HL Hlen Hnd'. split; try done.
  intros w. specialize (Hq w). destruct w; (eapply chains_agree; [|exact Hq]);
    intros t Hin; rewrite Hm; [done|set_solver|done|set_solver].
Qed.

Lemma rb_push_spec p t th s G :
  rep s G -> (t ∉ members G) -> threads s !! t = Some th -> p < MAX_CPUS ->
  exists s' l, rb_push_thread p t s = Done (tt, s') /\ lr G !! p = Some l /\
    rep s' (set_lr (<[p := t :: l]> (lr G)) G) /\ sim [t] s s' /\ sched s' = sched s.
Proof.
  intros H Hn Ht Hp. destruct (lookup_lt_is_Some_2 (lr G) p) as [l Hl].
  { by rewrite (rep_rl _ _ H). }
  destruct (Forall2_lookup_r _ _ _ _ _ (rep_r _ _ H) Hl) as (n & Hh & Hc).
  exists (upd_rb (<[p := Some t]> (rb_queues s)) (<[t := set_next n th]> (threads s)) s), l.
  split; [|split; [done|split; [|split; [|done]]]].
  - unfold rb_push_thread. rewrite bind_gets, (index_Some _ _ _ Hh), bind_lift, bind_modify.
    assert (Hu : upd_thread t (set_next n) (set_rb_queues (<[p:=None]> (rb_queues s)) s) =
      Done (tt, set_rb_queues (<[p:=None]> (rb_queues s))
                  (set_threads (<[t := set_next n th]> (threads s)) s)))
      by (by apply (upd_thread_Done (set_rb_queues _ s))).
    destruct n as [n|]; mstep Hu; unfold modify, upd_rb; simpl; by rewrite list_insert_insert_eq.
  - apply rep_upd_rb; try done.
    + intros x Hx. apply lookup_insert_ne. unfold members in Hn. set_solver.
    + eapply chains_push; eauto; [unfold members in Hn; set_solver|by destruct th|apply H].
    + rewrite length_insert. apply H.
    + rewrite members_rb_push by done. constructor; [done|apply H].
  - split; try done; [intros x; by apply core_insert|].
    intros x Hx. apply lookup_insert_ne. set_solver.
Qed.

Lemma rb_pop_spec p s G :
  rep s G -> p < MAX_CPUS ->
  exists s' l, lr G !! p = Some l /\ rb_pop_thread p s = Done (head l, s') /\
    rep s' (set_lr (<[p := tail l]> (lr G)) G) /\ sim l s s' /\ sched s' = sched s.
Proof.
  intros H Hp. destruct (lookup_lt_is_Some_2 (lr G) p) as [l Hl].
  { by rewrite (rep_rl _ _ H). }
  destruct (Forall2_lookup_r _ _ _ _ _ (rep_r _ _ H) Hl) as (n & Hh & Hc).
  unfold rb_pop_thread. rewrite bind_gets, (index_Some _ _ _ Hh), bind_lift, bind_modify.
  destruct l as [|t l].
  - simpl in Hc. subst n. exists s, []. split; [done|].
    split; [|rewrite list_insert_id by done; destruct G; by auto using sim_refl].
    rewrite list_insert_id by done. by destruct s.
  - destruct Hc as [-> (v & Hv & Hc)].
    exists (upd_rb (<[p := next v]> (rb_queues s)) (<[t := set_next None v]> (threads s)) s), (t :: l).
    split_and!; try done.
    + mstep (thread_Done (set_rb_queues (<[p:=None]> (rb_queues s)) s) t v Hv).
      mstep (upd_thread_Done (set_rb_queues (<[p:=None]> (rb_queues s)) s) t v (set_next None) Hv).
      rewrite bind_modify. unfold upd_rb. simpl. by rewrite list_insert_insert_eq.
    + pose proof (rep_nd _ _ H) as Hnd.
      apply rep_upd_rb; try done.
      * intros x Hx. apply lookup_insert_ne. rewrite (members_rb_pop _ _ _ _ Hl) in Hnd.
        apply NoDup_cons_1_1 in Hnd. unfold members in Hnd. simpl in Hnd. set_solver.
      * eapply chains_pop; eauto; [|apply H]. unfold members in Hnd.
        rewrite !list.NoDup_app in Hnd. tauto.
      * simpl. rewrite length_insert. apply H.
      * rewrite (members_rb_pop _ _ _ _ Hl) in Hnd. by apply NoDup_cons_1_2 in Hnd.
    + split; try done; [intros x; by apply core_insert|].
      intros x Hx. apply lookup_insert_ne. set_solver.
Qed.

Lemma signal_spec p b s G :
  rep s G -> p < MAX_CPUS ->
  (fl ← gets rb_flags; _ ← lift (index fl p); modify (set_rb_flags (<[p := b]> fl))) s =
    Done (tt, set_rb_flags (<[p := b]> (rb_flags s)) s) /\
  rep (set_rb_flags (<[p := b]> (rb_flags s)) s) G.
Proof.
  intros H Hp. destruct (lookup_lt_is_Some_2 (rb_flags s) p) as [x Hx].
  { by rewrite (rep_fl _ _ H). }
  split; [by rewrite bind_gets, (index_Some _ _ _ Hx), bind_lift|].
  destruct H. split; try done. simpl. by rewrite length_insert.
Qed.

Lemma rebalance_thread_spec t th s G :
  rep s G -> (t ∉ members G) -> threads s !! t = Some th ->
  (0 <= affinity th < Z.of_nat MAX_CPUS)%Z ->
  exists s' l, let p := Z.to_nat (affinity th) in
    rebalance_thread t s = Done (tt, s') /\ lr G !! p = Some l /\
    rep s' (set_lr (<[p := t :: l]> (lr G)) G) /\ sim [t] s s' /\ sched s' = sched s.
Proof.
  intros H Hn Ht Ha. assert (Hp : Z.to_nat (affinity th) < MAX_CPUS) by lia.
  destruct (rb_push_spec _ t th s G H Hn Ht Hp) as (s1 & l & Hpush & Hl & Hr & Hs & Hsc).
  destruct (signal_spec _ true s1 _ Hr Hp) as [Hsig Hr'].
  eexists _, l. cbn zeta. split_and!; [|done..| |done].
  - unfold rebalance_thread. mstep (thread_Done _ _ _ Ht). mstep Hpush. exact Hsig.
  - destruct Hs. by split.
Qed.

(** What an operation of a CPU leaves alone whatever it does to the threads [X]. *)
Record frame (X : list nat) (s s' : lst) : Prop := mkFrame {
  fr_out : forall t, t ∉ X -> threads s' !! t = threads s !! t;
  fr_cur : current s' = current s;
  fr_idle : idle (sched s') = idle (sched s);
  fr_cont : cont_state s' = cont_state s }.

Lemma sim_frame X s s' : sim X s s' -> frame X s s'.
Proof. intros []. by split. Qed.

Lemma frame_trans X s1 s2 s3 : frame X s1 s2 -> frame X s2 s3 -> frame X s1 s3.
Proof.
  intros [a1 b1 c1 d1] [a2 b2 c2 d2]. split; intros; [by rewrite a2, a1|congruence..].
Qed.

Lemma frame_weaken X Y s s' : X ⊆ Y -> frame X s s' -> frame Y s s'.
Proof. intros H []. split; auto. Qed.

Lemma rep_set_thread t th s G :
  rep s G -> (t ∉ members G) -> rep (set_threads (<[t := th]> (threads s)) s) G.
Proof.
  unfold members. intros [Hq Hr ? ? ? ? ?] Hn. split; try done.
  - intros w. specialize (Hq w). destruct w; apply chains_insert; (done || set_solver).
  - apply chains_insert; [set_solver|done].
Qed.

Lemma wf_insert t th m : wf m -> wf_thread t th -> wf (<[t := th]> m).
Proof.
  intros H Ht x v Hx. destruct (decide (x = t)) as [->|].
  - rewrite lookup_insert_eq in Hx. by simplify_eq.
  - rewrite lookup_insert_ne in Hx by done. by apply H.
Qed.

Definition disjoint_idles (l : list nat) : Prop := forall t, t ∈ l -> t ∉ idles.

Definition arrived (th : Thread) : Thread := with_state Runnable (with_rebalance false th).

Lemma arrive_spec t th s G w :
  rep s G -> wf (threads s) -> w = active (sched s) -> (t ∉ members G) -> (t ∉ idles) ->
  threads s !! t = Some th ->
  exists s' k, (_ ← upd_thread t (fun th => with_state Runnable (with_rebalance false th));
                put_thread_in_passive t) s = Done (tt, s') /\
    lq (negb w) G !! priority th = Some k /\
    rep s' (set_lq (negb w) (<[priority th := t :: k]> (lq (negb w) G)) G) /\
    wf (threads s') /\ frame [t] s s' /\ active (sched s') = w /\
    (exists th', threads s' !! t = Some th' /\ core th' = core (arrived th)).
Proof.
  intros H Hwf Hw Hn Hi Ht. set (s1 := set_threads (<[t := arrived th]> (threads s)) s).
  assert (Hwt : wf_thread t (arrived th)).
  { destruct (Hwf _ _ Ht) as (Hp & _ & _). destruct th; simpl in *. split_and!; simpl; done. }
  destruct (put_thread_in_passive_spec t (arrived th) s1 G w) as (s' & k & Hput & Hk & Hr & Hs & Ha);
    [by apply rep_set_thread|done|done|apply lookup_insert_eq|apply Hwt|].
  assert (Epr : priority (arrived th) = priority th) by (by destruct th).
  rewrite Epr in *. exists s', k. split_and!; try done.
  - mstep (upd_thread_Done _ _ _ (fun th => with_state Runnable (with_rebalance false th)) Ht).
    exact Hput.
  - eapply wf_sim; [done|]. by apply wf_insert.
  - apply (frame_trans _ _ s1); [|by apply sim_frame]. split; try done.
    intros x Hx. apply lookup_insert_ne. set_solver.
  - eapply sim_thread; [done|]. apply lookup_insert_eq.
Qed.

Lemma process_rb_loop_spec fuel p l s G w :
  rep s G -> wf (threads s) -> disjoint_idles (members G) -> w = active (sched s) ->
  p < MAX_CPUS -> lr G !! p = Some l -> length l < fuel ->
  exists s' G', process_rb_loop fuel p s = Done (tt, s') /\ rep s' G' /\ wf (threads s') /\
    frame (members G) s s' /\ active (sched s') = w /\ members G' ≡ₚ members G /\
    lq w G' = lq w G /\ lr G' = <[p := []]> (lr G) /\
    (forall t, t ∈ l -> ready (threads s') t = true /\ rebalanced (threads s') t = false) /\
    (forall t, t ∉ l -> core <$> threads s' !! t = core <$> threads s !! t).
Proof.
  revert l s G. induction fuel as [|fuel IH]; intros l s G H Hwf Hd Hw Hp Hl Hf; [lia|].
  destruct (rb_pop_spec p s G H Hp) as (s1 & l' & Hl' & Hpop & Hr1 & Hs1 & Hsc1).
  simplify_eq. cbn [process_rb_loop]. mstep Hpop.
  destruct l as [|t l]; cbn [hd_error tl] in *.
  { rewrite list_insert_id in Hr1 by done. exists s1, G.
    replace (set_lr (lr G) G) with G in Hr1 by (by destruct G).
    rewrite Hsc1. split_and!; [done|done|by eapply wf_sim| |done|done|done| |set_solver|].
    - eapply frame_weaken; [|by apply sim_frame]. set_solver.
    - by rewrite list_insert_id.
    - intros x _. apply (sim_core _ _ _ Hs1). }
  set (G1 := set_lr (<[p := l]> (lr G)) G) in *.
  pose proof (members_rb_pop _ _ _ _ Hl) as Hperm. fold G1 in Hperm.
  assert (Hnd : t ∉ members G1).
  { pose proof (rep_nd _ _ H) as Hnd. rewrite Hperm in Hnd. by apply NoDup_cons_1_1 in Hnd. }
  destruct (rep_in s G t H) as [th Ht]; [rewrite Hperm; set_solver|].
  destruct (sim_thread _ _ _ _ _ Hs1 Ht) as (th1 & Ht1 & Hc1).
  destruct (arrive_spec t th1 s1 G1 (active (sched s)) Hr1) as
    (s2 & k & Har & Hk & Hr2 & Hwf2 & Hf2 & Ha2 & th2 & Ht2 & Hc2);
    [by eapply wf_sim|by rewrite Hsc1|done|apply Hd; rewrite Hperm; set_solver|done|].
  rewrite <- bind_assoc. mstep Har. set (G2 := set_lq _ _ G1) in *.
  assert (HG2 : members G2 ≡ₚ members G) by (unfold G2; by rewrite members_push, Hperm).
  destruct (IH l s2 G2) as (s' & G' & Hrun & Hr' & Hwf' & Hf' & Ha' & Hp' & Hq' & Hlr' & Hall & Hoth);
    try done.
  { intros x. rewrite HG2. apply Hd. }
  { unfold G2. rewrite set_lq_lr. simpl. apply list_lookup_insert_eq. by eapply lookup_lt_Some. }
  { simpl in Hf. lia. }
  assert (Hlm : (t :: l) ⊆ members G).
  { intros x Hx. unfold members. rewrite !elem_of_app, !elem_of_concat. do 2 right.
    exists (t :: l). split; [done|]. by eapply list_elem_of_lookup_2. }
  assert (Htl : t ∉ l).
  { intros Hx. apply Hnd. unfold G1, members. simpl. rewrite !elem_of_app, !elem_of_concat.
    do 2 right. exists l. split; [done|]. eapply (list_elem_of_lookup_2 _ p).
    apply list_lookup_insert_eq. by eapply lookup_lt_Some. }
  exists s', G'. split_and!; try done.
  - apply (frame_trans _ _ s1); [by eapply frame_weaken, sim_frame|].
    apply (frame_trans _ _ s2); [eapply frame_weaken; [|done]; set_solver|].
    eapply frame_weaken; [|done]. by rewrite HG2.
  - by rewrite Hp'.
  - rewrite Hq'. unfold G2, G1. by destruct (active (sched s)).
  - rewrite Hlr'. unfold G2. rewrite set_lq_lr. simpl. by rewrite list_insert_insert_eq.
  - intros x [->|Hx]%elem_of_cons; [|by apply Hall].
    pose proof (Hoth t Htl) as Hc. rewrite Ht2 in Hc. simpl in Hc. rewrite Hc2 in Hc.
    assert (Hc' : core <$> threads s' !! t = core <$> (<[t := arrived th1]> (threads s1) !! t))
      by (by rewrite Hc, lookup_insert_eq).
    rewrite (ready_core _ _ _ Hc'), (rebalanced_core _ _ _ Hc').
    unfold ready, rebalanced. rewrite lookup_insert_eq. by destruct th1.
  - intros x Hx. rewrite Hoth by set_solver. rewrite (fr_out _ _ _ Hf2) by set_solver.
    apply (sim_core _ _ _ Hs1).
Qed.

(** *** The choice of the next thread *)

Definition pick (m : gmap nat Thread) (l : list nat) : option nat :=
  head (filter (fun t => rebalanced m t = false) l).

Lemma pick_sim X s s' l : sim X s s' -> pick (threads s') l = pick (threads s) l.
Proof.
  intros H. unfold pick. f_equal. apply list_filter_iff. intros t.
  by rewrite (rebalanced_core _ _ t (sim_core _ _ _ H t)).
Qed.

(** The current thread goes on when nothing else can run. *)
Definition stays (th : Thread) : bool :=
  match state th with Runnable | Idle => true | _ => false end.

Definition no_idle (s : lst) : lst :=
  let sc := sched s in
  set_sched (mkSched None (active sc) (active_queue sc) (passive_queue sc)) s.

Lemma runq_ready s G t l : runq s G = t :: l -> ready (threads s) t = true.
Proof.
  intros E. assert (Hin : t ∈ runq s G) by (rewrite E; set_solver).
  unfold runq, sel in Hin. by apply list_elem_of_filter in Hin as [? _].
Qed.

Lemma runq_rb s G L : runq s (set_lr L G) = runq s G.
Proof. unfold runq. by destruct (active (sched s)). Qed.

Lemma runq_sim X s s' G : sim X s s' -> active (sched s') = active (sched s) ->
  runq s' G = runq s G.
Proof. intros H Ha. unfold runq. rewrite Ha. by eapply sel_sim. Qed.

Lemma schedule_loop_spec fuel s G c tc ti :
  rep s G -> wf (threads s) -> current s = Some c -> threads s !! c = Some tc ->
  (stays tc = false -> idle (sched s) = Some ti) -> length (runq s G) < fuel ->
  exists s' G', rep s' G' /\ sim (members G) s s' /\
    match pick (threads s) (runq s G) with
    | Some t => schedule_loop fuel s = Done (Some t, s') /\ members G ≡ₚ t :: members G'
    | None => members G ≡ₚ members G' /\ schedule_loop fuel s =
        if stays tc then Done (None, s') else Done (Some ti, no_idle s')
    end.
Proof.
  revert s G tc. induction fuel as [|fuel IH]; intros s G tc H Hwf Hc Htc Hti Hf; [lia|].
  destruct (next_spec s G H Hwf) as (s1 & G1 & Hrun & (Hr1 & Hs1 & Hlr1 & Hp1) & Hq1).
  cbn [schedule_loop]. rewrite (bind_Done _ _ _ _ _ Hrun).
  destruct (runq s G) as [|t l] eqn:E; cbn [hd_error tl] in *.
  { exists s1, G1. split_and!; [done|done|]. unfold pick. simpl. split; [done|].
    unfold get_current_ref. rewrite bind_assoc, bind_gets, (sim_cur _ _ _ Hs1), Hc.
    unfold expect. rewrite bind_lift.
    destruct (sim_thread _ _ _ _ _ Hs1 Htc) as (tc1 & Htc1 & Hcc).
    rewrite (bind_Done _ _ _ _ _ (thread_Done _ _ _ Htc1)).
    destruct (core_fields _ _ Hcc) as (-> & _).
    unfold stays in *. destruct (state tc); try done; unfold get_idle_thread;
      rewrite bind_assoc, bind_gets, (sim_idle _ _ _ Hs1), (Hti eq_refl); done. }
  pose proof (runq_ready _ _ _ _ E) as Hready. simpl in Hp1.
  destruct (rep_in s G t H) as [th Ht]; [rewrite Hp1; set_solver|].
  destruct (sim_thread _ _ _ _ _ Hs1 Ht) as (th1 & Ht1 & Hc1).
  destruct (core_fields _ _ Hc1) as (Est & Epr & Eaf & Erb & _).
  rewrite (bind_Done _ _ _ _ _ (thread_Done _ _ _ Ht1)), Erb.
  assert (Hrb : rebalanced (threads s) t = rebalance th) by (unfold rebalanced; by rewrite Ht).
  unfold ready in Hready. rewrite Ht in Hready.
  destruct (rebalance th) eqn:Ereb.
  - assert (Hnd : t ∉ members G1).
    { pose proof (rep_nd _ _ H) as Hnd. rewrite Hp1 in Hnd. by apply NoDup_cons_1_1 in Hnd. }
    destruct (rebalance_thread_spec t th1 s1 G1 Hr1 Hnd Ht1) as (s2 & k & Hreb & Hk & Hr2 & Hs2 & Hsc).
    { rewrite Eaf. by apply (Hwf _ _ Ht). }
    rewrite (bind_Done _ _ _ _ _ Hreb). set (G2 := set_lr _ G1) in *.
    assert (HG2 : members G2 ≡ₚ members G) by (unfold G2; by rewrite members_rb_push, Hp1).
    assert (Hs12 : sim (members G) s s2).
    { eapply sim_trans; [done|]. eapply sim_weaken; [|done]. rewrite Hp1. set_solver. }
    assert (Hq2 : runq s2 G2 = l).
    { unfold G2. rewrite runq_rb, (runq_sim _ _ _ _ Hs2); [done|by rewrite Hsc]. }
    destruct (sim_thread _ _ _ _ _ Hs12 Htc) as (tc2 & Htc2 & Hcc).
    assert (Hst : stays tc2 = stays tc).
    { unfold stays. by destruct (core_fields _ _ Hcc) as (-> & _). }
    destruct (IH s2 G2 tc2 Hr2) as (s' & G' & Hr' & Hs' & Hres); try done.
    { by eapply wf_sim. } { by rewrite (sim_cur _ _ _ Hs12). }
    { rewrite Hst, (sim_idle _ _ _ Hs12). done. } { rewrite Hq2. simpl in Hf. lia. }
    exists s', G'. split; [done|]. split.
    { eapply sim_trans; [done|]. eapply sim_weaken; [|done]. by rewrite HG2. }
    rewrite Hq2, (pick_sim _ _ _ _ Hs12), Hst in Hres.
    unfold pick in *. rewrite filter_cons_False by (by rewrite Hrb).
    destruct (head _); rewrite HG2 in Hres; exact Hres.
  - exists s1, G1. split; [done|]. split; [done|].
    unfold pick. rewrite filter_cons_True by (by rewrite Hrb). simpl. split; [|done].
    rewrite Est. by destruct (state th).
Qed.

(** *** The invariant of a CPU and its preservation by [schedule]

    [ti] is the idle thread of the CPU. *)
Record sched_inv (ti : nat) (s : lst) (G : LS) : Prop := mkSI {
  si_rep : rep s G;
  si_wf : wf (threads s);
  si_dis : disjoint_idles (members G);
  si_ti : ti ∈ idles /\ is_Some (threads s !! ti);
  si_cur : exists c, current s = Some c /\ is_Some (threads s !! c) /\ (c ∉ members G) /\
    (c ∈ idles -> c = ti) /\
    (idle (sched s) = Some ti \/ c = ti /\ idle (sched s) = None) }.

(** The threads that belong to the CPU (or wait in a rebalance queue), but for
    its idle thread. *)
Definition running (ti : nat) (s : lst) : list nat :=
  match current s with
  | Some c => if decide (c = ti) then [] else [c]
  | None => []
  end.
Definition owned (ti : nat) (s : lst) (G : LS) : list nat := running ti s ++ members G.

Definition attrs (th : Thread) := (priority th, rebalance th, affinity th, state th, next th).

Lemma attrs_rep m s G :
  (forall t, attrs <$> m !! t = attrs <$> threads s !! t) -> rep s G -> rep (set_threads m s) G.
Proof.
  intros Ha. assert (Hn : forall t, next <$> m !! t = next <$> threads s !! t).
  { intros t. specialize (Ha t). destruct (m !! t), (threads s !! t); simpl in *; try done.
    unfold attrs in Ha. injection Ha as ? ? ? ? Hn. by rewrite Hn. }
  intros [Hq Hr ? ? ? ? ?]. split; try done.
  - intros w. specialize (Hq w). destruct w; (eapply chains_agree; [|exact Hq]); auto.
  - eapply chains_agree; [|exact Hr]. auto.
Qed.

Lemma attrs_wf m m' :
  (forall t, attrs <$> m' !! t = attrs <$> m !! t) -> wf m -> wf m'.
Proof.
  intros Ha Hwf t th Ht. specialize (Ha t). rewrite Ht in Ha.
  destruct (m !! t) as [th0|] eqn:E; [|done]. simpl in Ha. unfold attrs in Ha.
  destruct (Hwf _ _ E) as (H1 & H2 & H3). unfold wf_thread. injection Ha as -> -> -> -> _. done.
Qed.

Lemma attrs_insert (m : gmap nat Thread) t th f x :
  m !! t = Some th -> attrs (f th) = attrs th ->
  attrs <$> <[t := f th]> m !! x = attrs <$> m !! x.
Proof.
  intros H Hf. destruct (decide (x = t)) as [->|].
  - rewrite lookup_insert_eq, H. simpl. by rewrite Hf.
  - by rewrite lookup_insert_ne.
Qed.

Lemma attrs_ptr p th : attrs (with_continuation_ptr p th) = attrs th.
Proof. by destruct th. Qed.

(** The continuation stack of the thread that leaves is saved, and that of
    the thread that comes is restored, or started when it never ran. *)
Lemma switch_continuations_spec c t tc tt' s :
  threads s !! c = Some tc -> threads s !! t = Some tt' -> c <> t ->
  exists m, switch_continuations c t s =
      Done (tt, set_cont_state
        (mkCS (if decide (continuation_ptr tt' = Null) then Entry t 0 else continuation_ptr tt')
              (Entry t 0) (Entry t MAX_CONT)) (set_threads m s)) /\
    (forall x, attrs <$> m !! x = attrs <$> threads s !! x) /\
    (forall x, x <> c -> x <> t -> m !! x = threads s !! x) /\
    m !! c = Some (with_continuation_ptr (cur (cont_state s)) tc).
Proof.
  intros Hc Ht Hne. unfold switch_continuations. rewrite bind_gets.
  mstep (upd_thread_Done _ _ _ (with_continuation_ptr (cur (cont_state s))) Hc).
  set (m1 := <[c := _]> (threads s)). set (s1 := set_threads m1 s).
  assert (Ht1 : threads s1 !! t = Some tt') by (by apply lookup_insert_Some; right).
  assert (Ha1 : forall x, attrs <$> m1 !! x = attrs <$> threads s !! x).
  { intros x. apply (attrs_insert _ _ _ (with_continuation_ptr _)); [done|apply attrs_ptr]. }
  mstep (thread_Done _ _ _ Ht1). destruct (decide _) as [E|E].
  - mstep (upd_thread_Done _ _ _ (with_continuation_ptr (Entry t 0)) Ht1).
    exists (<[t := with_continuation_ptr (Entry t 0) tt']> m1). split_and!.
    + rewrite (bind_Done _ _ _ _ _ (thread_Done _ _ _ (lookup_insert_eq _ _ _))).
      by destruct tt'.
    + intros x. rewrite (attrs_insert m1 t tt' (with_continuation_ptr _)) by (done || apply attrs_ptr).
      done.
    + intros x ? ?. unfold m1. by rewrite !lookup_insert_ne.
    + unfold m1. by rewrite lookup_insert_ne, lookup_insert_eq.
  - rewrite bind_mret. mstep (thread_Done _ _ _ Ht1). exists m1. split_and!; try done.
    + intros x ? ?. unfold m1. by rewrite lookup_insert_ne.
    + apply lookup_insert_eq.
Qed.

Lemma rep_set_cur s G c : rep s G -> rep (set_cur c s) G.
Proof. by intros []. Qed.

Lemma rep_set_idle s G i :
  rep s G -> rep (set_sched (mkSched i (active (sched s)) (active_queue (sched s))
                               (passive_queue (sched s))) s) G.
Proof. intros []. split; try done; intros []; naive_solver. Qed.

(** Where the thread that leaves the CPU goes. *)
Lemma put_back_spec c tc s G :
  rep s G -> wf (threads s) -> threads s !! c = Some tc -> (c ∉ members G) ->
  exists s' G', match state tc with
                | Idle => set_idle_thread c
                | _ => put_thread_in_passive c
                end s = Done (tt, s') /\
    rep s' G' /\ wf (threads s') /\ current s' = current s /\ cont_state s' = cont_state s /\
    (forall x, x <> c -> threads s' !! x = threads s !! x) /\ is_Some (threads s' !! c) /\
    (if decide (state tc = Idle) then members G' = members G /\ idle (sched s') = Some c
     else members G' ≡ₚ c :: members G /\ idle (sched s') = idle (sched s)).
Proof.
  intros H Hwf Hc Hn. destruct (decide (state tc = Idle)) as [E|E].
  - rewrite E. eexists _, G. split; [done|]. split; [by apply rep_set_idle|]. naive_solver.
  - destruct (put_thread_in_passive_spec c tc s G _ H eq_refl Hn Hc) as
      (s' & l & Hput & Hl & Hr & Hs & Ha); [by apply (Hwf _ _ Hc)|].
    eexists s', _. split; [by destruct (state tc)|]. split; [done|].
    split; [by eapply wf_sim|]. destruct (sim_thread _ _ _ _ _ Hs Hc) as (tc' & Hc' & _).
    rewrite (sim_cur _ _ _ Hs), (sim_cont _ _ _ Hs), (sim_idle _ _ _ Hs).
    split_and!; try done; [|by rewrite members_push].
    intros x Hx. apply (sim_out _ _ _ Hs). set_solver.
Qed.

Lemma switch_to_spec t tht c tc s G :
  rep s G -> wf (threads s) -> current s = Some c -> threads s !! c = Some tc ->
  threads s !! t = Some tht -> c <> t -> (c ∉ members G) ->
  exists s' G', switch_to t s = Done (tt, s') /\
    rep s' G' /\ wf (threads s') /\ current s' = Some t /\
    (forall x, x <> c -> x <> t -> threads s' !! x = threads s !! x) /\
    is_Some (threads s' !! c) /\ is_Some (threads s' !! t) /\
    (if decide (state tc = Idle) then members G' = members G /\ idle (sched s') = Some c
     else members G' ≡ₚ c :: members G /\ idle (sched s') = idle (sched s)).
Proof.
  intros H Hwf Hcur Hc Ht Hne Hn. unfold switch_to, get_current.
  rewrite bind_assoc, bind_gets, bind_assoc, bind_modify, bind_mret, Hcur.
  unfold set_current. rewrite bind_modify.
  set (s1 := set_cur (Some t) _). assert (Hr1 : rep s1 G) by (by do 2 apply rep_set_cur).
  destruct (put_back_spec c tc s1 G Hr1 Hwf Hc Hn) as
    (s2 & G2 & Hput & Hr2 & Hwf2 & Hcur2 & Hcont2 & Hout2 & [tc2 Hc2] & Hend).
  mstep (thread_Done s1 c tc Hc). mstep Hput.
  assert (Ht2 : threads s2 !! t = Some tht) by (by rewrite Hout2).
  destruct (switch_continuations_spec c t tc2 tht s2 Hc2 Ht2 Hne) as (m & Hsw & Ha & Ho & Hmc).
  eexists _, G2. split; [exact Hsw|]. split_and!.
  - apply (attrs_rep _ _ _ Ha) in Hr2. by destruct Hr2.
  - simpl. by eapply attrs_wf.
  - simpl. by rewrite Hcur2.
  - intros x ? ?. simpl. by rewrite Ho, Hout2.
  - by exists (with_continuation_ptr (cur (cont_state s2)) tc2).
  - simpl. specialize (Ha t). rewrite Ht2 in Ha. by destruct (m !! t).
  - done.
Qed.

(** The thread that runs next. *)
Definition chosen (ti c : nat) (tc : Thread) (s : lst) (G : LS) : nat :=
  match pick (threads s) (runq s G) with
  | Some t => t
  | None => if stays tc then c else ti
  end.

Definition touched (ti : nat) (s : lst) (G : LS) : list nat := ti :: owned ti s G.

Lemma runq_length s G : length (runq s G) <= length (members G).
Proof.
  unfold runq, sel. etrans; [apply length_filter|].
  rewrite length_app, !order_Permutation, (members_lq (active (sched s)) G).
  unfold others. rewrite !length_app. lia.
Qed.

Lemma pick_in s G t :
  pick (threads s) (runq s G) = Some t -> t ∈ members G /\ ready (threads s) t = true /\
    rebalanced (threads s) t = false.
Proof.
  unfold pick. intros Hh.
  assert (Hin : t ∈ filter (fun t => rebalanced (threads s) t = false) (runq s G))
    by (destruct (filter _ _); simplify_eq/=; set_solver).
  apply list_elem_of_filter in Hin as [Hrb Hin]. unfold runq, sel in Hin.
  apply list_elem_of_filter in Hin as [Hrd Hin]. split_and!; [|done..].
  apply elem_of_app in Hin as [Hin|Hin]; by eapply order_in_members.
Qed.

Lemma running_some ti s c : current s = Some c ->
  running ti s = if decide (c = ti) then [] else [c].
Proof. unfold running. by intros ->. Qed.

(** The invariant after a switch, from the parts. *)
Lemma sched_inv_switch ti t c tc s s1 s' G G1 G' :
  sched_inv ti s G -> current s = Some c -> threads s !! c = Some tc ->
  rep s' G' -> wf (threads s') -> current s' = Some t ->
  is_Some (threads s' !! t) -> is_Some (threads s' !! ti) -> c <> t ->
  (t ∈ idles -> t = ti /\ state tc <> Idle /\ idle (sched s1) = None /\ members G ≡ₚ members G1) ->
  (t ∉ idles -> idle (sched s1) = idle (sched s) /\ members G ≡ₚ t :: members G1) ->
  (if decide (state tc = Idle) then members G' = members G1 /\ idle (sched s') = Some c
   else members G' ≡ₚ c :: members G1 /\ idle (sched s') = idle (sched s1)) ->
  sched_inv ti s' G' /\ owned ti s' G' ≡ₚ owned ti s G.
Proof.
  intros [Hr Hwf Hd [Hti _] (c' & Hc' & _ & Hcm & Hci & Hid)] Hcur Hc Hr' Hwf' Hcur' Hst' Hti' Hne Hin Hout Hend.
  assert (c' = c) as -> by congruence. clear Hc'.
  destruct (Hwf _ _ Hc) as (_ & _ & Hidle).
  pose proof (rep_nd _ _ Hr') as Hnd'. pose proof (rep_nd _ _ Hr) as Hnd.
  unfold owned. rewrite (running_some _ _ _ Hcur), (running_some _ _ _ Hcur').
  destruct (decide (t ∈ idles)) as [Ht|Ht].
  - destruct (Hin Ht) as (-> & Hni & Hid1 & Hp). rewrite decide_False in Hend by done.
    destruct Hend as [Hp' Hid']. rewrite decide_True, decide_False by congruence. split.
    + split; try done; [by intros x; rewrite Hp', <- Hp, elem_of_cons; intros [->|?]; [tauto|auto]|].
      exists ti. split_and!; try done; [|by right; rewrite Hid', Hid1].
      rewrite Hp', <- Hp. intros [|]%elem_of_cons; [done|]. by eapply Hd.
    + by rewrite Hp', <- Hp.
  - destruct (Hout Ht) as [Hid1 Hp]. rewrite (decide_False (P := t = ti)) by congruence.
    rewrite Hp, list.NoDup_cons in Hnd. destruct Hnd as [Htn Hnd].
    destruct (decide (state tc = Idle)) as [E|E].
    + destruct Hend as [Hm Hid']. assert (c = ti) as -> by tauto. rewrite decide_True by done.
      split; [|by rewrite Hm, Hp]. split; try done.
      * intros x Hx. apply Hd. rewrite Hp. rewrite Hm in Hx. set_solver.
      * exists t. rewrite Hm. split_and!; try done. by left.
    + destruct Hend as [Hm Hid']. assert (Hcti : c <> ti) by (intros ->; tauto).
      rewrite decide_False by done. split; [|by rewrite Hm, Hp; solve_Permutation].
      split; try done.
      * intros x. rewrite Hm. intros [->|Hx]%elem_of_cons; [tauto|]. apply Hd. rewrite Hp. set_solver.
      * exists t. split_and!; try done; [rewrite Hm; set_solver|]. left. rewrite Hid', Hid1. tauto.
Qed.

Lemma choose_and_switch_spec ti c tc s G :
  sched_inv ti s G -> current s = Some c -> threads s !! c = Some tc ->
  exists s' G', choose_and_switch s = Done (tt, s') /\ sched_inv ti s' G' /\
    owned ti s' G' ≡ₚ owned ti s G /\ current s' = Some (chosen ti c tc s G) /\
    (forall x, x ∉ touched ti s G -> threads s' !! x = threads s !! x).
Proof.
  intros HI Hcur Hc. pose proof HI as [Hr Hwf Hd [Hti [tti Htti]] (c' & Hc' & _ & Hcm & Hci & Hid)].
  assert (c' = c) as -> by congruence. clear Hc'. destruct (Hwf _ _ Hc) as (_ & _ & Hidle).
  assert (Hst : stays tc = false -> idle (sched s) = Some ti /\ c <> ti /\ state tc <> Idle).
  { unfold stays. intros E. assert (state tc <> Idle) by (by destruct (state tc)).
    assert (c <> ti) by (intros ->; tauto). tauto. }
  destruct (schedule_loop_spec (fuel_of s) s G c tc ti Hr Hwf Hcur Hc) as (s1 & G1 & Hr1 & Hs1 & Hres).
  { tauto. } { unfold fuel_of. pose proof (runq_length s G). pose proof (members_length s G Hr). lia. }
  destruct (sim_thread _ _ _ _ _ Hs1 Hc) as (tc1 & Hc1 & Hcc1).
  destruct (sim_thread _ _ _ _ _ Hs1 Htti) as (tti1 & Htti1 & _).
  destruct (core_fields _ _ Hcc1) as (Est & _).
  pose proof (wf_sim _ _ _ Hs1 Hwf) as Hwf1.
  assert (Hto : forall x, x ∉ touched ti s G -> x <> ti /\ x <> c /\ x ∉ members G).
  { unfold touched, owned. rewrite (running_some _ _ _ Hcur). clear. intros x.
    rewrite not_elem_of_cons, not_elem_of_app. destruct (decide (c = ti)) as [->|]; [tauto|].
    rewrite not_elem_of_cons. tauto. }
  unfold choose_and_switch, chosen. rewrite bind_get.
  destruct (pick (threads s) (runq s G)) as [t|] eqn:Ep.
  - destruct Hres as [Hrun Hp]. mstep Hrun. destruct (pick_in _ _ _ Ep) as (Htm & _ & _).
    destruct (rep_in s G t Hr Htm) as [th Ht]. destruct (sim_thread _ _ _ _ _ Hs1 Ht) as (th1 & Ht1 & _).
    assert (Hct : c <> t) by (intros ->; done).
    destruct (switch_to_spec t th1 c tc1 s1 G1 Hr1 Hwf1) as (s' & G' & Hsw & Hr' & Hwf' & Hcur' & Ho & Hc' & Ht' & Hend);
      try done; [by rewrite (sim_cur _ _ _ Hs1)|by rewrite Hp, not_elem_of_cons in Hcm; destruct Hcm|].
    rewrite Est in Hend.
    assert (Hti' : is_Some (threads s' !! ti)).
    { destruct (decide (ti = c)) as [->|]; [done|]. rewrite Ho; [by exists tti1|done|].
      intros ->. by apply (Hd t). }
    destruct (sched_inv_switch ti t c tc s s1 s' G G1 G') as [HI' How]; try done.
    { intros Hti2. by destruct (Hd t). } { intros _. by rewrite (sim_idle _ _ _ Hs1). }
    exists s', G'. split_and!; try done. intros x Hx. destruct (Hto x Hx) as (? & ? & ?).
    rewrite Ho; [by apply (sim_out _ _ _ Hs1)|done|set_solver].
  - destruct Hres as [Hp Hrun]. destruct (stays tc) eqn:Es.
    + mstep Hrun. exists s1, G1. split; [done|]. rewrite (sim_cur _ _ _ Hs1). unfold owned, running.
      rewrite (sim_cur _ _ _ Hs1), <- Hp. split_and!; try done.
      * split; try done; [intros x; rewrite <- Hp; apply Hd|].
        exists c. rewrite (sim_cur _ _ _ Hs1), (sim_idle _ _ _ Hs1), <- Hp. done.
      * intros x Hx. apply (sim_out _ _ _ Hs1). by apply (Hto x Hx).
    + mstep Hrun. destruct (Hst eq_refl) as (Hid1 & Hcti & Hni).
      destruct (switch_to_spec ti tti1 c tc1 (no_idle s1) G1) as
        (s' & G' & Hsw & Hr' & Hwf' & Hcur' & Ho & Hc' & Ht' & Hend); try done;
        [by apply rep_set_idle|simpl; by rewrite (sim_cur _ _ _ Hs1)|by rewrite <- Hp|].
      rewrite Est in Hend.
      destruct (sched_inv_switch ti ti c tc s (no_idle s1) s' G G1 G') as [HI' How]; try done.
      exists s', G'. split_and!; try done. intros x Hx. destruct (Hto x Hx) as (? & ? & ?).
      rewrite Ho; [by apply (sim_out _ _ _ Hs1)|done..].
Qed.

Lemma process_rb_queue_spec ti p s G :
  sched_inv ti s G -> p < MAX_CPUS ->
  exists s' G', process_rb_queue p s = Done (tt, s') /\ sched_inv ti s' G' /\
    members G' ≡ₚ members G /\ current s' = current s /\ lr G' = <[p := []]> (lr G) /\
    (forall l t, lr G !! p = Some l -> t ∈ l ->
       ready (threads s') t = true /\ rebalanced (threads s') t = false) /\
    (forall x, x ∉ members G -> threads s' !! x = threads s !! x).
Proof.
  intros [Hr Hwf Hd [Hti Htti] (c & Hc & Htc & Hcm & Hci & Hid)] Hp.
  destruct (lookup_lt_is_Some_2 (lr G) p) as [l Hl]; [by rewrite (rep_rl _ _ Hr)|].
  destruct (process_rb_loop_spec (fuel_of s) p l s G _ Hr Hwf Hd eq_refl Hp Hl) as
    (s1 & G1 & Hrun & Hr1 & Hwf1 & [Ho Hcur Hidl _] & Ha & Hperm & _ & Hlr & Hall & _).
  { pose proof (members_length s G Hr) as Hm. unfold fuel_of.
    unfold members in Hm. rewrite !length_app in Hm.
    pose proof (Permutation_length (concat_insert_Permutation (lr G) p l [] Hl)) as E.
    rewrite length_app in E. simpl in E. lia. }
  destruct (signal_spec p false s1 G1 Hr1 Hp) as [Hsig Hr2].
  eexists _, G1. split; [unfold process_rb_queue; rewrite bind_get; mstep Hrun; exact Hsig|].
  split_and!; simpl; try done; [|intros l' t Hl'; simplify_eq; apply Hall].
  assert (Hx : forall x, x ∉ members G -> is_Some (threads s !! x) -> is_Some (threads s1 !! x))
    by (intros x Hx Hs; by rewrite Ho).
  split; simpl; try done.
  - intros x. rewrite Hperm. apply Hd.
  - split; [done|]. apply Hx; [|done]. intros Hin. by apply (Hd ti).
  - exists c. rewrite Hcur, Hidl, Hperm. split_and!; auto.
Qed.

(** *** System calls keep the invariant *)

Lemma sched_inv_threads ti s G m :
  sched_inv ti s G -> (forall x, next <$> m !! x = next <$> threads s !! x) -> wf m ->
  sched_inv ti (set_threads m s) G.
Proof.
  intros [[Hq Hr ? ? ? ? ?] Hwf Hd [Hti Htti] (c & Hc & Htc & Hcm & Hci & Hid)] Hag Hw.
  assert (Hs : forall x, is_Some (threads s !! x) -> is_Some (m !! x)).
  { intros x Hx. specialize (Hag x). by destruct (m !! x), (threads s !! x), Hx. }
  split; simpl; try done.
  - split; try done; [intros w; specialize (Hq w); destruct w|];
      (eapply chains_agree; [|eassumption]; auto).
  - auto.
  - exists c. split_and!; auto.
Qed.

Lemma sched_inv_upd ti s G t th f :
  sched_inv ti s G -> threads s !! t = Some th -> next (f th) = next th -> wf_thread t (f th) ->
  sched_inv ti (set_threads (<[t := f th]> (threads s)) s) G.
Proof.
  intros HI Ht Hn Hw. apply sched_inv_threads; [done| |by apply wf_insert; [apply HI|]].
  intros x. destruct (decide (x = t)) as [->|]; [|by rewrite lookup_insert_ne].
  rewrite lookup_insert_eq, Ht. simpl. by rewrite Hn.
Qed.

(** The system calls on a handle change attributes of the thread, never its
    links, and keep it well-formed. *)
Definition attr_update (t : nat) (th : Thread) (m : M lst unit) (s : lst) : Prop :=
  exists f, m s = Done (tt, set_threads (<[t := f th]> (threads s)) s) /\
    next (f th) = next th /\ wf_thread t (f th).

Lemma attr_update_ret t th s :
  threads s !! t = Some th -> wf_thread t th -> attr_update t th (mret tt) s.
Proof. intros Ht Hw. exists (fun th => th). simpl. rewrite insert_id by done. by destruct s. Qed.

Lemma attr_update_upd t th s f :
  threads s !! t = Some th -> next (f th) = next th -> wf_thread t (f th) ->
  attr_update t th (upd_thread t f) s.
Proof. intros Ht Hn Hw. exists f. by rewrite (upd_thread_Done _ _ _ _ Ht). Qed.

Lemma set_affinity_spec s n t th aff :
  threads s !! t = Some th -> wf_thread t th -> (t ∉ idles) ->
  (0 <= n <= Z.of_nat MAX_CPUS)%Z -> (0 <= aff < 2 ^ 32)%Z ->
  attr_update t th (set_affinity n t aff) s.
Proof.
  intros Ht Hw Hi Hn Ha. unfold set_affinity, wrap. rewrite Z.mod_small by lia.
  destruct (Z.leb_spec n aff); [by apply attr_update_ret|].
  apply attr_update_upd; [done|by destruct th|]. destruct Hw as (Hp & _ & _).
  destruct th. split_and!; simpl in *; [done|lia|done].
Qed.

Lemma set_priority_spec s t th prio :
  threads s !! t = Some th -> wf_thread t th -> (0 <= prio)%Z ->
  attr_update t th (set_priority t prio) s.
Proof.
  intros Ht Hw Hp. unfold set_priority.
  destruct (Z.ltb_spec (Z.of_nat MAX_PRIO) prio); [by apply attr_update_ret|].
  apply attr_update_upd; [done|by destruct th|]. destruct Hw as (_ & Ha & Hs).
  destruct th. split_and!; simpl in *; [lia|done|done].
Qed.

Lemma wf_thread_state t th st :
  wf_thread t th -> (t ∉ idles) -> st <> Idle -> wf_thread t (with_state st th).
Proof. intros (Hp & Ha & Hs) Hi Hst. destruct th. split_and!; simpl in *; done. Qed.

Lemma set_state_spec s t th st :
  threads s !! t = Some th -> wf_thread t th -> (t ∉ idles) ->
  attr_update t th (set_state t st) s.
Proof.
  intros Ht Hw Hi. destruct st; [|by apply attr_update_ret|];
    (apply attr_update_upd; [done|by destruct th|by apply wf_thread_state]).
Qed.

Lemma create_thread_spec ti s G t tid nm st f d :
  sched_inv ti s G -> threads s !! t = None -> (t ∉ idles) ->
  exists s' G', create_thread t tid nm st f d s = Done (tt, s') /\ sched_inv ti s' G' /\
    members G' ≡ₚ t :: members G /\ current s' = current s /\ lr G' = lr G /\
    (forall x, x <> t -> threads s' !! x = threads s !! x).
Proof.
  intros [Hr Hwf Hd [Hti Htti] (c & Hc & Htc & Hcm & Hci & Hid)] Ht Hi.
  assert (Hn : t ∉ members G) by (intros Hin; destruct (rep_in s G t Hr Hin); congruence).
  set (th := Thread_new tid nm st f d). set (s1 := set_threads (<[t := th]> (threads s)) s).
  destruct (put_thread_in_passive_spec t th s1 G _ (rep_set_thread _ th _ _ Hr Hn) eq_refl Hn) as
    (s' & l & Hput & Hl & Hr' & Hs & Ha); [apply lookup_insert_eq|simpl; lia|].
  assert (Hwf1 : wf (threads s1)) by (by apply wf_insert; [|split_and!; simpl; lia || done]).
  assert (Ho : forall x, x <> t -> threads s' !! x = threads s !! x).
  { intros x Hx. rewrite (sim_out _ _ _ Hs) by set_solver. by apply lookup_insert_ne. }
  assert (Hne : forall x, is_Some (threads s !! x) -> x <> t) by (intros x Hx ->; rewrite Ht in Hx; by destruct Hx).
  eexists s', _. split; [exact Hput|]. rewrite members_push, set_lq_lr, (sim_cur _ _ _ Hs) by done.
  split_and!; try done. split; try done.
  - by eapply wf_sim.
  - intros x. rewrite members_push by done. intros [->|Hx]%elem_of_cons; auto.
  - split; [done|]. rewrite Ho; auto.
  - exists c. rewrite (sim_cur _ _ _ Hs), (sim_idle _ _ _ Hs), members_push by done.
    split_and!; try done; [rewrite Ho; auto|]. apply not_elem_of_cons. auto.
Qed.

Lemma schedule_spec ti cpu s G :
  sched_inv ti s G -> cpu < MAX_CPUS ->
  exists s' G', schedule cpu s = Done (tt, s') /\ sched_inv ti s' G' /\
    owned ti s' G' ≡ₚ owned ti s G /\
    (forall x, x ∉ touched ti s G -> threads s' !! x = threads s !! x).
Proof.
  intros HI Hp. unfold schedule, rb_check_signal.
  destruct (lookup_lt_is_Some_2 (rb_flags s) cpu) as [b Hb]; [by rewrite (rep_fl _ _ (si_rep _ _ _ HI))|].
  rewrite bind_assoc, bind_gets, (index_Some _ _ _ Hb), bind_lift. destruct b.
  - destruct (process_rb_queue_spec ti cpu s G HI Hp) as (s1 & G1 & Hrb & HI1 & Hp1 & Hc1 & _ & _ & Ho1).
    mstep Hrb. destruct (si_cur _ _ _ HI1) as (c & Hc & [tc Htc] & _).
    destruct (choose_and_switch_spec ti c tc s1 G1 HI1 Hc Htc) as (s' & G' & Hrun & HI' & How & _ & Ho).
    assert (E : owned ti s1 G1 ≡ₚ owned ti s G) by (unfold owned, running; by rewrite Hc1, Hp1).
    exists s', G'. split_and!; try done; [by rewrite How|]. unfold touched in *.
    intros x Hx. rewrite Ho by (by rewrite E). apply Ho1. unfold owned in Hx. set_solver.
  - rewrite bind_mret. destruct (si_cur _ _ _ HI) as (c & Hc & [tc Htc] & _).
    destruct (choose_and_switch_spec ti c tc s G HI Hc Htc) as (s' & G' & Hrun & HI' & How & _ & Ho).
    exists s', G'. done.
Qed.

(** A thread that cannot run is not current after [schedule]. *)
Lemma schedule_leaves ti cpu s G c tc s' :
  sched_inv ti s G -> cpu < MAX_CPUS -> current s = Some c -> threads s !! c = Some tc ->
  stays tc = false -> schedule cpu s = Done (tt, s') -> current s' <> Some c.
Proof.
  intros HI Hp Hc Htc Hst. unfold schedule, rb_check_signal.
  assert (Hne : forall s1 G1, sched_inv ti s1 G1 -> current s1 = Some c -> threads s1 !! c = Some tc ->
    choose_and_switch s1 = Done (tt, s') -> current s' <> Some c).
  { intros s1 G1 HI1 Hc1 Htc1 H1.
    destruct (choose_and_switch_spec ti c tc s1 G1 HI1 Hc1 Htc1) as (s2 & G2 & Hrun & _ & _ & Hcur & _).
    rewrite Hrun in H1. simplify_eq. rewrite Hcur. unfold chosen. rewrite Hst.
    destruct HI1 as [_ Hwf _ [Hti _] (c' & Hc' & _ & Hcm & _)].
    assert (c' = c) as -> by congruence. destruct (pick _ _) as [t|] eqn:E.
    - apply pick_in in E as (Hin & _). intros [= ->]. done.
    - intros [= ->]. destruct (Hwf _ _ Htc1) as (_ & _ & Hi). unfold stays in Hst.
      by rewrite (proj2 Hi Hti) in Hst. }
  destruct (lookup_lt_is_Some_2 (rb_flags s) cpu) as [b Hb]; [by rewrite (rep_fl _ _ (si_rep _ _ _ HI))|].
  rewrite bind_assoc, bind_gets, (index_Some _ _ _ Hb), bind_lift. destruct b.
  - destruct (process_rb_queue_spec ti cpu s G HI Hp) as (s1 & G1 & Hrb & HI1 & _ & Hc1 & _ & _ & Ho1).
    mstep Hrb. apply (Hne s1 G1); try done; [by rewrite Hc1|]. rewrite Ho1; [done|].
    destruct (si_cur _ _ _ HI) as (c' & Hc' & _ & Hcm & _). congruence.
  - rewrite bind_mret. by apply (Hne s G).
Qed.

(** *** Priorities *)

Lemma sel_head_top m L t :
  head (sel m (order L)) = Some t ->
  exists i l, L !! i = Some l /\ t ∈ l /\ ready m t = true /\
    forall j k u, L !! j = Some k -> u ∈ k -> ready m u = true -> j <= i.
Proof.
  induction L as [|x L IH] using rev_ind; [done|].
  rewrite order_app, order_single, sel_app.
  destruct (sel m x) as [|y r] eqn:E; simpl.
  - intros H. destruct (IH H) as (i & l & Hl & Ht & Hr & Hmax). exists i, l.
    split_and!; try done; [by apply lookup_app_l_Some|].
    intros j k u Hj Hu Hru. apply lookup_app_Some in Hj as [Hj|[Hj1 Hj2]]; [by eapply Hmax|].
    apply list_lookup_singleton_Some in Hj2 as [_ <-].
    assert (Hin : u ∈ sel m x) by (by apply list_elem_of_filter). rewrite E in Hin. set_solver.
  - intros [= ->]. assert (Hin : t ∈ sel m x) by (rewrite E; set_solver).
    apply list_elem_of_filter in Hin as [Hr Hin]. exists (length L), x.
    split_and!; try done; [by rewrite lookup_app_r, Nat.sub_diag|].
    intros j k u Hj _ _. apply lookup_lt_Some in Hj. rewrite length_app in Hj. simpl in Hj. lia.
Qed.

(** ** Properties *)

(** [schedule] never panics and always returns; it keeps the invariant of
    the CPU, and no thread is lost or duplicated: the current thread and the
    contents of all queues are a permutation of what they were before (up to the
    idle thread), and threads outside of them are not touched. *)
Theorem schedule_preserves ti cpu s G :
  sched_inv ti s G -> cpu < MAX_CPUS ->
  exists s' G', schedule cpu s = Done (tt, s') /\ sched_inv ti s' G' /\
    owned ti s' G' ≡ₚ owned ti s G /\
    (forall x, x ∉ ti :: owned ti s G -> threads s' !! x = threads s !! x).
Proof. apply schedule_spec. Qed.

(** C8: With no rebalance request pending, [schedule] switches to the first
    ready thread that is not being moved to another CPU, in the order of the
    active queues (highest priority first) followed by the passive queues; when there is none
    it keeps the current thread if that can run and otherwise switches to the
    idle thread. *)
Theorem schedule_chooses ti cpu c tc s G :
  sched_inv ti s G -> rb_flags s !! cpu = Some false -> current s = Some c ->
  threads s !! c = Some tc ->
  exists s', schedule cpu s = Done (tt, s') /\ current s' = Some
    match head (filter (fun t => rebalanced (threads s) t = false) (runq s G)) with
    | Some t => t
    | None => if stays tc then c else ti
    end.
Proof.
  intros HI Hb Hc Htc. unfold schedule, rb_check_signal.
  rewrite bind_assoc, bind_gets, (index_Some _ _ _ Hb), bind_lift, bind_mret.
  destruct (choose_and_switch_spec ti c tc s G HI Hc Htc) as (s' & G' & Hrun & _ & _ & Hcur & _).
  by exists s'.
Qed.

(** [next] returns a thread that is ready to run whenever there is one; it
    takes it from the active queues when these hold a ready thread, and then
    no ready thread of the active queues has a higher priority queue. *)
Theorem next_highest_priority s G :
  rep s G -> wf (threads s) ->
  let w := active (sched s) in
  exists r s', next_thread s = Done (r, s') /\
    (r = None <-> forall u, u ∈ concat (la G) ++ concat (lp G) -> ready (threads s) u = false) /\
    ((exists u, u ∈ concat (lq w G) /\ ready (threads s) u = true) ->
     exists t i l, r = Some t /\ lq w G !! i = Some l /\ t ∈ l /\ ready (threads s) t = true /\
       forall j k u, lq w G !! j = Some k -> u ∈ k -> ready (threads s) u = true -> j <= i).
Proof.
  intros H Hwf w. destruct (next_spec s G H Hwf) as (s' & G' & Hrun & _ & _).
  exists (head (runq s G)), s'. split; [done|].
  assert (Hiff : forall u, u ∈ runq s G <-> ready (threads s) u = true /\ u ∈ concat (la G) ++ concat (lp G)).
  { intros u. unfold runq, sel. rewrite list_elem_of_filter, !elem_of_app, !order_Permutation.
    destruct (active (sched s)); simpl; tauto. }
  split.
  - destruct (runq s G) as [|t l] eqn:E; simpl; split; intros Hr; try done.
    + intros u Hu. destruct (ready (threads s) u) eqn:Hru; [|done]. specialize (Hiff u). set_solver.
    + destruct (proj1 (Hiff t)) as [Hrt Hin]; [set_solver|]. by rewrite Hr in Hrt.
  - intros (u & Hu & Hru). unfold runq. fold w. rewrite sel_app.
    assert (Hus : u ∈ sel (threads s) (order (lq w G))).
    { apply list_elem_of_filter. by rewrite order_Permutation. }
    destruct (sel (threads s) (order (lq w G))) as [|t r] eqn:E; [set_solver|].
    destruct (sel_head_top (threads s) (lq w G) t) as (i & l & Hl & Ht & Hrt & Hmax); [by rewrite E|].
    by exists t, i, l.
Qed.

(** [process_rb_queue] moves every thread of the CPU's rebalance queue to
    the CPU: the queue and its flag are cleared, each of the threads is in a
    priority queue, runnable and no longer marked, and nothing is lost. *)
Theorem process_rb_queue_arrives ti p s G l :
  sched_inv ti s G -> p < MAX_CPUS -> lr G !! p = Some l ->
  exists s' G', process_rb_queue p s = Done (tt, s') /\ sched_inv ti s' G' /\
    lr G' !! p = Some [] /\ members G' ≡ₚ members G /\
    (forall t, t ∈ l -> t ∈ concat (la G') ++ concat (lp G') /\ ready (threads s') t = true /\
       rebalanced (threads s') t = false).
Proof.
  intros HI Hp Hl.
  destruct (process_rb_queue_spec ti p s G HI Hp) as (s' & G' & Hrun & HI' & Hm & _ & Hlr & Hall & _).
  assert (Hlt : p < length (lr G)) by (by eapply lookup_lt_Some).
  exists s', G'. split_and!; try done; [rewrite Hlr; by apply list_lookup_insert_eq|].
  intros t Ht. split; [|by eapply Hall].
  assert (Hin : t ∈ members G').
  { rewrite Hm. unfold members. rewrite !elem_of_app, !elem_of_concat. do 2 right.
    exists l. split; [done|]. by eapply list_elem_of_lookup_2. }
  unfold members in Hin. rewrite app_assoc, elem_of_app in Hin. destruct Hin as [|Hin]; [done|].
  pose proof (rep_nd _ _ (si_rep _ _ _ HI)) as Hnd. unfold members in Hnd.
  rewrite app_assoc, list.NoDup_app in Hnd. destruct Hnd as (_ & _ & Hnd).
  assert (Hnl : NoDup (concat (<[p := []]> (lr G)) ++ l))
    by (by rewrite (concat_insert_Permutation _ _ _ _ Hl)).
  rewrite Hlr in Hin. apply list.NoDup_app in Hnl as (_ & Hno & _). by destruct (Hno t Hin).
Qed.
End Invariant.

(** ** Boot, and the behaviours that need no invariant *)

(** The statics before [init_threads]. *)
Definition lst0 : lst :=
  mkL ∅ Scheduler_new None (replicate MAX_CPUS None) (replicate MAX_CPUS false) (mkCS Null Null Null).
Definition LS0 : LS :=
  mkLS (replicate (MAX_PRIO + 1) []) (replicate (MAX_PRIO + 1) []) (replicate MAX_CPUS []).

Lemma concat_nils n : concat (replicate n (@nil nat)) = [].
Proof. by induction n. Qed.

Lemma chains_nils (m : gmap nat Thread) n :
  Forall2 (chain next m) (replicate n None) (replicate n []).
Proof. apply Forall2_replicate. done. Qed.

Lemma init_threads_spec ti tid kd st f d :
  exists s', init_threads ti tid kd st f d lst0 = Done (tt, s') /\ sched_inv [ti] ti s' LS0 /\
    current s' = Some ti.
Proof.
  unfold init_threads, alloc_thread. rewrite bind_modify.
  set (s1 := set_threads _ lst0).
  rewrite (bind_Done _ _ _ _ _ (upd_thread_Done s1 ti _ _ (lookup_insert_eq _ _ _))).
  eexists. split; [reflexivity|]. split; [|done].
  assert (Hm : members LS0 = []).
  { unfold members, LS0. cbn [la lp lr]. by rewrite !concat_nils. }
  split.
  - split; try done; try (intros []; done).
    + intros []; apply chains_nils.
    + apply chains_nils.
    + intros w. split; [destruct w; simpl; lia|]. intros i l Hl _.
      unfold lq, LS0 in Hl. cbn [la lp] in Hl. destruct w; by apply lookup_replicate in Hl as [-> _].
    + rewrite Hm. constructor.
  - intros x th Hx. unfold s1 in Hx. cbn in Hx. rewrite insert_insert_eq in Hx.
    destruct (decide (x = ti)) as [->|].
    + rewrite lookup_insert_eq in Hx. simplify_eq/=. split_and!; simpl; [lia|done|]. set_solver.
    + rewrite lookup_insert_ne in Hx by done. set_solver.
  - intros t. rewrite Hm. set_solver.
  - split; [set_solver|]. cbn. by rewrite lookup_insert_eq.
  - exists ti. rewrite Hm. cbn. rewrite lookup_insert_eq. split_and!; try done; set_solver.
Qed.

(** [init_threads] on the first CPU establishes the scheduler invariant,
    with all queues empty and the idle thread running. *)
Theorem init_threads_establishes ti tid kd st f d :
  exists s', init_threads ti tid kd st f d lst0 = Done (tt, s') /\ sched_inv [ti] ti s' LS0 /\
    current s' = Some ti.
Proof. apply init_threads_spec. Qed.

(** [set_affinity] checks the CPU number after truncating it to 32 bits but
    stores all 64: the number 2^32 is accepted on every machine, and the
    scheduler panics when it moves the thread. *)
Theorem set_affinity_truncates n t th s :
  (0 < n)%Z -> threads s !! t = Some th -> length (rb_queues s) = MAX_CPUS ->
  exists s', set_affinity n t (2 ^ 32)%Z s = Done (tt, s') /\ rebalance_thread t s' = Panic.
Proof.
  intros Hn Ht Hl. unfold set_affinity. change (wrap 32 (2 ^ 32)) with 0%Z.
  destruct (Z.leb_spec n 0); [lia|].
  eexists. split; [by apply upd_thread_Done|]. unfold rebalance_thread.
  rewrite (bind_Done _ _ _ _ _ (thread_Done _ t _ (lookup_insert_eq _ _ _))).
  replace (affinity _) with (2 ^ 32)%Z by (by destruct th).
  unfold rb_push_thread. rewrite bind_assoc, bind_gets. unfold index. simpl rb_queues.
  rewrite lookup_ge_None_2; [done|]. rewrite Hl. unfold MAX_CPUS. lia.
Qed.

(** A continuation registered with [push_continuation] is not what
    [pop_continuation] returns: the push fills in a copy, and the pop reads the
    entry above the top, so the result is the old content of entry [i + 1]
    whatever was pushed at entry [i]. *)
Theorem push_pop_continuation_lost cont_addr cont t th i c s :
  threads s !! t = Some th -> cont_state s = mkCS (Entry t i) (Entry t 0) (Entry t MAX_CONT) ->
  length (continuations th) = MAX_CONT -> continuations th !! (i + 1) = Some c ->
  exists s', (_ ← push_continuation cont_addr cont; pop_continuation cont_addr) s = Done (c, s').
Proof.
  intros Ht Hcs Hlen Hc. pose proof (lookup_lt_Some _ _ _ Hc) as Hi.
  destruct (lookup_lt_is_Some_2 (continuations th) i) as [e He]; [lia|].
  unfold push_continuation. rewrite bind_assoc, bind_gets, Hcs. simpl ptr_addr.
  destruct (Z.leb_spec (cont_addr t + 144 * Z.of_nat MAX_CONT) (cont_addr t + 144 * Z.of_nat i)); [lia|].
  rewrite bind_assoc. unfold deref at 1. cbn [cur]. rewrite bind_assoc, (bind_Done _ _ _ _ _ (thread_Done _ _ _ Ht)).
  rewrite (index_Some _ _ _ He), bind_lift, bind_modify.
  unfold pop_continuation. rewrite bind_gets. cbn [cont_state set_cont_state cur start end_ ptr_addr].
  destruct (Z.leb_spec (cont_addr t + 144 * Z.of_nat (i + 1)) (cont_addr t + 144 * Z.of_nat 0)); [lia|].
  rewrite bind_modify. unfold deref.
  erewrite (bind_Done _ _ _ _ _ (thread_Done _ t th _)). rewrite (index_Some _ _ _ Hc).
  eexists. reflexivity.
  Unshelve. done.
Qed.

(** *** Witnesses: a CPU with an idle thread and two more threads *)

Definition ex_boot : M lst unit :=
  _ ← init_threads 0 0 0 4096 0 0;
  _ ← create_thread 1 1 "shell" 4096 0 0;
  create_thread 2 2 "net" 4096 0 0.
Definition ex_lst : lst := match ex_boot lst0 with Done (_, s) => s | _ => lst0 end.

Lemma ex_lst_inv : exists G, sched_inv [0] 0 ex_lst G.
Proof.
  destruct (init_threads_spec 0 0 0 4096 0 0) as (s1 & H1 & HI1 & _).
  assert (Hs1 : threads s1 !! 1 = None /\ threads s1 !! 2 = None)
    by (revert H1; vm_compute; intros [= <-]; done).
  destruct (create_thread_spec [0] 0 s1 LS0 1 1 "shell" 4096 0 0 HI1) as
    (s2 & G2 & H2 & HI2 & _ & _ & _ & Ho); [tauto|set_solver|].
  destruct (create_thread_spec [0] 0 s2 G2 2 2 "net" 4096 0 0 HI2) as (s3 & G3 & H3 & HI3 & _);
    [rewrite Ho by done; tauto|set_solver|].
  assert (E : ex_boot lst0 = Done (tt, s3)) by (unfold ex_boot; mstep H1; mstep H2; exact H3).
  exists G3. unfold ex_lst. by rewrite E.
Qed.

Lemma schedule_preserves_witness : exists G s' G',
  sched_inv [0] 0 ex_lst G /\ schedule 0 ex_lst = Done (tt, s') /\ sched_inv [0] 0 s' G'.
Proof.
  destruct ex_lst_inv as [G HI].
  destruct (schedule_preserves [0] 0 0 ex_lst G HI ltac:(unfold MAX_CPUS; lia)) as (s' & G' & H1 & H2 & _).
  exists G, s', G'. done.
Defined.

Lemma schedule_chooses_witness : exists G s',
  sched_inv [0] 0 ex_lst G /\ schedule 0 ex_lst = Done (tt, s') /\ current s' = Some 2 /\
  head (filter (fun t => rebalanced (threads ex_lst) t = false) (runq ex_lst G)) = Some 2.
Proof.
  destruct ex_lst_inv as [G HI].
  destruct (threads ex_lst !! 0) as [tc|] eqn:Htc; [|by vm_compute in Htc].
  destruct (schedule_chooses [0] 0 0 0 tc ex_lst G HI eq_refl eq_refl Htc) as (s' & H1 & H2).
  assert (H3 : current s' = Some 2) by (revert H1; clear; vm_compute; intros [= <-]; done).
  exists G, s'. split_and!; try done. rewrite H3 in H2.
  destruct (head _); [congruence|]. destruct (stays tc); discriminate.
Defined.

Lemma next_highest_priority_witness : exists G r s',
  rep ex_lst G /\ next_thread ex_lst = Done (r, s') /\ r = Some 2.
Proof.
  destruct ex_lst_inv as [G HI]. destruct HI as [Hr Hwf _ _ _].
  destruct (next_highest_priority [0] ex_lst G Hr Hwf) as (r & s' & H & _).
  exists G, r, s'. split_and!; try done. revert H. clear. vm_compute. intros [= <- _]. done.
Defined.

Lemma process_rb_queue_arrives_witness : exists G s' G',
  sched_inv [0] 0 ex_lst G /\ process_rb_queue 0 ex_lst = Done (tt, s') /\ sched_inv [0] 0 s' G'.
Proof.
  destruct ex_lst_inv as [G HI].
  destruct (lr G !! 0) as [l|] eqn:Hl.
  - destruct (process_rb_queue_arrives [0] 0 0 ex_lst G l HI ltac:(unfold MAX_CPUS; lia) Hl)
      as (s' & G' & H1 & H2 & _). exists G, s', G'. done.
  - apply lookup_ge_None_1 in Hl. rewrite (rep_rl _ _ (si_rep _ _ _ _ HI)) in Hl.
    unfold MAX_CPUS in Hl. lia.
Defined.

Lemma set_affinity_truncates_witness :
  exists s', set_affinity 4 1 (2 ^ 32)%Z ex_lst = Done (tt, s') /\ rebalance_thread 1 s' = Panic.
Proof.
  destruct (threads ex_lst !! 1) as [th|] eqn:Hth; [|by vm_compute in Hth].
  exact (set_affinity_truncates 4 1 th ex_lst ltac:(lia) Hth eq_refl).
Defined.

Lemma push_pop_continuation_lost_witness :
  let s := set_cont_state (mkCS (Entry 1 0) (Entry 1 0) (Entry 1 MAX_CONT)) ex_lst in
  let cont := mkContinuation 1 2 3 4 5 6 7 8 9 10 11 12 13 14 15 16 17 18 in
  exists s', (_ ← push_continuation (fun t => 4096 * Z.of_nat t)%Z cont;
              pop_continuation (fun t => 4096 * Z.of_nat t)%Z) s = Done (Continuation_zeroed, s').
Proof.
  intros s cont. destruct (threads s !! 1) as [th|] eqn:Hth; [|by vm_compute in Hth].
  apply (push_pop_continuation_lost _ cont 1 th 0 Continuation_zeroed s Hth eq_refl).
  - revert Hth. vm_compute. intros [= <-]. done.
  - revert Hth. vm_compute. intros [= <-]. done.
Defined.
