(* ===== verification/Smp.v ===== *)
(** * Several CPUs (kernel/src/thread.rs)

    [SCHED] and [CURRENT] are per-CPU, the threads, the rebalance queues and
    flags and [CONT_STATE] are shared.  A state of the machine holds all of
    them; an operation on CPU [i] runs on that CPU's view.  Steps are whole
    kernel entries (interrupts are off inside the kernel): a call of [schedule]
    and the system calls on thread handles.  The interleaving is at the level
    of these entries; races inside two concurrent entries are not covered.

    The main theorem is that in every reachable state each thread is in at
    most one place of the machine: it is current on one CPU, or in one
    position of one queue. *)

From Stdlib Require Import ZArith Lia.
From stdpp Require Import base gmap list sorting strings.
From stdpp Require Import options.
From S2P Require Import Prelude Sched.

Set Default Proof Using "Type".

Record Cpu := mkCpu { cpu_sched : Scheduler; cpu_current : option nat }.

Record smp := mkSmp {
  sm_threads : gmap nat Thread;
  sm_cpus : list Cpu;
  sm_rb_queues : list (option nat);
  sm_rb_flags : list bool;
  sm_cont : ContinuationState }.

Definition view (cpu : Cpu) (st : smp) : lst :=
  mkL (sm_threads st) (cpu_sched cpu) (cpu_current cpu) (sm_rb_queues st) (sm_rb_flags st) (sm_cont st).

Definition unview (i : nat) (s : lst) (st : smp) : smp :=
  mkSmp (threads s) (<[i := mkCpu (sched s) (current s)]> (sm_cpus st)) (rb_queues s) (rb_flags s)
    (cont_state s).

Definition on_cpu {A} (i : nat) (m : M lst A) : M smp A := fun st =>
  match sm_cpus st !! i with
  | Some cpu => match m (view cpu st) with
                | Done (a, s) => Done (a, unview i s st)
                | Panic => Panic
                | Hang => Hang
                end
  | None => Panic
  end.

(** The kernel entries.  [SetAffinity] is the system call with a CPU number
    that fits 32 bits. *)
Inductive entry :=
  | Schedule
  | SetAffinity (t : nat) (aff : Z)
  | SetPriority (t : nat) (prio : Z)
  | SetState (t : nat) (st : SysThreadState)
  | Sleep (t : nat)
  | CreateThread (t : nat) (tid : Z) (nm : string) (stack_u8 func die : Z).

Definition run (i : nat) (ncpus : Z) (e : entry) : M lst unit :=
  match e with
  | Schedule => schedule i
  | SetAffinity t aff => set_affinity ncpus t aff
  | SetPriority t prio => set_priority t prio
  | SetState t st => set_state t st
  | Sleep t => sleep i t
  | CreateThread t tid nm sk f d => create_thread t tid nm sk f d
  end.

(** What the entries rely on: handles name threads that are not idle threads,
    numbers are unsigned, and a new thread gets a fresh identity. *)
Definition allowed (idles : list nat) (m : gmap nat Thread) (e : entry) : Prop :=
  match e with
  | Schedule => True
  | SetAffinity t aff => (t ∉ idles) /\ is_Some (m !! t) /\ (0 <= aff < 2 ^ 32)%Z
  | SetPriority t prio => (t ∉ idles) /\ is_Some (m !! t) /\ (0 <= prio)%Z
  | SetState t _ | Sleep t => (t ∉ idles) /\ is_Some (m !! t)
  | CreateThread t _ _ _ _ _ => (t ∉ idles) /\ m !! t = None
  end.

(** ** The invariant of the machine *)

(** The contents of the queues of a CPU, and its idle thread. *)
Record gcpu := mkG { gti : nat; gA : list (list nat); gP : list (list nat) }.

Definition gls (R : list (list nat)) (g : gcpu) : LS := mkLS (gA g) (gP g) R.

Definition cur_place (ti : nat) (oc : option nat) : list nat :=
  match oc with Some c => if decide (c = ti) then [] else [c] | None => [] end.

(** The threads a CPU holds, but for its idle thread. *)
Definition place (p : Cpu * gcpu) : list nat :=
  cur_place (gti p.2) (cpu_current p.1) ++ concat (gA p.2) ++ concat (gP p.2).

Definition everyone (st : smp) (gs : list gcpu) (R : list (list nat)) : list nat :=
  concat (place <$> zip (sm_cpus st) gs) ++ concat R.

Record ginv (st : smp) (gs : list gcpu) (R : list (list nat)) : Prop := mkGI {
  gi_len : length (sm_cpus st) = length gs;
  gi_max : length gs <= MAX_CPUS;
  gi_idles : NoDup (gti <$> gs);
  gi_cpu : forall i cpu g, sm_cpus st !! i = Some cpu -> gs !! i = Some g ->
    sched_inv (gti <$> gs) (gti g) (view cpu st) (gls R g);
  gi_nodup : NoDup (everyone st gs R) }.

Lemma owned_place ti cpu st R g :
  owned ti (view cpu st) (gls R g) ≡ₚ
  (cur_place ti (cpu_current cpu) ++ concat (gA g) ++ concat (gP g)) ++ concat R.
Proof. unfold owned, running, members, cur_place. simpl. solve_Permutation. Qed.

(** Everyone else, from the point of view of CPU [i]. *)
Definition rest (st : smp) (gs : list gcpu) (i : nat) : list nat :=
  concat (<[i := []]> (place <$> zip (sm_cpus st) gs)).

Lemma zip_lookup {A B} (l : list A) (k : list B) i x y :
  l !! i = Some x -> k !! i = Some y -> zip l k !! i = Some (x, y).
Proof. intros H1 H2. apply lookup_zip_with_Some. eauto. Qed.

Lemma everyone_split st gs R i cpu g :
  sm_cpus st !! i = Some cpu -> gs !! i = Some g ->
  everyone st gs R ≡ₚ rest st gs i ++ owned (gti g) (view cpu st) (gls R g).
Proof.
  intros Hc Hg. rewrite owned_place. unfold everyone, rest.
  assert (Hl : (place <$> zip (sm_cpus st) gs) !! i = Some (place (cpu, g)))
    by (rewrite list_lookup_fmap, (zip_lookup _ _ _ _ _ Hc Hg); done).
  pose proof (concat_insert_Permutation _ _ _ [] Hl) as Hp. simpl app in Hp.
  rewrite <- Hp. unfold place at 2. simpl. solve_Permutation.
Qed.

Lemma zip_insert {A B} (l : list A) (k : list B) i x y :
  zip (<[i := x]> l) (<[i := y]> k) = <[i := (x, y)]> (zip l k).
Proof.
  revert k i. induction l as [|a l IH]; intros [|b k] [|i]; simpl; try done.
  f_equal. apply IH.
Qed.

Lemma rest_insert st st' gs i cpu' g' :
  sm_cpus st' = <[i := cpu']> (sm_cpus st) -> rest st' (<[i := g']> gs) i = rest st gs i.
Proof.
  intros Hc. unfold rest. rewrite Hc, zip_insert. f_equal.
  rewrite list_fmap_insert, list_insert_insert_eq. done.
Qed.

(** A thread of another CPU is among everyone but CPU [i]. *)
Lemma rest_in st gs i j cpu g x :
  i <> j -> sm_cpus st !! j = Some cpu -> gs !! j = Some g -> x ∈ place (cpu, g) ->
  x ∈ rest st gs i.
Proof.
  intros Hne Hc Hg Hx. unfold rest. apply elem_of_concat. exists (place (cpu, g)). split; [done|].
  apply (list_elem_of_lookup_2 _ j). rewrite list_lookup_insert_ne by done.
  rewrite list_lookup_fmap, (zip_lookup _ _ _ _ _ Hc Hg). done.
Qed.

(** What the scheduler state of another CPU needs from a step. *)
Lemma sched_inv_frame idles ti s s' G R' c :
  sched_inv idles ti s G -> current s = Some c ->
  sched s' = sched s -> current s' = current s ->
  (forall x, x ∈ ti :: c :: concat (la G) ++ concat (lp G) -> threads s' !! x = threads s !! x) ->
  wf idles (threads s') -> Forall2 (chain next (threads s')) (rb_queues s') R' ->
  length R' = MAX_CPUS -> length (rb_flags s') = MAX_CPUS ->
  disjoint_idles idles (concat R') -> NoDup (members (set_lr R' G)) -> (c ∉ concat R') ->
  sched_inv idles ti s' (set_lr R' G).
Proof.
  intros [[Hq Hr Hql ? ? Ht ?] Hwf Hd [Hti Htti] (c' & Hc' & Htc & Hcm & Hci & Hid)] Hc Hs Hcu Hag Hwf' HR' HlR Hfl HdR Hnd HcR.
  assert (c' = c) as -> by congruence.
  assert (Hqs : forall w, queue_of w s' = queue_of w s) by (unfold queue_of; by rewrite Hs).
  unfold disjoint_idles, members in *. split; try done.
  - split; try done.
    + intros w. rewrite Hqs. specialize (Hq w). destruct w; (eapply chains_agree; [|exact Hq]);
        intros x Hx; rewrite Hag; [done|set_solver|done|set_solver].
    + intros w. rewrite Hqs. apply (Ht w).
  - intros x. unfold members. simpl. rewrite !elem_of_app. intros [Hx|[Hx|Hx]]; [apply Hd; set_solver..|auto].
  - split; [done|]. rewrite Hag by set_solver. done.
  - exists c. rewrite Hs, Hcu, Hag by set_solver. split_and!; try done.
    unfold members. simpl. clear -Hcm HcR. set_solver.
Qed.

Lemma owned_thread idles ti s G x :
  sched_inv idles ti s G -> x ∈ owned ti s G -> (x ∉ idles) /\ is_Some (threads s !! x).
Proof.
  intros [Hr Hwf Hd _ (c & Hc & Htc & _ & Hci & _)]. unfold owned.
  rewrite (running_some _ _ _ Hc), elem_of_app. intros [Hx|Hx].
  - destruct (decide (c = ti)); [by apply elem_of_nil in Hx|].
    apply list_elem_of_singleton in Hx as ->. tauto.
  - split; [by apply Hd|]. by eapply rep_in.
Qed.

Lemma everyone_thread st gs R x :
  ginv st gs R -> x ∈ everyone st gs R -> gs <> [] -> is_Some (sm_threads st !! x).
Proof.
  intros [Hlen _ _ Hcpu _]. unfold everyone. rewrite elem_of_app, elem_of_concat. intros [Hx|Hx] Hne.
  - destruct Hx as (l & Hx & Hl). apply list_elem_of_fmap in Hl as ([cpu g] & -> & Hin).
    apply list_elem_of_lookup in Hin as [i Hi]. apply lookup_zip_with_Some in Hi as (? & ? & [= <- <-] & H1 & H2).
    pose proof (Hcpu _ _ _ H1 H2) as HI.
    apply (owned_thread _ _ _ _ x) in HI; [by destruct HI|]. rewrite owned_place. apply elem_of_app. by left.
  - destruct gs as [|g gs]; [done|]. destruct (sm_cpus st) as [|cpu cpus] eqn:E; [done|].
    assert (HI : sched_inv (gti <$> g :: gs) (gti g) (view cpu st) (gls R g)) by (by apply (Hcpu 0)).
    apply (owned_thread _ _ _ _ x) in HI; [by destruct HI|]. rewrite owned_place. apply elem_of_app. by right.
Qed.

Lemma idles_insert (gs : list gcpu) i g A P : gs !! i = Some g ->
  gti <$> <[i := mkG (gti g) A P]> gs = gti <$> gs.
Proof.
  intros H. rewrite list_fmap_insert. apply list_insert_id. by rewrite list_lookup_fmap, H.
Qed.

Section LocalStep.
Context (st : smp) (gs : list gcpu) (R : list (list nat)) (i : nat) (cpu : Cpu) (g : gcpu).
Context (s' : lst) (G' : LS) (new : list nat).
Context (HG : ginv st gs R) (Hcpu : sm_cpus st !! i = Some cpu) (Hg : gs !! i = Some g).
Context (HI' : sched_inv (gti <$> gs) (gti g) s' G').
Context (How : owned (gti g) s' G' ≡ₚ new ++ owned (gti g) (view cpu st) (gls R g)).
Context (Hout : forall x, x ∉ gti g :: new ++ owned (gti g) (view cpu st) (gls R g) ->
  threads s' !! x = sm_threads st !! x).
Context (Hnew : NoDup new) (Hfresh : forall x, x ∈ new -> sm_threads st !! x = None).

Let g' : gcpu := mkG (gti g) (la G') (lp G').
Let st' : smp := unview i s' st.

Lemma local_everyone : everyone st' (<[i := g']> gs) (lr G') ≡ₚ new ++ everyone st gs R.
Proof using Hcpu Hg How.
  rewrite (everyone_split st gs R i cpu g Hcpu Hg).
  rewrite (everyone_split st' _ (lr G') i (mkCpu (sched s') (current s')) g').
  - rewrite (rest_insert st st' gs i (mkCpu (sched s') (current s')) g' eq_refl).
    assert (E : owned (gti g') (view (mkCpu (sched s') (current s')) st') (gls (lr G') g') = owned (gti g) s' G')
      by done.
    rewrite E, How. solve_Permutation.
  - apply list_lookup_insert_eq. by eapply lookup_lt_Some.
  - apply list_lookup_insert_eq. by eapply lookup_lt_Some.
Qed.

Lemma local_nodup : NoDup (everyone st' (<[i := g']> gs) (lr G')).
Proof using HG Hcpu Hg How Hnew Hfresh.
  rewrite local_everyone. apply list.NoDup_app. split_and!; [done| |apply HG].
  intros x Hx Hin. destruct (everyone_thread st gs R x HG Hin) as [th Hth].
  - intros E. by rewrite E in Hg.
  - by rewrite Hfresh in Hth.
Qed.

(** What CPU [j] holds is not touched. *)
Lemma local_other_out j cpuj gj c x :
  i <> j -> sm_cpus st !! j = Some cpuj -> gs !! j = Some gj -> cpu_current cpuj = Some c ->
  x ∈ gti gj :: c :: concat (gA gj) ++ concat (gP gj) ->
  threads s' !! x = sm_threads st !! x.
Proof using HG Hcpu Hg HI' How Hout Hnew Hfresh.
  intros Hne Hcj Hgj Hc Hx. pose proof (gi_cpu _ _ _ HG _ _ _ Hcpu Hg) as HIi.
  pose proof (gi_cpu _ _ _ HG _ _ _ Hcj Hgj) as HIj.
  pose proof HIj as [Hrj _ Hdj [Htij Httij] (c' & Hc' & Htc & Hcm & Hci & _)].
  assert (c' = c) as -> by (simpl in Hc'; congruence).
  assert (Hij : gti gj <> gti g).
  { intros E. apply Hne. eapply (NoDup_lookup _ i j (gti g) (gi_idles _ _ _ HG));
      rewrite list_lookup_fmap; [by rewrite Hg|by rewrite Hgj, <- E]. }
  assert (Hgi : gti g ∈ gti <$> gs) by (apply list_elem_of_fmap; eauto using list_elem_of_lookup_2).
  assert (Hsome : is_Some (sm_threads st !! x) /\ x <> gti g /\
    (x = gti gj \/ x ∈ place (cpuj, gj))).
  { rewrite !elem_of_cons in Hx. unfold place, cur_place. simpl. rewrite Hc.
    destruct Hx as [->|[->|Hx]]; [by auto| |].
    - destruct (decide (c = gti gj)) as [->|Hn]; [by auto|]. split_and!; [done| |set_solver].
      intros ->. by rewrite Hci in Hn.
    - assert (Hm : x ∈ members (gls R gj)) by (unfold members; simpl; rewrite app_assoc; set_solver).
      split_and!; [by apply (rep_in _ _ _ Hrj)| |set_solver]. intros ->. by apply (Hdj (gti g)). }
  destruct Hsome as ([th Hth] & Hxi & Hpl). apply Hout.
  rewrite not_elem_of_cons, not_elem_of_app. split_and!; [done| |].
  - intros Hn. by rewrite Hfresh in Hth.
  - intros Ho. destruct Hpl as [->|Hpl].
    + by apply (owned_thread _ _ _ _ _ HIi) in Ho as [? _].
    + pose proof (gi_nodup _ _ _ HG) as Hnd. rewrite (everyone_split _ _ _ _ _ _ Hcpu Hg) in Hnd.
      apply list.NoDup_app in Hnd as (_ & Hd & _). apply (Hd x); [|done]. by eapply rest_in.
Qed.

Lemma ginv_local : ginv st' (<[i := g']> gs) (lr G').
Proof using HG Hcpu Hg HI' How Hout Hnew Hfresh.
  pose proof local_nodup as Hnd'. pose proof (lookup_lt_Some _ _ _ Hcpu) as Hlt.
  pose proof (lookup_lt_Some _ _ _ Hg) as Hltg.
  split; [simpl; rewrite !length_insert; apply HG|rewrite length_insert; apply HG| | |done].
  { unfold g'. rewrite idles_insert by done. apply HG. }
  intros j cpuj gj Hcj Hgj. unfold g' at 1. rewrite idles_insert by done.
  destruct (decide (i = j)) as [<-|Hne].
  - simpl in Hcj. rewrite list_lookup_insert_eq in Hcj by done.
    rewrite list_lookup_insert_eq in Hgj by done. simplify_eq. destruct s', G'. exact HI'.
  - pose proof (everyone_split _ _ (lr G') _ _ _ Hcj Hgj) as Hsp.
    simpl in Hcj. rewrite list_lookup_insert_ne in Hcj by done.
    rewrite list_lookup_insert_ne in Hgj by done.
    pose proof (gi_cpu _ _ _ HG _ _ _ Hcj Hgj) as HIj.
    pose proof HIj as [_ _ _ [Htij _] (c & Hc & _ & _ & Hci & _)]. destruct HI' as [[] Hwf' Hd' _ _].
    rewrite Hsp in Hnd'. apply list.NoDup_app in Hnd' as (_ & _ & Hnd').
    unfold owned in Hnd'. rewrite (running_some _ _ c) in Hnd' by done.
    change (gls (lr G') gj) with (set_lr (lr G') (gls R gj)).
    apply (sched_inv_frame _ _ (view cpuj st) _ _ _ c); try done.
    + intros x Hx. by eapply (local_other_out j).
    + intros x Hx. apply Hd'. unfold members. set_solver.
    + by apply list.NoDup_app in Hnd' as (_ & _ & ?).
    + intros Hin. destruct (decide (c = gti gj)) as [->|Hcn].
      * eapply Hd'; [|done]. unfold members. set_solver.
      * apply NoDup_cons_1_1 in Hnd'. apply Hnd'. unfold members. simpl. set_solver.
Qed.
End LocalStep.

Definition sm_set_threads (m : gmap nat Thread) (st : smp) : smp :=
  mkSmp m (sm_cpus st) (sm_rb_queues st) (sm_rb_flags st) (sm_cont st).

Lemma ginv_attr st gs R t th f :
  ginv st gs R -> sm_threads st !! t = Some th -> next (f th) = next th ->
  wf_thread (gti <$> gs) t (f th) -> ginv (sm_set_threads (<[t := f th]> (sm_threads st)) st) gs R.
Proof.
  intros [Hl Hm Hi Hc Hnd] Ht Hn Hw. split; try done.
  intros i cpu g H1 H2. by apply (sched_inv_upd _ _ (view cpu st)); [apply (Hc i)|..].
Qed.

Lemma on_cpu_attr st gs R i cpu t th m :
  sm_cpus st !! i = Some cpu -> ginv st gs R -> sm_threads st !! t = Some th ->
  attr_update (gti <$> gs) t th m (view cpu st) ->
  exists st', on_cpu i m st = Done (tt, st') /\ ginv st' gs R /\
    everyone st' gs R = everyone st gs R /\ sm_cpus st' = sm_cpus st /\
    (forall x, is_Some (sm_threads st' !! x) <-> is_Some (sm_threads st !! x)).
Proof.
  intros Hc HG Ht (f & Hm & Hn & Hw). exists (sm_set_threads (<[t := f th]> (sm_threads st)) st).
  split_and!; try done; [|by apply ginv_attr|].
  - unfold on_cpu. rewrite Hc, Hm. unfold unview. simpl. rewrite list_insert_id by (by destruct cpu).
    done.
  - intros x. simpl. destruct (decide (x = t)) as [->|]; [|by rewrite lookup_insert_ne].
    by rewrite lookup_insert_eq, Ht.
Qed.

Lemma on_cpu_schedule st gs R i :
  ginv st gs R -> i < length (sm_cpus st) ->
  exists st' gs' R', on_cpu i (schedule i) st = Done (tt, st') /\ ginv st' gs' R' /\
    gti <$> gs' = gti <$> gs /\ everyone st' gs' R' ≡ₚ everyone st gs R.
Proof.
  intros HG Hi. destruct (lookup_lt_is_Some_2 (sm_cpus st) i Hi) as [cpu Hc].
  assert (Hi' : i < length gs) by (by rewrite <- (gi_len _ _ _ HG)).
  destruct (lookup_lt_is_Some_2 gs i) as [g Hg]; [done|].
  pose proof (gi_max _ _ _ HG) as Hmax.
  destruct (schedule_spec (gti <$> gs) (gti g) i (view cpu st) (gls R g)) as
    (s' & G' & Hrun & HI' & How & Hout); [by apply (gi_cpu _ _ _ HG i)|lia|].
  assert (Hnn : NoDup (@nil nat)) by constructor.
  assert (Hf : forall x, x ∈ @nil nat -> sm_threads st !! x = None) by set_solver.
  eexists _, _, _. split; [unfold on_cpu; rewrite Hc, Hrun; reflexivity|].
  split; [by apply (ginv_local st gs R i cpu g s' G' [])|]. split; [by apply idles_insert|].
  by apply (local_everyone st gs R i cpu g s' G' []).
Qed.

Definition created (e : entry) : list nat :=
  match e with CreateThread t _ _ _ _ _ => [t] | _ => [] end.

Lemma on_cpu_create st gs R i t tid nm sk f d :
  ginv st gs R -> i < length (sm_cpus st) -> (t ∉ gti <$> gs) -> sm_threads st !! t = None ->
  exists st' gs' R', on_cpu i (create_thread t tid nm sk f d) st = Done (tt, st') /\ ginv st' gs' R' /\
    gti <$> gs' = gti <$> gs /\ everyone st' gs' R' ≡ₚ t :: everyone st gs R.
Proof.
  intros HG Hi Hti Ht. destruct (lookup_lt_is_Some_2 (sm_cpus st) i Hi) as [cpu Hc].
  destruct (lookup_lt_is_Some_2 gs i) as [g Hg]; [by rewrite <- (gi_len _ _ _ HG)|].
  destruct (create_thread_spec (gti <$> gs) (gti g) (view cpu st) (gls R g) t tid nm sk f d) as
    (s' & G' & Hrun & HI' & Hm & Hcur & Hlr & Hout); [by apply (gi_cpu _ _ _ HG i)|done|done|].
  assert (How : owned (gti g) s' G' ≡ₚ [t] ++ owned (gti g) (view cpu st) (gls R g)).
  { unfold owned, running. rewrite Hcur, Hm. simpl. solve_Permutation. }
  assert (Hnn : NoDup [t]) by apply NoDup_singleton.
  assert (Hf : forall x, x ∈ [t] -> sm_threads st !! x = None) by (by intros x ->%list_elem_of_singleton).
  assert (Ho : forall x, x ∉ gti g :: [t] ++ owned (gti g) (view cpu st) (gls R g) ->
    threads s' !! x = sm_threads st !! x).
  { intros x Hx. apply Hout. intros ->. apply Hx. simpl. by right; left. }
  eexists _, _, _. split; [unfold on_cpu; rewrite Hc, Hrun; reflexivity|].
  split; [by apply (ginv_local st gs R i cpu g s' G' [t])|]. split; [by apply idles_insert|].
  by apply (local_everyone st gs R i cpu g s' G' [t]).
Qed.

Lemma run_spec st gs R i n e :
  ginv st gs R -> i < length (sm_cpus st) -> (0 <= n <= Z.of_nat MAX_CPUS)%Z ->
  allowed (gti <$> gs) (sm_threads st) e ->
  exists st' gs' R', on_cpu i (run i n e) st = Done (tt, st') /\ ginv st' gs' R' /\
    gti <$> gs' = gti <$> gs /\ everyone st' gs' R' ≡ₚ created e ++ everyone st gs R.
Proof.
  intros HG Hi Hn Hal. destruct (lookup_lt_is_Some_2 (sm_cpus st) i Hi) as [cpu Hc].
  destruct (lookup_lt_is_Some_2 gs i) as [g Hg]; [by rewrite <- (gi_len _ _ _ HG)|].
  pose proof (si_wf _ _ _ _ (gi_cpu _ _ _ HG _ _ _ Hc Hg)) as Hwf.
  assert (Hattr : forall t th m, sm_threads st !! t = Some th ->
    attr_update (gti <$> gs) t th m (view cpu st) ->
    exists st' gs' R', on_cpu i m st = Done (tt, st') /\ ginv st' gs' R' /\
      gti <$> gs' = gti <$> gs /\ everyone st' gs' R' ≡ₚ everyone st gs R).
  { intros t th m Ht Ha.
    destruct (on_cpu_attr _ _ _ _ _ _ _ _ Hc HG Ht Ha) as (st' & H1 & H2 & H3 & _).
    exists st', gs, R. by rewrite H3. }
  destruct e as [|t aff|t prio|t s0|t|t tid nm sk f d]; simpl in Hal |- *.
  - by apply on_cpu_schedule.
  - destruct Hal as (H1 & [th Ht] & H2). apply (Hattr t th); [done|].
    apply set_affinity_spec; try done. by apply Hwf.
  - destruct Hal as (H1 & [th Ht] & H2). apply (Hattr t th); [done|].
    apply set_priority_spec; try done. by apply Hwf.
  - destruct Hal as (H1 & [th Ht]). apply (Hattr t th); [done|].
    apply set_state_spec; try done. by apply Hwf.
  - destruct Hal as (H1 & [th Ht]).
    destruct (on_cpu_attr _ _ _ i cpu t th (upd_thread t (with_state Waiting)) Hc HG Ht) as
      (st1 & Hrun1 & HG1 & He1 & Hcp1 & _).
    { apply attr_update_upd; [done|by destruct th|]. apply wf_thread_state; [by apply Hwf|done..]. }
    destruct (on_cpu_schedule st1 gs R i HG1) as (st' & gs' & R' & Hrun & HG' & Hid & He); [by rewrite Hcp1|].
    exists st', gs', R'. rewrite <- He1. split_and!; try done.
    revert Hrun1 Hrun. clear -Hc. unfold on_cpu, sleep, do_yield. rewrite Hc.
    unfold mbind, M_bind. destruct (upd_thread _ _ _) as [[[] s1]| |]; try done.
    intros [= <-]. simpl. rewrite list_lookup_insert_eq by (by eapply lookup_lt_Some).
    destruct s1; simpl. destruct (schedule _ _) as [[[] s2]| |]; try done.
    unfold unview. simpl. by rewrite list_insert_insert_eq.
  - destruct Hal. by apply on_cpu_create.
Qed.

(** ** Booting CPUs *)

(** The machine before any CPU has called [init_threads]. *)
Definition smp0 : smp :=
  mkSmp ∅ [] (replicate MAX_CPUS None) (replicate MAX_CPUS false) (mkCS Null Null Null).

(** A CPU comes up with empty per-CPU state and calls [init_threads]. *)
Definition boot_cpu (t : nat) (tid : Z) (kd : nat) (sk f d : Z) : M smp unit :=
  n ← gets (fun st => length (sm_cpus st));
  _ ← modify (fun st => mkSmp (sm_threads st) (sm_cpus st ++ [mkCpu Scheduler_new None])
                  (sm_rb_queues st) (sm_rb_flags st) (sm_cont st));
  on_cpu n (init_threads t tid kd sk f d).

Definition idle_thread (t : nat) (tid : Z) (kd : nat) (sk f d : Z) : Thread :=
  with_continuation_ptr (Entry t 0)
    (with_state Idle (with_domain (Some kd) (Thread_new tid "idle" sk f d))).

Definition booted (t : nat) (th : Thread) (st : smp) : smp :=
  mkSmp (<[t := th]> (sm_threads st))
    (sm_cpus st ++ [mkCpu (mkSched (Some t) true SchedulerQueue_new SchedulerQueue_new) (Some t)])
    (sm_rb_queues st) (sm_rb_flags st) (sm_cont st).

Lemma boot_cpu_eq t tid kd sk f d st :
  boot_cpu t tid kd sk f d st = Done (tt, booted t (idle_thread t tid kd sk f d) st).
Proof.
  unfold boot_cpu. rewrite bind_gets, bind_modify. unfold on_cpu. simpl.
  rewrite lookup_app_r, Nat.sub_diag by lia. simpl.
  unfold init_threads, alloc_thread. rewrite bind_modify.
  rewrite (bind_Done _ _ _ _ _ (upd_thread_Done (set_threads _ _) t _ _ (lookup_insert_eq _ _ _))).
  unfold unview, booted. simpl. rewrite insert_insert_eq.
  rewrite insert_app_r_alt, Nat.sub_diag by lia. done.
Qed.

Definition empty_gcpu (t : nat) : gcpu :=
  mkG t (replicate (MAX_PRIO + 1) []) (replicate (MAX_PRIO + 1) []).

Lemma empty_gcpu_members t R : members (gls R (empty_gcpu t)) = concat R.
Proof. unfold members, gls, empty_gcpu. cbn [la lp lr gA gP]. by rewrite !concat_nils. Qed.

Lemma place_booted t th st gs :
  length (sm_cpus st) = length gs ->
  concat (place <$> zip (sm_cpus (booted t th st)) (gs ++ [empty_gcpu t])) =
  concat (place <$> zip (sm_cpus st) gs).
Proof.
  intros Hl. unfold booted. cbn [sm_cpus]. rewrite zip_with_app by done.
  rewrite fmap_app, concat_app. cbn [zip_with fmap list_fmap concat].
  assert (E : forall sc, place (mkCpu sc (Some t), empty_gcpu t) = []).
  { intros sc. unfold place, empty_gcpu, cur_place. cbn [fst snd gti gA gP cpu_current].
    by rewrite decide_True, !concat_nils. }
  rewrite E. apply app_nil_r.
Qed.

Lemma wf_boot idles t th m :
  wf idles m -> m !! t = None -> state th = Idle -> priority th <= MAX_PRIO -> rebalance th = false ->
  wf (idles ++ [t]) (<[t := th]> m).
Proof.
  intros Hwf Ht Hst Hp Hr x v Hx. destruct (decide (x = t)) as [->|Hne].
  - rewrite lookup_insert_eq in Hx. simplify_eq. split_and!; [done|by rewrite Hr|]. set_solver.
  - rewrite lookup_insert_ne in Hx by done. destruct (Hwf _ _ Hx) as (? & ? & Hi).
    split_and!; try done. rewrite Hi. set_solver.
Qed.

(** The CPU that comes up, from what is known about the shared state. *)
Lemma sched_inv_booted idles t th st R :
  t ∈ idles -> wf idles (<[t := th]> (sm_threads st)) ->
  Forall2 (chain next (<[t := th]> (sm_threads st))) (sm_rb_queues st) R ->
  length R = MAX_CPUS -> length (sm_rb_flags st) = MAX_CPUS -> NoDup (concat R) ->
  disjoint_idles idles (concat R) ->
  sched_inv idles t
    (view (mkCpu (mkSched (Some t) true SchedulerQueue_new SchedulerQueue_new) (Some t)) (booted t th st))
    (gls R (empty_gcpu t)).
Proof.
  intros Hti Hwf HR HlR Hfl Hnd Hd. pose proof (empty_gcpu_members t R) as Hm.
  split; [|done|by rewrite Hm| |].
  - split; try done; [intros []; apply chains_nils|by intros []|].
    intros w. split; [destruct w; simpl; lia|]. intros j l Hl _.
    unfold lq, gls, empty_gcpu in Hl. cbn [la lp gA gP] in Hl.
    destruct w; by apply lookup_replicate in Hl as [-> _].
  - split; [done|]. cbn. by rewrite lookup_insert_eq.
  - exists t. rewrite Hm. cbn. rewrite lookup_insert_eq. split_and!; try done; [|by left].
    intros Hin. by apply (Hd t).
Qed.

Lemma ginv_boot_first t tid kd sk f d :
  ginv (booted t (idle_thread t tid kd sk f d) smp0) [empty_gcpu t] (replicate MAX_CPUS []).
Proof.
  split; try done; [simpl; unfold MAX_CPUS; lia|apply NoDup_singleton| |].
  - intros i cpu g Hc Hg. destruct i; [|done]. simpl in Hc, Hg. simplify_eq.
    apply sched_inv_booted; try done; [simpl; set_solver| |apply chains_nils| |].
    + apply (wf_boot []); try done. simpl. lia.
    + rewrite concat_nils. constructor.
    + rewrite concat_nils. intros x Hx. by apply elem_of_nil in Hx.
  - unfold everyone. rewrite concat_nils, app_nil_r.
    rewrite (place_booted t _ smp0 [] eq_refl). constructor.
Qed.

(** The other CPUs when one more comes up. *)
Lemma sched_inv_grow idles ti t th cpu st st' G :
  sched_inv idles ti (view cpu st) G -> sm_threads st !! t = None ->
  st' = booted t th st -> wf (idles ++ [t]) (sm_threads st') ->
  sched_inv (idles ++ [t]) ti (view cpu st') G.
Proof.
  intros [Hr Hwf Hd [Hti Htti] (c & Hc & Htc & Hcm & Hci & Hid)] Ht -> Hwf'.
  assert (Htm : t ∉ members G) by (intros Hin; destruct (rep_in _ _ _ Hr Hin) as [x Hx]; simpl in Hx; congruence).
  assert (Hx : forall x, is_Some (sm_threads st !! x) -> is_Some (<[t := th]> (sm_threads st) !! x) /\ x <> t).
  { intros x [v Hv]. assert (x <> t) by congruence. by rewrite lookup_insert_ne. }
  split; [|done| | |].
  - apply (rep_set_thread t th) in Hr; [|done]. by destruct Hr.
  - intros x Hin. rewrite not_elem_of_app, not_elem_of_cons. split; [by apply Hd|].
    split; [congruence|apply not_elem_of_nil].
  - split; [set_solver|]. by apply Hx.
  - exists c. simpl in *. destruct (Hx c Htc) as [Hc1 Hc2]. split_and!; try done.
    rewrite elem_of_app, list_elem_of_singleton. naive_solver.
Qed.

Lemma ginv_boot t tid kd sk f d st gs R :
  ginv st gs R -> gs <> [] -> length gs < MAX_CPUS -> sm_threads st !! t = None ->
  ginv (booted t (idle_thread t tid kd sk f d) st) (gs ++ [empty_gcpu t]) R.
Proof.
  intros HG Hne Hlt Ht. set (th := idle_thread t tid kd sk f d).
  pose proof HG as [Hl Hm Hi Hc Hnd].
  destruct gs as [|g0 gs0]; [done|]. destruct (sm_cpus st) as [|c0 cs0] eqn:Ecpus; [done|].
  pose proof (Hc 0 c0 g0 eq_refl eq_refl) as [[_ Hr _ HlR Hfl _ Hndm] Hwf Hd _ _].
  set (gs := g0 :: gs0) in *.
  assert (Hids : gti <$> gs ++ [empty_gcpu t] = (gti <$> gs) ++ [t]) by (by rewrite fmap_app).
  assert (Htn : t ∉ gti <$> gs).
  { intros (g & -> & Hin)%list_elem_of_fmap. apply list_elem_of_lookup in Hin as [j Hj].
    destruct (lookup_lt_is_Some_2 (c0 :: cs0) j) as [cpu Hcpu].
    { rewrite Hl. by eapply lookup_lt_Some. }
    destruct (si_ti _ _ _ _ (Hc _ _ _ Hcpu Hj)) as [_ [x Hx]]. simpl in Hx. congruence. }
  assert (Hwf' : wf ((gti <$> gs) ++ [t]) (<[t := th]> (sm_threads st))) by (apply wf_boot; simpl; (done || lia)).
  assert (HtR : t ∉ concat R).
  { intros Hin. destruct (chains_in _ _ _ _ _ Hr Hin) as [x Hx]. simpl in Hx. congruence. }
  split.
  - unfold booted. cbn [sm_cpus]. rewrite Ecpus, !length_app, Hl. done.
  - rewrite length_app. simpl in *. lia.
  - rewrite Hids. apply list.NoDup_app. split_and!; [done| |apply NoDup_singleton].
    intros x Hx ->%list_elem_of_singleton. done.
  - rewrite Hids. intros j cpu g Hj Hg. unfold booted in Hj. cbn [sm_cpus] in Hj. rewrite Ecpus in Hj.
    apply lookup_app_Some in Hg as [Hg|[Hg1 Hg2]].
    + rewrite lookup_app_l in Hj by (rewrite Hl; by eapply lookup_lt_Some).
      by eapply (sched_inv_grow _ _ t th _ st); [apply (Hc j)|..].
    + apply list_lookup_singleton_Some in Hg2 as [Hz <-].
      rewrite lookup_app_r, Hl, Hz in Hj by (rewrite Hl; done). simpl in Hj. simplify_eq.
      apply sched_inv_booted; try done; [set_solver|by apply chains_insert| |].
      * unfold members in Hndm. rewrite !list.NoDup_app in Hndm. tauto.
      * intros x Hx. rewrite not_elem_of_app, not_elem_of_cons. split_and!; [|congruence|apply not_elem_of_nil].
        apply Hd. unfold members. set_solver.
  - unfold everyone. rewrite place_booted by (by rewrite Ecpus). unfold everyone in Hnd.
    rewrite Ecpus in *. done.
Qed.

(** ** Reachable states *)

Inductive reachable : list nat -> smp -> Prop :=
  | reach_first t tid kd sk f d st :
      boot_cpu t tid kd sk f d smp0 = Done (tt, st) -> reachable [t] st
  | reach_boot idles t tid kd sk f d st st' :
      reachable idles st -> length idles < MAX_CPUS -> sm_threads st !! t = None ->
      boot_cpu t tid kd sk f d st = Done (tt, st') -> reachable (idles ++ [t]) st'
  | reach_entry idles i n e st st' :
      reachable idles st -> i < length (sm_cpus st) -> (0 <= n <= Z.of_nat MAX_CPUS)%Z ->
      allowed idles (sm_threads st) e -> on_cpu i (run i n e) st = Done (tt, st') ->
      reachable idles st'.

Lemma reachable_ginv idles st :
  reachable idles st -> exists gs R, ginv st gs R /\ gti <$> gs = idles /\ gs <> [].
Proof.
  induction 1 as [t tid kd sk f d st H|idles t tid kd sk f d st st' _ IH Hlt Ht H|idles i n e st st' _ IH Hi Hn Hal H].
  - rewrite boot_cpu_eq in H. simplify_eq. eexists _, _. split; [apply ginv_boot_first|done].
  - destruct IH as (gs & R & HG & <- & Hne). rewrite boot_cpu_eq in H. simplify_eq.
    rewrite length_fmap in Hlt.
    exists (gs ++ [empty_gcpu t]), R. split; [by apply ginv_boot|].
    split; [by rewrite fmap_app|]. by destruct gs.
  - destruct IH as (gs & R & HG & <- & Hne).
    destruct (run_spec st gs R i n e HG Hi Hn Hal) as (st1 & gs1 & R1 & Hrun & HG1 & Hid & _).
    rewrite Hrun in H. simplify_eq. exists gs1, R1. split_and!; try done.
    intros ->. by destruct gs.
Qed.

Lemma ginv_current st gs R i cpu g t :
  ginv st gs R -> sm_cpus st !! i = Some cpu -> gs !! i = Some g -> cpu_current cpu = Some t ->
  (t ∈ gti <$> gs -> t = gti g) /\ (t <> gti g -> t ∈ place (cpu, g)).
Proof.
  intros HG Hc Hg Ht. destruct (si_cur _ _ _ _ (gi_cpu _ _ _ HG _ _ _ Hc Hg)) as (c & Hcc & _ & _ & Hci & _).
  simpl in Hcc. assert (c = t) as -> by congruence. split; [done|]. intros Hne.
  unfold place, cur_place. simpl. rewrite Ht, decide_False by done. set_solver.
Qed.

(** C1: Whatever the CPUs do, in whatever order, no thread is ever current on
    two CPUs, and a thread that is current on a CPU is in no queue of another
    CPU and in no rebalance queue: all the places of the machine hold each
    thread at most once. *)
Theorem smp_exclusive idles st :
  reachable idles st ->
  (forall i j ci cj t, sm_cpus st !! i = Some ci -> sm_cpus st !! j = Some cj ->
     cpu_current ci = Some t -> cpu_current cj = Some t -> i = j) /\
  (exists gs R, gti <$> gs = idles /\ NoDup (everyone st gs R) /\
     forall i cpu g, sm_cpus st !! i = Some cpu -> gs !! i = Some g ->
       rep (view cpu st) (gls R g)).
Proof.
  intros Hre. destruct (reachable_ginv _ _ Hre) as (gs & R & HG & <- & _). split.
  - intros i j ci cj t Hi Hj Hti Htj. destruct (decide (i = j)) as [|Hne]; [done|exfalso].
    destruct (lookup_lt_is_Some_2 gs i) as [gi Hgi]; [rewrite <- (gi_len _ _ _ HG); by eapply lookup_lt_Some|].
    destruct (lookup_lt_is_Some_2 gs j) as [gj Hgj]; [rewrite <- (gi_len _ _ _ HG); by eapply lookup_lt_Some|].
    destruct (ginv_current _ _ _ _ _ _ _ HG Hi Hgi Hti) as [Hi1 Hi2].
    destruct (ginv_current _ _ _ _ _ _ _ HG Hj Hgj Htj) as [Hj1 Hj2].
    assert (Hin : forall k g, gs !! k = Some g -> gti g ∈ gti <$> gs)
      by (intros k g Hk; apply list_elem_of_fmap; eauto using list_elem_of_lookup_2).
    destruct (decide (t = gti gi)) as [E|E].
    + assert (E' : t = gti gj) by (apply Hj1; rewrite E; eauto).
      apply Hne. eapply (NoDup_lookup _ i j t (gi_idles _ _ _ HG)); rewrite list_lookup_fmap;
        [rewrite Hgi|rewrite Hgj]; simpl; congruence.
    + assert (t <> gti gj) by (intros ->; apply E, Hi1; eauto).
      pose proof (gi_nodup _ _ _ HG) as Hnd. rewrite (everyone_split _ _ _ _ _ _ Hi Hgi), owned_place in Hnd.
      apply list.NoDup_app in Hnd as (_ & Hd & _). apply (Hd t); [by eapply rest_in; eauto|].
      apply elem_of_app. left. by apply Hi2.
  - exists gs, R. split; [done|]. split; [apply HG|]. intros i cpu g Hi Hg. apply (gi_cpu _ _ _ HG i cpu g Hi Hg).
Qed.

(** C33: In a reachable state every permitted kernel entry on every CPU returns
    (it neither panics nor loops), and apart from the thread it creates it
    neither loses nor duplicates a thread anywhere in the machine. *)
Theorem smp_entry_returns idles st i n e :
  reachable idles st -> i < length (sm_cpus st) -> (0 <= n <= Z.of_nat MAX_CPUS)%Z ->
  allowed idles (sm_threads st) e ->
  exists st' gs R gs' R', on_cpu i (run i n e) st = Done (tt, st') /\
    ginv st gs R /\ ginv st' gs' R' /\ gti <$> gs' = idles /\
    everyone st' gs' R' ≡ₚ created e ++ everyone st gs R.
Proof.
  intros Hre Hi Hn Hal. destruct (reachable_ginv _ _ Hre) as (gs & R & HG & <- & _).
  destruct (run_spec st gs R i n e HG Hi Hn Hal) as (st1 & gs1 & R1 & Hrun & HG1 & Hid & He).
  by exists st1, gs, R, gs1, R1.
Qed.

(** *** Witnesses: two CPUs, a thread created on the first and moved *)

Definition ex_prog : M smp unit :=
  _ ← boot_cpu 0 0 0 4096 0 0;
  _ ← boot_cpu 1 1 0 8192 0 0;
  on_cpu 0 (run 0 2 (CreateThread 2 2 "net" 12288 0 0)).
Definition ex_smp : smp := match ex_prog smp0 with Done (_, st) => st | _ => smp0 end.

Lemma ex_smp_reachable : reachable [0; 1] ex_smp.
Proof.
  assert (H0 : reachable [0] (booted 0 (idle_thread 0 0 0 4096 0 0) smp0)) by (eapply reach_first, boot_cpu_eq).
  eapply (reach_boot _ 1 1 0 8192 0 0) in H0; [|simpl; unfold MAX_CPUS; lia|done|apply boot_cpu_eq].
  eapply (reach_entry _ 0 2 (CreateThread 2 2 "net" 12288 0 0)) in H0; [exact H0|simpl; lia|unfold MAX_CPUS; lia| |].
  - split; [set_solver|done].
  - vm_compute. done.
Qed.

Lemma smp_exclusive_witness :
  reachable [0; 1] ex_smp /\
  (forall i j ci cj t, sm_cpus ex_smp !! i = Some ci -> sm_cpus ex_smp !! j = Some cj ->
     cpu_current ci = Some t -> cpu_current cj = Some t -> i = j).
Proof.
  split; [apply ex_smp_reachable|]. exact (proj1 (smp_exclusive [0; 1] ex_smp ex_smp_reachable)).
Defined.

Lemma smp_entry_returns_witness :
  exists st', on_cpu 0 (run 0 2 (SetAffinity 2 1)) ex_smp = Done (tt, st').
Proof.
  destruct (smp_entry_returns [0; 1] ex_smp 0 2 (SetAffinity 2 1) ex_smp_reachable) as (st' & _ & _ & _ & _ & H & _).
  - vm_compute. lia.
  - unfold MAX_CPUS. lia.
  - split_and!; [set_solver| |lia|lia].
    destruct (sm_threads ex_smp !! 2) as [th|] eqn:E; [by exists th|by vm_compute in E].
  - by exists st'.
Defined.
