(* ===== verification/WaitQueue.v ===== *)
(** * Interrupt wait queues (kernel/src/waitqueue.rs, the Interrupt system calls of
    kernel/src/syscalls.rs) and kernel condition variables (kernel/src/sync/condvar.rs)

    A CPU keeps one list of waiting threads per interrupt vector, linked through
    [next_iwq].  A thread that waits stays in the scheduling queues in state
    [Waiting]; the interrupt handler makes the threads of the vector's list
    runnable again.  A condition variable keeps a vector of thread handles. *)

From Stdlib Require Import ZArith Lia.
From stdpp Require Import base gmap list strings.
From stdpp Require Import options.
From S2P Require Import Prelude Sched.

Set Default Proof Using "Type".

Definition MAX_INT : nat := 256.

(** The scheduler state of the CPU with its interrupt wait queues. *)
Record wst := mkW { wl : lst; iwq : list (option nat) }.

Definition InterruptWaitQueues_new : list (option nat) := replicate MAX_INT None.

Definition on_l {A} (m : M lst A) : M wst A := fun s =>
  match m (wl s) with
  | Done (a, l) => Done (a, mkW l (iwq s))
  | Panic => Panic
  | Hang => Hang
  end.

Definition set_iwq (queue : nat) (h : option nat) (s : wst) : wst :=
  mkW (wl s) (<[queue := h]> (iwq s)).

Definition add_interrupt_thread (queue t : nat) : M wst unit :=
  qs ← gets iwq;
  previous_head ← lift (index qs queue);
  _ ← modify (set_iwq queue None);
  _ ← match previous_head with
      | Some node => on_l (upd_thread t (with_next_iwq (Some node)))
      | None => on_l (upd_thread t (with_next_iwq None))
      end;
  modify (set_iwq queue (Some t)).

Fixpoint signal_loop (fuel queue : nat) : M wst unit :=
  match fuel with
  | O => hang
  | S fuel =>
      qs ← gets iwq;
      previous_head ← lift (index qs queue);
      _ ← modify (set_iwq queue None);
      match previous_head with
      | Some t =>
          th ← on_l (thread t);
          _ ← on_l (upd_thread t (with_next_iwq None));
          _ ← modify (set_iwq queue (next_iwq th));
          _ ← on_l (upd_thread t (with_state Runnable));
          signal_loop fuel queue
      | None => mret tt
      end
  end.

Definition signal_interrupt_threads (queue : nat) : M wst unit :=
  s ← get; signal_loop (fuel_of (wl s)) queue.

(** [sys_recv_int]: the argument is a [u8]. *)
Definition sys_recv_int (cpu_id int : nat) : M wst unit :=
  if MAX_INT <? int then mret tt
  else
    t ← on_l get_current_ref;
    _ ← on_l (upd_thread t (with_state Waiting));
    _ ← add_interrupt_thread int t;
    on_l (do_yield cpu_id).

(** ** The lists of waiting threads *)

Record wrep (s : wst) (Ls : list (list nat)) : Prop := mkWR {
  wr_chains : Forall2 (chain next_iwq (threads (wl s))) (iwq s) Ls;
  wr_len : length Ls = MAX_INT;
  wr_nd : NoDup (concat Ls) }.

Lemma on_l_Done {A} (m : M lst A) s a l :
  m (wl s) = Done (a, l) -> on_l m s = Done (a, mkW l (iwq s)).
Proof. unfold on_l. by intros ->. Qed.

Lemma on_l_upd t th f s :
  threads (wl s) !! t = Some th ->
  on_l (upd_thread t f) s = Done (tt, mkW (set_threads (<[t := f th]> (threads (wl s))) (wl s)) (iwq s)).
Proof. intros H. apply on_l_Done. by apply upd_thread_Done. Qed.

Lemma wrep_heads s Ls q l : wrep s Ls -> Ls !! q = Some l -> iwq s !! q = Some (head l).
Proof.
  intros H Hl. destruct (Forall2_lookup_r _ _ _ _ _ (wr_chains _ _ H) Hl) as (h & Hh & Hc).
  by rewrite Hh, (chain_head _ _ _ _ Hc).
Qed.

Lemma add_interrupt_thread_spec q t th s Ls l :
  wrep s Ls -> Ls !! q = Some l -> threads (wl s) !! t = Some th -> (t ∉ concat Ls) ->
  exists s', add_interrupt_thread q t s = Done (tt, s') /\ wrep s' (<[q := t :: l]> Ls) /\
    wl s' = set_threads (<[t := with_next_iwq (head l) th]> (threads (wl s))) (wl s).
Proof.
  intros H Hl Ht Hn. pose proof (wrep_heads _ _ _ _ H Hl) as Hh. destruct H as [Hc Hlen Hnd].
  set (l' := set_threads (<[t := with_next_iwq (head l) th]> (threads (wl s))) (wl s)).
  exists (mkW l' (<[q := Some t]> (iwq s))). split_and!; [| |done].
  - unfold add_interrupt_thread. rewrite bind_gets, (index_Some _ _ _ Hh), bind_lift, bind_modify.
    assert (Hu : on_l (upd_thread t (with_next_iwq (head l))) (set_iwq q None s) =
      Done (tt, mkW l' (<[q := None]> (iwq s))))
      by (by apply (on_l_upd t th)).
    destruct (head l); mstep Hu; unfold modify, set_iwq; simpl; by rewrite list_insert_insert_eq.
  - split; [|by rewrite length_insert|].
    + simpl. eapply chains_push; eauto. by destruct th.
    + rewrite concat_push_Permutation by done. by constructor.
Qed.

Lemma signal_loop_spec fuel q s Ls l :
  wrep s Ls -> Ls !! q = Some l -> length l < fuel ->
  exists s', signal_loop fuel q s = Done (tt, s') /\ wrep s' (<[q := []]> Ls) /\
    (exists m, wl s' = set_threads m (wl s)) /\
    (forall t th, t ∈ l -> threads (wl s) !! t = Some th ->
       threads (wl s') !! t = Some (with_state Runnable (with_next_iwq None th))) /\
    (forall t, t ∉ l -> threads (wl s') !! t = threads (wl s) !! t).
Proof.
  revert s Ls l. induction fuel as [|fuel IH]; intros s Ls l H Hl Hf; [lia|].
  pose proof (wrep_heads _ _ _ _ H Hl) as Hh. destruct H as [Hc Hlen Hnd].
  cbn [signal_loop]. rewrite bind_gets, (index_Some _ _ _ Hh), bind_lift, bind_modify.
  destruct l as [|t l]; cbn [hd_error] in *.
  { exists s. unfold set_iwq. rewrite !list_insert_id by done. destruct s as [[] ?].
    split_and!; try done; [by eexists|set_solver]. }
  destruct (Forall2_lookup_r _ _ _ _ _ Hc Hl) as (h & Hh' & Hct). simpl in Hct.
  destruct Hct as [-> (th & Ht & Hct)].
  mstep (on_l_Done (thread t) (set_iwq q None s) th (wl s) (thread_Done _ _ _ Ht)).
  erewrite bind_Done by (apply on_l_upd; exact Ht). rewrite bind_modify.
  erewrite bind_Done by (apply on_l_upd, lookup_insert_eq).
  set (s1 := mkW _ _).
  assert (Hm1 : threads (wl s1) = <[t := with_state Runnable (with_next_iwq None th)]> (threads (wl s)))
    by (simpl; by rewrite insert_insert_eq).
  assert (H1 : wrep s1 (<[q := l]> Ls)).
  { split; [|by rewrite length_insert|].
    - rewrite Hm1. unfold s1, set_iwq. simpl. rewrite list_insert_insert_eq.
      apply (chains_pop next_iwq (threads (wl s)) t th); try done.
    - rewrite (concat_pop_Permutation _ _ _ _ Hl) in Hnd. by apply NoDup_cons_1_2 in Hnd. }
  assert (Htl : t ∉ l).
  { rewrite (concat_pop_Permutation _ _ _ _ Hl) in Hnd. apply NoDup_cons_1_1 in Hnd.
    intros Hin. apply Hnd, elem_of_concat. exists l. split; [done|].
    eapply (list_elem_of_lookup_2 _ q), list_lookup_insert_eq. by eapply lookup_lt_Some. }
  destruct (IH s1 (<[q := l]> Ls) l H1) as (s' & Hrun & Hr' & [m Hm] & Hin & Hout).
  { apply list_lookup_insert_eq. by eapply lookup_lt_Some. } { simpl in Hf. lia. }
  rewrite list_insert_insert_eq in Hr'. exists s'. split_and!; try done.
  - exists m. rewrite Hm. unfold s1. by destruct (wl s).
  - intros x thx [->|Hx]%elem_of_cons Hthx.
    + simplify_eq. rewrite Hout, Hm1 by done. apply lookup_insert_eq.
    + assert (x <> t) by (intros ->; done). apply Hin; [done|]. by rewrite Hm1, lookup_insert_ne.
  - intros x [Hne Hx]%not_elem_of_cons. rewrite Hout, Hm1 by done. by apply lookup_insert_ne.
Qed.

Lemma signal_spec_full q s Ls l :
  wrep s Ls -> Ls !! q = Some l ->
  exists s', signal_interrupt_threads q s = Done (tt, s') /\ wrep s' (<[q := []]> Ls) /\
    (exists m, wl s' = set_threads m (wl s)) /\
    (forall t th, t ∈ l -> threads (wl s) !! t = Some th ->
       threads (wl s') !! t = Some (with_state Runnable (with_next_iwq None th))) /\
    (forall t, t ∉ l -> threads (wl s') !! t = threads (wl s) !! t).
Proof.
  intros H Hl. unfold signal_interrupt_threads. rewrite bind_get.
  apply signal_loop_spec; [done|done|]. unfold fuel_of.
  assert (Hle : length l <= map_size (threads (wl s))); [|lia].
  destruct H as [Hc _ Hnd]. apply keys_length.
  - pose proof (concat_insert_Permutation _ _ _ [] Hl) as Hp. simpl in Hp. rewrite <- Hp in Hnd.
    by apply list.NoDup_app in Hnd as (_ & _ & ?).
  - intros t Ht. eapply (chains_in _ _ _ _ t Hc). apply elem_of_concat. exists l.
    split; [done|]. by eapply list_elem_of_lookup_2.
Qed.

(** ** The scheduler leaves the wait queues alone *)

Definition keeps {A} (m : M lst A) : Prop := forall s a s', m s = Done (a, s') ->
  forall t, next_iwq <$> threads s' !! t = next_iwq <$> threads s !! t.

Lemma keeps_bind {A B} (m : M lst A) (k : A -> M lst B) :
  keeps m -> (forall a, keeps (k a)) -> keeps (m ≫= k).
Proof.
  intros Hm Hk s b s' H t. minv H. by rewrite (Hk _ _ _ _ H), (Hm _ _ _ E).
Qed.
Lemma keeps_ret {A} (a : A) : keeps (mret a).
Proof. by intros s x s' [= <- <-]. Qed.
Lemma keeps_gets {A} (f : lst -> A) : keeps (gets f).
Proof. by intros s x s' [= <- <-]. Qed.
Lemma keeps_get : keeps get.
Proof. by intros s x s' [= <- <-]. Qed.
Lemma keeps_lift {A} (o : outcome A) : keeps (lift o).
Proof. intros s x s'. unfold lift. destruct o; naive_solver. Qed.
Lemma keeps_panic {A} : keeps (@panic lst A).
Proof. done. Qed.
Lemma keeps_hang {A} : keeps (@hang lst A).
Proof. done. Qed.
Lemma keeps_thread t : keeps (thread t).
Proof. intros s x s'. unfold thread. destruct (threads s !! t); naive_solver. Qed.
Lemma keeps_modify f : (forall s, threads (f s) = threads s) -> keeps (modify f).
Proof. intros H s x s' [= <- <-] t. by rewrite H. Qed.
Lemma keeps_upd t f : (forall th, next_iwq (f th) = next_iwq th) -> keeps (upd_thread t f).
Proof.
  intros Hf s x s' H y. destruct (threads s !! t) as [th|] eqn:Ht.
  - rewrite (upd_thread_Done _ _ _ _ Ht) in H. simplify_eq/=.
    destruct (decide (y = t)) as [->|]; [|by rewrite lookup_insert_ne].
    rewrite lookup_insert_eq, Ht. simpl. by rewrite Hf.
  - unfold upd_thread in H. minv H. unfold thread in E. by rewrite Ht in E.
Qed.

Create HintDb keeps discriminated.
#[export] Hint Resolve keeps_ret keeps_gets keeps_get keeps_lift keeps_panic keeps_hang keeps_thread : keeps.

(** Walk through the code: every primitive keeps [next_iwq]. *)
Ltac keeps_step :=
  match goal with
  | |- keeps (_ ≫= _) => apply keeps_bind; [|intros ?]
  | |- keeps (modify _) => apply keeps_modify; intros []; try done; try (by destruct_and?)
  | |- keeps (upd_thread _ _) => apply keeps_upd; by intros []
  | |- keeps (match ?x with _ => _ end) => destruct x
  | |- keeps (if ?x then _ else _) => destruct x
  | |- _ => solve [eauto with keeps]
  end.
Ltac keeps := repeat keeps_step.

Lemma keeps_set_queue w q : keeps (modify (set_queue w q)).
Proof. apply keeps_modify. by intros []; destruct w. Qed.
#[export] Hint Resolve keeps_set_queue : keeps.

Lemma keeps_put_thread w t : keeps (put_thread w t).
Proof.
  unfold put_thread, push_thread. repeat (apply keeps_bind; [|intros ?]); keeps.
Qed.
#[export] Hint Resolve keeps_put_thread : keeps.

Lemma keeps_pop_thread w q : keeps (pop_thread w q).
Proof. unfold pop_thread. keeps. Qed.
#[export] Hint Resolve keeps_pop_thread : keeps.

Lemma keeps_get_highest_loop fuel w : keeps (get_highest_loop fuel w).
Proof. induction fuel as [|fuel IH]; cbn [get_highest_loop]; keeps. Qed.
#[export] Hint Resolve keeps_get_highest_loop : keeps.

Lemma keeps_put_passive t : keeps (put_thread_in_passive t).
Proof. unfold put_thread_in_passive. keeps. Qed.
#[export] Hint Resolve keeps_put_passive : keeps.

Lemma keeps_get_next_loop fuel : keeps (get_next_loop fuel).
Proof.
  induction fuel as [|fuel IH]; cbn [get_next_loop]; unfold get_next_active, get_highest; keeps.
Qed.
#[export] Hint Resolve keeps_get_next_loop : keeps.

Lemma keeps_next : keeps next_thread.
Proof.
  unfold next_thread, get_next, flip_queues. keeps; simpl; by destruct (active _).
Qed.
#[export] Hint Resolve keeps_next : keeps.

Lemma keeps_rb_pop q : keeps (rb_pop_thread q).
Proof. unfold rb_pop_thread. keeps. Qed.
Lemma keeps_rebalance t : keeps (rebalance_thread t).
Proof. unfold rebalance_thread, rb_push_thread, rb_queue_signal. keeps. Qed.
#[export] Hint Resolve keeps_rb_pop keeps_rebalance : keeps.

Lemma keeps_process_rb_loop fuel cpu : keeps (process_rb_loop fuel cpu).
Proof. induction fuel as [|fuel IH]; cbn [process_rb_loop]; keeps. Qed.
#[export] Hint Resolve keeps_process_rb_loop : keeps.

Lemma keeps_schedule_loop fuel : keeps (schedule_loop fuel).
Proof.
  induction fuel as [|fuel IH]; cbn [schedule_loop]; unfold get_current_ref, get_idle_thread; keeps.
Qed.
#[export] Hint Resolve keeps_schedule_loop : keeps.

Lemma keeps_schedule cpu : keeps (schedule cpu).
Proof.
  unfold schedule, rb_check_signal, process_rb_queue, rb_queue_clear_signal, choose_and_switch,
    switch_to, get_current, set_current, set_idle_thread, switch_continuations. keeps.
Qed.

(** ** Waiting for an interrupt *)

Section Waiting.
Context (idles : list nat) (ti : nat).

Record winv (s : wst) (G : LS) (Ls : list (list nat)) : Prop := mkWI {
  wi_sched : sched_inv idles ti (wl s) G;
  wi_rep : wrep s Ls;
  wi_dis : disjoint_idles idles (concat Ls) }.

Lemma wrep_agree s s' Ls :
  wrep s Ls -> iwq s' = iwq s ->
  (forall t, next_iwq <$> threads (wl s') !! t = next_iwq <$> threads (wl s) !! t) -> wrep s' Ls.
Proof.
  intros [Hc Hl Hnd] Hq Hag. split; try done. rewrite Hq. eapply chains_agree; [|exact Hc]. auto.
Qed.

Lemma sys_recv_int_spec cpu q s G Ls l c :
  winv s G Ls -> cpu < MAX_CPUS -> Ls !! q = Some l -> current (wl s) = Some c ->
  (c ∉ idles) -> (c ∉ concat Ls) ->
  exists s' G', sys_recv_int cpu q s = Done (tt, s') /\ winv s' G' (<[q := c :: l]> Ls) /\
    owned ti (wl s') G' ≡ₚ owned ti (wl s) G /\ current (wl s') <> Some c.
Proof.
  intros [HI Hw Hd] Hcpu Hl Hc Hci Hcn.
  assert (Hq : q < MAX_INT) by (rewrite <- (wr_len _ _ Hw); by eapply lookup_lt_Some).
  destruct (si_cur _ _ _ _ HI) as (c' & Hc' & [tc Htc] & _). assert (c' = c) as -> by congruence.
  pose proof (si_wf _ _ _ _ HI _ _ Htc) as Hwt.
  set (s1 := mkW (set_threads (<[c := with_state Waiting tc]> (threads (wl s))) (wl s)) (iwq s)).
  assert (HI1 : sched_inv idles ti (wl s1) G).
  { apply (sched_inv_upd idles ti (wl s) G c tc (with_state Waiting)); [done|done|by destruct tc|].
    by apply wf_thread_state. }
  assert (Hw1 : wrep s1 Ls).
  { apply (wrep_agree s); [done|done|]. intros t. simpl.
    destruct (decide (t = c)) as [->|]; [|by rewrite lookup_insert_ne].
    rewrite lookup_insert_eq, Htc. by destruct tc. }
  destruct (add_interrupt_thread_spec q c (with_state Waiting tc) s1 Ls l Hw1 Hl) as (s2 & Hadd & Hw2 & Hl2);
    [apply lookup_insert_eq|done|].
  set (tc2 := with_next_iwq (head l) (with_state Waiting tc)) in *.
  assert (HI2 : sched_inv idles ti (wl s2) G).
  { rewrite Hl2. apply (sched_inv_upd idles ti (wl s1) G c (with_state Waiting tc) (with_next_iwq (head l)));
      [done|apply lookup_insert_eq|by destruct tc|].
    pose proof (wf_thread_state idles c tc Waiting Hwt Hci ltac:(done)) as (? & ? & ?).
    destruct tc. by split_and!. }
  destruct (schedule_spec idles ti cpu (wl s2) G HI2 Hcpu) as (l3 & G3 & Hsch & HI3 & How & _).
  exists (mkW l3 (iwq s2)), G3. split_and!.
  - unfold sys_recv_int. destruct (Nat.ltb_spec MAX_INT q); [lia|].
    assert (Hg : on_l get_current_ref s = Done (c, s)).
    { unfold on_l, get_current_ref. rewrite bind_gets, Hc. by destruct s. }
    mstep Hg. mstep (on_l_upd c tc (with_state Waiting) s Htc). mstep Hadd.
    by apply on_l_Done.
  - split; [done| |].
    + apply (wrep_agree s2); [done|done|]. intros t. simpl. by apply (keeps_schedule cpu _ _ _ Hsch).
    + intros t. rewrite concat_push_Permutation by done. intros [->|Ht]%elem_of_cons; auto.
  - rewrite How. unfold owned, running. by rewrite Hl2.
  - simpl. eapply (schedule_leaves idles ti cpu (wl s2) G c tc2); try done.
    + by rewrite Hl2.
    + rewrite Hl2. apply lookup_insert_eq.
    + unfold tc2. by destruct tc.
Qed.

Lemma signal_winv q s G Ls l :
  winv s G Ls -> Ls !! q = Some l ->
  exists s', signal_interrupt_threads q s = Done (tt, s') /\ winv s' G (<[q := []]> Ls) /\
    current (wl s') = current (wl s) /\
    (forall t, t ∈ l -> ready (threads (wl s')) t = true) /\
    (forall t, t ∉ l -> threads (wl s') !! t = threads (wl s) !! t).
Proof.
  intros [HI Hw Hd] Hl. destruct (signal_spec_full q s Ls l Hw Hl) as (s' & Hrun & Hw' & [m Hm] & Hin & Hout).
  assert (Hlm : forall t, t ∈ l -> t ∈ concat Ls).
  { intros t Ht. apply elem_of_concat. exists l. split; [done|]. by eapply list_elem_of_lookup_2. }
  assert (Hex : forall t, t ∈ l -> exists th, threads (wl s) !! t = Some th).
  { intros t Ht. eapply (chains_in _ _ _ _ t (wr_chains _ _ Hw)). auto. }
  rewrite Hm in *. simpl in *. exists s'. split_and!; try done; [split; [|done|]|by rewrite Hm| |].
  - rewrite Hm. apply sched_inv_threads; [done| |].
    + intros x. destruct (decide (x ∈ l)) as [Hx|Hx]; [|by rewrite Hout].
      destruct (Hex x Hx) as [th Hth]. rewrite (Hin x th Hx Hth), Hth. by destruct th.
    + intros x v Hv. destruct (decide (x ∈ l)) as [Hx|Hx].
      * destruct (Hex x Hx) as [th Hth]. rewrite (Hin x th Hx Hth) in Hv. simplify_eq.
        destruct (si_wf _ _ _ _ HI _ _ Hth) as (Hp & Ha & Hs). pose proof (Hd x (Hlm x Hx)) as Hxi.
        destruct th. split_and!; simpl in *; done.
      * rewrite Hout in Hv by done. by apply (si_wf _ _ _ _ HI).
  - pose proof (concat_insert_Permutation _ _ _ [] Hl) as Hp. simpl in Hp.
    intros t Ht. apply Hd. rewrite <- Hp. set_solver.
  - intros t Ht. destruct (Hex t Ht) as [th Hth]. unfold ready. rewrite Hm. simpl. rewrite (Hin t th Ht Hth).
    by destruct th.
  - by rewrite Hm.
Qed.

(** C34: A thread that waits for an interrupt is off the CPU in the waiting state
    of the vector's list, and the interrupt wakes it: after [sys_recv_int] and
    then [signal_interrupt_threads] on the same vector every thread of the list,
    the caller included, is ready to run; the list is empty and no thread is lost. *)
Theorem recv_then_signal_wakes cpu q s G Ls l c :
  winv s G Ls -> cpu < MAX_CPUS -> Ls !! q = Some l -> current (wl s) = Some c ->
  (c ∉ idles) -> (c ∉ concat Ls) ->
  exists s1 s2 G', sys_recv_int cpu q s = Done (tt, s1) /\ current (wl s1) <> Some c /\
    signal_interrupt_threads q s1 = Done (tt, s2) /\ winv s2 G' (<[q := []]> Ls) /\
    owned ti (wl s2) G' ≡ₚ owned ti (wl s) G /\
    (forall t, t ∈ c :: l -> ready (threads (wl s2)) t = true).
Proof.
  intros HW Hcpu Hl Hc Hci Hcn.
  destruct (sys_recv_int_spec cpu q s G Ls l c HW Hcpu Hl Hc Hci Hcn) as (s1 & G1 & Hrun1 & HW1 & How & Hne).
  destruct (signal_winv q s1 G1 (<[q := c :: l]> Ls) (c :: l) HW1) as (s2 & Hrun2 & HW2 & Hcur & Hall & _).
  { apply list_lookup_insert_eq. by eapply lookup_lt_Some. }
  rewrite list_insert_insert_eq in HW2. exists s1, s2, G1. split_and!; try done.
  rewrite <- How. unfold owned, running. by rewrite Hcur.
Qed.
End Waiting.

(** ** Condition variables *)

(** A condition variable with the scheduler state of the calling CPU; the
    vector is pushed and popped at its end. *)
Record cvst := mkCV { cv_l : lst; cv_threads : list nat }.

Definition on_cv {A} (m : M lst A) : M cvst A := fun s =>
  match m (cv_l s) with
  | Done (a, l) => Done (a, mkCV l (cv_threads s))
  | Panic => Panic
  | Hang => Hang
  end.

Definition condvar_sleep (cpu_id : nat) : M cvst unit :=
  t ← on_cv get_current_ref;
  _ ← modify (fun s => mkCV (cv_l s) (cv_threads s ++ [t]));
  t ← on_cv get_current_ref;
  on_cv (sleep cpu_id t).

Definition condvar_wakeup : M cvst unit :=
  ts ← gets cv_threads;
  match list.last ts with
  | Some t =>
      _ ← modify (fun s => mkCV (cv_l s) (take (length ts - 1) ts));
      on_cv (set_state t SysRunnable)
  | None => mret tt
  end.

Section CondVar.
Context (idles : list nat) (ti : nat).

Record cvinv (s : cvst) (G : LS) : Prop := mkCI {
  ci_sched : sched_inv idles ti (cv_l s) G;
  ci_wait : forall t, t ∈ cv_threads s -> (t ∉ idles) /\ is_Some (threads (cv_l s) !! t) }.

Lemma on_cv_Done {A} (m : M lst A) s a l :
  m (cv_l s) = Done (a, l) -> on_cv m s = Done (a, mkCV l (cv_threads s)).
Proof. unfold on_cv. by intros ->. Qed.

Lemma dom_schedule cpu s G s' :
  sched_inv idles ti s G -> schedule cpu s = Done (tt, s') ->
  forall t, is_Some (threads s !! t) -> is_Some (threads s' !! t).
Proof.
  intros HI Hrun t Ht. pose proof (keeps_schedule cpu _ _ _ Hrun t) as Hk.
  by destruct (threads s' !! t), (threads s !! t), Ht.
Qed.

Lemma condvar_sleep_spec cpu s G c :
  cvinv s G -> cpu < MAX_CPUS -> current (cv_l s) = Some c -> (c ∉ idles) ->
  exists s' G', condvar_sleep cpu s = Done (tt, s') /\ cvinv s' G' /\
    cv_threads s' = cv_threads s ++ [c] /\ current (cv_l s') <> Some c /\
    owned ti (cv_l s') G' ≡ₚ owned ti (cv_l s) G.
Proof.
  intros [HI Hwait] Hcpu Hc Hci.
  destruct (si_cur _ _ _ _ HI) as (c' & Hc' & [tc Htc] & _). assert (c' = c) as -> by congruence.
  set (l1 := set_threads (<[c := with_state Waiting tc]> (threads (cv_l s))) (cv_l s)).
  assert (HI1 : sched_inv idles ti l1 G).
  { apply (sched_inv_upd idles ti (cv_l s) G c tc (with_state Waiting)); [done|done|by destruct tc|].
    apply wf_thread_state; [by apply (si_wf _ _ _ _ HI)|done..]. }
  destruct (schedule_spec idles ti cpu l1 G HI1 Hcpu) as (l2 & G2 & Hsch & HI2 & How & _).
  assert (Hg : get_current_ref (cv_l s) = Done (c, cv_l s))
    by (unfold get_current_ref; by rewrite bind_gets, Hc).
  exists (mkCV l2 (cv_threads s ++ [c])), G2. split_and!; try done.
  - unfold condvar_sleep. mstep (on_cv_Done _ _ _ _ Hg). rewrite bind_modify.
    rewrite (bind_Done _ _ _ c (mkCV (cv_l s) (cv_threads s ++ [c]))) by (by apply on_cv_Done).
    apply on_cv_Done. unfold sleep, do_yield. by mstep (upd_thread_Done _ c tc (with_state Waiting) Htc).
  - assert (Hd : forall t, is_Some (threads (cv_l s) !! t) -> is_Some (threads l2 !! t)).
    { intros t Ht. eapply dom_schedule; [exact HI1|done|]. unfold l1. simpl.
      destruct (decide (t = c)) as [->|]; [by rewrite lookup_insert_eq|by rewrite lookup_insert_ne]. }
    split; [done|]. simpl. intros t [Ht| ->%list_elem_of_singleton]%elem_of_app.
    + destruct (Hwait t Ht). auto.
    + split; [done|]. by apply Hd; exists tc.
  - eapply (schedule_leaves idles ti cpu l1 G c (with_state Waiting tc)); try done;
      [apply lookup_insert_eq|by destruct tc].
Qed.

Lemma condvar_wakeup_spec s G ts t :
  cvinv s G -> cv_threads s = ts ++ [t] ->
  exists s', condvar_wakeup s = Done (tt, s') /\ cvinv s' G /\ cv_threads s' = ts /\
    ready (threads (cv_l s')) t = true /\
    (forall x, x <> t -> threads (cv_l s') !! x = threads (cv_l s) !! x).
Proof.
  intros [HI Hwait] Hts. destruct (Hwait t) as [Hti [th Ht]]; [rewrite Hts; set_solver|].
  set (l1 := set_threads (<[t := with_state Runnable th]> (threads (cv_l s))) (cv_l s)).
  exists (mkCV l1 ts). split_and!; try done.
  - unfold condvar_wakeup. rewrite bind_gets, Hts, list.last_snoc, bind_modify.
    rewrite length_app, Nat.add_sub, take_app_length.
    apply (on_cv_Done _ (mkCV (cv_l s) ts)). by apply upd_thread_Done.
  - split.
    + apply (sched_inv_upd idles ti (cv_l s) G t th (with_state Runnable)); [done|done|by destruct th|].
      apply wf_thread_state; [by apply (si_wf _ _ _ _ HI)|done..].
    + intros x Hx. destruct (Hwait x) as [Hxi Hxs]; [rewrite Hts; set_solver|]. split; [done|].
      simpl. destruct (decide (x = t)) as [->|]; [by rewrite lookup_insert_eq|by rewrite lookup_insert_ne].
  - unfold ready. simpl. rewrite lookup_insert_eq. by destruct th.
  - intros x Hx. simpl. by apply lookup_insert_ne.
Qed.

(** A condition variable loses no wakeup: the thread that calls [sleep] leaves
    the CPU, and the next [wakeup] makes exactly that thread ready (the sleepers
    are woken last in, first out), with the other sleepers still registered. *)
Theorem condvar_sleep_wakeup cpu s G c :
  cvinv s G -> cpu < MAX_CPUS -> current (cv_l s) = Some c -> (c ∉ idles) ->
  exists s1 s2 G', condvar_sleep cpu s = Done (tt, s1) /\ current (cv_l s1) <> Some c /\
    condvar_wakeup s1 = Done (tt, s2) /\ cvinv s2 G' /\ cv_threads s2 = cv_threads s /\
    ready (threads (cv_l s2)) c = true /\
    (forall x, x <> c -> threads (cv_l s2) !! x = threads (cv_l s1) !! x) /\
    owned ti (cv_l s1) G' ≡ₚ owned ti (cv_l s) G.
Proof.
  intros HC Hcpu Hc Hci.
  destruct (condvar_sleep_spec cpu s G c HC Hcpu Hc Hci) as (s1 & G1 & Hrun & HC1 & Hts & Hne & How).
  destruct (condvar_wakeup_spec s1 G1 (cv_threads s) c HC1 Hts) as (s2 & Hrun2 & HC2 & Hts2 & Hr & Ho).
  by exists s1, s2, G1.
Qed.
End CondVar.

(** *** Witnesses: the thread the first [schedule] picks waits *)

Definition ex_run : lst := match schedule 0 ex_lst with Done (_, s) => s | _ => ex_lst end.

Lemma ex_run_inv : exists G, sched_inv [0] 0 ex_run G.
Proof.
  destruct ex_lst_inv as [G HI].
  destruct (schedule_spec [0] 0 0 ex_lst G HI ltac:(unfold MAX_CPUS; lia)) as (s' & G' & Hrun & HI' & _).
  exists G'. unfold ex_run. by rewrite Hrun.
Qed.

Lemma recv_then_signal_wakes_witness : exists s1 s2,
  sys_recv_int 0 33 (mkW ex_run InterruptWaitQueues_new) = Done (tt, s1) /\
  current (wl s1) <> Some 2 /\
  signal_interrupt_threads 33 s1 = Done (tt, s2) /\ ready (threads (wl s2)) 2 = true.
Proof.
  destruct ex_run_inv as [G HI].
  assert (HW : winv [0] 0 (mkW ex_run InterruptWaitQueues_new) G (replicate MAX_INT [])).
  { split; [done| |rewrite concat_nils; set_solver].
    split; [apply Forall2_replicate; done|by rewrite length_replicate|rewrite concat_nils; constructor]. }
  destruct (recv_then_signal_wakes [0] 0 0 33 _ G (replicate MAX_INT []) [] 2 HW) as
    (s1 & s2 & G' & H1 & H2 & H3 & _ & _ & H4).
  - unfold MAX_CPUS. lia.
  - apply lookup_replicate. split; [done|]. unfold MAX_INT. lia.
  - by vm_compute.
  - set_solver.
  - rewrite concat_nils. set_solver.
  - exists s1, s2. exact (conj H1 (conj H2 (conj H3 (H4 2 (list_elem_of_here 2 []))))).
Defined.

Lemma condvar_sleep_wakeup_witness : exists s1 s2,
  condvar_sleep 0 (mkCV ex_run []) = Done (tt, s1) /\ condvar_wakeup s1 = Done (tt, s2) /\
  ready (threads (cv_l s2)) 2 = true.
Proof.
  destruct ex_run_inv as [G HI].
  assert (HC : cvinv [0] 0 (mkCV ex_run []) G) by (split; [done|set_solver]).
  destruct (condvar_sleep_wakeup [0] 0 0 _ G 2 HC) as (s1 & s2 & G' & H1 & _ & H2 & _ & _ & H3 & _).
  - unfold MAX_CPUS. lia.
  - by vm_compute.
  - set_solver.
  - exists s1, s2. exact (conj H1 (conj H2 H3)).
Defined.
