(* ===== verification/CircularBuffer.v ===== *)
(** * The kernel's circular buffer (kernel/src/cb.rs)

    The keyboard driver queues scan codes in it.  The buffer keeps one slot
    empty and wraps its indices with a bit mask, so it needs a size that is a
    power of two; the keyboard uses 256.  The model refines it to a bounded
    first-in first-out queue of [size - 1] elements. *)

From Stdlib Require Import ZArith Lia.
From stdpp Require Import base list.
From stdpp Require Import options.
From S2P Require Import Prelude.

Set Default Proof Using "Type".

Inductive CbError := QueueIsFull | QueueIsEmpty | InvalidAccess.

Record CircularBuffer (T : Type) := mkCb { buf : list T; head : nat; tail : nat; size : nat }.
Arguments mkCb {T}. Arguments buf {T}. Arguments head {T}. Arguments tail {T}. Arguments size {T}.

Definition INITIAL_CAPACITY : nat := 8.

Section Code.
Context {T : Type} (default : T).
Implicit Types b : CircularBuffer T.

(** [(i + 1) & (size - 1)] *)
Definition bump (b : CircularBuffer T) (i : nat) : nat := Nat.land (i + 1) (size b - 1).

Definition is_queue_full b : bool := bump b (tail b) =? head b.
Definition is_queue_empty b : bool := tail b =? head b.

Definition new_with_size (size : nat) : CircularBuffer T := mkCb (replicate size default) 0 0 size.
Definition cb_new : CircularBuffer T := new_with_size INITIAL_CAPACITY.

Definition push (b : CircularBuffer T) (val : T) : result CbError unit * CircularBuffer T :=
  if is_queue_full b then (Err QueueIsFull, b)
  else
    match buf b !! tail b with
    | Some _ => (Ok tt, mkCb (<[tail b := val]> (buf b)) (head b) (bump b (tail b)) (size b))
    | None => (Ok tt, b)
    end.

Definition pop (b : CircularBuffer T) : result CbError T * CircularBuffer T :=
  if is_queue_empty b then (Err QueueIsEmpty, b)
  else
    match buf b !! head b with
    | Some val => (Ok val, mkCb (buf b) (bump b (head b)) (tail b) (size b))
    | None => (Err InvalidAccess, b)
    end.
End Code.

(** ** Refinement to a queue *)

Section Queue.
Context {T : Type}.
Implicit Types (b : CircularBuffer T) (l : list T).

Record cb_inv b l : Prop := mkCbInv {
  ci_pow : exists k, size b = 2 ^ k /\ 0 < k;
  ci_len : length (buf b) = size b;
  ci_head : head b < size b;
  ci_short : length l < size b;
  ci_tail : tail b = (head b + length l) mod size b;
  ci_ring : ring (buf b) (head b) l }.

Lemma bump_mod b l i : cb_inv b l -> bump b i = (i + 1) mod size b.
Proof.
  intros H. destruct (ci_pow _ _ H) as (k & Hk & _). unfold bump. rewrite Hk.
  replace (2 ^ k - 1) with (Nat.ones k) by (by rewrite Nat.ones_equiv, Nat.sub_1_r).
  apply Nat.land_ones.
Qed.

Lemma full_iff b l : cb_inv b l -> is_queue_full b = true <-> length l = size b - 1.
Proof.
  intros H. unfold is_queue_full. rewrite (bump_mod b l) by done. destruct H as [_ _ Hh Hs Ht _].
  rewrite Nat.eqb_eq, Ht, Nat.Div0.add_mod_idemp_l. split; intros E.
  - destruct (decide (length l = size b - 1)) as [|Hne]; [done|].
    exfalso. apply (mod_slot_ne (size b) (head b) 0 (length l + 1)); [lia|].
    rewrite Nat.add_0_r, Nat.add_assoc, E. by apply Nat.mod_small.
  - replace (head b + length l + 1) with (head b + 1 * size b) by lia.
    rewrite Nat.Div0.mod_add. by apply Nat.mod_small.
Qed.

Lemma empty_iff b l : cb_inv b l -> is_queue_empty b = true <-> l = [].
Proof.
  intros [_ _ Hh Hs Ht _]. unfold is_queue_empty. rewrite Nat.eqb_eq, Ht. split.
  - intros E. destruct l as [|x l]; [done|]. exfalso.
    apply (mod_slot_ne (size b) (head b) 0 (length (x :: l))); [simpl in *; lia|].
    rewrite Nat.add_0_r, E. by apply Nat.mod_small.
  - intros ->. simpl. rewrite Nat.add_0_r. by apply Nat.mod_small.
Qed.

(** A new buffer of a power-of-two size is the empty queue. *)
Lemma cb_new_empty (d : T) k : 0 < k -> cb_inv (new_with_size d (2 ^ k)) [].
Proof.
  intros Hk. assert (0 < 2 ^ k) by (apply Nat.neq_0_lt_0, Nat.pow_nonzero; lia).
  split; simpl; [by eauto|by rewrite length_replicate|done|done|rewrite Nat.Div0.mod_0_l; lia|apply ring_nil].
Qed.

(** The circular buffer is a bounded first-in first-out queue: [push]
    appends and reports [QueueIsFull], changing nothing, exactly when [size - 1]
    elements are queued; [pop] returns the oldest element and reports
    [QueueIsEmpty] exactly on the empty queue; [InvalidAccess] never occurs. *)
Theorem cb_refines_queue b l v :
  cb_inv b l ->
  (exists b', push b v = (if length l =? size b - 1 then Err QueueIsFull else Ok tt, b') /\
     cb_inv b' (if length l =? size b - 1 then l else l ++ [v])) /\
  match l with
  | [] => pop b = (Err QueueIsEmpty, b)
  | x :: l' => exists b', pop b = (Ok x, b') /\ cb_inv b' l'
  end.
Proof.
  intros H. pose proof (full_iff b l H) as Hf. pose proof (empty_iff b l H) as He.
  pose proof (bump_mod b l) as Hb. specialize (fun i => Hb i H).
  pose proof H as [(k & Hk & Hk0) Hlen Hh Hs Ht Hr].
  assert (Hz : size b <> 0) by lia. split.
  - unfold push. destruct (Nat.eqb_spec (length l) (size b - 1)) as [E|E].
    + rewrite (proj2 Hf E). by exists b.
    + destruct (is_queue_full b); [tauto|].
      destruct (lookup_lt_is_Some_2 (buf b) (tail b)) as [y Hy].
      { rewrite Hlen, Ht. by apply Nat.mod_upper_bound. }
      rewrite Hy. eexists. split; [done|]. split; simpl; try done.
      * eauto.
      * by rewrite length_insert.
      * rewrite length_app. simpl. lia.
      * rewrite Hb, Ht, length_app. simpl. by rewrite Nat.Div0.add_mod_idemp_l, Nat.add_assoc.
      * rewrite Ht, <- Hlen. apply ring_push; [lia|done].
  - unfold pop. destruct l as [|x l].
    + by rewrite (proj2 He eq_refl).
    + destruct (is_queue_empty b); [naive_solver|].
      pose proof (ring_head _ _ _ _ Hr) as Hx. rewrite Hlen, Nat.mod_small in Hx by done.
      rewrite Hx. eexists. split; [done|]. split; simpl; try done.
      * eauto.
      * rewrite Hb. by apply Nat.mod_upper_bound.
      * simpl in Hs. lia.
      * rewrite Hb, Ht, Nat.Div0.add_mod_idemp_l. f_equal. simpl. lia.
      * rewrite Hb, <- Hlen, ring_mod, Nat.add_1_r. by eapply ring_tail.
Qed.
End Queue.

Lemma cb_refines_queue_witness : exists b',
  pop (snd (push (new_with_size 0 (2 ^ 3)) 7)) = (Ok 7, b') /\ cb_inv b' [].
Proof.
  assert (H : cb_inv (snd (push (new_with_size 0 (2 ^ 3)) 7)) [7]).
  { split; simpl; try done; [by exists 3; split; [|lia]|lia|lia|].
    intros i x Hi. by apply list_lookup_singleton_Some in Hi as [-> <-]. }
  exact (proj2 (cb_refines_queue _ [7] 0 H)).
Defined.
