(* ===== verification/SharedHeap.v ===== *)
(** * The shared heap (kernel/src/heap.rs, kernel/src/dropper.rs) and remote
    references (interface/src/rref: rref.rs, owned.rs, traits.rs)

    Every object on the shared heap is an allocation of three blocks: the
    value, the id of the owning domain and a borrow count.  The kernel keeps
    all of them in a table keyed by the address of the value.  The model holds
    the table, the [u64] cells, the values as trees (the code stores them as
    typed Rust data and finds the cleanup function by a type id), and the list
    of blocks returned to the memory provider.

    The memory provider is the kernel's global allocator: [alloc_heap] takes the three fresh
    addresses it returned as arguments.  The table of registered types
    ([DropMap]) is generated by the build: [has_type] is a parameter.  The order in which
    [HashMap::retain] visits the table is unspecified: [iter] is a parameter
    that lists the table in some order.

    Cleanup is recursive through the heap; it runs on fuel, the number of
    allocations in the table, and every nested call removes an allocation. *)

From Stdlib Require Import ZArith Lia.
From stdpp Require Import base gmap list sorting.
From stdpp Require Import options.
From S2P Require Import Prelude.

Set Default Proof Using "Type".

(** ** Data *)

(** [RRef<T>] *)
Record RRef := mkRRef {
  rr_domain_id_pointer : Z; rr_borrow_count_pointer : Z; rr_value_pointer : Z }.

Global Instance RRef_eq_dec : EqDecision RRef.
Proof. solve_decision. Defined.

(** A value on the shared heap, as the implementations of [CustomCleanup] see it:
    an [RRef], an [Option], an array, or a type that has only the default
    cleanup (scalars, and structures such as [Owned] even when they hold references). *)
#[warnings="-register-all"]
Inductive val :=
  | VScalar (n : Z)
  | VRRef (r : RRef)
  | VOption (o : option val)
  | VArray (vs : list val)
  | VOwned (o : option RRef).

(** [SharedHeapAllocation] *)
Record Allocation := mkAlloc {
  value_pointer : Z;
  domain_id_pointer : Z;
  borrow_count_pointer : Z;
  layout : Z * Z;
  type_id : Z }.

Record hst := mkH {
  allocations : gmap Z Allocation;
  u64s : gmap Z Z;
  values : gmap Z val;
  freed : list Z }.

Definition set_allocations (m : gmap Z Allocation) (s : hst) : hst :=
  mkH m (u64s s) (values s) (freed s).
Definition set_u64s (m : gmap Z Z) (s : hst) : hst := mkH (allocations s) m (values s) (freed s).
Definition set_values (m : gmap Z val) (s : hst) : hst := mkH (allocations s) (u64s s) m (freed s).

(** Memory accesses: reading a cell that holds nothing does not return. *)
Definition read_u64 (p : Z) : M hst Z := s ← get; lift (expect (u64s s !! p)).
Definition write_u64 (p v : Z) : M hst unit := modify (fun s => set_u64s (<[p := v]> (u64s s)) s).
Definition read_val (p : Z) : M hst val := s ← get; lift (expect (values s !! p)).
Definition write_val (p : Z) (v : val) : M hst unit :=
  modify (fun s => set_values (<[p := v]> (values s)) s).

(** [MEM_PROVIDER.dealloc] *)
Definition mem_dealloc (p : Z) : M hst unit :=
  modify (fun s => mkH (allocations s) (u64s s) (values s) (freed s ++ [p])).

(** ** The table of allocations *)

Section Heap.
Context (has_type : Z -> bool) (iter : gmap Z Allocation -> list (Z * Allocation)).

(** The addresses [dp], [bp] and [vp] are what the memory provider returned. *)
Definition alloc_heap (l : Z * Z) (tid dp bp vp : Z) : M hst (option Allocation) :=
  if negb (has_type tid) then mret None
  else
    let a := mkAlloc vp dp bp l tid in
    _ ← modify (fun s => set_allocations (<[vp := a]> (allocations s)) s);
    mret (Some a).

Definition free_allocation (a : Allocation) : M hst unit :=
  _ ← mem_dealloc (value_pointer a);
  _ ← mem_dealloc (domain_id_pointer a);
  mem_dealloc (borrow_count_pointer a).

(** [CustomCleanup::cleanup], with the deallocation of an [RRef] as an argument. *)
Fixpoint cleanup (dealloc : Z -> M hst unit) (v : val) : M hst unit :=
  match v with
  | VScalar _ => mret tt
  | VRRef r => dealloc (rr_value_pointer r)
  | VOption None => mret tt
  | VOption (Some v) => cleanup dealloc v
  | VArray vs =>
      (fix go vs := match vs with
                    | [] => mret tt
                    | v :: vs => _ ← cleanup dealloc v; go vs
                    end) vs
  | VOwned _ => mret tt
  end.

(** [DROPPER.drop]: does nothing for a type that is not registered. *)
Definition Dropper_drop (dealloc : Z -> M hst unit) (tid ptr : Z) : M hst unit :=
  if has_type tid then v ← read_val ptr; cleanup dealloc v else mret tt.

Fixpoint dealloc_heap (fuel : nat) (ptr : Z) : M hst unit :=
  match fuel with
  | O => hang
  | S fuel =>
      s ← get;
      match allocations s !! ptr with
      | None => mret tt
      | Some a =>
          _ ← modify (set_allocations (delete ptr (allocations s)));
          _ ← Dropper_drop (dealloc_heap fuel) (type_id a) (value_pointer a);
          free_allocation a
      end
  end.

Definition fuel_of (s : hst) : nat := S (map_size (allocations s)).

(** [PHeap::dealloc], which is also [RRef::drop]. *)
Definition dealloc (ptr : Z) : M hst unit := s ← get; dealloc_heap (fuel_of s) ptr.

(** The closure passed to [retain]: which allocations stay. *)
Fixpoint retain_queue (s : hst) (domain_id : Z) (l : list (Z * Allocation)) :
    outcome (list Allocation) :=
  match l with
  | [] => Done []
  | (_, a) :: l =>
      match u64s s !! domain_id_pointer a with
      | None => Panic
      | Some d =>
          match retain_queue s domain_id l with
          | Done q => Done (if (d =? domain_id)%Z then a :: q else q)
          | Panic => Panic
          | Hang => Hang
          end
      end
  end.

Definition belongs (s : hst) (domain_id : Z) (pa : Z * Allocation) : Prop :=
  u64s s !! domain_id_pointer pa.2 = Some domain_id.

Global Instance belongs_dec s d pa : Decision (belongs s d pa).
Proof. unfold belongs. apply _. Defined.

Fixpoint drop_queue (fuel : nat) (q : list Allocation) : M hst unit :=
  match q with
  | [] => mret tt
  | a :: q =>
      _ ← Dropper_drop (dealloc_heap fuel) (type_id a) (value_pointer a);
      _ ← free_allocation a;
      drop_queue fuel q
  end.

Definition drop_domain (domain_id : Z) : M hst unit :=
  s ← get;
  q ← lift (retain_queue s domain_id (iter (allocations s)));
  _ ← modify (set_allocations (filter (fun pa => ~ belongs s domain_id pa) (allocations s)));
  drop_queue (fuel_of s) q.

(** ** [RRef] (the domain of the running crate is [me]) *)

Definition RRef_new_with_layout (me : Z) (value : val) (l : Z * Z) (tid dp bp vp : Z) : M hst RRef :=
  oa ← alloc_heap l tid dp bp vp;
  match oa with
  | Some a =>
      _ ← write_u64 (domain_id_pointer a) me;
      _ ← write_u64 (borrow_count_pointer a) 0;
      _ ← write_val (value_pointer a) value;
      mret (mkRRef (domain_id_pointer a) (borrow_count_pointer a) (value_pointer a))
  | None => panic
  end.

Definition borrow `{Profile} (r : RRef) : M hst unit :=
  n ← read_u64 (rr_borrow_count_pointer r);
  n' ← lift (uadd 64 n 1);
  write_u64 (rr_borrow_count_pointer r) n'.

(** [debug_assert_ne!] is checked in the profile that checks overflow. *)
Definition forfeit `{Profile} (r : RRef) : M hst unit :=
  n ← read_u64 (rr_borrow_count_pointer r);
  _ ← assert (negb (overflow_checks && (n =? 0)%Z));
  n' ← lift (usub 64 n 1);
  write_u64 (rr_borrow_count_pointer r) n'.

Definition borrow_count (r : RRef) : M hst Z := read_u64 (rr_borrow_count_pointer r).
Definition domain_id (r : RRef) : M hst Z := read_u64 (rr_domain_id_pointer r).
Definition move_to (r : RRef) (new_domain_id : Z) : M hst unit :=
  write_u64 (rr_domain_id_pointer r) new_domain_id.
Definition move_to_current (me : Z) (r : RRef) : M hst unit := move_to r me.
Definition deref (r : RRef) : M hst val := read_val (rr_value_pointer r).
Definition deref_mut (r : RRef) (v : val) : M hst unit := write_val (rr_value_pointer r) v.
Definition RRef_drop (r : RRef) : M hst unit := dealloc (rr_value_pointer r).

(** ** [Owned]: the field is passed in and the new field returned. *)

Definition Owned_take (me : Z) (o : option RRef) : M hst (option RRef * option RRef) :=
  match o with
  | None => mret (None, None)
  | Some r => _ ← move_to_current me r; mret (Some r, None)
  end.

(** Returns the previous reference and the new field. *)
Definition Owned_replace (me : Z) (o : option RRef) (r : RRef) : M hst (option RRef * option RRef) :=
  _ ← move_to r 0;
  t ← Owned_take me o;
  match t with
  | (None, o') => mret (o', Some r)
  | (Some other, _) => mret (Some other, Some r)
  end.

Definition Owned_new (me : Z) (r : RRef) : M hst (option RRef) :=
  t ← Owned_replace me None r; mret (snd t).

(** ** Cleanup as a walk over references *)

(** The references that cleanup visits, in its order: it does not look into an [Owned]. *)
Fixpoint cleaned_refs (v : val) : list Z :=
  match v with
  | VRRef r => [rr_value_pointer r]
  | VOption (Some v) => cleaned_refs v
  | VArray vs => concat (map cleaned_refs vs)
  | _ => []
  end.

Fixpoint deallocs (d : Z -> M hst unit) (l : list Z) : M hst unit :=
  match l with
  | [] => mret tt
  | p :: l => _ ← d p; deallocs d l
  end.

Lemma deallocs_app d l1 l2 s :
  deallocs d (l1 ++ l2) s = (_ ← deallocs d l1; deallocs d l2) s.
Proof.
  revert s. induction l1 as [|p l1 IH]; intros s; simpl; [done|].
  rewrite bind_assoc. unfold mbind, M_bind. destruct (d p s) as [[[] s1]| |]; [|done..]. apply IH.
Qed.

Lemma cleanup_deallocs d : forall v s, cleanup d v s = deallocs d (cleaned_refs v) s.
Proof.
  fix IH 1. intros [n|r|[v|]|vs|o] s; simpl; [reflexivity| |apply IH|reflexivity| |reflexivity].
  - unfold mbind, M_bind. by destruct (d (rr_value_pointer r) s) as [[[] s1]| |].
  - revert s. induction vs as [|v vs IHvs]; intros s; simpl; [done|].
    rewrite deallocs_app. unfold mbind, M_bind. rewrite (IH v s).
    destruct (deallocs d (cleaned_refs v) s) as [[[] s1]| |]; [|done..]. apply IHvs.
Qed.

Definition blocks (a : Allocation) : list Z :=
  [value_pointer a; domain_id_pointer a; borrow_count_pointer a].

(** A well-formed heap: the table is keyed by the value, every block of every
    allocation is there, and no block is used twice. *)
Record hinv (s : hst) : Prop := mkHI {
  hi_key : forall p a, allocations s !! p = Some a ->
    value_pointer a = p /\ is_Some (values s !! p) /\ is_Some (u64s s !! domain_id_pointer a) /\
    is_Some (u64s s !! borrow_count_pointer a);
  hi_nodup : NoDup (concat (blocks ∘ snd <$> map_to_list (allocations s))) }.

(** The references that cleanup visits in the registered value at [p]. *)
Definition children (s : hst) (p : Z) : list Z :=
  match allocations s !! p with
  | Some a => if has_type (type_id a)
              then match values s !! p with Some v => cleaned_refs v | None => [] end else []
  | None => []
  end.

(** The blocks of removed table entries. *)
Definition all_blocks (rm : list (Z * Allocation)) : list Z := concat (blocks ∘ snd <$> rm).

(** Reachable by the references that cleanup visits. *)
Inductive reach (s : hst) : Z -> Z -> Prop :=
  | reach_refl p : reach s p p
  | reach_step p q r : q ∈ children s p -> reach s q r -> reach s p r.

(** Every reference in a value, the one inside an [Owned] too, and what is reachable by them. *)
Fixpoint holds (v : val) : list Z :=
  match v with
  | VRRef r => [rr_value_pointer r]
  | VOption (Some v) => holds v
  | VArray vs => concat (map holds vs)
  | VOwned (Some r) => [rr_value_pointer r]
  | _ => []
  end.
Definition held_refs (s : hst) (p : Z) : list Z :=
  match allocations s !! p, values s !! p with Some _, Some v => holds v | _, _ => [] end.
Inductive reaches (s : hst) : Z -> Z -> Prop :=
  | reaches_refl p : reaches s p p
  | reaches_step p q r : q ∈ held_refs s p -> reaches s q r -> reaches s p r.

(** Where cleanup visits every reference, the two agree. *)
Lemma reaches_reach s p q : reaches s p q -> (forall x, reaches s p x -> held_refs s x = children s x) -> reach s p q.
Proof.
  induction 1 as [p|p q r Hq _ IH]; intros Hv; [constructor|]. econstructor.
  - rewrite <- Hv; [exact Hq|constructor].
  - apply IH. intros x Hx. apply Hv. by econstructor.
Qed.

(** From [s] to [s'] exactly the allocations [rm] went away: all of them are
    reachable from [roots], and nothing that they referred to is left. *)
Record gone (roots : list Z) (s s' : hst) (rm : list (Z * Allocation)) : Prop := mkGone {
  go_table : map_to_list (allocations s) ≡ₚ rm ++ map_to_list (allocations s');
  go_u64s : u64s s' = u64s s;
  go_values : values s' = values s;
  go_closed : forall pa q, pa ∈ rm -> q ∈ children s pa.1 -> allocations s' !! q = None;
  go_reach : forall pa, pa ∈ rm -> exists r, r ∈ roots /\ reach s r pa.1 }.

Section Gone.
Context (roots : list Z) (s s' : hst) (rm : list (Z * Allocation)) (HG : gone roots s s' rm).

Lemma gone_old p a : allocations s' !! p = Some a -> allocations s !! p = Some a.
Proof using HG.
  rewrite <- !elem_of_map_to_list, (go_table _ _ _ _ HG). set_solver.
Qed.

Lemma gone_in p a : (p, a) ∈ rm -> allocations s !! p = Some a /\ allocations s' !! p = None.
Proof using HG.
  intros Hin. split.
  - apply elem_of_map_to_list. rewrite (go_table _ _ _ _ HG). set_solver.
  - destruct (allocations s' !! p) as [b|] eqn:E; [|done]. exfalso.
    pose proof (NoDup_fst_map_to_list (allocations s)) as Hnd.
    rewrite (go_table _ _ _ _ HG), fmap_app, list.NoDup_app in Hnd. destruct Hnd as (_ & Hd & _).
    apply (Hd p); apply list_elem_of_fmap; [by exists (p, a)|].
    exists (p, b). split; [done|]. by apply elem_of_map_to_list.
Qed.

Lemma gone_out p a : allocations s !! p = Some a -> allocations s' !! p = None -> (p, a) ∈ rm.
Proof using HG.
  rewrite <- elem_of_map_to_list, (go_table _ _ _ _ HG), elem_of_app, elem_of_map_to_list.
  intros [?|E]; [done|congruence].
Qed.

Lemma gone_children p a : allocations s' !! p = Some a -> children s' p = children s p.
Proof using HG.
  intros H. unfold children. by rewrite H, (gone_old p a H), (go_values _ _ _ _ HG).
Qed.

Lemma gone_children_sub p q : q ∈ children s' p -> q ∈ children s p.
Proof using HG.
  destruct (allocations s' !! p) as [a|] eqn:E; [by rewrite (gone_children p a)|].
  unfold children at 1. rewrite E. set_solver.
Qed.

Lemma gone_reach p q : reach s' p q -> reach s p q.
Proof using HG. induction 1; [constructor|]. econstructor; [|done]. by apply gone_children_sub. Qed.

Lemma gone_hinv : hinv s -> hinv s'.
Proof using HG.
  intros [Hk Hnd]. split.
  - intros p a H. rewrite (go_values _ _ _ _ HG), (go_u64s _ _ _ _ HG). by apply Hk, gone_old.
  - rewrite (go_table _ _ _ _ HG), fmap_app, concat_app, list.NoDup_app in Hnd. tauto.
Qed.

Lemma gone_size : map_size (allocations s') <= map_size (allocations s).
Proof using HG.
  change (base.size (allocations s') <= base.size (allocations s)).
  rewrite <- !length_map_to_list, (go_table _ _ _ _ HG), length_app. lia.
Qed.

(** Everything reachable from what went away went away too. *)
Lemma gone_closure p q :
  reach s p q -> allocations s' !! p = None -> allocations s !! q <> None -> allocations s' !! q = None.
Proof using HG.
  induction 1 as [p|p q r Hq _ IH]; [done|]. intros Hp Hr. apply IH; [|done].
  unfold children in Hq. destruct (allocations s !! p) as [a|] eqn:E; [|set_solver].
  apply (go_closed _ _ _ _ HG (p, a)); [by apply gone_out|]. unfold children. simpl. by rewrite E.
Qed.
End Gone.

Lemma gone_refl roots s : gone roots s s [].
Proof. split; try done; set_solver. Qed.

Lemma gone_trans R1 R2 s s1 s2 rm1 rm2 :
  gone R1 s s1 rm1 -> gone R2 s1 s2 rm2 -> gone (R1 ++ R2) s s2 (rm1 ++ rm2).
Proof.
  intros H1 H2. pose proof H1 as [a1 c1 d1 e1 f1]. pose proof H2 as [a2 c2 d2 e2 f2].
  split; [by rewrite a1, a2, app_assoc|congruence|congruence| |].
  - intros [p a] q [Hin|Hin]%elem_of_app Hq; simpl in *.
    + destruct (allocations s2 !! q) as [b|] eqn:E; [|done].
      pose proof (gone_old _ _ _ _ H2 q b E). pose proof (e1 _ _ Hin Hq). congruence.
    + destruct (gone_in _ _ _ _ H2 p a Hin) as [Hp _].
      apply (e2 (p, a)); [done|]. simpl. by rewrite (gone_children _ _ _ _ H1 p a Hp).
  - intros pa [Hin|Hin]%elem_of_app.
    + destruct (f1 _ Hin) as (r & ? & ?). exists r. set_solver.
    + destruct (f2 _ Hin) as (r & ? & ?). exists r. split; [set_solver|]. by apply (gone_reach _ _ _ _ H1).
Qed.

Lemma gone_weaken R R' s s' rm : R ⊆ R' -> gone R s s' rm -> gone R' s s' rm.
Proof.
  intros HR [a c d e f]. split; try done. intros pa Hin. destruct (f pa Hin) as (r & ? & ?). eauto.
Qed.

Lemma all_blocks_app l1 l2 : all_blocks (l1 ++ l2) = all_blocks l1 ++ all_blocks l2.
Proof. unfold all_blocks. by rewrite fmap_app, concat_app. Qed.

Definition dealloc_ok (d : Z -> M hst unit) (n : nat) : Prop := forall p s,
  hinv s -> map_size (allocations s) < n ->
  exists s' rm, d p s = Done (tt, s') /\ gone [p] s s' rm /\
    freed s' ≡ₚ freed s ++ all_blocks rm /\ allocations s' !! p = None.

Lemma deallocs_spec d n l s :
  dealloc_ok d n -> hinv s -> map_size (allocations s) < n ->
  exists s' rm, deallocs d l s = Done (tt, s') /\ gone l s s' rm /\
    freed s' ≡ₚ freed s ++ all_blocks rm /\ forall q, q ∈ l -> allocations s' !! q = None.
Proof.
  intros Hd. revert s. induction l as [|p l IH]; intros s H Hn; simpl.
  { exists s, []. split_and!; [done|apply gone_refl|by rewrite app_nil_r|set_solver]. }
  destruct (Hd p s H Hn) as (s1 & rm1 & Hrun & HG1 & Hf1 & Hp). mstep Hrun.
  pose proof (gone_size _ _ _ _ HG1). destruct (IH s1) as (s2 & rm2 & Hrun2 & HG2 & Hf2 & Hl);
    [by eapply gone_hinv|lia|].
  exists s2, (rm1 ++ rm2). split_and!; [done|by apply (gone_trans [p] l _ s1)| |].
  - by rewrite Hf2, Hf1, all_blocks_app, app_assoc.
  - intros q [->|Hq]%elem_of_cons; [|by apply Hl].
    destruct (allocations s2 !! p) as [a|] eqn:E; [|done]. apply (gone_old _ _ _ _ HG2) in E. congruence.
Qed.

Lemma free_allocation_eq a s :
  free_allocation a s = Done (tt, mkH (allocations s) (u64s s) (values s) (freed s ++ blocks a)).
Proof. unfold free_allocation, mem_dealloc. mrun. unfold modify. simpl. by rewrite <- !app_assoc. Qed.

(** The references of an allocation with value [v]. *)
Definition held (a : Allocation) (v : val) : list Z := if has_type (type_id a) then cleaned_refs v else [].

(** Dropping the contents of an allocation that is no longer in the table. *)
Lemma drop_contents_spec d n a s v :
  dealloc_ok d n -> hinv s -> map_size (allocations s) < n -> values s !! value_pointer a = Some v ->
  exists s' rm, (_ ← Dropper_drop d (type_id a) (value_pointer a); free_allocation a) s = Done (tt, s') /\
    gone (held a v) s s' rm /\ freed s' ≡ₚ freed s ++ blocks a ++ all_blocks rm /\
    forall q, q ∈ held a v -> allocations s' !! q = None.
Proof.
  intros Hd H Hn Hv.
  destruct (deallocs_spec d n (held a v) s Hd H Hn) as (s1 & rm & Hrun & HG & Hf & Hl).
  exists (mkH (allocations s1) (u64s s1) (values s1) (freed s1 ++ blocks a)), rm.
  split; [|split; [|split; [|done]]].
  - assert (E : Dropper_drop d (type_id a) (value_pointer a) s = Done (tt, s1)).
    { unfold Dropper_drop, read_val. unfold held in Hrun. destruct (has_type (type_id a)); [|exact Hrun].
      rewrite bind_assoc, bind_get, Hv. simpl. rewrite bind_lift. by rewrite cleanup_deallocs. }
    mstep E. apply free_allocation_eq.
  - by destruct HG.
  - simpl. rewrite Hf. solve_Permutation.
Qed.

Lemma children_held s p a v :
  allocations s !! p = Some a -> values s !! p = Some v -> children s p = held a v.
Proof. intros Ha Hv. unfold children, held. by rewrite Ha, Hv. Qed.

(** The table after one entry is taken out. *)
Lemma gone_root s s' p a v rm :
  allocations s !! p = Some a -> values s !! p = Some v ->
  gone (held a v) (set_allocations (delete p (allocations s)) s) s' rm ->
  (forall q, q ∈ held a v -> allocations s' !! q = None) ->
  gone [p] s s' ((p, a) :: rm).
Proof.
  intros Ha Hv HG Hl. set (s1 := set_allocations _ s) in *. pose proof (children_held s p a v Ha Hv) as Hch.
  assert (Hsub : forall q b, allocations s1 !! q = Some b -> children s1 q = children s q).
  { intros q b Hq. unfold children. simpl in *. rewrite Hq. apply lookup_delete_Some in Hq as [_ ->]. done. }
  assert (Hre : forall q r, reach s1 q r -> reach s q r).
  { induction 1 as [|q r t Hr _ IH]; [constructor|]. econstructor; [|done].
    destruct (allocations s1 !! q) as [b|] eqn:E; [by rewrite <- (Hsub q b)|].
    unfold children in Hr. rewrite E in Hr. set_solver. }
  pose proof HG as [g1 g2 g3 g4 g5]. split; try done.
  - simpl. rewrite <- g1. simpl. by rewrite (map_to_list_delete _ _ _ Ha).
  - intros pa q [->|Hin]%elem_of_cons Hq; simpl in *; [by rewrite Hch in Hq; apply Hl|].
    destruct pa as [x b]. destruct (gone_in _ _ _ _ HG x b Hin) as [Hx _].
    apply (g4 (x, b)); [done|]. simpl in *. by rewrite (Hsub x b).
  - intros pa [->|Hin]%elem_of_cons; [exists p; split; [set_solver|constructor]|].
    destruct (g5 pa Hin) as (r & Hr & Hre1). exists p. split; [set_solver|].
    econstructor; [by rewrite Hch|]. by apply Hre.
Qed.

Lemma dealloc_heap_ok n : dealloc_ok (dealloc_heap n) n.
Proof.
  induction n as [|n IH]; intros p s H Hn; [lia|]. cbn [dealloc_heap]. rewrite bind_get.
  destruct (allocations s !! p) as [a|] eqn:Ha.
  2:{ exists s, []. split_and!; [done|apply gone_refl|by rewrite app_nil_r|done]. }
  destruct (hi_key _ H p a Ha) as (Hvp & [v Hv] & _). rewrite bind_modify.
  set (s1 := set_allocations (delete p (allocations s)) s).
  assert (H1 : hinv s1).
  { destruct H as [Hk Hnd]. split.
    - intros q b Hq. simpl in Hq. apply lookup_delete_Some in Hq as [_ Hq]. by apply Hk.
    - rewrite <- (map_to_list_delete _ _ _ Ha) in Hnd. simpl in Hnd.
      by apply NoDup_cons_1_2, NoDup_cons_1_2, NoDup_cons_1_2 in Hnd. }
  destruct (drop_contents_spec _ n a s1 v IH H1) as (s' & rm & Hrun & HG & Hf & Hl).
  { change (base.size (allocations s) < S n) in Hn. change (base.size (delete p (allocations s)) < n).
    rewrite <- length_map_to_list in Hn |- *. rewrite <- (map_to_list_delete _ _ _ Ha) in Hn.
    simpl in Hn. lia. }
  { simpl. by rewrite Hvp. }
  exists s', ((p, a) :: rm). split_and!; [done|by eapply gone_root|by rewrite Hf|].
  destruct (allocations s' !! p) as [b|] eqn:E; [|done].
  apply (gone_old _ _ _ _ HG) in E. simpl in E. by rewrite lookup_delete_eq in E.
Qed.

(** ** A domain dies *)

Definition held_at (s : hst) (a : Allocation) : list Z :=
  match values s !! value_pointer a with Some v => held a v | None => [] end.

Lemma drop_queue_spec n q s :
  hinv s -> map_size (allocations s) < n -> (forall a, a ∈ q -> is_Some (values s !! value_pointer a)) ->
  exists s' rm, drop_queue n q s = Done (tt, s') /\ gone (concat (map (held_at s) q)) s s' rm /\
    freed s' ≡ₚ freed s ++ concat (map blocks q) ++ all_blocks rm /\
    (forall a x, a ∈ q -> x ∈ held_at s a -> allocations s' !! x = None).
Proof.
  revert s. induction q as [|a q IH]; intros s H Hn Hv; cbn [drop_queue].
  { exists s, []. split_and!; [done|apply gone_refl|by rewrite app_nil_r|set_solver]. }
  destruct (Hv a) as [v Hva]; [set_solver|].
  destruct (drop_contents_spec _ n a s v (dealloc_heap_ok n) H Hn Hva) as (s1 & rm1 & Hrun & HG1 & Hf1 & Hl1).
  assert (E1 : held_at s a = held a v) by (unfold held_at; by rewrite Hva).
  assert (E2 : held_at s1 = held_at s) by (unfold held_at; by rewrite (go_values _ _ _ _ HG1)).
  pose proof (gone_size _ _ _ _ HG1).
  destruct (IH s1) as (s2 & rm2 & Hrun2 & HG2 & Hf2 & Hl2); [by eapply gone_hinv|lia| |].
  { intros b Hb. rewrite (go_values _ _ _ _ HG1). apply Hv. set_solver. }
  rewrite E2 in *. exists s2, (rm1 ++ rm2). split_and!.
  - rewrite <- bind_assoc. by mstep Hrun.
  - simpl. rewrite E1. by apply (gone_trans _ _ _ s1).
  - rewrite Hf2, Hf1, all_blocks_app. simpl. solve_Permutation.
  - intros b x [->|Hb]%elem_of_cons Hx; [|by eapply Hl2].
    destruct (allocations s2 !! x) as [c|] eqn:E; [|done]. apply (gone_old _ _ _ _ HG2) in E.
    rewrite E1 in Hx. rewrite Hl1 in E; done.
Qed.

Lemma retain_queue_spec s d l :
  (forall pa, pa ∈ l -> is_Some (u64s s !! domain_id_pointer pa.2)) ->
  retain_queue s d l = Done (snd <$> filter (belongs s d) l).
Proof.
  clear has_type iter. induction l as [|[p a] l IH]; intros H; simpl; [done|].
  destruct (H (p, a)) as [x Hx]; [set_solver|]. simpl in Hx. rewrite Hx, IH by set_solver.
  destruct (Z.eqb_spec x d) as [->|Hne].
  - rewrite filter_cons_True by done. done.
  - rewrite filter_cons_False; [done|]. unfold belongs. simpl. rewrite Hx. intros [= ->]. done.
Qed.

Lemma held_at_children s p a : hinv s -> allocations s !! p = Some a -> held_at s a = children s p.
Proof.
  intros H Ha. destruct (hi_key _ H p a Ha) as (Hp & [v Hv] & _).
  unfold held_at. rewrite Hp, Hv. symmetry. by apply children_held.
Qed.

(** The table split into what belongs to the domain and the rest. *)
Lemma table_split s d :
  map_to_list (allocations s) ≡ₚ filter (belongs s d) (map_to_list (allocations s)) ++
    map_to_list (filter (fun pa => ~ belongs s d pa) (allocations s)).
Proof.
  rewrite map_filter_alt, map_to_list_to_map; [by rewrite list.filter_app_complement|].
  eapply sublist_NoDup; [apply (NoDup_fst_map_to_list (allocations s))|]. apply fmap_sublist, sublist_filter.
Qed.

Section DropDomain.
Context (iter_perm : forall m, iter m ≡ₚ map_to_list m).
Context (d : Z) (s : hst) (H : hinv s).

Let Q : list (Z * Allocation) := filter (belongs s d) (iter (allocations s)).
Let s1 : hst := set_allocations (filter (fun pa => ~ belongs s d pa) (allocations s)) s.

Lemma Q_in p a : (p, a) ∈ Q <-> allocations s !! p = Some a /\ belongs s d (p, a).
Proof using All.
  unfold Q. rewrite list_elem_of_filter, iter_perm, elem_of_map_to_list. tauto.
Qed.

Lemma Q_split : map_to_list (allocations s) ≡ₚ Q ++ map_to_list (allocations s1).
Proof using All.
  unfold Q, s1. simpl. rewrite (table_split s d) at 1. by rewrite iter_perm.
Qed.

Lemma s1_old p a : allocations s1 !! p = Some a -> allocations s !! p = Some a.
Proof using All. simpl. by intros [? _]%map_lookup_filter_Some. Qed.

Lemma s1_hinv : hinv s1.
Proof using All.
  destruct H as [Hk Hnd]. split.
  - intros p a Hp. simpl. apply Hk. by apply s1_old.
  - rewrite Q_split, fmap_app, concat_app, list.NoDup_app in Hnd. tauto.
Qed.

Lemma s1_children p a : allocations s1 !! p = Some a -> children s1 p = children s p.
Proof using All. intros Hp. unfold children. by rewrite Hp, (s1_old p a Hp). Qed.

Lemma s1_reach p q : reach s1 p q -> reach s p q.
Proof using All.
  induction 1 as [|p q r Hq _ IH]; [constructor|]. econstructor; [|done].
  destruct (allocations s1 !! p) as [a|] eqn:E; [by rewrite <- (s1_children p a)|].
  unfold children in Hq. rewrite E in Hq. set_solver.
Qed.

Lemma drop_domain_gone : exists s' rm, drop_domain d s = Done (tt, s') /\
  gone (fst <$> Q) s s' (Q ++ rm) /\ freed s' ≡ₚ freed s ++ all_blocks (Q ++ rm).
Proof using All.
  assert (Hsz : map_size (allocations s1) < fuel_of s).
  { change (base.size (allocations s1) < S (base.size (allocations s))).
    rewrite <- !length_map_to_list, Q_split, length_app. lia. }
  destruct (drop_queue_spec (fuel_of s) (snd <$> Q) s1 s1_hinv Hsz) as (s' & rm & Hrun & HG & Hf & Hl).
  { intros a ([p b] & -> & Hin)%list_elem_of_fmap. apply Q_in in Hin as [Hin _].
    destruct (hi_key _ H p b Hin) as (Hp & Hv & _). simpl. by rewrite Hp. }
  assert (Hh : forall p a, (p, a) ∈ Q -> held_at s1 a = children s p).
  { intros p a [Hp _]%Q_in. by rewrite <- (held_at_children s p a H Hp). }
  exists s', rm. split; [|split].
  - unfold drop_domain. rewrite bind_get, retain_queue_spec.
    + rewrite bind_lift, bind_modify. exact Hrun.
    + intros [p a]. rewrite iter_perm, elem_of_map_to_list. intros Hp. by apply (hi_key _ H p a).
  - pose proof HG as [g1 g2 g3 g4 g5]. split; try done.
    + rewrite Q_split, g1. by rewrite app_assoc.
    + intros [p a] q [Hin|Hin]%elem_of_app Hq; simpl in Hq.
      * apply (Hl a); [apply list_elem_of_fmap; by exists (p, a)|]. by rewrite (Hh p a).
      * destruct (gone_in _ _ _ _ HG p a Hin) as [Hp _]. apply (g4 (p, a)); [done|].
        simpl. by rewrite (s1_children p a).
    + intros [p a] [Hin|Hin]%elem_of_app.
      * exists p. split; [apply list_elem_of_fmap; by exists (p, a)|constructor].
      * destruct (g5 _ Hin) as (r & Hr & Hre). apply elem_of_concat in Hr as (l & Hr & Hin2).
        apply list_elem_of_In, in_map_iff in Hin2 as (b & <- & Hb). apply list_elem_of_In in Hb.
        apply list_elem_of_fmap in Hb as ([x c] & -> & Hx). simpl in Hr. rewrite (Hh x c Hx) in Hr.
        exists x. split; [apply list_elem_of_fmap; by exists (x, c)|].
        econstructor; [done|]. by apply s1_reach.
  - rewrite Hf, all_blocks_app. simpl. unfold all_blocks at 2.
    by rewrite (list_fmap_compose snd blocks Q).
Qed.
End DropDomain.

(** ** Properties *)

(** C6: When a domain dies, exactly its objects and the objects reachable from
    them by references outside of an [Owned] are deallocated: [drop_domain] returns; the table
    loses the entries [rm] and nothing else; every block of each of them is freed exactly once;
    no remaining object belongs to the domain; what cleanup reaches from an object of the domain
    is gone, so that all that is reachable is gone where no filled [Owned] and no unregistered
    type hides a reference from cleanup; and an object that cleanup does not reach stays. *)
Theorem drop_domain_exact d s :
  (forall m, iter m ≡ₚ map_to_list m) -> hinv s ->
  exists s' rm, drop_domain d s = Done (tt, s') /\ hinv s' /\
    map_to_list (allocations s) ≡ₚ rm ++ map_to_list (allocations s') /\
    freed s' ≡ₚ freed s ++ all_blocks rm /\ NoDup (all_blocks rm) /\
    (forall p a, allocations s' !! p = Some a -> u64s s' !! domain_id_pointer a <> Some d) /\
    (forall r b q, allocations s !! r = Some b -> belongs s d (r, b) -> reach s r q ->
       allocations s' !! q = None) /\
    (forall r b q, allocations s !! r = Some b -> belongs s d (r, b) -> reaches s r q ->
       (forall x, reaches s r x -> held_refs s x = children s x) -> allocations s' !! q = None) /\
    (forall p a, (p, a) ∈ rm -> exists r b, allocations s !! r = Some b /\ belongs s d (r, b) /\ reach s r p) /\
    (forall p a, allocations s !! p = Some a ->
       (forall r b, allocations s !! r = Some b -> belongs s d (r, b) -> ~ reach s r p) -> allocations s' !! p = Some a).
Proof.
  intros Hit H. destruct (drop_domain_gone Hit d s H) as (s' & rm & Hrun & HG & Hf).
  set (Q := filter (belongs s d) (iter (allocations s))) in *.
  exists s', (Q ++ rm). pose proof HG as [g1 g2 g3 g4 g5].
  assert (HQ : forall p a, (p, a) ∈ Q <-> allocations s !! p = Some a /\ belongs s d (p, a)).
  { intros p a. unfold Q. rewrite list_elem_of_filter, Hit, elem_of_map_to_list. tauto. }
  assert (Hreach : forall r b q, allocations s !! r = Some b -> belongs s d (r, b) -> reach s r q -> allocations s' !! q = None).
  { intros r b q Hr Hb Hre. destruct (allocations s !! q) as [c|] eqn:E.
    + eapply (gone_closure _ _ _ _ HG); [done| |congruence].
      apply (gone_in _ _ _ _ HG r b), elem_of_app. left. by apply HQ.
    + destruct (allocations s' !! q) as [c|] eqn:E'; [|done]. apply (gone_old _ _ _ _ HG) in E'. congruence. }
  assert (Hfrom : forall p a, (p, a) ∈ Q ++ rm -> exists r b, allocations s !! r = Some b /\ belongs s d (r, b) /\ reach s r p).
  { intros p a Hin. destruct (g5 _ Hin) as (r & Hr & Hre). apply list_elem_of_fmap in Hr as ([x b] & -> & Hx). apply HQ in Hx as [??]. by exists x, b. }
  split_and!; try done.
  - by eapply gone_hinv.
  - pose proof (hi_nodup _ H) as Hnd. rewrite g1, fmap_app, concat_app, list.NoDup_app in Hnd. tauto.
  - intros p a Hp Hb. rewrite g2 in Hb. pose proof (gone_old _ _ _ _ HG p a Hp) as Hp0.
    destruct (gone_in _ _ _ _ HG p a) as [_ Hn]; [|congruence].
    apply elem_of_app. left. by apply HQ.
  - intros r b q Hr Hb Hre Hall. eapply Hreach; [done..|]. by apply reaches_reach.
  - intros p a Hp Hno. destruct (allocations s' !! p) as [c|] eqn:E; [apply (gone_old _ _ _ _ HG) in E; congruence|].
    destruct (Hfrom p a (gone_out _ _ _ _ HG p a Hp E)) as (r & b & H1 & H2 & Hre). by destruct (Hno r b H1 H2).
Qed.

(** Dropping an [RRef] deallocates the object and everything that cleanup reaches from it,
    each block once, and leaves all other objects alone; dropping a reference
    whose object is already gone changes nothing. *)
Theorem RRef_drop_exact r s :
  hinv s ->
  exists s' rm, RRef_drop r s = Done (tt, s') /\ hinv s' /\
    map_to_list (allocations s) ≡ₚ rm ++ map_to_list (allocations s') /\
    freed s' ≡ₚ freed s ++ all_blocks rm /\ NoDup (all_blocks rm) /\
    (forall q, reach s (rr_value_pointer r) q -> allocations s' !! q = None) /\
    (forall p a, (p, a) ∈ rm -> reach s (rr_value_pointer r) p).
Proof.
  intros H. set (p := rr_value_pointer r).
  destruct (dealloc_heap_ok (fuel_of s) p s H) as (s' & rm & Hrun & HG & Hf & Hp); [unfold fuel_of; lia|].
  exists s', rm. pose proof HG as [g1 g2 g3 g4 g5]. split_and!; try done.
  - by eapply gone_hinv.
  - pose proof (hi_nodup _ H) as Hnd. rewrite g1, fmap_app, concat_app, list.NoDup_app in Hnd. tauto.
  - intros q Hre. destruct (allocations s !! q) as [c|] eqn:E.
    + eapply (gone_closure _ _ _ _ HG); [done|done|congruence].
    + destruct (allocations s' !! q) as [c|] eqn:E'; [|done]. apply (gone_old _ _ _ _ HG) in E'. congruence.
  - intros x a Hin. destruct (g5 _ Hin) as (y & Hy & Hre). by apply list_elem_of_singleton in Hy as ->.
Qed.

(** Every block of the heap. *)
Definition heap_blocks (s : hst) : list Z := all_blocks (map_to_list (allocations s)).

Lemma blocks_in s p a x : allocations s !! p = Some a -> x ∈ blocks a -> x ∈ heap_blocks s.
Proof.
  intros Ha Hx. unfold heap_blocks, all_blocks. apply elem_of_concat. exists (blocks a). split; [done|].
  apply list_elem_of_fmap. exists (p, a). split; [done|]. by apply elem_of_map_to_list.
Qed.

(** A new [RRef] owns its object: with fresh blocks from the memory
    provider, [RRef::new] returns a reference owned by the calling domain, with no
    borrows, that dereferences to the value; the heap stays well-formed and
    the other objects are unchanged.  A type that is not registered makes it panic. *)
Theorem RRef_new_sound me v l tid dp bp vp s :
  hinv s -> NoDup ([vp; dp; bp] ++ heap_blocks s) ->
  if has_type tid then
    let r := mkRRef dp bp vp in
    exists s', RRef_new_with_layout me v l tid dp bp vp s = Done (r, s') /\ hinv s' /\
      domain_id r s' = Done (me, s') /\ borrow_count r s' = Done (0%Z, s') /\ deref r s' = Done (v, s') /\
      allocations s' = <[vp := mkAlloc vp dp bp l tid]> (allocations s) /\
      (forall p a, allocations s !! p = Some a -> values s' !! p = values s !! p /\
         u64s s' !! domain_id_pointer a = u64s s !! domain_id_pointer a /\
         u64s s' !! borrow_count_pointer a = u64s s !! borrow_count_pointer a)
  else RRef_new_with_layout me v l tid dp bp vp s = Panic.
Proof.
  intros [Hk Hnd] Hfr. unfold RRef_new_with_layout, alloc_heap.
  destruct (has_type tid); simpl; [|done]. set (a := mkAlloc vp dp bp l tid).
  rewrite bind_assoc, bind_modify, bind_mret. unfold write_u64, write_val. mrun.
  eexists. split; [reflexivity|]. apply list.NoDup_app in Hfr as (Hn3 & Hd & _).
  assert (vp <> dp /\ vp <> bp /\ dp <> bp) as (Hvd & Hvb & Hdb).
  { rewrite !list.NoDup_cons in Hn3. set_solver. }
  assert (Hout : forall p b x, allocations s !! p = Some b -> x ∈ blocks b -> x <> vp /\ x <> dp /\ x <> bp).
  { intros p b x Hp Hx. pose proof (blocks_in s p b x Hp Hx) as Hin.
    split_and!; intros ->; (eapply Hd; [|exact Hin]); set_solver. }
  assert (Hold : forall p b, allocations s !! p = Some b ->
    <[vp:=v]> (values s) !! p = values s !! p /\
    <[bp:=0%Z]> (<[dp:=me]> (u64s s)) !! domain_id_pointer b = u64s s !! domain_id_pointer b /\
    <[bp:=0%Z]> (<[dp:=me]> (u64s s)) !! borrow_count_pointer b = u64s s !! borrow_count_pointer b).
  { intros p b Hp. destruct (Hk p b Hp) as (Hvp & _).
    destruct (Hout p b p Hp) as (? & _); [unfold blocks; rewrite Hvp; set_solver|].
    destruct (Hout p b (domain_id_pointer b) Hp) as (_ & ? & ?); [unfold blocks; set_solver|].
    destruct (Hout p b (borrow_count_pointer b) Hp) as (_ & ? & ?); [unfold blocks; set_solver|].
    by rewrite !lookup_insert_ne. }
  assert (Hnone : allocations s !! vp = None).
  { destruct (allocations s !! vp) as [b|] eqn:E; [|done]. destruct (Hk vp b E) as (Hvp & _).
    destruct (Hout vp b vp E) as (? & _); [unfold blocks; rewrite Hvp; set_solver|done]. }
  split_and!; try done; simpl.
  - split; simpl.
    + intros p b Hp. apply lookup_insert_Some in Hp as [[<- <-]|[Hne Hp]]; simpl.
      * rewrite lookup_insert_eq, (lookup_insert_ne _ bp dp), !lookup_insert_eq by done. eauto.
      * destruct (Hk p b Hp) as (? & ? & ? & ?). destruct (Hold p b Hp) as (-> & -> & ->). done.
    + rewrite map_to_list_insert by done. apply list.NoDup_app. split_and!; try done.
  - unfold domain_id, read_u64. rewrite bind_get. simpl.
    rewrite (lookup_insert_ne _ bp dp), lookup_insert_eq by done. done.
  - unfold borrow_count, read_u64. rewrite bind_get. simpl. by rewrite lookup_insert_eq.
  - unfold deref, read_val. rewrite bind_get. simpl. by rewrite lookup_insert_eq.
Qed.

(** [Owned] keeps the ownership marks right: a reference put in is marked as
    owned by its parent (domain 0), the reference that was there before is handed
    back to the calling domain, and taking a reference out gives it to the calling domain. *)
Theorem Owned_ownership me r o s :
  (forall r0, o = Some r0 -> rr_domain_id_pointer r0 <> rr_domain_id_pointer r) ->
  (exists s1, Owned_replace me o r s = Done ((o, Some r), s1) /\
     u64s s1 !! rr_domain_id_pointer r = Some 0%Z /\
     (forall r0, o = Some r0 -> u64s s1 !! rr_domain_id_pointer r0 = Some me) /\
     exists s2, Owned_take me (Some r) s1 = Done ((Some r, None), s2) /\
       u64s s2 !! rr_domain_id_pointer r = Some me /\
       allocations s2 = allocations s /\ values s2 = values s).
Proof.
  intros Hne. unfold Owned_replace, move_to, write_u64. rewrite bind_modify.
  destruct o as [r0|]; simpl; unfold move_to_current, move_to, write_u64.
  - rewrite bind_assoc, bind_modify, bind_mret. specialize (Hne r0 eq_refl).
    eexists. split; [reflexivity|]. simpl. rewrite lookup_insert_ne, lookup_insert_eq by done.
    split_and!; try done; [intros ? [= <-]; apply lookup_insert_eq|].
    rewrite bind_modify. eexists. split; [reflexivity|]. simpl. by rewrite lookup_insert_eq.
  - rewrite bind_mret. eexists. split; [reflexivity|]. simpl. rewrite lookup_insert_eq.
    split_and!; try done.
    rewrite bind_modify. eexists. split; [reflexivity|]. simpl. by rewrite lookup_insert_eq.
Qed.

(** The object inside an [Owned] is not cleaned up with its parent: dropping
    an [RRef] to a value that holds another reference in an [Owned] removes only
    the parent, and the inner object stays in the table. *)
Theorem Owned_content_leaks r r2 a a2 s :
  hinv s -> allocations s !! rr_value_pointer r = Some a ->
  values s !! rr_value_pointer r = Some (VOwned (Some r2)) ->
  rr_value_pointer r <> rr_value_pointer r2 -> allocations s !! rr_value_pointer r2 = Some a2 ->
  exists s', RRef_drop r s = Done (tt, s') /\ allocations s' = delete (rr_value_pointer r) (allocations s) /\
    allocations s' !! rr_value_pointer r2 = Some a2.
Proof.
  intros H Ha Hv Hne Ha2. destruct (hi_key _ H _ _ Ha) as (Hp & _).
  unfold RRef_drop, dealloc, fuel_of. rewrite bind_get. cbn [dealloc_heap].
  rewrite bind_get, Ha, bind_modify. unfold Dropper_drop, read_val.
  destruct (has_type (type_id a)).
  - rewrite !bind_assoc, bind_get. simpl. rewrite Hp, Hv. simpl. rewrite bind_lift. cbn [cleanup]. rewrite bind_mret.
    rewrite free_allocation_eq. eexists. split; [reflexivity|]. simpl.
    by rewrite lookup_delete_ne.
  - rewrite bind_mret, free_allocation_eq. eexists. split; [reflexivity|]. simpl. by rewrite lookup_delete_ne.
Qed.
End Heap.

(** ** Borrow counts *)

(** [borrow] and [forfeit] are inverse to each other in both build
    profiles, below the largest 64-bit count. *)
Theorem borrow_forfeit_balanced `{Profile} r n s :
  u64s s !! rr_borrow_count_pointer r = Some n -> (0 <= n < 2 ^ 64 - 1)%Z ->
  exists s1, borrow r s = Done (tt, s1) /\
    u64s s1 !! rr_borrow_count_pointer r = Some (n + 1)%Z /\
    forfeit r s1 = Done (tt, s).
Proof.
  intros Hn Hr. unfold borrow, forfeit, read_u64, uadd, usub.
  rewrite bind_assoc, bind_get, Hn. unfold expect. rewrite bind_lift.
  rewrite (checked_ok 64 (n + 1)) by (unfold in_width; lia). rewrite bind_lift.
  eexists. split; [reflexivity|]. simpl. rewrite lookup_insert_eq. split; [done|].
  rewrite bind_assoc, bind_get. simpl. rewrite lookup_insert_eq. rewrite bind_lift.
  unfold assert. replace (n + 1 =? 0)%Z with false by (symmetry; apply Z.eqb_neq; lia).
  rewrite andb_false_r. unfold mbind at 1, M_bind at 1. simpl.
  replace (n + 1 - 1)%Z with n by lia. rewrite checked_ok by (unfold in_width; lia). rewrite bind_lift.
  unfold write_u64, modify, set_u64s. simpl. rewrite insert_insert_eq, insert_id by done. by destruct s.
Qed.

(** *** Witnesses: a domain that owns an array of two references *)

Definition ex_types (t : Z) : bool := (t =? 1)%Z || (t =? 2)%Z.

Definition ex_r1 : RRef := mkRRef 101 102 100.
Definition ex_r2 : RRef := mkRRef 111 112 110.
Definition ex_r3 : RRef := mkRRef 121 122 120.

Definition ex_build : M hst unit :=
  r1 ← RRef_new_with_layout ex_types 7 (VScalar 42) (8, 8)%Z 1 101 102 100;
  _ ← move_to r1 0;
  r2 ← RRef_new_with_layout ex_types 7 (VArray [VOption (Some (VRRef r1)); VOption None]) (48, 8)%Z 2 111 112 110;
  r3 ← RRef_new_with_layout ex_types 9 (VOwned (Some r1)) (24, 8)%Z 2 121 122 120;
  mret tt.
Definition hst0 : hst := mkH ∅ ∅ ∅ [].
Definition ex_heap : hst := match ex_build hst0 with Done (_, s) => s | _ => hst0 end.

Lemma ex_heap_table : map_to_list (allocations ex_heap) =
  [(110, mkAlloc 110 111 112 (48, 8) 2); (100, mkAlloc 100 101 102 (8, 8) 1);
   (120, mkAlloc 120 121 122 (24, 8) 2)]%Z.
Proof. vm_compute. done. Qed.

Lemma ex_heap_inv : hinv ex_heap.
Proof.
  split.
  - intros p a Hp. apply elem_of_map_to_list in Hp. rewrite ex_heap_table in Hp.
    rewrite !elem_of_cons in Hp. destruct Hp as [[= -> ->]|[[= -> ->]|[[= -> ->]|[]%elem_of_nil]]];
      (split_and!; [done|by vm_compute; eexists..]).
  - rewrite ex_heap_table. simpl. repeat (constructor; [set_solver|]). constructor.
Qed.

Lemma drop_domain_exact_witness : exists s',
  drop_domain ex_types map_to_list 7 ex_heap = Done (tt, s') /\ allocations s' !! 100%Z = None /\
  allocations s' !! 110%Z = None.
Proof.
  destruct (drop_domain_exact ex_types map_to_list 7 ex_heap (fun m => reflexivity _) ex_heap_inv)
    as (s' & rm & Hrun & _ & _ & _ & _ & _ & Hre & _ & _).
  exists s'. split; [done|].
  assert (Ha : allocations ex_heap !! 110%Z = Some (mkAlloc 110 111 112 (48, 8)%Z 2)) by (by vm_compute).
  assert (Hb : belongs ex_heap 7 (110%Z, mkAlloc 110 111 112 (48, 8)%Z 2)) by (by vm_compute).
  split; apply (Hre 110%Z _ _ Ha Hb); [|apply reach_refl].
  eapply reach_step; [|apply reach_refl]. vm_compute. left.
Defined.

Lemma RRef_drop_exact_witness : exists s',
  RRef_drop ex_types ex_r2 ex_heap = Done (tt, s') /\ allocations s' !! 110%Z = None.
Proof.
  destruct (RRef_drop_exact ex_types ex_r2 ex_heap ex_heap_inv) as (s' & rm & Hrun & _ & _ & _ & _ & Hre & _).
  exists s'. split; [done|]. apply (Hre 110%Z). apply reach_refl.
Defined.

Lemma RRef_new_sound_witness : exists s',
  RRef_new_with_layout ex_types 7 (VScalar 1) (8, 8)%Z 1 131 132 130 ex_heap = Done (mkRRef 131 132 130, s') /\ hinv s'.
Proof.
  destruct (RRef_new_sound ex_types 7 (VScalar 1) (8, 8)%Z 1 131 132 130 ex_heap ex_heap_inv) as (s' & H1 & H2 & _).
  - unfold heap_blocks. rewrite ex_heap_table. simpl. repeat (constructor; [set_solver|]). constructor.
  - exists s'. exact (conj H1 H2).
Defined.

Lemma Owned_ownership_witness : exists s1,
  Owned_replace 7 (Some ex_r1) ex_r2 ex_heap = Done ((Some ex_r1, Some ex_r2), s1) /\
  u64s s1 !! 111%Z = Some 0%Z.
Proof.
  destruct (Owned_ownership 7 ex_r2 (Some ex_r1) ex_heap) as (s1 & H1 & H2 & _); [by intros r0 [= <-]|].
  exists s1. exact (conj H1 H2).
Defined.

Lemma Owned_content_leaks_witness : exists s',
  RRef_drop ex_types ex_r3 ex_heap = Done (tt, s') /\
  allocations s' !! 100%Z = Some (mkAlloc 100 101 102 (8, 8)%Z 1).
Proof.
  destruct (Owned_content_leaks ex_types ex_r3 ex_r1 (mkAlloc 120 121 122 (24, 8)%Z 2)
    (mkAlloc 100 101 102 (8, 8)%Z 1) ex_heap ex_heap_inv) as (s' & H1 & _ & H2); [by vm_compute..|].
  exists s'. exact (conj H1 H2).
Defined.

Lemma borrow_forfeit_balanced_witness : exists s1,
  borrow (H := false) ex_r1 ex_heap = Done (tt, s1) /\ forfeit (H := false) ex_r1 s1 = Done (tt, ex_heap).
Proof.
  destruct (borrow_forfeit_balanced (H := false) ex_r1 0 ex_heap) as (s1 & H1 & _ & H2);
    [by vm_compute|lia|]. exists s1. exact (conj H1 H2).
Defined.
