(* ===== verification/RRefDeque.v ===== *)
(** * Collections on the shared heap (interface/src/rref/rref_array.rs,
    interface/src/rref/rref_deque.rs)

    An [RRefArray] is one shared-heap object that holds an array of optional
    references; taking a reference out marks it as owned by the calling domain
    and putting one in marks it as owned by the array.  An [RRefDeque] is a ring
    buffer over such an array.  The model refines it to a bounded
    first-in first-out queue of references, for every capacity [N > 0]. *)

From Stdlib Require Import ZArith Lia.
From stdpp Require Import base gmap list.
From stdpp Require Import options.
From S2P Require Import Prelude SharedHeap.

Set Default Proof Using "Type".

(** ** [RRefArray]: the content is an array of [Option<RRef<T>>] *)

Definition slot (o : option RRef) : val := VOption (VRRef <$> o).

Definition slot_of (v : val) : option (option RRef) :=
  match v with
  | VOption (Some (VRRef r)) => Some (Some r)
  | VOption None => Some None
  | _ => None
  end.

Definition read_slots (arr : RRef) : M hst (list (option RRef)) :=
  v ← SharedHeap.deref arr;
  match v with
  | VArray vs => lift (expect (mapM slot_of vs))
  | _ => panic
  end.

Definition write_slots (arr : RRef) (l : list (option RRef)) : M hst unit :=
  deref_mut arr (VArray (slot <$> l)).

Section Code.
Context (has_type : Z -> bool) (me : Z).

Definition array_has (arr : RRef) (i : nat) : M hst bool :=
  l ← read_slots arr; o ← lift (index l i); mret (bool_decide (is_Some o)).

Definition array_get (arr : RRef) (i : nat) : M hst (option RRef) :=
  l ← read_slots arr;
  value ← lift (index l i);
  _ ← write_slots arr (<[i := None]> l);
  match value with
  | Some rref => _ ← move_to_current me rref; mret value
  | None => mret value
  end.

(** The reference that was in the slot, if any, is dropped. *)
Definition array_set (arr : RRef) (i : nat) (value : RRef) : M hst unit :=
  _ ← move_to value 0;
  l ← read_slots arr;
  old ← lift (index l i);
  _ ← write_slots arr (<[i := Some value]> l);
  match old with
  | Some r => RRef_drop has_type r
  | None => mret tt
  end.

Definition array_get_ref (arr : RRef) (i : nat) : M hst (option val) :=
  l ← read_slots arr;
  o ← lift (index l i);
  match o with
  | Some r => v ← SharedHeap.deref r; mret (Some v)
  | None => mret None
  end.

(** ** [RRefDeque] *)

Record RRefDeque := mkDeque { arr : RRef; dhead : nat; dtail : nat }.

Context (N : nat).

Definition deque_len (d : RRefDeque) : M hst nat :=
  if dtail d <? dhead d then mret (dhead d - dtail d)
  else if dhead d =? dtail d then
    b ← array_has (arr d) (dhead d);
    mret (if b : bool then N else 0)
  else mret (N - (dtail d - dhead d)).

Definition push_back (d : RRefDeque) (value : RRef) : M hst (option RRef * RRefDeque) :=
  b ← array_has (arr d) (dhead d);
  if b : bool then mret (Some value, d)
  else
    _ ← array_set (arr d) (dhead d) value;
    mret (None, mkDeque (arr d) ((dhead d + 1) mod N) (dtail d)).

Definition pop_front (d : RRefDeque) : M hst (option RRef * RRefDeque) :=
  value ← array_get (arr d) (dtail d);
  mret (value, match value with
               | Some _ => mkDeque (arr d) (dhead d) ((dtail d + 1) mod N)
               | None => d
               end).

(** [RRefDequeIter]: the state of the iterator and its [next]. *)
Record DequeIter := mkIter { it_arr : RRef; curr : nat; remaining : nat }.

Definition deque_iter (d : RRefDeque) : M hst DequeIter :=
  n ← deque_len d; mret (mkIter (arr d) (dtail d) n).

Definition iter_next (it : DequeIter) : M hst (option val * DequeIter) :=
  if remaining it =? 0 then mret (None, it)
  else
    o ← array_get_ref (it_arr it) (curr it);
    mret match o with
         | Some el => (Some el, mkIter (it_arr it) ((curr it + 1) mod N) (remaining it - 1))
         | None => (None, it)
         end.

(** Running the iterator to its end, as a [for] loop does. *)
Fixpoint iter_collect (fuel : nat) (it : DequeIter) : M hst (list val) :=
  match fuel with
  | O => hang
  | S fuel =>
      p ← iter_next it;
      match p with
      | (Some v, it) => vs ← iter_collect fuel it; mret (v :: vs)
      | (None, _) => mret []
      end
  end.
End Code.

(** ** Refinement *)

Lemma slots_roundtrip l : mapM slot_of (slot <$> l) = Some l.
Proof.
  apply mapM_Some_2. apply Forall2_fmap_l. apply Forall2_same_length_lookup_2; [done|].
  intros i [r|] y Hx Hy; by simplify_eq.
Qed.

Lemma read_slots_Done a L s : values s !! rr_value_pointer a = Some (VArray (slot <$> L)) ->
  read_slots a s = Done (L, s).
Proof.
  intros H. unfold read_slots, SharedHeap.deref, read_val. rewrite bind_assoc, bind_get, H.
  cbn [expect]. rewrite bind_lift. cbv match. by rewrite slots_roundtrip.
Qed.

Section Refinement.
Context (has_type : Z -> bool) (me : Z) (N : nat).
Implicit Types (d : RRefDeque) (l : list RRef) (s : hst).

(** The deque [d] holds the queue [l]: the slots from [dtail] on hold it and
    the other slots are empty. *)
Record dinv (s : hst) (d : RRefDeque) (l : list RRef) : Prop := mkDI {
  di_tail : dtail d < N;
  di_len : length l <= N;
  di_head : dhead d = (dtail d + length l) mod N;
  di_slots : exists L, values s !! rr_value_pointer (arr d) = Some (VArray (slot <$> L)) /\
    length L = N /\ ring L (dtail d) (Some <$> l) /\
    forall i, length l <= i < N -> L !! ((dtail d + i) mod N) = Some None }.

Lemma dinv_has s d l : dinv s d l ->
  array_has (arr d) (dhead d) s = Done (bool_decide (length l = N), s).
Proof.
  intros [Ht Hl Hh (L & HL & HlenL & Hr & He)]. unfold array_has.
  mstep (read_slots_Done _ _ _ HL).
  destruct (decide (length l = N)) as [E|E].
  - rewrite bool_decide_true by done. destruct l as [|r l]; [simpl in *; lia|].
    pose proof (ring_head _ _ _ _ Hr) as Hx. rewrite HlenL in Hx.
    assert (Hd : dhead d = dtail d mod N).
    { rewrite Hh, E. replace (dtail d + N) with (dtail d + 1 * N) by lia. apply Nat.Div0.mod_add. }
    rewrite Hd, (index_Some _ _ _ Hx), bind_lift. by rewrite bool_decide_true by eauto.
  - rewrite bool_decide_false by done.
    rewrite Hh, (index_Some _ _ _ (He (length l) ltac:(lia))), bind_lift.
    rewrite bool_decide_false; [done|]. by intros [? ?].
Qed.

Lemma dinv_len s d l : 0 < N -> dinv s d l -> deque_len N d s = Done (length l, s).
Proof.
  intros HN Hd. pose proof (dinv_has s d l Hd) as Hhas. destruct Hd as [Ht Hl Hh _].
  unfold deque_len.
  assert (Hcase : dtail d + length l < N /\ dhead d = dtail d + length l \/
    N <= dtail d + length l /\ dhead d = dtail d + length l - N).
  { rewrite Hh. destruct (decide (dtail d + length l < N)) as [E|E].
    - left. split; [done|]. by apply Nat.mod_small.
    - right. split; [lia|]. replace (dtail d + length l) with (dtail d + length l - N + 1 * N) at 1 by lia.
      rewrite Nat.Div0.mod_add. apply Nat.mod_small. lia. }
  destruct (Nat.ltb_spec (dtail d) (dhead d)).
  { assert (dhead d - dtail d = length l) as -> by lia. done. }
  destruct (Nat.eqb_spec (dhead d) (dtail d)).
  - mstep Hhas. case_bool_decide; [by subst N|]. assert (length l = 0) as -> by lia. done.
  - assert (N - (dtail d - dhead d) = length l) as -> by lia. done.
Qed.

(** Appending to the queue. *)
Lemma push_back_spec s d l r :
  0 < N -> dinv s d l ->
  if decide (length l = N) then push_back has_type N d r s = Done ((Some r, d), s)
  else exists s' d', push_back has_type N d r s = Done ((None, d'), s') /\ dinv s' d' (l ++ [r]) /\
    u64s s' = <[rr_domain_id_pointer r := 0%Z]> (u64s s) /\ allocations s' = allocations s /\
    (forall p, p <> rr_value_pointer (arr d) -> values s' !! p = values s !! p).
Proof.
  intros HN Hd. unfold push_back. mstep (dinv_has s d l Hd).
  destruct Hd as [Ht Hl Hh (L & HL & HlenL & Hr & He)].
  destruct (decide (length l = N)) as [E|E]; [by rewrite bool_decide_true|].
  rewrite bool_decide_false by done. unfold array_set, move_to, write_u64. rewrite bind_assoc, bind_modify.
  set (s1 := set_u64s _ s). assert (HL1 : values s1 !! rr_value_pointer (arr d) = Some (VArray (slot <$> L))) by done.
  rewrite bind_assoc. mstep (read_slots_Done _ _ _ HL1).
  assert (Hslot : L !! dhead d = Some None) by (rewrite Hh; apply He; lia).
  rewrite (index_Some _ _ _ Hslot), !bind_assoc, bind_lift.
  unfold write_slots, deref_mut, write_val. rewrite bind_assoc, bind_modify, bind_mret.
  eexists _, _. split; [reflexivity|]. split_and!; try done.
  - assert (Hl' : length (Some <$> l) = length l) by apply length_fmap.
    split; simpl; [done|rewrite length_app; simpl; lia| |].
    + rewrite Hh, length_app, Nat.Div0.add_mod_idemp_l. f_equal. simpl. lia.
    + exists (<[dhead d := Some r]> L). rewrite lookup_insert_eq, length_insert. split_and!; try done.
      * rewrite fmap_app. simpl. rewrite Hh, <- HlenL, <- Hl'. apply ring_push; [rewrite Hl'; lia|done].
      * rewrite length_app. simpl. intros i Hi. rewrite list_lookup_insert_ne; [apply He; lia|].
        rewrite Hh. apply mod_slot_ne. lia.
  - intros p Hp. simpl. by apply lookup_insert_ne.
Qed.

(** Taking from the front. *)
Lemma pop_front_spec s d l :
  0 < N -> dinv s d l ->
  match l with
  | [] => exists s', pop_front me N d s = Done ((None, d), s') /\ dinv s' d [] /\ u64s s' = u64s s /\
      allocations s' = allocations s
  | r :: l' => exists s' d', pop_front me N d s = Done ((Some r, d'), s') /\ dinv s' d' l' /\
      u64s s' = <[rr_domain_id_pointer r := me]> (u64s s) /\ allocations s' = allocations s
  end.
Proof.
  intros HN [Ht Hl Hh (L & HL & HlenL & Hr & He)]. unfold pop_front, array_get.
  rewrite bind_assoc. mstep (read_slots_Done _ _ _ HL). unfold write_slots, deref_mut, write_val.
  destruct l as [|r l].
  - assert (Hslot : L !! dtail d = Some None).
    { rewrite <- (He 0 ltac:(simpl; lia)), Nat.add_0_r. f_equal. symmetry. by apply Nat.mod_small. }
    rewrite (index_Some _ _ _ Hslot), bind_assoc, bind_lift, bind_assoc, bind_modify, bind_mret.
    eexists. split; [reflexivity|]. split; [|done].
    split; try done. exists L. simpl. rewrite lookup_insert_eq, (list_insert_id L) by done. done.
  - pose proof (ring_head _ _ _ _ Hr) as Hx. rewrite HlenL, Nat.mod_small in Hx by done.
    rewrite (index_Some _ _ _ Hx), bind_assoc, bind_lift, bind_assoc, bind_modify.
    unfold move_to_current, move_to, write_u64. rewrite bind_assoc, bind_modify, bind_mret.
    eexists _, _. split; [reflexivity|]. split; [|done]. simpl in Hl. split; simpl.
    + apply Nat.mod_upper_bound. lia.
    + lia.
    + rewrite Hh, Nat.Div0.add_mod_idemp_l. f_equal. simpl. lia.
    + exists (<[dtail d := None]> L). rewrite lookup_insert_eq, length_insert. split_and!; try done.
      * intros i x Hi. rewrite length_insert, HlenL.
        pose proof (lookup_lt_Some _ _ _ Hi) as Hlt. rewrite length_fmap in Hlt.
        rewrite list_lookup_insert_ne.
        -- specialize (Hr (S i) x Hi). rewrite HlenL in Hr.
           rewrite Nat.Div0.add_mod_idemp_l, <- Hr. f_equal. f_equal. lia.
        -- rewrite Nat.Div0.add_mod_idemp_l. intros E.
           apply (mod_slot_ne N (dtail d) 0 (S i)); [lia|].
           rewrite Nat.add_0_r, (Nat.mod_small _ _ Ht), E. f_equal. lia.
      * intros i Hi. rewrite Nat.Div0.add_mod_idemp_l.
        destruct (decide (S i < N)) as [Hlt|Hge].
        -- rewrite list_lookup_insert_ne.
           ++ rewrite <- (He (S i)) by (simpl; lia). f_equal. f_equal. lia.
           ++ intros E. apply (mod_slot_ne N (dtail d) 0 (S i)); [lia|].
              rewrite Nat.add_0_r, (Nat.mod_small _ _ Ht), E. f_equal. lia.
        -- replace (dtail d + 1 + i) with (dtail d + 1 * N) by lia.
           rewrite Nat.Div0.mod_add, (Nat.mod_small _ _ Ht). apply list_lookup_insert_eq. lia.
Qed.

Lemma iter_collect_spec s a L t l vs n :
  0 < N -> values s !! rr_value_pointer a = Some (VArray (slot <$> L)) -> length L = N ->
  ring L t (Some <$> l) -> Forall2 (fun r v => values s !! rr_value_pointer r = Some v) l vs ->
  length l < n -> iter_collect N n (mkIter a (t mod N) (length l)) s = Done (vs, s).
Proof.
  intros HN HL HlenL. revert t vs n. induction l as [|r l IH]; intros t vs n Hr Hvs Hn;
    (destruct n as [|n]; [simpl in Hn; lia|]); cbn [iter_collect]; unfold iter_next.
  { by apply Forall2_nil_inv_l in Hvs as ->. }
  apply Forall2_cons_inv_l in Hvs as (v & vs' & Hv & Hvs & ->).
  pose proof (ring_head _ _ _ _ Hr) as Hx. rewrite HlenL in Hx.
  cbn [remaining it_arr curr length Nat.eqb]. unfold array_get_ref. rewrite !bind_assoc.
  mstep (read_slots_Done _ _ _ HL). rewrite (index_Some _ _ _ Hx), bind_assoc, bind_lift.
  assert (Hd : SharedHeap.deref r s = Done (v, s))
    by (unfold SharedHeap.deref, read_val; by rewrite bind_get, Hv).
  rewrite !bind_assoc. mstep Hd. rewrite !bind_mret.
  replace ((t mod N + 1) mod N) with (S t mod N) by (rewrite Nat.Div0.add_mod_idemp_l; f_equal; lia).
  rewrite Nat.sub_succ, Nat.sub_0_r.
  mstep (IH (S t) vs' n (ring_tail _ _ _ _ Hr) Hvs ltac:(simpl in Hn; lia)). done.
Qed.

(** An [RRefDeque] is a bounded first-in first-out queue of references, for
    every capacity: [push_back] hands the reference back, changing nothing, exactly
    when the queue is full and otherwise appends it and marks it as owned by the deque;
    [pop_front] returns the oldest reference, given to the calling domain, and [None]
    exactly on the empty queue; [len] is the number of references. *)
Theorem deque_refines_queue s d l r :
  0 < N -> dinv s d l ->
  deque_len N d s = Done (length l, s) /\
  (if decide (length l = N) then push_back has_type N d r s = Done ((Some r, d), s)
   else exists s' d', push_back has_type N d r s = Done ((None, d'), s') /\ dinv s' d' (l ++ [r]) /\
     u64s s' !! rr_domain_id_pointer r = Some 0%Z /\ allocations s' = allocations s) /\
  match l with
  | [] => exists s', pop_front me N d s = Done ((None, d), s') /\ dinv s' d []
  | x :: l' => exists s' d', pop_front me N d s = Done ((Some x, d'), s') /\ dinv s' d' l' /\
      u64s s' !! rr_domain_id_pointer x = Some me /\ allocations s' = allocations s
  end.
Proof.
  intros HN Hd. split; [by apply dinv_len|]. split.
  - pose proof (push_back_spec s d l r HN Hd) as Hp. destruct (decide (length l = N)); [done|].
    destruct Hp as (s' & d' & H1 & H2 & H3 & H4 & _). exists s', d'.
    split_and!; try done. rewrite H3. apply lookup_insert_eq.
  - pose proof (pop_front_spec s d l HN Hd) as Hp. destruct l as [|x l].
    + destruct Hp as (s' & H1 & H2 & _). by exists s'.
    + destruct Hp as (s' & d' & H1 & H2 & H3 & H4). exists s', d'.
      split_and!; try done. rewrite H3. apply lookup_insert_eq.
Qed.

(** Iterating over a deque yields the values of its references in queue order,
    all of them, and then stops. *)
Theorem deque_iter_in_order s d l vs :
  0 < N -> dinv s d l -> Forall2 (fun r v => values s !! rr_value_pointer r = Some v) l vs ->
  exists it, deque_iter N d s = Done (it, s) /\ iter_collect N (S (length l)) it s = Done (vs, s).
Proof.
  intros HN Hd Hvs. unfold deque_iter. mstep (dinv_len s d l HN Hd).
  eexists. split; [reflexivity|]. destruct Hd as [Ht _ _ (L & HL & HlenL & Hr & _)].
  rewrite <- (Nat.mod_small _ _ Ht). by apply (iter_collect_spec s (arr d) L); [..|lia].
Qed.
End Refinement.

(** *** Witnesses: a deque of capacity three that holds one reference *)

Definition ex_deque_build : M hst RRefDeque :=
  a ← RRef_new_with_layout ex_types 7 (VArray (slot <$> [None; Some ex_r1; None])) (72, 8)%Z 2 201 202 200;
  mret (mkDeque a 2 1).
Definition ex_deque : RRefDeque := mkDeque (mkRRef 201 202 200) 2 1.
Definition ex_deque_heap : hst :=
  match ex_deque_build ex_heap with Done (_, s) => s | _ => ex_heap end.

Lemma ex_deque_inv : dinv 3 ex_deque_heap ex_deque [ex_r1].
Proof.
  split; simpl; [lia|lia|done|]. exists [None; Some ex_r1; None].
  split_and!; [by vm_compute|done| |].
  - intros i x Hi. by apply list_lookup_singleton_Some in Hi as [-> <-].
  - intros i Hi. destruct i as [|[|[|i]]]; [lia|done|done|lia].
Qed.

Lemma deque_refines_queue_witness : exists s' d',
  push_back ex_types 3 ex_deque ex_r2 ex_deque_heap = Done ((None, d'), s') /\ dinv 3 s' d' [ex_r1; ex_r2].
Proof.
  destruct (deque_refines_queue ex_types 7 3 ex_deque_heap ex_deque [ex_r1] ex_r2 ltac:(lia) ex_deque_inv)
    as (_ & (s' & d' & H1 & H2 & _) & _).
  exists s', d'. exact (conj H1 H2).
Defined.

Lemma deque_iter_in_order_witness : exists it,
  deque_iter 3 ex_deque ex_deque_heap = Done (it, ex_deque_heap) /\
  iter_collect 3 2 it ex_deque_heap = Done ([VScalar 42], ex_deque_heap).
Proof.
  apply (deque_iter_in_order 3 ex_deque_heap ex_deque [ex_r1] [VScalar 42] ltac:(lia) ex_deque_inv).
  constructor; [by vm_compute|constructor].
Defined.
