(* ===== verification/Pipe.v ===== *)
(** * Pipes of the xv6 file system (domains/usr/xv6/kernel/fs/src/pipe.rs)

    A pipe is a ring buffer of 512 bytes with two byte counters and two flags.
    A writer that finds the buffer full sleeps until a reader makes room, so a
    call of [write] is a sequence of segments that run under the lock; a
    segment that fills the buffer ends with [Blocked] and the bytes left to
    write, and the next one starts when [sleep_until] returns, that is in a
    state in which its predicate holds.  A call of [read] sleeps only before it
    starts.  Steps of a pipe are these segments, in any interleaving of any
    number of readers and writers.

    The wakeups themselves are the business of the condition variables. *)

From Stdlib Require Import ZArith Lia.
From stdpp Require Import base list.
From stdpp Require Import options.
From S2P Require Import Prelude.

Set Default Proof Using "Type".

Definition PIPESIZE : Z := 512.

Record PipeInternal := mkPipe {
  data : list Z; nread : Z; nwrite : Z; readopen : bool; writeopen : bool }.

Definition Pipe_new : PipeInternal := mkPipe (replicate (Z.to_nat PIPESIZE) 0%Z) 0 0 true true.

Definition close (writable : bool) (p : PipeInternal) : PipeInternal :=
  if writable then mkPipe (data p) (nread p) (nwrite p) (readopen p) false
  else mkPipe (data p) (nread p) (nwrite p) false (writeopen p).

(** How a segment of [write] ends. *)
Inductive wres :=
  | Written
  | BrokenPipe
  | Blocked (rest : list Z).

Section Code.
Context `{Profile}.

(** The predicates of the two [sleep_until] calls. *)
Definition write_pred (p : PipeInternal) : outcome bool :=
  if readopen p then lim ← uadd 64 (nread p) PIPESIZE; mret (nwrite p <? lim)%Z else mret true.
Definition read_pred (p : PipeInternal) : bool := negb (writeopen p) || negb (nread p =? nwrite p)%Z.

Definition is_full : M PipeInternal bool :=
  p ← get; lim ← lift (uadd 64 (nread p) PIPESIZE); mret (nwrite p =? lim)%Z.

(** The body of the loop after the wait: the byte [c] is stored. *)
Definition put_byte (c : Z) : M PipeInternal (option unit) :=
  p ← get;
  full ← is_full;
  if negb (readopen p) && full then mret None
  else
    let i := Z.to_nat (nwrite p mod PIPESIZE) in
    _ ← lift (index (data p) i);
    n ← lift (uadd 64 (nwrite p) 1);
    _ ← put (mkPipe (<[i := c]> (data p)) (nread p) n (readopen p) (writeopen p));
    mret (Some tt).

Fixpoint write_loop (bytes : list Z) : M PipeInternal wres :=
  match bytes with
  | [] => mret Written
  | c :: rest =>
      full ← is_full;
      if full : bool then mret (Blocked (c :: rest))
      else
        r ← put_byte c;
        match r with
        | None => mret BrokenPipe
        | Some _ => write_loop rest
        end
  end.

(** The first segment of [write], when its [sleep_until] has returned. *)
Definition write_start (bytes : list Z) : M PipeInternal wres :=
  p ← get;
  if negb (readopen p) then mret BrokenPipe else write_loop bytes.

(** The segment after a wait inside the loop, for the byte that had to wait. *)
Definition write_resume (bytes : list Z) : M PipeInternal wres :=
  match bytes with
  | [] => mret Written
  | c :: rest =>
      r ← put_byte c;
      match r with
      | None => mret BrokenPipe
      | Some _ => write_loop rest
      end
  end.

(** [read] into a slice of [n] bytes, when its [sleep_until] has returned. *)
Fixpoint read_loop (n : nat) : M PipeInternal (list Z) :=
  match n with
  | O => mret []
  | S n =>
      p ← get;
      if (nread p =? nwrite p)%Z then mret []
      else
        c ← lift (index (data p) (Z.to_nat (nread p mod PIPESIZE)));
        k ← lift (uadd 64 (nread p) 1);
        _ ← put (mkPipe (data p) k (nwrite p) (readopen p) (writeopen p));
        cs ← read_loop n;
        mret (c :: cs)
  end.

(** ** Refinement to a byte stream *)

(** The pipe holds the bytes [l]. *)
Record pinv (p : PipeInternal) (l : list Z) : Prop := mkPI {
  pi_len : length (data p) = Z.to_nat PIPESIZE;
  pi_read : (0 <= nread p)%Z;
  pi_write : nwrite p = (nread p + Z.of_nat (length l))%Z;
  pi_cap : (Z.of_nat (length l) <= PIPESIZE)%Z;
  pi_ring : ring (data p) (Z.to_nat (nread p)) l }.

(** The counters are far from overflow. *)
Definition room (p : PipeInternal) (k : Z) : Prop := (nwrite p + k + PIPESIZE < 2 ^ 64)%Z.

Lemma slot_nat n : (0 <= n)%Z -> Z.to_nat (n mod PIPESIZE) = Z.to_nat n mod Z.to_nat PIPESIZE.
Proof. intros Hn. unfold PIPESIZE. by rewrite Z2Nat.inj_mod by lia. Qed.

Lemma is_full_spec p l :
  pinv p l -> room p 0 -> is_full p = Done (bool_decide (Z.of_nat (length l) = PIPESIZE), p).
Proof.
  intros [_ Hr Hw Hc _] Hroom. unfold is_full, uadd, room in *. rewrite bind_get, checked_ok, bind_lift.
  - rewrite Hw. case_bool_decide as E.
    + by replace (_ =? _)%Z with true by (symmetry; apply Z.eqb_eq; lia).
    + by replace (_ =? _)%Z with false by (symmetry; apply Z.eqb_neq; lia).
  - unfold in_width, PIPESIZE in *. lia.
Qed.

Lemma put_byte_spec c p l :
  pinv p l -> room p 1 -> (Z.of_nat (length l) < PIPESIZE)%Z ->
  exists p', put_byte c p = Done (Some tt, p') /\ pinv p' (l ++ [c]) /\
    nwrite p' = (nwrite p + 1)%Z /\ readopen p' = readopen p /\ writeopen p' = writeopen p.
Proof.
  intros Hp Hroom Hlt. unfold put_byte. rewrite bind_get.
  mstep (is_full_spec p l Hp ltac:(unfold room in *; lia)). rewrite bool_decide_false by lia.
  rewrite andb_false_r. destruct Hp as [Hlen Hr Hw Hc Hring].
  assert (E : Z.to_nat (nwrite p mod PIPESIZE) = (Z.to_nat (nread p) + length l) mod length (data p)).
  { rewrite slot_nat by lia. rewrite Hlen. f_equal. lia. }
  destruct (lookup_lt_is_Some_2 (data p) (Z.to_nat (nwrite p mod PIPESIZE))) as [x Hx].
  { rewrite E. apply Nat.mod_upper_bound. rewrite Hlen. unfold PIPESIZE. lia. }
  rewrite (index_Some _ _ _ Hx), bind_lift. unfold uadd.
  rewrite checked_ok, bind_lift by (unfold in_width, room, PIPESIZE in *; lia).
  eexists. split; [reflexivity|]. split; [|done]. split; simpl.
  - by rewrite length_insert.
  - done.
  - rewrite length_app. simpl. lia.
  - rewrite length_app. simpl. lia.
  - rewrite E. apply ring_push; [rewrite Hlen; unfold PIPESIZE in *; lia|done].
Qed.

(** A segment of [write] appends a prefix of its bytes; it blocks only on a full pipe. *)
Lemma write_loop_spec bytes p l :
  pinv p l -> room p (Z.of_nat (length bytes)) ->
  exists p' r w, write_loop bytes p = Done (r, p') /\ pinv p' (l ++ w) /\
    readopen p' = readopen p /\ writeopen p' = writeopen p /\
    nwrite p' = (nwrite p + Z.of_nat (length w))%Z /\
    match r with
    | Written => w = bytes
    | Blocked rest => bytes = w ++ rest /\ rest <> [] /\ Z.of_nat (length (l ++ w)) = PIPESIZE
    | BrokenPipe => False
    end.
Proof.
  revert p l. induction bytes as [|c bytes IH]; intros p l Hp Hroom; cbn [write_loop].
  { exists p, Written, []. rewrite app_nil_r. split_and!; try done. simpl. lia. }
  mstep (is_full_spec p l Hp ltac:(unfold room in *; lia)). case_bool_decide as E.
  { exists p, (Blocked (c :: bytes)), []. rewrite app_nil_r. split_and!; try done. simpl. lia. }
  destruct (put_byte_spec c p l Hp) as (p1 & Hput & Hp1 & Hn1 & Hro & Hwo);
    [unfold room in *; simpl in *; lia|destruct Hp; lia|].
  mstep Hput. destruct (IH p1 (l ++ [c]) Hp1) as (p' & r & w & Hrun & Hp' & Hro' & Hwo' & Hn' & Hres).
  { unfold room in *. simpl in Hroom. lia. }
  exists p', r, (c :: w). rewrite <- app_assoc in *. simpl in *.
  split_and!; try done; [congruence..|lia|].
  destruct r; [by rewrite Hres|done|]. destruct Hres as (-> & ? & ?). done.
Qed.

Lemma read_loop_spec n p l :
  pinv p l -> room p 0 ->
  exists p', read_loop n p = Done (take n l, p') /\ pinv p' (drop n l) /\
    nwrite p' = nwrite p /\ readopen p' = readopen p /\ writeopen p' = writeopen p.
Proof.
  revert p l. induction n as [|n IH]; intros p l Hp Hroom; cbn [read_loop].
  { exists p. by rewrite take_0, drop_0. }
  pose proof Hp as [Hlen Hr Hw Hc Hring]. rewrite bind_get. destruct l as [|c l].
  { simpl in Hw. rewrite Z.add_0_r in Hw. rewrite Hw, Z.eqb_refl. by exists p. }
  replace (nread p =? nwrite p)%Z with false by (symmetry; apply Z.eqb_neq; simpl in Hw; lia).
  pose proof (ring_head _ _ _ _ Hring) as Hx. rewrite Hlen, <- slot_nat in Hx by done.
  rewrite (index_Some _ _ _ Hx), bind_lift. unfold uadd.
  rewrite checked_ok, bind_lift by (unfold in_width, room, PIPESIZE in *; lia).
  set (p1 := mkPipe (data p) (nread p + 1) (nwrite p) (readopen p) (writeopen p)).
  assert (Hp1 : pinv p1 l).
  { split; simpl in *; [done|lia|lia|lia|]. rewrite Z2Nat.inj_add, Nat.add_1_r by lia.
    by eapply ring_tail. }
  destruct (IH p1 l Hp1 Hroom) as (p' & Hrun & Hp' & ?). exists p'.
  unfold mbind at 1, M_bind at 1, put at 1. fold p1. mstep Hrun. done.
Qed.

(** The bytes of a segment that went into the pipe. *)
Definition accepted (bytes : list Z) (r : wres) : list Z :=
  match r with
  | Written => bytes
  | BrokenPipe => []
  | Blocked rest => take (length bytes - length rest) bytes
  end.

Lemma accepted_blocked w rest : accepted (w ++ rest) (Blocked rest) = w.
Proof. unfold accepted. rewrite length_app, Nat.add_sub. apply take_app_length. Qed.

Lemma write_start_spec bytes p l :
  pinv p l -> room p (Z.of_nat (length bytes)) ->
  exists p' r, write_start bytes p = Done (r, p') /\ pinv p' (l ++ accepted bytes r) /\
    readopen p' = readopen p /\ writeopen p' = writeopen p /\
    match r with
    | Written => readopen p = true
    | BrokenPipe => readopen p = false /\ p' = p
    | Blocked rest => readopen p = true /\ bytes = accepted bytes r ++ rest /\ rest <> [] /\
        Z.of_nat (length (l ++ accepted bytes r)) = PIPESIZE
    end.
Proof.
  intros Hp Hroom. unfold write_start. rewrite bind_get. destruct (readopen p) eqn:Ero; simpl.
  - destruct (write_loop_spec bytes p l Hp Hroom) as (p' & r & w & Hrun & Hp' & Hro & Hwo & _ & Hres).
    exists p', r. destruct r as [| |rest]; [subst w| |]; try done.
    + split_and!; try done. congruence.
    + destruct Hres as (-> & Hne & Hfull). rewrite accepted_blocked. split_and!; try done. congruence.
  - exists p, BrokenPipe. simpl. rewrite app_nil_r. done.
Qed.

Lemma write_resume_spec bytes p l :
  pinv p l -> room p (Z.of_nat (length bytes)) -> write_pred p = Done true -> bytes <> [] ->
  exists p' r, write_resume bytes p = Done (r, p') /\ pinv p' (l ++ accepted bytes r) /\
    readopen p' = readopen p /\ writeopen p' = writeopen p /\
    match r with
    | Written => True
    | BrokenPipe => readopen p = false /\ p' = p
    | Blocked rest => bytes = accepted bytes r ++ rest /\ length rest < length bytes /\ rest <> [] /\
        Z.of_nat (length (l ++ accepted bytes r)) = PIPESIZE
    end.
Proof.
  intros Hp Hroom Hpred Hne. destruct bytes as [|c bytes]; [done|]. cbn [write_resume].
  assert (Hr0 : room p 0) by (unfold room in *; lia).
  destruct (decide (Z.of_nat (length l) = PIPESIZE)) as [E|E].
  - assert (Hro : readopen p = false).
    { destruct (readopen p) eqn:Ero; [|done]. exfalso. revert Hpred. unfold write_pred. rewrite Ero.
      destruct Hp as [_ H1 H2 _ _]. unfold uadd. rewrite checked_ok by (unfold in_width, room, PIPESIZE in *; lia).
      simpl. unfold mret, outcome_ret. intros [= Hlt]. apply Z.ltb_lt in Hlt. lia. }
    exists p, BrokenPipe. simpl. rewrite app_nil_r. split_and!; try done.
    unfold put_byte. rewrite bind_assoc, bind_get, bind_assoc. mstep (is_full_spec p l Hp Hr0).
    rewrite bool_decide_true, Hro by done. done.
  - destruct (put_byte_spec c p l Hp) as (p1 & Hput & Hp1 & Hn1 & Hro & Hwo);
      [unfold room in *; simpl in *; lia|destruct Hp; lia|].
    mstep Hput. destruct (write_loop_spec bytes p1 (l ++ [c]) Hp1) as
      (p' & r & w & Hrun & Hp' & Hro' & Hwo' & Hn' & Hres).
    { unfold room in *. simpl in Hroom. lia. }
    rewrite <- app_assoc in *. simpl in *. exists p', r.
    destruct r as [| |rest]; [subst w| |]; try done.
    + split_and!; try done; congruence.
    + destruct Hres as (-> & Hnr & Hfull).
      change (c :: w ++ rest) with ((c :: w) ++ rest). rewrite accepted_blocked.
      split_and!; try done; [congruence..|]. rewrite length_app. simpl. lia.
Qed.

(** ** Histories

    The bytes accepted from all writers and the bytes handed to all readers, in
    the order of the segments.  A step takes place when its wait is over; the
    condition [room] only keeps the 64-bit counters from wrapping around. *)
Inductive history : PipeInternal -> list Z -> list Z -> Prop :=
  | hist_new : history Pipe_new [] []
  | hist_start p p' bytes r wr rd :
      history p wr rd -> write_pred p = Done true -> room p (Z.of_nat (length bytes)) ->
      write_start bytes p = Done (r, p') -> history p' (wr ++ accepted bytes r) rd
  | hist_resume p p' bytes r wr rd :
      history p wr rd -> write_pred p = Done true -> room p (Z.of_nat (length bytes)) -> bytes <> [] ->
      write_resume bytes p = Done (r, p') -> history p' (wr ++ accepted bytes r) rd
  | hist_read p p' n cs wr rd :
      history p wr rd -> read_pred p = true -> room p 0 -> read_loop n p = Done (cs, p') ->
      history p' wr (rd ++ cs)
  | hist_close p w wr rd : history p wr rd -> history (close w p) wr rd.

Lemma history_pinv p wr rd : history p wr rd -> exists l, pinv p l /\ wr = rd ++ l.
Proof.
  induction 1 as [|p p' bytes r wr rd _ IH Hpred Hroom Hrun|p p' bytes r wr rd _ IH Hpred Hroom Hne Hrun
    |p p' n cs wr rd _ IH Hpred Hroom Hrun|p w wr rd _ IH].
  - exists []. split; [|done]. split; [done..|apply ring_nil].
  - destruct IH as (l & Hp & ->). destruct (write_start_spec bytes p l Hp Hroom) as (q & r' & Hrun' & Hq & _).
    rewrite Hrun' in Hrun. simplify_eq. exists (l ++ accepted bytes r). by rewrite app_assoc.
  - destruct IH as (l & Hp & ->).
    destruct (write_resume_spec bytes p l Hp Hroom Hpred Hne) as (q & r' & Hrun' & Hq & _).
    rewrite Hrun' in Hrun. simplify_eq. exists (l ++ accepted bytes r). by rewrite app_assoc.
  - destruct IH as (l & Hp & ->). destruct (read_loop_spec n p l Hp Hroom) as (q & Hrun' & Hq & _).
    rewrite Hrun' in Hrun. simplify_eq. exists (drop n l). split; [done|].
    by rewrite <- app_assoc, take_drop.
  - destruct IH as (l & [] & ->). exists l. split; [|done]. by destruct w.
Qed.

(** C35: A pipe is a byte stream: in every interleaving of readers, writers and
    closes, the bytes handed to readers followed by the bytes still in the buffer
    are the bytes accepted from writers, in order; at most 512 bytes are in flight. *)
Theorem pipe_stream p wr rd :
  history p wr rd -> exists l, wr = rd ++ l /\ length l <= 512 /\ nwrite p = (nread p + Z.of_nat (length l))%Z.
Proof.
  intros Hh. destruct (history_pinv p wr rd Hh) as (l & [] & ->). exists l.
  unfold PIPESIZE in *. split_and!; [done|lia|done].
Qed.

(** The segments of [write] and [read] never panic and do what they report:
    [write] either stores all its bytes, or stores a prefix and blocks with the
    pipe full, or stores nothing and reports a broken pipe because the read end is
    closed; [read] returns the oldest bytes, as many as fit, and returns none only
    at the end of the stream (write end closed, pipe empty). *)
Theorem pipe_segments p wr rd bytes n :
  history p wr rd -> room p (Z.of_nat (length bytes)) ->
  (exists p' r, write_start bytes p = Done (r, p') /\
     match r with
     | Written => readopen p = true /\ nwrite p' = (nwrite p + Z.of_nat (length bytes))%Z
     | BrokenPipe => readopen p = false /\ p' = p
     | Blocked rest => exists w, bytes = w ++ rest /\ rest <> [] /\ nwrite p' = (nread p' + PIPESIZE)%Z
     end) /\
  (read_pred p = true -> 0 < n ->
   exists p' cs, read_loop n p = Done (cs, p') /\ length cs <= n /\
     (cs = [] -> writeopen p = false /\ nread p = nwrite p)).
Proof.
  intros Hh Hroom. destruct (history_pinv p wr rd Hh) as (l & Hp & ->). split.
  - destruct (write_start_spec bytes p l Hp Hroom) as (p' & r & Hrun & Hp' & _ & _ & Hres).
    exists p', r. split; [done|]. destruct r as [| |rest]; [|done|].
    + split; [done|]. revert Hrun. unfold write_start. rewrite bind_get, Hres. simpl. intros Hrun.
      destruct (write_loop_spec bytes p l Hp Hroom) as (q & r & w & Hrun' & _ & _ & _ & Hn & Hw).
      rewrite Hrun in Hrun'. simplify_eq. done.
    + destruct Hres as (_ & Hb & Hne & Hfull). exists (accepted bytes (Blocked rest)).
      split_and!; try done. destruct Hp'. lia.
  - intros Hpred Hn. destruct (read_loop_spec n p l Hp ltac:(unfold room in *; lia)) as (p' & Hrun & _).
    exists p', (take n l). rewrite length_take. split_and!; [done|lia|].
    destruct l as [|c l]; [|destruct n; [lia|done]]. intros _. destruct Hp as [_ _ Hw _ _]. simpl in Hw.
    unfold read_pred in Hpred. rewrite Hw, Z.add_0_r, Z.eqb_refl in *. simpl in Hpred.
    rewrite orb_false_r in Hpred. by apply negb_true_iff in Hpred.
Qed.
End Code.

(** *** Witnesses: three bytes written, two read *)

Definition ex_pipe1 : PipeInternal :=
  match write_start (H := false) [1; 2; 3]%Z Pipe_new with Done (_, p) => p | _ => Pipe_new end.
Definition ex_pipe2 : PipeInternal :=
  match read_loop (H := false) 2 ex_pipe1 with Done (_, p) => p | _ => Pipe_new end.

Lemma ex_pipe_history : history (H := false) ex_pipe2 [1; 2; 3]%Z [1; 2]%Z.
Proof.
  assert (H1 : history (H := false) ex_pipe1 [1; 2; 3]%Z []).
  { eapply (hist_start _ _ [1; 2; 3]%Z Written [] []); [constructor|done|done|by vm_compute]. }
  eapply (hist_read _ _ 2 [1; 2]%Z _ []); [exact H1|by vm_compute|by vm_compute|by vm_compute].
Qed.

Lemma pipe_stream_witness : exists l,
  [1; 2; 3]%Z = [1; 2]%Z ++ l /\ length l <= 512 /\ nwrite ex_pipe2 = (nread ex_pipe2 + Z.of_nat (length l))%Z.
Proof. exact (pipe_stream (H := false) ex_pipe2 [1; 2; 3]%Z [1; 2]%Z ex_pipe_history). Defined.

Lemma pipe_segments_witness : exists p' r,
  write_start (H := false) [7; 8]%Z ex_pipe2 = Done (r, p').
Proof.
  destruct (pipe_segments (H := false) ex_pipe2 [1; 2; 3]%Z [1; 2]%Z [7; 8]%Z 4 ex_pipe_history)
    as [(p' & r & H & _) _]; [by vm_compute|]. by exists p', r.
Defined.
