(* ===== verification/FdTable.v ===== *)
(** * File descriptors of the xv6 file system
    (domains/usr/xv6/kernel/fs/src/{opened_file,sysfile,cross_thread_temp_store}.rs, pipe.rs,
    lib/core/tls/src/lib.rs)

    Every thread has a table of 100 descriptors; an entry is an [Arc] of an open file, and
    descriptors of any threads may share one.  A parent saves a table for its child in a store
    that both reach.  The last [Arc] that goes away drops the open file, which closes the
    pipe end or gives the inode back to the inode cache.

    The store [files] holds the allocations behind the [Arc]s with their strong counts; an
    [Arc] is the key of its allocation.  [puts] lists the inodes given back.  A call runs on
    the thread's own table, so calls of different threads interleave call by call. *)

From Stdlib Require Import ZArith Lia.
From stdpp Require Import base gmap list.
From stdpp Require Import options.
From S2P Require Import Prelude Pipe.

Set Default Proof Using "Type".

Definition NFILE : nat := 100.

Inductive ErrorKind := InvalidFileDescriptor | TooManyOpenedFiles | InvalidCTTSId | UnsupportedOperation.

Inductive FileType := FPipe (pipe : nat) | FINode (inode : Z) (offset : Z) | FDevice (inode : Z) (major : Z).
#[export] Instance FileType_eq_dec : EqDecision FileType.
Proof. solve_decision. Defined.
Record OpenedFile := mkFile { file_type : FileType; readable : bool; writable : bool }.

Abbreviation FDTable := (list (option nat)).

Record FsState := mkFs {
  tables : gmap Z FDTable; temp : list (option FDTable); files : gmap nat (OpenedFile * nat);
  pipes : gmap nat PipeInternal; fresh : nat; puts : list Z }.

Definition Fs_new : FsState := mkFs ∅ [] ∅ ∅ 0 [].

Definition set_tables v (s : FsState) := mkFs v (temp s) (files s) (pipes s) (fresh s) (puts s).
Definition set_temp v (s : FsState) := mkFs (tables s) v (files s) (pipes s) (fresh s) (puts s).
Definition set_files v (s : FsState) := mkFs (tables s) (temp s) v (pipes s) (fresh s) (puts s).
Definition set_pipes v (s : FsState) := mkFs (tables s) (temp s) (files s) v (fresh s) (puts s).

(** ** Open files *)

(** [Arc::new] *)
Definition arc_new (f : OpenedFile) : M FsState nat :=
  s ← get; _ ← put (mkFs (tables s) (temp s) (<[fresh s := (f, 1)]> (files s)) (pipes s) (S (fresh s)) (puts s)); mret (fresh s).
Definition arc_clone (a : nat) : M FsState nat :=
  s ← get; e ← lift (expect (files s !! a)); _ ← put (set_files (<[a := (e.1, S e.2)]> (files s)) s); mret a.

(** [Drop for OpenedFile] *)
Definition OpenedFile_drop (f : OpenedFile) (s : FsState) : FsState :=
  match file_type f with
  | FINode i _ | FDevice i _ => mkFs (tables s) (temp s) (files s) (pipes s) (fresh s) (puts s ++ [i])
  | FPipe p => set_pipes (alter (close (writable f)) p (pipes s)) s
  end.

Definition arc_drop (a : nat) : M FsState unit :=
  s ← get;
  e ← lift (expect (files s !! a));
  if e.2 =? 1 then put (OpenedFile_drop e.1 (set_files (delete a (files s)) s))
  else put (set_files (<[a := (e.1, pred e.2)]> (files s)) s).

Fixpoint drop_all (t : FDTable) : M FsState unit :=
  match t with
  | [] => mret tt
  | Some a :: t => _ ← arc_drop a; drop_all t
  | None :: t => drop_all t
  end.

(** [Pipe::pipealloc]; the pipe itself is known by its number. *)
Definition pipealloc : M FsState (nat * nat) :=
  s ← get;
  let p := fresh s in
  _ ← put (mkFs (tables s) (temp s) (files s) (<[p := Pipe_new]> (pipes s)) (S p) (puts s));
  r ← arc_new (mkFile (FPipe p) true false);
  w ← arc_new (mkFile (FPipe p) false true);
  mret (r, w).

(** ** The tables *)

(** [ThreadLocal::with]: the thread's table, made on the first use, taken out and put back. *)
Definition table_of (t : Z) (s : FsState) : FDTable := default (replicate NFILE None) (tables s !! t).
Definition put_table (t : Z) (tb : FDTable) : M FsState unit := modify (fun s => set_tables (<[t := tb]> (tables s)) s).

(** [iter().position(|x| x.is_none())] *)
Fixpoint position {A} (l : list (option A)) : option nat :=
  match l with
  | [] => None
  | None :: _ => Some 0
  | Some _ :: l => S <$> position l
  end.

(** [fdtable.get(fd)] with both of its errors. *)
Definition fd_get (t : Z) (fd : nat) (s : FsState) : result ErrorKind nat :=
  match table_of t s !! fd with Some (Some a) => Ok a | _ => Err InvalidFileDescriptor end.

(** [_fdalloc]: on failure the file goes out of scope. *)
Definition fdalloc (t : Z) (a : nat) : M FsState (result ErrorKind nat) :=
  s ← get;
  let tb := table_of t s in
  match position tb with
  | Some fd => _ ← put_table t (<[fd := Some a]> tb); mret (Ok fd)
  | None => _ ← put_table t tb; _ ← arc_drop a; mret (Err TooManyOpenedFiles)
  end.

(** ** The system calls *)

Definition sys_dup (t : Z) (fd : nat) : M FsState (result ErrorKind nat) :=
  s ← get;
  match fd_get t fd s with
  | Err e => _ ← put_table t (table_of t s); mret (Err e)
  | Ok a => a ← arc_clone a; fdalloc t a
  end.

Definition sys_close (t : Z) (fd : nat) : M FsState (result ErrorKind unit) :=
  s ← get;
  match fd_get t fd s with
  | Err e => _ ← put_table t (table_of t s); mret (Err e)
  | Ok a => _ ← put_table t (<[fd := None]> (table_of t s)); _ ← arc_drop a; mret (Ok tt)
  end.

Definition seek (f : OpenedFile) (new_offset : Z) : result ErrorKind OpenedFile :=
  match file_type f with
  | FINode i _ => Ok (mkFile (FINode i new_offset) (readable f) (writable f))
  | _ => Err UnsupportedOperation
  end.

Definition sys_seek (t : Z) (fd : nat) (offset : Z) : M FsState (result ErrorKind unit) :=
  s ← get;
  _ ← put_table t (table_of t s);
  match fd_get t fd s with
  | Err e => mret (Err e)
  | Ok a =>
      e ← lift (expect (files s !! a));
      match seek e.1 offset with
      | Ok f => _ ← modify (fun s => set_files (<[a := (f, e.2)]> (files s)) s); mret (Ok tt)
      | Err e => mret (Err e)
      end
  end.

(** The end of [sys_open], once the inode is known. *)
Definition open_file (t : Z) (f : OpenedFile) : M FsState (result ErrorKind nat) := a ← arc_new f; fdalloc t a.

Definition sys_pipe (t : Z) : M FsState (result ErrorKind (nat * nat)) :=
  p ← pipealloc;
  let '(rf, wf) := p : nat * nat in
  s ← get;
  match position (table_of t s) with
  | None => _ ← put_table t (table_of t s); _ ← arc_drop rf; _ ← arc_drop wf; mret (Err TooManyOpenedFiles)
  | Some fd0 =>
      _ ← put_table t (<[fd0 := Some rf]> (table_of t s));
      r ← fdalloc t wf;
      match r with
      | Ok fd1 => mret (Ok (fd0, fd1))
      | Err e =>
          s ← get;
          a ← lift (expect (mjoin (table_of t s !! fd0)));
          _ ← put_table t (<[fd0 := None]> (table_of t s));
          _ ← arc_drop a;
          mret (Err e)
      end
  end.

(** ** Tables for a child *)

(** The loop of [sys_save_threadlocal] over the descriptors to pass on; [acc] is the new table. *)
Fixpoint save_loop (t : Z) (fds : list (option nat)) (acc : FDTable) : M FsState (result ErrorKind FDTable) :=
  match fds with
  | [] => mret (Ok acc)
  | None :: fds => save_loop t fds (acc ++ [None])
  | Some fd :: fds =>
      s ← get;
      match table_of t s !! fd with
      | None => _ ← drop_all acc; mret (Err InvalidFileDescriptor)
      | Some None => save_loop t fds (acc ++ [None])
      | Some (Some a) => a ← arc_clone a; save_loop t fds (acc ++ [Some a])
      end
  end.

(** [CrossThreadTempStorage::put] and [get] *)
Definition temp_put (v : FDTable) : M FsState nat :=
  s ← get;
  match position (temp s) with
  | Some id => _ ← put (set_temp (<[id := Some v]> (temp s)) s); mret id
  | None => _ ← put (set_temp (temp s ++ [Some v]) s); mret (length (temp s))
  end.
Definition temp_get (id : nat) : M FsState (option FDTable) :=
  s ← get;
  match temp s !! id with
  | Some v => _ ← put (set_temp (<[id := None]> (temp s)) s); mret v
  | None => mret None
  end.

(** The array of the caller has one place for each descriptor of the new table. *)
Definition sys_save_threadlocal (t : Z) (fds : list (option nat)) : M FsState (result ErrorKind nat) :=
  s ← get;
  _ ← put_table t (table_of t s);
  r ← save_loop t fds [];
  match r with Err e => mret (Err e) | Ok tb => id ← temp_put tb; mret (Ok id) end.

(** Every entry of the thread's table must be empty. *)
Definition sys_set_threadlocal (t : Z) (id : nat) : M FsState (result ErrorKind unit) :=
  o ← temp_get id;
  match o with
  | None => mret (Err InvalidCTTSId)
  | Some tb =>
      s ← get;
      if forallb (fun e => bool_decide (e = None)) (table_of t s) then _ ← put_table t tb; mret (Ok tt) else panic
  end.

Definition sys_thread_exit (t : Z) : M FsState unit :=
  s ← get;
  _ ← put (set_tables (delete t (tables s)) s);
  drop_all (default [] (tables s !! t)).

(** ** References

    All the references that tables, saved tables and local variables hold. *)

Definition entries (tb : FDTable) : list nat := omap id tb.
Definition refs (s : FsState) : list nat := (map_to_list (tables s) ≫= fun kv => entries kv.2) ++ (omap id (temp s) ≫= entries).

(** How often [a] occurs in [l], and its strong count. *)
Definition cnt (a : nat) (l : list nat) : nat := length (filter (.= a) l).
Definition rc (a : nat) (s : FsState) : nat := default 0 (snd <$> files s !! a).

Lemma fd_cnt_app a l l' : cnt a (l ++ l') = cnt a l + cnt a l'.
Proof. unfold cnt. by rewrite list.filter_app, length_app. Qed.
Lemma cnt_cons a b l : cnt a (b :: l) = (if decide (b = a) then 1 else 0) + cnt a l.
Proof. unfold cnt. rewrite list.filter_cons. by destruct (decide (b = a)). Qed.
Lemma cnt_perm a l l' : l ≡ₚ l' -> cnt a l = cnt a l'.
Proof. intros E. unfold cnt. by rewrite E. Qed.
Lemma cnt_pos a l : a ∈ l <-> 0 < cnt a l.
Proof.
  unfold cnt. split.
  - intros Ha. assert (Hf : a ∈ filter (.= a) l) by (by apply list_elem_of_filter). destruct (filter _ l); [by apply not_elem_of_nil in Hf|cbn; lia].
  - intros Hc. destruct (filter (.= a) l) as [|b l'] eqn:E; [cbn in Hc; lia|]. assert (Hb : b ∈ filter (.= a) l) by (rewrite E; left).
    apply list_elem_of_filter in Hb as [-> Hb]. done.
Qed.

Definition others (t : Z) (s : FsState) : list nat := refs (set_tables (delete t (tables s)) s).

Lemma refs_split t s : refs s ≡ₚ entries (table_of t s) ++ others t s.
Proof.
  unfold others, refs, table_of. cbn [tables temp set_tables]. destruct (tables s !! t) as [tb|] eqn:E; cbn [default].
  - rewrite <- (insert_delete_id _ _ _ E) at 1. rewrite map_to_list_insert by apply lookup_delete_eq. rewrite bind_cons. by rewrite app_assoc.
  - rewrite (delete_id _ _ E). unfold entries at 3. replace (omap id (replicate NFILE None)) with (@nil nat); [done|].
    symmetry. generalize NFILE. intros n. by induction n.
Qed.

Lemma refs_put t tb s : refs (set_tables (<[t := tb]> (tables s)) s) ≡ₚ entries tb ++ others t s.
Proof.
  unfold others, refs. cbn [tables temp set_tables]. rewrite <- insert_delete_eq, map_to_list_insert by apply lookup_delete_eq. rewrite bind_cons. by rewrite app_assoc.
Qed.

(** One entry of a table. *)
Lemma omap_id_cons {A} (e : option A) l : omap id (e :: l) = option_list e ++ omap id l.
Proof. by destruct e. Qed.
Lemma omap_id_insert {A} (l : list (option A)) i o : i < length l -> omap id (<[i := o]> l) ≡ₚ option_list o ++ omap id (<[i := None]> l).
Proof.
  revert i. induction l as [|e l IH]; intros i Hi; [cbn in Hi; lia|]. destruct i as [|i]; cbn [length] in Hi; [by destruct o|].
  change (<[S i := o]> (e :: l)) with (e :: <[i := o]> l). change (<[S i := None]> (e :: l)) with (e :: <[i := None]> l).
  rewrite !omap_id_cons, (IH i) by lia. solve_Permutation.
Qed.
Lemma omap_id_take {A} (l : list (option A)) i o : l !! i = Some o -> omap id l ≡ₚ option_list o ++ omap id (<[i := None]> l).
Proof. intros E. rewrite <- (list_insert_id l i o E) at 1. apply omap_id_insert. by eapply lookup_lt_Some. Qed.

Lemma position_None {A} (l : list (option A)) i : position l = Some i -> l !! i = Some None /\ forall j, j < i -> exists a, l !! j = Some (Some a).
Proof.
  revert i. induction l as [|[a|] l IH]; intros i E; cbn in E; [done| |].
  - destruct (position l) as [k|] eqn:Ek; [|done]. injection E as <-. destruct (IH k eq_refl) as [E1 E2]. split; [done|].
    intros [|j] Hj; [by exists a|]. apply (E2 j). lia.
  - injection E as <-. split; [done|]. intros j Hj. lia.
Qed.

(** ** The invariant; [extra] are the references of local variables *)

Definition end_open (w : bool) (p : PipeInternal) : bool := if w then writeopen p else readopen p.

Record fs_ok (s : FsState) (extra : list nat) : Prop := {
  o_rc a : rc a s = cnt a (refs s ++ extra);
  o_pos a f n : files s !! a = Some (f, n) -> 0 < n;
  o_fresh a f n : files s !! a = Some (f, n) -> a < fresh s;
  o_pfresh p pi : pipes s !! p = Some pi -> p < fresh s;
  o_known a f n p : files s !! a = Some (f, n) -> file_type f = FPipe p -> is_Some (pipes s !! p);
  o_one a a' f f' n n' p : files s !! a = Some (f, n) -> files s !! a' = Some (f', n') ->
    file_type f = FPipe p -> file_type f' = FPipe p -> writable f = writable f' -> a = a';
  o_open p pi w : pipes s !! p = Some pi -> end_open w pi = true <-> exists a f n, files s !! a = Some (f, n) /\ file_type f = FPipe p /\ writable f = w;
  o_len t tb : tables s !! t = Some tb -> length tb = NFILE;
  o_temp i tb : temp s !! i = Some (Some tb) -> length tb = NFILE }.

Lemma fs_ok_perm s extra extra' : extra ≡ₚ extra' -> fs_ok s extra -> fs_ok s extra'.
Proof. intros E O. destruct O. split; try done. intros a. rewrite o_rc0. apply cnt_perm. by rewrite E. Qed.

(** A change of the tables that moves references to or from local variables. *)
Lemma fs_ok_tables s s' extra extra' : refs s' ++ extra' ≡ₚ refs s ++ extra -> files s' = files s -> pipes s' = pipes s -> fresh s' = fresh s ->
  (forall t tb, tables s' !! t = Some tb -> length tb = NFILE) -> (forall i tb, temp s' !! i = Some (Some tb) -> length tb = NFILE) ->
  fs_ok s extra -> fs_ok s' extra'.
Proof.
  intros E E1 E2 E3 H1 H2 O. destruct O. split; rewrite ?E1, ?E2, ?E3; try done. intros a. unfold rc. rewrite E1. fold (rc a s). rewrite o_rc0.
  symmetry. by apply cnt_perm.
Qed.

Lemma table_length s extra t : fs_ok s extra -> length (table_of t s) = NFILE.
Proof. intros O. unfold table_of. destruct (tables s !! t) as [tb|] eqn:E; cbn [default]; [exact (o_len _ _ O _ _ E)|apply length_replicate]. Qed.

Lemma put_table_ok s t tb extra extra' : entries tb ++ extra' ≡ₚ entries (table_of t s) ++ extra -> length tb = NFILE -> fs_ok s extra ->
  fs_ok (set_tables (<[t := tb]> (tables s)) s) extra'.
Proof.
  intros E Hl O. eapply (fs_ok_tables s); [|done..| |apply O|exact O].
  - rewrite refs_put, (refs_split t s). transitivity (others t s ++ (entries tb ++ extra')); [solve_Permutation|]. rewrite E. solve_Permutation.
  - cbn. intros t' tb'. destruct (decide (t = t')) as [<-|Hne]; [rewrite lookup_insert_eq; by intros [= <-]|]. rewrite lookup_insert_ne by done. apply O.
Qed.

(** *** Arcs *)

Lemma alive s extra a : fs_ok s extra -> a ∈ refs s ++ extra -> exists f n, files s !! a = Some (f, S n).
Proof.
  intros O Ha. apply cnt_pos in Ha. rewrite <- (o_rc _ _ O) in Ha. unfold rc in Ha. destruct (files s !! a) as [[f n]|]; cbn in Ha; [|lia].
  destruct n as [|n]; [lia|]. by exists f, n.
Qed.

Lemma arc_new_ok f s extra : fs_ok s extra -> (forall p, file_type f <> FPipe p) ->
  run (arc_new f) s (fun a s' => fs_ok s' (a :: extra) /\ tables s' = tables s /\ temp s' = temp s).
Proof.
  intros O Hf. eexists _, _. split; [reflexivity|]. split; [|done]. assert (Hn : files s !! fresh s = None).
  { destruct (files s !! fresh s) as [[f' n]|] eqn:E; [|done]. pose proof (o_fresh _ _ O _ _ _ E). lia. }
  split; cbn [files pipes fresh tables temp].
  - intros a. change (refs _) with (refs s). unfold rc. cbn [files]. rewrite fd_cnt_app, cnt_cons, (Nat.add_comm _ (cnt a extra)), Nat.add_assoc, <- fd_cnt_app, <- (o_rc _ _ O).
    destruct (decide (fresh s = a)) as [<-|Hne]; [rewrite lookup_insert_eq; unfold rc; by rewrite Hn|rewrite lookup_insert_ne by done; unfold rc; lia].
  - intros a f' n. destruct (decide (fresh s = a)) as [<-|Hne]; [rewrite lookup_insert_eq; intros [= <- <-]; lia|rewrite lookup_insert_ne by done; apply O].
  - intros a f' n. destruct (decide (fresh s = a)) as [<-|Hne]; [lia|rewrite lookup_insert_ne by done]. intros E. apply (o_fresh _ _ O) in E. lia.
  - intros p pi E. apply (o_pfresh _ _ O) in E. lia.
  - intros a f' n p. destruct (decide (fresh s = a)) as [<-|Hne]; [rewrite lookup_insert_eq; intros [= <- <-] E; by destruct (Hf p E)|rewrite lookup_insert_ne by done; apply O].
  - intros a a' f1 f2 n n' p. destruct (decide (fresh s = a)) as [<-|Hne]; [rewrite lookup_insert_eq; intros [= <- <-] _ E; by destruct (Hf p E)|].
    rewrite lookup_insert_ne by done. destruct (decide (fresh s = a')) as [<-|Hne']; [rewrite lookup_insert_eq; intros _ [= <- <-] _ E; by destruct (Hf p E)|].
    rewrite lookup_insert_ne by done. apply O.
  - intros p pi w E. rewrite (o_open _ _ O p pi w E). split; intros (a & f' & n & Ha & Hr); exists a, f', n; (split; [|done]).
    + rewrite lookup_insert_ne; [done|]. intros <-. congruence.
    + destruct (decide (fresh s = a)) as [<-|Hne]; [|by rewrite lookup_insert_ne in Ha]. rewrite lookup_insert_eq in Ha. injection Ha as <- <-. by destruct (Hf p (proj1 Hr)).
  - apply O.
  - apply O.
Qed.

(** A changed count, or offset, of a file that stays. *)
Lemma recount s a f f' n m extra extra' : files s !! a = Some (f, n) -> 0 < m -> (forall p, file_type f' = FPipe p <-> file_type f = FPipe p) -> writable f' = writable f ->
  (forall b, cnt b extra' + (if decide (a = b) then n else 0) = cnt b extra + (if decide (a = b) then m else 0)) ->
  fs_ok s extra -> fs_ok (set_files (<[a := (f', m)]> (files s)) s) extra'.
Proof.
  intros E Hm Ht Hw Hc O.
  assert (Hback : forall b g k, <[a := (f', m)]> (files s) !! b = Some (g, k) -> exists g0 k0, files s !! b = Some (g0, k0) /\
    (forall p, file_type g = FPipe p <-> file_type g0 = FPipe p) /\ writable g = writable g0).
  { intros b g k. destruct (decide (a = b)) as [<-|Hne]; [rewrite lookup_insert_eq; intros [= <- <-]; by exists f, n|].
    rewrite lookup_insert_ne by done. intros Hb. by exists g, k. }
  split; cbn [files pipes fresh tables temp set_files].
  - intros b. change (refs _) with (refs s). rewrite fd_cnt_app. unfold rc. cbn [files set_files]. pose proof (o_rc _ _ O b) as Hb. rewrite fd_cnt_app in Hb. specialize (Hc b).
    unfold rc in Hb. destruct (decide (a = b)) as [<-|Hne]; [rewrite lookup_insert_eq; rewrite E in Hb; cbn in *; lia|rewrite lookup_insert_ne by done; lia].
  - intros b g k. destruct (decide (a = b)) as [<-|Hne]; [rewrite lookup_insert_eq; by intros [= <- <-]|]. rewrite lookup_insert_ne by done. apply O.
  - intros b g k Hb. destruct (Hback _ _ _ Hb) as (g0 & k0 & Hb0 & _). exact (o_fresh _ _ O _ _ _ Hb0).
  - apply O.
  - intros b g k p Hb Hp. destruct (Hback _ _ _ Hb) as (g0 & k0 & Hb0 & Hg & _). apply Hg in Hp. by eapply (o_known _ _ O).
  - intros b b' g g' k k' p Hb Hb' Hp Hp' Hww. destruct (Hback _ _ _ Hb) as (g0 & k0 & Hb0 & Hg & Hgw). destruct (Hback _ _ _ Hb') as (g1 & k1 & Hb1 & Hg1 & Hgw1).
    apply Hg in Hp. apply Hg1 in Hp'. eapply (o_one _ _ O); [exact Hb0|exact Hb1|done..|congruence].
  - intros p pi w Hpi. rewrite (o_open _ _ O p pi w Hpi). split; intros (b & g & k & Hb & Hp & Hbw).
    + destruct (decide (a = b)) as [<-|Hne]; [exists a, f', m; rewrite lookup_insert_eq; rewrite E in Hb; injection Hb as <- <-; split_and!; [done|by apply Ht|congruence]|].
      exists b, g, k. by rewrite lookup_insert_ne.
    + destruct (Hback _ _ _ Hb) as (g0 & k0 & Hb0 & Hg & Hgw). exists b, g0, k0. split_and!; [done|by apply Hg|congruence].
  - apply O.
  - apply O.
Qed.

Lemma arc_clone_ok a s extra : fs_ok s extra -> a ∈ refs s ++ extra ->
  run (arc_clone a) s (fun r s' => r = a /\ fs_ok s' (a :: extra) /\ tables s' = tables s /\ temp s' = temp s).
Proof.
  intros O Ha. destruct (alive _ _ _ O Ha) as (f & n & E). eexists _, _. split; [unfold arc_clone; rewrite bind_get, E; reflexivity|]. split_and!; [done| |done..].
  eapply recount; [exact E|cbn; lia|done..| |exact O]. intros b. rewrite cnt_cons. cbn. destruct (decide (a = b)); lia.
Qed.

(** The last reference to a file goes away. *)
Lemma last_drop s a f extra : files s !! a = Some (f, 1) -> fs_ok s (a :: extra) -> fs_ok (OpenedFile_drop f (set_files (delete a (files s)) s)) extra.
Proof.
  intros E O. set (s' := OpenedFile_drop f (set_files (delete a (files s)) s)).
  assert (Ef : files s' = delete a (files s) /\ fresh s' = fresh s /\ tables s' = tables s /\ temp s' = temp s /\ refs s' = refs s).
  { unfold s', OpenedFile_drop. destruct (file_type f); done. }
  destruct Ef as (E1 & E2 & E3 & E4 & E5).
  assert (Ep : forall p pi, pipes s' !! p = Some pi -> exists pi0, pipes s !! p = Some pi0 /\
    pi = (if decide (file_type f = FPipe p) then close (writable f) pi0 else pi0)).
  { intros p pi. unfold s', OpenedFile_drop. destruct (file_type f) as [q| |]; cbn; [|intros Hp; exists pi; by rewrite decide_False..].
    destruct (decide (q = p)) as [->|Hne].
    - rewrite lookup_alter_eq. intros (pi0 & Hp0 & ->)%fmap_Some. exists pi0. by rewrite decide_True.
    - rewrite lookup_alter_ne by done. intros Hp. exists pi. by rewrite decide_False by congruence. }
  split; rewrite ?E1, ?E2, ?E3, ?E4, ?E5.
  - intros b. unfold rc. rewrite E1. pose proof (o_rc _ _ O b) as Hb. rewrite fd_cnt_app, cnt_cons in Hb. rewrite fd_cnt_app. unfold rc in Hb.
    destruct (decide (a = b)) as [<-|Hne]; [rewrite lookup_delete_eq; rewrite E in Hb; cbn in *; lia|rewrite lookup_delete_ne by done; lia].
  - intros b g k Hb. apply lookup_delete_Some in Hb as [_ Hb]. exact (o_pos _ _ O _ _ _ Hb).
  - intros b g k Hb. apply lookup_delete_Some in Hb as [_ Hb]. exact (o_fresh _ _ O _ _ _ Hb).
  - intros p pi Hp. destruct (Ep p pi Hp) as (pi0 & Hp0 & _). exact (o_pfresh _ _ O _ _ Hp0).
  - intros b g k p Hb Hp. apply lookup_delete_Some in Hb as [_ Hb]. destruct (o_known _ _ O _ _ _ _ Hb Hp) as [pi Hpi].
    unfold s', OpenedFile_drop. destruct (file_type f); cbn; [|by exists pi..]. apply lookup_alter_is_Some. by exists pi.
  - intros b b' g g' k k' p Hb Hb'. apply lookup_delete_Some in Hb as [_ Hb]. apply lookup_delete_Some in Hb' as [_ Hb']. by eapply (o_one _ _ O).
  - intros p pi w Hp. destruct (Ep p pi Hp) as (pi0 & Hp0 & ->). pose proof (o_open _ _ O p pi0 w Hp0) as Hop. destruct (decide (file_type f = FPipe p)) as [Hfp|Hfp].
    + destruct (decide (writable f = w)) as [Hww|Hww].
      * split; [subst w; by destruct (writable f)|]. intros (b & g & k & Hb & Hgp & Hgw). apply lookup_delete_Some in Hb as [Hne Hb].
        destruct Hne. eapply (o_one _ _ O); [exact E|exact Hb|done..|congruence].
      * replace (end_open w (close (writable f) pi0)) with (end_open w pi0) by (by destruct w, (writable f)). rewrite Hop.
        split; intros (b & g & k & Hb & Hgp & Hgw); exists b, g, k; (split; [|done]); [rewrite lookup_delete_ne; [done|congruence]|by apply lookup_delete_Some in Hb as [_ Hb]].
    + rewrite Hop. split; intros (b & g & k & Hb & Hgp & Hgw); exists b, g, k; (split; [|done]); [rewrite lookup_delete_ne; [done|congruence]|by apply lookup_delete_Some in Hb as [_ Hb]].
  - apply O.
  - apply O.
Qed.

Lemma arc_drop_ok a s extra : fs_ok s (a :: extra) -> run (arc_drop a) s (fun _ s' => fs_ok s' extra /\ tables s' = tables s /\ temp s' = temp s).
Proof.
  intros O. destruct (alive _ _ a O) as (f & n & E); [apply elem_of_app; right; left|]. unfold arc_drop. eapply run_step; [reflexivity|].
  eapply run_lift; [by rewrite E|]. cbn [fst snd]. destruct (Nat.eqb_spec (S n) 1) as [Hn|Hn].
  - injection Hn as ->. eexists tt, _. split; [reflexivity|]. split; [by apply last_drop|]. unfold OpenedFile_drop. by destruct (file_type f).
  - eexists tt, _. split; [reflexivity|]. split; [|done]. eapply recount; [exact E|cbn; lia|done..| |exact O]. intros b. rewrite cnt_cons. cbn. destruct (decide (a = b)); lia.
Qed.

Lemma drop_all_ok tb s extra : fs_ok s (entries tb ++ extra) -> run (drop_all tb) s (fun _ s' => fs_ok s' extra /\ tables s' = tables s /\ temp s' = temp s).
Proof.
  revert s. induction tb as [|[a|] tb IH]; intros s O; cbn [drop_all]; [by apply run_ret| |by apply IH].
  eapply run_bind; [exact (arc_drop_ok a s (entries tb ++ extra) O)|]. intros [] s1 (O1 & E1 & E2). rewrite <- E1, <- E2. by apply IH.
Qed.

(** *** The calls *)

Lemma table_of_put t tb s : table_of t (set_tables (<[t := tb]> (tables s)) s) = tb.
Proof. unfold table_of. cbn [tables set_tables]. by rewrite lookup_insert_eq. Qed.

Lemma touch_ok t s extra : fs_ok s extra -> fs_ok (set_tables (<[t := table_of t s]> (tables s)) s) extra.
Proof. intros O. eapply put_table_ok; [done|by eapply table_length|exact O]. Qed.

Lemma fdalloc_ok t a s extra : fs_ok s (a :: extra) -> run (fdalloc t a) s (fun r s' => fs_ok s' extra /\ temp s' = temp s /\
  match r with
  | Ok fd => position (table_of t s) = Some fd /\ table_of t s' = <[fd := Some a]> (table_of t s)
  | Err _ => position (table_of t s) = None /\ table_of t s' = table_of t s
  end).
Proof.
  intros O. unfold fdalloc. eapply run_step; [reflexivity|]. pose proof (table_length _ _ t O) as Hl. destruct (position (table_of t s)) as [fd|] eqn:Ep.
  - destruct (position_None _ _ Ep) as [E _]. pose proof (lookup_lt_Some _ _ _ E) as Hfd. eapply run_step; [reflexivity|]. apply run_ret. split_and!; [|done..|apply table_of_put].
    apply (put_table_ok s t (<[fd := Some a]> (table_of t s)) (a :: extra) extra); [|by rewrite length_insert|exact O]. unfold entries. rewrite omap_id_insert by done. rewrite (omap_id_take _ _ _ E). solve_Permutation.
  - eapply run_step; [reflexivity|]. eapply run_bind; [apply arc_drop_ok, touch_ok, O|]. intros [] s1 (O1 & E1 & E2). apply run_ret. split_and!; [done..|].
    unfold table_of at 1. rewrite E1. cbn [tables set_tables]. by rewrite lookup_insert_eq.
Qed.

Lemma fd_get_ref t fd s a : fd_get t fd s = Ok a -> table_of t s !! fd = Some (Some a) /\ a ∈ refs s.
Proof.
  unfold fd_get. destruct (table_of t s !! fd) as [[b|]|] eqn:E; [|done..]. intros [= ->]. split; [done|]. rewrite (refs_split t s). apply elem_of_app. left.
  unfold entries. rewrite (omap_id_take _ _ _ E). cbn. left.
Qed.

Lemma sys_dup_ok t fd s : fs_ok s [] -> run (sys_dup t fd) s (fun r s' => fs_ok s' []).
Proof.
  intros O. unfold sys_dup. eapply run_step; [reflexivity|]. destruct (fd_get t fd s) as [a|e] eqn:E.
  - destruct (fd_get_ref _ _ _ _ E) as [_ Ha]. eapply run_bind; [apply arc_clone_ok; [exact O|by rewrite app_nil_r]|]. intros b s1 (-> & O1 & _).
    eapply run_mono; [by apply fdalloc_ok|]. by intros r s' (O' & _).
  - eapply run_step; [reflexivity|]. apply run_ret. by apply touch_ok.
Qed.

Lemma sys_close_ok t fd s : fs_ok s [] -> run (sys_close t fd) s (fun r s' => fs_ok s' []).
Proof.
  intros O. unfold sys_close. eapply run_step; [reflexivity|]. destruct (fd_get t fd s) as [a|e] eqn:E.
  - destruct (fd_get_ref _ _ _ _ E) as [Hfd _]. eapply run_step; [reflexivity|]. eapply run_bind; [apply arc_drop_ok|].
    + apply (put_table_ok s t (<[fd := None]> (table_of t s)) [] [a]); [|by rewrite length_insert; eapply table_length|exact O]. unfold entries. rewrite (omap_id_take _ _ _ Hfd). cbn. solve_Permutation.
    + intros [] s1 (O1 & _). by apply run_ret.
  - eapply run_step; [reflexivity|]. apply run_ret. by apply touch_ok.
Qed.

Lemma sys_seek_ok t fd off s : fs_ok s [] -> run (sys_seek t fd off) s (fun r s' => fs_ok s' []).
Proof.
  intros O. unfold sys_seek. eapply run_step; [reflexivity|]. eapply run_step; [reflexivity|]. pose proof (touch_ok t s [] O) as O1. destruct (fd_get t fd s) as [a|e] eqn:E; [|by apply run_ret].
  destruct (fd_get_ref _ _ _ _ E) as [_ Ha]. destruct (alive s [] a O) as (f & n & Ea); [by rewrite app_nil_r|].
  eapply run_lift; [by rewrite Ea|]. cbn [fst snd]. unfold seek. destruct (file_type f) as [p|i o|i m] eqn:Ef; [by apply run_ret| |by apply run_ret].
  eapply run_step; [reflexivity|]. apply run_ret. eapply recount; [exact Ea|lia| |done| |exact O1]; [intros p; rewrite Ef; split; intros [=]|done].
Qed.

Lemma open_file_ok t f s : (forall p, file_type f <> FPipe p) -> fs_ok s [] -> run (open_file t f) s (fun r s' => fs_ok s' []).
Proof.
  intros Hf O. unfold open_file. eapply run_bind; [by apply arc_new_ok|]. intros a s1 (O1 & _). eapply run_mono; [by apply fdalloc_ok|]. by intros r s' (O' & _).
Qed.

Lemma pipealloc_ok s extra : fs_ok s extra -> run pipealloc s (fun p s' => fs_ok s' (p.1 :: p.2 :: extra) /\ tables s' = tables s /\ temp s' = temp s).
Proof.
  intros O. unfold pipealloc. do 4 (eapply run_step; [reflexivity|]). apply run_ret. split; [|done]. cbn [fst snd tables temp files pipes fresh puts].
  set (p := fresh s). set (rf := mkFile (FPipe p) true false). set (wf := mkFile (FPipe p) false true).
  assert (Hn : forall k, files s !! (k + p) = None).
  { intros k. destruct (files s !! (k + p)) as [[f' n]|] eqn:E; [|done]. pose proof (o_fresh _ _ O _ _ _ E). unfold p in *. lia. }
  assert (Hpn : pipes s !! p = None) by (destruct (pipes s !! p) as [pi|] eqn:E; [|done]; pose proof (o_pfresh _ _ O _ _ E); unfold p in *; lia).
  assert (Hlk : forall a f n, <[S (S p) := (wf, 1)]> (<[S p := (rf, 1)]> (files s)) !! a = Some (f, n) <->
    (a = S (S p) /\ f = wf /\ n = 1) \/ (a = S p /\ f = rf /\ n = 1) \/ (a <> S p /\ a <> S (S p) /\ files s !! a = Some (f, n))).
  { intros a f n. rewrite !lookup_insert_Some. naive_solver lia. }
  assert (Hold : forall a f n, files s !! a = Some (f, n) -> file_type f <> FPipe p).
  { intros a f n E Ef. destruct (o_known _ _ O _ _ _ _ E Ef) as [pi Hpi]. congruence. }
  split; cbn [files pipes fresh tables temp].
  - intros a. change (refs _) with (refs s). unfold rc. cbn [files]. rewrite fd_cnt_app, !cnt_cons. pose proof (o_rc _ _ O a) as Ha. rewrite fd_cnt_app in Ha. unfold rc in Ha.
    pose proof (Hn 1) as Hn1. pose proof (Hn 2) as Hn2. cbn in Hn1, Hn2. destruct (decide (S (S p) = a)) as [<-|Hne]; [|destruct (decide (S p = a)) as [<-|Hne']].
    + rewrite lookup_insert_eq. rewrite Hn2 in Ha. cbn in *. rewrite decide_False by lia. lia.
    + rewrite lookup_insert_ne, lookup_insert_eq by lia. rewrite Hn1 in Ha. cbn in *. lia.
    + rewrite !lookup_insert_ne by done. lia.
  - intros a f n [(-> & -> & ->)|[(-> & -> & ->)|(_ & _ & E)]]%Hlk; [lia..|]. exact (o_pos _ _ O _ _ _ E).
  - intros a f n [(-> & -> & ->)|[(-> & -> & ->)|(_ & _ & E)]]%Hlk; [lia..|]. pose proof (o_fresh _ _ O _ _ _ E). unfold p. lia.
  - intros q pi [[<- _]|[_ E]]%lookup_insert_Some; [lia|]. pose proof (o_pfresh _ _ O _ _ E). unfold p. lia.
  - intros a f n q E Eq. apply Hlk in E as [(-> & -> & ->)|[(-> & -> & ->)|(_ & _ & E)]]; [injection Eq as <-; rewrite lookup_insert_eq; by eexists..|].
    apply lookup_insert_is_Some'. right. by eapply (o_known _ _ O).
  - intros a a' f f' n n' q E E' Eq Eq' Ew.
    apply Hlk in E as [(-> & -> & ->)|[(-> & -> & ->)|(_ & _ & E)]]; apply Hlk in E' as [(-> & -> & ->)|[(-> & -> & ->)|(_ & _ & E')]]; try done;
      try (injection Eq as <-; by destruct (Hold _ _ _ E')); try (injection Eq' as <-; by destruct (Hold _ _ _ E)). by eapply (o_one _ _ O).
  - intros q pi w [[<- <-]|[Hne E]]%lookup_insert_Some.
    + split; [|by destruct w]. intros _. destruct w; [exists (S (S p)), wf, 1|exists (S p), rf, 1]; (split; [apply Hlk; auto|done]).
    + rewrite (o_open _ _ O q pi w E). split; intros (a & f & n & Ha & Hq & Hw); exists a, f, n; (split; [|done]).
      * apply Hlk. right. right. pose proof (Hn 1) as Hn1. pose proof (Hn 2) as Hn2. cbn in Hn1, Hn2. split_and!; [congruence..|done].
      * apply Hlk in Ha as [(-> & -> & ->)|[(-> & -> & ->)|(_ & _ & Ha)]]; [by injection Hq as <-..|done].
  - apply O.
  - apply O.
Qed.

Lemma sys_pipe_ok t s : fs_ok s [] -> run (sys_pipe t) s (fun r s' => fs_ok s' []).
Proof.
  intros O. unfold sys_pipe. eapply run_bind; [by apply pipealloc_ok|]. intros [rf wf] s1 (O1 & _). cbn [fst snd] in O1. eapply run_step; [reflexivity|].
  destruct (position (table_of t s1)) as [fd0|] eqn:Ep.
  - destruct (position_None _ _ Ep) as [E0 _]. pose proof (lookup_lt_Some _ _ _ E0) as Hfd. eapply run_step; [reflexivity|].
    assert (O2 : fs_ok (set_tables (<[t := <[fd0 := Some rf]> (table_of t s1)]> (tables s1)) s1) [wf]).
    { apply (put_table_ok s1 t (<[fd0 := Some rf]> (table_of t s1)) [rf; wf] [wf]); [|rewrite length_insert; by eapply table_length|exact O1].
      unfold entries. rewrite omap_id_insert by done. rewrite (omap_id_take _ _ _ E0). cbn. solve_Permutation. }
    eapply run_bind; [exact (fdalloc_ok t wf _ [] O2)|]. intros [fd1|e] s3 (O3 & _ & _ & Et); [by apply run_ret|]. rewrite table_of_put in Et.
    eapply run_step; [reflexivity|]. assert (Hfd0 : table_of t s3 !! fd0 = Some (Some rf)) by (rewrite Et; by apply list_lookup_insert_eq).
    eapply run_lift; [by rewrite Hfd0|]. eapply run_step; [reflexivity|]. eapply run_bind; [apply arc_drop_ok|].
    + apply (put_table_ok s3 t (<[fd0 := None]> (table_of t s3)) [] [rf]); [|rewrite length_insert; by eapply table_length|exact O3].
      unfold entries. rewrite (omap_id_take _ _ _ Hfd0). cbn. solve_Permutation.
    + intros [] s4 (O4 & _). by apply run_ret.
  - eapply run_step; [reflexivity|]. eapply run_bind; [eapply arc_drop_ok, touch_ok, O1|]. intros [] s2 (O2 & _). eapply run_bind; [by apply arc_drop_ok|].
    intros [] s3 (O3 & _). by apply run_ret.
Qed.

Lemma save_loop_ok t fds acc s : fs_ok s (entries acc) -> run (save_loop t fds acc) s (fun r s' =>
  match r with Ok tb => fs_ok s' (entries tb) /\ length tb = length acc + length fds | Err _ => fs_ok s' [] end).
Proof.
  revert acc s. induction fds as [|[fd|] fds IH]; intros acc s O; cbn [save_loop length].
  - apply run_ret. split; [done|lia].
  - eapply run_step; [reflexivity|]. destruct (table_of t s !! fd) as [[a|]|] eqn:E.
    + eapply run_bind; [apply arc_clone_ok; [exact O|]|].
      { apply elem_of_app. left. eapply fd_get_ref. unfold fd_get. by rewrite E. }
      intros b s1 (-> & O1 & _). eapply run_mono; [apply IH|].
      * unfold entries. rewrite omap_app. eapply fs_ok_perm; [|exact O1]. cbn. solve_Permutation.
      * intros [tb|e] s' Hr; [|done]. rewrite length_app in Hr. cbn in Hr. split; [apply Hr|lia].
    + eapply run_mono; [apply IH|].
      * unfold entries. rewrite omap_app. cbn. by rewrite app_nil_r.
      * intros [tb|e] s' Hr; [|done]. rewrite length_app in Hr. cbn in Hr. split; [apply Hr|lia].
    + eapply run_bind; [apply (drop_all_ok acc s []); by rewrite app_nil_r|]. intros [] s1 (O1 & _). by apply run_ret.
  - eapply run_mono; [apply IH|].
    + unfold entries. rewrite omap_app. cbn. by rewrite app_nil_r.
    + intros [tb|e] s' Hr; [|done]. rewrite length_app in Hr. cbn in Hr. split; [apply Hr|lia].
Qed.

(** The saved tables. *)
Lemma refs_temp s l : refs (set_temp l s) = (map_to_list (tables s) ≫= fun kv => entries kv.2) ++ (omap id l ≫= entries).
Proof. done. Qed.

Lemma temp_length_insert (l : list (option FDTable)) i o : (forall j tb, l !! j = Some (Some tb) -> length tb = NFILE) ->
  (forall tb, o = Some tb -> length tb = NFILE) -> forall j tb, <[i := o]> l !! j = Some (Some tb) -> length tb = NFILE.
Proof. intros Hl Ho j tb [(-> & -> & _)|[_ E]]%list_lookup_insert_Some; [by apply Ho|by eapply Hl]. Qed.

Lemma temp_put_ok tb s : fs_ok s (entries tb) -> length tb = NFILE -> run (temp_put tb) s (fun _ s' => fs_ok s' []).
Proof.
  intros O Hl. unfold temp_put. eapply run_step; [reflexivity|]. destruct (position (temp s)) as [id|] eqn:Ep.
  - destruct (position_None _ _ Ep) as [E _]. eapply run_step; [reflexivity|]. apply run_ret. eapply (fs_ok_tables s); [|done..|apply O| |exact O].
    + rewrite refs_temp. unfold refs. rewrite omap_id_insert by (by eapply lookup_lt_Some). rewrite (omap_id_take _ _ _ E). rewrite !bind_app. cbn. rewrite app_nil_r. solve_Permutation.
    + apply temp_length_insert; [apply O|by intros tb' [= <-]].
  - eapply run_step; [reflexivity|]. apply run_ret. eapply (fs_ok_tables s); [|done..|apply O| |exact O].
    + rewrite refs_temp. unfold refs. rewrite omap_app, bind_app. cbn. solve_Permutation.
    + cbn. intros i tb' [Hi|[_ Hi]]%lookup_app_Some; [exact (o_temp _ _ O _ _ Hi)|]. apply list_lookup_singleton_Some in Hi as [_ [= <-]]. done.
Qed.

Lemma temp_get_ok id s : fs_ok s [] -> run (temp_get id) s (fun o s' => fs_ok s' (match o with Some tb => entries tb | None => [] end) /\
  tables s' = tables s /\ forall tb, o = Some tb -> length tb = NFILE).
Proof.
  intros O. unfold temp_get. eapply run_step; [reflexivity|]. destruct (temp s !! id) as [o|] eqn:E.
  - eapply run_step; [reflexivity|]. apply run_ret. split_and!; [|done|intros tb ->; exact (o_temp _ _ O _ _ E)]. eapply (fs_ok_tables s); [|done..|apply O| |exact O].
    + rewrite refs_temp. unfold refs. rewrite (omap_id_take _ _ _ E), bind_app. destruct o as [tb|]; cbn; rewrite ?app_nil_r; solve_Permutation.
    + apply temp_length_insert; [apply O|done].
  - apply run_ret. by split_and!.
Qed.

Lemma entries_empty (tb : FDTable) : forallb (fun e => bool_decide (e = None)) tb = true -> entries tb = [].
Proof. induction tb as [|e tb IH]; [done|]. cbn. intros [He Ht]%andb_true_iff. apply bool_decide_eq_true in He. subst e. by apply IH. Qed.

Lemma sys_save_ok t fds s : fs_ok s [] -> length fds = NFILE -> run (sys_save_threadlocal t fds) s (fun _ s' => fs_ok s' []).
Proof.
  intros O Hl. unfold sys_save_threadlocal. do 2 (eapply run_step; [reflexivity|]). eapply run_bind; [apply (save_loop_ok t fds []), touch_ok, O|].
  intros [tb|e] s1 Hr; [|by apply run_ret]. destruct Hr as [O1 Hlen]. eapply run_bind; [apply temp_put_ok; [exact O1|cbn in Hlen; lia]|]. intros id s2 O2. by apply run_ret.
Qed.

Lemma sys_set_ok t id s : fs_ok s [] -> forallb (fun e => bool_decide (e = None)) (table_of t s) = true ->
  run (sys_set_threadlocal t id) s (fun _ s' => fs_ok s' []).
Proof.
  intros O He. unfold sys_set_threadlocal. eapply run_bind; [by apply temp_get_ok|]. intros [tb|] s1 (O1 & Et & Hl); [|by apply run_ret].
  eapply run_step; [reflexivity|]. assert (Ets : table_of t s1 = table_of t s) by (unfold table_of; by rewrite Et). rewrite Ets, He.
  eapply run_step; [reflexivity|]. apply run_ret. apply (put_table_ok s1 t tb (entries tb) []); [|by apply Hl|exact O1].
  rewrite Ets, (entries_empty _ He). cbn. by rewrite app_nil_r.
Qed.

Lemma sys_exit_ok t s : fs_ok s [] -> run (sys_thread_exit t) s (fun _ s' => fs_ok s' []).
Proof.
  intros O. unfold sys_thread_exit. do 2 (eapply run_step; [reflexivity|]). eapply run_mono; [apply (drop_all_ok _ _ [])|by intros [] s' (O' & _)].
  eapply (fs_ok_tables s); [|done..| |apply O|exact O].
  - change (refs (set_tables (delete t (tables s)) s)) with (others t s). rewrite (refs_split t s). unfold table_of.
    destruct (tables s !! t) as [tb|]; cbn [default]; [solve_Permutation|]. rewrite (entries_empty (replicate NFILE None)); [solve_Permutation|].
    by vm_compute.
  - cbn. intros t' tb' [_ E]%lookup_delete_Some. exact (o_len _ _ O _ _ E).
Qed.

(** ** Histories *)

Inductive call :=
  | Dup (fd : nat) | Close (fd : nat) | Seek (fd : nat) (offset : Z) | Open (f : OpenedFile) | OpenPipe
  | Save (fds : list (option nat)) | Set_ (id : nat) | Exit.

(** The call of thread [t], and whether it failed. *)
Definition fd_call (t : Z) (c : call) : M FsState unit :=
  match c with
  | Dup fd => _ ← sys_dup t fd; mret tt
  | Close fd => _ ← sys_close t fd; mret tt
  | Seek fd offset => _ ← sys_seek t fd offset; mret tt
  | Open f => _ ← open_file t f; mret tt
  | OpenPipe => _ ← sys_pipe t; mret tt
  | Save fds => _ ← sys_save_threadlocal t fds; mret tt
  | Set_ id => _ ← sys_set_threadlocal t id; mret tt
  | Exit => sys_thread_exit t
  end.

(** What the types and the callers guarantee: files that are opened are inodes or devices, a
    thread passes on an array of the right length, and a child takes over a table before it
    opens anything. *)
Definition permitted (t : Z) (c : call) (s : FsState) : Prop :=
  match c with
  | Open f => forall p, file_type f <> FPipe p
  | Save fds => length fds = NFILE
  | Set_ _ => forallb (fun e => bool_decide (e = None)) (table_of t s) = true
  | _ => True
  end.

Inductive fd_history : FsState -> Prop :=
  | fd_start : fd_history Fs_new
  | fd_step s t c s' : fd_history s -> permitted t c s -> fd_call t c s = Done (tt, s') -> fd_history s'.

Lemma Fs_new_ok : fs_ok Fs_new [].
Proof. split; cbn; try done. Qed.

Lemma fd_call_ok t c s : fs_ok s [] -> permitted t c s -> run (fd_call t c) s (fun _ s' => fs_ok s' []).
Proof.
  intros O Hp. destruct c; cbn [fd_call permitted] in *; try (eapply (run_bind _ _ _ (fun _ s' => fs_ok s' [])); [|by intros ? s' O'; apply run_ret]).
  - by apply sys_dup_ok.
  - by apply sys_close_ok.
  - by apply sys_seek_ok.
  - by apply open_file_ok.
  - by apply sys_pipe_ok.
  - by apply sys_save_ok.
  - by apply sys_set_ok.
  - by apply sys_exit_ok.
Qed.

Lemma fd_history_ok s : fd_history s -> fs_ok s [].
Proof.
  intros Hs. induction Hs as [|s t c s' Hs IH Hp E]; [apply Fs_new_ok|]. destruct (fd_call_ok t c s IH Hp) as ([] & s2 & E2 & O). rewrite E in E2. by injection E2 as ->.
Qed.

(** C24: in every history of calls of any threads: an open file exists exactly as long as a
    descriptor of some thread, or a table saved for a child, refers to it, and its
    reference count is the number of these; an end of a pipe is open exactly as long as an
    open file is that end; and every permitted call returns. *)
Theorem fd_history_exact s : fd_history s ->
  (forall a, rc a s = cnt a (refs s)) /\
  (forall a, is_Some (files s !! a) <-> a ∈ refs s) /\
  (forall p pi w, pipes s !! p = Some pi -> end_open w pi = true <-> exists a f n, a ∈ refs s /\ files s !! a = Some (f, n) /\ file_type f = FPipe p /\ writable f = w) /\
  (forall t c, permitted t c s -> exists s', fd_call t c s = Done (tt, s')).
Proof.
  intros Hs. pose proof (fd_history_ok s Hs) as O. assert (Hrc : forall a, rc a s = cnt a (refs s)) by (intros a; rewrite (o_rc _ _ O a); by rewrite app_nil_r).
  assert (Hal : forall a, is_Some (files s !! a) <-> a ∈ refs s).
  { intros a. rewrite cnt_pos, <- Hrc. unfold rc. split; [intros [[f n] E]; rewrite E; exact (o_pos _ _ O _ _ _ E)|].
    destruct (files s !! a) as [[f n]|]; [by eexists|cbn; lia]. }
  split_and!; [done..| |].
  - intros p pi w Hp. rewrite (o_open _ _ O p pi w Hp). split; [|naive_solver]. intros (a & f & n & E & Hf). exists a, f, n. split; [apply Hal; by exists (f, n)|done].
  - intros t c Hp. destruct (fd_call_ok t c s O Hp) as ([] & s' & E & _). by exists s'.
Qed.

Lemma fd_history_exact_witness : exists s, fd_call 1 OpenPipe Fs_new = Done (tt, s) /\ (forall a, is_Some (files s !! a) <-> a ∈ refs s).
Proof.
  destruct (fd_history_exact Fs_new fd_start) as (_ & _ & _ & Hret). destruct (Hret 1%Z OpenPipe I) as [s E]. exists s. split; [exact E|].
  apply (fd_history_exact s (fd_step Fs_new 1 OpenPipe s fd_start I E)).
Defined.
