(* ===== verification/BCache.v ===== *)
(** * The buffer cache of the xv6 file system (domains/usr/xv6/kernel/fs/src/bcache.rs)
    over a block device (interface/src/bdev.rs, lib/external/libmembdev/src/membdev.rs)

    Thirty buffers form a circular doubly linked list, threaded through indices,
    from the most to the least recently released one.  [get] looks a block up and
    otherwise recycles the least recently released buffer that nobody uses.

    A [BufferGuard] is the index of its buffer with the device and block number;
    its drop is [release].  The data of a buffer never moves, so it is a field of the
    buffer here; the code reaches it through an [Arc].  The [hashmap] feature is not modelled.

    The device is an interface, [BDev]; the memory disk of libmembdev is its instance. *)

From Stdlib Require Import ZArith Lia.
From stdpp Require Import base gmap list sorting.
From stdpp Require Import options.
From S2P Require Import Prelude.

Set Default Proof Using "Type".

Definition NBUF : nat := 30.
Definition BSIZE : nat := 4096.
Definition SECTOR_SIZE : nat := 512.

Abbreviation block := (list Z).

(** ** Block devices *)

(** A device of type [D]: the operations of the [BDev] trait on sectors, and
    what they promise: [blocks d] are the blocks the device holds, a block starts
    at every eighth sector, reading returns its content, writing replaces it. *)
Class BDev (D : Type) := {
  bdev_read : D -> Z -> outcome block;
  bdev_write : D -> Z -> block -> outcome D;
  blocks : D -> gmap Z block;
  bdev_read_ok d b v : blocks d !! b = Some v -> bdev_read d (b * 8)%Z = Done v;
  bdev_write_ok d b v w : blocks d !! b = Some v -> length w = BSIZE ->
    exists d', bdev_write d (b * 8)%Z w = Done d' /\ blocks d' = <[b := w]> (blocks d);
  blocks_len d b v : blocks d !! b = Some v -> length v = BSIZE /\ (0 <= b < 2 ^ 29)%Z }.

(** ** The cache *)

Record Buffer := mkBuf {
  prev : Z; next : Z; dev : Z; block_number : Z; reference_count : Z; data : block }.

Record BufferCacheInternal := mkBC { buffers : list Buffer; head : nat }.

Definition Buffer_new (index : nat) : Buffer :=
  mkBuf (Z.of_nat index - 1) (Z.of_nat index + 1) 0 0 0 (replicate BSIZE 0%Z).

Definition set_prev (p : Z) (b : Buffer) : Buffer :=
  mkBuf p (next b) (dev b) (block_number b) (reference_count b) (data b).
Definition set_next (n : Z) (b : Buffer) : Buffer :=
  mkBuf (prev b) n (dev b) (block_number b) (reference_count b) (data b).
Definition set_rc (n : Z) (b : Buffer) : Buffer :=
  mkBuf (prev b) (next b) (dev b) (block_number b) n (data b).
Definition set_data (v : block) (b : Buffer) : Buffer :=
  mkBuf (prev b) (next b) (dev b) (block_number b) (reference_count b) v.

Definition BufferCacheInternal_new : BufferCacheInternal :=
  let bs := Buffer_new <$> seq 0 NBUF in
  let bs := alter (set_prev (Z.of_nat NBUF - 1)) 0 bs in
  let bs := alter (set_next 0) (NBUF - 1) bs in
  mkBC bs 0.

(** [self.buffers[i]] *)
Definition buffer (i : nat) : M BufferCacheInternal Buffer := s ← get; lift (index (buffers s) i).
Definition upd_buffer (i : nat) (f : Buffer -> Buffer) : M BufferCacheInternal unit :=
  b ← buffer i; modify (fun s => mkBC (<[i := f b]> (buffers s)) (head s)).
Definition set_head (h : nat) : M BufferCacheInternal unit := modify (fun s => mkBC (buffers s) h).

(** [iter().find(..)]: follow [next] from the head for [size] steps. *)
Fixpoint find_loop (size curr : nat) (d b : Z) : M BufferCacheInternal (option nat) :=
  match size with
  | O => mret None
  | S size =>
      bf ← buffer curr;
      if ((dev bf =? d) && (block_number bf =? b))%Z then mret (Some curr)
      else find_loop size (Z.to_nat (next bf)) d b
  end.

(** The loop that recycles a buffer: follow [prev]. *)
Fixpoint recycle_loop (n curr : nat) (d b : Z) : M BufferCacheInternal (bool * nat) :=
  match n with
  | O => panic
  | S n =>
      bf ← buffer curr;
      if (reference_count bf =? 0)%Z then
        _ ← upd_buffer curr (fun bf => mkBuf (prev bf) (next bf) d b 1 (data bf));
        mret (false, curr)
      else recycle_loop n (Z.to_nat (prev bf)) d b
  end.

(** The pointer updates of [release]: unlink buffer [i] and link it in before the head. *)
Definition to_front (i : nat) : M BufferCacheInternal unit :=
  bf ← buffer i;
  let p := Z.to_nat (prev bf) in
  let n := Z.to_nat (next bf) in
  _ ← upd_buffer n (set_prev (prev bf));
  bf ← buffer i;
  _ ← upd_buffer p (set_next (next bf));
  s ← Prelude.get;
  _ ← (if head s =? i then hb ← buffer (head s); set_head (Z.to_nat (next hb)) else mret tt);
  s ← Prelude.get;
  hb ← buffer (head s);
  let head_prev := prev hb in
  _ ← upd_buffer i (set_next (Z.of_nat (head s)));
  _ ← upd_buffer i (set_prev head_prev);
  _ ← upd_buffer (head s) (set_prev (Z.of_nat i));
  _ ← upd_buffer (Z.to_nat head_prev) (set_next (Z.of_nat i));
  set_head i.

Section Code.
Context `{Profile}.

Definition get (d b : Z) : M BufferCacheInternal (bool * nat) :=
  s ← Prelude.get;
  i ← find_loop (length (buffers s)) (head s) d b;
  match i with
  | Some i =>
      bf ← buffer i;
      rc ← lift (uadd 32 (reference_count bf) 1);
      _ ← upd_buffer i (set_rc rc);
      mret (true, i)
  | None =>
      hb ← buffer (head s);
      recycle_loop NBUF (Z.to_nat (prev hb)) d b
  end.

Definition release (i : nat) : M BufferCacheInternal unit :=
  bf ← buffer i;
  rc ← lift (usub 32 (reference_count bf) 1);
  _ ← upd_buffer i (set_rc rc);
  if (rc =? 0)%Z then to_front i else mret tt.

Definition pin (i : nat) : M BufferCacheInternal unit :=
  bf ← buffer i; rc ← lift (uadd 32 (reference_count bf) 1); upd_buffer i (set_rc rc).

Definition unpin (i : nat) : M BufferCacheInternal unit :=
  bf ← buffer i; rc ← lift (usub 32 (reference_count bf) 1); upd_buffer i (set_rc rc).

(** ** The cache with its device *)

Context {D : Type} `{!BDev D}.

Record BufferCache := mkBCache { internal : BufferCacheInternal; bdev : D }.

Definition on_internal {A} (m : M BufferCacheInternal A) : M BufferCache A := fun s =>
  match m (internal s) with
  | Done (a, i) => Done (a, mkBCache i (bdev s))
  | Panic => Panic
  | Hang => Hang
  end.

(** A [BufferGuard]. *)
Record BufferGuard := mkGuard { g_dev : Z; g_block_number : Z; g_index : nat }.

Definition sector_of (b : Z) : outcome Z := umul 32 b 8.

Definition read (device b : Z) : M BufferCache BufferGuard :=
  vi ← on_internal (get device b);
  let '(valid, i) := vi in
  _ ← (if valid : bool then mret tt
       else
         sector ← lift (sector_of b);
         s ← Prelude.get;
         v ← lift (bdev_read (bdev s) sector);
         on_internal (upd_buffer i (set_data v)));
  mret (mkGuard device b i).

Definition write (b : Z) (v : block) : M BufferCache unit :=
  sector ← lift (sector_of b);
  s ← Prelude.get;
  d ← lift (bdev_write (bdev s) sector v);
  put (mkBCache (internal s) d).

(** [guard.lock()]: the data of the buffer. *)
Definition guard_data (g : BufferGuard) : M BufferCache block :=
  bf ← on_internal (buffer (g_index g)); mret (data bf).
Definition guard_set (g : BufferGuard) (v : block) : M BufferCache unit :=
  on_internal (upd_buffer (g_index g) (set_data v)).
Definition guard_pin (g : BufferGuard) : M BufferCache unit := on_internal (pin (g_index g)).
Definition guard_unpin (g : BufferGuard) : M BufferCache unit := on_internal (unpin (g_index g)).
Definition guard_drop (g : BufferGuard) : M BufferCache unit := on_internal (release (g_index g)).
End Code.
Arguments BufferCache D : clear implicits.
Arguments mkBCache {D}. Arguments internal {D}. Arguments bdev {D}.

(** ** The list of buffers

    [path nx pv a l b]: following the links from [a] leads through [l] to [b]. *)

Section Links.
Implicit Types (nx pv : nat -> option Z) (a b : nat) (l : list nat).

Definition link nx pv a b : Prop := nx a = Some (Z.of_nat b) /\ pv b = Some (Z.of_nat a).

Fixpoint path nx pv a l b : Prop :=
  match l with
  | [] => link nx pv a b
  | y :: l => link nx pv a y /\ path nx pv y l b
  end.

Definition circ nx pv (ord : list nat) : Prop :=
  match ord with [] => False | h :: l => path nx pv h l h end.

Lemma path_app nx pv a l1 y l2 b :
  path nx pv a (l1 ++ y :: l2) b <-> path nx pv a l1 y /\ path nx pv y l2 b.
Proof.
  revert a. induction l1 as [|x l1 IH]; intros a; simpl; [done|]. rewrite IH. tauto.
Qed.

Lemma path_agree nx pv nx' pv' a l b :
  (forall x, x ∈ a :: l -> nx' x = nx x) -> (forall x, x ∈ l ++ [b] -> pv' x = pv x) ->
  path nx pv a l b -> path nx' pv' a l b.
Proof.
  revert a. induction l as [|y l IH]; intros a Hn Hp; simpl; unfold link.
  - rewrite Hn, Hp by set_solver. done.
  - intros [[H1 H2] H]. rewrite Hn, Hp by set_solver. split; [done|].
    apply IH; [set_solver..|done].
Qed.

(** Redirecting the last link of a path. *)
Lemma path_relink nx pv nx' pv' a l b c t :
  list.last (a :: l) = Some t -> NoDup (a :: l) ->
  (forall x, x ∈ a :: l -> x <> t -> nx' x = nx x) -> (forall x, x ∈ l -> pv' x = pv x) ->
  nx' t = Some (Z.of_nat c) -> pv' c = Some (Z.of_nat t) ->
  path nx pv a l b -> path nx' pv' a l c.
Proof.
  revert a. induction l as [|y l IH]; intros a Ht Hnd Hn Hp H1 H2.
  - simpl in Ht. simplify_eq. done.
  - intros [[E1 E2] H]. rewrite list.last_cons_cons in Ht.
    assert (Hta : a <> t).
    { intros ->. apply list.last_Some in Ht as [l' Hl']. apply NoDup_cons_1_1 in Hnd. apply Hnd.
      rewrite Hl'. set_solver. }
    apply NoDup_cons_1_2 in Hnd. split.
    + unfold link. rewrite Hn, Hp by set_solver. done.
    + apply IH; try done; set_solver.
Qed.

(** The last link of a path leaves from its last node. *)
Lemma path_last nx pv a l b t :
  list.last (a :: l) = Some t -> path nx pv a l b -> link nx pv t b.
Proof.
  revert a. induction l as [|y l IH]; intros a Ht; [by simpl in *; simplify_eq|].
  intros [_ H]. rewrite list.last_cons_cons in Ht. by apply (IH y).
Qed.

Lemma path_first nx pv a l b : path nx pv a l b -> link nx pv a (default b (List.hd_error l)).
Proof. destruct l; simpl; tauto. Qed.
End Links.

Definition nxt (bs : list Buffer) (i : nat) : option Z := next <$> bs !! i.
Definition prv (bs : list Buffer) (i : nat) : option Z := prev <$> bs !! i.

Lemma nxt_alter bs i f a : (forall b, next (f b) = next b) -> nxt (alter f i bs) a = nxt bs a.
Proof.
  intros Hf. unfold nxt. destruct (decide (i = a)) as [->|]; [|by rewrite list_lookup_alter_ne].
  rewrite list_lookup_alter_eq. destruct (bs !! a); simpl; [by rewrite Hf|done].
Qed.
Lemma prv_alter bs i f a : (forall b, prev (f b) = prev b) -> prv (alter f i bs) a = prv bs a.
Proof.
  intros Hf. unfold prv. destruct (decide (i = a)) as [->|]; [|by rewrite list_lookup_alter_ne].
  rewrite list_lookup_alter_eq. destruct (bs !! a); simpl; [by rewrite Hf|done].
Qed.
Lemma nxt_set bs i v a : i < length bs ->
  nxt (alter (set_next v) i bs) a = if decide (a = i) then Some v else nxt bs a.
Proof.
  intros Hi. unfold nxt. destruct (decide (a = i)) as [->|]; [|by rewrite list_lookup_alter_ne].
  destruct (lookup_lt_is_Some_2 bs i Hi) as [b Hb]. by rewrite list_lookup_alter_eq, Hb.
Qed.
Lemma prv_set bs i v a : i < length bs ->
  prv (alter (set_prev v) i bs) a = if decide (a = i) then Some v else prv bs a.
Proof.
  intros Hi. unfold prv. destruct (decide (a = i)) as [->|]; [|by rewrite list_lookup_alter_ne].
  destruct (lookup_lt_is_Some_2 bs i Hi) as [b Hb]. by rewrite list_lookup_alter_eq, Hb.
Qed.

(** The links after the pointer updates of [release]. *)
Definition relinked (x p n h hp : nat) (bs : list Buffer) : list Buffer :=
  alter (set_next (Z.of_nat x)) hp
    (alter (set_prev (Z.of_nat x)) h
      (alter (set_prev (Z.of_nat hp)) x
        (alter (set_next (Z.of_nat h)) x
          (alter (set_next (Z.of_nat n)) p (alter (set_prev (Z.of_nat p)) n bs))))).

Lemma relinked_length x p n h hp bs : length (relinked x p n h hp bs) = length bs.
Proof. unfold relinked. by rewrite !length_alter. Qed.

Section Relinked.
Context (x p n h hp : nat) (bs : list Buffer).
Context (Hx : x < length bs) (Hp : p < length bs) (Hn : n < length bs) (Hh : h < length bs)
  (Hhp : hp < length bs).

Lemma relinked_nxt a : nxt (relinked x p n h hp bs) a =
  if decide (a = hp) then Some (Z.of_nat x) else if decide (a = x) then Some (Z.of_nat h)
  else if decide (a = p) then Some (Z.of_nat n) else nxt bs a.
Proof using Hx Hp Hn Hh Hhp.
  unfold relinked. rewrite nxt_set by (by rewrite !length_alter).
  rewrite !(nxt_alter _ _ (set_prev _)) by done. rewrite nxt_set by (by rewrite !length_alter).
  rewrite nxt_set by (by rewrite !length_alter). by rewrite !(nxt_alter _ _ (set_prev _)) by done.
Qed.

Lemma relinked_prv a : prv (relinked x p n h hp bs) a =
  if decide (a = h) then Some (Z.of_nat x) else if decide (a = x) then Some (Z.of_nat hp)
  else if decide (a = n) then Some (Z.of_nat p) else prv bs a.
Proof using Hx Hp Hn Hh Hhp.
  unfold relinked. rewrite (prv_alter _ _ (set_next _)) by done. rewrite prv_set by (by rewrite !length_alter).
  rewrite prv_set by (by rewrite !length_alter). rewrite !(prv_alter _ _ (set_next _)) by done.
  by rewrite prv_set by (by rewrite ?length_alter).
Qed.
End Relinked.

Lemma circ_ext nx pv nx' pv' ord :
  (forall a, nx' a = nx a) -> (forall a, pv' a = pv a) -> circ nx pv ord -> circ nx' pv' ord.
Proof. intros Hn Hp. destruct ord; [done|]. apply path_agree; auto. Qed.

Lemma circ_rotate nx pv l x : l <> [] -> circ nx pv (l ++ [x]) -> circ nx pv (x :: l).
Proof.
  intros Hl. destruct l as [|h l]; [done|]. simpl. rewrite path_app. simpl. tauto.
Qed.

Lemma last_in {A} (l : list A) t : list.last l = Some t -> t ∈ l.
Proof. intros [l' ->]%list.last_Some. apply elem_of_app. right. by left. Qed.

Lemma some_nat_inj a b : Some (Z.of_nat a) = Some (Z.of_nat b) -> a = b.
Proof. intros [= E]. lia. Qed.

(** When [x] is the head or the tail the updates put every link back. *)
Lemma relinked_same bs x p n :
  nxt bs x = Some (Z.of_nat n) -> prv bs x = Some (Z.of_nat p) ->
  nxt bs p = Some (Z.of_nat x) -> prv bs n = Some (Z.of_nat x) -> x <> n -> x <> p ->
  p < length bs -> n < length bs -> x < length bs ->
  (forall a, nxt (relinked x p n n p bs) a = nxt bs a) /\
  (forall a, prv (relinked x p n n p bs) a = prv bs a).
Proof.
  intros. split; intros a; rewrite ?relinked_nxt, ?relinked_prv by done; repeat case_decide; congruence.
Qed.

Section Middle.
Context (bs : list Buffer) (x p n h hp : nat) (l1 l2 : list nat).
Context (H1 : path (nxt bs) (prv bs) h l1 x) (H2 : path (nxt bs) (prv bs) n l2 h).
Context (Hp : list.last (h :: l1) = Some p) (Hhp : list.last (n :: l2) = Some hp).
Context (Hnd1 : NoDup (h :: l1)) (Hnd2 : NoDup (n :: l2)).
Context (Hx1 : x ∉ h :: l1) (Hx2 : x ∉ n :: l2) (Hdis : forall a, a ∈ h :: l1 -> a ∉ n :: l2).
Context (Hlt : forall a, a = x \/ a ∈ h :: l1 \/ a ∈ n :: l2 -> a < length bs).

Let Rn := nxt (relinked x p n h hp bs).
Let Rp := prv (relinked x p n h hp bs).

Lemma middle_left a : a ∈ h :: l1 -> a <> x /\ a <> hp /\ a <> n.
Proof using Hhp Hx1 Hdis.
  intros Ha. pose proof (last_in _ _ Hhp). specialize (Hdis a Ha).
  split_and!; intros ->; try done. apply Hdis. by left.
Qed.
Lemma middle_right a : a ∈ n :: l2 -> a <> x /\ a <> p /\ a <> h.
Proof using Hp Hx2 Hdis.
  intros Ha. pose proof (last_in _ _ Hp). split_and!; intros ->; try done; [by eapply Hdis|].
  eapply (Hdis h); [by left|done].
Qed.

Lemma middle_Rn a : Rn a = if decide (a = hp) then Some (Z.of_nat x)
  else if decide (a = x) then Some (Z.of_nat h) else if decide (a = p) then Some (Z.of_nat n) else nxt bs a.
Proof using Hp Hhp Hlt.
  apply relinked_nxt; apply Hlt; [by left|right; left|right; right; by left|right; left; by left|right; right].
  - by apply last_in.
  - by apply last_in.
Qed.
Lemma middle_Rp a : Rp a = if decide (a = h) then Some (Z.of_nat x)
  else if decide (a = x) then Some (Z.of_nat hp) else if decide (a = n) then Some (Z.of_nat p) else prv bs a.
Proof using Hp Hhp Hlt.
  apply relinked_prv; apply Hlt; [by left|right; left|right; right; by left|right; left; by left|right; right].
  - by apply last_in.
  - by apply last_in.
Qed.

Lemma middle_circ : circ Rn Rp (x :: (h :: l1) ++ n :: l2).
Proof using All.
  change (x :: (h :: l1) ++ n :: l2) with (x :: (h :: l1 ++ n :: l2)). simpl. rewrite path_app.
  pose proof (last_in _ _ Hp) as Hpin. pose proof (last_in _ _ Hhp) as Hhpin.
  pose proof (middle_left p Hpin) as (? & ? & ?). pose proof (middle_right hp Hhpin) as (? & ? & ?).
  pose proof (middle_left h ltac:(by left)) as (? & ? & ?).
  pose proof (middle_right n ltac:(by left)) as (? & ? & ?). split_and!.
  - unfold link. rewrite middle_Rn, middle_Rp. repeat case_decide; done.
  - apply (path_relink (nxt bs) (prv bs) _ _ h l1 x n p); try done.
    + intros a Ha Hap. pose proof (middle_left a Ha) as (? & ? & ?). rewrite middle_Rn. by repeat case_decide.
    + intros a Ha. pose proof (middle_left a ltac:(by right)) as (? & ? & ?).
      assert (a <> h) by (intros ->; by apply NoDup_cons_1_1 in Hnd1).
      rewrite middle_Rp. by repeat case_decide.
    + rewrite middle_Rn. by repeat case_decide.
    + rewrite middle_Rp. repeat case_decide; done.
  - apply (path_relink (nxt bs) (prv bs) _ _ n l2 h x hp); try done.
    + intros a Ha Hap. pose proof (middle_right a Ha) as (? & ? & ?). rewrite middle_Rn. by repeat case_decide.
    + intros a Ha. pose proof (middle_right a ltac:(by right)) as (? & ? & ?).
      assert (a <> n) by (intros ->; by apply NoDup_cons_1_1 in Hnd2).
      rewrite middle_Rp. by repeat case_decide.
    + rewrite middle_Rn. by repeat case_decide.
    + rewrite middle_Rp. repeat case_decide; done.
Qed.
End Middle.

(** Moving [x] to the front of the list. *)
Lemma relinked_circ bs l1 x l2 p n h hp :
  circ (nxt bs) (prv bs) (l1 ++ x :: l2) -> NoDup (l1 ++ x :: l2) ->
  (forall a, a ∈ l1 ++ x :: l2 -> a < length bs) -> l1 ++ l2 <> [] ->
  nxt bs x = Some (Z.of_nat n) -> prv bs x = Some (Z.of_nat p) ->
  h = default n (List.hd_error l1) ->
  (if decide (h = n) then hp = p else prv bs h = Some (Z.of_nat hp)) ->
  circ (nxt (relinked x p n h hp bs)) (prv (relinked x p n h hp bs)) (x :: l1 ++ l2).
Proof.
  intros Hc Hnd Hin Hne Hxn Hxp Hh Hhp.
  assert (Hlt : forall a, a ∈ l1 \/ a = x \/ a ∈ l2 -> a < length bs).
  { intros a Ha. apply Hin. rewrite elem_of_app, elem_of_cons. tauto. }
  apply list.NoDup_app in Hnd as (Hnd1 & Hdis & Hnd2). apply list.NoDup_cons in Hnd2 as [Hxl2 Hnd2].
  assert (Hxl1 : x ∉ l1) by (intros Hx; apply (Hdis x Hx); by left).
  destruct l1 as [|h0 l1]; simpl in Hh.
  - (* x is the head *)
    subst h. rewrite decide_True in Hhp by done. subst hp. simpl in *. destruct l2 as [|y l2]; [done|].
    destruct Hc as [[E1 E2] Hc]. rewrite Hxn in E1. apply some_nat_inj in E1 as <-.
    destruct (list.last (n :: l2)) as [t|] eqn:Et; [|by apply list.last_None in Et].
    destruct (path_last _ _ _ _ _ _ Et Hc) as [E3 E4]. rewrite Hxp in E4. apply some_nat_inj in E4 as <-.
    apply last_in in Et.
    destruct (relinked_same bs x p n) as [H1 H2]; try done;
      [intros ->; apply Hxl2; by left|by intros ->|apply Hlt; auto|apply Hlt; right; right; by left|apply Hlt; auto|].
    apply (circ_ext (nxt bs) (prv bs) _ _ (x :: n :: l2)); [done..|]. by simpl.
  - subst h. simpl in Hc. rewrite path_app in Hc. destruct Hc as [Hc1 Hc2].
    destruct (list.last (h0 :: l1)) as [t1|] eqn:Et1; [|by apply list.last_None in Et1].
    destruct (path_last _ _ _ _ _ _ Et1 Hc1) as [E3 E4]. rewrite Hxp in E4. apply some_nat_inj in E4 as <-.
    destruct l2 as [|y l2].
    + (* x is the tail *)
      destruct Hc2 as [E1 E2]. rewrite Hxn in E1. apply some_nat_inj in E1 as ->.
      simpl default in *. rewrite decide_True in Hhp by done. subst hp. apply last_in in Et1.
      destruct (relinked_same bs x p h0) as [H1 H2]; try done;
        [intros ->; apply Hxl1; by left|by intros ->|apply Hlt; auto|apply Hlt; left; by left|apply Hlt; auto|].
      apply (circ_ext (nxt bs) (prv bs)); [done..|]. rewrite app_nil_r.
      apply circ_rotate; [done|]. simpl. by rewrite path_app.
    + (* x is in the middle *)
      destruct Hc2 as [[E1 E2] Hc2]. rewrite Hxn in E1. apply some_nat_inj in E1 as <-.
      assert (Hd2 : forall a, a ∈ h0 :: l1 -> a ∉ n :: l2)
        by (intros a Ha Ha2; apply (Hdis a Ha); by right).
      assert (Hhn : h0 <> n) by (intros ->; eapply (Hd2 n); left).
      simpl default in *. rewrite decide_False in Hhp by done.
      destruct (list.last (n :: l2)) as [t|] eqn:Et; [|by apply list.last_None in Et].
      destruct (path_last _ _ _ _ _ _ Et Hc2) as [E5 E6]. rewrite Hhp in E6. apply some_nat_inj in E6 as <-.
      apply middle_circ; try done. intros a Ha. apply Hlt. tauto.
Qed.

(** ** The invariant of the cache

    [ord] lists the buffers from the most to the least recently released one. *)

Record binv (s : BufferCacheInternal) (ord : list nat) : Prop := mkBI {
  bi_len : length (buffers s) = NBUF;
  bi_perm : ord ≡ₚ seq 0 NBUF;
  bi_head : List.hd_error ord = Some (head s);
  bi_circ : circ (nxt (buffers s)) (prv (buffers s)) ord;
  bi_rc : forall i b, buffers s !! i = Some b -> in_width 32 (reference_count b);
  bi_key : forall i j b c, buffers s !! i = Some b -> buffers s !! j = Some c -> dev b <> 0%Z ->
    dev b = dev c -> block_number b = block_number c -> i = j }.

Lemma binv_in s ord i : binv s ord -> i ∈ ord <-> i < NBUF.
Proof. intros H. rewrite (bi_perm _ _ H), elem_of_seq. lia. Qed.

Lemma binv_nodup s ord : binv s ord -> NoDup ord.
Proof. intros H. rewrite (bi_perm _ _ H). apply NoDup_seq. Qed.

Lemma binv_buffer s ord i : binv s ord -> i < NBUF -> exists b, buffers s !! i = Some b.
Proof. intros H Hi. apply lookup_lt_is_Some_2. by rewrite (bi_len _ _ H). Qed.

Lemma buffer_Done s i b : buffers s !! i = Some b -> buffer i s = Done (b, s).
Proof. intros H. unfold buffer. rewrite bind_get, (index_Some _ _ _ H). done. Qed.

Lemma alter_as_insert {A} (f : A -> A) (l : list A) (i : nat) x : l !! i = Some x -> alter f i l = <[i := f x]> l.
Proof.
  revert i. induction l as [|y l IH]; intros [|i] H; simplify_eq/=; [done|].
  f_equal. by apply IH.
Qed.

Lemma upd_buffer_Done s i b f : buffers s !! i = Some b ->
  upd_buffer i f s = Done (tt, mkBC (alter f i (buffers s)) (head s)).
Proof.
  intros H. unfold upd_buffer. mstep (buffer_Done s i b H). unfold modify.
  by rewrite (alter_as_insert f _ i b).
Qed.

Definition matches (s : BufferCacheInternal) (d b : Z) (i : nat) : bool :=
  match buffers s !! i with Some bf => ((dev bf =? d) && (block_number bf =? b))%Z | None => false end.
Definition is_free (s : BufferCacheInternal) (i : nat) : bool :=
  match buffers s !! i with Some bf => (reference_count bf =? 0)%Z | None => false end.

Lemma find_loop_spec s d b h l e :
  path (nxt (buffers s)) (prv (buffers s)) h l e ->
  find_loop (length (h :: l)) h d b s =
    Done (List.hd_error (filter (fun i => matches s d b i = true) (h :: l)), s).
Proof.
  revert h. induction l as [|y l IH]; intros h Hp; cbn [length find_loop].
  - destruct Hp as [H1 _]. unfold nxt in H1. destruct (buffers s !! h) as [bf|] eqn:E; simplify_eq/=.
    mstep (buffer_Done s h bf E).
    assert (Em : matches s d b h = ((dev bf =? d) && (block_number bf =? b))%Z) by (unfold matches; by rewrite E).
    rewrite <- Em. destruct (matches s d b h) eqn:Hm.
    + by rewrite filter_cons_True.
    + rewrite filter_cons_False; [done|congruence].
  - destruct Hp as [[H1 _] Hp]. unfold nxt in H1. destruct (buffers s !! h) as [bf|] eqn:E; [|done].
    simpl in H1. injection H1 as H1. mstep (buffer_Done s h bf E).
    assert (Em : matches s d b h = ((dev bf =? d) && (block_number bf =? b))%Z) by (unfold matches; by rewrite E).
    rewrite <- Em. destruct (matches s d b h) eqn:Hm.
    + by rewrite filter_cons_True.
    + rewrite filter_cons_False by congruence. rewrite H1, Nat2Z.id. by apply IH.
Qed.

Definition recycled (s : BufferCacheInternal) (i : nat) (d b : Z) : BufferCacheInternal :=
  mkBC (alter (fun bf => mkBuf (prev bf) (next bf) d b 1 (data bf)) i (buffers s)) (head s).

(** Walking backwards from the last buffer [t] of [l ++ [t]]. *)
Lemma recycle_loop_spec s d b h l t e :
  h :: l = t ++ [e] -> (exists z, path (nxt (buffers s)) (prv (buffers s)) h l z) ->
  recycle_loop (length (h :: l)) e d b s =
    match list.last (filter (fun i => is_free s i = true) (h :: l)) with
    | Some i => Done ((false, i), recycled s i d b)
    | None => Panic
    end.
Proof.
  revert l e. induction t as [|e' t IH] using rev_ind; intros l e Hl [z Hp].
  - simpl in Hl. injection Hl as -> ->. destruct Hp as [H1 _]. unfold nxt in H1. cbn [length recycle_loop].
    destruct (buffers s !! e) as [bf|] eqn:E; [|done]. mstep (buffer_Done s e bf E).
    assert (Ef : is_free s e = (reference_count bf =? 0)%Z) by (unfold is_free; by rewrite E).
    rewrite <- Ef. destruct (is_free s e) eqn:Hf.
    + rewrite filter_cons_True by done. simpl. mstep (upd_buffer_Done s e bf (fun bf => mkBuf (prev bf) (next bf) d b 1 (data bf)) E). done.
    + rewrite filter_cons_False by congruence. done.
  - assert (Hl' : exists l', h :: l' = t ++ [e'] /\ l = l' ++ [e]).
    { destruct t as [|y t]; simpl in *; injection Hl as <- ->.
      - exists []. done.
      - exists (t ++ [e']). split; [done|]. by rewrite <- app_assoc. }
    destruct Hl' as (l' & Ht & ->). rewrite path_app in Hp. destruct Hp as [Hp1 Hp2].
    assert (Hlast : list.last (h :: l') = Some e') by (rewrite Ht; apply list.last_snoc).
    destruct (path_last _ _ _ _ _ _ Hlast Hp1) as [_ Hpe]. unfold prv in Hpe.
    destruct (buffers s !! e) as [bf|] eqn:E; [|done]. simpl in Hpe. injection Hpe as Hpe.
    replace (length (h :: l' ++ [e])) with (S (length (h :: l'))) by (simpl; rewrite length_app; simpl; lia).
    cbn [recycle_loop]. mstep (buffer_Done s e bf E).
    assert (Ef : is_free s e = (reference_count bf =? 0)%Z) by (unfold is_free; by rewrite E).
    rewrite <- Ef. change (h :: l' ++ [e]) with ((h :: l') ++ [e]). rewrite list.filter_app.
    destruct (is_free s e) eqn:Hf.
    + rewrite (filter_cons_True _ e) by done. rewrite filter_nil, list.last_snoc.
      mstep (upd_buffer_Done s e bf (fun bf => mkBuf (prev bf) (next bf) d b 1 (data bf)) E). done.
    + rewrite (filter_cons_False _ e) by congruence. rewrite filter_nil, app_nil_r.
      rewrite Hpe, Nat2Z.id. apply IH; [done|]. by exists e.
Qed.

Lemma binv_alter s ord i b f :
  binv s ord -> buffers s !! i = Some b -> (forall x, next (f x) = next x) -> (forall x, prev (f x) = prev x) ->
  in_width 32 (reference_count (f b)) ->
  (forall j c, buffers s !! j = Some c -> j <> i -> dev (f b) <> 0%Z ->
     ~ (dev (f b) = dev c /\ block_number (f b) = block_number c)) ->
  binv (mkBC (alter f i (buffers s)) (head s)) ord.
Proof.
  intros [H1 H2 H3 H4 H5 H6] Hb Hn Hp Hrc Hk.
  assert (Hlk : forall j c, alter f i (buffers s) !! j = Some c ->
    j = i /\ c = f b \/ j <> i /\ buffers s !! j = Some c).
  { intros j c Hj. destruct (decide (j = i)) as [->|Hne].
    - rewrite list_lookup_alter_eq, Hb in Hj. simplify_eq/=. auto.
    - rewrite list_lookup_alter_ne in Hj by done. auto. }
  split; simpl; try done.
  - by rewrite length_alter.
  - eapply circ_ext; [| |exact H4]; intros a; [by apply nxt_alter|by apply prv_alter].
  - intros j c Hj. destruct (Hlk j c Hj) as [[-> ->]|[_ Hj']]; [done|by eapply H5].
  - intros j k c c' Hj Hk' Hd Hdev Hbn.
    destruct (Hlk j c Hj) as [[-> ->]|[Hji Hj']], (Hlk k c' Hk') as [[-> ->]|[Hki Hk'']]; [done| | |].
    + exfalso. by eapply (Hk k c').
    + exfalso. rewrite Hdev in Hd. eapply (Hk j c); [done|done|done|]. split; congruence.
    + by eapply H6.
Qed.

Lemma head_filter_in {A} (P : A -> Prop) `{!forall x, Decision (P x)} l i :
  List.hd_error (filter P l) = Some i -> P i /\ i ∈ l.
Proof.
  intros Hh. apply (list_elem_of_filter P l i). destruct (filter P l); simplify_eq/=. by left.
Qed.

Lemma last_filter_in {A} (P : A -> Prop) `{!forall x, Decision (P x)} l i :
  list.last (filter P l) = Some i -> P i /\ i ∈ l.
Proof. intros Hl. apply (list_elem_of_filter P l i). by apply last_in. Qed.

Section GetSpec.
Context `{Profile}.

Lemma get_spec s ord d b :
  binv s ord -> d <> 0%Z ->
  (forall i bf, buffers s !! i = Some bf -> dev bf = d -> block_number bf = b -> (reference_count bf < 2 ^ 32 - 1)%Z) ->
  match List.hd_error (filter (fun i => matches s d b i = true) ord) with
  | Some i => exists bf, buffers s !! i = Some bf /\ dev bf = d /\ block_number bf = b /\
      get d b s = Done ((true, i), mkBC (alter (set_rc (reference_count bf + 1)) i (buffers s)) (head s)) /\
      binv (mkBC (alter (set_rc (reference_count bf + 1)) i (buffers s)) (head s)) ord
  | None =>
      match list.last (filter (fun i => is_free s i = true) ord) with
      | Some i => get d b s = Done ((false, i), recycled s i d b) /\ binv (recycled s i d b) ord
      | None => get d b s = Panic
      end
  end.
Proof.
  intros Hi Hd Hrc. pose proof Hi as [H1 H2 H3 H4 H5 H6].
  destruct ord as [|h l]; [done|]. simpl in H3, H4. injection H3 as E3.
  assert (Hlen : length (buffers s) = length (h :: l)).
  { rewrite H1, (Permutation_length H2), length_seq. done. }
  unfold get. rewrite bind_get.
  replace (find_loop (length (buffers s)) (head s) d b) with (find_loop (length (h :: l)) h d b) by congruence.
  mstep (find_loop_spec s d b h l h H4).
  destruct (List.hd_error (filter (fun i => matches s d b i = true) (h :: l))) as [i|] eqn:Ef.
  - apply head_filter_in in Ef as [Hm Hin]. unfold matches in Hm.
    destruct (buffers s !! i) as [bf|] eqn:E; [|done]. apply andb_true_iff in Hm as [Hm1 Hm2].
    apply Z.eqb_eq in Hm1, Hm2. exists bf. mstep (buffer_Done s i bf E).
    assert (Hw : in_width 32 (reference_count bf + 1)).
    { specialize (Hrc i bf E Hm1 Hm2). specialize (H5 i bf E). unfold in_width in *. lia. }
    unfold uadd. rewrite checked_ok, bind_lift by done. mstep (upd_buffer_Done s i bf (set_rc (reference_count bf + 1)) E).
    split_and!; try done.
    eapply binv_alter; try done.
    intros j c Hj Hne Hdv [Hk1 Hk2]. apply Hne. symmetry. by apply (H6 i j bf c).
  - assert (Hnone : forall j c, buffers s !! j = Some c -> dev c = d -> block_number c = b -> False).
    { intros j c Hj Hdv Hbn. assert (Hin : j ∈ filter (fun i => matches s d b i = true) (h :: l)).
      { apply list_elem_of_filter. split.
        - unfold matches. rewrite Hj, Hdv, Hbn, !Z.eqb_refl. done.
        - rewrite H2. apply elem_of_seq. apply lookup_lt_Some in Hj. lia. }
      destruct (filter _ (h :: l)); [by apply elem_of_nil in Hin|done]. }
    destruct (exists_last (l := h :: l)) as (t & e & He); [done|].
    destruct (buffers s !! h) as [hb|] eqn:Eh.
    2:{ apply lookup_ge_None_1 in Eh. rewrite Hlen in Eh. exfalso.
        assert (Hh : h ∈ h :: l) by left. rewrite H2, elem_of_seq in Hh. rewrite <- Hlen, H1 in Eh. lia. }
    rewrite <- E3. mstep (buffer_Done s h hb Eh).
    assert (Hprev : Z.to_nat (prev hb) = e).
    { assert (Hlast : list.last (h :: l) = Some e) by (rewrite He; apply list.last_snoc).
      destruct (path_last _ _ _ _ _ _ Hlast H4) as [_ Hp]. unfold prv in Hp. rewrite Eh in Hp.
      simpl in Hp. injection Hp as ->. apply Nat2Z.id. }
    rewrite Hprev. replace NBUF with (length (h :: l)) by congruence.
    rewrite (recycle_loop_spec s d b h l t e He ltac:(eauto)).
    destruct (list.last (filter (fun i => is_free s i = true) (h :: l))) as [i|] eqn:Ei; [|done].
    split; [done|]. apply last_filter_in in Ei as [Hf Hin]. unfold is_free in Hf.
    destruct (buffers s !! i) as [bf|] eqn:E; [|done]. unfold recycled.
    eapply binv_alter; try done.
    intros j c Hj Hne _ [Hk1 Hk2]. simpl in *. by eapply (Hnone j c).
Qed.
End GetSpec.

(** What a buffer holds, apart from its links. *)
Definition meta (b : Buffer) := (dev b, block_number b, reference_count b, data b).

Lemma meta_relinked x p n h hp bs j : meta <$> relinked x p n h hp bs !! j = meta <$> bs !! j.
Proof.
  assert (E : forall f i (l : list Buffer), (forall b, meta (f b) = meta b) ->
    meta <$> alter f i l !! j = meta <$> l !! j).
  { intros f i l Hf. destruct (decide (i = j)) as [->|]; [|by rewrite list_lookup_alter_ne].
    rewrite list_lookup_alter_eq. destruct (l !! j); simpl; [by rewrite Hf|done]. }
  unfold relinked. by rewrite !E.
Qed.

Lemma binv_meta s s' ord ord' :
  binv s ord -> length (buffers s') = NBUF -> ord' ≡ₚ ord -> List.hd_error ord' = Some (head s') ->
  circ (nxt (buffers s')) (prv (buffers s')) ord' ->
  (forall j, meta <$> buffers s' !! j = meta <$> buffers s !! j) -> binv s' ord'.
Proof.
  intros [H1 H2 H3 H4 H5 H6] Hl Hp Hh Hc Hm.
  assert (Hlk : forall j c, buffers s' !! j = Some c -> exists c0, buffers s !! j = Some c0 /\ meta c = meta c0).
  { intros j c Hj. specialize (Hm j). rewrite Hj in Hm.
    destruct (buffers s !! j) as [c0|]; [|done]. exists c0. split; [done|]. exact (inj Some _ _ Hm). }
  split; try done.
  - by rewrite Hp.
  - intros i b Hb. destruct (Hlk i b Hb) as (c & Hc' & [= _ _ -> _]). by eapply H5.
  - intros i j b c Hb Hc'. destruct (Hlk i b Hb) as (b0 & Hb0 & [= -> -> _ _]).
    destruct (Hlk j c Hc') as (c0 & Hc0 & [= -> -> _ _]). intros. by eapply H6.
Qed.

(** The neighbours of a buffer in the list. *)
Lemma circ_neighbours nx pv l1 x l2 :
  circ nx pv (l1 ++ x :: l2) -> NoDup (l1 ++ x :: l2) -> l1 ++ l2 <> [] ->
  exists p n, nx x = Some (Z.of_nat n) /\ pv x = Some (Z.of_nat p) /\ p ∈ l1 ++ l2 /\ n ∈ l1 ++ l2.
Proof.
  intros Hc Hnd Hne. destruct l1 as [|h l1]; simpl in *.
  - destruct l2 as [|n l2]; [done|]. destruct Hc as [[E1 E2] Hc].
    destruct (list.last (n :: l2)) as [t|] eqn:Et; [|by apply list.last_None in Et].
    destruct (path_last _ _ _ _ _ _ Et Hc) as [E3 E4]. exists t, n.
    split_and!; try done; [by apply last_in|by left].
  - rewrite path_app in Hc. destruct Hc as [Hc1 Hc2].
    destruct (list.last (h :: l1)) as [t|] eqn:Et; [|by apply list.last_None in Et].
    destruct (path_last _ _ _ _ _ _ Et Hc1) as [E3 E4]. pose proof (path_first _ _ _ _ _ Hc2) as [E5 _].
    exists t, (default h (List.hd_error l2)). split_and!; try done.
    + apply (elem_of_app (h :: l1) l2). left. by apply last_in.
    + destruct l2 as [|n l2]; simpl; [left|]. apply elem_of_cons. right. apply elem_of_app. right. left.
Qed.

Lemma alter_lookup_Some {A} (f : A -> A) (l : list A) (i j : nat) :
  is_Some (alter f i l !! j) <-> is_Some (l !! j).
Proof. rewrite !lookup_lt_is_Some, length_alter. done. Qed.

Lemma upd_buffer_lt s i f : i < length (buffers s) ->
  upd_buffer i f s = Done (tt, mkBC (alter f i (buffers s)) (head s)).
Proof. intros Hi. destruct (lookup_lt_is_Some_2 _ _ Hi) as [b Hb]. by apply (upd_buffer_Done s i b). Qed.

Lemma nxt_buffer s i n : nxt (buffers s) i = Some n -> exists b, buffers s !! i = Some b /\ next b = n.
Proof. unfold nxt. destruct (buffers s !! i) as [b|]; simpl; intros [= <-]. eauto. Qed.
Lemma prv_buffer s i n : prv (buffers s) i = Some n -> exists b, buffers s !! i = Some b /\ prev b = n.
Proof. unfold prv. destruct (buffers s !! i) as [b|]; simpl; intros [= <-]. eauto. Qed.

Lemma to_front_run s x p n h hp :
  nxt (buffers s) x = Some (Z.of_nat n) -> prv (buffers s) x = Some (Z.of_nat p) ->
  x < length (buffers s) -> p < length (buffers s) -> n < length (buffers s) -> p <> x ->
  h = (if head s =? x then n else head s) -> h < length (buffers s) -> hp < length (buffers s) ->
  (if decide (h = n) then hp = p else prv (buffers s) h = Some (Z.of_nat hp)) ->
  to_front x s = Done (tt, mkBC (relinked x p n h hp (buffers s)) x).
Proof.
  intros Hxn Hxp Lx Lp Ln Hpx Hh Lh Lhp Hhp. destruct s as [bs hd]. cbn [buffers head] in *.
  destruct (prv_buffer (mkBC bs hd) x _ Hxp) as (b & Hb & Hbp). cbn [buffers] in Hb.
  assert (Hbn : next b = Z.of_nat n) by (unfold nxt in Hxn; rewrite Hb in Hxn; simpl in Hxn; congruence).
  unfold to_front. mstep (buffer_Done (mkBC bs hd) x b Hb). rewrite Hbp, Hbn, !Nat2Z.id.
  mstep (upd_buffer_lt (mkBC bs hd) n (set_prev (Z.of_nat p)) Ln). cbn [buffers head].
  set (bs1 := alter _ n bs).
  destruct (nxt_buffer (mkBC bs1 hd) x (Z.of_nat n)) as (b1 & Hb1 & Hbn1); [cbn; unfold bs1; by rewrite nxt_alter|].
  mstep (buffer_Done (mkBC bs1 hd) x b1 Hb1). rewrite Hbn1.
  assert (L1 : length bs1 = length bs) by apply length_alter.
  mstep (upd_buffer_lt (mkBC bs1 hd) p (set_next (Z.of_nat n)) ltac:(cbn; lia)). cbn [buffers head].
  set (bs2 := alter _ p bs1). assert (L2 : length bs2 = length bs) by (unfold bs2; by rewrite length_alter).
  rewrite bind_get.
  assert (Hset : (if hd =? x then hb ← buffer hd; set_head (Z.to_nat (next hb)) else mret tt) (mkBC bs2 hd) =
    Done (tt, mkBC bs2 h)).
  { destruct (Nat.eqb_spec hd x) as [->|Hne]; [|by subst h].
    destruct (nxt_buffer (mkBC bs2 x) x (Z.of_nat n)) as (b2 & Hb2 & Hbn2).
    { cbn. unfold bs2. rewrite nxt_set by lia. rewrite decide_False by done. unfold bs1. by rewrite nxt_alter. }
    mstep (buffer_Done (mkBC bs2 x) x b2 Hb2). rewrite Hbn2, Nat2Z.id. unfold set_head, modify. by subst h. }
  cbn [head]. mstep Hset. rewrite bind_get. cbn [head].
  destruct (prv_buffer (mkBC bs2 h) h (Z.of_nat hp)) as (b3 & Hb3 & Hbp3).
  { cbn. unfold bs2. rewrite prv_alter by done. unfold bs1. rewrite prv_set by done.
    destruct (decide (h = n)); [by subst hp|done]. }
  mstep (buffer_Done (mkBC bs2 h) h b3 Hb3). rewrite Hbp3, Nat2Z.id.
  mstep (upd_buffer_lt (mkBC bs2 h) x (set_next (Z.of_nat h)) ltac:(cbn; lia)). cbn [buffers head].
  mstep (upd_buffer_lt (mkBC (alter (set_next (Z.of_nat h)) x bs2) h) x (set_prev (Z.of_nat hp))
    ltac:(cbn; rewrite length_alter; lia)). cbn [buffers head].
  rewrite (bind_Done _ _ _ _ _ (upd_buffer_lt (mkBC (alter (set_prev (Z.of_nat hp)) x (alter (set_next (Z.of_nat h)) x bs2)) h)
    h (set_prev (Z.of_nat x)) ltac:(cbn; rewrite !length_alter; lia))). cbn [buffers head].
  rewrite (bind_Done _ _ _ _ _ (upd_buffer_lt (mkBC (alter (set_prev (Z.of_nat x)) h (alter (set_prev (Z.of_nat hp)) x
    (alter (set_next (Z.of_nat h)) x bs2))) h) hp (set_next (Z.of_nat x)) ltac:(cbn; rewrite !length_alter; lia))).
  done.
Qed.

Section ReleaseSpec.
Context `{Profile}.

Lemma binv_neighbours s ord x :
  binv s ord -> x < NBUF ->
  exists p n, nxt (buffers s) x = Some (Z.of_nat n) /\ prv (buffers s) x = Some (Z.of_nat p) /\
    (p < NBUF /\ p <> x) /\ (n < NBUF /\ n <> x).
Proof.
  intros Hi Hx. pose proof (binv_nodup _ _ Hi) as Hnd.
  destruct (list_elem_of_split ord x) as (l1 & l2 & ->); [by apply (binv_in _ _ x Hi)|].
  assert (Hne : l1 ++ l2 <> []).
  { pose proof (Permutation_length (bi_perm _ _ Hi)) as Hl. rewrite length_app in Hl. simpl in Hl.
    intros [-> ->]%app_eq_nil. simpl in Hl. lia. }
  assert (Hsub : forall a, a ∈ l1 ++ l2 -> a < NBUF /\ a <> x).
  { intros a Ha. rewrite <- (binv_in _ _ a Hi). rewrite <- Permutation_middle in Hnd |- *.
    apply NoDup_cons_1_1 in Hnd. split; [by right|by intros ->]. }
  destruct (circ_neighbours _ _ _ _ _ (bi_circ _ _ Hi) Hnd Hne) as (p & n & Hxn & Hxp & Hp & Hn).
  exists p, n. auto.
Qed.

Lemma filter_remove (x : nat) l1 l2 : NoDup (l1 ++ x :: l2) -> filter (fun y => y <> x) (l1 ++ x :: l2) = l1 ++ l2.
Proof.
  intros Hnd. rewrite <- Permutation_middle in Hnd. apply NoDup_cons_1_1 in Hnd.
  rewrite list.filter_app, filter_cons_False by tauto. rewrite <- list.filter_app.
  revert Hnd. generalize (l1 ++ l2). induction l as [|y l IH]; intros Hnd; [done|].
  apply not_elem_of_cons in Hnd as [H1 H2]. rewrite filter_cons_True by auto. f_equal. by apply IH.
Qed.

Lemma to_front_spec s ord x :
  binv s ord -> x < NBUF ->
  exists s', to_front x s = Done (tt, s') /\ binv s' (x :: filter (fun y => y <> x) ord) /\
    forall j, meta <$> buffers s' !! j = meta <$> buffers s !! j.
Proof.
  intros Hi Hx. pose proof (binv_nodup _ _ Hi) as Hnd. pose proof (bi_len _ _ Hi) as Hlen.
  destruct (binv_neighbours _ _ _ Hi Hx) as (p & n & Hxn & Hxp & [Lp Npx] & [Ln Nnx]).
  destruct (list_elem_of_split ord x) as (l1 & l2 & ->); [by apply (binv_in _ _ x Hi)|].
  rewrite (filter_remove x l1 l2 Hnd).
  set (h := default n (List.hd_error l1)).
  assert (Hh : h = (if head s =? x then n else head s) /\ h < NBUF).
  { pose proof (bi_head _ _ Hi) as Hhd. unfold h. destruct l1 as [|h0 l1]; simpl in *; injection Hhd as <-.
    - by rewrite Nat.eqb_refl.
    - destruct (Nat.eqb_spec h0 x) as [->|].
      + exfalso. apply NoDup_cons_1_1 in Hnd. apply Hnd. apply elem_of_app. right. left.
      + split; [done|]. apply (binv_in _ _ h0 Hi). left. }
  destruct Hh as [Hh Lh]. destruct (binv_neighbours _ _ _ Hi Lh) as (q & _ & _ & Hhp & [Lq _] & _).
  set (hp := if decide (h = n) then p else q).
  assert (Ehp : if decide (h = n) then hp = p else prv (buffers s) h = Some (Z.of_nat hp))
    by (unfold hp; by case_decide).
  assert (Lhp : hp < NBUF) by (unfold hp; by case_decide).
  eexists. split; [apply (to_front_run s x p n h hp); rewrite ?Hlen; done|].
  assert (Hm : forall j, meta <$> relinked x p n h hp (buffers s) !! j = meta <$> buffers s !! j)
    by (intros; apply meta_relinked).
  split; [|exact Hm]. apply (binv_meta s _ (l1 ++ x :: l2)); try done.
  - cbn. by rewrite relinked_length.
  - by rewrite <- Permutation_middle.
  - cbn [buffers]. apply relinked_circ; try done; [apply (bi_circ _ _ Hi)| |].
    + intros a Ha. rewrite Hlen. by apply (binv_in _ _ a Hi).
    + pose proof (Permutation_length (bi_perm _ _ Hi)) as Hl. rewrite length_app in Hl. simpl in Hl.
      intros [-> ->]%app_eq_nil. simpl in Hl. lia.
Qed.

(** The list after a release: a buffer nobody uses any more becomes the most
    recent one. *)
Definition released_order (rc : Z) (x : nat) (ord : list nat) : list nat :=
  if (rc =? 1)%Z then x :: filter (fun y => y <> x) ord else ord.

Lemma release_spec s ord x b :
  binv s ord -> buffers s !! x = Some b -> (0 < reference_count b)%Z ->
  exists s', release x s = Done (tt, s') /\ binv s' (released_order (reference_count b) x ord) /\
    (forall j, meta <$> buffers s' !! j = meta <$> alter (set_rc (reference_count b - 1)) x (buffers s) !! j).
Proof.
  intros Hi Hb Hrc. pose proof (bi_rc _ _ Hi x b Hb) as Hw.
  assert (Hx : x < NBUF) by (rewrite <- (bi_len _ _ Hi); by eapply lookup_lt_Some).
  set (s1 := mkBC (alter (set_rc (reference_count b - 1)) x (buffers s)) (head s)).
  assert (Hi1 : binv s1 ord).
  { eapply binv_alter; try done; [cbn; unfold in_width in *; lia|].
    intros j c Hj Hne Hd [E1 E2]. apply Hne. symmetry. by eapply (bi_key _ _ Hi x j b c). }
  assert (E : release x s = (if (reference_count b - 1 =? 0)%Z then to_front x else mret tt) s1).
  { unfold release. mstep (buffer_Done s x b Hb). unfold usub.
    rewrite checked_ok by (unfold in_width in *; lia). rewrite bind_lift.
    mstep (upd_buffer_Done s x b (set_rc (reference_count b - 1)) Hb). done. }
  rewrite E. unfold released_order. destruct (Z.eqb_spec (reference_count b) 1) as [E1|Hne].
  - replace (reference_count b - 1 =? 0)%Z with true by (symmetry; apply Z.eqb_eq; lia).
    destruct (to_front_spec s1 ord x Hi1 Hx) as (s' & Hr & Hi' & Hm). exists s'. done.
  - destruct (Z.eqb_spec (reference_count b - 1) 0); [lia|]. exists s1. done.
Qed.
End ReleaseSpec.

(** ** The cache as a map of the blocks in use

    What a client sees: the blocks in use, each with the buffer it is in, its
    reference count and its content.  Every other block is on the device, and a
    buffer nobody uses agrees with the device. *)

Record use := mkUse { u_idx : nat; u_rc : Z; u_data : block }.

Section Rep.
Context {D : Type} `{!BDev D} (d : Z).

Definition holds_use (bs : list Buffer) (b : Z) (x : use) : Prop :=
  (0 < u_rc x)%Z /\ exists bf, bs !! u_idx x = Some bf /\ meta bf = (d, b, u_rc x, u_data x).

Record rep (s : BufferCache D) (u : gmap Z use) : Prop := mkRep {
  r_binv : exists ord, binv (internal s) ord;
  r_use : forall b x, u !! b = Some x <-> holds_use (buffers (internal s)) b x;
  r_dev : forall i bf, buffers (internal s) !! i = Some bf -> (0 < reference_count bf)%Z -> dev bf = d;
  r_free : forall i bf, buffers (internal s) !! i = Some bf -> reference_count bf = 0%Z ->
    dev bf = 0%Z \/ dev bf = d /\ blocks (bdev s) !! block_number bf = Some (data bf);
  r_disk : forall b x, u !! b = Some x -> length (u_data x) = BSIZE /\ is_Some (blocks (bdev s) !! b) }.

(** The invariant follows the buffers through a change of one of them. *)
Lemma holds_use_other bs bs' i b x :
  (forall j, j <> i -> meta <$> bs' !! j = meta <$> bs !! j) -> u_idx x <> i ->
  holds_use bs b x -> holds_use bs' b x.
Proof.
  intros Hm Hne [Hrc (bf & Hb & Hbf)]. split; [done|]. specialize (Hm (u_idx x) Hne). rewrite Hb in Hm.
  destruct (bs' !! u_idx x) as [bf'|]; [|done]. exists bf'. split; [done|].
  apply (inj Some) in Hm. by rewrite Hm.
Qed.

Definition use_set (b : Z) (x : use) (u : gmap Z use) : gmap Z use :=
  if (0 <? u_rc x)%Z then <[b := x]> u else delete b u.

(** One buffer, now holding block [b], changes; the others keep what they hold. *)
Lemma rep_change s u s' ord i bf b x :
  rep s u -> d <> 0%Z -> binv (internal s') ord ->
  (forall j, j <> i -> meta <$> buffers (internal s') !! j = meta <$> buffers (internal s) !! j) ->
  buffers (internal s') !! i = Some bf -> meta bf = (d, b, u_rc x, u_data x) -> u_idx x = i -> (0 <= u_rc x)%Z ->
  (forall b' y, u !! b' = Some y -> u_idx y = i <-> b' = b) ->
  (forall b', b' <> b -> blocks (bdev s') !! b' = blocks (bdev s) !! b') ->
  length (u_data x) = BSIZE -> is_Some (blocks (bdev s') !! b) ->
  (u_rc x = 0%Z -> blocks (bdev s') !! b = Some (u_data x)) ->
  rep s' (use_set b x u).
Proof.
  intros [_ R2 R3 R4 R5] Hd Hi Hm Hbf Hmeta Hx Hrc Hu Hdisk Hlen Hsome Hclean.
  pose proof Hmeta as [= Ed Eb Erc Ev].
  assert (Huniq : forall j c, buffers (internal s') !! j = Some c -> dev c = d -> block_number c = b -> j = i).
  { intros j c Hj Hdc Hbc. eapply (bi_key _ _ Hi j i c bf); congruence. }
  assert (Hback : forall j c, j <> i -> buffers (internal s') !! j = Some c ->
    exists c0, buffers (internal s) !! j = Some c0 /\ meta c0 = meta c).
  { intros j c Hne Hj. specialize (Hm j Hne). rewrite Hj in Hm.
    destruct (buffers (internal s) !! j) as [c0|]; [|done]. exists c0. split; [done|]. by apply (inj Some) in Hm. }
  assert (Huse : forall b' y, b' <> b -> u !! b' = Some y <-> holds_use (buffers (internal s')) b' y).
  { intros b' y Hne. rewrite R2. split; intros Hh.
    - eapply holds_use_other; [exact Hm| |exact Hh]. intros E. apply R2 in Hh. by apply Hne, (Hu b' y).
    - eapply (holds_use_other _ _ i); [| |exact Hh]; [intros; by rewrite Hm|]. intros E.
      destruct Hh as [_ (c & Hc & Hmc)]. rewrite E in Hc. congruence. }
  assert (Hat : forall y, holds_use (buffers (internal s')) b y <-> y = x /\ (0 < u_rc x)%Z).
  { intros y. split.
    - intros [Hy (c & Hc & Hmc)]. pose proof Hmc as [= H1 H2 _ _]. pose proof (Huniq _ _ Hc H1 H2) as E.
      rewrite E, Hbf in Hc. injection Hc as <-. rewrite Hmeta in Hmc. injection Hmc as E3 E4.
      split; [|congruence]. destruct x, y; simpl in *; congruence.
    - intros [-> Hy]. split; [done|]. exists bf. by rewrite Hx. }
  split.
  - eauto.
  - intros b' y. unfold use_set. destruct (Z.ltb_spec 0 (u_rc x)); destruct (decide (b' = b)) as [->|Hne].
    + rewrite lookup_insert_eq, Hat. naive_solver.
    + rewrite lookup_insert_ne by done. by apply Huse.
    + rewrite lookup_delete_eq, Hat. split; [done|lia].
    + rewrite lookup_delete_ne by done. by apply Huse.
  - intros j c Hj Hc. destruct (decide (j = i)) as [->|Hne]; [congruence|].
    destruct (Hback j c Hne Hj) as (c0 & Hc0 & [= <- _ E _]). apply (R3 j c0); [done|lia].
  - intros j c Hj Hc. destruct (decide (j = i)) as [->|Hne].
    + right. rewrite Hbf in Hj. injection Hj as <-. split; [done|]. rewrite Eb, Ev. apply Hclean. congruence.
    + destruct (Hback j c Hne Hj) as (c0 & Hc0 & [= E1 E2 E3 E4]).
      destruct (R4 j c0 Hc0 ltac:(congruence)) as [|[Hd0 Hb0]]; [left; congruence|right]. split; [congruence|].
      rewrite Hdisk; [congruence|]. intros Eb'. apply Hne. apply (Huniq j c); congruence.
  - intros b' y Hy. destruct (decide (b' = b)) as [->|Hne].
    + unfold use_set in Hy. destruct (Z.ltb_spec 0 (u_rc x)); [|by rewrite lookup_delete_eq in Hy].
      rewrite lookup_insert_eq in Hy. by injection Hy as <-.
    + rewrite Hdisk by done. apply (R5 b' y). unfold use_set in Hy.
      case_match; [by rewrite lookup_insert_ne in Hy|by rewrite lookup_delete_ne in Hy].
Qed.
End Rep.

Section Ops.
Context `{Profile} {D : Type} `{!BDev D} (d : Z) (Hd : d <> 0%Z).
Implicit Types (s : BufferCache D) (u : gmap Z use) (b : Z).

Lemma on_internal_Done {A} (m : M BufferCacheInternal A) s a i :
  m (internal s) = Done (a, i) -> on_internal m s = Done (a, mkBCache i (bdev s)).
Proof. intros E. unfold on_internal. by rewrite E. Qed.

(** When every buffer is in use there are as many blocks in use as buffers. *)
Lemma all_used_size s u :
  rep d s u -> (forall i bf, buffers (internal s) !! i = Some bf -> (0 < reference_count bf)%Z) -> NBUF <= size u.
Proof using Hd.
  intros [[ord Hi] R2 R3 _ _] Hall. set (bns := block_number <$> buffers (internal s)).
  assert (Hnd : NoDup bns).
  { apply NoDup_alt. intros i j y Hy1 Hy2. unfold bns in *. rewrite list_lookup_fmap in Hy1, Hy2.
    destruct (buffers (internal s) !! i) as [bi|] eqn:Ei; [|done].
    destruct (buffers (internal s) !! j) as [bj|] eqn:Ej; [|done]. simpl in *. simplify_eq.
    assert (dev bi = d) by eauto. assert (dev bj = d) by eauto.
    eapply (bi_key _ _ Hi i j bi bj); congruence. }
  assert (Hsub : (list_to_set bns : gset Z) ⊆ dom u).
  { intros y Hy. apply elem_of_list_to_set, list_elem_of_lookup in Hy as [i Hy]. unfold bns in Hy.
    rewrite list_lookup_fmap in Hy. destruct (buffers (internal s) !! i) as [bi|] eqn:Ei; [|done].
    simpl in Hy. injection Hy as <-. apply elem_of_dom. exists (mkUse i (reference_count bi) (data bi)).
    apply R2. split; [by eapply Hall|]. exists bi. split; [done|]. unfold meta. by erewrite R3 by eauto. }
  apply subseteq_size in Hsub. rewrite size_list_to_set, size_dom in Hsub by done.
  unfold bns in Hsub. rewrite length_fmap, (bi_len _ _ Hi) in Hsub. done.
Qed.

(** The entry of block [b] after one more guard for it, in buffer [i]. *)
Definition read_use u b (v : block) (i : nat) : use :=
  match u !! b with Some x => mkUse i (u_rc x + 1) (u_data x) | None => mkUse i 1 v end.

Lemma use_idx s u b x i bf :
  rep d s u -> buffers (internal s) !! i = Some bf -> dev bf = d -> block_number bf = b ->
  u !! b = Some x -> u_idx x = i /\ u_rc x = reference_count bf /\ u_data x = data bf.
Proof using Hd.
  intros R Hb Hdv Hbn Hx. destruct (r_binv _ _ _ R) as [ord Hi].
  apply (r_use _ _ _ R) in Hx as [Hrc (c & Hc & [= E1 E2 E3 E4])].
  assert (E : i = u_idx x) by (eapply (bi_key _ _ Hi i (u_idx x) bf c); congruence).
  rewrite <- E, Hb in Hc. injection Hc as <-. auto.
Qed.

Lemma use_of s u i bf :
  rep d s u -> buffers (internal s) !! i = Some bf -> (0 < reference_count bf)%Z ->
  u !! block_number bf = Some (mkUse i (reference_count bf) (data bf)).
Proof.
  intros R Hb Hrc. apply (r_use _ _ _ R). split; [done|]. exists bf. split; [done|].
  unfold meta. simpl. by erewrite (r_dev _ _ _ R) by eauto.
Qed.

(** Blocks in use sit in different buffers. *)
Lemma use_inj s u b b' x y : rep d s u -> u !! b = Some x -> u !! b' = Some y -> u_idx x = u_idx y -> b = b'.
Proof.
  intros R Hx Hy E. apply (r_use _ _ _ R) in Hx as [_ (c & Hc & [= _ E1 _ _])].
  apply (r_use _ _ _ R) in Hy as [_ (c' & Hc' & [= _ E2 _ _])]. congruence.
Qed.

Lemma use_set_pos b x u : (0 < u_rc x)%Z -> use_set b x u = <[b := x]> u.
Proof. intros Hx. unfold use_set. by destruct (Z.ltb_spec 0 (u_rc x)); [|lia]. Qed.

Lemma alter_others (f : Buffer -> Buffer) (i : nat) (bs : list Buffer) (j : nat) : j <> i -> meta <$> alter f i bs !! j = meta <$> bs !! j.
Proof. intros Hne. by rewrite list_lookup_alter_ne. Qed.

Lemma read_hit s u b v i bf ord :
  rep d s u -> blocks (bdev s) !! b = Some v -> buffers (internal s) !! i = Some bf -> dev bf = d ->
  block_number bf = b ->
  let s' := mkBCache (mkBC (alter (set_rc (reference_count bf + 1)) i (buffers (internal s))) (head (internal s))) (bdev s) in
  binv (internal s') ord -> rep d s' (<[b := read_use u b v i]> u) /\ (forall x, u !! b = Some x -> u_idx x = i).
Proof using Hd.
  intros R Hv Hb Hdv Hbn s' Hi.
  assert (Hu : forall x, u !! b = Some x -> u_idx x = i /\ u_rc x = reference_count bf /\ u_data x = data bf)
    by (intros; by eapply use_idx).
  assert (Hx : read_use u b v i = mkUse i (reference_count bf + 1) (data bf) /\ length (data bf) = BSIZE).
  { unfold read_use. destruct (u !! b) as [x|] eqn:Ex.
    - destruct (Hu x eq_refl) as (_ & -> & E). rewrite <- E. split; [done|]. by eapply (r_disk _ _ _ R).
    - assert (Hrc : reference_count bf = 0%Z).
      { destruct (r_binv _ _ _ R) as [ord0 Hi0]. pose proof (bi_rc _ _ Hi0 i bf Hb) as [? _].
        destruct (decide (reference_count bf = 0%Z)); [done|]. pose proof (use_of s u i bf R Hb ltac:(lia)). congruence. }
      destruct (r_free _ _ _ R i bf Hb Hrc) as [E|[_ E]]; [congruence|]. rewrite Hbn, Hv in E.
      injection E as ->. rewrite Hrc. split; [done|]. by eapply blocks_len. }
  destruct Hx as [Hx Hlen]. split; [|intros x E; by destruct (Hu x E)].
  pose proof (bi_rc _ _ Hi i (set_rc (reference_count bf + 1) bf)) as Hw. simpl in Hw.
  rewrite list_lookup_alter_eq, Hb in Hw. specialize (Hw eq_refl) as [Hw _].
  destruct (r_binv _ _ _ R) as [ord0 Hi0]. pose proof (bi_rc _ _ Hi0 i bf Hb) as [Hw0 _]. rewrite Hx.
  rewrite <- use_set_pos by (simpl; lia).
  eapply (rep_change d s u s' ord i); try done.
  - intros. by apply alter_others.
  - simpl. by rewrite list_lookup_alter_eq, Hb.
  - unfold meta, set_rc. simpl. by rewrite Hdv, Hbn.
  - intros b' y Hy. split; [intros E|intros ->; by apply Hu].
    apply (r_use _ _ _ R) in Hy as [_ (c & Hc & [= _ E2 _ _])]. congruence.
  - simpl. lia.
Qed.

Lemma read_miss s u b v i bf ord :
  rep d s u -> blocks (bdev s) !! b = Some v -> buffers (internal s) !! i = Some bf -> reference_count bf = 0%Z ->
  u !! b = None ->
  let s' := mkBCache (mkBC (alter (set_data v) i (buffers (recycled (internal s) i d b))) (head (internal s))) (bdev s) in
  binv (internal s') ord -> rep d s' (<[b := mkUse i 1 v]> u).
Proof using Hd.
  intros R Hv Hb Hrc Hn s' Hi.
  change (<[b:={| u_idx := i; u_rc := 1; u_data := v |}]> u) with (use_set b (mkUse i 1 v) u).
  eapply (rep_change d s u s' ord i); try done.
  - intros j Hj. simpl. rewrite !alter_others; done.
  - simpl. by rewrite !list_lookup_alter_eq, Hb.
  - done.
  - intros b' y Hy. split; [intros E|intros ->; congruence].
    apply (r_use _ _ _ R) in Hy as [Hp (c & Hc & [= _ E2 E3 _])]. rewrite E, Hb in Hc. injection Hc as <-. lia.
  - by eapply blocks_len.
Qed.

Lemma in_filter_ord (P : nat -> bool) s ord i bf :
  binv (internal s) ord -> buffers (internal s) !! i = Some bf -> P i = true -> i ∈ filter (fun i => P i = true) ord.
Proof.
  intros Hi Hb HP. apply list_elem_of_filter. split; [done|].
  apply (binv_in _ _ _ Hi). rewrite <- (bi_len _ _ Hi). by eapply lookup_lt_Some.
Qed.

Lemma no_hit_unused s u b ord :
  rep d s u -> binv (internal s) ord ->
  List.hd_error (filter (fun i => matches (internal s) d b i = true) ord) = None -> u !! b = None.
Proof.
  intros R Hi Hh. destruct (u !! b) as [x|] eqn:Ex; [|done].
  apply (r_use _ _ _ R) in Ex as [_ (c & Hc & [= E1 E2 _ _])].
  assert (Hin : u_idx x ∈ filter (fun i => matches (internal s) d b i = true) ord).
  { eapply in_filter_ord; [done..|]. unfold matches. by rewrite Hc, E1, E2, !Z.eqb_refl. }
  destruct (filter _ ord); [by apply elem_of_nil in Hin|done].
Qed.

Lemma no_free_size s u ord :
  rep d s u -> binv (internal s) ord ->
  list.last (filter (fun i => is_free (internal s) i = true) ord) = None -> NBUF <= size u.
Proof using Hd.
  intros R Hi Hl%list.last_None. apply (all_used_size s u R). intros i bf Hb.
  pose proof (bi_rc _ _ Hi i bf Hb) as [? _]. destruct (decide (reference_count bf = 0%Z)) as [E|]; [|lia].
  exfalso. assert (Hin : i ∈ filter (fun i => is_free (internal s) i = true) ord).
  { eapply in_filter_ord; [done..|]. unfold is_free. by rewrite Hb, E. }
  rewrite Hl in Hin. by apply elem_of_nil in Hin.
Qed.

Lemma rep_get s u ord b :
  rep d s u -> binv (internal s) ord -> (forall x, u !! b = Some x -> (u_rc x < 2 ^ 32 - 1)%Z) ->
  forall i bf, buffers (internal s) !! i = Some bf -> dev bf = d -> block_number bf = b ->
    (reference_count bf < 2 ^ 32 - 1)%Z.
Proof.
  intros R Hi Hmax i bf Hb Hdv Hbn. destruct (decide (0 < reference_count bf)%Z) as [Hp|]; [|lia].
  pose proof (use_of s u i bf R Hb Hp) as Hu. rewrite Hbn in Hu. apply (Hmax _ Hu).
Qed.

(** [read]: the content of the block, from its buffer or from the device. *)
Lemma read_spec s u b v :
  rep d s u -> blocks (bdev s) !! b = Some v ->
  (forall x, u !! b = Some x -> (u_rc x < 2 ^ 32 - 1)%Z) -> (u !! b = None -> size u < NBUF) ->
  exists i s', read d b s = Done (mkGuard d b i, s') /\ bdev s' = bdev s /\
    rep d s' (<[b := read_use u b v i]> u) /\ (forall x, u !! b = Some x -> u_idx x = i).
Proof using Hd.
  intros R Hv Hmax Hsize. destruct (r_binv _ _ _ R) as [ord Hi].
  pose proof (get_spec (internal s) ord d b Hi Hd (rep_get s u ord b R Hi Hmax)) as Hget. unfold read.
  destruct (List.hd_error _) as [i|] eqn:Ehit.
  { destruct Hget as (bf & Hb & Hdv & Hbn & Hg & Hi'). mstep (on_internal_Done _ s _ _ Hg).
    rewrite bind_mret. eexists i, _. split; [done|]. split; [done|]. by eapply (read_hit s u b v i bf ord). }
  pose proof (no_hit_unused s u b ord R Hi Ehit) as Hn.
  destruct (list.last _) as [i|] eqn:Efree.
  2:{ pose proof (no_free_size s u ord R Hi Efree). specialize (Hsize Hn). lia. }
  destruct Hget as [Hg Hi']. apply last_filter_in in Efree as [Hf _]. unfold is_free in Hf.
  destruct (buffers (internal s) !! i) as [bf|] eqn:Hb; [|done]. apply Z.eqb_eq in Hf.
  mstep (on_internal_Done _ s _ _ Hg).
  pose proof (blocks_len _ _ _ Hv) as [Hlen Hbr]. unfold sector_of, umul.
  rewrite checked_ok, bind_assoc, bind_lift, bind_assoc, bind_get by (unfold in_width; lia).
  cbn [bdev]. rewrite bind_assoc, (bdev_read_ok _ _ _ Hv), bind_lift.
  assert (Hb' : buffers (recycled (internal s) i d b) !! i = Some (mkBuf (prev bf) (next bf) d b 1 (data bf))).
  { simpl. by rewrite list_lookup_alter_eq, Hb. }
  mstep (on_internal_Done _ (mkBCache (recycled (internal s) i d b) (bdev s)) _ _
    (upd_buffer_Done _ i _ (set_data v) Hb')).
  eexists i, _. split; [done|]. split; [done|]. unfold read_use. rewrite Hn.
  split; [|done]. eapply (read_miss s u b v i bf ord); try done.
  simpl. eapply (binv_alter (recycled (internal s) i d b)); try done.
  intros j c Hj Hne Hdc [E1 E2]. apply Hne. symmetry. by eapply (bi_key _ _ Hi').
Qed.

(** A guard is good for the block it names while the block is in use. *)
Definition guards u (g : BufferGuard) (b : Z) (x : use) : Prop :=
  u !! b = Some x /\ g_index g = u_idx x /\ g_block_number g = b.

Lemma guards_buffer s u g b x :
  rep d s u -> guards u g b x ->
  exists bf, buffers (internal s) !! g_index g = Some bf /\ meta bf = (d, b, u_rc x, u_data x) /\ (0 < u_rc x)%Z.
Proof.
  intros R (Hx & -> & _). apply (r_use _ _ _ R) in Hx as [Hp (bf & Hb & Hm)]. eauto.
Qed.

Lemma guard_data_spec s u g b x :
  rep d s u -> guards u g b x -> guard_data g s = Done (u_data x, s).
Proof.
  intros R Hg. destruct (guards_buffer s u g b x R Hg) as (bf & Hb & [= _ _ _ E] & _).
  unfold guard_data. mstep (on_internal_Done _ s _ _ (buffer_Done _ _ _ Hb)). rewrite E. by destruct s.
Qed.

(** Any change of one buffer in use that keeps its block. *)
Lemma rep_touch s u g b x f y :
  rep d s u -> guards u g b x -> (forall z, next (f z) = next z) -> (forall z, prev (f z) = prev z) ->
  (forall bf, meta bf = (d, b, u_rc x, u_data x) -> meta (f bf) = (d, b, u_rc y, u_data y)) ->
  u_idx y = u_idx x -> in_width 32 (u_rc y) -> length (u_data y) = BSIZE ->
  (u_rc y = 0%Z -> blocks (bdev s) !! b = Some (u_data y)) ->
  on_internal (upd_buffer (g_index g) f) s =
    Done (tt, mkBCache (mkBC (alter f (g_index g) (buffers (internal s))) (head (internal s))) (bdev s)) /\
  rep d (mkBCache (mkBC (alter f (g_index g) (buffers (internal s))) (head (internal s))) (bdev s)) (use_set b y u).
Proof using Hd.
  intros R Hg Hn Hp Hf Hi Hw Hl Hc. destruct (guards_buffer s u g b x R Hg) as (bf & Hb & Hm & Hrc).
  split; [by apply on_internal_Done, (upd_buffer_Done _ _ bf)|]. destruct (r_binv _ _ _ R) as [ord Hinv].
  pose proof Hg as (Hx & Ei & Eb). pose proof (Hf bf Hm) as Hm'. pose proof Hm as [= E1 E2 _ _].
  pose proof Hm' as [= E3 E4 E5 _].
  assert (Hinv' : binv (mkBC (alter f (g_index g) (buffers (internal s))) (head (internal s))) ord).
  { eapply binv_alter; try done; [by rewrite E5|].
    intros j c Hj Hne Hdv [H1 H2]. apply Hne. symmetry. eapply (bi_key _ _ Hinv _ _ bf c); congruence. }
  eapply (rep_change d s u _ ord (g_index g) (f bf) b y); try done.
  - intros. by apply alter_others.
  - simpl. by rewrite list_lookup_alter_eq, Hb.
  - congruence.
  - apply Hw.
  - intros b' z Hz. rewrite Ei. split; [|congruence]. intros E. by eapply (use_inj s u).
  - by eapply (r_disk _ _ _ R).
Qed.

Lemma guard_set_spec s u g b x v :
  rep d s u -> guards u g b x -> length v = BSIZE ->
  exists s', guard_set g v s = Done (tt, s') /\ bdev s' = bdev s /\
    rep d s' (<[b := mkUse (u_idx x) (u_rc x) v]> u).
Proof using Hd.
  intros R Hg Hv. destruct (guards_buffer s u g b x R Hg) as (bf & Hb & [= E1 E2 E3 E4] & Hrc).
  destruct (r_binv _ _ _ R) as [ord Hi]. pose proof (bi_rc _ _ Hi _ _ Hb) as Hw. rewrite E3 in Hw.
  destruct (rep_touch s u g b x (set_data v) (mkUse (u_idx x) (u_rc x) v)) as [Hr Hs]; try done; simpl; try lia.
  { intros z [= F1 F2 F3 F4]. unfold meta. simpl. congruence. }
  rewrite use_set_pos in Hs by done. eauto.
Qed.

Lemma on_internal_ext {A} (m m' : M BufferCacheInternal A) s :
  m (internal s) = m' (internal s) -> on_internal m s = on_internal m' s.
Proof. intros E. unfold on_internal. by rewrite E. Qed.

Lemma pin_upd t i bf : buffers t !! i = Some bf -> (0 <= reference_count bf < 2 ^ 32 - 1)%Z ->
  pin i t = upd_buffer i (set_rc (reference_count bf + 1)) t.
Proof.
  intros Hb Hrc. unfold pin. mstep (buffer_Done _ _ _ Hb). unfold uadd.
  by rewrite checked_ok, bind_lift by (unfold in_width; lia).
Qed.
Lemma unpin_upd t i bf : buffers t !! i = Some bf -> (0 < reference_count bf < 2 ^ 32)%Z ->
  unpin i t = upd_buffer i (set_rc (reference_count bf - 1)) t.
Proof.
  intros Hb Hrc. unfold unpin. mstep (buffer_Done _ _ _ Hb). unfold usub.
  by rewrite checked_ok, bind_lift by (unfold in_width; lia).
Qed.

Lemma guards_rc s u g b x : rep d s u -> guards u g b x -> (0 < u_rc x < 2 ^ 32)%Z /\ length (u_data x) = BSIZE.
Proof.
  intros R Hg. destruct (guards_buffer s u g b x R Hg) as (bf & Hb & [= _ _ E _] & Hp).
  destruct (r_binv _ _ _ R) as [ord Hi]. pose proof (bi_rc _ _ Hi _ _ Hb) as Hw. unfold in_width in Hw.
  split; [lia|]. by eapply (r_disk _ _ _ R), Hg.
Qed.

(** A change of the reference count alone. *)
Lemma rep_recount s u g b x n :
  rep d s u -> guards u g b x -> in_width 32 n -> (n = 0%Z -> blocks (bdev s) !! b = Some (u_data x)) ->
  exists s', on_internal (upd_buffer (g_index g) (set_rc n)) s = Done (tt, s') /\ bdev s' = bdev s /\
    rep d s' (use_set b (mkUse (u_idx x) n (u_data x)) u).
Proof using Hd.
  intros R Hg Hn Hc. destruct (guards_rc s u g b x R Hg) as [_ Hl].
  destruct (rep_touch s u g b x (set_rc n) (mkUse (u_idx x) n (u_data x))) as [Hr Hs]; try done; simpl; eauto.
  intros z [= F1 F2 F3 F4]. unfold meta. simpl. congruence.
Qed.

Lemma guard_pin_spec s u g b x :
  rep d s u -> guards u g b x -> (u_rc x < 2 ^ 32 - 1)%Z ->
  exists s', guard_pin g s = Done (tt, s') /\ bdev s' = bdev s /\
    rep d s' (<[b := mkUse (u_idx x) (u_rc x + 1) (u_data x)]> u).
Proof using Hd.
  intros R Hg Hv. destruct (guards_buffer s u g b x R Hg) as (bf & Hb & [= E1 E2 E3 E4] & Hrc).
  destruct (rep_recount s u g b x (u_rc x + 1)) as (s' & Hr & Hd' & Hs); try done; [unfold in_width; lia|lia|].
  rewrite use_set_pos in Hs by (simpl; lia). exists s'. split; [|done]. rewrite <- Hr. rewrite <- E3.
  apply on_internal_ext, pin_upd; [done|lia].
Qed.

Lemma guard_unpin_spec s u g b x :
  rep d s u -> guards u g b x -> (u_rc x = 1%Z -> blocks (bdev s) !! b = Some (u_data x)) ->
  exists s', guard_unpin g s = Done (tt, s') /\ bdev s' = bdev s /\
    rep d s' (use_set b (mkUse (u_idx x) (u_rc x - 1) (u_data x)) u).
Proof using Hd.
  intros R Hg Hc. destruct (guards_buffer s u g b x R Hg) as (bf & Hb & [= E1 E2 E3 E4] & Hrc).
  destruct (guards_rc s u g b x R Hg) as [? _].
  destruct (rep_recount s u g b x (u_rc x - 1)) as (s' & Hr & Hd' & Hs); try done; [unfold in_width; lia| |].
  { intros E. apply Hc. lia. }
  exists s'. split; [|done]. rewrite <- Hr. rewrite <- E3. apply on_internal_ext, unpin_upd; [done|lia].
Qed.

(** Dropping a guard. *)
Lemma guard_drop_spec s u g b x :
  rep d s u -> guards u g b x -> (u_rc x = 1%Z -> blocks (bdev s) !! b = Some (u_data x)) ->
  exists s', guard_drop g s = Done (tt, s') /\ bdev s' = bdev s /\
    rep d s' (use_set b (mkUse (u_idx x) (u_rc x - 1) (u_data x)) u).
Proof using Hd.
  intros R Hg Hc. destruct (guards_buffer s u g b x R Hg) as (bf & Hb & Hm & Hrc).
  destruct (guards_rc s u g b x R Hg) as [? Hlen]. pose proof Hm as [= E1 E2 E3 E4].
  destruct (r_binv _ _ _ R) as [ord Hi].
  destruct (release_spec _ ord (g_index g) bf Hi Hb) as (t & Hr & Hi' & Ht); [lia|].
  eexists. split; [by apply on_internal_Done|]. split; [done|].
  pose proof (Ht (g_index g)) as Hi0. rewrite list_lookup_alter_eq, Hb in Hi0.
  destruct (buffers t !! g_index g) as [bf'|] eqn:Hb'; [|done]. apply (inj Some) in Hi0.
  destruct Hg as (Hx & Ei & Eb).
  eapply (rep_change d s u _ _ (g_index g) bf' b); try done.
  - intros j Hj. cbn. rewrite Ht. by apply alter_others.
  - rewrite Hi0. unfold meta. simpl. congruence.
  - simpl. lia.
  - intros b' z Hz. rewrite Ei. split; [|congruence]. intros E. by eapply (use_inj s u).
  - by eapply (r_disk _ _ _ R).
  - simpl. intros E. apply Hc. lia.
Qed.

(** Unpinning and dropping the only guard of a block counts below zero. *)
Lemma unpin_drop_last s u g b x :
  rep d s u -> guards u g b x -> u_rc x = 1%Z ->
  if overflow_checks then (_ ← guard_unpin g; guard_drop g) s = Panic
  else exists s', (_ ← guard_unpin g; guard_drop g) s = Done (tt, s') /\ bdev s' = bdev s /\
    rep d s' (<[b := mkUse (u_idx x) (2 ^ 32 - 1) (u_data x)]> u).
Proof using Hd.
  intros R Hg H1. destruct (guards_buffer s u g b x R Hg) as (bf & Hb & [= E1 E2 E3 E4] & Hrc).
  rewrite H1 in E3. set (t0 := mkBC (alter (set_rc 0) (g_index g) (buffers (internal s))) (head (internal s))).
  assert (Hun : unpin (g_index g) (internal s) = Done (tt, t0)).
  { rewrite (unpin_upd _ _ bf Hb) by lia. rewrite E3. by apply (upd_buffer_Done _ _ bf). }
  assert (Hb0 : buffers t0 !! g_index g = Some (set_rc 0 bf)) by (unfold t0; cbn; by rewrite list_lookup_alter_eq, Hb).
  unfold guard_unpin, guard_drop. mstep (on_internal_Done _ s _ _ Hun).
  assert (Hrel : release (g_index g) t0 = if overflow_checks then Panic else
    Done (tt, mkBC (alter (set_rc (2 ^ 32 - 1)) (g_index g) (buffers t0)) (head t0))).
  { unfold release. mstep (buffer_Done _ _ _ Hb0). unfold usub. cbn [reference_count set_rc].
    replace (checked 32 (0 - 1)) with (if overflow_checks then Panic else Done (2 ^ 32 - 1)%Z)
      by (unfold checked; by destruct overflow_checks).
    destruct overflow_checks; [done|]. rewrite bind_lift. by mstep (upd_buffer_Done _ _ _ (set_rc (2 ^ 32 - 1)) Hb0). }
  destruct overflow_checks.
  - unfold on_internal. cbn [internal]. by rewrite Hrel.
  - destruct (rep_recount s u g b x (2 ^ 32 - 1)) as (s' & Hr & Hd' & Hs); [done|done|done|lia|].
    exists s'. rewrite use_set_pos in Hs by (simpl; lia). split; [|done]. rewrite <- Hr.
    rewrite (on_internal_Done _ (mkBCache t0 (bdev s)) _ _ Hrel). symmetry. cbn [bdev]. apply on_internal_Done.
    rewrite (upd_buffer_Done _ _ bf _ Hb). unfold t0. cbn [buffers head]. do 3 f_equal.
    rewrite (alter_as_insert _ (alter _ _ _) _ (set_rc 0 bf)) by (rewrite list_lookup_alter_eq, Hb; done).
    rewrite !(alter_as_insert _ _ _ bf) by done. by rewrite list_insert_insert_eq.
Qed.

(** Writing the content of a block in use to the device. *)
Lemma write_spec s u g b x :
  rep d s u -> guards u g b x ->
  exists s', write b (u_data x) s = Done (tt, s') /\ rep d s' u /\
    blocks (bdev s') = <[b := u_data x]> (blocks (bdev s)) /\
    bdev_write (bdev s) (b * 8)%Z (u_data x) = Done (bdev s').
Proof using Hd.
  intros R Hg. destruct (guards_buffer s u g b x R Hg) as (bf & Hb & Hm & Hrc).
  destruct (guards_rc s u g b x R Hg) as [? Hlen]. destruct Hg as (Hx & Ei & Eb).
  destruct (r_disk _ _ _ R b x Hx) as [_ [v Hv]]. pose proof (blocks_len _ _ _ Hv) as [_ Hbr].
  destruct (bdev_write_ok _ _ _ (u_data x) Hv Hlen) as (dk & Hw & Hbl).
  exists (mkBCache (internal s) dk). unfold write, sector_of, umul.
  rewrite checked_ok, bind_lift, bind_get by (unfold in_width; lia). rewrite Hw, bind_lift.
  split; [done|]. split; [|done]. replace u with (use_set b x u).
  2:{ rewrite use_set_pos by done. by apply insert_id. }
  destruct (r_binv _ _ _ R) as [ord Hi].
  eapply (rep_change d s u _ ord (g_index g) bf b x); cbn [internal bdev]; try done; [lia| | | |].
  - intros b' z Hz. rewrite Ei. split; [|congruence]. intros E. by eapply (use_inj s u).
  - intros b' Hne. by rewrite Hbl, lookup_insert_ne.
  - rewrite Hbl, lookup_insert_eq. done.
  - intros. lia.
Qed.
End Ops.

(** ** The initial cache *)

Lemma new_buffers i b :
  buffers BufferCacheInternal_new !! i = Some b -> dev b = 0%Z /\ reference_count b = 0%Z.
Proof.
  intros Hb. assert (Hf : Forall (fun b => dev b = 0%Z /\ reference_count b = 0%Z) (buffers BufferCacheInternal_new)).
  { unfold BufferCacheInternal_new. cbn [buffers]. apply Forall_alter; [|by intros]. apply Forall_alter; [|by intros].
    apply Forall_fmap, Forall_forall. done. }
  exact (Forall_lookup_1 _ _ i b Hf Hb).
Qed.

Lemma new_binv : binv BufferCacheInternal_new (seq 0 NBUF).
Proof.
  split.
  - unfold BufferCacheInternal_new. cbn [buffers]. by rewrite !length_alter, length_fmap, length_seq.
  - done.
  - done.
  - vm_compute. repeat split.
  - intros i b Hb. destruct (new_buffers i b Hb) as [_ ->]. done.
  - intros i j b c Hb _ Hd. by destruct (new_buffers i b Hb).
Qed.

Lemma new_rep {D} `{!BDev D} d (dk : D) : rep d (mkBCache BufferCacheInternal_new dk) ∅.
Proof.
  split; cbn [internal].
  - exists (seq 0 NBUF). apply new_binv.
  - intros b x. split; [done|]. intros [Hp (bf & Hb & [= _ _ E _])]. destruct (new_buffers _ _ Hb). lia.
  - intros i bf Hb Hp. destruct (new_buffers _ _ Hb). lia.
  - intros i bf Hb _. left. by destruct (new_buffers _ _ Hb).
  - done.
Qed.

(** ** The memory disk (libmembdev) *)

Record MemBDev := mkMem { memdisk : list Z }.

(** [memdisk[start..start+size]], which panics out of range. *)
Definition mem_read (dk : MemBDev) (sector : Z) : outcome block :=
  let start := Z.to_nat sector * SECTOR_SIZE in
  if start + BSIZE <=? length (memdisk dk) then Done (take BSIZE (drop start (memdisk dk))) else Panic.

Definition mem_write (dk : MemBDev) (sector : Z) (v : block) : outcome MemBDev :=
  let start := Z.to_nat sector * SECTOR_SIZE in
  if start + length v <=? length (memdisk dk) then
    Done (mkMem (take start (memdisk dk) ++ v ++ drop (start + length v) (memdisk dk)))
  else Panic.

Definition mem_block (dk : MemBDev) (i : nat) : block := take BSIZE (drop (i * BSIZE) (memdisk dk)).

Definition mem_blocks (dk : MemBDev) : gmap Z block :=
  list_to_map ((fun i => (Z.of_nat i, mem_block dk i)) <$>
    seq 0 (Z.to_nat (Z.min (Z.of_nat (length (memdisk dk)) / Z.of_nat BSIZE) (2 ^ 29)))).

Lemma mem_blocks_lookup dk b v :
  mem_blocks dk !! b = Some v <->
  exists i, b = Z.of_nat i /\ v = mem_block dk i /\ i * BSIZE + BSIZE <= length (memdisk dk) /\ (b < 2 ^ 29)%Z.
Proof.
  unfold mem_blocks. rewrite <- elem_of_list_to_map.
  2:{ rewrite <- list_fmap_compose. apply NoDup_fmap_2; [|apply NoDup_seq]. intros x y. simpl. lia. }
  rewrite list_elem_of_fmap. split.
  - intros (i & [= -> ->] & Hi%elem_of_seq). exists i. split_and!; [done|done| |lia].
    assert (Z.of_nat i < Z.of_nat (length (memdisk dk)) / Z.of_nat BSIZE)%Z by lia.
    unfold BSIZE in *. pose proof (Z.mul_div_le (Z.of_nat (length (memdisk dk))) (Z.of_nat 4096) ltac:(lia)). lia.
  - intros (i & -> & -> & Hi & Hb). exists i. split; [done|]. apply elem_of_seq.
    assert (Z.of_nat i + 1 <= Z.of_nat (length (memdisk dk)) / Z.of_nat BSIZE)%Z.
    { apply Z.div_le_lower_bound; unfold BSIZE in *; lia. }
    lia.
Qed.

Lemma mem_block_length dk i : i * BSIZE + BSIZE <= length (memdisk dk) -> length (mem_block dk i) = BSIZE.
Proof. intros Hi. unfold mem_block. rewrite length_take, length_drop. lia. Qed.

Lemma mem_start i : Z.to_nat (Z.of_nat i * 8) * SECTOR_SIZE = i * BSIZE.
Proof. unfold SECTOR_SIZE, BSIZE. lia. Qed.

(** The blocks after replacing one of them. *)
Lemma mem_block_write dk i w j :
  length w = BSIZE -> i * BSIZE + BSIZE <= length (memdisk dk) -> j * BSIZE + BSIZE <= length (memdisk dk) ->
  mem_block (mkMem (take (i * BSIZE) (memdisk dk) ++ w ++ drop (i * BSIZE + length w) (memdisk dk))) j =
  if decide (i = j) then w else mem_block dk j.
Proof.
  intros Hw Hi Hj. unfold mem_block. cbn [memdisk]. set (l := memdisk dk) in *. rewrite Hw.
  assert (Ht : length (take (i * BSIZE) l) = i * BSIZE) by (rewrite length_take; lia).
  destruct (decide (i = j)) as [->|Hne].
  - rewrite drop_app_length' by done. by rewrite take_app_length'.
  - destruct (decide (j < i)).
    + rewrite drop_app_le by (rewrite Ht; unfold BSIZE in *; lia).
      rewrite take_app_le by (rewrite length_drop, Ht; unfold BSIZE in *; lia).
      rewrite skipn_firstn_comm, take_take. f_equal. unfold BSIZE in *; lia.
    + rewrite drop_app_ge by (rewrite Ht; unfold BSIZE in *; lia). rewrite Ht.
      rewrite drop_app_ge by (rewrite Hw; unfold BSIZE in *; lia). rewrite drop_drop, Hw.
      f_equal. f_equal. unfold BSIZE in *; lia.
Qed.

#[export] Instance MemBDev_BDev : BDev MemBDev.
Proof.
  refine {| bdev_read := mem_read; bdev_write := mem_write; blocks := mem_blocks |}.
  - intros dk b v (i & -> & -> & Hi & _)%mem_blocks_lookup. unfold mem_read. rewrite mem_start.
    destruct (Nat.leb_spec (i * BSIZE + BSIZE) (length (memdisk dk))); [done|lia].
  - intros dk b v w (i & -> & -> & Hi & Hb)%mem_blocks_lookup Hw. unfold mem_write. rewrite mem_start.
    destruct (Nat.leb_spec (i * BSIZE + length w) (length (memdisk dk))); [|lia].
    eexists. split; [done|]. apply map_eq. intros b. apply option_eq. intros v.
    set (dk' := mkMem _).
    assert (Hl : length (memdisk dk') = length (memdisk dk)).
    { simpl. rewrite !length_app, length_take, length_drop. lia. }
    rewrite mem_blocks_lookup, Hl, lookup_insert_Some, mem_blocks_lookup. split.
    + intros (j & -> & -> & Hj & Hbj). unfold dk'. rewrite mem_block_write by done.
      destruct (decide (i = j)) as [->|Hne]; [by left|right]. split; [lia|]. by exists j.
    + intros [[<- <-]|[Hne (j & -> & -> & Hj & Hbj)]].
      * exists i. split_and!; try done. unfold dk'. rewrite mem_block_write by done. by rewrite decide_True.
      * exists j. split_and!; try done. unfold dk'. rewrite mem_block_write by done.
        rewrite decide_False; [done|]. intros ->. done.
  - intros dk b v (i & -> & -> & Hi & Hb)%mem_blocks_lookup. split; [by apply mem_block_length|lia].
Defined.

(** ** The cache refines a map of blocks in use over a disk

    The specification knows no buffers: a block in use has a count of its users and
    a content, every other block has the content it has on the disk. *)

Record astate := mkA { a_use : gmap Z (Z * block); a_disk : gmap Z block }.

Inductive cop := CRead (b : Z) | CSet (b : Z) (v : block) | CPin (b : Z) | CUnpin (b : Z) | CDrop (b : Z) | CWrite (b : Z).

Definition content (a : astate) (b : Z) : option block :=
  match a_use a !! b with Some (_, v) => Some v | None => a_disk a !! b end.

(** One user less; the last one may only leave a block that is on the disk. *)
Definition a_leave (a : astate) (b : Z) : option astate :=
  match a_use a !! b with
  | Some (n, v) =>
      if (n =? 1)%Z then
        if decide (a_disk a !! b = Some v) then Some (mkA (delete b (a_use a)) (a_disk a)) else None
      else Some (mkA (<[b := (n - 1, v)%Z]> (a_use a)) (a_disk a))
  | None => None
  end.

(** One user more; a block not in use needs a free buffer. *)
Definition a_enter (a : astate) (b : Z) : option astate :=
  match a_use a !! b with
  | Some (n, v) => if (n <? 2 ^ 32 - 1)%Z then Some (mkA (<[b := (n + 1, v)%Z]> (a_use a)) (a_disk a)) else None
  | None =>
      if size (a_use a) <? NBUF then v ← a_disk a !! b; Some (mkA (<[b := (1%Z, v)]> (a_use a)) (a_disk a)) else None
  end.

Definition aexec (a : astate) (op : cop) : option astate :=
  match op with
  | CRead b => a_enter a b
  | CSet b v => '(n, _) ← a_use a !! b;
      if length v =? BSIZE then Some (mkA (<[b := (n, v)]> (a_use a)) (a_disk a)) else None
  | CPin b => '(_, _) ← a_use a !! b; a_enter a b
  | CUnpin b | CDrop b => a_leave a b
  | CWrite b => '(_, v) ← a_use a !! b; Some (mkA (a_use a) (<[b := v]> (a_disk a)))
  end.

Section Client.
Context `{Profile} {D : Type} `{!BDev D} (d : Z) (Hd : d <> 0%Z).

(** A client of the cache keeps the guards it got. *)
Abbreviation client := (BufferCache D * gmap Z BufferGuard)%type.

Definition with_guard (b : Z) (m : BufferGuard -> M (BufferCache D) unit) (c : client) : outcome client :=
  match c.2 !! b with
  | Some g => match m g c.1 with Done (_, s) => Done (s, c.2) | Panic => Panic | Hang => Hang end
  | None => Panic
  end.

Definition cexec (c : client) (op : cop) : outcome client :=
  match op with
  | CRead b =>
      match read d b c.1 with Done (g, s) => Done (s, <[b := g]> c.2) | Panic => Panic | Hang => Hang end
  | CSet b v => with_guard b (fun g => guard_set g v) c
  | CPin b => with_guard b guard_pin c
  | CUnpin b => with_guard b guard_unpin c
  | CDrop b => with_guard b guard_drop c
  | CWrite b => with_guard b (fun g => v ← guard_data g; write (g_block_number g) v) c
  end.

Fixpoint crun (c : client) (ops : list cop) : outcome client :=
  match ops with [] => Done c | op :: ops => match cexec c op with Done c => crun c ops | o => o end end.

Definition arun (a : astate) (ops : list cop) : option astate :=
  foldl (fun a op => a ← a; aexec a op) (Some a) ops.

Definition view (x : use) : Z * block := (u_rc x, u_data x).

Definition holds_guards (gs : gmap Z BufferGuard) (u : gmap Z use) : Prop :=
  forall b x, u !! b = Some x -> exists g, gs !! b = Some g /\ g_index g = u_idx x /\ g_block_number g = b.

Definition sim (c : client) (a : astate) : Prop :=
  exists u, rep d c.1 u /\ a = mkA (view <$> u) (blocks (bdev c.1)) /\ holds_guards c.2 u.

Lemma view_lookup (u : gmap Z use) b n v :
  (view <$> u) !! b = Some (n, v) -> exists x, u !! b = Some x /\ n = u_rc x /\ v = u_data x.
Proof. rewrite lookup_fmap. destruct (u !! b) as [x|]; [|done]. intros [= <- <-]. eauto. Qed.

Lemma holds_guards_insert gs u b x y :
  holds_guards gs u -> u !! b = Some x -> u_idx y = u_idx x -> holds_guards gs (<[b := y]> u).
Proof.
  intros Hg Hx E b' z Hz. destruct (decide (b' = b)) as [->|Hne].
  - rewrite lookup_insert_eq in Hz. injection Hz as <-. rewrite E. by apply Hg.
  - rewrite lookup_insert_ne in Hz by done. by apply Hg.
Qed.

Lemma holds_guards_delete gs u b : holds_guards gs u -> holds_guards gs (delete b u).
Proof. intros Hg b' z [_ Hz]%lookup_delete_Some. by apply Hg. Qed.

(** The steps that go through a guard. *)
Lemma with_guard_sim c u b x (m : BufferGuard -> M (BufferCache D) unit) u' dk' :
  rep d c.1 u -> holds_guards c.2 u -> u !! b = Some x ->
  (forall g, guards u g b x -> exists s', m g c.1 = Done (tt, s') /\ blocks (bdev s') = dk' /\ rep d s' u') ->
  holds_guards c.2 u' ->
  exists c', with_guard b m c = Done c' /\ sim c' (mkA (view <$> u') dk').
Proof.
  intros R Hg Hx Hm Hg'. destruct (Hg b x Hx) as (g & Egs & Ei & Eb).
  destruct (Hm g) as (s' & Hs' & Hdk & Hr); [done|]. unfold with_guard. rewrite Egs, Hs'.
  eexists. split; [done|]. exists u'. split_and!; [done|by rewrite <- Hdk|done].
Qed.

Lemma leave_sim c u b m a' :
  (forall s u g x, rep d s u -> guards u g b x -> (u_rc x = 1%Z -> blocks (bdev s) !! b = Some (u_data x)) ->
    exists s', m g s = Done (tt, s') /\ bdev s' = bdev s /\
      rep d s' (use_set b (mkUse (u_idx x) (u_rc x - 1) (u_data x)) u)) ->
  rep d c.1 u -> holds_guards c.2 u -> a_leave (mkA (view <$> u) (blocks (bdev c.1))) b = Some a' ->
  exists c', with_guard b m c = Done c' /\ sim c' a'.
Proof.
  intros Hm R Hg Ha. unfold a_leave in Ha. cbn [a_use a_disk] in Ha.
  destruct ((view <$> u) !! b) as [[n v]|] eqn:E; [|done].
  apply view_lookup in E as (x & Hx & -> & ->).
  assert (Hc : u_rc x = 1%Z -> blocks (bdev c.1) !! b = Some (u_data x)).
  { intros E. rewrite E in Ha. simpl in Ha. by case_decide. }
  assert (Ea : a' = mkA (view <$> use_set b (mkUse (u_idx x) (u_rc x - 1) (u_data x)) u) (blocks (bdev c.1)) /\
    holds_guards c.2 (use_set b (mkUse (u_idx x) (u_rc x - 1) (u_data x)) u)).
  { apply (r_use _ _ _ R) in Hx as Hp. destruct Hp as [Hp _]. unfold use_set. simpl.
    destruct (Z.eqb_spec (u_rc x) 1) as [E|Hne].
    - rewrite E in *. simpl. case_decide; [|done]. injection Ha as <-. rewrite fmap_delete.
      split; [done|by apply holds_guards_delete].
    - injection Ha as <-. destruct (Z.ltb_spec 0 (u_rc x - 1)); [|lia]. rewrite fmap_insert.
      split; [done|by eapply holds_guards_insert]. }
  destruct Ea as [-> Hg']. eapply (with_guard_sim c u b x); try done.
  intros g Hgd. destruct (Hm c.1 u g x) as (s' & H1 & H2 & H3); [done..|]. exists s'. by rewrite H2.
Qed.

Lemma enter_sim c u b x m a' :
  (forall s u g x, rep d s u -> guards u g b x -> (u_rc x < 2 ^ 32 - 1)%Z ->
    exists s', m g s = Done (tt, s') /\ bdev s' = bdev s /\
      rep d s' (<[b := mkUse (u_idx x) (u_rc x + 1) (u_data x)]> u)) ->
  rep d c.1 u -> holds_guards c.2 u -> u !! b = Some x ->
  a_enter (mkA (view <$> u) (blocks (bdev c.1))) b = Some a' ->
  exists c', with_guard b m c = Done c' /\ sim c' a'.
Proof.
  intros Hm R Hg Hx Ha. unfold a_enter in Ha. cbn [a_use a_disk] in Ha. rewrite lookup_fmap, Hx in Ha.
  cbn [fmap option_fmap option_map view] in Ha.
  destruct (Z.ltb_spec (u_rc x) (2 ^ 32 - 1)) as [Hlt|]; [|done]. injection Ha as <-.
  change (u_rc x + 1, u_data x)%Z with (view (mkUse (u_idx x) (u_rc x + 1) (u_data x))).
  rewrite <- fmap_insert. eapply (with_guard_sim c u b x); try done; [|by eapply holds_guards_insert].
  intros g Hgd. destruct (Hm c.1 u g x) as (s' & H1 & H2 & H3); [done..|]. exists s'. by rewrite H2.
Qed.

Lemma read_sim c u b a' :
  rep d c.1 u -> holds_guards c.2 u -> a_enter (mkA (view <$> u) (blocks (bdev c.1))) b = Some a' ->
  exists c', cexec c (CRead b) = Done c' /\ sim c' a'.
Proof using Hd.
  intros R Hg Ha. unfold a_enter in Ha. cbn [a_use a_disk] in Ha. rewrite lookup_fmap in Ha.
  assert (Hv : exists v, blocks (bdev c.1) !! b = Some v /\ (forall x, u !! b = Some x -> (u_rc x < 2 ^ 32 - 1)%Z) /\
    (u !! b = None -> size u < NBUF) /\
    forall i, a' = mkA (view <$> <[b := read_use u b v i]> u) (blocks (bdev c.1))).
  { setoid_rewrite fmap_insert. unfold read_use. destruct (u !! b) as [x|] eqn:Hx.
    - cbn [fmap option_fmap option_map view] in Ha. destruct (Z.ltb_spec (u_rc x) (2 ^ 32 - 1)) as [Hlt|]; [|done].
      injection Ha as <-. destruct (r_disk _ _ _ R b x Hx) as [_ [v Hv]]. exists v.
      split_and!; try done. by intros y [= <-].
    - cbn [fmap option_fmap option_map] in Ha. rewrite map_size_fmap in Ha.
      destruct (Nat.ltb_spec (size u) NBUF); [|done].
      destruct (blocks (bdev c.1) !! b) as [v|] eqn:Hv; [|done]. injection Ha as <-. by exists v. }
  destruct Hv as (v & Hv & Hmax & Hsz & Ea).
  destruct (read_spec d Hd c.1 u b v R Hv Hmax Hsz) as (i & s' & Hr & Hdk & R' & Hi).
  unfold cexec. rewrite Hr. eexists. split; [done|]. exists (<[b := read_use u b v i]> u).
  split_and!; [done| |].
  - cbn. rewrite Hdk. apply Ea.
  - intros b' z Hz. destruct (decide (b' = b)) as [->|Hne].
    + rewrite lookup_insert_eq in Hz. injection Hz as <-. exists (mkGuard d b i). cbn.
      rewrite lookup_insert_eq. split_and!; try done. unfold read_use. by destruct (u !! b).
    + rewrite lookup_insert_ne in Hz by done. cbn. rewrite lookup_insert_ne by done. by apply Hg.
Qed.

Lemma cexec_sim c a op a' :
  sim c a -> aexec a op = Some a' -> exists c', cexec c op = Done c' /\ sim c' a'.
Proof using Hd.
  intros (u & R & -> & Hg) Ha. destruct op as [b|b v|b|b|b|b]; cbn [aexec] in Ha.
  - by eapply read_sim.
  - cbn [a_use a_disk] in Ha. destruct ((view <$> u) !! b) as [[n w]|] eqn:E; [|done].
    apply view_lookup in E as (x & Hx & -> & ->). cbn [mbind option_bind] in Ha.
    destruct (Nat.eqb_spec (length v) BSIZE) as [Hl|]; [|done]. injection Ha as <-.
    change (u_rc x, v) with (view (mkUse (u_idx x) (u_rc x) v)). rewrite <- fmap_insert.
    eapply (with_guard_sim c u b x); try done; [|by eapply holds_guards_insert].
    intros g Hgd. destruct (guard_set_spec d Hd c.1 u g b x v) as (s' & H1 & H2 & H3); [done..|].
    exists s'. by rewrite H2.
  - destruct ((view <$> u) !! b) as [[n w]|] eqn:E; [|by cbn [a_use] in Ha; rewrite E in Ha].
    cbn [a_use] in Ha. rewrite E in Ha. apply view_lookup in E as (x & Hx & _ & _).
    eapply (enter_sim c u b x); try done. intros. by apply (guard_pin_spec d Hd).
  - eapply leave_sim; try done. intros. by apply (guard_unpin_spec d Hd).
  - eapply leave_sim; try done. intros. by apply (guard_drop_spec d Hd).
  - cbn [a_use a_disk] in Ha. destruct ((view <$> u) !! b) as [[n w]|] eqn:E; [|done].
    apply view_lookup in E as (x & Hx & -> & ->). injection Ha as <-.
    eapply (with_guard_sim c u b x); try done. intros g Hgd.
    mstep (guard_data_spec d c.1 u g b x R Hgd). pose proof Hgd as (_ & _ & ->).
    destruct (write_spec d Hd c.1 u g b x R Hgd) as (s' & H1 & H2 & H3 & _). by exists s'.
Qed.

Lemma arun_cons a op ops : arun a (op :: ops) = (a ← aexec a op; arun a ops).
Proof.
  unfold arun. cbn [foldl]. cbn [mbind option_bind]. destruct (aexec a op) as [a'|]; [done|]. simpl.
  induction ops; [done|]. done.
Qed.

Lemma crun_sim ops c a a' : sim c a -> arun a ops = Some a' -> exists c', crun c ops = Done c' /\ sim c' a'.
Proof using Hd.
  revert c a. induction ops as [|op ops IH]; intros c a Hs Ha.
  - injection Ha as <-. by exists c.
  - rewrite arun_cons in Ha. destruct (aexec a op) as [a1|] eqn:E; [|done].
    destruct (cexec_sim c a op a1 Hs E) as (c1 & Hc1 & Hs1). cbn [crun]. rewrite Hc1. by eapply IH.
Qed.
End Client.

(** ** The properties of the cache *)

Section Theorems.
Context `{Profile} {D : Type} `{!BDev D}.

(** C7: from the fresh cache over any block device, every sequence of reads, changes,
    pins, unpins, drops and writes that the specification allows (a block is taken
    while a buffer is free, and the last user leaves a block only when it is on the
    disk) runs to the end without a panic, and then every block in use has, through its guard,
    the content of the specification, and the device holds the specification's disk:
    eviction never loses a change and a read never returns stale data. *)
Theorem bcache_refines_map d (dk : D) ops a :
  d <> 0%Z -> arun (mkA ∅ (blocks dk)) ops = Some a ->
  exists s gs, crun d (mkBCache BufferCacheInternal_new dk, ∅) ops = Done (s, gs) /\ blocks (bdev s) = a_disk a /\
    forall b n v, a_use a !! b = Some (n, v) ->
      exists g, gs !! b = Some g /\ guard_data g s = Done (v, s).
Proof.
  intros Hd Ha.
  assert (Hs : sim d (mkBCache BufferCacheInternal_new dk, ∅) (mkA ∅ (blocks dk))).
  { exists ∅. split_and!; [apply new_rep|by rewrite fmap_empty|done]. }
  destruct (crun_sim d Hd ops _ _ a Hs Ha) as ([s gs] & Hc & u & R & -> & Hg).
  exists s, gs. split_and!; [done..|]. intros b n v (x & Hx & -> & ->)%view_lookup.
  destruct (Hg b x Hx) as (g & Eg & Ei & Eb). exists g. split; [done|]. by eapply guard_data_spec.
Qed.

(** [get] of a well-formed cache.  A cached block is found wherever it is in the
    list and its count grows.  Otherwise the buffer taken is the last one of the
    list that is free, so one in use is never recycled and the least recently
    released one goes first; with no free buffer the call panics.  The list stays well-formed. *)
Theorem get_recycles_least_recent s ord d b :
  binv s ord -> d <> 0%Z ->
  (forall i bf, buffers s !! i = Some bf -> dev bf = d -> block_number bf = b -> (reference_count bf < 2 ^ 32 - 1)%Z) ->
  match List.hd_error (filter (fun i => matches s d b i = true) ord) with
  | Some i => exists bf, buffers s !! i = Some bf /\ dev bf = d /\ block_number bf = b /\
      get d b s = Done ((true, i), mkBC (alter (set_rc (reference_count bf + 1)) i (buffers s)) (head s)) /\
      binv (mkBC (alter (set_rc (reference_count bf + 1)) i (buffers s)) (head s)) ord
  | None =>
      match list.last (filter (fun i => is_free s i = true) ord) with
      | Some i => get d b s = Done ((false, i), recycled s i d b) /\ binv (recycled s i d b) ord
      | None => get d b s = Panic
      end
  end.
Proof. apply get_spec. Qed.

(** [release] takes one user away; when it was the last one the buffer moves to the
    front of the circular list, wherever it was, head and tail included.  All links stay consistent
    and no other buffer changes what it holds. *)
Theorem release_moves_to_front s ord x b :
  binv s ord -> buffers s !! x = Some b -> (0 < reference_count b)%Z ->
  exists s', release x s = Done (tt, s') /\ binv s' (released_order (reference_count b) x ord) /\
    (forall j, meta <$> buffers s' !! j = meta <$> alter (set_rc (reference_count b - 1)) x (buffers s) !! j).
Proof. apply release_spec. Qed.
End Theorems.

Definition two_blocks : MemBDev := mkMem (replicate (2 * BSIZE) 7%Z).

Lemma bcache_refines_map_witness :
  exists s gs g, crun (H := true) 1 (mkBCache BufferCacheInternal_new two_blocks, ∅)
    [CRead 0; CSet 0 (replicate BSIZE 1%Z); CPin 0; CDrop 0; CRead 1; CRead 0] = Done (s, gs) /\
    gs !! 0%Z = Some g /\ guard_data g s = Done (replicate BSIZE 1%Z, s).
Proof.
  destruct (bcache_refines_map (H := true) 1 two_blocks
    [CRead 0; CSet 0 (replicate BSIZE 1%Z); CPin 0; CDrop 0; CRead 1; CRead 0]
    (mkA (<[0%Z := (2%Z, replicate BSIZE 1%Z)]> (<[1%Z := (1%Z, replicate BSIZE 7%Z)]> ∅)) (blocks two_blocks)))
    as (s & gs & Hr & _ & Hu).
  - done.
  - vm_compute. reflexivity.
  - destruct (Hu 0%Z 2%Z (replicate BSIZE 1%Z)) as (g & Hg & Hd); [cbn [a_use]; by rewrite lookup_insert_eq|].
    exists s, gs, g. exact (conj Hr (conj Hg Hd)).
Defined.

Lemma get_recycles_least_recent_witness :
  exists s', get (H := true) 1 5 BufferCacheInternal_new = Done ((false, 29), s') /\ binv s' (seq 0 NBUF).
Proof.
  pose proof (get_recycles_least_recent (H := true) BufferCacheInternal_new (seq 0 NBUF) 1 5 new_binv ltac:(done)) as G.
  assert (E1 : filter (fun i => matches BufferCacheInternal_new 1 5 i = true) (seq 0 NBUF) = []) by reflexivity.
  assert (E2 : list.last (filter (fun i => is_free BufferCacheInternal_new i = true) (seq 0 NBUF)) = Some 29)
    by reflexivity.
  rewrite E1, E2 in G. eexists. apply G.
  intros i bf Hb _ _. destruct (new_buffers i bf Hb) as [_ ->]. reflexivity.
Defined.

Lemma release_moves_to_front_witness :
  exists s s', get (H := true) 1 5 BufferCacheInternal_new = Done ((false, 29), s) /\
    release (H := true) 29 s = Done (tt, s') /\ binv s' (29 :: seq 0 29).
Proof.
  pose proof (get_spec (H := true) BufferCacheInternal_new (seq 0 NBUF) 1 5 new_binv ltac:(done)) as G.
  assert (E1 : filter (fun i => matches BufferCacheInternal_new 1 5 i = true) (seq 0 NBUF) = []) by reflexivity.
  assert (E2 : list.last (filter (fun i => is_free BufferCacheInternal_new i = true) (seq 0 NBUF)) = Some 29)
    by reflexivity.
  rewrite E1, E2 in G. destruct G as [Hg Hi].
  { intros i bf Hb _ _. destruct (new_buffers i bf Hb) as [_ ->]. reflexivity. }
  set (s := recycled BufferCacheInternal_new 29 1 5) in *.
  destruct (buffers s !! 29) as [bf|] eqn:Hb; [|discriminate].
  assert (Hrc : reference_count bf = 1%Z) by (injection Hb as <-; reflexivity).
  destruct (release_moves_to_front (H := true) s (seq 0 NBUF) 29 bf Hi Hb) as (s' & Hr & Hi' & _); [by rewrite Hrc|].
  exists s, s'. rewrite Hrc in Hi'. exact (conj Hg (conj Hr Hi')).
Defined.
