(* ===== verification/Log.v ===== *)
(** * The write-ahead log of the xv6 file system
    (domains/usr/xv6/kernel/fs/src/log/{log,log_header,transaction}.rs)

    A transaction changes blocks in the buffer cache and pins them; the last one
    to end copies the pinned blocks to the log, writes the log header (the commit
    point), copies the blocks to their home locations and clears the header.
    Recovery at mount time repeats the copying when the header names blocks.

    The log runs on the buffer cache of BCache.v.  For crash safety the
    device is one that records every state it goes through, so that a theorem can
    speak of a crash between any two block writes.

    The [byteorder] crate that packs the header is an interface, [ByteOrder]. *)

From Stdlib Require Import ZArith Lia.
From stdpp Require Import base gmap list.
From stdpp Require Import options.
From S2P Require Import Prelude BCache.

Set Default Proof Using "Type".

Definition MAXOPBLOCKS : nat := 10.
Definition LOGSIZE : nat := MAXOPBLOCKS * 3.

(** ** The log header on disk *)

(** [byteorder::LittleEndian] on 32-bit words: four bytes that read back. *)
Class ByteOrder := {
  read_u32 : list Z -> Z;
  write_u32 : Z -> list Z;
  write_u32_length x : length (write_u32 x) = 4;
  read_write_u32 x : in_width 32 x -> read_u32 (write_u32 x) = x;
  read_u32_width l : in_width 32 (read_u32 l) }.

Record LogHeader := mkLH { n : Z; block_nums : list Z }.

(** [&buffer[offset..offset + 4]] *)
Definition word_at (buffer : block) (offset : nat) : outcome (list Z) :=
  if offset + 4 <=? length buffer then Done (take 4 (drop offset buffer)) else Panic.
Definition set_word (buffer : block) (offset : nat) (w : list Z) : outcome block :=
  if offset + 4 <=? length buffer then Done (take offset buffer ++ w ++ drop (offset + 4) buffer) else Panic.

Section Header.
Context `{ByteOrder}.

(** The loop over [block_nums] of [from_buffer_block]. *)
Fixpoint read_words (buffer : block) (k offset : nat) : outcome (list Z) :=
  match k with
  | O => Done []
  | S k => w ← word_at buffer offset; ws ← read_words buffer k (offset + 4); Done (read_u32 w :: ws)
  end.

Fixpoint write_words (buffer : block) (offset : nat) (ws : list Z) : outcome block :=
  match ws with
  | [] => Done buffer
  | w :: ws => buffer ← set_word buffer offset (write_u32 w); write_words buffer (offset + 4) ws
  end.

Definition from_buffer_block (self : LogHeader) (buffer : block) : outcome LogHeader :=
  w ← word_at buffer 0;
  ws ← read_words buffer (length (block_nums self)) 4;
  Done (mkLH (read_u32 w) ws).

Definition to_buffer_block (self : LogHeader) (buffer : block) : outcome block :=
  buffer ← set_word buffer 0 (write_u32 (n self));
  write_words buffer 4 (block_nums self).
End Header.

(** ** The log *)

Record LogInternal := mkLog {
  start : Z; size : Z; outstanding : Z; committing : bool; dev : Z; logheader : LogHeader }.

Definition with_header (h : LogHeader) (l : LogInternal) : LogInternal :=
  mkLog (start l) (size l) (outstanding l) (committing l) (dev l) h.
Definition with_outstanding (k : Z) (l : LogInternal) : LogInternal :=
  mkLog (start l) (size l) k (committing l) (dev l) (logheader l).
Definition with_committing (c : bool) (l : LogInternal) : LogInternal :=
  mkLog (start l) (size l) (outstanding l) c (dev l) (logheader l).

Section Code.
Context `{Profile} `{ByteOrder} {D : Type} `{!BDev D}.

(** The log and the buffer cache it works on. *)
Record fsst := mkFS { bcache : BufferCache D; log : LogInternal }.

Definition on_bc {A} (m : M (BufferCache D) A) : M fsst A := fun s =>
  match m (bcache s) with Done (a, c) => Done (a, mkFS c (log s)) | Panic => Panic | Hang => Hang end.
Definition upd_log (f : LogInternal -> LogInternal) : M fsst unit := modify (fun s => mkFS (bcache s) (f (log s))).

(** [a.lock()] and [b.lock()] held together: the lock of a buffer is not reentrant. *)
Definition both_locked (a b : BufferGuard) : M fsst unit := if g_index a =? g_index b then hang else mret tt.

(** [self.start + tail + 1] *)
Definition log_block (tail : Z) : M fsst Z :=
  l ← gets log; x ← lift (uadd 32 (start l) tail); lift (uadd 32 x 1).

(** One round of [install_trans]: the copy, and what follows when the locks are
    released. *)
Definition install_copy (tail : nat) : M fsst (BufferGuard * BufferGuard) :=
  l ← gets log;
  lb ← log_block (Z.of_nat tail);
  lbuf ← on_bc (read (dev l) lb);
  db ← lift (index (block_nums (logheader l)) tail);
  dbuf ← on_bc (read (dev l) db);
  _ ← both_locked dbuf lbuf;
  v ← on_bc (guard_data lbuf);
  _ ← on_bc (guard_set dbuf v);
  v ← on_bc (guard_data dbuf);
  _ ← on_bc (write (g_block_number dbuf) v);
  mret (lbuf, dbuf).

Definition install_block (tail : nat) : M fsst unit :=
  bufs ← install_copy tail;
  let '(lbuf, dbuf) := bufs in
  _ ← on_bc (guard_unpin dbuf);
  _ ← on_bc (guard_drop dbuf);
  on_bc (guard_drop lbuf).

Fixpoint for_range (tail k : nat) (body : nat -> M fsst unit) : M fsst unit :=
  match k with O => mret tt | S k => _ ← body tail; for_range (S tail) k body end.

Definition install_trans : M fsst unit :=
  l ← gets log; for_range 0 (Z.to_nat (n (logheader l))) install_block.

Definition read_head : M fsst unit :=
  l ← gets log;
  buf ← on_bc (read (dev l) (start l));
  v ← on_bc (guard_data buf);
  h ← lift (from_buffer_block (logheader l) v);
  _ ← upd_log (with_header h);
  on_bc (guard_drop buf).

Definition write_head : M fsst unit :=
  l ← gets log;
  buf ← on_bc (read (dev l) (start l));
  v ← on_bc (guard_data buf);
  v ← lift (to_buffer_block (logheader l) v);
  _ ← on_bc (guard_set buf v);
  _ ← on_bc (write (g_block_number buf) v);
  on_bc (guard_drop buf).

Definition clear_n : M fsst unit := upd_log (fun l => with_header (mkLH 0 (block_nums (logheader l))) l).

Definition recover_from_log : M fsst unit :=
  _ ← read_head; _ ← install_trans; _ ← clear_n; write_head.

(** One round of [write_log]. *)
Definition write_log_block (tail : nat) : M fsst unit :=
  l ← gets log;
  lb ← log_block (Z.of_nat tail);
  to ← on_bc (read (dev l) lb);
  fb ← lift (index (block_nums (logheader l)) tail);
  from ← on_bc (read (dev l) fb);
  _ ← both_locked to from;
  v ← on_bc (guard_data from);
  _ ← on_bc (guard_set to v);
  v ← on_bc (guard_data to);
  _ ← on_bc (write (g_block_number to) v);
  _ ← on_bc (guard_drop from);
  on_bc (guard_drop to).

Definition write_log : M fsst unit :=
  l ← gets log; for_range 0 (Z.to_nat (n (logheader l))) write_log_block.

Definition commit : M fsst unit :=
  l ← gets log;
  if (0 <? n (logheader l))%Z then
    _ ← write_log; _ ← write_head; _ ← install_trans; _ ← clear_n; write_head
  else mret tt.

Definition try_begin_op : M fsst bool :=
  l ← gets log;
  if committing l then mret false
  else
    k ← lift (uadd 32 (outstanding l) 1);
    m ← lift (umul 32 k (Z.of_nat MAXOPBLOCKS));
    t ← lift (uadd 32 (n (logheader l)) m);
    if (Z.of_nat LOGSIZE <? t)%Z then mret false
    else
      k ← lift (uadd 32 (outstanding l) 1);
      _ ← upd_log (with_outstanding k);
      mret true.

Definition end_op : M fsst unit :=
  l ← gets log;
  k ← lift (usub 32 (outstanding l) 1);
  _ ← upd_log (with_outstanding k);
  _ ← assert (negb (committing l));
  if (k =? 0)%Z then
    _ ← upd_log (with_committing true);
    _ ← commit;
    upd_log (with_committing false)
  else mret tt.

Definition log_write (buffer : BufferGuard) : M fsst unit :=
  l ← gets log;
  let h := logheader l in
  small ← (if (n h <? Z.of_nat LOGSIZE)%Z then mret true
           else m ← lift (usub 32 (size l) 1); mret (n h <? m)%Z);
  _ ← assert small;
  _ ← assert (1 <=? outstanding l)%Z;
  _ ← lift (index (block_nums h) (Z.to_nat (n h)));
  let nums := <[Z.to_nat (n h) := g_block_number buffer]> (block_nums h) in
  _ ← upd_log (with_header (mkLH (n h) nums));
  if decide (g_block_number buffer ∈ take (Z.to_nat (n h)) nums) then mret tt
  else
    _ ← on_bc (guard_pin buffer);
    k ← lift (uadd 32 (n h) 1);
    upd_log (with_header (mkLH k nums)).

(** [LogInternal::new]: mount the log. *)
Definition LogInternal_new (device logstart nlog : Z) (c : BufferCache D) : outcome fsst :=
  match recover_from_log (mkFS c (mkLog logstart nlog 0 false device
    (mkLH 123456 (replicate LOGSIZE 123456%Z)))) with
  | Done (_, s) => Done s
  | Panic => Panic
  | Hang => Hang
  end.
End Code.
Arguments fsst D : clear implicits.
Arguments mkFS {D}. Arguments bcache {D}. Arguments log {D}.

(** ** The header codec *)

Section Codec.
Context `{ByteOrder}.

Lemma set_word_spec buffer offset w :
  offset + 4 <= length buffer -> length w = 4 ->
  exists b, set_word buffer offset w = Done b /\ length b = length buffer /\ word_at b offset = Done w /\
    forall o, o + 4 <= offset -> word_at b o = word_at buffer o.
Proof.
  intros Ho Hw. unfold set_word. destruct (Nat.leb_spec (offset + 4) (length buffer)); [|lia].
  eexists. split; [done|].
  assert (Ht : length (take offset buffer) = offset) by (rewrite length_take; lia).
  assert (Hl : length (take offset buffer ++ w ++ drop (offset + 4) buffer) = length buffer).
  { rewrite !length_app, Ht, length_drop. lia. }
  split; [done|]. unfold word_at. rewrite Hl. split.
  - destruct (Nat.leb_spec (offset + 4) (length buffer)); [|lia].
    rewrite drop_app_length' by done. by rewrite take_app_length'.
  - intros o Hoo. destruct (Nat.leb_spec (o + 4) (length buffer)); [|lia].
    rewrite drop_app_le by lia. rewrite take_app_le by (rewrite length_drop; lia).
    rewrite skipn_firstn_comm, take_take. do 2 f_equal. lia.
Qed.

Lemma write_words_spec ws buffer offset :
  offset + 4 * length ws <= length buffer -> Forall (in_width 32) ws ->
  exists b, write_words buffer offset ws = Done b /\ length b = length buffer /\
    read_words b (length ws) offset = Done ws /\ forall o, o + 4 <= offset -> word_at b o = word_at buffer o.
Proof.
  revert buffer offset. induction ws as [|w ws IH]; intros buffer offset Ho Hf; cbn [length] in Ho.
  { exists buffer. done. }
  apply Forall_cons_1 in Hf as [Hw Hf].
  destruct (set_word_spec buffer offset (write_u32 w)) as (b1 & H1 & L1 & W1 & O1);
    [lia|apply write_u32_length|].
  destruct (IH b1 (offset + 4)) as (b & H2 & L2 & R2 & O2); [lia|done|].
  exists b. cbn [write_words read_words length]. rewrite H1. split; [done|]. split; [congruence|]. split.
  - rewrite O2 by lia. rewrite W1. cbn [mbind outcome_bind]. rewrite R2. cbn [mbind outcome_bind].
    by rewrite read_write_u32.
  - intros o Hoo. rewrite O2 by lia. by apply O1.
Qed.

Lemma read_words_length buffer k offset : offset + 4 * k <= length buffer ->
  exists ws, read_words buffer k offset = Done ws /\ length ws = k /\ Forall (in_width 32) ws.
Proof.
  revert offset. induction k as [|k IH]; intros offset Ho; [by exists []|].
  destruct (IH (offset + 4)) as (ws & Hws & Hl & Hf); [lia|]. cbn [read_words]. unfold word_at at 1.
  destruct (Nat.leb_spec (offset + 4) (length buffer)); [|lia]. cbn [mbind outcome_bind]. rewrite Hws.
  eexists. split; [done|]. split; [simpl; lia|]. constructor; [apply read_u32_width|done].
Qed.

Definition header_ok (h : LogHeader) : Prop :=
  in_width 32 (n h) /\ length (block_nums h) = LOGSIZE /\ Forall (in_width 32) (block_nums h).

Lemma header_codec h h0 buffer :
  header_ok h -> length (block_nums h0) = LOGSIZE -> length buffer = BSIZE ->
  exists b, to_buffer_block h buffer = Done b /\ length b = BSIZE /\ from_buffer_block h0 b = Done h.
Proof.
  intros (Hn & Hl & Hf) Hl0 Hb. unfold to_buffer_block, from_buffer_block.
  destruct (set_word_spec buffer 0 (write_u32 (n h))) as (b1 & H1 & L1 & W1 & _);
    [rewrite Hb; unfold BSIZE; lia|apply write_u32_length|].
  destruct (write_words_spec (block_nums h) b1 4) as (b & H2 & L2 & R2 & O2);
    [rewrite L1, Hb, Hl; unfold BSIZE, LOGSIZE, MAXOPBLOCKS; lia|done|].
  exists b. rewrite H1. cbn [mbind outcome_bind]. split; [done|]. split; [congruence|].
  rewrite O2 by lia. rewrite W1. cbn [mbind outcome_bind]. rewrite Hl0, <- Hl, R2. cbn [mbind outcome_bind].
  rewrite read_write_u32 by done. by destruct h.
Qed.

Lemma from_buffer_total h0 buffer :
  length (block_nums h0) = LOGSIZE -> length buffer = BSIZE ->
  exists h, from_buffer_block h0 buffer = Done h /\ header_ok h.
Proof.
  intros Hl Hb. unfold from_buffer_block, word_at at 1. rewrite Hb. cbn [Nat.leb BSIZE Nat.add].
  rewrite Hl. destruct (read_words_length buffer LOGSIZE 4) as (ws & Hws & Hlw & Hf).
  { rewrite Hb. unfold BSIZE, LOGSIZE, MAXOPBLOCKS. lia. }
  cbn [mbind outcome_bind]. rewrite Hws. cbn [mbind outcome_bind]. eexists. split; [done|].
  split; [apply read_u32_width|done].
Qed.
End Codec.

(** ** A device that records its states *)

Record Traced (D : Type) := mkTr { tr_dev : D; tr_hist : list D }.
Arguments mkTr {D}. Arguments tr_dev {D}. Arguments tr_hist {D}.

#[export] Instance Traced_BDev D `{!BDev D} : BDev (Traced D).
Proof.
  refine {|
    bdev_read t b := bdev_read (tr_dev t) b;
    bdev_write t b v := dk ← bdev_write (tr_dev t) b v; Done (mkTr dk (dk :: tr_hist t));
    blocks t := blocks (tr_dev t) |}.
  - intros t b v. apply bdev_read_ok.
  - intros t b v w Hv Hw. destruct (bdev_write_ok _ b v w Hv Hw) as (dk & -> & Hb).
    eexists. split; [reflexivity|done].
  - intros t b v. apply blocks_len.
Defined.

(** ** Running the log while watching the disk

    [trip Q m s post]: [m] returns from [s], every state of the disk on the way
    satisfies [Q], and the result satisfies [post]. *)

Section Trip.
Context `{Profile} `{ByteOrder} {D : Type} `{!BDev D} (d : Z) (Hd : d <> 0%Z).
Abbreviation state := (fsst (Traced D)).
Abbreviation disk := (gmap Z block).

Definition hist (s : state) : list disk := blocks <$> tr_hist (bdev (bcache s)).

Definition trip {A} (Q : disk -> Prop) (m : M state A) (s : state) (post : A -> state -> Prop) : Prop :=
  exists a s' new, m s = Done (a, s') /\ hist s' = new ++ hist s /\ Forall Q new /\ post a s'.

(** The cache holds [u] over the disk [m], and the log is [l]. *)
Record st (s : state) (u : gmap Z use) (m : disk) (l : LogInternal) : Prop := mkSt {
  st_rep : rep d (bcache s) u;
  st_disk : blocks (bdev (bcache s)) = m;
  st_log : log s = l }.

Lemma trip_ret {A} Q (a : A) s post : post a s -> trip Q (mret a) s post.
Proof. intros Hp. exists a, s, []. done. Qed.

Lemma trip_bind {A B} Q (m : M state A) (k : A -> M state B) s mid post :
  trip Q m s mid -> (forall a s', mid a s' -> trip Q (k a) s' post) -> trip Q (m ≫= k) s post.
Proof.
  intros (a & s1 & n1 & Hm & Hh1 & HQ1 & Hmid) Hk. destruct (Hk a s1 Hmid) as (b & s2 & n2 & Hm2 & Hh2 & HQ2 & Hp).
  exists b, s2, (n2 ++ n1). mstep Hm. split_and!; [done| |by apply Forall_app|done].
  rewrite Hh2, Hh1. apply app_assoc.
Qed.

Lemma trip_mono {A} (Q Q' : disk -> Prop) (m : M state A) s (post post' : A -> state -> Prop) :
  trip Q m s post -> (forall x, Q x -> Q' x) -> (forall a s', post a s' -> post' a s') -> trip Q' m s post'.
Proof.
  intros (a & s1 & n1 & Hm & Hh & HQ & Hp) HQ' Hp'. exists a, s1, n1. split_and!; auto.
  by eapply Forall_impl.
Qed.

(** A step that leaves the device alone. *)
Lemma trip_quiet {A} Q (m : M state A) s a s' (post : A -> state -> Prop) :
  m s = Done (a, s') -> bdev (bcache s') = bdev (bcache s) -> post a s' -> trip Q m s post.
Proof.
  intros Hm Hb Hp. exists a, s', []. split_and!; [done| |done|done]. unfold hist. by rewrite Hb.
Qed.

Lemma on_bc_Done {A} (m : M (BufferCache (Traced D)) A) s a c :
  m (bcache s) = Done (a, c) -> on_bc m s = Done (a, mkFS c (log s)).
Proof. intros E. unfold on_bc. by rewrite E. Qed.

Lemma trip_gets {B} Q (k : LogInternal -> M state B) s u m l post :
  st s u m l -> trip Q (k l) s post -> trip Q (gets log ≫= k) s post.
Proof. intros [_ _ <-]. done. Qed.

Lemma trip_lift {A B} Q (a : A) (k : A -> M state B) s post : trip Q (k a) s post -> trip Q (lift (Done a) ≫= k) s post.
Proof. done. Qed.

Lemma trip_upd_log Q f s u m l : st s u m l -> trip Q (upd_log f) s (fun _ s' => st s' u m (f l)).
Proof.
  intros [Hr Hm Hl]. eapply trip_quiet; [done|done|]. split; [done|done|]. simpl. by rewrite Hl.
Qed.

Lemma trip_read Q s u m l b v :
  st s u m l -> m !! b = Some v -> (forall x, u !! b = Some x -> (u_rc x < 2 ^ 32 - 1)%Z) ->
  (u !! b = None -> base.size u < NBUF) ->
  trip Q (on_bc (read d b)) s (fun g s' => exists i, g = mkGuard d b i /\
    st s' (<[b := read_use u b v i]> u) m l /\ forall x, u !! b = Some x -> u_idx x = i).
Proof using Hd.
  intros [Hr Hm Hl] Hv Hmax Hsz. rewrite <- Hm in Hv.
  destruct (read_spec d Hd (bcache s) u b v Hr Hv Hmax Hsz) as (i & c & E & Hb & Hr' & Hi).
  eapply trip_quiet; [by apply on_bc_Done|done|]. exists i. split; [done|]. split; [|done].
  split; [done|by cbn; rewrite Hb|done].
Qed.

Lemma trip_data Q s u m l g b x :
  st s u m l -> guards u g b x -> trip Q (on_bc (guard_data g)) s (fun v s' => v = u_data x /\ st s' u m l).
Proof.
  intros [Hr Hm Hl] Hg. eapply trip_quiet; [by eapply on_bc_Done, guard_data_spec|done|]. by destruct s.
Qed.

Lemma trip_set Q s u m l g b x v :
  st s u m l -> guards u g b x -> length v = BSIZE ->
  trip Q (on_bc (guard_set g v)) s (fun _ s' => st s' (<[b := mkUse (u_idx x) (u_rc x) v]> u) m l).
Proof using Hd.
  intros [Hr Hm Hl] Hg Hv. destruct (guard_set_spec d Hd _ u g b x v Hr Hg Hv) as (c & E & Hb & Hr').
  eapply trip_quiet; [by apply on_bc_Done|done|]. split; [done|by cbn; rewrite Hb|done].
Qed.

Lemma trip_unpin Q s u m l g b x :
  st s u m l -> guards u g b x -> (u_rc x = 1%Z -> m !! b = Some (u_data x)) ->
  trip Q (on_bc (guard_unpin g)) s (fun _ s' => st s' (use_set b (mkUse (u_idx x) (u_rc x - 1) (u_data x)) u) m l).
Proof using Hd.
  intros [Hr Hm Hl] Hg Hc. rewrite <- Hm in Hc.
  destruct (guard_unpin_spec d Hd _ u g b x Hr Hg Hc) as (c & E & Hb & Hr').
  eapply trip_quiet; [by apply on_bc_Done|done|]. split; [done|by cbn; rewrite Hb|done].
Qed.

Lemma trip_drop Q s u m l g b x :
  st s u m l -> guards u g b x -> (u_rc x = 1%Z -> m !! b = Some (u_data x)) ->
  trip Q (on_bc (guard_drop g)) s (fun _ s' => st s' (use_set b (mkUse (u_idx x) (u_rc x - 1) (u_data x)) u) m l).
Proof using Hd.
  intros [Hr Hm Hl] Hg Hc. rewrite <- Hm in Hc.
  destruct (guard_drop_spec d Hd _ u g b x Hr Hg Hc) as (c & E & Hb & Hr').
  eapply trip_quiet; [by apply on_bc_Done|done|]. split; [done|by cbn; rewrite Hb|done].
Qed.

Lemma trip_write (Q : disk -> Prop) s u m l g b x :
  st s u m l -> guards u g b x -> Q (<[b := u_data x]> m) ->
  trip Q (on_bc (write b (u_data x))) s (fun _ s' => st s' u (<[b := u_data x]> m) l).
Proof using Hd.
  intros [Hr Hm Hl] Hg HQ. destruct (write_spec d Hd _ u g b x Hr Hg) as (c & E & Hr' & Hb & Hw).
  exists tt, (mkFS c (log s)), [blocks (bdev c)].
  split; [by apply on_bc_Done|]. split; [|split; [rewrite Hb, Hm; by constructor|]].
  - unfold hist. cbn [bcache]. cbn [bdev_write Traced_BDev] in Hw.
    destruct (bdev_write (tr_dev _) _ _) as [dk| |]; [|done|done]. by injection Hw as <-.
  - split; [done|by cbn [bcache]; rewrite Hb, Hm|done].
Qed.

Lemma trip_locked {B} Q (k : unit -> M state B) s u m l g g' b b' x y post :
  st s u m l -> guards u g b x -> guards u g' b' y -> b <> b' -> trip Q (k tt) s post ->
  trip Q (both_locked g g' ≫= k) s post.
Proof.
  intros [Hr _ _] (Hx & Ei & _) (Hy & Ej & _) Hne Hk. unfold both_locked.
  destruct (Nat.eqb_spec (g_index g) (g_index g')) as [E|]; [|done].
  exfalso. apply Hne. eapply (use_inj d (bcache s) u); [done..|congruence].
Qed.

Lemma st_block s u m l b v : st s u m l -> m !! b = Some v -> length v = BSIZE /\ (0 <= b < 2 ^ 29)%Z.
Proof. intros [_ <- _]. apply blocks_len. Qed.

Lemma st_pos s u m l b x : st s u m l -> u !! b = Some x -> (0 < u_rc x)%Z /\ length (u_data x) = BSIZE.
Proof.
  intros [Hr _ _] Hx. split; [by destruct (proj1 (r_use _ _ _ Hr b x) Hx)|by eapply (r_disk _ _ _ Hr)].
Qed.

Lemma trip_log_block {B} Q (k : Z -> M state B) s u m l tail v post :
  st s u m l -> (0 <= start l)%Z -> m !! (start l + Z.of_nat tail + 1)%Z = Some v ->
  trip Q (k (start l + Z.of_nat tail + 1)%Z) s post -> trip Q (log_block (Z.of_nat tail) ≫= k) s post.
Proof.
  intros Hs Hst Hv Hk. destruct (st_block _ _ _ _ _ _ Hs Hv) as [_ Hb]. pose proof (st_log _ _ _ _ Hs) as Hl.
  assert (E : log_block (Z.of_nat tail) s = Done ((start l + Z.of_nat tail + 1)%Z, s)).
  { unfold log_block. rewrite bind_gets, Hl. unfold uadd.
    rewrite checked_ok, bind_lift, checked_ok by (unfold in_width; lia). done. }
  eapply trip_bind; [by eapply (trip_quiet Q _ s _ s (fun a s' => a = _ /\ s' = s))|]. by intros ? ? [-> ->].
Qed.

(** One block copied to the log: the cache is as before, the log block changed. *)
Lemma trip_write_log_block (Q : disk -> Prop) s u m l tail b x v0 :
  let lb := (start l + Z.of_nat tail + 1)%Z in
  st s u m l -> dev l = d -> (0 <= start l)%Z -> m !! lb = Some v0 ->
  block_nums (logheader l) !! tail = Some b -> u !! b = Some x -> (u_rc x < 2 ^ 32 - 1)%Z ->
  u !! lb = None -> base.size u < NBUF -> Q (<[lb := u_data x]> m) ->
  trip Q (write_log_block tail) s (fun _ s' => st s' u (<[lb := u_data x]> m) l).
Proof using Hd.
  intros lb Hs Hdev Hst Hv Hb Hx Hrc Hn Hsz HQ. destruct (st_pos _ _ _ _ _ _ Hs Hx) as [Hpos Hlen].
  assert (Hne : lb <> b) by (intros ->; congruence).
  unfold write_log_block. eapply trip_gets; [done|]. eapply trip_log_block; [done..|]. fold lb.
  rewrite Hdev. eapply trip_bind; [eapply (trip_read Q s u m l lb v0); [done..|by rewrite Hn|done]|].
  intros to s1 (i & -> & Hs1 & _). unfold read_use in Hs1. rewrite Hn in Hs1.
  rewrite (index_Some _ _ _ Hb). apply trip_lift.
  destruct (r_disk _ _ _ (st_rep _ _ _ _ Hs) b x Hx) as [_ [vb Hvb]]. rewrite (st_disk _ _ _ _ Hs) in Hvb.
  assert (Hx1 : <[lb := mkUse i 1 v0]> u !! b = Some x) by (by rewrite lookup_insert_ne).
  eapply trip_bind; [eapply (trip_read Q s1 _ m l b vb); [done..|by rewrite Hx1; intros ? [= <-]|by rewrite Hx1]|].
  intros from s2 (j & -> & Hs2 & Hj). specialize (Hj x Hx1). unfold read_use in Hs2. rewrite Hx1 in Hs2.
  set (u2 := <[b := _]> _) in Hs2.
  assert (Gt : guards u2 (mkGuard d lb i) lb (mkUse i 1 v0)).
  { split; [|done]. unfold u2. by rewrite lookup_insert_ne, lookup_insert_eq. }
  assert (Gf : guards u2 (mkGuard d b j) b (mkUse j (u_rc x + 1) (u_data x))).
  { split; [|done]. unfold u2. by rewrite lookup_insert_eq. }
  eapply trip_locked; [done..|].
  eapply trip_bind; [by eapply trip_data|]. intros v s3 [-> Hs3].
  eapply trip_bind; [by eapply trip_set|]. intros [] s4 Hs4. cbn [u_idx u_rc u_data] in Hs4.
  set (u4 := <[lb := _]> u2) in Hs4.
  assert (Gt4 : guards u4 (mkGuard d lb i) lb (mkUse i 1 (u_data x))).
  { split; [|done]. unfold u4. by rewrite lookup_insert_eq. }
  assert (Gf4 : guards u4 (mkGuard d b j) b (mkUse j (u_rc x + 1) (u_data x))).
  { split; [|done]. unfold u4. rewrite lookup_insert_ne by done. apply Gf. }
  eapply trip_bind; [by eapply trip_data|]. intros v s5 [-> Hs5].
  eapply trip_bind; [by eapply (trip_write Q s5 u4 m l _ lb)|]. intros [] s6 Hs6.
  eapply trip_bind; [eapply trip_drop; [done..|simpl; lia]|]. intros [] s7 Hs7. cbn [u_idx u_rc u_data] in *.
  rewrite use_set_pos in Hs7 by (simpl; lia). set (u7 := <[b := _]> u4) in Hs7.
  assert (Gt7 : guards u7 (mkGuard d lb i) lb (mkUse i 1 (u_data x))).
  { split; [|done]. unfold u7. rewrite lookup_insert_ne by done. apply Gt4. }
  eapply trip_mono; [eapply trip_drop; [done..|]|done|].
  { intros _. by rewrite lookup_insert_eq. }
  intros [] s8 Hs8. cbn [u_idx u_rc u_data] in Hs8.
  replace u with (use_set lb (mkUse i (1 - 1) (u_data x)) u7); [done|].
  change (delete lb u7 = u). unfold u7, u4, u2. apply map_eq. intros y. destruct (decide (y = lb)) as [->|]; [by rewrite lookup_delete_eq|].
  rewrite lookup_delete_ne by done. destruct (decide (y = b)) as [->|].
  - rewrite lookup_insert_eq, Hx. f_equal. destruct x; simpl in *. f_equal; [done|lia].
  - by rewrite !lookup_insert_ne.
Qed.

Lemma use_set_lookup_ne b b' x (u : gmap Z use) : b <> b' -> use_set b x u !! b' = u !! b'.
Proof. intros Hne. unfold use_set. case_match; [by apply lookup_insert_ne|by apply lookup_delete_ne]. Qed.

(** Dropping the guard of the log block after the home block was unpinned. *)
Lemma use_set_restore (u : gmap Z use) lb b x (ul : use) :
  u !! lb = None -> lb <> b -> (u_rc ul = 1)%Z ->
  use_set lb (mkUse (u_idx ul) (u_rc ul - 1) (u_data ul))
    (use_set b (mkUse (u_idx x) (u_rc x + 1 - 1 - 1) (u_data x))
      (<[b := mkUse (u_idx x) (u_rc x + 1 - 1) (u_data x)]> (<[lb := ul]> u))) =
  use_set b (mkUse (u_idx x) (u_rc x - 1) (u_data x)) u.
Proof.
  intros Hn Hne Hul. replace (u_rc x + 1 - 1 - 1)%Z with (u_rc x - 1)%Z by lia. unfold use_set at 1. cbn [u_rc].
  replace (0 <? u_rc ul - 1)%Z with false by (symmetry; apply Z.ltb_ge; lia). unfold use_set. cbn [u_rc].
  apply map_eq. intros y. destruct (decide (y = lb)) as [->|].
  - rewrite lookup_delete_eq. case_match; [by rewrite lookup_insert_ne|by rewrite lookup_delete_ne].
  - rewrite lookup_delete_ne by done. destruct (decide (y = b)) as [->|].
    + case_match; [by rewrite !lookup_insert_eq|by rewrite !lookup_delete_eq].
    + case_match; [by rewrite !lookup_insert_ne|rewrite !lookup_delete_ne by done; by rewrite !lookup_insert_ne].
Qed.

Definition use_count (u : gmap Z use) (b : Z) : Z := match u !! b with Some x => u_rc x | None => 0%Z end.

(** A block copied from the log over its buffer and its home location. *)
Lemma trip_install_copy (Q : disk -> Prop) s u m l tail b v vb :
  let lb := (start l + Z.of_nat tail + 1)%Z in
  st s u m l -> dev l = d -> (0 <= start l)%Z -> m !! lb = Some v -> m !! b = Some vb -> lb <> b ->
  block_nums (logheader l) !! tail = Some b -> (use_count u b < 2 ^ 32 - 1)%Z ->
  u !! lb = None -> base.size u < NBUF -> (u !! b = None -> S (base.size u) < NBUF) -> Q (<[b := v]> m) ->
  trip Q (install_copy tail) s (fun p s' => exists i j, p = (mkGuard d lb i, mkGuard d b j) /\
    st s' (<[b := mkUse j (use_count u b + 1) v]> (<[lb := mkUse i 1 v]> u)) (<[b := v]> m) l /\
    forall x, u !! b = Some x -> u_idx x = j).
Proof using Hd.
  intros lb Hs Hdev Hst Hv Hvb Hne Hb Hrc Hn Hsz Hsz2 HQ.
  destruct (st_block _ _ _ _ _ _ Hs Hv) as [Hlen _].
  unfold install_copy. eapply trip_gets; [done|]. eapply trip_log_block; [done..|]. fold lb.
  rewrite Hdev. eapply trip_bind; [eapply (trip_read Q s u m l lb v); [done..|by rewrite Hn|done]|].
  intros lbuf s1 (i & -> & Hs1 & _). unfold read_use in Hs1. rewrite Hn in Hs1.
  rewrite (index_Some _ _ _ Hb). apply trip_lift. set (ul := mkUse i 1 v) in *.
  assert (Hb1 : <[lb := ul]> u !! b = u !! b) by (by rewrite lookup_insert_ne).
  eapply trip_bind.
  { eapply (trip_read Q s1 _ m l b vb); [done..| |]; rewrite Hb1; intros x.
    - intros Hx. unfold use_count in Hrc. by rewrite Hx in Hrc.
    - rewrite map_size_insert_None by done. by apply Hsz2. }
  intros dbuf s2 (j & -> & Hs2 & Hj). rewrite Hb1 in Hj.
  assert (Hru : exists w, read_use (<[lb := ul]> u) b vb j = mkUse j (use_count u b + 1) w).
  { unfold read_use, use_count. rewrite Hb1. destruct (u !! b); eauto. }
  destruct Hru as [w Hru]. rewrite Hru in Hs2.
  assert (G : forall y, guards (<[b := y]> (<[lb := ul]> u)) (mkGuard d lb i) lb ul)
    by (intros y; split; [by rewrite lookup_insert_ne, lookup_insert_eq|done]).
  assert (Gd : forall y w, u_idx y = j -> guards (<[b := y]> w) (mkGuard d b j) b y)
    by (intros y ? Ey; split; [by rewrite lookup_insert_eq|done]).
  eapply trip_locked; [done|by apply Gd|by apply G|done|].
  eapply trip_bind; [by eapply trip_data, G|]. intros v' s3 [-> Hs3].
  eapply trip_bind; [eapply trip_set; [done|by apply Gd|done]|]. intros [] s4 Hs4. rewrite insert_insert_eq in Hs4.
  cbn [u_idx u_rc u_data ul] in Hs4.
  eapply trip_bind; [by eapply trip_data, Gd|]. intros v' s5 [-> Hs5].
  eapply trip_bind; [eapply (trip_write Q s5 _ m l _ b); [done|by apply Gd|done]|]. intros [] s6 Hs6.
  apply trip_ret. by exists i, j.
Qed.

(** One pinned block copied from the log to its home location. *)
Lemma trip_install_block (Q : disk -> Prop) s u m l tail b x :
  let lb := (start l + Z.of_nat tail + 1)%Z in
  st s u m l -> dev l = d -> (0 <= start l)%Z -> m !! lb = Some (u_data x) ->
  block_nums (logheader l) !! tail = Some b -> u !! b = Some x -> (u_rc x < 2 ^ 32 - 1)%Z ->
  u !! lb = None -> base.size u < NBUF -> Q (<[b := u_data x]> m) ->
  trip Q (install_block tail) s (fun _ s' =>
    st s' (use_set b (mkUse (u_idx x) (u_rc x - 1) (u_data x)) u) (<[b := u_data x]> m) l).
Proof using Hd.
  intros lb Hs Hdev Hst Hv Hb Hx Hrc Hn Hsz HQ. destruct (st_pos _ _ _ _ _ _ Hs Hx) as [Hpos Hlen].
  assert (Hne : lb <> b) by (intros ->; congruence).
  destruct (r_disk _ _ _ (st_rep _ _ _ _ Hs) b x Hx) as [_ [vb Hvb]]. rewrite (st_disk _ _ _ _ Hs) in Hvb.
  assert (Hc : use_count u b = u_rc x) by (unfold use_count; by rewrite Hx).
  unfold install_block. eapply trip_bind.
  { eapply (trip_install_copy Q s u m l tail b (u_data x) vb); try done; [by rewrite Hc|by rewrite Hx]. }
  intros p s6 (i & j & -> & Hs6 & Hj). rewrite Hc in Hs6. specialize (Hj x Hx). subst j.
  set (ul := mkUse i 1 (u_data x)) in *.
  assert (Gd : forall y w, u_idx y = u_idx x -> guards (<[b := y]> w) (mkGuard d b (u_idx x)) b y)
    by (intros y ? Ey; split; [by rewrite lookup_insert_eq|done]).
  eapply trip_bind; [eapply trip_unpin; [done|by apply Gd|simpl; lia]|]. intros [] s7 Hs7. cbn [u_idx u_rc u_data] in *.
  rewrite use_set_pos, insert_insert_eq in Hs7 by (simpl; lia).
  eapply trip_bind; [eapply trip_drop; [done|by apply Gd|]|].
  { intros _. by rewrite lookup_insert_eq. }
  intros [] s8 Hs8. cbn [u_idx u_rc u_data] in Hs8.
  eapply trip_mono; [eapply (trip_drop Q s8 _ _ l _ lb ul); [done| |]|done|].
  - split; [|done]. rewrite use_set_lookup_ne by done. by rewrite lookup_insert_ne, lookup_insert_eq.
  - intros _. by rewrite lookup_insert_ne.
  - intros [] s9 Hs9. by rewrite use_set_restore in Hs9.
Qed.

(** A block that nobody has pinned copied home, as recovery does: the buffer's
    count goes below zero. *)
Lemma recover_block (Q : disk -> Prop) s u m l tail b v vb :
  let lb := (start l + Z.of_nat tail + 1)%Z in
  st s u m l -> dev l = d -> (0 <= start l)%Z -> m !! lb = Some v -> m !! b = Some vb -> lb <> b ->
  block_nums (logheader l) !! tail = Some b -> u !! b = None -> u !! lb = None -> S (base.size u) < NBUF ->
  Q (<[b := v]> m) ->
  if overflow_checks then install_block tail s = Panic
  else trip Q (install_block tail) s (fun _ s' => exists j, st s' (<[b := mkUse j (2 ^ 32 - 1) v]> u) (<[b := v]> m) l).
Proof using Hd.
  intros lb Hs Hdev Hst Hv Hvb Hne Hb Hub Hn Hsz HQ.
  assert (Hc : use_count u b = 0%Z) by (unfold use_count; by rewrite Hub).
  assert (Hcp : trip Q (install_copy tail) s (fun p s' => exists i j, p = (mkGuard d lb i, mkGuard d b j) /\
    st s' (<[b := mkUse j (use_count u b + 1) v]> (<[lb := mkUse i 1 v]> u)) (<[b := v]> m) l /\
    forall x, u !! b = Some x -> u_idx x = j)).
  { eapply (trip_install_copy Q s u m l tail b v vb); try done; [by rewrite Hc|lia]. }
  rewrite Hc in Hcp. destruct Hcp as (p & s6 & new & Hm & Hh & HQs & (i & j & -> & Hs6 & _)).
  set (w := <[b := _]> _) in Hs6.
  assert (Gd : guards w (mkGuard d b j) b (mkUse j 1 v)) by (split; [unfold w; by rewrite lookup_insert_eq|done]).
  pose proof (unpin_drop_last d Hd (bcache s6) w _ b _ (st_rep _ _ _ _ Hs6) Gd eq_refl) as Hud.
  assert (E : install_block tail s = (_ ← on_bc (_ ← guard_unpin (mkGuard d b j); guard_drop (mkGuard d b j));
    on_bc (guard_drop (mkGuard d lb i))) s6).
  { unfold install_block. mstep Hm. unfold on_bc, mbind, M_bind. cbn [log bcache].
    destruct (guard_unpin (mkGuard d b j) (bcache s6)) as [[? ?]| |]; [|done|done]. cbn [bcache log].
    by destruct (guard_drop (mkGuard d b j) _) as [[? ?]| |]. }
  destruct overflow_checks.
  - rewrite E. unfold mbind at 1, M_bind at 1, on_bc at 1. by rewrite Hud.
  - destruct Hud as (c & Hc' & Hdk & Hr).
    assert (Hs8 : st (mkFS c (log s6)) (<[b := mkUse j (2 ^ 32 - 1) v]> (<[lb := mkUse i 1 v]> u)) (<[b := v]> m) l).
    { destruct Hs6 as [_ Hdd Hll]. split; cbn [bcache log]; [|by rewrite Hdk|done].
      unfold w in Hr. by rewrite insert_insert_eq in Hr. }
    assert (Hdrop : trip Q (on_bc (guard_drop (mkGuard d lb i))) (mkFS c (log s6))
      (fun _ s' => exists j, st s' (<[b := mkUse j (2 ^ 32 - 1) v]> u) (<[b := v]> m) l)).
    { eapply trip_mono; [eapply (trip_drop Q _ _ _ l _ lb (mkUse i 1 v)); [done| |]|done|].
      - split; [by rewrite lookup_insert_ne, lookup_insert_eq|done].
      - intros _. by rewrite lookup_insert_ne.
      - intros [] s9 Hs9. exists j. replace (<[b := _]> u) with (use_set lb (mkUse i (1 - 1) v)
          (<[b := mkUse j (2 ^ 32 - 1) v]> (<[lb := mkUse i 1 v]> u))); [done|].
        change (delete lb (<[b := mkUse j (2 ^ 32 - 1) v]> (<[lb := mkUse i 1 v]> u)) = <[b := mkUse j (2 ^ 32 - 1) v]> u).
        rewrite delete_insert_ne by done. by rewrite delete_insert_id. }
    destruct Hdrop as ([] & s9 & n9 & H9 & Hh9 & HQ9 & Hp9). exists tt, s9, (n9 ++ new). rewrite E.
    erewrite bind_Done by (by apply on_bc_Done). split; [done|].
    split; [|split; [by apply Forall_app|done]]. rewrite Hh9. unfold hist at 1. cbn [bcache]. rewrite Hdk.
    fold (hist s6). rewrite Hh. apply app_assoc.
Qed.

(** The header written to its block. *)
Lemma trip_write_head (Q : disk -> Prop) s u m l v0 :
  st s u m l -> dev l = d -> header_ok (logheader l) -> m !! start l = Some v0 -> u !! start l = None ->
  base.size u < NBUF ->
  (forall v, from_buffer_block (logheader l) v = Done (logheader l) -> Q (<[start l := v]> m)) ->
  trip Q write_head s (fun _ s' => exists v, from_buffer_block (logheader l) v = Done (logheader l) /\
    length v = BSIZE /\ st s' u (<[start l := v]> m) l).
Proof using Hd.
  intros Hs Hdev Hok Hv Hn Hsz HQ. unfold write_head. eapply trip_gets; [done|]. rewrite Hdev.
  eapply trip_bind; [eapply (trip_read Q s u m l (start l) v0); [done..|by rewrite Hn|done]|].
  intros buf s1 (i & -> & Hs1 & _). unfold read_use in Hs1. rewrite Hn in Hs1.
  assert (G : forall y w, u_idx y = i -> guards (<[start l := y]> w) (mkGuard d (start l) i) (start l) y)
    by (intros y w Ey; split; [by rewrite lookup_insert_eq|done]).
  eapply trip_bind; [by eapply trip_data, G|]. intros v s2 [-> Hs2]. cbn [u_data].
  destruct (st_block _ _ _ _ _ _ Hs Hv) as [Hlen _]. pose proof Hok as (_ & Hl & _).
  destruct (header_codec (logheader l) (logheader l) v0 Hok Hl Hlen) as (v & E & Hvl & Edec).
  rewrite E. apply trip_lift.
  eapply trip_bind; [eapply trip_set; [done|by apply G|done]|]. intros [] s3 Hs3. rewrite insert_insert_eq in Hs3.
  cbn [u_idx u_rc g_block_number] in *.
  eapply trip_bind; [eapply (trip_write Q s3 _ m l _ (start l) (mkUse i 1 v)); [done|by apply G|by apply HQ]|].
  intros [] s4 Hs4. eapply trip_mono; [eapply trip_drop; [done|by apply G|]|done|].
  { intros _. by rewrite lookup_insert_eq. }
  intros [] s5 Hs5. exists v. split; [done|]. split; [done|].
  replace u with (use_set (start l) (mkUse i (1 - 1) v) (<[start l := mkUse i 1 v]> u)); [done|].
  change (delete (start l) (<[start l := mkUse i 1 v]> u) = u). by rewrite delete_insert_id.
Qed.

(** ** The loops over the logged blocks

    [f b] is the content of the logged block [b]. *)

Fixpoint logged (f : Z -> block) (a : Z) (bns : list Z) (tail : nat) (m : disk) : disk :=
  match bns with
  | [] => m
  | b :: bns => logged f a bns (S tail) (<[(a + Z.of_nat tail + 1)%Z := f b]> m)
  end.

Definition installed (f : Z -> block) (bns : list Z) (m : disk) : disk :=
  foldl (fun m b => <[b := f b]> m) m bns.

Definition unpin_one (u : gmap Z use) (b : Z) : gmap Z use :=
  match u !! b with Some x => use_set b (mkUse (u_idx x) (u_rc x - 1) (u_data x)) u | None => u end.
Definition unpin_all (bns : list Z) (u : gmap Z use) : gmap Z use := foldl unpin_one u bns.

(** The blocks of the log are cached, pinned and hold [f]. *)
Definition pinned (f : Z -> block) (u : gmap Z use) (bns : list Z) : Prop :=
  forall b, b ∈ bns -> exists x, u !! b = Some x /\ u_data x = f b /\ (u_rc x < 2 ^ 32 - 1)%Z.

(** Nobody uses the log blocks from [tail] on. *)
Definition log_unused (u : gmap Z use) (a : Z) (tail k : nat) : Prop :=
  forall i, tail <= i < tail + k -> u !! (a + Z.of_nat i + 1)%Z = None.

Lemma trip_write_log (Q : disk -> Prop) f bns s u m l tail :
  st s u m l -> dev l = d -> (0 <= start l)%Z ->
  (forall i b, bns !! i = Some b -> block_nums (logheader l) !! (tail + i) = Some b) ->
  (forall i, tail <= i < tail + length bns -> is_Some (m !! (start l + Z.of_nat i + 1)%Z)) ->
  pinned f u bns -> log_unused u (start l) tail (length bns) -> base.size u < NBUF ->
  (forall j, Q (logged f (start l) (take (S j) bns) tail m)) ->
  trip Q (for_range tail (length bns) write_log_block) s (fun _ s' => st s' u (logged f (start l) bns tail m) l).
Proof using Hd.
  revert s m tail. induction bns as [|b bns IH]; intros s m tail Hs Hdev Hst Hbn Hm Hp Hun Hsz HQ.
  { by apply trip_ret. }
  cbn [length for_range logged]. destruct (Hp b) as (x & Hx & Ef & Hrc); [left|].
  destruct (Hm tail) as [v Hv]; [cbn; lia|].
  eapply trip_bind.
  - eapply (trip_write_log_block Q s u m l tail b x v); try done.
    + rewrite <- (Nat.add_0_r tail). by apply Hbn.
    + apply Hun. cbn. lia.
    + rewrite Ef. apply (HQ 0).
  - intros [] s1 Hs1. rewrite Ef in Hs1. apply IH; try done.
    + intros i b' Hi. replace (S tail + i) with (tail + S i) by lia. by apply Hbn.
    + intros i Hi. apply lookup_insert_is_Some'. right. apply Hm. cbn. lia.
    + intros b' Hb'. apply Hp. by right.
    + intros i Hi. apply Hun. cbn. lia.
    + intros j. apply (HQ (S j)).
Qed.

Lemma use_set_size (u : gmap Z use) b x y : u !! b = Some x -> base.size (use_set b y u) <= base.size u.
Proof.
  intros Hx. unfold use_set. case_match.
  - by rewrite map_size_insert_Some.
  - rewrite map_size_delete_Some; [lia|done].
Qed.

Lemma trip_install (Q : disk -> Prop) f bns s u m l tail :
  st s u m l -> dev l = d -> (0 <= start l)%Z -> NoDup bns ->
  (forall i b, bns !! i = Some b -> block_nums (logheader l) !! (tail + i) = Some b /\
     m !! (start l + Z.of_nat (tail + i) + 1)%Z = Some (f b)) ->
  (forall i b, tail <= i < tail + length bns -> b ∈ bns -> b <> (start l + Z.of_nat i + 1)%Z) ->
  pinned f u bns -> log_unused u (start l) tail (length bns) -> base.size u < NBUF ->
  (forall j, Q (installed f (take (S j) bns) m)) ->
  trip Q (for_range tail (length bns) install_block) s (fun _ s' => st s' (unpin_all bns u) (installed f bns m) l).
Proof using Hd.
  revert s u m tail. induction bns as [|b bns IH]; intros s u m tail Hs Hdev Hst Hnd Hbn Hdis Hp Hun Hsz HQ.
  { by apply trip_ret. }
  pose proof (NoDup_cons_1_1 _ _ Hnd) as Hb. apply NoDup_cons_1_2 in Hnd.
  cbn [length for_range]. change (unpin_all (b :: bns) u) with (unpin_all bns (unpin_one u b)).
  change (installed f (b :: bns) m) with (installed f bns (<[b := f b]> m)).
  destruct (Hp b) as (x & Hx & Ef & Hrc); [left|]. destruct (Hbn 0 b eq_refl) as [Hb0 Hm0].
  rewrite Nat.add_0_r in Hb0, Hm0. rewrite <- Ef in Hm0.
  eapply trip_bind.
  - eapply (trip_install_block Q s u m l tail b x); try done.
    + apply Hun. cbn. lia.
    + rewrite Ef. apply (HQ 0).
  - intros [] s1 Hs1. unfold unpin_one. rewrite Hx. rewrite Ef in Hs1 |- *. apply IH; try done.
    + intros i b' Hi. replace (S tail + i) with (tail + S i) by lia.
      destruct (Hbn (S i) b' Hi) as [H1 H2]. split; [done|]. rewrite lookup_insert_ne; [done|].
      apply Hdis; [|by left]. apply lookup_lt_Some in Hi. cbn. lia.
    + intros i b' Hi Hb'. apply Hdis; [cbn; lia|by right].
    + intros b' Hb'. rewrite use_set_lookup_ne by (intros ->; done). apply Hp. by right.
    + intros i Hi. rewrite use_set_lookup_ne; [apply Hun; cbn; lia|]. apply Hdis; [cbn; lia|by left].
    + eapply Nat.le_lt_trans; [by eapply use_set_size|done].
    + intros j. apply (HQ (S j)).
Qed.

Lemma trip_recover (Q : disk -> Prop) f bns s u m l tail :
  overflow_checks = false ->
  st s u m l -> dev l = d -> (0 <= start l)%Z -> NoDup bns ->
  (forall i b, bns !! i = Some b -> block_nums (logheader l) !! (tail + i) = Some b /\
     m !! (start l + Z.of_nat (tail + i) + 1)%Z = Some (f b)) ->
  (forall i b, tail <= i < tail + length bns -> b ∈ bns -> b <> (start l + Z.of_nat i + 1)%Z) ->
  (forall b, b ∈ bns -> is_Some (m !! b) /\ u !! b = None) -> log_unused u (start l) tail (length bns) ->
  base.size u + length bns < NBUF -> (forall j, Q (installed f (take (S j) bns) m)) ->
  trip Q (for_range tail (length bns) install_block) s (fun _ s' => exists u', st s' u' (installed f bns m) l /\
    (forall y, y ∉ bns -> u' !! y = u !! y) /\ base.size u' <= base.size u + length bns).
Proof using Hd.
  intros Hov. revert s u m tail.
  induction bns as [|b bns IH]; intros s u m tail Hs Hdev Hst Hnd Hbn Hdis Hm Hun Hsz HQ.
  { apply trip_ret. exists u. split; [done|]. split; [done|]. lia. }
  pose proof (NoDup_cons_1_1 _ _ Hnd) as Hb. apply NoDup_cons_1_2 in Hnd. cbn [length for_range] in *.
  change (installed f (b :: bns) m) with (installed f bns (<[b := f b]> m)).
  destruct (Hm b) as [[vb Hvb] Hub]; [left|]. destruct (Hbn 0 b eq_refl) as [Hb0 Hm0].
  rewrite Nat.add_0_r in Hb0, Hm0.
  assert (Hlb : u !! (start l + Z.of_nat tail + 1)%Z = None) by (apply Hun; cbn; lia).
  assert (Hne : (start l + Z.of_nat tail + 1)%Z <> b) by (apply not_eq_sym, Hdis; [lia|left]).
  pose proof (recover_block Q s u m l tail b (f b) vb Hs Hdev Hst Hm0 Hvb Hne Hb0 Hub Hlb ltac:(lia) (HQ 0)) as Hr.
  rewrite Hov in Hr. eapply trip_bind; [exact Hr|]. intros [] s1 (j & Hs1).
  assert (Hsz1 : base.size (<[b := mkUse j (2 ^ 32 - 1) (f b)]> u) = S (base.size u)) by (by apply map_size_insert_None).
  eapply trip_mono; [eapply (IH s1 _ (<[b := f b]> m) (S tail)); try done|done|].
  - intros i b' Hi. replace (S tail + i) with (tail + S i) by lia.
    destruct (Hbn (S i) b' Hi) as [H1 H2]. split; [done|]. rewrite lookup_insert_ne; [done|].
    apply Hdis; [|by left]. apply lookup_lt_Some in Hi. lia.
  - intros i b' Hi Hb'. apply Hdis; [lia|by right].
  - intros b' Hb'. assert (b <> b') by (intros ->; done). rewrite !lookup_insert_ne by done. apply Hm. by right.
  - intros i Hi. rewrite lookup_insert_ne; [apply Hun; cbn; lia|]. apply Hdis; [lia|by left].
  - lia.
  - intros k. apply (HQ (S k)).
  - intros [] s2 (u' & Hs2 & Hu' & Hsz2). exists u'. split; [done|]. split; [|lia].
    intros y [Hy1 Hy2]%not_elem_of_cons. rewrite Hu' by done. by apply lookup_insert_ne.
Qed.

(** Reading the header. *)
Lemma trip_read_head (Q : disk -> Prop) s u m l v h :
  st s u m l -> dev l = d -> m !! start l = Some v -> u !! start l = None -> base.size u < NBUF ->
  from_buffer_block (logheader l) v = Done h ->
  trip Q read_head s (fun _ s' => st s' u m (with_header h l)).
Proof using Hd.
  intros Hs Hdev Hv Hn Hsz Hh. unfold read_head. eapply trip_gets; [done|]. rewrite Hdev.
  eapply trip_bind; [eapply (trip_read Q s u m l (start l) v); [done..|by rewrite Hn|done]|].
  intros buf s1 (i & -> & Hs1 & _). unfold read_use in Hs1. rewrite Hn in Hs1.
  assert (G : guards (<[start l := mkUse i 1 v]> u) (mkGuard d (start l) i) (start l) (mkUse i 1 v))
    by (split; [by rewrite lookup_insert_eq|done]).
  eapply trip_bind; [by eapply trip_data|]. intros v' s2 [-> Hs2]. cbn [u_data]. rewrite Hh. apply trip_lift.
  eapply trip_bind; [by eapply trip_upd_log|]. intros [] s3 Hs3.
  eapply trip_mono; [by eapply trip_drop|done|]. intros [] s4 Hs4. cbn [u_idx u_rc u_data] in Hs4.
  replace u with (use_set (start l) (mkUse i (1 - 1) v) (<[start l := mkUse i 1 v]> u)); [done|].
  change (delete (start l) (<[start l := mkUse i 1 v]> u) = u). by rewrite delete_insert_id.
Qed.
End Trip.

(** ** What recovery makes of a disk *)

Lemma elem_take {A} (l : list A) k x : x ∈ take k l -> x ∈ l.
Proof. intros Hx. rewrite <- (take_drop k l). apply elem_of_app. by left. Qed.


Section Recovered.
Context `{ByteOrder}.
Implicit Types (m : gmap Z block) (a b y : Z) (bns : list Z) (f : Z -> block).

Definition header0 : LogHeader := mkLH 0 (replicate LOGSIZE 0%Z).

Definition header_of (a : Z) (m : gmap Z block) : option LogHeader :=
  v ← m !! a; match from_buffer_block header0 v with Done h => Some h | _ => None end.

Fixpoint replay (a : Z) (bns : list Z) (tail : nat) (m : gmap Z block) : gmap Z block :=
  match bns with
  | [] => m
  | b :: bns => replay a bns (S tail) (<[b := default [] (m !! (a + Z.of_nat tail + 1)%Z)]> m)
  end.

(** The blocks of the disk once the log at [a] has been replayed. *)
Definition recovered (a : Z) (m : gmap Z block) : gmap Z block :=
  match header_of a m with Some h => replay a (take (Z.to_nat (n h)) (block_nums h)) 0 m | None => m end.

(** The same blocks outside the log. *)
Definition in_log (a b : Z) : Prop := (a <= b <= a + Z.of_nat LOGSIZE)%Z.
Definition same_home (a : Z) (m m' : gmap Z block) : Prop := forall b, ~ in_log a b -> m !! b = m' !! b.

Lemma installed_lookup f bns m y :
  installed f bns m !! y = if decide (y ∈ bns) then Some (f y) else m !! y.
Proof.
  revert m. induction bns as [|b bns IH]; intros m; [by rewrite decide_False by apply not_elem_of_nil|].
  change (installed f (b :: bns) m) with (installed f bns (<[b := f b]> m)). rewrite IH.
  destruct (decide (y ∈ bns)) as [Hy|Hy]; [rewrite decide_True; [done|by right]|].
  destruct (decide (y = b)) as [->|Hne].
  - rewrite lookup_insert_eq, decide_True; [done|left].
  - rewrite lookup_insert_ne by done. rewrite decide_False; [done|]. by intros [?|?]%elem_of_cons.
Qed.

Lemma logged_other f a bns tail m y :
  (y <= a + Z.of_nat tail \/ a + Z.of_nat (tail + length bns) < y)%Z -> logged f a bns tail m !! y = m !! y.
Proof.
  revert tail m. induction bns as [|b bns IH]; intros tail m Hy; [done|]. cbn [logged length] in *.
  rewrite IH by lia. apply lookup_insert_ne. lia.
Qed.

Lemma logged_lookup f a bns tail m i b :
  bns !! i = Some b -> logged f a bns tail m !! (a + Z.of_nat (tail + i) + 1)%Z = Some (f b).
Proof.
  revert tail m i. induction bns as [|c bns IH]; intros tail m [|i] Hi; simplify_eq/=.
  - rewrite Nat.add_0_r, logged_other by lia. apply lookup_insert_eq.
  - rewrite <- (IH (S tail) (<[(a + Z.of_nat tail + 1)%Z:=f c]> m) i Hi). f_equal. lia.
Qed.

Lemma replay_installed f a bns tail m :
  (forall i b, bns !! i = Some b -> m !! (a + Z.of_nat (tail + i) + 1)%Z = Some (f b)) ->
  (forall i b, tail <= i < tail + length bns -> b ∈ bns -> b <> (a + Z.of_nat i + 1)%Z) ->
  replay a bns tail m = installed f bns m.
Proof.
  revert tail m. induction bns as [|b bns IH]; intros tail m Hm Hdis; [done|]. cbn [replay length] in *.
  change (installed f (b :: bns) m) with (installed f bns (<[b := f b]> m)).
  pose proof (Hm 0 b eq_refl) as H0. rewrite Nat.add_0_r in H0. rewrite H0. cbn [default]. apply IH.
  - intros i c Hi. rewrite lookup_insert_ne.
    + replace (S tail + i) with (tail + S i) by lia. by apply Hm.
    + apply Hdis; [apply lookup_lt_Some in Hi; lia|left].
  - intros i c Hi Hc. apply Hdis; [lia|by right].
Qed.

Lemma header_of_written h a m v :
  from_buffer_block h v = Done h -> length (block_nums h) = LOGSIZE -> m !! a = Some v -> header_of a m = Some h.
Proof.
  intros Hd Hl Hv. unfold header_of. rewrite Hv. cbn [mbind option_bind].
  replace (from_buffer_block header0 v) with (from_buffer_block h v); [by rewrite Hd|].
  unfold from_buffer_block. by rewrite Hl.
Qed.

(** Disks with an empty header: nothing to recover. *)
Lemma recovered_clear a m h : header_of a m = Some h -> n h = 0%Z -> recovered a m = m.
Proof. intros Hh Hn. unfold recovered. by rewrite Hh, Hn. Qed.

(** Disks with a committed header and the contents in the log. *)
Lemma recovered_committed f a m h bns :
  header_of a m = Some h -> bns = take (Z.to_nat (n h)) (block_nums h) -> length bns <= LOGSIZE ->
  (forall i b, bns !! i = Some b -> m !! (a + Z.of_nat i + 1)%Z = Some (f b)) ->
  (forall b, b ∈ bns -> ~ in_log a b) ->
  recovered a m = installed f bns m.
Proof.
  intros Hh -> Hl Hm Hdis. unfold recovered. rewrite Hh. apply replay_installed; [done|].
  intros i b Hi Hb ->. apply (Hdis _ Hb). unfold in_log. lia.
Qed.
End Recovered.

(** ** Commit *)

Section Commit.
Context `{Profile} `{ByteOrder} {D : Type} `{!BDev D} (d : Z) (Hd : d <> 0%Z).
Context (s : fsst (Traced D)) (u : gmap Z use) (m : gmap Z block) (l : LogInternal) (f : Z -> block) (bns : list Z).

(** A transaction that may commit: the log on disk is empty, and the logged blocks
    [bns], with contents [f], are pinned, distinct and outside the log, nobody uses the
    blocks of the log and one buffer is free. *)
Record committable : Prop := mkCommittable {
  cm_st : st d s u m l;
  cm_dev : dev l = d;
  cm_start : (0 <= start l)%Z;
  cm_hdr : header_ok (logheader l);
  cm_n : (0 < n (logheader l) <= Z.of_nat LOGSIZE)%Z;
  cm_bns : bns = take (Z.to_nat (n (logheader l))) (block_nums (logheader l));
  cm_clear : exists h, header_of (start l) m = Some h /\ n h = 0%Z;
  cm_nodup : NoDup bns;
  cm_home : forall b, b ∈ bns -> ~ in_log (start l) b;
  cm_pinned : pinned f u bns;
  cm_unused : forall b, in_log (start l) b -> u !! b = None;
  cm_disk : forall b, in_log (start l) b -> is_Some (m !! b);
  cm_size : base.size u < NBUF }.

Context (C : committable).
Let a := start l.

Lemma cm_length : length bns = Z.to_nat (n (logheader l)) /\ length bns <= LOGSIZE.
Proof using C.
  destruct C as [_ _ _ (_ & Hl & _) Hn -> _ _ _ _ _ _ _]. rewrite length_take. lia.
Qed.

Definition atomic (m' : gmap Z block) : Prop :=
  same_home a (recovered a m') m \/ same_home a (recovered a m') (installed f bns m).

Lemma committed_recovers m' :
  header_of a m' = Some (logheader l) ->
  (forall i b, bns !! i = Some b -> m' !! (a + Z.of_nat i + 1)%Z = Some (f b)) ->
  (forall y, ~ in_log a y -> y ∉ bns -> m' !! y = m !! y) ->
  same_home a (recovered a m') (installed f bns m).
Proof using C.
  intros Hh Hlog Hy. rewrite (recovered_committed f a m' (logheader l) bns); try done.
  - intros y Hn. rewrite !installed_lookup. destruct (decide (y ∈ bns)); [done|by apply Hy].
  - apply (cm_bns C).
  - apply cm_length.
  - apply (cm_home C).
Qed.

Lemma in_log_start : in_log a a.
Proof. unfold in_log. lia. Qed.
Lemma in_log_block i : i < LOGSIZE -> in_log a (a + Z.of_nat i + 1).
Proof. unfold in_log. lia. Qed.

Let m1 := logged f a bns 0 m.

Lemma m1_home y : ~ in_log a y -> m1 !! y = m !! y.
Proof using C.
  intros Hy. apply logged_other. pose proof cm_length. unfold in_log in Hy. lia.
Qed.

Lemma write_log_atomic j : atomic (logged f a (take (S j) bns) 0 m).
Proof using C.
  left. destruct (cm_clear C) as (h & Hh & Hn). rewrite (recovered_clear a _ h); [|unfold header_of|done].
  - intros y Hy. apply logged_other. pose proof cm_length. rewrite length_take. unfold in_log in Hy. lia.
  - rewrite logged_other by lia. exact Hh.
Qed.

Lemma header_written_atomic v j :
  from_buffer_block (logheader l) v = Done (logheader l) ->
  atomic (installed f (take j bns) (<[a := v]> m1)).
Proof using C.
  intros Hv. right.
  assert (Hin : forall y, in_log a y -> installed f (take j bns) (<[a := v]> m1) !! y = <[a := v]> m1 !! y).
  { intros y Hy. rewrite installed_lookup, decide_False; [done|]. intros Hb.
    apply (cm_home C y); [by eapply elem_take|done]. }
  apply committed_recovers.
  - apply (header_of_written _ _ _ v Hv); [apply (cm_hdr C)|].
    rewrite Hin by apply in_log_start. apply lookup_insert_eq.
  - intros i b Hi. pose proof cm_length. apply lookup_lt_Some in Hi as Hlt.
    rewrite Hin by (apply in_log_block; lia). rewrite lookup_insert_ne by lia. by apply (logged_lookup f a bns 0).
  - intros y Hy Hb. rewrite installed_lookup, decide_False by (intros ?; by eapply Hb, elem_take).
    rewrite lookup_insert_ne by (intros <-; by apply Hy, in_log_start). by apply m1_home.
Qed.

Let l0 := with_header (mkLH 0 (block_nums (logheader l))) l.

Lemma cleared_atomic v m3 :
  same_home a m3 (installed f bns m) -> from_buffer_block (logheader l0) v = Done (logheader l0) ->
  header_of a (<[a := v]> m3) = Some (logheader l0) /\ same_home a (<[a := v]> m3) (installed f bns m) /\
  atomic (<[a := v]> m3).
Proof using C.
  intros Hm Hv. assert (Hh : header_of a (<[a := v]> m3) = Some (logheader l0)).
  { apply (header_of_written _ _ _ v Hv); [apply (cm_hdr C)|]. apply lookup_insert_eq. }
  assert (Hs : same_home a (<[a := v]> m3) (installed f bns m)).
  { intros y Hy. rewrite lookup_insert_ne by (intros <-; by apply Hy, in_log_start). by apply Hm. }
  split_and!; [done|done|]. right. by rewrite (recovered_clear a _ (logheader l0)).
Qed.

Lemma unpin_all_spec : (forall y, y ∉ bns -> unpin_all bns u !! y = u !! y) /\ base.size (unpin_all bns u) < NBUF.
Proof using C.
  pose proof (cm_size C) as Hsz. clear C. revert u Hsz. unfold unpin_all.
  induction bns as [|b bs IH]; intros w Hw; [done|]. cbn [foldl].
  assert (H1 : (forall y, y <> b -> unpin_one w b !! y = w !! y) /\ base.size (unpin_one w b) < NBUF).
  { unfold unpin_one. destruct (w !! b) as [x|] eqn:Ex; [|done].
    split; [intros; by apply use_set_lookup_ne|]. eapply Nat.le_lt_trans; [by eapply use_set_size|done]. }
  destruct H1 as [H1 H2]. destruct (IH _ H2) as [H3 H4]. split; [|done].
  intros y [Hy1 Hy2]%not_elem_of_cons. rewrite H3 by done. by apply H1.
Qed.

Lemma commit_trip :
  trip atomic commit s (fun _ s' => exists m', st d s' (unpin_all bns u) m' l0 /\
    header_of a m' = Some (logheader l0) /\ same_home a m' (installed f bns m)).
Proof using C Hd.
  pose proof C as [Hs Hdev Hst Hok Hn Hbns Hclr Hnd Hhome Hpin Hun Hdisk Hsz]. pose proof cm_length as [Hlen Hlen'].
  assert (Hrng : forall i b, bns !! i = Some b -> block_nums (logheader l) !! i = Some b).
  { intros i b Hi. rewrite Hbns in Hi. by apply lookup_take_Some in Hi as [? _]. }
  unfold commit. eapply trip_gets; [done|]. destruct (Z.ltb_spec 0 (n (logheader l))); [|lia].
  eapply trip_bind.
  { unfold write_log. eapply trip_gets; [done|]. rewrite <- Hlen.
    eapply (trip_write_log d Hd atomic f bns s u m l 0); try done.
    - intros i Hi. apply Hdisk, in_log_block. lia.
    - intros i Hi. apply Hun, in_log_block. lia.
    - apply write_log_atomic. }
  intros [] s1 Hs1. destruct (Hdisk a in_log_start) as [v0 Hv0].
  eapply trip_bind.
  { eapply (trip_write_head d Hd atomic s1 u m1 l v0); try done.
    - unfold m1. rewrite logged_other by lia. done.
    - apply Hun, in_log_start.
    - intros v Hv. apply (header_written_atomic v 0 Hv). }
  intros [] s2 (v & Hv & Hvl & Hs2). fold a in Hs2.
  eapply trip_bind.
  { unfold install_trans. eapply trip_gets; [done|]. rewrite <- Hlen.
    eapply (trip_install d Hd atomic f bns s2 u _ l 0); try done.
    - intros i b Hi. split; [by apply Hrng|]. rewrite lookup_insert_ne by (unfold a; lia). by apply (logged_lookup f a bns 0).
    - intros i b Hi Hb ->. apply (Hhome _ Hb), in_log_block. lia.
    - intros i Hi. apply Hun, in_log_block. lia.
    - intros j. apply (header_written_atomic v (S j) Hv). }
  intros [] s3 Hs3. destruct unpin_all_spec as [Hu1 Hu2].
  assert (Hm3 : same_home a (installed f bns (<[a := v]> m1)) (installed f bns m)).
  { intros y Hy. rewrite !installed_lookup. destruct (decide (y ∈ bns)); [done|].
    rewrite lookup_insert_ne by (intros <-; by apply Hy, in_log_start). by apply m1_home. }
  eapply trip_bind; [by eapply trip_upd_log|]. intros [] s4 Hs4. fold l0 in Hs4.
  eapply trip_mono; [eapply (trip_write_head d Hd atomic s4 _ _ l0 v)|done|]; try done.
  - destruct Hok as (_ & ? & ?). done.
  - change (start l0) with a. rewrite installed_lookup, decide_False.
    + apply lookup_insert_eq.
    + intros Hb. by apply (Hhome _ Hb), in_log_start.
  - change (start l0) with a. rewrite Hu1; [apply Hun, in_log_start|]. intros Hb. by apply (Hhome _ Hb), in_log_start.
  - intros w Hw. by apply cleared_atomic.
  - intros [] s5 (w & Hw & _ & Hs5). eexists. split; [exact Hs5|].
    destruct (cleared_atomic w _ Hm3 Hw) as (H2 & H3 & _). done.
Qed.
End Commit.

(** ** Mounting *)

Section Mount.
Context `{Profile} `{ByteOrder} {D : Type} `{!BDev D} (d : Z) (Hd : d <> 0%Z).
Context (dk : D) (a nlog : Z) (h : LogHeader).
Let m : gmap Z block := blocks dk.
Let bns : list Z := take (Z.to_nat (n h)) (block_nums h).

(** A log that a crash may leave behind. *)
Record valid_log : Prop := mkValidLog {
  vl_start : (0 <= a)%Z;
  vl_header : header_of a m = Some h;
  vl_n : (n h < Z.of_nat NBUF)%Z;
  vl_nodup : NoDup bns;
  vl_home : forall b, b ∈ bns -> ~ in_log a b /\ is_Some (m !! b);
  vl_disk : forall b, in_log a b -> is_Some (m !! b) }.

Context (V : valid_log).

Definition log0 : LogInternal := mkLog a nlog 0 false d (mkLH 123456 (replicate LOGSIZE 123456%Z)).
Definition mounted0 : fsst (Traced D) := mkFS (mkBCache BufferCacheInternal_new (mkTr dk [])) log0.

(** The content of the log for block [b]. *)
Definition log_content (b : Z) : block :=
  match list_find (fun x => x = b) bns with Some (i, _) => default [] (m !! (a + Z.of_nat i + 1)%Z) | None => [] end.

Lemma vl_header_ok : header_ok h /\ exists v, m !! a = Some v /\ from_buffer_block header0 v = Done h.
Proof using V.
  pose proof (vl_header V) as Hh. unfold header_of in Hh. destruct (m !! a) as [v|] eqn:Ev; [|done].
  cbn [mbind option_bind] in Hh.
  destruct (from_buffer_total header0 v) as (h' & E & Hok); [done|by apply (blocks_len dk a)|].
  rewrite E in Hh. injection Hh as ->. split; [done|]. exists v. split; [done|]. exact E.
Qed.

Lemma vl_length : length bns = Z.to_nat (n h) /\ length bns < NBUF /\ length bns <= LOGSIZE.
Proof using V.
  destruct vl_header_ok as [([Hn _] & Hl & _) _]. pose proof (vl_n V). unfold bns. rewrite length_take.
  unfold LOGSIZE, MAXOPBLOCKS, NBUF in *. lia.
Qed.

Lemma log_content_ok i b : bns !! i = Some b ->
  block_nums h !! i = Some b /\ m !! (a + Z.of_nat i + 1)%Z = Some (log_content b).
Proof using V.
  intros Hi. pose proof vl_length as (_ & Hlt & HL). apply lookup_lt_Some in Hi as Hil. split.
  - unfold bns in Hi. by apply lookup_take_Some in Hi as [? _].
  - assert (E : list_find (fun x => x = b) bns = Some (i, b)).
    { apply list_find_Some. split; [done|]. split; [done|]. intros j y Hj Hji ->.
      pose proof (NoDup_lookup _ _ _ _ (vl_nodup V) Hj Hi). lia. }
    unfold log_content. rewrite E. destruct (vl_disk V (a + Z.of_nat i + 1)%Z) as [v Hv];
      [unfold in_log; lia|]. by rewrite Hv.
Qed.

Lemma mounted0_st : st d mounted0 ∅ m log0.
Proof. split; [apply new_rep|done|done]. Qed.

Definition same_recovery (m' : gmap Z block) : Prop := same_home a (recovered a m') (recovered a m).

Lemma recovered_mount : recovered a m = installed log_content bns m.
Proof using V.
  pose proof vl_length as (_ & _ & HL). apply (recovered_committed log_content a m h bns); try done.
  - apply (vl_header V).
  - intros i b Hi. by apply log_content_ok.
  - intros b Hb. by apply (vl_home V).
Qed.

(** Every state on the way of the recovery recovers to the same blocks. *)
Lemma installing_recovers j : same_recovery (installed log_content (take j bns) m).
Proof using V.
  assert (Hin : forall y, in_log a y -> installed log_content (take j bns) m !! y = m !! y).
  { intros y Hy. rewrite installed_lookup, decide_False; [done|]. intros Hb.
    by apply (vl_home V y); [eapply elem_take|]. }
  pose proof vl_length as (_ & _ & HL). unfold same_recovery. rewrite recovered_mount.
  rewrite (recovered_committed log_content a _ h bns); try done.
  - intros y Hy. rewrite !installed_lookup. destruct (decide (y ∈ bns)); [done|].
    rewrite decide_False; [done|]. intros ?. by eapply n0, elem_take.
  - unfold header_of. rewrite Hin by (unfold in_log; lia). apply (vl_header V).
  - intros i b Hi. apply lookup_lt_Some in Hi as Hil. rewrite Hin by (unfold in_log; lia). by apply log_content_ok.
  - intros b Hb. by apply (vl_home V).
Qed.

Let h0 : LogHeader := mkLH 0 (block_nums h).

Lemma cleared_recovers v :
  from_buffer_block h0 v = Done h0 ->
  let m' := <[a := v]> (installed log_content bns m) in
  header_of a m' = Some h0 /\ same_home a m' (recovered a m) /\ same_recovery m'.
Proof using V.
  intros Hv m'. destruct vl_header_ok as [(_ & Hl & _) _].
  assert (Hh : header_of a m' = Some h0) by (apply (header_of_written _ _ _ v Hv); [done|apply lookup_insert_eq]).
  assert (Hs : same_home a m' (recovered a m)).
  { intros y Hy. unfold m'. rewrite lookup_insert_ne by (intros <-; apply Hy; unfold in_log; lia).
    by rewrite recovered_mount. }
  split_and!; [done|done|]. unfold same_recovery. by rewrite (recovered_clear a m' h0).
Qed.

Lemma mount_read_head Q : trip Q read_head mounted0 (fun _ s' => st d s' ∅ m (with_header h log0)).
Proof using V Hd.
  destruct vl_header_ok as [_ (v & Hv & Hdec)].
  eapply (trip_read_head d Hd Q mounted0 ∅ m log0 v h); try done; [apply mounted0_st|].
  rewrite map_size_empty. unfold NBUF. lia.
Qed.

Lemma mount_install s1 : overflow_checks = false \/ n h = 0%Z -> st d s1 ∅ m (with_header h log0) ->
  trip same_recovery install_trans s1 (fun _ s' => exists u', st d s' u' (installed log_content bns m) (with_header h log0) /\
    u' !! a = None /\ base.size u' < NBUF).
Proof using V Hd.
  intros Hov Hs1. pose proof vl_length as (Hlen & Hlt & HL). unfold install_trans. eapply trip_gets; [done|].
  cbn [logheader with_header]. rewrite <- Hlen. destruct Hov as [Hov|Hn].
  - eapply trip_mono; [eapply (trip_recover d Hd same_recovery log_content bns s1 ∅ m (with_header h log0) 0)|done|]; try done.
    + apply (vl_start V).
    + apply (vl_nodup V).
    + intros i b Hi. by apply log_content_ok.
    + intros i b Hi Hb ->. apply (vl_home V _ Hb). unfold in_log. cbn [start with_header log0]. lia.
    + intros b Hb. split; [by apply (vl_home V)|done].
    + intros j. apply installing_recovers.
    + intros [] s2 (u' & Hs2 & Hu' & Hsz). exists u'. split; [done|]. split.
      * rewrite Hu'; [done|]. intros Hb. apply (vl_home V _ Hb). unfold in_log. lia.
      * change (base.size ∅) with 0 in Hsz. lia.
  - assert (E : bns = []) by (unfold bns; by rewrite Hn). rewrite E. apply trip_ret. exists ∅.
    split; [done|]. split; [done|]. rewrite map_size_empty. unfold NBUF. lia.
Qed.

Lemma mount_trip : overflow_checks = false \/ n h = 0%Z ->
  trip same_recovery recover_from_log mounted0 (fun _ s' => exists u' m',
    st d s' u' m' (with_header h0 log0) /\ header_of a m' = Some h0 /\ same_home a m' (recovered a m)).
Proof using V Hd.
  intros Hov. unfold recover_from_log. eapply trip_bind; [apply mount_read_head|]. intros [] s1 Hs1.
  eapply trip_bind; [by apply mount_install|]. intros [] s2 (u' & Hs2 & Hu' & Hsz).
  eapply trip_bind; [by eapply trip_upd_log|]. intros [] s3 Hs3. destruct vl_header_ok as [(_ & Hl & Hw) (v & Hv & _)].
  eapply trip_mono; [eapply (trip_write_head d Hd same_recovery s3 u' _ (with_header h0 log0) v)|done|]; try done.
  - cbn [start with_header log0]. rewrite installed_lookup, decide_False; [done|].
    intros Hb. apply (vl_home V _ Hb). unfold in_log. lia.
  - intros w Hw'. by apply cleared_recovers.
  - intros [] s4 (w & Hw' & _ & Hs4). exists u'. eexists. split; [exact Hs4|].
    destruct (cleared_recovers w Hw') as (? & ? & _). done.
Qed.

Lemma mount_panics : overflow_checks = true -> (0 < n h)%Z -> recover_from_log mounted0 = Panic.
Proof using V Hd.
  intros Hov Hn. destruct (mount_read_head (fun _ => True)) as ([] & s1 & new & Hr & _ & _ & Hs1).
  unfold recover_from_log. mstep Hr. pose proof vl_length as (Hlen & Hlt & HL).
  assert (Hb : exists b bs, bns = b :: bs) by (destruct bns as [|b bs]; [simpl in Hlen; lia|eauto]).
  destruct Hb as (b & bs & Eb). assert (Hb0 : bns !! 0 = Some b) by (by rewrite Eb).
  destruct (log_content_ok 0 b Hb0) as [Hnum Hc]. destruct (vl_home V b) as [Hnl [vb Hvb]]; [rewrite Eb; left|].
  assert (Hi : install_trans s1 = Panic); [|unfold mbind at 1, M_bind at 1; by rewrite Hi].
  unfold install_trans. rewrite bind_gets. rewrite (st_log _ _ _ _ _ Hs1). cbn [logheader with_header].
  rewrite <- Hlen, Eb. cbn [length for_range].
  pose proof (recover_block d Hd (fun _ => True) s1 ∅ m (with_header h log0) 0 b (log_content b) vb) as Hrb.
  cbn [start with_header log0 logheader dev] in Hrb. rewrite Hov in Hrb. unfold mbind at 1, M_bind at 1.
  rewrite Hrb; try done; [apply (vl_start V)| |change (base.size ∅) with 0; unfold NBUF; lia].
  intros <-. apply Hnl. unfold in_log. cbn. lia.
Qed.
End Mount.

(** ** Transactions *)

Lemma bind_upd_log {D B} (f : LogInternal -> LogInternal) (k : unit -> M (fsst D) B) s :
  (upd_log f ≫= k) s = k tt (mkFS (bcache s) (f (log s))).
Proof. done. Qed.

(** Computations that leave the log record alone. *)
Section KeepsLog.
Context `{Profile} `{ByteOrder} {D : Type} `{!BDev D}.

Definition keeps_log {A} (m : M (fsst D) A) : Prop := forall s a s', m s = Done (a, s') -> log s' = log s.

Lemma klog_ret {A} (a : A) : keeps_log (mret a).
Proof. by intros s b s' [= _ <-]. Qed.
Lemma klog_gets {A} (f : fsst D -> A) : keeps_log (gets f).
Proof. by intros s b s' [= _ <-]. Qed.
Lemma klog_lift {A} (o : outcome A) : keeps_log (lift o).
Proof. intros s b s'. destruct o; [|done|done]. by intros [= _ <-]. Qed.
Lemma klog_on_bc {A} (m : M (BufferCache D) A) : keeps_log (on_bc m).
Proof. intros s b s'. unfold on_bc. destruct (m (bcache s)) as [[? ?]| |]; [|done|done]. by intros [= _ <-]. Qed.
Lemma klog_locked g g' : keeps_log (both_locked g g').
Proof. intros s b s'. unfold both_locked. case_match; [done|]. by intros [= _ <-]. Qed.
Lemma klog_bind {A B} (m : M (fsst D) A) (k : A -> M (fsst D) B) :
  keeps_log m -> (forall a, keeps_log (k a)) -> keeps_log (m ≫= k).
Proof. intros Hm Hk s b s' E. minv E. rewrite (Hk _ _ _ _ E). by eapply Hm. Qed.
Lemma klog_for tail k body : (forall i, keeps_log (body i)) -> keeps_log (for_range tail k body).
Proof. intros Hb. revert tail. induction k; intros tail; [apply klog_ret|]. by apply klog_bind. Qed.
End KeepsLog.

Create HintDb klog discriminated.
#[export] Hint Resolve klog_ret klog_gets klog_lift klog_on_bc klog_locked klog_bind klog_for : klog.

Section Transactions.
Context `{Profile} `{ByteOrder} {D : Type} `{!BDev D}.
Implicit Types (s : fsst D) (used : list nat).

Lemma klog_log_block t : keeps_log (D := D) (log_block t).
Proof. unfold log_block. auto with klog. Qed.
Lemma klog_install : keeps_log (D := D) install_trans.
Proof.
  unfold install_trans, install_block, install_copy. apply klog_bind; [auto with klog|]. intros l. apply klog_for.
  intros i. apply klog_bind; [|intros [? ?]; auto 10 with klog].
  repeat (apply klog_bind; [by auto using klog_log_block with klog|intros ?]). auto with klog.
Qed.
Lemma klog_write_log : keeps_log (D := D) write_log.
Proof.
  unfold write_log, write_log_block. apply klog_bind; [auto with klog|]. intros l. apply klog_for. intros i.
  repeat (apply klog_bind; [by auto using klog_log_block with klog|intros ?]). auto with klog.
Qed.
Lemma klog_write_head : keeps_log (D := D) write_head.
Proof. unfold write_head. repeat (apply klog_bind; [by auto with klog|intros ?]). auto with klog. Qed.

(** [commit] empties the log. *)
Lemma commit_log s s' : (0 <= n (logheader (log s)))%Z -> commit s = Done (tt, s') ->
  log s' = with_header (mkLH 0 (block_nums (logheader (log s)))) (log s).
Proof.
  intros Hn. unfold commit. rewrite bind_gets. destruct (Z.ltb_spec 0 (n (logheader (log s)))).
  - intros E. minv E. minv E. minv E. minv E.
    apply klog_write_log in E0. apply klog_write_head in E1. apply klog_install in E2. apply klog_write_head in E.
    injection E3 as <- <-. rewrite E. cbn [log]. by rewrite E2, E1, E0.
  - intros [= <-]. replace 0%Z with (n (logheader (log s))) by lia. by destruct (log s) as [? ? ? ? ? []].
Qed.

(** The states of the log that the file system reaches; [used] has, for each running
    transaction, how many blocks it has written.  The cache may change between the steps. *)
Inductive tx : fsst D -> list nat -> Prop :=
  | tx_mounted s : outstanding (log s) = 0%Z -> committing (log s) = false -> n (logheader (log s)) = 0%Z ->
      length (block_nums (logheader (log s))) = LOGSIZE -> tx s []
  | tx_begin s used s' : tx s used -> try_begin_op s = Done (true, s') -> tx s' (0 :: used)
  | tx_write s used i k g s' : tx s used -> used !! i = Some k -> k < MAXOPBLOCKS ->
      log_write g s = Done (tt, s') -> tx s' (<[i := S k]> used)
  | tx_end s used i s' : tx s used -> i < length used -> end_op s = Done (tt, s') -> tx s' (delete i used)
  | tx_cache s used c : tx s used -> tx (mkFS c (log s)) used.

Definition reserved (used : list nat) : nat := sum_list ((fun k => MAXOPBLOCKS - k) <$> used).

Lemma reserved_cons k used : reserved (k :: used) = MAXOPBLOCKS - k + reserved used.
Proof. done. Qed.

Lemma reserved_insert used i k : used !! i = Some k -> k < MAXOPBLOCKS ->
  S (reserved (<[i := S k]> used)) = reserved used.
Proof.
  revert i. induction used as [|x used IH]; intros [|i] Hi Hk; [done|done| |].
  - injection Hi as ->. change (<[0 := S k]> (k :: used)) with (S k :: used). rewrite !reserved_cons. lia.
  - change (<[S i := S k]> (x :: used)) with (x :: <[i := S k]> used). rewrite !reserved_cons.
    rewrite <- (IH i) by done. lia.
Qed.

Lemma reserved_delete used i : reserved (delete i used) <= reserved used.
Proof.
  revert i. induction used as [|x used IH]; intros [|i]; [done|done| |].
  - change (delete 0 (x :: used)) with used. rewrite reserved_cons. lia.
  - change (delete (S i) (x :: used)) with (x :: delete i used). rewrite !reserved_cons. specialize (IH i). lia.
Qed.

Lemma reserved_lookup used i k : used !! i = Some k -> MAXOPBLOCKS - k <= reserved used.
Proof.
  revert i. induction used as [|x used IH]; intros [|i] Hi; [done|done| |]; rewrite reserved_cons.
  - injection Hi as ->. lia.
  - specialize (IH i Hi). lia.
Qed.

Lemma reserved_max used : reserved used <= MAXOPBLOCKS * length used.
Proof. induction used as [|x used IH]; [done|]. rewrite reserved_cons. cbn [length]. lia. Qed.

Record txinv (l : LogInternal) (used : list nat) : Prop := mkTx {
  tx_out : outstanding l = Z.of_nat (length used);
  tx_comm : committing l = false;
  tx_n : (0 <= n (logheader l))%Z;
  tx_nums : length (block_nums (logheader l)) = LOGSIZE;
  tx_room : (n (logheader l) + Z.of_nat (reserved used) <= Z.of_nat LOGSIZE)%Z;
  tx_max : length used <= 3 }.

Lemma try_begin_op_spec s used : txinv (log s) used ->
  exists b s', try_begin_op s = Done (b, s') /\ bcache s' = bcache s /\
    if b then txinv (log s') (0 :: used) else s' = s.
Proof.
  intros [H1 H2 H3 H4 H5 H6]. unfold try_begin_op. rewrite bind_gets, H2, H1. unfold uadd, umul.
  unfold LOGSIZE, MAXOPBLOCKS in *. rewrite (checked_ok 32 (Z.of_nat (length used) + 1)) by (unfold in_width; lia).
  rewrite bind_lift, checked_ok, bind_lift, checked_ok, bind_lift by (unfold in_width; lia).
  destruct (Z.ltb_spec (Z.of_nat (10 * 3)) (n (logheader (log s)) + (Z.of_nat (length used) + 1) * Z.of_nat 10)).
  - by exists false, s.
  - exists true. rewrite bind_lift. eexists. split; [reflexivity|]. split; [done|].
    cbn [log]. split; cbn [with_outstanding outstanding committing logheader length]; try done; [lia| |lia].
    rewrite reserved_cons. pose proof (reserved_max used). unfold LOGSIZE, MAXOPBLOCKS in *. lia.
Qed.

(** [log_write] in a transaction that has blocks left: the block is put behind the
    logged ones, and counted and pinned unless it is among them. *)
Definition logged_header (h : LogHeader) (b : Z) : LogHeader :=
  let nums := <[Z.to_nat (n h) := b]> (block_nums h) in
  mkLH (if decide (b ∈ take (Z.to_nat (n h)) (block_nums h)) then n h else n h + 1)%Z nums.

Lemma log_write_eq s g :
  (0 <= n (logheader (log s)) < Z.of_nat LOGSIZE)%Z -> length (block_nums (logheader (log s))) = LOGSIZE ->
  (1 <= outstanding (log s))%Z ->
  log_write g s =
    let h := logheader (log s) in
    let l' := with_header (logged_header h (g_block_number g)) (log s) in
    if decide (g_block_number g ∈ take (Z.to_nat (n h)) (block_nums h)) then Done (tt, mkFS (bcache s) l')
    else match guard_pin g (bcache s) with Done (_, c) => Done (tt, mkFS c l') | Panic => Panic | Hang => Hang end.
Proof.
  intros Hn Hl Ho. unfold log_write, logged_header.
  rewrite bind_gets, (proj2 (Z.ltb_lt _ _) (proj2 Hn)), bind_mret, bind_assert.
  rewrite (proj2 (Z.leb_le _ _) Ho), bind_assert.
  destruct (lookup_lt_is_Some_2 (block_nums (logheader (log s))) (Z.to_nat (n (logheader (log s))))) as [w Hw];
    [lia|]. rewrite (index_Some _ _ _ Hw), bind_lift. rewrite bind_upd_log.
  rewrite take_insert_ge by lia. cbv zeta. case_decide; [done|].
  unfold mbind at 1, M_bind at 1, on_bc at 1. cbn [bcache log].
  destruct (guard_pin g (bcache s)) as [[[] c]| |]; [|done|done].
  unfold uadd. rewrite checked_ok, bind_lift by (unfold in_width, LOGSIZE, MAXOPBLOCKS in *; lia). done.
Qed.

Lemma log_write_inv s used i k g s' :
  txinv (log s) used -> used !! i = Some k -> k < MAXOPBLOCKS -> log_write g s = Done (tt, s') ->
  txinv (log s') (<[i := S k]> used).
Proof.
  intros [H1 H2 H3 H4 H5 H6] Hi Hk. pose proof (reserved_lookup used i k Hi) as Hr.
  pose proof (reserved_insert used i k Hi Hk) as Hri. apply lookup_lt_Some in Hi as Hil.
  rewrite log_write_eq by (done || lia). cbv zeta. intros E.
  assert (El : log s' = with_header (logged_header (logheader (log s)) (g_block_number g)) (log s)).
  { case_decide; [by injection E as <-|]. destruct (guard_pin g (bcache s)) as [[? ?]| |]; [|done|done].
    by injection E as <-. }
  rewrite El. unfold logged_header. split; cbn [with_header outstanding committing logheader n block_nums];
    rewrite ?length_insert; try done; case_decide; lia.
Qed.

Lemma end_op_log s used i s' :
  txinv (log s) used -> i < length used -> end_op s = Done (tt, s') -> txinv (log s') (delete i used).
Proof.
  intros [H1 H2 H3 H4 H5 H6] Hi. pose proof (reserved_delete used i) as Hr.
  assert (Hl : length (delete i used) = length used - 1) by (apply length_delete; by apply lookup_lt_is_Some_2).
  unfold end_op. rewrite bind_gets. unfold usub. rewrite checked_ok, bind_lift by (unfold in_width; lia).
  rewrite bind_upd_log, H2. cbn [negb]. rewrite bind_assert.
  destruct (Z.eqb_spec (outstanding (log s) - 1) 0) as [E0|Hne].
  - intros E. rewrite bind_upd_log in E. minv E. destruct a.
    apply commit_log in E1; [|done]. injection E as <-. cbn [log]. rewrite E1. cbn [log].
    split; cbn; try done; [lia| |lia].
    assert (delete i used = []) as -> by (apply nil_length_inv; lia). done.
  - intros [= <-]. cbn [log].
    split; cbn [with_outstanding outstanding committing logheader]; try done; lia.
Qed.

Lemma tx_inv s used : tx s used -> txinv (log s) used.
Proof.
  induction 1 as [s E1 E2 E3 E4|s used s' Ht IH E|s used i k g s' Ht IH Hi Hk E|s used i s' Ht IH Hi E|s used c Ht IH].
  - split; try done; [by rewrite E3|rewrite E3; done|simpl; lia].
  - destruct (try_begin_op_spec s used IH) as (b & s1 & E1 & _ & Hb). rewrite E in E1. by injection E1 as <- <-.
  - by eapply log_write_inv.
  - by eapply end_op_log.
  - done.
Qed.
End Transactions.

(** ** The properties of the log *)

Section Theorems.
Context `{Profile} `{ByteOrder} {D : Type} `{!BDev D}.

(** C3: committing is atomic and durable.  [commit] of a transaction whose blocks are
    pinned returns; whenever the machine stops on the way, between any two block
    writes, replaying the log of the disk found gives, outside the log, either every
    block of before or every block of the transaction.  At the end all blocks are at
    their home locations, the log on disk is empty and the buffers are unpinned. *)
Theorem commit_crash_safe d (s : fsst (Traced D)) u m l f bns :
  d <> 0%Z -> committable d s u m l f bns ->
  exists s' new, commit s = Done (tt, s') /\ hist s' = new ++ hist s /\
    Forall (fun m' => same_home (start l) (recovered (start l) m') m \/
      same_home (start l) (recovered (start l) m') (installed f bns m)) new /\
    exists m' h', st d s' (unpin_all bns u) m' (with_header h' l) /\ n h' = 0%Z /\
      header_of (start l) m' = Some h' /\ same_home (start l) m' (installed f bns m).
Proof.
  intros Hd C. destruct (commit_trip d Hd s u m l f bns C) as ([] & s' & new & Hr & Hh & HQ & m' & Hs & Hhd & Hm).
  exists s', new. split_and!; [done..|]. by exists m', (mkLH 0 (block_nums (logheader l))).
Qed.

(** C9: mounting a log with blocks in it ([n] below the number of buffers).  With an
    empty log, or when arithmetic overflow is not checked, [LogInternal::new] replays
    the log: afterwards the disk holds, outside the log, the replayed blocks and the
    log is empty, and a crash anywhere during recovery loses nothing.  With overflow checks
    on, it panics on every log that holds a block, because it unpins buffers that it never pinned. *)
Theorem mount_recovers d (dk : D) a nlog h :
  d <> 0%Z -> valid_log dk a h ->
  match LogInternal_new d a nlog (mkBCache BufferCacheInternal_new (mkTr dk [])) with
  | Done s => (overflow_checks = false \/ n h = 0%Z) /\
      Forall (fun m' => same_home a (recovered a m') (recovered a (blocks dk))) (hist s) /\
      n (logheader (log s)) = 0%Z /\ header_of a (blocks (bdev (bcache s))) = Some (logheader (log s)) /\
      same_home a (blocks (bdev (bcache s))) (recovered a (blocks dk))
  | Panic => overflow_checks = true /\ (0 < n h)%Z
  | Hang => False
  end.
Proof.
  intros Hd V. unfold LogInternal_new. fold (log0 d a nlog). fold (mounted0 d dk a nlog).
  destruct (vl_header_ok dk a h V) as [([Hn _] & _ & _) _].
  assert (Hc : (overflow_checks = false \/ n h = 0%Z) \/ (overflow_checks = true /\ (0 < n h)%Z)).
  { destruct overflow_checks; [|by left; left].
    destruct (decide (n h = 0%Z)); [by left; right|right; split; [done|lia]]. }
  destruct Hc as [Hov|[Hov Hp]]; [|by rewrite (mount_panics d Hd dk a nlog h V Hov Hp)].
  destruct (mount_trip d Hd dk a nlog h V Hov) as (? & s & new & Hr & Hh & HQ & u' & m' & Hs & Hhd & Hm).
  rewrite Hr. rewrite app_nil_r in Hh. rewrite Hh. destruct Hs as [_ Hdk Hl]. rewrite Hdk, Hl. done.
Qed.

(** The log never overflows.  In every interleaving of transactions that begin,
    write at most [MAXOPBLOCKS] blocks each and end, at most three run at a time, at most
    [LOGSIZE] blocks are logged, [try_begin_op] returns, and a transaction that has
    written fewer blocks than it may can write one more. *)
Theorem log_reservation (s : fsst D) used :
  tx s used ->
  (n (logheader (log s)) <= Z.of_nat LOGSIZE)%Z /\ length used <= 3 /\ (exists b s', try_begin_op s = Done (b, s')) /\
  forall i k g c, used !! i = Some k -> k < MAXOPBLOCKS -> guard_pin g (bcache s) = Done (tt, c) ->
    exists s', log_write g s = Done (tt, s').
Proof.
  intros Ht%tx_inv. pose proof Ht as [H1 H2 H3 H4 H5 H6]. split_and!; [lia|done| |].
  - destruct (try_begin_op_spec s used Ht) as (b & s' & E & _). eauto.
  - intros i k g c Hi Hk Hp. pose proof (reserved_lookup used i k Hi) as Hr. apply lookup_lt_Some in Hi.
    rewrite log_write_eq by (done || lia). cbv zeta. rewrite Hp. case_decide; eauto.
Qed.

(** The log header survives the trip to its block: packing a header into any
    block and unpacking it gives the header back. *)
Theorem header_roundtrip h h0 buffer :
  header_ok h -> length (block_nums h0) = LOGSIZE -> length buffer = BSIZE ->
  exists b, to_buffer_block h buffer = Done b /\ length b = BSIZE /\ from_buffer_block h0 b = Done h.
Proof. apply header_codec. Qed.
End Theorems.

(** ** Instances *)

Lemma le_value_bound (l : list Z) :
  (0 <= foldr (fun b acc => b mod 256 + 256 * acc) 0 l < 256 ^ Z.of_nat (length l))%Z.
Proof.
  induction l as [|b l IH]; [done|]. cbn [foldr length]. rewrite Nat2Z.inj_succ, Z.pow_succ_r by lia.
  pose proof (Z.mod_pos_bound b 256). lia.
Qed.

(** Little-endian words. *)
#[export] Instance LittleEndian : ByteOrder.
Proof.
  refine {|
    read_u32 l := foldr (fun b acc => b mod 256 + 256 * acc)%Z 0%Z (take 4 l);
    write_u32 x := [x mod 256; x / 256 mod 256; x / 65536 mod 256; x / 16777216 mod 256]%Z |}.
  - done.
  - intros x [H1 H2]. cbn [take foldr]. rewrite !Zmod_mod.
    replace (x / 16777216)%Z with (x / 256 / 256 / 256)%Z by (rewrite !Zdiv_Zdiv by lia; done).
    replace (x / 65536)%Z with (x / 256 / 256)%Z by (rewrite !Zdiv_Zdiv by lia; done).
    pose proof (Z.div_mod x 256). pose proof (Z.div_mod (x / 256) 256). pose proof (Z.div_mod (x / 256 / 256) 256).
    rewrite (Z.mod_small (x / 256 / 256 / 256)); [lia|]. rewrite !Zdiv_Zdiv by lia.
    split; [by apply Z.div_pos|]. apply Z.div_lt_upper_bound; lia.
  - intros l. destruct (le_value_bound (take 4 l)) as [H1 H2]. split; [done|].
    eapply Z.lt_le_trans; [exact H2|]. change (2 ^ 32)%Z with (256 ^ 4)%Z. apply Z.pow_le_mono_r; [done|].
    rewrite length_take. lia.
Defined.

(** A disk of [k] zero blocks. *)
Definition zero_disk (k : nat) : MemBDev := mkMem (replicate (k * BSIZE) 0%Z).

Lemma zero_disk_lookup k b : (0 <= b < Z.of_nat k)%Z -> (Z.of_nat k < 2 ^ 29)%Z ->
  blocks (zero_disk k) !! b = Some (replicate BSIZE 0%Z).
Proof.
  intros Hb Hk. cbn [blocks MemBDev_BDev]. apply mem_blocks_lookup. exists (Z.to_nat b).
  unfold zero_disk, mem_block. cbn [memdisk]. rewrite length_replicate.
  assert (Z.to_nat b * BSIZE + BSIZE <= k * BSIZE) by (unfold BSIZE; lia).
  split_and!; [lia| |done|lia]. rewrite drop_replicate, take_replicate. f_equal. lia.
Qed.

Lemma zero_header k a : (0 <= a < Z.of_nat k)%Z -> (Z.of_nat k < 2 ^ 29)%Z ->
  header_of a (blocks (zero_disk k)) = Some header0.
Proof.
  intros Ha Hk. unfold header_of. rewrite zero_disk_lookup by done. cbn [mbind option_bind].
  assert (E : from_buffer_block header0 (replicate BSIZE 0%Z) = Done header0) by (vm_compute; reflexivity).
  by rewrite E.
Qed.

(** A transaction on block 35 of a disk with its log at blocks 2 to 32. *)
Definition ex_log : LogInternal :=
  mkLog 2 30 0 false 1 (mkLH 1 (35%Z :: replicate 29 0%Z)).

Lemma ex_committable `{Profile} : exists (s : fsst (Traced MemBDev)) u,
  committable 1 s u (blocks (zero_disk 40)) ex_log (fun _ => replicate BSIZE 7%Z) [35%Z].
Proof.
  set (dk := mkTr (zero_disk 40) []).
  assert (Hz : forall b, (0 <= b < 40)%Z -> blocks dk !! b = Some (replicate BSIZE 0%Z))
    by (intros; apply zero_disk_lookup; lia).
  destruct (read_spec (D := Traced MemBDev) 1 ltac:(done) (mkBCache BufferCacheInternal_new dk) ∅ 35 (replicate BSIZE 0%Z))
    as (i & c1 & _ & Hd1 & R1 & _); [apply new_rep|by apply Hz|done|by rewrite map_size_empty; unfold NBUF; lia|].
  change (read_use ∅ 35 (replicate BSIZE 0%Z) i) with (mkUse i 1 (replicate BSIZE 0%Z)) in R1.
  destruct (guard_set_spec (D := Traced MemBDev) 1 ltac:(done) c1 _ (mkGuard 1 35 i) 35 (mkUse i 1 (replicate BSIZE 0%Z)) (replicate BSIZE 7%Z) R1)
    as (c2 & _ & Hd2 & R2); [split; [by rewrite lookup_insert_eq|done]|by rewrite length_replicate|].
  rewrite insert_insert_eq in R2. exists (mkFS c2 ex_log). eexists. split.
  - split; [exact R2| |reflexivity]. cbn [bcache]. rewrite Hd2, Hd1. reflexivity.
  - reflexivity.
  - cbn. lia.
  - split; [done|]. split; [done|]. repeat (constructor; [done|]). constructor.
  - done.
  - done.
  - exists header0. split; [by apply zero_header|done].
  - apply NoDup_singleton.
  - intros b ->%list_elem_of_singleton. unfold in_log. cbn. lia.
  - intros b ->%list_elem_of_singleton. eexists. rewrite lookup_insert_eq. done.
  - intros b Hb. unfold in_log in Hb. cbn in Hb. rewrite lookup_insert_ne by lia. done.
  - intros b Hb. unfold in_log in Hb. cbn in Hb. rewrite zero_disk_lookup by lia. done.
  - rewrite insert_empty, map_size_singleton. unfold NBUF. lia.
Qed.

Lemma commit_crash_safe_witness :
  exists (s s' : fsst (Traced MemBDev)) u, committable 1 s u (blocks (zero_disk 40)) ex_log (fun _ => replicate BSIZE 7%Z) [35%Z] /\
    commit (H := true) s = Done (tt, s') /\ blocks (bdev (bcache s')) !! 35%Z = Some (replicate BSIZE 7%Z).
Proof.
  destruct (ex_committable (H := true)) as (s & u & C).
  destruct (commit_crash_safe (H := true) 1 s u _ _ _ _ ltac:(discriminate) C) as (s' & new & Hr & _ & _ & m' & h' & Hs & _ & _ & Hm).
  exists s, s', u. split; [exact C|]. split; [exact Hr|].
  rewrite (st_disk _ _ _ _ _ Hs), (Hm 35%Z) by (unfold in_log; cbn; lia). rewrite installed_lookup.
  rewrite decide_True by apply list_elem_of_singleton, eq_refl. reflexivity.
Defined.

(** A disk whose log at block 2 holds block 35. *)
Definition committed_disk : MemBDev :=
  mkMem (replicate (2 * BSIZE) 0%Z ++ [1; 0; 0; 0; 35; 0; 0; 0]%Z ++ replicate (38 * BSIZE - 8) 0%Z).
Definition committed_header : LogHeader := mkLH 1 (35%Z :: replicate 29 0%Z).

Lemma committed_disk_lookup b : (0 <= b < 40)%Z ->
  blocks committed_disk !! b = Some (mem_block committed_disk (Z.to_nat b)).
Proof.
  intros Hb. cbn [blocks MemBDev_BDev]. apply mem_blocks_lookup. exists (Z.to_nat b).
  split_and!; [lia|reflexivity| |lia]. unfold committed_disk. cbn [memdisk].
  rewrite !length_app, !length_replicate. cbn [length]. unfold BSIZE. lia.
Qed.

Lemma committed_valid : valid_log committed_disk 2 committed_header.
Proof.
  assert (Hb : take (Z.to_nat (n committed_header)) (block_nums committed_header) = [35%Z]) by reflexivity.
  split.
  - lia.
  - unfold header_of. rewrite committed_disk_lookup by lia. cbn [mbind option_bind]. vm_compute. reflexivity.
  - reflexivity.
  - rewrite Hb. apply NoDup_singleton.
  - rewrite Hb. intros b ->%list_elem_of_singleton. rewrite committed_disk_lookup by lia.
    split; [unfold in_log; cbn; lia|eauto].
  - intros b Hlog. unfold in_log in Hlog. cbn in Hlog. rewrite committed_disk_lookup by lia. eauto.
Qed.

Lemma mount_recovers_witness :
  exists s, LogInternal_new (H := false) 1 2 30 (mkBCache BufferCacheInternal_new (mkTr committed_disk [])) = Done s /\
    n (logheader (log s)) = 0%Z /\ same_home 2 (blocks (bdev (bcache s))) (recovered 2 (blocks committed_disk)).
Proof.
  pose proof (mount_recovers (H := false) 1 committed_disk 2 30 committed_header ltac:(discriminate) committed_valid) as Hm.
  destruct (LogInternal_new 1 2 30 _) as [s| |].
  - exists s. destruct Hm as (_ & _ & Hn & _ & Hs). exact (conj eq_refl (conj Hn Hs)).
  - destruct Hm as [Hm _]. discriminate Hm.
  - destruct Hm.
Defined.

Definition ex_mounted : fsst MemBDev :=
  mkFS (mkBCache BufferCacheInternal_new (zero_disk 1)) (mkLog 2 30 0 false 1 header0).

Lemma log_reservation_witness :
  exists s, try_begin_op (H := true) ex_mounted = Done (true, s) /\ tx (H := true) s [0] /\
    (n (logheader (log s)) <= Z.of_nat LOGSIZE)%Z.
Proof.
  destruct (try_begin_op (H := true) ex_mounted) as [[[] s]| |] eqn:E; [|discriminate E..].
  assert (Ht : tx (H := true) s [0]).
  { apply (tx_begin (H := true) ex_mounted [] s); [|exact E]. apply tx_mounted; reflexivity. }
  exists s. split; [reflexivity|]. split; [exact Ht|]. exact (proj1 (log_reservation (H := true) s [0] Ht)).
Defined.

Lemma header_roundtrip_witness :
  exists b, to_buffer_block committed_header (replicate BSIZE 0%Z) = Done b /\
    from_buffer_block header0 b = Done committed_header.
Proof.
  destruct (header_roundtrip committed_header header0 (replicate BSIZE 0%Z)) as (b & H1 & _ & H2).
  - split; [done|]. split; [done|]. repeat (constructor; [done|]). constructor.
  - reflexivity.
  - apply length_replicate.
  - exists b. exact (conj H1 H2).
Defined.
