(* ===== verification/IndexMap.v ===== *)
(** * The hash tables of the key-value store
    (lib/external/sashstore/src/indexmap/{mod,hash}.rs, cindexmap/{mod,hash}.rs)

    Two open-addressing tables with linear probing, [Index] and [CIndex], and the
    flat table of fixed-size pairs inside [Index] ([insert_simple], [get_simple]),
    with the FNV hash they use.  The build has the features c-style-insert and
    aligned-mem and not grow, so a full table panics.

    [Index] and [CIndex] run the same probing loops on different hash functions; the
    loops are defined once for a bucket table and a hash value.  A [RefCell] around a
    pair is its content: the operations here never keep a borrow. *)

From Stdlib Require Import ZArith Lia.
From stdpp Require Import base gmap list.
From stdpp Require Import options.
From S2P Require Import Prelude.

Set Default Proof Using "Type".

(** ** FNV *)

Definition FNV_OFFSET : Z := 0xcbf29ce484222325.
Definition FNV_PRIME : Z := 0x100000001b3.

Definition fnv_step (state byte : Z) : Z := Z.lxor (wrap 64 (state * FNV_PRIME)) byte.

(** [fnv_3]: the bytes of a slice. *)
Definition fnv_3 (value : list Z) : Z := foldl fnv_step FNV_OFFSET value.

(** [fnv_2]: the first [num_bytes] bytes of the memory [image] of a value. *)
Definition fnv_2 (image : list Z) (num_bytes : nat) : Z := foldl fnv_step FNV_OFFSET (take num_bytes image).

(** [fnv]: all the bytes of a value. *)
Definition fnv (image : list Z) : Z := foldl fnv_step FNV_OFFSET image.

(** ** Tables of buckets *)

Definition DEFAULT_INITIAL_CAPACITY : nat := 1.

Section Table.
Context {K V : Type} `{EqDecision K}.

(** [Option<(K, V)>] *)
Definition Bucket : Type := option (K * V).

Record Index := mkIndex { capacity : nat; len : nat; table : list Bucket }.

Definition with_table (t : list Bucket) (x : Index) : Index := mkIndex (capacity x) (len x) t.

Definition init_table (capacity : nat) : list Bucket := replicate capacity None.

Definition with_capacity (cap : nat) : Index :=
  let cap := if cap =? 0 then DEFAULT_INITIAL_CAPACITY else cap in
  mkIndex cap 0 (init_table cap).

Definition clear (x : Index) : Index := mkIndex (capacity x) 0 ((fun _ => None) <$> table x).

Section Probing.
Context `{Profile}.

(** [(hash + i) & (self.capacity - 1)] *)
Definition probe_at (hash : Z) (i cap : nat) : outcome nat :=
  p ← uadd 64 hash (Z.of_nat i);
  c ← usub 64 (Z.of_nat cap) 1;
  Done (Z.to_nat (Z.land p c)).

Fixpoint insert_loop (hash : Z) (rest i : nat) (key : K) (value : V) (x : Index) : outcome Index :=
  match rest with
  | O => Panic
  | S rest =>
      probe ← probe_at hash i (capacity x);
      b ← index (table x) probe;
      match b with
      | Some (k, _) =>
          if decide (k = key) then Done (with_table (<[probe := Some (key, value)]> (table x)) x)
          else insert_loop hash rest (S i) key value x
      | None => Done (with_table (<[probe := Some (key, value)]> (table x)) x)
      end
  end.

Fixpoint get_loop (hash : Z) (rest i : nat) (key : K) (x : Index) : outcome (option V) :=
  match rest with
  | O => Done None
  | S rest =>
      probe ← probe_at hash i (capacity x);
      b ← index (table x) probe;
      match b with
      | Some (k, v) => if decide (k = key) then Done (Some v) else get_loop hash rest (S i) key x
      | None => Done None
      end
  end.

(** [insert] returns [Bucket::None] in every case. *)
Definition insert_hashed (hash : Z) (key : K) (value : V) (x : Index) : outcome Index :=
  insert_loop hash (capacity x) 0 key value x.
Definition get_hashed (hash : Z) (key : K) (x : Index) : outcome (option V) :=
  get_loop hash (capacity x) 0 key x.

(** [find], with the quadratic probing of [params.probe]. *)
Definition default_probing (hash : Z) (i : nat) : outcome Z :=
  p ← uadd 64 hash (Z.of_nat i); q ← umul 64 (Z.of_nat i) (Z.of_nat i); uadd 64 p q.

Definition is_power_of_two (n : nat) : bool := (n =? 2 ^ Nat.log2 n).

Fixpoint find_loop (hash : Z) (rest i : nat) (key : K) (x : Index) : outcome (option (K * V) * option nat) :=
  match rest with
  | O => Done (None, None)
  | S rest =>
      p ← default_probing hash i;
      let probe := if is_power_of_two (capacity x) then Z.to_nat (Z.land p (Z.of_nat (capacity x) - 1))
                   else Z.to_nat (p mod Z.of_nat (capacity x)) in
      b ← index (table x) probe;
      match b with
      | Some (k, v) => if decide (k = key) then Done (Some (k, v), Some probe) else find_loop hash rest (S i) key x
      | None => Done (None, Some probe)
      end
  end.
Definition find_hashed (hash : Z) (key : K) (x : Index) := find_loop hash (capacity x) 0 key x.
End Probing.
End Table.
Arguments Bucket : clear implicits.
Arguments Index : clear implicits.

(** ** [Index] and [CIndex]

    The hash functions read the memory of the key they are given byte by byte, so a key comes
    with its memory: two equal keys may have different bytes where the type has padding or
    unused capacity. *)

Record Key (K : Type) := mkKey { key : K; mem : list Z }.
Arguments mkKey {K} key mem.
Arguments key {K} k.
Arguments mem {K} k.

Section Maps.
Context `{Profile} {K V : Type} `{EqDecision K}.

Definition KEY_SIZE : nat := 8.
Definition VALUE_SIZE : nat := 8.

Definition Index_insert (k : Key K) (value : V) (x : Index K V) : outcome (Bucket K V * Index K V) :=
  x ← insert_hashed (fnv_2 (mem k) KEY_SIZE) (key k) value x; Done (None, x).
Definition Index_get (k : Key K) (x : Index K V) : outcome (option V) :=
  get_hashed (fnv_2 (mem k) KEY_SIZE) (key k) x.

(** [get_mut] hashes the first word of the key and goes through [find]. *)
Definition Index_get_mut (k : Key K) (x : Index K V) : outcome (option V) :=
  match find_hashed (fnv (take 8 (mem k))) (key k) x with
  | Done (Some (_, v), _) => Done (Some v)
  | Done (None, _) => Done None
  | Panic => Panic
  | Hang => Hang
  end.

Definition CIndex_insert (k : Key K) (value : V) (x : Index K V) : outcome (Bucket K V * Index K V) :=
  x ← insert_hashed (fnv (mem k)) (key k) value x; Done (None, x).
Definition CIndex_get (k : Key K) (x : Index K V) : outcome (option V) :=
  get_hashed (fnv (mem k)) (key k) x.
End Maps.

(** ** The flat table *)

Record KVPair := mkKV { kv_key : list Z; kv_val : list Z }.
Definition empty_key : KVPair := mkKV (replicate KEY_SIZE 0%Z) (replicate VALUE_SIZE 0%Z).

Definition init_ntable (capacity : nat) : list KVPair := replicate capacity empty_key.

Section Simple.
Context `{Profile}.

(** [key.try_into().expect(..)] on a slice. *)
Definition to_array (size : nat) (l : list Z) : outcome (list Z) := if length l =? size then Done l else Panic.

Fixpoint insert_simple_loop (cap : nat) (hash : Z) (rest i : nat) (key value : list Z) (nt : list KVPair)
    : outcome (bool * list KVPair) :=
  match rest with
  | O => Done (false, nt)
  | S rest =>
      probe ← probe_at hash i cap;
      elem ← index nt probe;
      key_vec ← to_array KEY_SIZE key;
      if decide (kv_key elem = key_vec \/ kv_key elem = kv_key empty_key) then
        val ← to_array VALUE_SIZE value;
        Done (true, <[probe := mkKV key_vec val]> nt)
      else insert_simple_loop cap hash rest (S i) key value nt
  end.

Fixpoint get_simple_loop (cap : nat) (hash : Z) (rest i : nat) (key : list Z) (nt : list KVPair) : outcome (bool * KVPair) :=
  match rest with
  | O => Done (false, empty_key)
  | S rest =>
      probe ← probe_at hash i cap;
      elem ← index nt probe;
      if decide (kv_key elem = kv_key empty_key) then Done (false, empty_key)
      else if decide (kv_key elem = key) then Done (true, elem)
      else get_simple_loop cap hash rest (S i) key nt
  end.

Definition insert_simple (cap : nat) (key value : list Z) (nt : list KVPair) : outcome (bool * list KVPair) :=
  insert_simple_loop cap (fnv_3 key) cap 0 key value nt.
Definition get_simple (cap : nat) (key : list Z) (nt : list KVPair) : outcome (bool * KVPair) :=
  get_simple_loop cap (fnv_3 key) cap 0 key nt.
End Simple.

(** ** Operations, and the finite map that the tables implement *)

Inductive kv_op (K V : Type) : Type := OInsert (k : K) (v : V) | OGet (k : K).
Arguments OInsert {K V} k v.
Arguments OGet {K V} k.

Definition op_key {K V} (o : kv_op K V) : K := match o with OInsert k _ => k | OGet k => k end.

(** What a call returns: the bucket of an insertion, the value of a lookup. *)
Inductive answer (K V : Type) : Type := Inserted (b : Bucket K V) | Looked (v : option V).
Arguments Inserted {K V} b.
Arguments Looked {K V} v.

Section Steps.
Context `{Profile} {K V : Type} `{Countable K}.

Definition index_step (o : kv_op (Key K) V) (x : Index K V) : outcome (answer K V * Index K V) :=
  match o with
  | OInsert k v => r ← Index_insert k v x; Done (Inserted (fst r), snd r)
  | OGet k => v ← Index_get k x; Done (Looked v, x)
  end.

Definition cindex_step (o : kv_op (Key K) V) (x : Index K V) : outcome (answer K V * Index K V) :=
  match o with
  | OInsert k v => r ← CIndex_insert k v x; Done (Inserted (fst r), snd r)
  | OGet k => v ← CIndex_get k x; Done (Looked v, x)
  end.

(** A map of at most [cap] keys; a new key in a full map is an error, and an insertion does
    not return what it replaces. *)
Definition map_step (cap : nat) (o : kv_op (Key K) V) (m : gmap K V) : outcome (answer K V * gmap K V) :=
  match o with
  | OInsert k v => if decide (m !! key k = None /\ cap <= size m) then Panic else Done (Inserted None, <[key k := v]> m)
  | OGet k => Done (Looked (m !! key k), m)
  end.
End Steps.

(** The flat table answers instead of panicking: whether the pair was stored, or the
    pair found. *)
Definition flat_step `{Profile} (cap : nat) (o : kv_op (list Z) (list Z)) (nt : list KVPair)
    : outcome ((bool * list Z) * list KVPair) :=
  match o with
  | OInsert k v => r ← insert_simple cap k v nt; Done ((fst r, []), snd r)
  | OGet k => r ← get_simple cap k nt; Done ((fst r, kv_val (snd r)), nt)
  end.

Definition flat_map_step (cap : nat) (o : kv_op (list Z) (list Z)) (m : gmap (list Z) (list Z))
    : outcome ((bool * list Z) * gmap (list Z) (list Z)) :=
  match o with
  | OInsert k v => if decide (m !! k = None /\ cap <= size m) then Done ((false, []), m)
                   else Done ((true, []), <[k := v]> m)
  | OGet k => Done (match m !! k with Some v => (true, v) | None => (false, kv_val empty_key) end, m)
  end.

(** ** The hash fits its width *)

Definition is_byte (b : Z) : Prop := in_width 8 b.

Lemma lxor_width w a b : (0 < w)%Z -> in_width w a -> in_width w b -> in_width w (Z.lxor a b).
Proof.
  intros Hw [Ha Ha'] [Hb Hb']. assert (0 <= Z.lxor a b)%Z by (apply Z.lxor_nonneg; lia). split; [done|].
  destruct (decide (Z.lxor a b = 0)%Z) as [->|]; [lia|]. apply Z.log2_lt_pow2; [lia|].
  pose proof (Z.log2_lxor a b Ha Hb). 
  assert (Z.log2 a < w)%Z by (destruct (decide (a = 0)%Z) as [->|]; [cbn; lia|apply Z.log2_lt_pow2; lia]).
  assert (Z.log2 b < w)%Z by (destruct (decide (b = 0)%Z) as [->|]; [cbn; lia|apply Z.log2_lt_pow2; lia]).
  lia.
Qed.

Lemma fnv_fold_width l h : in_width 64 h -> Forall is_byte l -> in_width 64 (foldl fnv_step h l).
Proof.
  revert h. induction l as [|b l IH]; intros h Hh Hl; [done|]. apply Forall_cons_1 in Hl as [Hb Hl]. cbn [foldl].
  apply IH; [|done]. apply lxor_width; [lia| |].
  - unfold wrap, in_width. apply Z.mod_pos_bound. lia.
  - destruct Hb. split; [done|]. lia.
Qed.

Lemma fnv_width l : Forall is_byte l -> in_width 64 (fnv l).
Proof. apply fnv_fold_width. unfold in_width, FNV_OFFSET. lia. Qed.

Lemma fnv_2_width l n : Forall is_byte l -> in_width 64 (fnv_2 l n).
Proof. intros Hl. apply (fnv_width (take n l)). by apply Forall_take. Qed.

Lemma list_to_set_size `{Countable K} (l : list K) : size (list_to_set l : gset K) <= length l.
Proof.
  induction l as [|k l IH]; [done|]. simpl. rewrite size_union_alt, size_singleton.
  pose proof (subseteq_size ((list_to_set l : gset K) ∖ {[k]}) (list_to_set l) ltac:(set_solver)). lia.
Qed.

Lemma omap_cons_eq {A B} (f : A -> option B) a l :
  omap f (a :: l) = match f a with Some b => b :: omap f l | None => omap f l end.
Proof. done. Qed.

Lemma omap_length_le {A B} (f : A -> option B) l : length (omap f l) <= length l.
Proof. induction l as [|a l IH]; [done|]. rewrite omap_cons_eq. destruct (f a); cbn [length]; lia. Qed.

Lemma omap_length_lt {A B} (f : A -> option B) l (p : nat) a :
  l !! p = Some a -> f a = None -> length (omap f l) < length l.
Proof.
  revert p. induction l as [|b l IH]; intros [|p] Hp Hf; [done|done| |]; rewrite omap_cons_eq.
  - injection Hp as ->. rewrite Hf. pose proof (omap_length_le f l). cbn [length]. lia.
  - specialize (IH p Hp Hf). destruct (f b); cbn [length]; lia.
Qed.

(** ** Linear probing

    The argument is the same for both tables: [slots] of any kind, [key_of] the key a
    slot holds, [hash] the hash function, [2 ^ j] slots. *)

Section Linear.
Context {S K : Type} `{EqDecision K} (key_of : S -> option K) (hash : K -> Z) (j : nat).
Implicit Types (slots : list S) (k : K).

Definition pos (k : K) (i : nat) : nat := Z.to_nat ((hash k + Z.of_nat i) mod 2 ^ Z.of_nat j).

(** The first slot on the way of [k] that is empty or holds [k]. *)
Fixpoint scan (slots : list S) (k : K) (rest i : nat) : option nat :=
  match rest with
  | O => None
  | Datatypes.S rest =>
      match key_of <$> slots !! pos k i with
      | Some None => Some (pos k i)
      | Some (Some k') => if decide (k' = k) then Some (pos k i) else scan slots k rest (Datatypes.S i)
      | None => None
      end
  end.

(** Every key is where a scan for it ends. *)
Definition placed (slots : list S) : Prop :=
  forall p s k, slots !! p = Some s -> key_of s = Some k -> scan slots k (2 ^ j) 0 = Some p.

Lemma pos_lt k i : pos k i < 2 ^ j.
Proof.
  unfold pos. pose proof (Z.mod_pos_bound (hash k + Z.of_nat i) (2 ^ Z.of_nat j) ltac:(lia)).
  apply Nat2Z.inj_lt. rewrite Nat2Z.inj_pow. lia.
Qed.

(** The probe sequence meets every slot. *)
Lemma pos_surj k p : p < 2 ^ j -> exists i, i < 2 ^ j /\ pos k i = p.
Proof.
  intros Hp. apply Nat2Z.inj_lt in Hp. rewrite Nat2Z.inj_pow in Hp. set (N := (2 ^ Z.of_nat j)%Z) in *.
  change (Z.of_nat 2 ^ Z.of_nat j)%Z with N in Hp.
  assert (0 < N)%Z by (unfold N; lia). exists (Z.to_nat ((Z.of_nat p - hash k) mod N)).
  pose proof (Z.mod_pos_bound (Z.of_nat p - hash k) N ltac:(lia)). split.
  - apply Nat2Z.inj_lt. rewrite Nat2Z.inj_pow. change (Z.of_nat 2 ^ Z.of_nat j)%Z with N. lia.
  - unfold pos. fold N. rewrite Z2Nat.id by lia. rewrite Zplus_mod_idemp_r.
    replace (hash k + (Z.of_nat p - hash k))%Z with (Z.of_nat p) by lia. rewrite Z.mod_small by lia. lia.
Qed.

Lemma scan_Some slots k rest i p :
  scan slots k rest i = Some p -> exists s, slots !! p = Some s /\ (key_of s = None \/ key_of s = Some k).
Proof.
  revert i. induction rest as [|rest IH]; intros i; [done|]. cbn [scan].
  destruct (slots !! pos k i) as [s|] eqn:E; [|done]. cbn [fmap option_fmap option_map].
  destruct (key_of s) as [k'|] eqn:Ek; [|intros [= <-]; eauto].
  destruct (decide (k' = k)) as [->|]; [intros [= <-]; eauto|]. apply IH.
Qed.

(** A scan that finds nothing has met no empty slot and no [k]. *)
Lemma scan_None slots k rest i :
  length slots = 2 ^ j -> scan slots k rest i = None ->
  forall i', i <= i' < i + rest -> exists s k', slots !! pos k i' = Some s /\ key_of s = Some k' /\ k' <> k.
Proof.
  intros Hlen. revert i. induction rest as [|rest IH]; intros i Hs i' Hi'; [lia|]. cbn [scan] in Hs.
  destruct (lookup_lt_is_Some_2 slots (pos k i)) as [s Es]; [rewrite Hlen; apply pos_lt|].
  rewrite Es in Hs. cbn [fmap option_fmap option_map] in Hs.
  destruct (key_of s) as [k'|] eqn:Ek; [|done]. destruct (decide (k' = k)) as [->|Hne]; [done|].
  destruct (decide (i' = i)) as [->|]; [eauto|]. apply (IH (Datatypes.S i)); [done|lia].
Qed.

Lemma scan_None_full slots k :
  length slots = 2 ^ j -> scan slots k (2 ^ j) 0 = None ->
  forall s, s ∈ slots -> exists k', key_of s = Some k' /\ k' <> k.
Proof.
  intros Hlen Hs s (p & Hp)%list_elem_of_lookup. apply lookup_lt_Some in Hp as Hlt. rewrite Hlen in Hlt.
  destruct (pos_surj k p Hlt) as (i & Hi & Ei).
  destruct (scan_None slots k _ _ Hlen Hs i) as (s' & k' & H1 & H2 & H3); [lia|]. rewrite Ei, Hp in H1. simplify_eq. eauto.
Qed.

(** Filling a slot with [k]: a scan for [k], or one that did not end there, is as before. *)
Lemma scan_insert slots k k0 p s s0 rest i :
  slots !! p = Some s0 -> (key_of s0 = None \/ key_of s0 = Some k) -> key_of s = Some k ->
  k0 = k \/ scan slots k0 rest i <> Some p -> scan (<[p := s]> slots) k0 rest i = scan slots k0 rest i.
Proof.
  intros Hp Hs0 Hs. revert i. induction rest as [|rest IH]; intros i Hk; [done|].
  cbn [scan] in *. specialize (IH (Datatypes.S i)). destruct (decide (p = pos k0 i)) as [->|Hne].
  - rewrite list_lookup_insert_eq by (by eapply lookup_lt_Some). rewrite Hp in *. cbn [fmap option_fmap option_map] in *.
    rewrite Hs. destruct (decide (k0 = k)) as [->|Hk0].
    + rewrite decide_True by done. destruct Hs0 as [-> | ->]; [done|]. by rewrite decide_True.
    + destruct Hk as [?|Hk]; [done|]. rewrite (decide_False (P := k = k0)) by congruence.
      destruct Hs0 as [E | E]; rewrite E in Hk |- *; [done|].
      rewrite (decide_False (P := k = k0)) in Hk |- * by congruence. apply IH. by right.
  - rewrite list_lookup_insert_ne by done. destruct (slots !! pos k0 i) as [t|]; [|done].
    cbn [fmap option_fmap option_map] in *. destruct (key_of t) as [k'|]; [|done].
    destruct (decide (k' = k0)); [done|]. by apply IH.
Qed.

Lemma placed_insert slots k p s :
  placed slots -> scan slots k (2 ^ j) 0 = Some p -> key_of s = Some k -> placed (<[p := s]> slots).
Proof.
  intros Hpl Hsc Hs p' s' k' Hp' Hk'. destruct (scan_Some _ _ _ _ _ Hsc) as (s0 & Hs0 & Hk0).
  destruct (decide (p' = p)) as [->|Hne].
  - rewrite list_lookup_insert_eq in Hp' by (by eapply lookup_lt_Some). injection Hp' as <-.
    assert (k' = k) as -> by congruence. by rewrite (scan_insert slots k k p s s0) by auto.
  - rewrite list_lookup_insert_ne in Hp' by done. pose proof (Hpl p' s' k' Hp' Hk') as Hsc'.
    rewrite (scan_insert slots k k' p s s0); [done|done|done|done|]. right. congruence.
Qed.

(** ** The table as a map *)

Context {V : Type} `{Countable K} (val_of : S -> option V).
Context (Hval : forall s k, key_of s = Some k -> is_Some (val_of s)).

Record trep (slots : list S) (m : gmap K V) : Prop := mkTrep {
  t_len : length slots = 2 ^ j;
  t_placed : placed slots;
  t_map : forall k v, m !! k = Some v <->
    exists p s, slots !! p = Some s /\ key_of s = Some k /\ val_of s = Some v }.

Lemma full_size slots m (k0 : K) :
  trep slots m -> (forall s, s ∈ slots -> exists k, key_of s = Some k) -> 2 ^ j <= size m.
Proof using Hval.
  intros [Hlen Hpl Hm] Hall. set (ks := (fun s => default k0 (key_of s)) <$> slots).
  assert (Hlk : forall p k, ks !! p = Some k -> exists s, slots !! p = Some s /\ key_of s = Some k).
  { intros p k Hp. unfold ks in Hp. rewrite list_lookup_fmap in Hp. destruct (slots !! p) as [s|] eqn:Es; [|done].
    destruct (Hall s) as [k' Hk']; [by eapply list_elem_of_lookup_2|]. simpl in Hp. rewrite Hk' in Hp.
    injection Hp as <-. eauto. }
  assert (Hnd : NoDup ks).
  { apply NoDup_alt. intros p p' k Hp Hp'. destruct (Hlk p k Hp) as (s & Hs & Hk).
    destruct (Hlk p' k Hp') as (s' & Hs' & Hk').
    pose proof (Hpl p s k Hs Hk). pose proof (Hpl p' s' k Hs' Hk'). congruence. }
  assert (Hsub : (list_to_set ks : gset K) ⊆ dom m).
  { intros k (p & Hp)%elem_of_list_to_set%list_elem_of_lookup. destruct (Hlk p k Hp) as (s & Hs & Hk).
    apply elem_of_dom. destruct (Hval s k Hk) as [v Hv]. exists v. apply Hm. eauto. }
  apply subseteq_size in Hsub. rewrite size_list_to_set, size_dom in Hsub by done.
  unfold ks in Hsub. rewrite length_fmap in Hsub. lia.
Qed.

Lemma empty_size slots m p s : trep slots m -> slots !! p = Some s -> key_of s = None -> size m < 2 ^ j.
Proof.
  intros [Hlen Hpl Hm] Hp Hs. rewrite <- size_dom.
  assert (Hsub : dom m ⊆ (list_to_set (omap key_of slots) : gset K)).
  { intros k [v Hv]%elem_of_dom. apply Hm in Hv as (p' & s' & Hp' & Hk' & _).
    apply elem_of_list_to_set, list_elem_of_omap. exists s'. split; [by eapply list_elem_of_lookup_2|done]. }
  apply subseteq_size in Hsub. pose proof (list_to_set_size (omap key_of slots)).
  pose proof (omap_length_lt key_of slots p s Hp Hs). lia.
Qed.

(** What a scan says about the map. *)
Lemma trep_scan slots m k :
  trep slots m ->
  match scan slots k (2 ^ j) 0 with
  | Some p => exists s, slots !! p = Some s /\
      match m !! k with Some v => key_of s = Some k /\ val_of s = Some v | None => key_of s = None end
  | None => m !! k = None /\ 2 ^ j <= size m
  end.
Proof using Hval.
  intros [Hlen Hpl Hm]. destruct (scan slots k (2 ^ j) 0) as [p|] eqn:Hsc.
  - destruct (scan_Some _ _ _ _ _ Hsc) as (s & Hs & Hk). exists s. split; [done|].
    destruct (m !! k) as [v|] eqn:Ev.
    + apply Hm in Ev as (p' & s' & Hp' & Hk' & Hv). pose proof (Hpl p' s' k Hp' Hk'). simplify_eq. done.
    + destruct Hk as [?|Hk]; [done|]. exfalso.
      destruct (Hval s k Hk) as [v Hv]. assert (m !! k = Some v) by (apply Hm; eauto). congruence.
  - pose proof (scan_None_full slots k Hlen Hsc) as Hall. split.
    + apply eq_None_not_Some. intros [v Hv]. apply Hm in Hv as (p & s & Hp & Hk & _).
      destruct (Hall s) as (k' & Hk' & Hne); [by eapply list_elem_of_lookup_2|]. congruence.
    + apply (full_size slots m k); [done|]. intros s Hs. destruct (Hall s Hs) as (k' & -> & _). eauto.
Qed.

(** Putting [k] where its scan ends. *)
Lemma trep_insert slots m k p s v :
  trep slots m -> scan slots k (2 ^ j) 0 = Some p -> key_of s = Some k -> val_of s = Some v ->
  trep (<[p := s]> slots) (<[k := v]> m).
Proof using Hval.
  intros R Hsc Hk Hv0. pose proof (trep_scan slots m k R) as Hsp. rewrite Hsc in Hsp. destruct Hsp as (s0 & Hs0 & Hm0).
  destruct R as [Hlen Hpl Hm]. split.
  - by rewrite length_insert.
  - by eapply placed_insert.
  - intros k' v'. destruct (decide (k' = k)) as [->|Hne].
    + rewrite lookup_insert_eq. split.
      * intros [= <-]. exists p, s. by rewrite list_lookup_insert_eq by (by eapply lookup_lt_Some).
      * intros (p' & s' & Hp' & Hk' & Hv'). destruct (decide (p' = p)) as [->|Hnp].
        -- rewrite list_lookup_insert_eq in Hp' by (by eapply lookup_lt_Some). congruence.
        -- rewrite list_lookup_insert_ne in Hp' by done. pose proof (Hpl p' s' k Hp' Hk'). congruence.
    + rewrite lookup_insert_ne, Hm by done. split; intros (p' & s' & Hp' & Hk' & Hv); exists p', s'.
      * rewrite list_lookup_insert_ne; [done|]. intros ->. rewrite Hs0 in Hp'. injection Hp' as <-.
        destruct (m !! k); naive_solver.
      * destruct (decide (p' = p)) as [->|]; [|by rewrite list_lookup_insert_ne in Hp'].
        rewrite list_lookup_insert_eq in Hp' by (by eapply lookup_lt_Some). congruence.
Qed.
End Linear.

(** ** The loops are scans *)

Section Loops.
Context `{Profile}.

(** Additions to the hash stay in range or wrap around. *)
Definition no_overflow (h : Z) (cap : nat) : Prop := overflow_checks = false \/ (h + Z.of_nat cap <= 2 ^ 64)%Z.
Definition hash_ok (h : Z) (cap : nat) : Prop := in_width 64 h /\ no_overflow h cap.

Lemma probe_at_pos h j i :
  hash_ok h (2 ^ j) -> j < 64 -> i < 2 ^ j ->
  probe_at h i (2 ^ j) = Done (Z.to_nat ((h + Z.of_nat i) mod 2 ^ Z.of_nat j)).
Proof.
  intros [Hh Hov] Hj Hi. unfold probe_at. pose proof (Nat2Z.inj_pow 2 j) as Ep. change (Z.of_nat 2) with 2%Z in Ep.
  assert (Hpj : (0 < 2 ^ Z.of_nat j <= 2 ^ 63)%Z) by (split; [lia|apply Z.pow_le_mono_r; lia]).
  assert (Hadd : exists q, uadd 64 h (Z.of_nat i) = Done q /\ (q mod 2 ^ Z.of_nat j = (h + Z.of_nat i) mod 2 ^ Z.of_nat j)%Z).
  { unfold uadd. destruct (decide (h + Z.of_nat i < 2 ^ 64)%Z) as [Hlt|Hge].
    - rewrite checked_ok by (unfold in_width in *; lia). eauto.
    - destruct Hov as [Hov|Hov]; [|lia]. unfold checked. rewrite Hov.
      destruct (Z.ltb_spec (h + Z.of_nat i) (2 ^ 64)); [lia|]. rewrite andb_false_r. eexists. split; [done|].
      unfold wrap. rewrite Z.mod_mod_divide; [done|].
      exists (2 ^ (64 - Z.of_nat j))%Z. rewrite <- Z.pow_add_r by lia. f_equal. lia. }
  destruct Hadd as (q & -> & Hq). cbn [mbind outcome_bind]. unfold usub.
  rewrite checked_ok by (unfold in_width; lia). cbn [mbind outcome_bind]. do 2 f_equal. rewrite <- Hq.
  rewrite Ep. rewrite <- Z.land_ones by lia. f_equal. rewrite Z.ones_equiv. lia.
Qed.

Section Buckets.
Context {K V : Type} `{Countable K} (hash : K -> Z) (j : nat) (Hj : j < 64).

Definition bucket_key (b : Bucket K V) : option K := fst <$> b.
Definition bucket_val (b : Bucket K V) : option V := snd <$> b.

Lemma insert_loop_scan (x : Index K V) key value rest i :
  capacity x = 2 ^ j -> length (table x) = 2 ^ j -> i + rest <= 2 ^ j -> hash_ok (hash key) (2 ^ j) ->
  insert_loop (hash key) rest i key value x =
    match scan bucket_key hash j (table x) key rest i with
    | Some p => Done (with_table (<[p := Some (key, value)]> (table x)) x)
    | None => Panic
    end.
Proof using Hj.
  intros Hc Hl. revert i. induction rest as [|rest IH]; intros i Hi Hov; [done|]. cbn [insert_loop scan].
  rewrite Hc, probe_at_pos by (done || lia). cbn [mbind outcome_bind]. fold (pos hash j key i).
  destruct (lookup_lt_is_Some_2 (table x) (pos hash j key i)) as [b Hb]; [rewrite Hl; apply pos_lt|].
  rewrite (index_Some _ _ _ Hb), Hb. cbn [mbind outcome_bind fmap option_fmap option_map]. unfold bucket_key at 1.
  destruct b as [[k v]|]; [|done]. cbn. destruct (decide (k = key)); [done|]. apply IH; [lia|done].
Qed.

Lemma get_loop_scan (x : Index K V) key rest i :
  capacity x = 2 ^ j -> length (table x) = 2 ^ j -> i + rest <= 2 ^ j -> hash_ok (hash key) (2 ^ j) ->
  get_loop (hash key) rest i key x =
    Done (p ← scan bucket_key hash j (table x) key rest i; b ← table x !! p; bucket_val b).
Proof using Hj.
  intros Hc Hl. revert i. induction rest as [|rest IH]; intros i Hi Hov; [done|]. cbn [get_loop scan].
  rewrite Hc, probe_at_pos by (done || lia). cbn [mbind outcome_bind]. fold (pos hash j key i).
  destruct (lookup_lt_is_Some_2 (table x) (pos hash j key i)) as [b Hb]; [rewrite Hl; apply pos_lt|].
  rewrite (index_Some _ _ _ Hb), Hb. cbn [mbind outcome_bind fmap option_fmap option_map]. unfold bucket_key at 1.
  destruct b as [[k v]|]; cbn [fmap option_fmap option_map fst mbind option_bind]; [|by rewrite Hb].
  destruct (decide (k = key)); [cbn [mbind option_bind]; by rewrite Hb|]. apply IH; [lia|done].
Qed.

(** A table with [2 ^ j] buckets holds the map [m]. *)
Lemma bucket_val_some b k : bucket_key b = Some k -> is_Some (bucket_val b).
Proof. destruct b as [[? ?]|]; [|done]. intros _. by eexists. Qed.

Definition irep (x : Index K V) (m : gmap K V) : Prop :=
  capacity x = 2 ^ j /\ trep bucket_key hash j bucket_val (table x) m.

Lemma get_hashed_spec x m k : irep x m -> hash_ok (hash k) (2 ^ j) -> get_hashed (hash k) k x = Done (m !! k).
Proof using Hj.
  intros [Hc R] Hov. unfold get_hashed. rewrite Hc, get_loop_scan; [|done|by apply t_len in R|lia|done]. f_equal.
  pose proof (trep_scan bucket_key hash j bucket_val bucket_val_some _ _ k R) as Hs.
  destruct (scan _ _ _ _ _ _ _) as [p|].
  - destruct Hs as (b & Hb & Hm). cbn [mbind option_bind]. rewrite Hb. cbn [mbind option_bind].
    destruct (m !! k) as [v|]; [by destruct Hm as [_ Hv]|by destruct b as [[? ?]|]].
  - by destruct Hs as [-> _].
Qed.

Lemma insert_hashed_spec x m k v : irep x m -> hash_ok (hash k) (2 ^ j) ->
  if decide (m !! k = None /\ 2 ^ j <= size m) then insert_hashed (hash k) k v x = Panic
  else exists x', insert_hashed (hash k) k v x = Done x' /\ irep x' (<[k := v]> m).
Proof using Hj.
  intros [Hc R] Hov. unfold insert_hashed. rewrite Hc, insert_loop_scan; [|done|by apply t_len in R|lia|done].
  pose proof (trep_scan bucket_key hash j bucket_val bucket_val_some _ _ k R) as Hs.
  destruct (scan _ _ _ _ _ _ _) as [p|] eqn:Hsc.
  - rewrite decide_False.
    + eexists. split; [done|]. split; [done|].
      apply (trep_insert bucket_key hash j bucket_val bucket_val_some _ _ k p (Some (k, v))); done.
    + intros [Hn Hsz]. destruct Hs as (b & Hb & Hm). rewrite Hn in Hm.
      pose proof (empty_size bucket_key hash j bucket_val _ _ p b R Hb Hm). lia.
  - by rewrite decide_True.
Qed.
Lemma init_trep : trep bucket_key hash j bucket_val (init_table (2 ^ j)) (∅ : gmap K V).
Proof.
  split.
  - apply length_replicate.
  - intros p b k Hp. apply lookup_replicate in Hp as [-> _]. done.
  - intros k v. rewrite lookup_empty. split; [done|]. intros (p & b & Hp & Hk & _).
    apply lookup_replicate in Hp as [-> _]. done.
Qed.

Lemma with_capacity_irep : irep (with_capacity (2 ^ j)) ∅.
Proof.
  unfold with_capacity. destruct (Nat.eqb_spec (2 ^ j) 0) as [E|_]; [by apply Nat.pow_nonzero in E|].
  split; [done|apply init_trep].
Qed.
End Buckets.

(** ** The flat table *)

Section Flat.
Context (j : nat) (Hj : j < 64).

Definition zeros : list Z := kv_key empty_key.
Definition pair_key (e : KVPair) : option (list Z) := if decide (kv_key e = zeros) then None else Some (kv_key e).
Definition pair_val (e : KVPair) : option (list Z) := Some (kv_val e).

Definition value_ok (o : kv_op (list Z) (list Z)) : Prop :=
  match o with OInsert _ v => length v = VALUE_SIZE | OGet _ => True end.

(** The table stores keys of eight bytes other than zero, and values of eight bytes. *)
Definition flat_ok (o : kv_op (list Z) (list Z)) : Prop :=
  let k := op_key o in
  length k = KEY_SIZE /\ k <> zeros /\ hash_ok (fnv_3 k) (2 ^ j) /\
  value_ok o.

Lemma insert_simple_scan key value nt rest i :
  length nt = 2 ^ j -> i + rest <= 2 ^ j -> hash_ok (fnv_3 key) (2 ^ j) ->
  length key = KEY_SIZE -> length value = VALUE_SIZE ->
  insert_simple_loop (2 ^ j) (fnv_3 key) rest i key value nt =
    Done match scan pair_key fnv_3 j nt key rest i with
    | Some p => (true, <[p := mkKV key value]> nt)
    | None => (false, nt)
    end.
Proof using Hj.
  intros Hl. revert i. induction rest as [|rest IH]; intros i Hi Hh Hk Hv; [done|]. cbn [insert_simple_loop scan].
  rewrite probe_at_pos by (done || lia). cbn [mbind outcome_bind]. fold (pos fnv_3 j key i).
  destruct (lookup_lt_is_Some_2 nt (pos fnv_3 j key i)) as [e He]; [rewrite Hl; apply pos_lt|].
  rewrite (index_Some _ _ _ He), He. unfold to_array. rewrite Hk, Hv, !Nat.eqb_refl.
  cbn [mbind outcome_bind fmap option_fmap option_map]. unfold pair_key at 1.
  change (kv_key empty_key) with zeros. destruct (decide (kv_key e = zeros)) as [Hz|Hz].
  - rewrite decide_True by auto. done.
  - destruct (decide (kv_key e = key)) as [Hek|Hek].
    + rewrite decide_True by auto. done.
    + rewrite decide_False by tauto. apply IH; (lia || done).
Qed.

Lemma get_simple_scan key nt rest i :
  length nt = 2 ^ j -> i + rest <= 2 ^ j -> hash_ok (fnv_3 key) (2 ^ j) ->
  get_simple_loop (2 ^ j) (fnv_3 key) rest i key nt =
    Done match (p ← scan pair_key fnv_3 j nt key rest i; nt !! p) with
    | Some e => if decide (kv_key e = zeros) then (false, empty_key) else (true, e)
    | None => (false, empty_key)
    end.
Proof using Hj.
  intros Hl. revert i. induction rest as [|rest IH]; intros i Hi Hh; [done|]. cbn [get_simple_loop scan].
  rewrite probe_at_pos by (done || lia). cbn [mbind outcome_bind]. fold (pos fnv_3 j key i).
  destruct (lookup_lt_is_Some_2 nt (pos fnv_3 j key i)) as [e He]; [rewrite Hl; apply pos_lt|].
  rewrite (index_Some _ _ _ He), He. cbn [mbind outcome_bind fmap option_fmap option_map]. unfold pair_key at 1.
  change (kv_key empty_key) with zeros. destruct (decide (kv_key e = zeros)) as [Hz|Hz]; cbn [mbind option_bind].
  - rewrite He. by rewrite decide_True.
  - destruct (decide (kv_key e = key)) as [Hek|Hek]; cbn [mbind option_bind].
    + rewrite He. by rewrite decide_False.
    + apply IH; (lia || done).
Qed.

Lemma pair_val_some e k : pair_key e = Some k -> is_Some (pair_val e).
Proof. by eexists. Qed.

Lemma init_flat : trep pair_key fnv_3 j pair_val (init_ntable (2 ^ j)) (∅ : gmap (list Z) (list Z)).
Proof.
  split.
  - apply length_replicate.
  - intros p e k Hp. apply lookup_replicate in Hp as [-> _]. done.
  - intros k v. rewrite lookup_empty. split; [done|]. intros (p & e & Hp & Hk & _).
    apply lookup_replicate in Hp as [-> _]. done.
Qed.

Lemma flat_sim o nt m : trep pair_key fnv_3 j pair_val nt m -> flat_ok o ->
  simulates (fun nt m => trep pair_key fnv_3 j pair_val nt m) (flat_step (2 ^ j) o nt) (flat_map_step (2 ^ j) o m).
Proof using Hj.
  intros R (Hk & Hz & Hh & Hv). pose proof (trep_scan pair_key fnv_3 j pair_val pair_val_some _ _ (op_key o) R) as Hs.
  assert (Hlen := t_len _ _ _ _ _ _ R). destruct o as [k v|k]; cbn [op_key flat_step flat_map_step] in *.
  - unfold insert_simple. rewrite insert_simple_scan by (done || lia). cbn [mbind outcome_bind].
    destruct (scan _ _ _ _ _ _ _) as [p|] eqn:Hsc; cbn [fst snd].
    + rewrite decide_False.
      * apply simulates_Done. apply (trep_insert pair_key fnv_3 j pair_val pair_val_some _ _ k p); [done|done| |done].
        unfold pair_key. by rewrite decide_False.
      * intros [Hn Hsz]. destruct Hs as (e & He & Hm). rewrite Hn in Hm.
        pose proof (empty_size pair_key fnv_3 j pair_val _ _ p e R He Hm). lia.
    + rewrite decide_True by done. by apply simulates_Done.
  - unfold get_simple. rewrite get_simple_scan by (done || lia). cbn [mbind outcome_bind].
    destruct (scan _ _ _ _ _ _ _) as [p|] eqn:Hsc; cbn [fst snd mbind option_bind].
    + destruct Hs as (e & He & Hm). rewrite He. unfold pair_key in Hm.
      destruct (m !! k) as [v|]; destruct (decide (kv_key e = zeros)); [by destruct Hm| | |done].
      * destruct Hm as [_ [= <-]]. by apply simulates_Done.
      * by apply simulates_Done.
    + destruct Hs as [-> _]. by apply simulates_Done.
Qed.
End Flat.
End Loops.

Section Claims.
Context `{Profile}.

Section Steps.
Context {K V : Type} `{Countable K} (image : K -> list Z) (j : nat) (Hj : j < 64).

Lemma hashed_sim (hash : K -> Z) (k : Key K) (x : Index K V) m :
  irep hash j x m -> hash_ok (hash (key k)) (2 ^ j) ->
  simulates (irep hash j) (v ← get_hashed (hash (key k)) (key k) x; Done (Looked v, x)) (map_step (2 ^ j) (OGet k) m).
Proof using Hj. intros R Hk. rewrite (get_hashed_spec hash j Hj x m (key k) R Hk). by apply simulates_Done. Qed.

Lemma inserted_sim (hash : K -> Z) (k : Key K) v (x : Index K V) m :
  irep hash j x m -> hash_ok (hash (key k)) (2 ^ j) ->
  simulates (irep hash j) (r ← (x ← insert_hashed (hash (key k)) (key k) v x; Done (None : Bucket K V, x)); Done (Inserted (fst r), snd r))
    (map_step (2 ^ j) (OInsert k v) m).
Proof using Hj.
  intros R Hk. pose proof (insert_hashed_spec hash j Hj x m (key k) v R Hk) as Hs. cbn [map_step].
  destruct (decide _); [by rewrite Hs|]. destruct Hs as (x' & -> & R'). by apply simulates_Done.
Qed.

(** Keys whose memory is made of bytes, and whose hash leaves room for the probe distance
    when additions are checked. *)
Definition index_ok (o : kv_op (Key K) V) : Prop :=
  Forall is_byte (mem (op_key o)) /\ no_overflow (fnv_2 (mem (op_key o)) KEY_SIZE) (2 ^ j).
Definition cindex_ok (o : kv_op (Key K) V) : Prop :=
  Forall is_byte (mem (op_key o)) /\ no_overflow (fnv (mem (op_key o))) (2 ^ j).

(** The memory of the key is [image] of its value. *)
Definition in_image (o : kv_op (Key K) V) : Prop := mem (op_key o) = image (key (op_key o)).

Lemma index_sim o (x : Index K V) m :
  irep (fun k => fnv_2 (image k) KEY_SIZE) j x m -> index_ok o /\ in_image o ->
  simulates (irep (fun k => fnv_2 (image k) KEY_SIZE) j) (index_step o x) (map_step (2 ^ j) o m).
Proof using Hj.
  intros R [[Hb Ho] Hi]. unfold in_image in Hi. rewrite Hi in Hb, Ho.
  assert (Hk : hash_ok (fnv_2 (image (key (op_key o))) KEY_SIZE) (2 ^ j)) by (split; [by apply fnv_2_width|done]).
  destruct o; cbn [index_step op_key] in *; unfold Index_insert, Index_get; rewrite Hi;
    [by apply (inserted_sim (fun k => fnv_2 (image k) KEY_SIZE))|by apply (hashed_sim (fun k => fnv_2 (image k) KEY_SIZE))].
Qed.

Lemma cindex_sim o (x : Index K V) m :
  irep (fun k => fnv (image k)) j x m -> cindex_ok o /\ in_image o ->
  simulates (irep (fun k => fnv (image k)) j) (cindex_step o x) (map_step (2 ^ j) o m).
Proof using Hj.
  intros R [[Hb Ho] Hi]. unfold in_image in Hi. rewrite Hi in Hb, Ho.
  assert (Hk : hash_ok (fnv (image (key (op_key o)))) (2 ^ j)) by (split; [by apply fnv_width|done]).
  destruct o; cbn [cindex_step op_key] in *; unfold CIndex_insert, CIndex_get; rewrite Hi;
    [by apply (inserted_sim (fun k => fnv (image k)))|by apply (hashed_sim (fun k => fnv (image k)))].
Qed.
End Steps.

(** Calls with equal keys have keys with equal memory. *)
Definition same_memory {K V} (os : list (kv_op (Key K) V)) : Prop :=
  forall o o', o ∈ os -> o' ∈ os -> key (op_key o) = key (op_key o') -> mem (op_key o) = mem (op_key o').

(** Then the memory is a function of the key. *)
Lemma same_memory_image {K V} `{EqDecision K} (os : list (kv_op (Key K) V)) :
  same_memory os -> exists image, Forall (in_image image) os.
Proof.
  intros Hs. exists (fun k => default [] ((fun o => mem (op_key o.2)) <$> list_find (fun o => key (op_key o) = k) os)).
  apply list.Forall_forall. intros o Ho. unfold in_image.
  destruct (list_find_elem_of (fun o' => key (op_key o') = key (op_key o)) os o Ho eq_refl) as [[i o'] E].
  rewrite E. cbn. apply list_find_Some in E as (Hi & He & _). apply Hs; [done|by eapply list_elem_of_lookup_2|done].
Qed.

(** C11: a hash table of 2^j buckets, empty at first, answers every sequence of inserts
    and lookups as a finite map of at most 2^j keys does, as long as keys that are equal have
    the same memory: a lookup finds the value inserted last, an insert answers with an empty
    bucket also where it replaces a pair, and panics exactly where its key is new and the map
    is full.  This holds of [Index] and of [CIndex].  In builds with overflow checks the hash
    of a key must leave room for the probe distance. *)
Theorem index_refines_map {K V : Type} `{Countable K} (j : nat) (os : list (kv_op (Key K) V)) :
  j < 64 -> same_memory os ->
  (Forall (index_ok j) os -> shows (runs index_step os (with_capacity (2 ^ j))) = shows (runs (map_step (2 ^ j)) os ∅)) /\
  (Forall (cindex_ok j) os -> shows (runs cindex_step os (with_capacity (2 ^ j))) = shows (runs (map_step (2 ^ j)) os ∅)).
Proof.
  intros Hj Hm. destruct (same_memory_image os Hm) as [image Hi]. split; intros Hos; eapply simulates_shows.
  - apply (runs_simulates (irep (fun k => fnv_2 (image k) KEY_SIZE) j) (fun o => index_ok j o /\ in_image image o));
      [intros; by apply index_sim|by apply list.Forall_and|apply with_capacity_irep].
  - apply (runs_simulates (irep (fun k => fnv (image k)) j) (fun o => cindex_ok j o /\ in_image image o));
      [intros; by apply cindex_sim|by apply list.Forall_and|apply with_capacity_irep].
Qed.

(** The flat table of 2^j pairs answers every sequence of [insert_simple] and
    [get_simple] on non-zero keys as a finite map of at most 2^j keys: a pair is stored
    unless its key is new and the map is full, and a lookup finds the last value stored. *)
Theorem flat_refines_map (j : nat) (os : list (kv_op (list Z) (list Z))) :
  j < 64 -> Forall (flat_ok j) os ->
  shows (runs (flat_step (2 ^ j)) os (init_ntable (2 ^ j))) = shows (runs (flat_map_step (2 ^ j)) os ∅).
Proof.
  intros Hj Hos. eapply simulates_shows, (runs_simulates _ (flat_ok j)); [|done|apply init_flat].
  intros. by apply flat_sim.
Qed.

(** The all-zero key marks a free slot of the flat table, so whatever was stored,
    a lookup of it finds nothing. *)
Theorem flat_zero_key_lost (j : nat) (nt : list KVPair) :
  j < 64 -> length nt = 2 ^ j -> no_overflow (fnv_3 zeros) (2 ^ j) ->
  get_simple (2 ^ j) zeros nt = Done (false, empty_key).
Proof.
  intros Hj Hl Ho. unfold get_simple. rewrite get_simple_scan; [|done|done|lia|split; [|done]].
  - destruct (scan _ _ _ _ _ _ _) as [p|] eqn:Hs; [|done]. cbn [mbind option_bind].
    apply scan_Some in Hs as (e & -> & Hk). unfold pair_key in Hk. destruct (decide (kv_key e = zeros)); [done|].
    destruct Hk as [?|[= ?]]; done.
  - vm_compute. split; congruence.
Qed.

End Claims.

(** *** Examples *)

Definition byte_key (n : Z) : list Z := [n; 0; 0; 0; 0; 0; 0; 1]%Z.

(** An array is its own memory. *)
Definition array_key (n : Z) : Key (list Z) := mkKey (byte_key n) (byte_key n).

Definition ex_ops : list (kv_op (Key (list Z)) Z) :=
  [OInsert (array_key 1) 10%Z; OInsert (array_key 5) 20%Z; OGet (array_key 5); OInsert (array_key 1) 30%Z; OGet (array_key 1)].
Definition ex_flat_ops : list (kv_op (list Z) (list Z)) :=
  [OInsert (byte_key 1) (byte_key 7); OGet (byte_key 1); OInsert (byte_key 2) (byte_key 8); OInsert (byte_key 5) (byte_key 9);
   OGet (byte_key 5)].

Global Instance in_width_dec w a : Decision (in_width w a).
Proof. unfold in_width. apply _. Defined.
Global Instance hash_ok_dec `{Profile} h cap : Decision (hash_ok h cap).
Proof. unfold hash_ok, no_overflow. apply _. Defined.
Global Instance index_ok_dec `{Profile} {K V} `{Countable K} j (o : kv_op (Key K) V) :
  Decision (index_ok j o).
Proof. unfold index_ok, no_overflow, is_byte. apply _. Defined.
Global Instance value_ok_dec o : Decision (value_ok o).
Proof. unfold value_ok. destruct o; apply _. Defined.

Lemma ex_index_ok : Forall (index_ok (H := true) 2) ex_ops.
Proof. apply (bool_decide_unpack _). vm_compute. done. Qed.

Lemma ex_same_memory : same_memory ex_ops.
Proof.
  assert (E : Forall (fun o => mem (op_key o) = key (op_key o)) ex_ops) by (by repeat constructor).
  rewrite list.Forall_forall in E. intros o o' Ho Ho' Hk. by rewrite !E.
Qed.

Lemma ex_flat_ok : Forall (flat_ok (H := true) 1) ex_flat_ops.
Proof. apply (bool_decide_unpack _). vm_compute. done. Qed.

Lemma index_refines_map_witness :
  shows (runs (index_step (H := true)) ex_ops (with_capacity 4)) =
    Done [Inserted None; Inserted None; Looked (Some 20%Z); Inserted None; Looked (Some 30%Z)].
Proof.
  etrans; [exact (proj1 (index_refines_map (H := true) 2 ex_ops ltac:(lia) ex_same_memory) ex_index_ok)|vm_compute; reflexivity].
Defined.

Lemma flat_refines_map_witness :
  shows (runs (flat_step (H := true) 2) ex_flat_ops (init_ntable 2)) =
    Done [(true, []); (true, byte_key 7); (true, []); (false, []); (false, zeros)].
Proof.
  etrans; [exact (flat_refines_map (H := true) 1 ex_flat_ops ltac:(lia) ex_flat_ok)|vm_compute; reflexivity].
Defined.

Lemma flat_zero_key_lost_witness :
  get_simple (H := true) 2 zeros [mkKV zeros (byte_key 7); empty_key] = Done (false, empty_key).
Proof.
  apply (flat_zero_key_lost (H := true) 1); [lia|done|]. right. vm_compute. congruence.
Defined.

(** The keys 1 and 5 collide in a table of four. *)
Definition collided : Index (list Z) Z :=
  mkIndex 4 0 [Some (byte_key 5, 20%Z); None; None; Some (byte_key 1, 10%Z)].

(** [get_mut] probes quadratically where [insert] and [get] probe linearly: a key
    that collided when it was inserted is found by [get] and missed by [get_mut]. *)
Theorem get_mut_misses_collided_key :
  let H : Profile := false in
  runs index_step [OInsert (array_key 1) 10%Z; OInsert (array_key 5) 20%Z] (with_capacity 4) = Done ([Inserted None; Inserted None], collided) /\
  Index_get (array_key 5) collided = Done (Some 20%Z) /\ Index_get_mut (array_key 5) collided = Done None.
Proof. vm_compute. done. Qed.
