(* ===== verification/SashStore.v ===== *)
(** * The key-value store over the network
    (lib/external/sashstore/src/lib.rs, memb/mod.rs, memb/serialize.rs)

    The server decodes a request out of the memory of a received packet, runs it
    against the hash table of IndexMap.v and encodes the reply into the same buffer.
    Two decoders are modelled, the binary one that the server uses
    ([decode_as_struct]) and the text one ([decode]), and the second request handler,
    which works on the flat table ([handle_network_request_simple]).

    A [Vec<u8>] is its contents and the spare memory behind them: the code writes
    through raw pointers past the length and then sets the length.  An access past the
    capacity is a panic. *)

From Stdlib Require Import ZArith Lia.
From stdpp Require Import base gmap list.
From stdpp Require Import options.
From S2P Require Import Prelude IndexMap.

Set Default Proof Using "Type".

(** ** Byte buffers *)

Record Vec := mkVec { bytes : list Z; spare : list Z }.

Definition vmem (v : Vec) : list Z := bytes v ++ spare v.
Definition vclear (v : Vec) : Vec := mkVec [] (vmem v).

(** Growing takes the spare memory first; a reallocation leaves no spare behind. *)
Definition extend_from_slice (s : list Z) (v : Vec) : Vec := mkVec (bytes v ++ s) (drop (length s) (spare v)).

(** [core::ptr::copy] to [v.as_mut_ptr().offset(off)] *)
Definition ptr_copy (src : list Z) (off : nat) (v : Vec) : outcome Vec :=
  if off + length src <=? length (vmem v) then
    let m := take off (vmem v) ++ src ++ drop (off + length src) (vmem v) in
    Done (mkVec (take (length (bytes v)) m) (drop (length (bytes v)) m))
  else Panic.

Definition set_len (n : nat) (v : Vec) : outcome Vec :=
  if n <=? length (vmem v) then Done (mkVec (take n (vmem v)) (drop n (vmem v))) else Panic.

(** A field of a structure laid over the buffer. *)
Definition field_at (off size : nat) (v : Vec) : outcome (list Z) :=
  if off + size <=? length (vmem v) then Done (take size (drop off (vmem v))) else Panic.

(** [&buf[a..b]] *)
Definition slice (a b : nat) (l : list Z) : outcome (list Z) :=
  if (a <=? b) && (b <=? length l) then Done (take (b - a) (drop a l)) else Panic.

Fixpoint from_le_bytes (l : list Z) : Z := match l with [] => 0 | b :: l => b + 256 * from_le_bytes l end%Z.
Definition from_be_bytes (l : list Z) : Z := from_le_bytes (reverse l).
Fixpoint to_le_bytes (n : nat) (x : Z) : list Z :=
  match n with O => [] | S n => (x mod 256)%Z :: to_le_bytes n (x / 256) end.
Definition to_be_bytes (n : nat) (x : Z) : list Z := reverse (to_le_bytes n x).

(** ** The vocabulary of client and server *)

Inductive ClientValue : Type :=
  | CGet (id : Z) (key : list Z)
  | CSet (id : Z) (key : list Z) (flags : Z) (value : list Z).

Inductive ServerValue : Type :=
  | Value (id : Z) (key value : list Z)
  | Stored (id : Z)
  | NotStored (id : Z)
  | NoReply.

Inductive DecodeError : Type := InvalidOpCode | UnexpectedEof.

Definition SET : list Z := [115; 101; 116; 32]%Z.
Definition GET : list Z := [103; 101; 116; 32]%Z.
Definition CRLF : list Z := [13; 10]%Z.
Definition STORED : list Z := ([83; 84; 79; 82; 69; 68] ++ CRLF)%Z.
Definition NOT_STORED : list Z := ([78; 79; 84; 95] ++ STORED)%Z.
Definition NOT_FOUND : list Z := ([78; 79; 84; 95; 70; 79; 85; 78; 68] ++ CRLF)%Z.

(** ** The packed structures *)

Record Header := mkHeader { request_id : list Z; seq_nr : list Z; dgram_tot : list Z; rsvd : list Z }.
Definition header_bytes (h : Header) : list Z := request_id h ++ seq_nr h ++ dgram_tot h ++ rsvd h.

Record RequestHeader := mkReqHeader { hdr : Header; mode_str : list Z }.
Record SetRequest := mkSetReq {
  sr_key : list Z; space : list Z; sr_flags : list Z; sr_len : list Z; line_end : list Z; sr_value : list Z; line_end1 : list Z }.
Record GetRequest := mkGetReq { gr_key : list Z; gr_line_end : list Z }.
Record GetResponse := mkGetResp { header : Header; gp_key : list Z; gp_value : list Z }.

Definition sizeof_Header : nat := 10.
Definition sizeof_RequestHeader : nat := sizeof_Header + 4.
Definition sizeof_GetResponse : nat := sizeof_Header + KEY_SIZE + VALUE_SIZE.

Definition request_bytes (h : RequestHeader) : list Z := header_bytes (hdr h) ++ mode_str h.
Definition set_bytes (r : SetRequest) : list Z :=
  sr_key r ++ space r ++ sr_flags r ++ sr_len r ++ line_end r ++ sr_value r ++ line_end1 r.
Definition get_bytes (r : GetRequest) : list Z := gr_key r ++ gr_line_end r.

Definition GetResponse_new (req_id : Z) : GetResponse :=
  mkGetResp (mkHeader (to_be_bytes 4 req_id) (to_le_bytes 2 0) (to_le_bytes 2 0) (to_le_bytes 2 0))
    (replicate KEY_SIZE 0%Z) (replicate VALUE_SIZE 0%Z).
Definition response_bytes (r : GetResponse) : list Z := header_bytes (header r) ++ gp_key r ++ gp_value r.

(** ** The counters of the module *)

Record Stats := mkStats {
  TOTAL_SET : Z; TOTAL_STORED : Z; TOTAL_NOT_STORED : Z; TOTAL_GET : Z; TOTAL_RETRIEVED : Z; TOTAL_NOT_FOUND : Z }.
Definition Stats_zero : Stats := mkStats 0 0 0 0 0 0.

Section Counters.
Context `{Profile}.
Definition inc_set (s : Stats) : outcome Stats :=
  k ← uadd 64 (TOTAL_SET s) 1;
  Done (mkStats k (TOTAL_STORED s) (TOTAL_NOT_STORED s) (TOTAL_GET s) (TOTAL_RETRIEVED s) (TOTAL_NOT_FOUND s)).
Definition inc_stored (s : Stats) : outcome Stats :=
  k ← uadd 64 (TOTAL_STORED s) 1;
  Done (mkStats (TOTAL_SET s) k (TOTAL_NOT_STORED s) (TOTAL_GET s) (TOTAL_RETRIEVED s) (TOTAL_NOT_FOUND s)).
Definition inc_not_stored (s : Stats) : outcome Stats :=
  k ← uadd 64 (TOTAL_NOT_STORED s) 1;
  Done (mkStats (TOTAL_SET s) (TOTAL_STORED s) k (TOTAL_GET s) (TOTAL_RETRIEVED s) (TOTAL_NOT_FOUND s)).
Definition inc_get (s : Stats) : outcome Stats :=
  k ← uadd 64 (TOTAL_GET s) 1;
  Done (mkStats (TOTAL_SET s) (TOTAL_STORED s) (TOTAL_NOT_STORED s) k (TOTAL_RETRIEVED s) (TOTAL_NOT_FOUND s)).
Definition inc_retrieved (s : Stats) : outcome Stats :=
  k ← uadd 64 (TOTAL_RETRIEVED s) 1;
  Done (mkStats (TOTAL_SET s) (TOTAL_STORED s) (TOTAL_NOT_STORED s) (TOTAL_GET s) k (TOTAL_NOT_FOUND s)).
Definition inc_not_found (s : Stats) : outcome Stats :=
  k ← uadd 64 (TOTAL_NOT_FOUND s) 1;
  Done (mkStats (TOTAL_SET s) (TOTAL_STORED s) (TOTAL_NOT_STORED s) (TOTAL_GET s) (TOTAL_RETRIEVED s) k).
End Counters.

(** ** Encoding a reply *)

Section Encode.
Context `{Profile}.

(** The header that replies to a [set] carry. *)
Definition reply_header (id : Z) (v : Vec) : Vec :=
  extend_from_slice (to_be_bytes 2 0) (extend_from_slice (to_be_bytes 2 1)
    (extend_from_slice (to_be_bytes 2 0) (extend_from_slice (to_be_bytes 4 id) v))).

Definition buf_encode (value : ServerValue) (st : Stats) (buf : Vec) : outcome (Vec * Stats) :=
  let buf := vclear buf in
  match value with
  | Value id k v =>
      let resp := response_bytes (GetResponse_new id) in
      buf ← ptr_copy resp 0 buf;
      k ← slice 0 KEY_SIZE k;
      buf ← ptr_copy k 16 buf;
      v ← slice 0 VALUE_SIZE v;
      buf ← ptr_copy v (16 + KEY_SIZE + 11) buf;
      buf ← set_len sizeof_GetResponse buf;
      st ← inc_retrieved st;
      Done (buf, st)
  | Stored id => st ← inc_stored st; Done (extend_from_slice STORED (reply_header id buf), st)
  | NotStored id => st ← inc_not_stored st; Done (extend_from_slice NOT_STORED (reply_header id buf), st)
  | NoReply => st ← inc_not_found st; Done (extend_from_slice NOT_FOUND buf, st)
  end.

(** ** Decoding a request *)

(** [decode_as_struct]: structures laid over the packet. *)
Definition decode_as_struct (reader : Vec) (st : Stats) : outcome (result DecodeError ClientValue * Stats) :=
  if 8 <=? length (bytes reader) then
    op ← field_at sizeof_Header 4 reader;
    if decide (op = SET) then
      st ← inc_set st;
      id ← field_at 0 4 reader;
      key ← field_at sizeof_RequestHeader KEY_SIZE reader;
      flags ← field_at (sizeof_RequestHeader + KEY_SIZE + 1) 4 reader;
      value ← field_at (sizeof_RequestHeader + KEY_SIZE + 1 + 4 + 4 + 2) VALUE_SIZE reader;
      Done (Ok (CSet (from_le_bytes id) key (from_le_bytes flags) value), st)
    else if decide (op = GET) then
      st ← inc_get st;
      id ← field_at 0 4 reader;
      key ← field_at sizeof_RequestHeader KEY_SIZE reader;
      Done (Ok (CGet (from_le_bytes id) key), st)
    else Done (Err InvalidOpCode, st)
  else Panic.
End Encode.

(** ** The text decoder

    [Decoder] is the packet and a cursor into it; the cursor is the state. *)

Section Text.
Context `{Profile} (reader : list Z).
#[local] Abbreviation D := (M nat).

(** [debug_assert!]: checked where the arithmetic is. *)
Definition debug_assert (b : bool) : D unit := if overflow_checks then assert b else mret tt.

Definition read_exact (n : nat) : D (list Z) :=
  cursor ← gets id;
  left ← lift (usub 64 (Z.of_nat (length reader)) (Z.of_nat cursor));
  _ ← assert (Z.of_nat n <=? left)%Z;
  l ← lift (if n =? 0 then Done [] else slice cursor (cursor + n) reader);
  _ ← put (cursor + n);
  mret l.

(** The position of the first [byte] of a list. *)
Fixpoint position (byte : Z) (l : list Z) : option nat :=
  match l with
  | [] => None
  | b :: l => if (b =? byte)%Z then Some 0 else S <$> position byte l
  end.

Definition read_until (byte : Z) : D (list Z) :=
  old_cursor ← gets id;
  match position byte (drop old_cursor reader) with
  | Some i => _ ← put (old_cursor + i + 1); mret (take (i + 1) (drop old_cursor reader))
  | None => mret []
  end.

Definition read_until_excluding (byte : Z) : D (list Z) :=
  slice ← read_until byte;
  if length slice =? 0 then mret slice else mret (take (length slice - 1) slice).

(** The first position where the list has the two bytes [a] and [b]. *)
Fixpoint find_pair (a b : Z) (l : list Z) : option nat :=
  match l with
  | x :: l =>
      match l with
      | y :: _ => if ((x =? a) && (y =? b))%Z then Some 0 else S <$> find_pair a b l
      | [] => None
      end
  | [] => None
  end.

Definition skip_until_newline : D unit :=
  old_cursor ← gets id;
  _ ← assert (old_cursor <=? length reader);
  match find_pair 13 10 (drop old_cursor reader) with
  | Some i => put (old_cursor + i + 3)
  | None => mret tt
  end.

(** The loop that packs at most three characters of the flags into four bytes. *)
Definition flag_bytes (flag_buf : list Z) : list Z :=
  if length flag_buf <? 4 then
    ((fun e => if (e =? 32)%Z then 0%Z else e) <$> flag_buf) ++ replicate (4 - length flag_buf) 0%Z
  else replicate 4 0%Z.

(** [decode], from the opcode on. *)
Definition decode_op (request_id : Z) : D (result DecodeError ClientValue) :=
  op ← read_until 32;
  if decide (op = SET) then
    key ← read_until_excluding 32;
    flag_buf ← read_until 32;
    _ ← debug_assert (length flag_buf <=? 4);
    let flags := from_be_bytes (flag_bytes flag_buf) in
    _ ← skip_until_newline;
    val ← read_until_excluding 13;
    mret (Ok (CSet request_id key flags val))
  else if decide (op = GET) then
    key ← read_until_excluding 13;
    mret (Ok (CGet request_id key))
  else mret (Err InvalidOpCode).

Definition decode : D (result DecodeError ClientValue) :=
  _ ← assert (8 <=? length reader);
  id ← lift (slice 0 4 reader);
  let request_id := from_be_bytes id in
  sequence_nr ← lift (slice 2 4 reader);
  _ ← debug_assert (from_be_bytes sequence_nr =? 0)%Z;
  datagram_total ← lift (slice 4 6 reader);
  _ ← debug_assert (from_be_bytes datagram_total =? 1)%Z;
  _ ← put 8;
  decode_op request_id.
End Text.

(** ** The store *)

Section Server.
Context `{Profile} (image : list Z -> list Z).

(** [KVKey] and [KVVal] are arrays of at most eight bytes; [image] is the memory of a full one,
    its bytes and its length in the order the compiler chose. *)
Definition full_key (k : list Z) : Key (list Z) := mkKey k (image k).
Record SashStore := mkStore { map : Index (list Z) (list Z); ntable : list KVPair; memb_stats : Stats; stats : Stats }.
#[local] Abbreviation ST := (M SashStore).

Definition SashStore_with_capacity (capacity : nat) : SashStore :=
  let map := with_capacity capacity in
  mkStore map (init_ntable (IndexMap.capacity map)) Stats_zero Stats_zero.

Definition with_map (m : Index (list Z) (list Z)) (s : SashStore) : SashStore := mkStore m (ntable s) (memb_stats s) (stats s).
Definition with_ntable (t : list KVPair) (s : SashStore) : SashStore := mkStore (map s) t (memb_stats s) (stats s).
Definition with_memb_stats (st : Stats) (s : SashStore) : SashStore := mkStore (map s) (ntable s) st (stats s).
Definition with_stats (st : Stats) (s : SashStore) : SashStore := mkStore (map s) (ntable s) (memb_stats s) st.

(** [try_extend_from_slice(..).expect(..)] on an empty [ArrayVec] of [size] bytes. *)
Definition try_extend (size : nat) (l : list Z) : outcome (list Z) := if length l <=? size then Done l else Panic.

Definition execute_cmd (cmd : ClientValue) : ST ServerValue :=
  match cmd with
  | CGet req_id key =>
      _ ← assert (length key <=? 64);
      key_vec ← lift (try_extend KEY_SIZE key);
      m ← gets map;
      r ← lift (Index_get (full_key key_vec) m);
      match r with
      | Some value => mret (Value req_id key_vec value)
      | None => mret NoReply
      end
  | CSet req_id key flags value =>
      if length key <=? 250 then
        key_vec ← lift (try_extend KEY_SIZE key);
        value_vec ← lift (try_extend VALUE_SIZE value);
        m ← gets map;
        r ← lift (Index_insert (full_key key_vec) value_vec m);
        _ ← modify (with_map (snd r));
        mret (Stored req_id)
      else mret (NotStored req_id)
  end.

(** [handle_network_request]: the answer to a packet, and its encoding into the buffer. *)
Definition respond (buf : Vec) : ST ServerValue :=
  st ← gets memb_stats;
  r ← lift (decode_as_struct buf st);
  _ ← modify (with_memb_stats (snd r));
  match fst r with Ok value => execute_cmd value | Err _ => panic end.

Definition encode_reply (response : ServerValue) (buf : Vec) : ST Vec :=
  st ← gets memb_stats;
  r ← lift (buf_encode response st buf);
  _ ← modify (with_memb_stats (snd r));
  mret (fst r).

Definition handle_network_request (buf : Vec) : ST Vec :=
  response ← respond buf; encode_reply response buf.

(** The handler for the flat table.  Where it copies a pair into the reply it copies
    from the address of a temporary that holds the pointer, eight words of it:
    [key_words] and [val_words] are the 64 bytes found there. *)
Context (key_words val_words : list Z).

Definition count (f : Stats -> outcome Stats) : ST unit :=
  st ← gets stats; st ← lift (f st); modify (with_stats st).

Definition handle_network_request_simple (buf : Vec) : ST Vec :=
  _ ← assert (8 <=? length (bytes buf));
  id ← lift (slice 0 4 (bytes buf));
  let request_id := from_be_bytes id in
  op ← lift (slice 10 14 (bytes buf));
  m ← gets map;
  if decide (op = SET) then
    key ← lift (slice (10 + 4) (10 + 4 + KEY_SIZE) (bytes buf));
    value ← lift (slice (10 + 4 + KEY_SIZE + 11) (10 + 4 + KEY_SIZE + 11 + VALUE_SIZE) (bytes buf));
    nt ← gets ntable;
    r ← lift (insert_simple (capacity m) key value nt);
    _ ← modify (with_ntable (snd r));
    let buf := reply_header request_id (vclear buf) in
    if fst (r : bool * list KVPair) then
      _ ← count inc_stored;
      _ ← count inc_set;
      mret (extend_from_slice STORED buf)
    else
      _ ← count inc_not_stored;
      _ ← count inc_set;
      mret (extend_from_slice NOT_STORED buf)
  else if decide (op = GET) then
    _ ← count inc_get;
    key ← lift (slice (10 + 4) (10 + 4 + KEY_SIZE) (bytes buf));
    nt ← gets ntable;
    r ← lift (get_simple (capacity m) key nt);
    if fst (r : bool * KVPair) then
      let buf := vclear buf in
      buf ← lift (ptr_copy (response_bytes (GetResponse_new request_id)) 0 buf);
      buf ← lift (ptr_copy key_words 16 buf);
      buf ← lift (ptr_copy val_words (16 + KEY_SIZE + 11) buf);
      buf ← lift (set_len sizeof_GetResponse buf);
      _ ← count inc_retrieved;
      mret buf
    else
      let buf := extend_from_slice NOT_FOUND (vclear buf) in
      _ ← count inc_not_found;
      mret buf
  else mret buf.
End Server.

(** ** Buffers and byte orders *)

Lemma field_at_app v off size a f b :
  vmem v = a ++ f ++ b -> length a = off -> length f = size -> field_at off size v = Done f.
Proof.
  intros Hm <- <-. unfold field_at. rewrite Hm, !length_app.
  destruct (Nat.leb_spec (length a + length f) (length a + (length f + length b))); [|lia].
  by rewrite drop_app_length, take_app_length.
Qed.

Lemma slice_whole l n : length l = n -> slice 0 n l = Done l.
Proof. intros <-. unfold slice. rewrite Nat.leb_refl. cbn [andb Nat.leb]. by rewrite Nat.sub_0_r, drop_0, firstn_all. Qed.

Lemma ptr_copy_spec src off v : off + length src <= length (vmem v) ->
  exists v', ptr_copy src off v = Done v' /\ vmem v' = take off (vmem v) ++ src ++ drop (off + length src) (vmem v).
Proof.
  intros Hle. unfold ptr_copy. rewrite (proj2 (Nat.leb_le _ _) Hle). eexists. split; [done|].
  unfold vmem at 1. cbn [bytes spare]. by rewrite take_drop.
Qed.

Lemma ptr_copy_length src off v v' : off + length src <= length (vmem v) ->
  vmem v' = take off (vmem v) ++ src ++ drop (off + length src) (vmem v) -> length (vmem v') = length (vmem v).
Proof. intros Hle ->. rewrite !length_app, length_take, length_drop. lia. Qed.

Lemma to_le_bytes_length n x : length (to_le_bytes n x) = n.
Proof. revert x. induction n as [|n IH]; intros x; [done|]. cbn [to_le_bytes length]. by rewrite IH. Qed.

Lemma to_from_le_bytes l : Forall is_byte l -> to_le_bytes (length l) (from_le_bytes l) = l.
Proof.
  induction 1 as [|b l [Hb Hb'] Hl IH]; [done|]. cbn [length to_le_bytes from_le_bytes]. change (2 ^ 8)%Z with 256%Z in Hb'.
  rewrite (Z.mul_comm 256), Z.mod_add, Z.mod_small, Z.div_add, Z.div_small, Z.add_0_l, IH by lia. done.
Qed.

Lemma to_be_from_le l : Forall is_byte l -> to_be_bytes (length l) (from_le_bytes l) = reverse l.
Proof. intros Hl. unfold to_be_bytes. by rewrite to_from_le_bytes. Qed.

(** The two byte orders agree with each other. *)
Lemma to_from_be_bytes l : Forall is_byte l -> to_be_bytes (length l) (from_be_bytes l) = l.
Proof.
  intros Hl. unfold to_be_bytes, from_be_bytes. rewrite <- (length_reverse l), to_from_le_bytes by (by apply Forall_reverse).
  apply reverse_involutive.
Qed.

(** ** Replies *)

Section Release.
Context `{Profile} (Hrel : overflow_checks = false).

Lemma uadd_release w a b : exists c, uadd w a b = Done c.
Proof using Hrel. unfold uadd, checked. rewrite Hrel. destruct (_ && _); eauto. Qed.

Lemma inc_set_release st : exists st', inc_set st = Done st'.
Proof using Hrel. unfold inc_set. destruct (uadd_release 64 (TOTAL_SET st) 1) as [c ->]. by eexists. Qed.
Lemma inc_get_release st : exists st', inc_get st = Done st'.
Proof using Hrel. unfold inc_get. destruct (uadd_release 64 (TOTAL_GET st) 1) as [c ->]. by eexists. Qed.
Lemma inc_stored_release st : exists st', inc_stored st = Done st'.
Proof using Hrel. unfold inc_stored. destruct (uadd_release 64 (TOTAL_STORED st) 1) as [c ->]. by eexists. Qed.
Lemma inc_not_stored_release st : exists st', inc_not_stored st = Done st'.
Proof using Hrel. unfold inc_not_stored. destruct (uadd_release 64 (TOTAL_NOT_STORED st) 1) as [c ->]. by eexists. Qed.
Lemma inc_retrieved_release st : exists st', inc_retrieved st = Done st'.
Proof using Hrel. unfold inc_retrieved. destruct (uadd_release 64 (TOTAL_RETRIEVED st) 1) as [c ->]. by eexists. Qed.
Lemma inc_not_found_release st : exists st', inc_not_found st = Done st'.
Proof using Hrel. unfold inc_not_found. destruct (uadd_release 64 (TOTAL_NOT_FOUND st) 1) as [c ->]. by eexists. Qed.
End Release.

(** The counters wrap around, or count less than [n]. *)
Section Counts.
Context `{Profile}.

Definition counts (st : Stats) (n : Z) : Prop := overflow_checks = false \/
  Forall (fun c => 0 <= c <= n)%Z [TOTAL_SET st; TOTAL_STORED st; TOTAL_NOT_STORED st; TOTAL_GET st; TOTAL_RETRIEVED st; TOTAL_NOT_FOUND st].

Lemma counter_add c n : overflow_checks = false \/ (0 <= c <= n)%Z -> (n + 1 < 2 ^ 64)%Z ->
  exists d, uadd 64 c 1 = Done d /\ (overflow_checks = false \/ d = c + 1)%Z.
Proof.
  intros [Hr|Hc] Hn; [destruct (uadd_release Hr 64 c 1) as [d Hd]; exists d; auto|].
  exists (c + 1)%Z. split; [|auto]. unfold uadd. apply checked_ok. unfold in_width. lia.
Qed.

(** Step one counter [c], and see that the others are as before. *)
Ltac count_tac c n Hc Hn :=
  let Hb := fresh in let d := fresh "d" in let Ed := fresh in let Hd := fresh in
  assert (Hb : overflow_checks = false \/ (0 <= c <= n)%Z) by (destruct Hc as [?|Hc]; [by left|right; rewrite !list.Forall_cons in Hc; tauto]);
  destruct (counter_add c n Hb Hn) as (d & Ed & Hd); rewrite Ed; cbn [mbind outcome_bind]; eexists; split; [reflexivity|];
  destruct Hd as [Hd|Hd]; [by left|]; destruct Hc as [Hc|Hc]; [by left|]; right; rewrite !list.Forall_cons in *; cbn; split_and!; first [constructor | lia].

Lemma inc_set_counts st n : counts st n -> (n + 1 < 2 ^ 64)%Z -> exists st', inc_set st = Done st' /\ counts st' (n + 1).
Proof. intros Hc Hn. unfold inc_set. count_tac (TOTAL_SET st) n Hc Hn. Qed.
Lemma inc_get_counts st n : counts st n -> (n + 1 < 2 ^ 64)%Z -> exists st', inc_get st = Done st' /\ counts st' (n + 1).
Proof. intros Hc Hn. unfold inc_get. count_tac (TOTAL_GET st) n Hc Hn. Qed.
Lemma inc_stored_counts st n : counts st n -> (n + 1 < 2 ^ 64)%Z -> exists st', inc_stored st = Done st' /\ counts st' (n + 1).
Proof. intros Hc Hn. unfold inc_stored. count_tac (TOTAL_STORED st) n Hc Hn. Qed.
Lemma inc_retrieved_counts st n : counts st n -> (n + 1 < 2 ^ 64)%Z -> exists st', inc_retrieved st = Done st' /\ counts st' (n + 1).
Proof. intros Hc Hn. unfold inc_retrieved. count_tac (TOTAL_RETRIEVED st) n Hc Hn. Qed.
Lemma inc_not_found_counts st n : counts st n -> (n + 1 < 2 ^ 64)%Z -> exists st', inc_not_found st = Done st' /\ counts st' (n + 1).
Proof. intros Hc Hn. unfold inc_not_found. count_tac (TOTAL_NOT_FOUND st) n Hc Hn. Qed.
End Counts.

Section Replies.
Context `{Profile}.

Lemma stored_bytes id b : bytes (extend_from_slice STORED (reply_header id (vclear b))) =
  to_be_bytes 4 id ++ [0; 0; 0; 1; 0; 0]%Z ++ STORED.
Proof using Type. unfold reply_header, extend_from_slice, vclear. cbn [bytes]. by rewrite <- !app_assoc. Qed.

(** What a reply to [get] holds: the key at 16, nothing of the value. *)
Definition found_reply (id : Z) (key : list Z) : list Z :=
  to_be_bytes 4 id ++ replicate 12 0%Z ++ key ++ [0; 0]%Z.

Lemma response_length id : length (response_bytes (GetResponse_new id)) = 26.
Proof using Type.
  unfold response_bytes, header_bytes, GetResponse_new. cbn [header gp_key gp_value request_id seq_nr dgram_tot rsvd].
  rewrite !length_app. unfold to_be_bytes. by rewrite length_reverse, !to_le_bytes_length.
Qed.

Lemma response_take id : take 16 (response_bytes (GetResponse_new id)) = to_be_bytes 4 id ++ replicate 12 0%Z.
Proof using Type.
  unfold response_bytes, header_bytes, GetResponse_new. cbn [header gp_key gp_value request_id seq_nr dgram_tot rsvd].
  assert (Hid : length (to_be_bytes 4 id) = 4) by (unfold to_be_bytes; by rewrite length_reverse, to_le_bytes_length).
  destruct (to_be_bytes 4 id) as [|b1 [|b2 [|b3 [|b4 [|]]]]]; done.
Qed.

Lemma response_drop id : drop 24 (response_bytes (GetResponse_new id)) = [0; 0]%Z.
Proof using Type.
  unfold response_bytes, header_bytes, GetResponse_new. cbn [header gp_key gp_value request_id seq_nr dgram_tot rsvd].
  assert (Hid : length (to_be_bytes 4 id) = 4) by (unfold to_be_bytes; by rewrite length_reverse, to_le_bytes_length).
  destruct (to_be_bytes 4 id) as [|b1 [|b2 [|b3 [|b4 [|]]]]]; done.
Qed.

(** The first 26 bytes after the three copies. *)
Lemma copied_take (resp k v rest rest2 : list Z) : length resp = 26 ->
  let mem1 := resp ++ rest in
  let mem2 := take 16 mem1 ++ k ++ drop (16 + length k) mem1 in
  35 <= length mem2 ->
  take 26 (take 35 mem2 ++ v ++ rest2) = take 16 resp ++ take 10 (k ++ drop (16 + length k) resp).
Proof using Type.
  intros Hr mem1 mem2 Hm. rewrite take_app_le by (rewrite length_take; lia). rewrite take_take, Nat.min_l by lia.
  unfold mem2, mem1. rewrite (take_app_le resp) by lia.
  assert (H16 : length (take 16 resp) = 16) by (rewrite length_take; lia).
  rewrite take_app, H16. change (26 - 16) with 10. f_equal; [by rewrite take_take, Nat.min_r by lia|].
  rewrite !take_app. f_equal. destruct (decide (10 <= length k)) as [Hk|Hk]; [by replace (10 - length k) with 0 by lia|].
  rewrite drop_app_le by lia. rewrite take_app_le by (rewrite length_drop; lia). done.
Qed.

Lemma get_reply_copies (resp k v : list Z) buf :
  length resp = 26 -> 16 + length k <= length (vmem buf) -> 35 + length v <= length (vmem buf) ->
  exists b1 b2 b3 b4, ptr_copy resp 0 buf = Done b1 /\ ptr_copy k 16 b1 = Done b2 /\ ptr_copy v 35 b2 = Done b3 /\
    set_len 26 b3 = Done b4 /\ bytes b4 = take 16 resp ++ take 10 (k ++ drop (16 + length k) resp).
Proof using Type.
  intros Hr Hk Hv.
  destruct (ptr_copy_spec resp 0 buf) as (b1 & E1 & M1); [lia|].
  assert (L1 : length (vmem b1) = length (vmem buf)) by (eapply ptr_copy_length; [|exact M1]; lia).
  destruct (ptr_copy_spec k 16 b1) as (b2 & E2 & M2); [lia|].
  assert (L2 : length (vmem b2) = length (vmem b1)) by (eapply ptr_copy_length; [|exact M2]; lia).
  destruct (ptr_copy_spec v 35 b2) as (b3 & E3 & M3); [lia|].
  assert (L3 : length (vmem b3) = length (vmem b2)) by (eapply ptr_copy_length; [|exact M3]; lia).
  exists b1, b2, b3, (mkVec (take 26 (vmem b3)) (drop 26 (vmem b3))). split_and!; [done|done|done| |].
  - unfold set_len. by rewrite (proj2 (Nat.leb_le _ _)) by lia.
  - cbn [bytes]. rewrite M3. replace (vmem b1) with (resp ++ drop 26 (vmem buf)) in M2 by (by rewrite M1, Hr).
    rewrite M2 at 1. apply copied_take; [done|]. rewrite <- M2. lia.
Qed.

Lemma encode_value id k v st st' buf : inc_retrieved st = Done st' -> length k = KEY_SIZE -> length v = VALUE_SIZE -> 43 <= length (vmem buf) ->
  exists buf', buf_encode (Value id k v) st buf = Done (buf', st') /\ bytes buf' = found_reply id k.
Proof using Type.
  intros Est Hk Hv Hc. unfold buf_encode. change (vmem buf) with (vmem (vclear buf)) in Hc.
  destruct (get_reply_copies (response_bytes (GetResponse_new id)) k v (vclear buf)) as (b1 & b2 & b3 & b4 & E1 & E2 & E3 & E4 & Hb);
    [apply response_length|rewrite Hk; unfold KEY_SIZE; lia|rewrite Hv; unfold VALUE_SIZE; lia|].
  rewrite E1. cbn [mbind outcome_bind]. rewrite (slice_whole k _ Hk). cbn [mbind outcome_bind]. rewrite E2.
  cbn [mbind outcome_bind]. rewrite (slice_whole v _ Hv). cbn [mbind outcome_bind].
  change (16 + KEY_SIZE + 11) with 35. rewrite E3. cbn [mbind outcome_bind].
  change sizeof_GetResponse with 26. rewrite E4. cbn [mbind outcome_bind]. rewrite Est. cbn [mbind outcome_bind]. eexists. split; [done|].
  rewrite Hb, response_take, Hk. change (16 + KEY_SIZE) with 24. rewrite response_drop, take_ge by (rewrite length_app, Hk; done).
  by rewrite <- app_assoc.
Qed.
End Replies.

(** ** The server refines a finite map *)

Inductive request : Type :=
  | ReqSet (h : Header) (r : SetRequest) (sp : list Z)
  | ReqGet (h : Header) (r : GetRequest) (sp : list Z).

(** The packet that carries a request, in a buffer with [sp] bytes to spare. *)
Definition packet (q : request) : Vec :=
  match q with
  | ReqSet h r sp => mkVec (request_bytes (mkReqHeader h SET) ++ set_bytes r) sp
  | ReqGet h r sp => mkVec (request_bytes (mkReqHeader h GET) ++ get_bytes r) sp
  end.

Definition header_ok (h : Header) : Prop :=
  length (request_id h) = 4 /\ Forall is_byte (request_id h) /\
  length (seq_nr h) = 2 /\ length (dgram_tot h) = 2 /\ length (rsvd h) = 2.

Definition request_ok (q : request) : Prop :=
  match q with
  | ReqSet h r sp =>
      header_ok h /\ length (sr_key r) = KEY_SIZE /\ Forall is_byte (sr_key r) /\ length (space r) = 1 /\
      length (sr_flags r) = 4 /\ length (sr_len r) = 4 /\ length (line_end r) = 2 /\ length (sr_value r) = VALUE_SIZE
  | ReqGet h r sp =>
      header_ok h /\ length (gr_key r) = KEY_SIZE /\ Forall is_byte (gr_key r) /\ length (gr_line_end r) = 2 /\ 19 <= length sp
  end.

(** The specification: a map of at most [cap] keys, which answers a lookup with the value set
    last, and fails where a new key meets a full map. *)
Definition answer_step (cap : nat) (q : request) (m : gmap (list Z) (list Z)) : outcome (ServerValue * gmap (list Z) (list Z)) :=
  match q with
  | ReqSet h r _ =>
      if decide (m !! sr_key r = None /\ cap <= size m) then Panic
      else Done (Stored (from_le_bytes (request_id h)), <[sr_key r := sr_value r]> m)
  | ReqGet h r _ =>
      Done (match m !! gr_key r with
            | Some v => Value (from_le_bytes (request_id h)) (gr_key r) v
            | None => NoReply
            end, m)
  end.

Definition req_key (q : request) : list Z := match q with ReqSet _ r _ => sr_key r | ReqGet _ r _ => gr_key r end.

Lemma header_length h : header_ok h -> length (header_bytes h) = 10.
Proof. intros (H1 & _ & H3 & H4 & H5). unfold header_bytes. rewrite !length_app. lia. Qed.

Lemma packet_length q : request_ok q -> 8 <= length (bytes (packet q)).
Proof.
  destruct q as [h r sp|h r sp]; intros [Hh%header_length _]; cbn [packet bytes]; unfold request_bytes; cbn [hdr];
    rewrite !length_app; lia.
Qed.

(** Read the field [f] that lies behind [pre] in a packet. *)
Ltac read_field off pre f post :=
  rewrite (field_at_app _ off _ pre f post);
  [ cbn [mbind outcome_bind]
  | unfold vmem, packet, request_bytes, header_bytes, set_bytes, get_bytes; cbn [bytes spare hdr mode_str];
    rewrite <- ?app_assoc; reflexivity
  | rewrite ?length_app; cbn [length SET GET]; unfold sizeof_RequestHeader, sizeof_Header; lia
  | done ].

Section Refinement.
Context `{Profile} (image : list Z -> list Z).

(** The whole handler, of which the answer is seen. *)
Definition serve (q : request) : M SashStore ServerValue :=
  response ← respond image (packet q); _ ← encode_reply response (packet q); mret response.

(** The memory of a key is made of bytes. *)
Definition image_bytes : Prop := forall k, Forall is_byte k -> Forall is_byte (image k).

Context (Himage : image_bytes) (j : nat) (Hj : j < 64).

(** A key whose hash leaves room for the probe distance when additions are checked. *)
Definition roomy (q : request) : Prop := no_overflow (fnv_2 (image (req_key q)) KEY_SIZE) (2 ^ j).

(** The counters have room for [left] requests. *)
Record srep (left : nat) (s : SashStore) (m : gmap (list Z) (list Z)) : Prop := mkSrep {
  s_map : irep (fun k => fnv_2 (image k) KEY_SIZE) j (map s) m;
  s_val : map_Forall (fun _ v => length v = VALUE_SIZE) m;
  s_counts : counts (memb_stats s) (2 ^ 64 - 1 - 2 * Z.of_nat left) }.

Lemma key_ok q : Forall is_byte (req_key q) -> roomy q -> hash_ok (fnv_2 (image (req_key q)) KEY_SIZE) (2 ^ j).
Proof using Himage. intros Hk Hr. split; [by apply fnv_2_width, Himage|done]. Qed.

Lemma decode_set h r sp st st' : inc_set st = Done st' -> request_ok (ReqSet h r sp) ->
  decode_as_struct (packet (ReqSet h r sp)) st =
    Done (Ok (CSet (from_le_bytes (request_id h)) (sr_key r) (from_le_bytes (sr_flags r)) (sr_value r)), st').
Proof using Type.
  intros Est Hq. unfold decode_as_struct.
  rewrite (proj2 (Nat.leb_le _ _) (packet_length _ Hq)).
  destruct Hq as (Hh & Hk & _ & Hs & Hf & Hl & He & Hv). pose proof (header_length h Hh) as Hhl. destruct Hh as (Hi & _).
  unfold KEY_SIZE, VALUE_SIZE in *. clear Himage j Hj.
  read_field sizeof_Header (header_bytes h) SET (set_bytes r ++ sp).
  rewrite decide_True by done. rewrite Est. cbn [mbind outcome_bind].
  read_field 0 ([] : list Z) (request_id h) (seq_nr h ++ dgram_tot h ++ rsvd h ++ SET ++ set_bytes r ++ sp).
  read_field sizeof_RequestHeader (header_bytes h ++ SET) (sr_key r) (space r ++ sr_flags r ++ sr_len r ++ line_end r ++ sr_value r ++ line_end1 r ++ sp).
  read_field (sizeof_RequestHeader + 8 + 1) (header_bytes h ++ SET ++ sr_key r ++ space r) (sr_flags r) (sr_len r ++ line_end r ++ sr_value r ++ line_end1 r ++ sp).
  read_field (sizeof_RequestHeader + 8 + 1 + 4 + 4 + 2) (header_bytes h ++ SET ++ sr_key r ++ space r ++ sr_flags r ++ sr_len r ++ line_end r) (sr_value r) (line_end1 r ++ sp).
  done.
Qed.

Lemma decode_get h r sp st st' : inc_get st = Done st' -> request_ok (ReqGet h r sp) ->
  decode_as_struct (packet (ReqGet h r sp)) st = Done (Ok (CGet (from_le_bytes (request_id h)) (gr_key r)), st').
Proof using Type.
  intros Est Hq. unfold decode_as_struct.
  rewrite (proj2 (Nat.leb_le _ _) (packet_length _ Hq)).
  destruct Hq as (Hh & Hk & _). pose proof (header_length h Hh) as Hhl. destruct Hh as (Hi & _).
  unfold KEY_SIZE, VALUE_SIZE in *. clear Himage j Hj.
  read_field sizeof_Header (header_bytes h) GET (get_bytes r ++ sp).
  rewrite decide_False, decide_True by done. rewrite Est. cbn [mbind outcome_bind].
  read_field 0 ([] : list Z) (request_id h) (seq_nr h ++ dgram_tot h ++ rsvd h ++ GET ++ get_bytes r ++ sp).
  read_field sizeof_RequestHeader (header_bytes h ++ GET) (gr_key r) (gr_line_end r ++ sp).
  done.
Qed.

Lemma try_extend_ok n l : length l = n -> try_extend n l = Done l.
Proof using Type. intros <-. unfold try_extend. by rewrite Nat.leb_refl. Qed.

Lemma execute_set id k flags v s m : irep (fun k => fnv_2 (image k) KEY_SIZE) j (map s) m -> hash_ok (fnv_2 (image k) KEY_SIZE) (2 ^ j) ->
  length k = KEY_SIZE -> length v = VALUE_SIZE ->
  if decide (m !! k = None /\ 2 ^ j <= size m) then execute_cmd image (CSet id k flags v) s = Panic
  else exists x, execute_cmd image (CSet id k flags v) s = Done (Stored id, with_map x s) /\ irep (fun k => fnv_2 (image k) KEY_SIZE) j x (<[k := v]> m).
Proof using Hj.
  intros R Hh Hk Hv. unfold execute_cmd. rewrite Hk. cbn [Nat.leb KEY_SIZE].
  rewrite (try_extend_ok _ _ Hk), bind_lift, (try_extend_ok _ _ Hv), bind_lift, bind_gets. unfold Index_insert. cbn [key mem full_key].
  pose proof (insert_hashed_spec (fun k => fnv_2 (image k) KEY_SIZE) j Hj _ _ k v R Hh) as Hs. cbn beta in Hs.
  destruct (decide _); [by rewrite Hs|]. destruct Hs as (x' & -> & R'). exists x'. by split.
Qed.

Lemma execute_get id k s m : irep (fun k => fnv_2 (image k) KEY_SIZE) j (map s) m -> hash_ok (fnv_2 (image k) KEY_SIZE) (2 ^ j) -> length k = KEY_SIZE ->
  execute_cmd image (CGet id k) s = Done (match m !! k with Some v => Value id k v | None => NoReply end, s).
Proof using Hj.
  intros R Hh Hk. unfold execute_cmd. rewrite Hk. cbn [Nat.leb KEY_SIZE]. rewrite bind_assert.
  rewrite (try_extend_ok _ _ Hk), bind_lift, bind_gets. unfold Index_get. cbn [key mem full_key].
  rewrite (get_hashed_spec (fun k => fnv_2 (image k) KEY_SIZE) j Hj _ _ k R Hh), bind_lift.
  by destruct (m !! k).
Qed.

(** The buffer of a lookup holds the longest reply. *)
Lemma get_room h r sp : request_ok (ReqGet h r sp) -> 43 <= length (vmem (packet (ReqGet h r sp))).
Proof using Type.
  clear. intros (Hh%header_length & Hk & _ & Hl & Hsp). unfold vmem, packet, request_bytes, get_bytes. cbn [bytes spare hdr mode_str].
  rewrite !length_app, Hh, Hk, Hl. unfold KEY_SIZE. cbn [length GET]. lia.
Qed.

Lemma respond_set left h r sp s m : srep (S left) s m -> request_ok (ReqSet h r sp) -> roomy (ReqSet h r sp) ->
  if decide (m !! sr_key r = None /\ 2 ^ j <= size m) then respond image (packet (ReqSet h r sp)) s = Panic
  else exists s' st, respond image (packet (ReqSet h r sp)) s = Done (Stored (from_le_bytes (request_id h)), s') /\
    inc_stored (memb_stats s') = Done st /\ srep left (with_memb_stats st s') (<[sr_key r := sr_value r]> m).
Proof using Himage Hj.
  intros [R Hval Hc] Hq Hr. unfold respond. rewrite bind_gets. destruct (inc_set_counts _ _ Hc ltac:(lia)) as (st1 & E1 & C1).
  rewrite (decode_set h r sp _ _ E1 Hq), bind_lift, bind_modify. cbn [fst snd].
  destruct Hq as (_ & Hk & Hb & _ & _ & _ & _ & Hv).
  pose proof (execute_set (from_le_bytes (request_id h)) (sr_key r) (from_le_bytes (sr_flags r)) (sr_value r) (with_memb_stats st1 s) m R
    (key_ok (ReqSet h r sp) Hb Hr) Hk Hv) as He. destruct (decide _); [done|]. destruct He as (x & -> & R').
  destruct (inc_stored_counts _ _ C1 ltac:(lia)) as (st2 & E2 & C2). exists (with_map x (with_memb_stats st1 s)), st2. split_and!; [done..|].
  split; [done|by apply map_Forall_insert_2|]. cbn. by replace (2 ^ 64 - 1 - 2 * Z.of_nat left)%Z with (2 ^ 64 - 1 - 2 * Z.of_nat (S left) + 1 + 1)%Z by lia.
Qed.

Lemma respond_get left h r sp s m : srep (S left) s m -> request_ok (ReqGet h r sp) -> roomy (ReqGet h r sp) ->
  exists s', respond image (packet (ReqGet h r sp)) s = Done (match m !! gr_key r with Some v => Value (from_le_bytes (request_id h)) (gr_key r) v | None => NoReply end, s') /\
    (exists st, inc_retrieved (memb_stats s') = Done st /\ srep left (with_memb_stats st s') m) /\
    (exists st, inc_not_found (memb_stats s') = Done st /\ srep left (with_memb_stats st s') m).
Proof using Himage Hj.
  intros [R Hval Hc] Hq Hr. unfold respond. rewrite bind_gets. destruct (inc_get_counts _ _ Hc ltac:(lia)) as (st1 & E1 & C1).
  rewrite (decode_get h r sp _ _ E1 Hq), bind_lift, bind_modify. cbn [fst snd]. destruct Hq as (_ & Hk & Hb & _).
  exists (with_memb_stats st1 s). split; [exact (execute_get _ _ (with_memb_stats st1 s) m R (key_ok (ReqGet h r sp) Hb Hr) Hk)|].
  assert (El : (2 ^ 64 - 1 - 2 * Z.of_nat left = 2 ^ 64 - 1 - 2 * Z.of_nat (S left) + 1 + 1)%Z) by lia.
  split; [destruct (inc_retrieved_counts _ _ C1 ltac:(lia)) as (st2 & E2 & C2)|destruct (inc_not_found_counts _ _ C1 ltac:(lia)) as (st2 & E2 & C2)];
    (exists st2; split; [done|]; split; [done|done|]; cbn; by rewrite El).
Qed.

Lemma serve_sim left q s m : srep (S left) s m -> request_ok q /\ roomy q -> simulates (srep left) (serve q s) (answer_step (2 ^ j) q m).
Proof using Himage Hj.
  intros R [Hq Hr]. unfold serve. destruct q as [h r sp|h r sp]; cbn [answer_step].
  - pose proof (respond_set left h r sp s m R Hq Hr) as Hs. destruct (decide _); [unfold mbind, M_bind; by rewrite Hs|].
    destruct Hs as (s' & st & E & Est & R'). mstep E. unfold encode_reply, buf_encode. rewrite bind_assoc, bind_gets, bind_assoc, Est. cbn [mbind outcome_bind].
    rewrite bind_lift, bind_assoc, bind_modify. cbn [snd]. by apply simulates_Done.
  - destruct (respond_get left h r sp s m R Hq Hr) as (s' & E & (st & Est & R') & (st2 & Est2 & R2)). mstep E.
    unfold encode_reply. rewrite bind_assoc, bind_gets, bind_assoc. destruct (m !! gr_key r) as [v|] eqn:Ev.
    + destruct (encode_value (from_le_bytes (request_id h)) (gr_key r) v _ _ (packet (ReqGet h r sp)) Est (proj1 (proj2 Hq)) (s_val _ _ _ R _ _ Ev) (get_room _ _ _ Hq)) as (b' & -> & _).
      rewrite bind_lift, bind_assoc, bind_modify. cbn [snd]. by apply simulates_Done.
    + unfold buf_encode. rewrite Est2. cbn [mbind outcome_bind]. rewrite bind_lift, bind_assoc, bind_modify. cbn [snd]. by apply simulates_Done.
Qed.

(** The bytes of the reply to a lookup that found a value. *)
Lemma found_reply_bytes left h r sp s m v : srep (S left) s m -> request_ok (ReqGet h r sp) -> roomy (ReqGet h r sp) -> m !! gr_key r = Some v ->
  exists buf s', handle_network_request image (packet (ReqGet h r sp)) s = Done (buf, s') /\
    bytes buf = reverse (request_id h) ++ replicate 12 0%Z ++ gr_key r ++ [0; 0]%Z.
Proof using Himage Hj.
  intros R Hq Hr Ev. unfold handle_network_request. destruct (respond_get left h r sp s m R Hq Hr) as (s' & E & (st & Est & R') & _). mstep E.
  unfold encode_reply. rewrite bind_gets, Ev.
  destruct (encode_value (from_le_bytes (request_id h)) (gr_key r) v _ _ (packet (ReqGet h r sp)) Est (proj1 (proj2 Hq)) (s_val _ _ _ R _ _ Ev) (get_room _ _ _ Hq)) as (b' & -> & Hb).
  rewrite bind_lift, bind_modify. cbn [fst snd mret M_ret]. eexists _, _. split; [reflexivity|]. rewrite Hb. unfold found_reply.
  destruct Hq as ((Hi & Hib & _) & _). rewrite <- Hi at 1. by rewrite to_be_from_le by done.
Qed.
End Refinement.

(** ** The cursor of the text decoder *)

Lemma position_app byte w post : byte ∉ w -> position byte (w ++ byte :: post) = Some (length w).
Proof.
  induction w as [|b w IH]; intros Hn; cbn [app position length]; [by rewrite Z.eqb_refl|].
  destruct (Z.eqb_spec b byte) as [->|]; [set_solver|]. rewrite IH by set_solver. done.
Qed.

Lemma find_pair_app a b w post : a ∉ w -> find_pair a b (w ++ a :: b :: post) = Some (length w).
Proof.
  induction w as [|x w IH]; intros Hn; cbn [app find_pair length]; [by rewrite !Z.eqb_refl|].
  destruct (Z.eqb_spec x a) as [->|]; [set_solver|]. cbn [andb]. rewrite IH by set_solver. by destruct w.
Qed.

Section Cursor.
Context `{Profile} (reader : list Z).

Lemma read_until_spec byte pre w post c :
  reader = pre ++ w ++ byte :: post -> c = length pre -> (byte ∉ w) ->
  read_until reader byte c = Done (w ++ [byte], length (pre ++ w ++ [byte])).
Proof.
  intros -> -> Hn. unfold read_until. rewrite bind_gets. cbn [id]. rewrite drop_app_length, position_app by done.
  unfold put, mbind, M_bind, mret, M_ret. do 2 f_equal.
  - rewrite cons_middle, app_assoc, take_app_length' by (rewrite length_app; cbn [length]; lia). done.
  - rewrite !length_app. cbn [length]. lia.
Qed.

Lemma read_until_excluding_spec byte pre w post c :
  reader = pre ++ w ++ byte :: post -> c = length pre -> (byte ∉ w) ->
  read_until_excluding reader byte c = Done (w, length (pre ++ w ++ [byte])).
Proof.
  intros Hr Hc Hn. unfold read_until_excluding. mstep (read_until_spec byte pre w post c Hr Hc Hn).
  rewrite length_app. cbn [length]. destruct (Nat.eqb_spec (length w + 1) 0) as [|_]; [lia|].
  rewrite take_app_length' by lia. done.
Qed.

Lemma skip_until_newline_spec pre mid post c :
  reader = pre ++ mid ++ 13%Z :: 10%Z :: post -> c = length pre -> (13%Z ∉ mid) ->
  skip_until_newline reader c = Done (tt, S (length (pre ++ mid ++ [13; 10]%Z))).
Proof.
  intros -> -> Hn. unfold skip_until_newline. rewrite bind_gets. cbn [id].
  destruct (Nat.leb_spec (length pre) (length (pre ++ mid ++ 13%Z :: 10%Z :: post))) as [_|Hlt]; [|rewrite length_app in Hlt; lia].
  rewrite bind_assert, drop_app_length, find_pair_app by done. unfold put. do 2 f_equal.
  rewrite !length_app. cbn [length]. lia.
Qed.
End Cursor.

(** The frame header of a text request: identifier, one datagram. *)
Definition text_header (a b : Z) : list Z := [a; b; 0; 0; 0; 1; 0; 0]%Z.

Lemma decode_header `{Profile} a b rest c :
  decode (text_header a b ++ rest) c = decode_op (text_header a b ++ rest) (from_be_bytes [a; b; 0; 0]%Z) 8.
Proof. unfold decode, debug_assert. by destruct overflow_checks. Qed.

(** The text decoder reads the key, flags and value of a [set] request and the key
    of a [get] request; from the value of a [set] it drops the first byte. *)
Theorem text_requests_decoded `{Profile} (a b c0 : Z) (key flags mid value rest : list Z) (c : nat) :
  (32%Z ∉ key) -> (13%Z ∉ key) -> (32%Z ∉ flags) -> length flags <= 3 -> (13%Z ∉ mid) -> (13%Z ∉ value) ->
  shows (decode (text_header a b ++ GET ++ key ++ 13%Z :: rest) c) =
    Done (Ok (CGet (from_be_bytes [a; b; 0; 0]%Z) key)) /\
  shows (decode (text_header a b ++ SET ++ key ++ 32%Z :: flags ++ 32%Z :: mid ++ CRLF ++ (c0 :: value) ++ 13%Z :: rest) c) =
    Done (Ok (CSet (from_be_bytes [a; b; 0; 0]%Z) key (from_be_bytes (flag_bytes (flags ++ [32%Z]))) value)).
Proof.
  intros Hk Hk' Hf Hfl Hm Hv. split; rewrite decode_header; unfold decode_op; set (reader := text_header a b ++ _).
  - mstep (read_until_spec reader 32 (text_header a b) [103; 101; 116]%Z (key ++ 13%Z :: rest) 8 eq_refl eq_refl ltac:(set_solver)).
    rewrite decide_False, decide_True by done.
    mstep (read_until_excluding_spec reader 13 (text_header a b ++ GET) key rest (length (text_header a b ++ GET)) eq_refl eq_refl Hk').
    done.
  - mstep (read_until_spec reader 32 (text_header a b) [115; 101; 116]%Z _ 8 eq_refl eq_refl ltac:(set_solver)).
    rewrite decide_True by done. set (p1 := text_header a b ++ SET).
    mstep (read_until_excluding_spec reader 32 p1 key _ (length p1) eq_refl eq_refl Hk).
    set (p2 := p1 ++ key ++ [32%Z]).
    mstep (read_until_spec reader 32 p2 flags (mid ++ CRLF ++ (c0 :: value) ++ 13%Z :: rest) (length p2)
      ltac:(unfold reader, p2, p1; rewrite <- !app_assoc; reflexivity) eq_refl Hf).
    assert (Hd : forall n, debug_assert (length (flags ++ [32%Z]) <=? 4) n = Done (tt, n)).
    { intros n. unfold debug_assert. rewrite length_app. cbn [length]. rewrite (proj2 (Nat.leb_le _ 4)) by lia. by destruct overflow_checks. }
    mstep (Hd (length (p2 ++ flags ++ [32%Z]))). set (p3 := p2 ++ flags ++ [32%Z]).
    mstep (skip_until_newline_spec reader p3 mid ((c0 :: value) ++ 13%Z :: rest) (length p3)
      ltac:(unfold reader, p3, p2, p1; rewrite <- !app_assoc; reflexivity) eq_refl Hm).
    set (p4 := p3 ++ mid ++ CRLF ++ [c0]).
    mstep (read_until_excluding_spec reader 13 p4 value rest (S (length (p3 ++ mid ++ [13; 10]%Z)))
      ltac:(unfold reader, p4, p3, p2, p1; rewrite <- !app_assoc; reflexivity)
      ltac:(unfold p4; rewrite !length_app; cbn [length CRLF]; lia) Hv).
    done.
Qed.

(** ** The handler of the flat table *)

Lemma slice_app l n1 n2 a f b : l = a ++ f ++ b -> n1 = length a -> n2 = n1 + length f -> slice n1 n2 l = Done f.
Proof.
  intros -> -> ->. unfold slice. rewrite (proj2 (Nat.leb_le _ _)) by lia. rewrite !length_app, (proj2 (Nat.leb_le _ _)) by lia.
  cbn [andb]. rewrite drop_app_length, take_app_length' by lia. done.
Qed.

Definition answer_simple (key_words : list Z) (cap : nat) (q : request) (m : gmap (list Z) (list Z))
    : outcome (list Z * gmap (list Z) (list Z)) :=
  match q with
  | ReqSet h r _ =>
      if decide (m !! sr_key r = None /\ cap <= size m) then Done (request_id h ++ [0; 0; 0; 1; 0; 0]%Z ++ NOT_STORED, m)
      else Done (request_id h ++ [0; 0; 0; 1; 0; 0]%Z ++ STORED, <[sr_key r := sr_value r]> m)
  | ReqGet h r _ =>
      Done (match m !! gr_key r with
            | Some _ => request_id h ++ replicate 12 0%Z ++ take 10 key_words
            | None => NOT_FOUND
            end, m)
  end.

Definition simple_ok (q : request) : Prop :=
  request_ok q /\ match q with ReqSet _ r _ => sr_key r <> zeros | ReqGet _ r sp => gr_key r <> zeros /\ 75 <= length sp end.

Section SimpleHandler.
Context `{Profile} (Hrel : overflow_checks = false) (key_words val_words : list Z).
Context (Hkw : length key_words = 64) (Hvw : length val_words = 64) (j : nat) (Hj : j < 64).

Definition serve_simple (q : request) (s : SashStore) : outcome (list Z * SashStore) :=
  r ← handle_network_request_simple key_words val_words (packet q) s; Done (bytes (fst r), snd r).

Record simple_rep (s : SashStore) (m : gmap (list Z) (list Z)) : Prop := mkSimpleRep {
  sp_cap : capacity (map s) = 2 ^ j;
  sp_flat : trep pair_key fnv_3 j pair_val (ntable s) m }.

Lemma simple_key_ok k : Forall is_byte k -> hash_ok (fnv_3 k) (2 ^ j).
Proof using Hrel. intros Hk. split; [by apply (fnv_width k)|by left]. Qed.

Lemma insert_simple_spec k v nt m : trep pair_key fnv_3 j pair_val nt m ->
  length k = KEY_SIZE -> Forall is_byte k -> k <> zeros -> length v = VALUE_SIZE ->
  exists nt', insert_simple (2 ^ j) k v nt = Done (if decide (m !! k = None /\ 2 ^ j <= size m) then false else true, nt') /\
    trep pair_key fnv_3 j pair_val nt' (if decide (m !! k = None /\ 2 ^ j <= size m) then m else <[k := v]> m).
Proof using Hj Hrel.
  intros R Hk Hb Hz Hv. assert (Hok : flat_ok j (OInsert k v)) by (split_and!; try done; by apply simple_key_ok).
  pose proof (flat_sim j Hj (OInsert k v) nt m R Hok) as Hs. cbn [flat_step flat_map_step] in Hs.
  destruct (insert_simple (2 ^ j) k v nt) as [[b nt']| |]; cbn [mbind outcome_bind fst snd simulates] in Hs.
  - exists nt'. destruct (decide _); destruct Hs as [[= ->] R']; done.
  - by destruct (decide _).
  - by destruct (decide _).
Qed.

Lemma get_simple_spec k nt m : trep pair_key fnv_3 j pair_val nt m ->
  length k = KEY_SIZE -> Forall is_byte k -> k <> zeros ->
  exists e, get_simple (2 ^ j) k nt = Done (bool_decide (is_Some (m !! k)), e).
Proof using Hj Hrel.
  intros R Hk Hb Hz. assert (Hok : flat_ok j (OGet k)) by (split_and!; try done; by apply simple_key_ok).
  pose proof (flat_sim j Hj (OGet k) nt m R Hok) as Hs. cbn [flat_step flat_map_step] in Hs.
  destruct (get_simple (2 ^ j) k nt) as [[b e]| |]; cbn [mbind outcome_bind fst snd simulates] in Hs; [|done|done].
  exists e. destruct (m !! k); destruct Hs as [[= -> _] _]; done.
Qed.

Lemma count_release f (s : SashStore) : (forall st, exists st', f st = Done st') ->
  exists st', count f s = Done (tt, with_stats st' s).
Proof using Type. intros Hf. unfold count. rewrite bind_gets. destruct (Hf (stats s)) as [st' ->]. rewrite bind_lift. by eexists. Qed.

(** Where the fields of a request are. *)
Lemma packet_fields q : request_ok q ->
  8 <= length (bytes (packet q)) /\
  match q with
  | ReqSet h r _ =>
      slice 0 4 (bytes (packet q)) = Done (request_id h) /\ slice 10 14 (bytes (packet q)) = Done SET /\
      slice 14 22 (bytes (packet q)) = Done (sr_key r) /\ slice 33 41 (bytes (packet q)) = Done (sr_value r)
  | ReqGet h r _ =>
      slice 0 4 (bytes (packet q)) = Done (request_id h) /\ slice 10 14 (bytes (packet q)) = Done GET /\
      slice 14 22 (bytes (packet q)) = Done (gr_key r)
  end.
Proof using Type.
  clear. intros Hq. split; [by apply packet_length|]. destruct q as [h r sp|h r sp].
  - destruct Hq as (Hh & Hk & _ & Hs & Hf & Hl & He & Hv). pose proof (header_length h Hh) as Hhl. destruct Hh as (Hi & _).
    cbn [packet bytes]. unfold KEY_SIZE, VALUE_SIZE in *. split_and!.
    + apply (slice_app _ _ _ [] (request_id h) (seq_nr h ++ dgram_tot h ++ rsvd h ++ SET ++ set_bytes r)); [|done|cbn; lia].
      unfold request_bytes, header_bytes; cbn [hdr mode_str]; by rewrite <- !app_assoc.
    + apply (slice_app _ _ _ (header_bytes h) SET (set_bytes r)); [|done|done].
      unfold request_bytes; cbn [hdr mode_str]; by rewrite <- !app_assoc.
    + apply (slice_app _ _ _ (header_bytes h ++ SET) (sr_key r) (space r ++ sr_flags r ++ sr_len r ++ line_end r ++ sr_value r ++ line_end1 r)).
      * unfold request_bytes, set_bytes; cbn [hdr mode_str]; by rewrite <- !app_assoc.
      * rewrite length_app. cbn [length SET]. lia.
      * lia.
    + apply (slice_app _ _ _ (header_bytes h ++ SET ++ sr_key r ++ space r ++ sr_flags r ++ sr_len r ++ line_end r) (sr_value r) (line_end1 r)).
      * unfold request_bytes, set_bytes; cbn [hdr mode_str]; by rewrite <- !app_assoc.
      * rewrite !length_app. cbn [length SET]. lia.
      * lia.
  - destruct Hq as (Hh & Hk & _). pose proof (header_length h Hh) as Hhl. destruct Hh as (Hi & _).
    cbn [packet bytes]. unfold KEY_SIZE in *. split_and!.
    + apply (slice_app _ _ _ [] (request_id h) (seq_nr h ++ dgram_tot h ++ rsvd h ++ GET ++ get_bytes r)); [|done|cbn; lia].
      unfold request_bytes, header_bytes; cbn [hdr mode_str]; by rewrite <- !app_assoc.
    + apply (slice_app _ _ _ (header_bytes h) GET (get_bytes r)); [|done|done].
      unfold request_bytes; cbn [hdr mode_str]; by rewrite <- !app_assoc.
    + apply (slice_app _ _ _ (header_bytes h ++ GET) (gr_key r) (gr_line_end r)).
      * unfold request_bytes, get_bytes; cbn [hdr mode_str]; by rewrite <- !app_assoc.
      * rewrite length_app. cbn [length GET]. lia.
      * lia.
Qed.

Lemma reply_bytes id s b : length id = 4 -> Forall is_byte id ->
  bytes (extend_from_slice s (reply_header (from_be_bytes id) (vclear b))) = id ++ [0; 0; 0; 1; 0; 0]%Z ++ s.
Proof using Type.
  clear. intros Hl Hb. unfold reply_header, extend_from_slice, vclear. cbn [bytes]. rewrite <- !app_assoc, app_nil_l.
  rewrite <- Hl at 1. rewrite to_from_be_bytes by done. done.
Qed.

Lemma simple_stats st s m : simple_rep s m -> simple_rep (with_stats st s) m.
Proof using Type. by intros []. Qed.

Lemma serve_simple_set h r sp s m : simple_rep s m -> simple_ok (ReqSet h r sp) ->
  simulates simple_rep (serve_simple (ReqSet h r sp) s) (answer_simple key_words (2 ^ j) (ReqSet h r sp) m).
Proof using Hj Hrel.
  intros [Hc R] [Hq Hz]. destruct (packet_fields _ Hq) as (Hlen & Ei & Eo & Ek & Ev).
  destruct Hq as ((Hi & Hib & _) & Hk & Hb & _ & _ & _ & _ & Hv).
  unfold serve_simple, handle_network_request_simple. rewrite (proj2 (Nat.leb_le _ _) Hlen), bind_assert.
  rewrite Ei, bind_lift, Eo, bind_lift, bind_gets, decide_True by done. unfold KEY_SIZE, VALUE_SIZE. cbn [Nat.add].
  rewrite Ek, bind_lift, Ev, bind_lift, bind_gets, Hc.
  destruct (insert_simple_spec (sr_key r) (sr_value r) (ntable s) m R Hk Hb Hz Hv) as (nt' & -> & R').
  rewrite bind_lift, bind_modify. cbn [fst snd answer_simple]. destruct (decide _).
  - destruct (count_release inc_not_stored (with_ntable nt' s)) as [st1 E1]; [apply inc_not_stored_release, Hrel|]. mstep E1.
    destruct (count_release inc_set (with_stats st1 (with_ntable nt' s))) as [st2 E2]; [apply inc_set_release, Hrel|]. mstep E2.
    cbn [mret M_ret mbind outcome_bind fst snd]. rewrite reply_bytes by done. by apply simulates_Done.
  - destruct (count_release inc_stored (with_ntable nt' s)) as [st1 E1]; [apply inc_stored_release, Hrel|]. mstep E1.
    destruct (count_release inc_set (with_stats st1 (with_ntable nt' s))) as [st2 E2]; [apply inc_set_release, Hrel|]. mstep E2.
    cbn [mret M_ret mbind outcome_bind fst snd]. rewrite reply_bytes by done. by apply simulates_Done.
Qed.

Lemma serve_simple_get h r sp s m : simple_rep s m -> simple_ok (ReqGet h r sp) ->
  simulates simple_rep (serve_simple (ReqGet h r sp) s) (answer_simple key_words (2 ^ j) (ReqGet h r sp) m).
Proof using Hj Hrel Hkw Hvw.
  intros [Hc R] [Hq [Hz Hsp]]. destruct (packet_fields _ Hq) as (Hlen & Ei & Eo & Ek).
  assert (Hcap : 99 <= length (vmem (vclear (packet (ReqGet h r sp))))).
  { destruct Hq as (Hh%header_length & Hk & _ & Hl & _). unfold vmem, vclear, vmem, packet, request_bytes, get_bytes.
    cbn [bytes spare hdr mode_str]. rewrite !length_app, Hh, Hk, Hl. unfold KEY_SIZE. cbn [length GET]. lia. }
  destruct Hq as ((Hi & Hib & _) & Hk & Hb & _).
  unfold serve_simple, handle_network_request_simple. rewrite (proj2 (Nat.leb_le _ _) Hlen), bind_assert.
  rewrite Ei, bind_lift, Eo, bind_lift, bind_gets, decide_False, decide_True by done.
  destruct (count_release inc_get s) as [st1 E1]; [apply inc_get_release, Hrel|]. mstep E1.
  unfold KEY_SIZE, VALUE_SIZE. cbn [Nat.add]. rewrite Ek, bind_lift, bind_gets, Hc.
  destruct (get_simple_spec (gr_key r) (ntable s) m R Hk Hb Hz) as (e & Eg).
  change (ntable (with_stats st1 s)) with (ntable s). rewrite Eg, bind_lift. cbn [fst snd answer_simple].
  destruct (m !! gr_key r) as [v|]; cbn [bool_decide].
  - rewrite bool_decide_true by eauto.
    destruct (get_reply_copies (response_bytes (GetResponse_new (from_be_bytes (request_id h)))) key_words val_words
      (vclear (packet (ReqGet h r sp)))) as (b1 & b2 & b3 & b4 & F1 & F2 & F3 & F4 & Hb4); [apply response_length|lia|lia|].
    rewrite F1, bind_lift, F2, bind_lift, F3, bind_lift. change sizeof_GetResponse with 26. rewrite F4, bind_lift.
    destruct (count_release inc_retrieved (with_stats st1 s)) as [st2 E2]; [apply inc_retrieved_release, Hrel|]. mstep E2.
    cbn [mret M_ret mbind outcome_bind fst snd]. rewrite Hb4, response_take, take_app_le by lia.
    rewrite <- Hi at 1. rewrite to_from_be_bytes, <- app_assoc by done. by apply simulates_Done.
  - rewrite bool_decide_false by (by intros []).
    destruct (count_release inc_not_found (with_stats st1 s)) as [st2 E2]; [apply inc_not_found_release, Hrel|]. mstep E2.
    cbn [mret M_ret mbind outcome_bind fst snd]. by apply simulates_Done.
Qed.
End SimpleHandler.

Lemma new_srep `{Profile} image j left : (2 * Z.of_nat left < 2 ^ 64)%Z -> srep image j left (SashStore_with_capacity (2 ^ j)) ∅.
Proof. intros Hl. split; [apply with_capacity_irep|apply map_Forall_empty|]. right. rewrite !list.Forall_cons. cbn. split_and!; first [lia | constructor]. Qed.

Lemma new_simple_rep j : simple_rep j (SashStore_with_capacity (2 ^ j)) ∅.
Proof.
  assert (Hc : capacity (with_capacity (2 ^ j) : Index (list Z) (list Z)) = 2 ^ j) by apply (with_capacity_irep fnv_3 j).
  split; [done|]. cbn [SashStore_with_capacity ntable]. rewrite Hc. apply init_flat.
Qed.

(** C10: a server that starts empty with 2^j buckets answers every sequence of well-formed
    binary requests as a map of at most 2^j keys: a lookup is answered with the key and the
    value that was set last, or as not found, a [set] as stored; a [set] of a new key panics
    when the map is full.  The answers are those that the server computes, before it writes
    them into the packet, and the identifiers are read with the low byte first.  In builds
    with overflow checks the hash of a key must leave room for the probe distance. *)
Theorem server_refines_map `{Profile} (image : list Z -> list Z) (j : nat) (qs : list request) :
  image_bytes image -> j < 64 -> (2 * Z.of_nat (length qs) < 2 ^ 64)%Z -> Forall (fun q => request_ok q /\ roomy image j q) qs ->
  shows (runs (serve image) qs (SashStore_with_capacity (2 ^ j))) = shows (runs (answer_step (2 ^ j)) qs ∅).
Proof.
  intros Hi Hj Hn Hqs. eapply simulates_shows, (runs_simulates_left (srep image j) _); [|exact Hqs|by apply new_srep].
  intros k q s m. by apply serve_sim.
Qed.

(** C38: whatever value a key has, the packet sent for a lookup of it carries no byte of the
    value: it has the identifier with its bytes reversed, twelve zeros, the key and two zeros. *)
Theorem get_reply_without_value `{Profile} (image : list Z -> list Z) (j left : nat) (s : SashStore) (m : gmap (list Z) (list Z)) h r sp v :
  image_bytes image -> j < 64 -> srep image j (S left) s m -> request_ok (ReqGet h r sp) -> roomy image j (ReqGet h r sp) -> m !! gr_key r = Some v ->
  exists buf s', handle_network_request image (packet (ReqGet h r sp)) s = Done (buf, s') /\
    bytes buf = reverse (request_id h) ++ replicate 12 0%Z ++ gr_key r ++ [0; 0]%Z.
Proof. intros Hi Hj R Hq Hr Ev. by apply (found_reply_bytes image Hi j Hj left h r sp s m v). Qed.

(** The server over the flat table stores a pair unless its key is new and the
    table is full, and answers from the same map with the identifier of the request; but
    the reply to a successful [get] carries ten bytes of the server's stack. *)
Theorem simple_server_refines_map `{Profile} (key_words val_words : list Z) (j : nat) (qs : list request) :
  overflow_checks = false -> length key_words = 64 -> length val_words = 64 -> j < 64 -> Forall simple_ok qs ->
  shows (runs (serve_simple key_words val_words) qs (SashStore_with_capacity (2 ^ j))) =
    shows (runs (answer_simple key_words (2 ^ j)) qs ∅).
Proof.
  intros Hrel Hk Hv Hj Hqs. eapply simulates_shows, (runs_simulates _ simple_ok); [|done|apply new_simple_rep].
  intros [h r sp|h r sp] s m R Hq; [by apply serve_simple_set|by apply serve_simple_get].
Qed.

(** *** Examples *)

(** An [ArrayVec] is its bytes and its length. *)
Definition ex_image (k : list Z) : list Z := k ++ [(Z.of_nat (length k) mod 256)%Z].

Lemma ex_image_bytes : image_bytes ex_image.
Proof.
  intros k Hk. apply Forall_app. split; [done|]. constructor; [|done]. unfold is_byte, in_width.
  pose proof (Z.mod_pos_bound (Z.of_nat (length k)) 256). lia.
Qed.

Definition ex_header : Header := mkHeader [1; 2; 3; 4]%Z [0; 0]%Z [0; 1]%Z [0; 0]%Z.
Definition ex_set (n v : Z) : request :=
  ReqSet ex_header (mkSetReq (byte_key n) [32]%Z (replicate 4 53%Z) [49; 48; 50; 51]%Z CRLF (byte_key v) CRLF) [].
Definition ex_get (n : Z) : request := ReqGet ex_header (mkGetReq (byte_key n) CRLF) (replicate 75 0%Z).
Definition ex_requests : list request := [ex_set 1 10; ex_get 1; ex_get 2; ex_set 5 20; ex_get 5].

Lemma ex_simple_ok : Forall simple_ok ex_requests.
Proof.
  repeat (constructor; [split; [split_and!; try done; (apply (bool_decide_unpack _); vm_compute; done)|try split; vm_compute; (congruence || lia)]|]).
  constructor.
Qed.

#[export] Instance roomy_dec `{Profile} image j q : Decision (roomy image j q).
Proof. unfold roomy, no_overflow. apply _. Defined.

Lemma ex_requests_ok : Forall (fun q => request_ok q /\ roomy (H := true) ex_image 2 q) ex_requests.
Proof.
  apply list.Forall_and. split; [eapply Forall_impl; [|exact ex_simple_ok]; by intros q []|]. apply (bool_decide_unpack _). vm_compute. done.
Qed.

Lemma server_refines_map_witness :
  shows (runs (serve (H := true) ex_image) ex_requests (SashStore_with_capacity 4)) =
    Done [Stored 67305985; Value 67305985 (byte_key 1) (byte_key 10); NoReply; Stored 67305985; Value 67305985 (byte_key 5) (byte_key 20)].
Proof.
  etrans; [apply (server_refines_map (H := true) ex_image 2 ex_requests ex_image_bytes ltac:(lia) ltac:(cbn; lia) ex_requests_ok)|vm_compute; reflexivity].
Defined.

(** A server of four buckets that holds one pair. *)
Definition ex_stored : SashStore :=
  match runs (serve (H := true) ex_image) [ex_set 1 10] (SashStore_with_capacity 4) with Done (_, s) => s | _ => SashStore_with_capacity 4 end.

Lemma ex_stored_rep : srep (H := true) ex_image 2 1 ex_stored {[byte_key 1 := byte_key 10]}.
Proof.
  pose proof (serve_sim (H := true) ex_image ex_image_bytes 2 ltac:(lia) 1 (ex_set 1 10) (SashStore_with_capacity 4) ∅ (new_srep (H := true) ex_image 2 2 ltac:(lia))
    (proj1 (proj1 (list.Forall_cons _ _ _) ex_requests_ok))) as Hq.
  assert (E : exists a, serve (H := true) ex_image (ex_set 1 10) (SashStore_with_capacity 4) = Done (a, ex_stored)) by (eexists; vm_compute; reflexivity).
  destruct E as [a E]. rewrite E in Hq. by destruct Hq as [_ Hq].
Qed.

Lemma get_reply_without_value_witness :
  exists buf s', handle_network_request (H := true) ex_image (packet (ex_get 1)) ex_stored = Done (buf, s') /\
    bytes buf = [4; 3; 2; 1]%Z ++ replicate 12 0%Z ++ byte_key 1 ++ [0; 0]%Z.
Proof.
  apply (get_reply_without_value (H := true) ex_image 2 0 ex_stored {[byte_key 1 := byte_key 10]} ex_header (mkGetReq (byte_key 1) CRLF) (replicate 75 0%Z) (byte_key 10));
    [exact ex_image_bytes|lia|exact ex_stored_rep| | |by rewrite lookup_singleton_eq].
  - apply (proj1 (list.Forall_forall _ _) ex_requests_ok (ex_get 1)). right. left.
  - apply (bool_decide_unpack _). vm_compute. done.
Defined.

Lemma simple_server_refines_map_witness :
  shows (runs (serve_simple (H := false) (replicate 64 7%Z) (replicate 64 9%Z)) ex_requests (SashStore_with_capacity 4)) =
    Done [[1; 2; 3; 4; 0; 0; 0; 1; 0; 0]%Z ++ STORED; [1; 2; 3; 4]%Z ++ replicate 12 0%Z ++ replicate 10 7%Z; NOT_FOUND;
          [1; 2; 3; 4; 0; 0; 0; 1; 0; 0]%Z ++ STORED; [1; 2; 3; 4]%Z ++ replicate 12 0%Z ++ replicate 10 7%Z].
Proof.
  etrans; [apply (simple_server_refines_map (H := false) (replicate 64 7%Z) (replicate 64 9%Z) 2 ex_requests eq_refl eq_refl eq_refl ltac:(lia) ex_simple_ok)|].
  vm_compute. reflexivity.
Defined.

Lemma text_requests_decoded_witness :
  shows (decode (H := true) (text_header 7 8 ++ GET ++ [107; 101; 121]%Z ++ 13%Z :: [10]%Z) 0) = Done (Ok (CGet 117964800 [107; 101; 121]%Z)) /\
  shows (decode (H := true) (text_header 7 8 ++ SET ++ [107; 101; 121]%Z ++ 32%Z :: [48]%Z ++ 32%Z :: [48; 32; 53]%Z ++ CRLF ++ (104%Z :: [101; 108; 108; 111]%Z) ++ 13%Z :: [10]%Z) 0) =
    Done (Ok (CSet 117964800 [107; 101; 121]%Z 805306368 [101; 108; 108; 111]%Z)).
Proof.
  apply (text_requests_decoded (H := true) 7 8 104 [107; 101; 121]%Z [48]%Z [48; 32; 53]%Z [101; 108; 108; 111]%Z [10]%Z 0);
    try (by apply (bool_decide_unpack _)).
Defined.
