(* ===== verification/Utf8.v ===== *)
(** * UTF-8

    [String::from_utf8] of the standard library: which byte strings are text. *)

From Stdlib Require Import ZArith Lia.
From stdpp Require Import base list.
From stdpp Require Import options.
From S2P Require Import Prelude.

Set Default Proof Using "Type".

Definition between (a c b : Z) : bool := ((a <=? c) && (c <=? b))%Z.
Definition cont (c : Z) : bool := between 128 c 191.

Fixpoint utf8 (l : list Z) : bool :=
  match l with
  | [] => true
  | b :: l =>
      if between 0 b 127 then utf8 l
      else if between 194 b 223 then match l with c :: l => cont c && utf8 l | _ => false end
      else if between 224 b 239 then
        match l with
        | c :: d :: l =>
            (if (b =? 224)%Z then between 160 c 191 else if (b =? 237)%Z then between 128 c 159 else cont c) &&
            cont d && utf8 l
        | _ => false
        end
      else if between 240 b 244 then
        match l with
        | c :: d :: e :: l =>
            (if (b =? 240)%Z then between 144 c 191 else if (b =? 244)%Z then between 128 c 143 else cont c) &&
            cont d && cont e && utf8 l
        | _ => false
        end
      else false
  end.

(** Plain ASCII other than the line feed. *)
Definition ascii (c : Z) : Prop := (0 <= c <= 127)%Z /\ c <> 10%Z.

Lemma ascii_utf8 l : Forall ascii l -> utf8 l = true.
Proof.
  induction 1 as [|c l [Hc _] _ IH]; [done|]. cbn [utf8]. unfold between at 1.
  by rewrite (proj2 (Z.leb_le _ _)), (proj2 (Z.leb_le _ _)) by lia.
Qed.

Lemma ascii_no_lf l : Forall ascii l -> 10%Z ∉ l.
Proof. intros Hl [i Hi]%list_elem_of_lookup. by destruct (Forall_lookup_1 _ _ _ _ Hl Hi). Qed.
