(* ===== verification/Resp.v ===== *)
(** * The RESP codec of the key-value store
    (lib/external/sashstore/src/resp/{mod,value,serialize}.rs)

    The values of the Redis protocol, their encoding and the streaming decoder.  A
    [String] is its bytes, which are valid UTF-8.  The decoder pops bytes from the
    front of the reader; arrays make it call itself, so it runs on fuel, and the length
    of the reader is always enough of it.  Running out of memory or of stack is not modelled. *)

From Stdlib Require Import ZArith Lia.
From stdpp Require Import base list.
From stdpp Require Import options.
From S2P Require Import Prelude Utf8.

Set Default Proof Using "Type".


Abbreviation bytes := (list Z).

Inductive Value : Type :=
  | Null
  | NullArray
  | Str (s : bytes)
  | Error (s : bytes)
  | StaticError (s : bytes)
  | Integer (i : Z)
  | Bulk (s : bytes)
  | BufBulk (b : bytes)
  | Array (vs : list Value).

Inductive DecodeError : Type := InvalidInput | InvalidType | InvalidData | UnexpectedEof.

Definition is_null (v : Value) : bool := match v with Null | NullArray => true | _ => false end.
Definition is_error (v : Value) : bool := match v with Error _ => true | _ => false end.

Definition RESP_MAX_SIZE : Z := 512 * 1024 * 1024.
Definition CRLF_BYTES : bytes := [13; 10]%Z.
Definition NULL_BYTES : bytes := [36; 45; 49; 13; 10]%Z.
Definition NULL_ARRAY_BYTES : bytes := [42; 45; 49; 13; 10]%Z.

(** ** Decimal numbers: [to_string] and [parse::<i64>] *)

Fixpoint digits (fuel : nat) (n : Z) : bytes :=
  match fuel with
  | O => []
  | S fuel => if (n <? 10)%Z then [(48 + n)%Z] else digits fuel (n / 10) ++ [(48 + n mod 10)%Z]
  end.

(** Twenty digits are enough for 64 bits. *)
Definition to_string (n : Z) : bytes := if (n <? 0)%Z then 45%Z :: digits 20 (- n) else digits 20 n.

Definition i64 (n : Z) : option Z := if ((- 2 ^ 63 <=? n) && (n <? 2 ^ 63))%Z then Some n else None.

(** Each digit is multiplied in with an overflow check; [sign] is 1 or -1. *)
Fixpoint parse_digits (sign acc : Z) (l : bytes) : option Z :=
  match l with
  | [] => Some acc
  | c :: l =>
      if ((48 <=? c) && (c <=? 57))%Z then
        a ← i64 (acc * 10); a ← i64 (a + sign * (c - 48)); parse_digits sign a l
      else None
  end.

Definition parse_i64 (l : bytes) : option Z :=
  match l with
  | [] => None
  | c :: l' =>
      if (c =? 45)%Z then if length l' =? 0 then None else parse_digits (-1) 0 l'
      else if (c =? 43)%Z then if length l' =? 0 then None else parse_digits 1 0 l'
      else parse_digits 1 0 l
  end.

Definition parse_string (b : bytes) : result DecodeError bytes := if utf8 b then Ok b else Err InvalidData.

Definition parse_integer (b : bytes) : result DecodeError Z :=
  match parse_string b with
  | Ok s => match parse_i64 s with Some i => Ok i | None => Err InvalidData end
  | Err e => Err e
  end.

Definition is_crlf (a b : Z) : bool := ((a =? 13) && (b =? 10))%Z.

(** ** Encoding *)

Fixpoint buf_encode (value : Value) (buf : bytes) : bytes :=
  match value with
  | Null => buf ++ NULL_BYTES
  | NullArray => buf ++ NULL_ARRAY_BYTES
  | Str val => buf ++ [43%Z] ++ val ++ CRLF_BYTES
  | Error val => buf ++ [45%Z] ++ val ++ CRLF_BYTES
  | StaticError val => buf ++ [45%Z] ++ val ++ CRLF_BYTES
  | Integer val => buf ++ [58%Z] ++ to_string val ++ CRLF_BYTES
  | Bulk val => buf ++ [36%Z] ++ to_string (Z.of_nat (length val)) ++ CRLF_BYTES ++ val ++ CRLF_BYTES
  | BufBulk val => buf ++ [36%Z] ++ to_string (Z.of_nat (length val)) ++ CRLF_BYTES ++ val ++ CRLF_BYTES
  | Array val =>
      (fix items (val : list Value) (buf : bytes) : bytes :=
         match val with [] => buf | item :: val => items val (buf_encode item buf) end)
      val (buf ++ [42%Z] ++ to_string (Z.of_nat (length val)) ++ CRLF_BYTES)
  end.

Definition encode_with_buf (res : bytes) (value : Value) : bytes := buf_encode value res.
Definition encode (value : Value) : bytes := buf_encode value [].
Definition encode_slice (slice : list bytes) : bytes := buf_encode (Array (Bulk <$> slice)) [].

(** ** Decoding *)

(** [read_until]: the bytes up to and with the first [byte], or all of them. *)
Fixpoint read_until (byte : Z) (reader : bytes) : bytes * bytes :=
  match reader with
  | [] => ([], [])
  | c :: reader => if (c =? byte)%Z then ([c], reader) else let '(buf, r) := read_until byte reader in (c :: buf, r)
  end.

(** [read_exact]: the bytes popped before the end of the reader are lost. *)
Definition read_exact (n : nat) (reader : bytes) : result DecodeError bytes * bytes :=
  if n <=? length reader then (Ok (take n reader), drop n reader) else (Err UnexpectedEof, []).

(** Indexing, slicing and the subtractions in them panic outside of the vector. *)
Definition at_index (buf : bytes) (i : nat) : outcome Z := expect (buf !! i).
Definition minus (a b : nat) : outcome nat := if b <=? a then Done (a - b) else Panic.
Definition slice (buf : bytes) (first last : nat) : outcome bytes :=
  if (first <=? last) && (last <=? length buf) then Done (take (last - first) (drop first buf)) else Panic.

Section Decode.
Context (buf_bulk : bool).

Definition lift_value {A} (f : A -> Value) (r : result DecodeError A) : result DecodeError Value :=
  match r with Ok a => Ok (f a) | Err e => Err e end.

(** The case of the prefix [$], whose length line holds [line]. *)
Definition decode_bulk (line : bytes) (reader : bytes) : outcome (result DecodeError Value * bytes) :=
  match parse_integer line with
  | Err e => Done (Err e, reader)
  | Ok int =>
      if (int =? -1)%Z then Done (Ok Null, reader)
      else if ((int <? -1) || (RESP_MAX_SIZE <=? int))%Z then Done (Err InvalidInput, reader)
      else
        let n := Z.to_nat int in
        match read_exact (n + 2) reader with
        | (Err e, reader) => Done (Err e, reader)
        | (Ok buf, reader) =>
            cr ← at_index buf n; lf ← at_index buf (n + 1);
            if negb (is_crlf cr lf) then Done (Err InvalidInput, reader)
            else
              let buf := take n buf in
              if buf_bulk then Done (Ok (BufBulk buf), reader)
              else Done (lift_value Bulk (parse_string buf), reader)
        end
  end.

(** The loop over the items of an array. *)
Fixpoint decode_items (dec : bytes -> outcome (result DecodeError Value * bytes)) (n : nat) (reader : bytes)
    : outcome (result DecodeError (list Value) * bytes) :=
  match n with
  | O => Done (Ok [], reader)
  | S n =>
      r ← dec reader;
      match r with
      | (Err e, reader) => Done (Err e, reader)
      | (Ok v, reader) =>
          r ← decode_items dec n reader;
          match r with
          | (Err e, reader) => Done (Err e, reader)
          | (Ok vs, reader) => Done (Ok (v :: vs), reader)
          end
      end
  end.

(** What follows the first line: by its prefix, with the text of the line. *)
Definition decode_prefix (dec : bytes -> outcome (result DecodeError Value * bytes)) (prefix : Z) (line reader : bytes)
    : outcome (result DecodeError Value * bytes) :=
  if (prefix =? 43)%Z then Done (lift_value Str (parse_string line), reader)
  else if (prefix =? 45)%Z then Done (lift_value Error (parse_string line), reader)
  else if (prefix =? 58)%Z then Done (lift_value Integer (parse_integer line), reader)
  else if (prefix =? 36)%Z then decode_bulk line reader
  else if (prefix =? 42)%Z then
    match parse_integer line with
    | Err e => Done (Err e, reader)
    | Ok int =>
        if (int =? -1)%Z then Done (Ok NullArray, reader)
        else if ((int <? -1) || (RESP_MAX_SIZE <=? int))%Z then Done (Err InvalidInput, reader)
        else
          r ← decode_items dec (Z.to_nat int) reader;
          match r with
          | (Err e, reader) => Done (Err e, reader)
          | (Ok vs, reader) => Done (Ok (Array vs), reader)
          end
    end
  else Done (Err InvalidType, reader).

Fixpoint decode (fuel : nat) (reader : bytes) : outcome (result DecodeError Value * bytes) :=
  match fuel with
  | O => Hang
  | S fuel =>
      let '(res, reader) := read_until 10 reader in
      let len := length res in
      if len <? 3 then Done (Err InvalidInput, reader)
      else
        i ← minus len 2; cr ← at_index res i;
        j ← minus len 1; lf ← at_index res j;
        if negb (is_crlf cr lf) then Done (Err InvalidInput, reader)
        else line ← slice res 1 i; prefix ← at_index res 0; decode_prefix (decode fuel) prefix line reader
  end.
End Decode.

(** ** Numbers *)

Lemma parse_digits_app sign acc l1 l2 :
  parse_digits sign acc (l1 ++ l2) = parse_digits sign acc l1 ≫= fun a => parse_digits sign a l2.
Proof.
  revert acc. induction l1 as [|c l1 IH]; intros acc; [done|]. cbn [app parse_digits]. destruct (_ && _); [|done].
  destruct (i64 (acc * 10)) as [a|]; cbn [mbind option_bind]; [|done].
  destruct (i64 _); cbn [mbind option_bind]; [apply IH|done].
Qed.

Lemma i64_ok n : (- 2 ^ 63 <= n < 2 ^ 63)%Z -> i64 n = Some n.
Proof. intros [H1 H2]. unfold i64. by rewrite (proj2 (Z.leb_le _ _) H1), (proj2 (Z.ltb_lt _ _) H2). Qed.

Lemma parse_digits_one sign acc d : (0 <= d < 10)%Z ->
  (- 2 ^ 63 <= acc * 10 < 2 ^ 63)%Z -> (- 2 ^ 63 <= acc * 10 + sign * d < 2 ^ 63)%Z ->
  parse_digits sign acc [(48 + d)%Z] = Some (acc * 10 + sign * d)%Z.
Proof.
  intros Hd H1 H2. cbn [parse_digits]. rewrite (proj2 (Z.leb_le _ _)), (proj2 (Z.leb_le _ _)) by lia. cbn [andb].
  rewrite i64_ok by done. cbn [mbind option_bind]. replace (48 + d - 48)%Z with d by lia. by rewrite i64_ok.
Qed.

Lemma parse_digits_print sign fuel n : (sign = 1 \/ sign = -1)%Z -> (0 <= n < 10 ^ Z.of_nat fuel)%Z ->
  (- 2 ^ 63 <= sign * n < 2 ^ 63)%Z -> parse_digits sign 0 (digits fuel n) = Some (sign * n)%Z.
Proof.
  intros Hs. revert n. induction fuel as [|fuel IH]; intros n Hn Hr; [cbn in *; f_equal; lia|]. cbn [digits].
  destruct (Z.ltb_spec n 10) as [Hlt|Hge]; [rewrite parse_digits_one; [f_equal; lia|lia|lia|lia]|].
  pose proof (Z.div_mod n 10 ltac:(lia)) as Hdm. pose proof (Z.mod_pos_bound n 10 ltac:(lia)) as Hm.
  rewrite Nat2Z.inj_succ, Z.pow_succ_r in Hn by lia.
  rewrite parse_digits_app, IH; [|split; [apply Z.div_pos; lia|apply Z.div_lt_upper_bound; lia]|destruct Hs as [-> | ->]; lia].
  cbn [mbind option_bind]. rewrite parse_digits_one; [f_equal; destruct Hs as [-> | ->]; lia|done|destruct Hs as [-> | ->]; lia|destruct Hs as [-> | ->]; lia].
Qed.

Definition is_digit (c : Z) : Prop := (48 <= c <= 57)%Z.

Lemma digits_are_digits fuel n : (0 <= n)%Z -> Forall is_digit (digits fuel n).
Proof.
  revert n. induction fuel as [|fuel IH]; intros n Hn; cbn [digits]; [done|].
  destruct (Z.ltb_spec n 10); [constructor; [unfold is_digit; lia|done]|]. apply Forall_app. split; [apply IH, Z.div_pos; lia|].
  constructor; [|done]. pose proof (Z.mod_pos_bound n 10 ltac:(lia)). unfold is_digit. lia.
Qed.

Lemma digits_cons fuel n : exists c l, digits (S fuel) n = c :: l.
Proof.
  cbn [digits]. destruct (n <? 10)%Z; [eauto|]. destruct (digits fuel (n / 10)) as [|c l]; cbn [app]; eauto.
Qed.

(** [parse] reads back what [to_string] printed. *)
Lemma parse_to_string n : (- 2 ^ 63 <= n < 2 ^ 63)%Z -> parse_i64 (to_string n) = Some n.
Proof.
  intros Hn. assert (H20 : (2 ^ 63 < 10 ^ Z.of_nat 20)%Z) by reflexivity. unfold to_string. destruct (Z.ltb_spec n 0) as [Hneg|Hpos].
  - cbn [parse_i64]. rewrite Z.eqb_refl. destruct (digits_cons 19 (- n)) as (c & l & E). rewrite E. cbn [length Nat.eqb]. rewrite <- E.
    rewrite parse_digits_print by (auto; lia). f_equal. lia.
  - destruct (digits_cons 19 n) as (c & l & E). pose proof (digits_are_digits 20 n Hpos) as Hd. rewrite E in Hd.
    apply Forall_cons_1 in Hd as [Hc _]. unfold is_digit in Hc. unfold parse_i64. rewrite E.
    destruct (Z.eqb_spec c 45); [lia|]. destruct (Z.eqb_spec c 43); [lia|]. rewrite <- E.
    rewrite parse_digits_print by (auto; lia). f_equal. lia.
Qed.

Lemma to_string_ascii n : Forall ascii (to_string n).
Proof.
  assert (Hd : forall k, (0 <= k)%Z -> Forall ascii (digits 20 k)).
  { intros k Hk. eapply Forall_impl; [|by apply digits_are_digits]. unfold is_digit, ascii. intros; lia. }
  unfold to_string. destruct (Z.ltb_spec n 0); [|by apply Hd]. constructor; [unfold ascii; lia|]. apply Hd. lia.
Qed.

Lemma parse_integer_print n : (- 2 ^ 63 <= n < 2 ^ 63)%Z -> parse_integer (to_string n) = Ok n.
Proof.
  intros Hn. unfold parse_integer, parse_string. rewrite (ascii_utf8 _ (to_string_ascii n)). by rewrite parse_to_string.
Qed.

(** ** Encoding appends *)

Lemma Value_induction (P : Value -> Prop) :
  P Null -> P NullArray -> (forall s, P (Str s)) -> (forall s, P (Error s)) -> (forall s, P (StaticError s)) ->
  (forall i, P (Integer i)) -> (forall s, P (Bulk s)) -> (forall b, P (BufBulk b)) ->
  (forall vs, Forall P vs -> P (Array vs)) -> forall v, P v.
Proof.
  intros H1 H2 H3 H4 H5 H6 H7 H8 H9. fix IH 1. intros [| |s|s|s|i|s|b|vs];
    [exact H1|exact H2|apply H3|apply H4|apply H5|apply H6|apply H7|apply H8|].
  apply H9. revert vs. fix IHvs 1. intros [|v vs]; constructor; [apply IH|apply IHvs].
Qed.

Fixpoint encode_items (vs : list Value) (buf : bytes) : bytes :=
  match vs with [] => buf | v :: vs => encode_items vs (buf_encode v buf) end.

Lemma buf_encode_Array vs buf :
  buf_encode (Array vs) buf = encode_items vs (buf ++ [42%Z] ++ to_string (Z.of_nat (length vs)) ++ CRLF_BYTES).
Proof. reflexivity. Qed.

Lemma buf_encode_app v buf : buf_encode v buf = buf ++ encode v.
Proof.
  revert buf. induction v as [| | | | | | | |vs IH] using Value_induction; intros buf; try done.
  unfold encode. rewrite !buf_encode_Array, app_nil_l.
  assert (Hitems : forall b, encode_items vs b = b ++ encode_items vs []).
  { clear buf. induction IH as [|v vs Hv _ IHvs]; intros b; cbn [encode_items]; [by rewrite app_nil_r|].
    rewrite IHvs, (IHvs (buf_encode v [])), Hv. unfold encode. by rewrite app_assoc. }
  rewrite Hitems, (Hitems ([42%Z] ++ _)). by rewrite !app_assoc.
Qed.

Lemma encode_items_app vs buf : encode_items vs buf = buf ++ concat (encode <$> vs).
Proof.
  revert buf. induction vs as [|v vs IH]; intros buf; cbn [encode_items fmap list_fmap concat]; [by rewrite app_nil_r|].
  by rewrite IH, buf_encode_app, app_assoc.
Qed.

Lemma encode_Array vs :
  encode (Array vs) = 42%Z :: to_string (Z.of_nat (length vs)) ++ CRLF_BYTES ++ concat (encode <$> vs).
Proof. unfold encode at 1. rewrite buf_encode_Array, encode_items_app. cbn [app]. by rewrite <- app_assoc. Qed.

(** ** Lines *)

Lemma read_until_app l r : (10%Z ∉ l) -> read_until 10 (l ++ 10%Z :: r) = (l ++ [10%Z], r).
Proof.
  induction l as [|c l IH]; intros Hn; cbn [app read_until]; [done|]. destruct (Z.eqb_spec c 10) as [->|]; [set_solver|].
  rewrite IH by set_solver. done.
Qed.

Lemma minus_le a b : b <= a -> minus a b = Done (a - b).
Proof. intros Hle. unfold minus. by rewrite (proj2 (Nat.leb_le _ _) Hle). Qed.

Lemma slice_ok buf i j : i <= j -> j <= length buf -> slice buf i j = Done (take (j - i) (drop i buf)).
Proof. intros Hi Hj. unfold slice. by rewrite (proj2 (Nat.leb_le _ _) Hi), (proj2 (Nat.leb_le _ _) Hj). Qed.

Lemma at_index_app l r i : at_index (l ++ r) (length l + i) = at_index r i.
Proof. unfold at_index. rewrite lookup_app_r by lia. do 2 f_equal. lia. Qed.

Lemma at_index_ok buf i : i < length buf -> exists c, at_index buf i = Done c.
Proof. intros Hi. destruct (lookup_lt_is_Some_2 _ _ Hi) as [c E]. exists c. unfold at_index. by rewrite E. Qed.

Lemma decode_line b fuel p line rest : p <> 10%Z -> (10%Z ∉ line) ->
  decode b (S fuel) (p :: line ++ CRLF_BYTES ++ rest) = decode_prefix b (decode b fuel) p line rest.
Proof.
  intros Hp Hl. cbn [decode]. unfold CRLF_BYTES. cbn [app].
  replace (p :: line ++ 13%Z :: 10%Z :: rest) with ((p :: line ++ [13%Z]) ++ 10%Z :: rest) by (cbn [app]; by rewrite <- app_assoc).
  rewrite read_until_app by (rewrite not_elem_of_cons, not_elem_of_app; set_solver).
  set (res := (p :: line ++ [13%Z]) ++ [10%Z]).
  assert (Er : res = (p :: line) ++ [13; 10]%Z) by (unfold res; cbn [app]; by rewrite <- app_assoc).
  assert (Hlen : length res = length line + 3) by (rewrite Er, length_app; cbn [length]; lia).
  rewrite Hlen. destruct (Nat.ltb_spec (length line + 3) 3); [lia|].
  rewrite (minus_le (length line + 3) 2), (minus_le (length line + 3) 1) by lia. cbn [mbind outcome_bind].
  replace (length line + 3 - 2) with (length (p :: line) + 0) by (cbn [length]; lia).
  replace (length line + 3 - 1) with (length (p :: line) + 1) by (cbn [length]; lia).
  rewrite Er, !at_index_app. unfold at_index. cbn [lookup list_lookup expect mbind outcome_bind is_crlf Z.eqb Pos.eqb andb negb].
  rewrite slice_ok by (rewrite ?length_app; cbn [length]; lia). cbn [mbind outcome_bind app drop lookup list_lookup expect].
  replace (length (p :: line) + 0 - 1) with (length line) by (cbn [length]; lia). by rewrite drop_0, take_app_length.
Qed.

(** ** Round trip *)

Section RoundTrip.
Context (b : bool).

(** What a value decodes to: the wire does not tell static errors from others, nor the
    two kinds of bulk strings. *)
Fixpoint decoded (v : Value) : Value :=
  match v with
  | StaticError s => Error s
  | Bulk s | BufBulk s => if b then BufBulk s else Bulk s
  | Array vs => Array (decoded <$> vs)
  | v => v
  end.

Definition no_lf (s : bytes) : bool := forallb (fun c => negb (c =? 10)%Z) s.

(** Values that the wire can carry. *)
Fixpoint wire_ok (v : Value) : bool :=
  match v with
  | Null | NullArray => true
  | Str s | Error s | StaticError s => utf8 s && no_lf s
  | Integer i => ((- 2 ^ 63 <=? i) && (i <? 2 ^ 63))%Z
  | Bulk s => utf8 s && (Z.of_nat (length s) <? RESP_MAX_SIZE)%Z
  | BufBulk s => (b || utf8 s) && (Z.of_nat (length s) <? RESP_MAX_SIZE)%Z
  | Array vs => (Z.of_nat (length vs) <? RESP_MAX_SIZE)%Z && forallb wire_ok vs
  end.

Lemma no_lf_spec s : no_lf s = true -> 10%Z ∉ s.
Proof.
  intros Hs Hin. unfold no_lf in Hs. rewrite forallb_forall in Hs. apply list_elem_of_In in Hin. specialize (Hs _ Hin). done.
Qed.

Lemma decode_bulk_ok s rest : (b || utf8 s) = true -> (Z.of_nat (length s) < RESP_MAX_SIZE)%Z ->
  decode_bulk b (to_string (Z.of_nat (length s))) (s ++ CRLF_BYTES ++ rest) = Done (Ok (if b then BufBulk s else Bulk s), rest).
Proof.
  intros Hu Hl. unfold decode_bulk. rewrite parse_integer_print by (unfold RESP_MAX_SIZE in Hl; lia).
  destruct (Z.eqb_spec (Z.of_nat (length s)) (-1)); [lia|]. destruct (Z.ltb_spec (Z.of_nat (length s)) (-1)); [lia|].
  destruct (Z.leb_spec RESP_MAX_SIZE (Z.of_nat (length s))); [lia|]. cbn [orb]. rewrite Nat2Z.id.
  unfold read_exact. rewrite app_assoc, (proj2 (Nat.leb_le _ _)) by (rewrite !length_app; cbn [length CRLF_BYTES]; lia).
  rewrite take_app_length', drop_app_length' by (rewrite length_app; cbn [length CRLF_BYTES]; lia).
  rewrite <- (Nat.add_0_r (length s)) at 1. rewrite !at_index_app. unfold at_index. cbn [lookup list_lookup CRLF_BYTES expect mbind outcome_bind is_crlf Z.eqb Pos.eqb andb negb].
  rewrite take_app_length. destruct b; [done|]. cbn [orb] in Hu. unfold parse_string. by rewrite Hu.
Qed.

Lemma decode_items_ok dec vs rest :
  Forall (fun v => forall rest, dec (encode v ++ rest) = Done (Ok (decoded v), rest)) vs ->
  decode_items dec (length vs) (concat (encode <$> vs) ++ rest) = Done (Ok (decoded <$> vs), rest).
Proof.
  induction 1 as [|v vs Hv _ IH]; [done|]. cbn [fmap list_fmap concat length decode_items]. rewrite <- app_assoc, Hv.
  cbn [mbind outcome_bind]. rewrite IH. done.
Qed.

Lemma encode_item_length v vs : v ∈ vs -> length (encode v) <= length (concat (encode <$> vs)).
Proof.
  intros Hin. induction vs as [|w vs IH]; [by apply not_elem_of_nil in Hin|]. cbn [fmap list_fmap concat]. rewrite length_app.
  apply elem_of_cons in Hin as [->|Hin]; [lia|]. specialize (IH Hin). lia.
Qed.

(** A value that is one line of text. *)
Ltac simple_line e p s Hok :=
  let Hu := fresh in let Hn := fresh in
  apply andb_true_iff in Hok as [Hu Hn%no_lf_spec]; change e with (p :: s ++ CRLF_BYTES);
  cbn [app]; rewrite <- app_assoc, decode_line by done; unfold decode_prefix, parse_string; by rewrite Hu.

Lemma decode_encode v fuel rest : wire_ok v = true -> length (encode v) < fuel ->
  decode b fuel (encode v ++ rest) = Done (Ok (decoded v), rest).
Proof.
  revert fuel rest. induction v as [| |s|s|s|i|s|s|vs IH] using Value_induction; intros fuel rest Hok Hf;
    (destruct fuel as [|fuel]; [lia|]); cbn [wire_ok] in Hok; try done.
  - simple_line (encode (Str s)) 43%Z s Hok.
  - simple_line (encode (Error s)) 45%Z s Hok.
  - simple_line (encode (StaticError s)) 45%Z s Hok.
  - apply andb_true_iff in Hok as [H1%Z.leb_le H2%Z.ltb_lt]. change (encode (Integer i)) with (58%Z :: to_string i ++ CRLF_BYTES).
    cbn [app]. rewrite <- app_assoc, decode_line by (done || apply ascii_no_lf, to_string_ascii). unfold decode_prefix.
    by rewrite parse_integer_print.
  - apply andb_true_iff in Hok as [Hu H2%Z.ltb_lt].
    change (encode (Bulk s)) with (36%Z :: to_string (Z.of_nat (length s)) ++ CRLF_BYTES ++ s ++ CRLF_BYTES).
    cbn [app]. rewrite <- !app_assoc, decode_line by (done || apply ascii_no_lf, to_string_ascii). unfold decode_prefix.
    cbn [Z.eqb Pos.eqb]. rewrite decode_bulk_ok; [done|by rewrite Hu, orb_true_r|done].
  - apply andb_true_iff in Hok as [Hu H2%Z.ltb_lt].
    change (encode (BufBulk s)) with (36%Z :: to_string (Z.of_nat (length s)) ++ CRLF_BYTES ++ s ++ CRLF_BYTES).
    cbn [app]. rewrite <- !app_assoc, decode_line by (done || apply ascii_no_lf, to_string_ascii). unfold decode_prefix.
    cbn [Z.eqb Pos.eqb]. by rewrite decode_bulk_ok.
  - apply andb_true_iff in Hok as [H1%Z.ltb_lt H2]. rewrite encode_Array in *. cbn [app length] in *.
    rewrite <- !app_assoc, decode_line by (done || apply ascii_no_lf, to_string_ascii). unfold decode_prefix.
    cbn [Z.eqb Pos.eqb]. rewrite parse_integer_print by (unfold RESP_MAX_SIZE in H1; lia).
    destruct (Z.eqb_spec (Z.of_nat (length vs)) (-1)); [lia|]. destruct (Z.ltb_spec (Z.of_nat (length vs)) (-1)); [lia|].
    destruct (Z.leb_spec RESP_MAX_SIZE (Z.of_nat (length vs))); [lia|]. cbn [orb]. rewrite Nat2Z.id, decode_items_ok; [done|].
    rewrite forallb_forall in H2. apply Forall_lookup_2. intros i v Hi r.
    assert (Hin : v ∈ vs) by (by eapply list_elem_of_lookup_2).
    apply (Forall_lookup_1 _ _ _ _ IH Hi); [by apply H2, list_elem_of_In|].
    pose proof (encode_item_length v vs Hin). rewrite !length_app in Hf. cbn [length CRLF_BYTES] in Hf. lia.
Qed.
End RoundTrip.

(** ** Termination *)

Lemma read_until_app_eq byte r : (read_until byte r).1 ++ (read_until byte r).2 = r.
Proof.
  induction r as [|c r IH]; [done|]. cbn [read_until]. destruct (c =? byte)%Z; cbn [fst snd]; [done|].
  destruct (read_until byte r) as [buf r']. cbn [fst snd app] in *. by rewrite IH.
Qed.

(** The decoder finishes, without a panic, and has consumed a prefix. *)
Definition finishes {A} (o : outcome (result DecodeError A * bytes)) (r : bytes) : Prop :=
  exists res used rest, o = Done (res, rest) /\ r = used ++ rest.

Lemma finishes_after {A} (o : outcome (result DecodeError A * bytes)) used r : finishes o r -> finishes o (used ++ r).
Proof. intros (res & u & rest & -> & ->). exists res, (used ++ u), rest. split; [done|]. by rewrite app_assoc. Qed.

Lemma finishes_drop {A} (o : outcome (result DecodeError A * bytes)) n r : finishes o (drop n r) -> finishes o r.
Proof. intros H. rewrite <- (take_drop n r). by apply finishes_after. Qed.

Lemma finishes_Done {A} (res : result DecodeError A) r : finishes (Done (res, r)) r.
Proof. by exists res, [], r. Qed.

Lemma decode_items_finishes dec n r :
  (forall r', length r' <= length r -> finishes (dec r') r') -> finishes (decode_items dec n r) r.
Proof.
  revert r. induction n as [|n IH]; intros r Hdec; cbn [decode_items]; [apply finishes_Done|].
  destruct (Hdec r ltac:(lia)) as (res & used & r1 & -> & ->). apply finishes_after. cbn [mbind outcome_bind].
  destruct res as [v|e]; [|apply finishes_Done].
  destruct (IH r1) as (res2 & used2 & r2 & -> & ->); [intros; apply Hdec; rewrite length_app; lia|]. apply finishes_after. cbn [mbind outcome_bind].
  destruct res2; apply finishes_Done.
Qed.

Lemma decode_bulk_finishes b line r : finishes (decode_bulk b line r) r.
Proof.
  unfold decode_bulk. destruct (parse_integer line) as [int|]; [|apply finishes_Done]. destruct (int =? -1)%Z; [apply finishes_Done|].
  destruct (_ || _); [apply finishes_Done|]. unfold read_exact. destruct (Nat.leb_spec (Z.to_nat int + 2) (length r)) as [Hle|_].
  - destruct (at_index_ok (take (Z.to_nat int + 2) r) (Z.to_nat int)) as [c ->]; [rewrite length_take; lia|].
    destruct (at_index_ok (take (Z.to_nat int + 2) r) (Z.to_nat int + 1)) as [d ->]; [rewrite length_take; lia|]. cbn [mbind outcome_bind].
    apply (finishes_drop _ (Z.to_nat int + 2)). destruct (negb _); [apply finishes_Done|]. destruct b; apply finishes_Done.
  - apply (finishes_drop _ (length r)). rewrite drop_all. apply finishes_Done.
Qed.

Lemma decode_prefix_finishes b dec p line r :
  (forall r', length r' <= length r -> finishes (dec r') r') -> finishes (decode_prefix b dec p line r) r.
Proof.
  intros Hdec. unfold decode_prefix.
  destruct (p =? 43)%Z; [apply finishes_Done|]. destruct (p =? 45)%Z; [apply finishes_Done|].
  destruct (p =? 58)%Z; [apply finishes_Done|]. destruct (p =? 36)%Z; [apply decode_bulk_finishes|].
  destruct (p =? 42)%Z; [|apply finishes_Done]. destruct (parse_integer line) as [int|]; [|apply finishes_Done].
  destruct (int =? -1)%Z; [apply finishes_Done|]. destruct (_ || _); [apply finishes_Done|].
  destruct (decode_items_finishes dec (Z.to_nat int) r Hdec) as (res & used & r' & -> & ->). apply finishes_after. cbn [mbind outcome_bind].
  destruct res; apply finishes_Done.
Qed.

(** C13: fuel for the length of the reader is enough: on every input the decoder returns
    a value or an error, every index and slice being inside of its vector, and has consumed
    a prefix of the reader. *)
Theorem resp_decode_finishes (b : bool) (fuel : nat) (reader : bytes) :
  length reader < fuel -> exists res used rest, decode b fuel reader = Done (res, rest) /\ reader = used ++ rest.
Proof.
  change (length reader < fuel -> finishes (decode b fuel reader) reader).
  revert reader. induction fuel as [|fuel IH]; intros reader Hf; [lia|]. cbn [decode].
  pose proof (read_until_app_eq 10 reader) as Hl. destruct (read_until 10 reader) as [res r]. cbn [fst snd] in Hl. subst reader.
  rewrite length_app in Hf. apply finishes_after. destruct (Nat.ltb_spec (length res) 3) as [|Hlen]; [apply finishes_Done|].
  rewrite (minus_le (length res) 2), (minus_le (length res) 1) by lia. cbn [mbind outcome_bind].
  destruct (at_index_ok res (length res - 2)) as [c ->]; [lia|]. destruct (at_index_ok res (length res - 1)) as [d ->]; [lia|].
  cbn [mbind outcome_bind]. destruct (negb _); [apply finishes_Done|]. rewrite slice_ok by lia. destruct (at_index_ok res 0) as [p ->]; [lia|].
  apply decode_prefix_finishes. intros r' Hr'. apply IH. lia.
Qed.

(** C12: decoding what was encoded leaves the bytes behind it and gives the value back, up to
    what the wire does not tell: a static error comes back as an error, and bulk strings as
    the kind the decoder makes.  The values are those whose strings are UTF-8 and, outside bulk
    strings, free of line feeds, and whose sizes are below the limit of the protocol. *)
Theorem resp_roundtrip (b : bool) (v : Value) (rest : bytes) :
  wire_ok b v = true -> decode b (S (length (encode v ++ rest))) (encode v ++ rest) = Done (Ok (decoded b v), rest).
Proof. intros Hok. apply decode_encode; [done|]. rewrite length_app. lia. Qed.

(** *** Examples *)

Definition ex_value : Value :=
  Array [Str [79; 75; 230; 173; 163]%Z; Integer (-42); Null; Array [Bulk [97; 10; 98]%Z; StaticError [69; 82; 82]%Z; NullArray]].

Lemma resp_roundtrip_witness :
  decode false (S (length (encode ex_value ++ [43; 43]%Z))) (encode ex_value ++ [43; 43]%Z) =
    Done (Ok (Array [Str [79; 75; 230; 173; 163]%Z; Integer (-42); Null; Array [Bulk [97; 10; 98]%Z; Error [69; 82; 82]%Z; NullArray]]), [43; 43]%Z).
Proof. apply (resp_roundtrip false ex_value [43; 43]%Z). reflexivity. Defined.

Lemma resp_decode_finishes_witness :
  exists res used rest, decode true 11 [42; 50; 13; 10; 42; 49; 13; 10; 58; 13]%Z = Done (res, rest) /\ [42; 50; 13; 10; 42; 49; 13; 10; 58; 13]%Z = used ++ rest.
Proof. apply (resp_decode_finishes true 11 [42; 50; 13; 10; 42; 49; 13; 10; 58; 13]%Z). cbn. lia. Defined.
