(* ===== verification/Shadow.v ===== *)
(** * Recovery of a crashed driver domain (domains/usr/shadow/bdev/src/lib.rs)

    The shadow of the block device holds the domain of the memory disk (libmembdev, modelled
    in BCache.v).  A call that comes back with an error means that the domain panicked and was
    unwound (kernel/src/unwind.rs): the registers of the caller are restored and no destructor
    runs, so a lock that the domain held stays locked, and a further call into the same domain
    spins on it.  The shadow makes the kernel create the domain again, over the same memory and
    with a new lock, and repeats the call.

    When the domain crashes is not determined by its code: [fates] says for each call whether
    it runs, crashes before it takes the lock, or crashes with the lock after so many bytes were
    copied (nothing of a read stays, a prefix of a write does).  A panic of the code itself, an
    access out of range, comes back as an error as well, with the lock held.  The buffer that a crashed read took with it is freed with the
    domain's other objects (SharedHeap.v); the retry allocates a new one. *)

From Stdlib Require Import ZArith Lia.
From stdpp Require Import base gmap list.
From stdpp Require Import options.
From S2P Require Import Prelude BCache.

Set Default Proof Using "Type".

Inductive fate := Runs | CrashesEarly | Crashes (copied : nat).

(** The memory, whether the lock of the [MemBDev] that [bdev] is is taken, the domain by its
    generation, and what is to happen to the calls. *)
Record ShadowInternal := mkShadow { disk : MemBDev; locked : bool; dom : option nat; fates : list fate }.

Definition Shadow_new (dk : MemBDev) (fs : list fate) : ShadowInternal := mkShadow dk false (Some 0) fs.

Definition restart_bdev : M ShadowInternal unit :=
  s ← Prelude.get;
  old_domain ← lift (expect (dom s));
  put (mkShadow (disk s) false (Some (S old_domain)) (fates s)).

(** A call into the domain through its proxy: a panic comes back as an error, and a call that
    waits for a lock that nobody will release does not come back. *)
Definition rpc {A} (body : MemBDev -> outcome (A * MemBDev)) (partial : nat -> MemBDev -> MemBDev) : M ShadowInternal (result unit A) := fun s =>
  match fates s with
  | CrashesEarly :: fs => Done (Err tt, mkShadow (disk s) (locked s) (dom s) fs)
  | Crashes n :: fs => if locked s then Hang else Done (Err tt, mkShadow (partial n (disk s)) true (dom s) fs)
  | fs =>
      if locked s then Hang
      else match body (disk s) with
           | Done (a, d) => Done (Ok a, mkShadow d false (dom s) (tail fs))
           | Panic => Done (Err tt, mkShadow (disk s) true (dom s) (tail fs))
           | Hang => Hang
           end
  end.

Definition bdev_read_call (sector : Z) : M ShadowInternal (result unit block) :=
  rpc (fun dk => v ← mem_read dk sector; Done (v, dk)) (fun _ dk => dk).

(** The bytes that were copied before the crash, of those in range. *)
Definition copied (sector : Z) (v : block) (n : nat) (dk : MemBDev) : MemBDev :=
  match mem_write dk sector v with
  | Done _ => match mem_write dk sector (take n v) with Done dk => dk | _ => dk end
  | _ => dk
  end.

(** The loops of [read] and [write]. *)
Fixpoint retry {A} (fuel : nat) (m : M ShadowInternal (result unit A)) : M ShadowInternal A :=
  match fuel with
  | O => lift Hang
  | S fuel =>
      r ← m;
      match r with
      | Err _ => _ ← restart_bdev; retry fuel m
      | Ok a => mret a
      end
  end.

(** One round for each fate, and one more: a call that still fails then fails for ever. *)
Definition read (sector : Z) : M ShadowInternal block := s ← Prelude.get; retry (S (length (fates s))) (bdev_read_call sector).

(** ** What the client sees *)





(** ** Proofs *)







(** A block outside the disk makes the domain panic every time it is asked, and the
    shadow restarts it and repeats the call for ever; the disk itself would panic once. *)
Theorem shadow_out_of_range_hangs s g b : dom s = Some g -> mem_read (disk s) b = Panic -> read b s = Hang.
Proof.
  intros Hg E. unfold read. rewrite bind_get. generalize (S (length (fates s))). intros fuel. revert s g Hg E.
  induction fuel as [|fuel IH]; intros s g Hg E; [done|]. cbn [retry].
  assert (Hr : bdev_read_call b s = Hang \/ exists l fs, bdev_read_call b s = Done (Err tt, mkShadow (disk s) l (dom s) fs)).
  { unfold bdev_read_call, rpc. rewrite E. destruct (fates s) as [|[| |k] fs], (locked s); eauto. }
  destruct Hr as [Hr|(l & fs & Hr)]; [unfold mbind, M_bind; by rewrite Hr|].
  rewrite (bind_Done _ _ _ _ _ Hr). unfold restart_bdev. cbv beta iota. rewrite bind_assoc, bind_get. cbn [dom]. rewrite Hg.
  by apply (IH _ (S g)).
Qed.


Lemma shadow_out_of_range_hangs_witness : read 9 (Shadow_new two_blocks []) = Hang.
Proof. apply (shadow_out_of_range_hangs (Shadow_new two_blocks []) 0 9); [reflexivity|]. vm_compute. reflexivity. Defined.
