(* ===== verification/Tx.v ===== *)
(** * Transactions on blocks
    (the calls of BCACHE and of Transaction in domains/usr/xv6/kernel/fs/src)

    What the layers above see of the buffer cache and the log: they open a block, read
    and change its buffer, hand the buffer to the transaction, and close it again.
    [TxBlocks] is this interface with its laws; its abstract state, [tview], is the
    contents of the blocks as the transaction sees them, the contents on the device, the
    blocks that are open and the blocks that are logged.  The instance is the buffer
    cache of BCache.v with the log of Log.v. *)

From Stdlib Require Import ZArith Lia.
From stdpp Require Import base gmap list.
From stdpp Require Import options.
From S2P Require Import Prelude BCache Log.

Set Default Proof Using "Type".

(** ** The interface *)

Record tview (G : Type) := mkView {
  v_blocks : gmap Z block;
  v_home : gmap Z block;
  v_open : gmap Z (G * nat);
  v_log : gset Z }.
Arguments mkView {G}. Arguments v_blocks {G}. Arguments v_home {G}. Arguments v_open {G}. Arguments v_log {G}.

Section View.
Context {G : Type}.
Implicit Types t : tview G.

(** The blocks that occupy a buffer. *)
Definition busy t : gset Z := dom (v_open t) ∪ v_log t.

Definition opened (b : Z) (g : G) t : tview G :=
  mkView (v_blocks t) (v_home t)
    (<[b := (g, S (match v_open t !! b with Some (_, k) => k | None => 0 end))]> (v_open t)) (v_log t).
Definition stored (b : Z) (v : block) t : tview G := mkView (<[b := v]> (v_blocks t)) (v_home t) (v_open t) (v_log t).
Definition logged_in (b : Z) t : tview G := mkView (v_blocks t) (v_home t) (v_open t) ({[b]} ∪ v_log t).
Definition closed (b : Z) t : tview G :=
  mkView (v_blocks t) (v_home t)
    (match v_open t !! b with
     | Some (g, S (S k)) => <[b := (g, S k)]> (v_open t)
     | _ => delete b (v_open t)
     end) (v_log t).
End View.

(** At most this many guards of one block at a time. *)
Definition MAX_GUARDS : nat := 1000.

Class TxBlocks (S G : Type) := {
  bread : Z -> M S G;
  bdata : G -> M S block;
  bstore : G -> block -> M S unit;
  bwrite : G -> M S unit;
  brelse : G -> M S unit;
  tx_rep : S -> tview G -> Prop;

  bread_ok s t b v : tx_rep s t -> v_blocks t !! b = Some v ->
    (b ∈ busy t \/ base.size (busy t) < NBUF) -> (forall g k, v_open t !! b = Some (g, k) -> k < MAX_GUARDS) ->
    exists g s', bread b s = Done (g, s') /\ tx_rep s' (opened b g t) /\ (forall g' k, v_open t !! b = Some (g', k) -> g' = g);
  bdata_ok s t b g k : tx_rep s t -> v_open t !! b = Some (g, k) ->
    exists v, v_blocks t !! b = Some v /\ length v = BSIZE /\ bdata g s = Done (v, s);
  bstore_ok s t b g k v : tx_rep s t -> v_open t !! b = Some (g, k) -> length v = BSIZE ->
    exists s', bstore g v s = Done (tt, s') /\ tx_rep s' (stored b v t);
  bwrite_ok s t b g k : tx_rep s t -> v_open t !! b = Some (g, k) -> base.size (v_log t) < LOGSIZE ->
    exists s', bwrite g s = Done (tt, s') /\ tx_rep s' (logged_in b t);
  brelse_ok s t b g k : tx_rep s t -> v_open t !! b = Some (g, k) ->
    (k = 1 -> b ∈ v_log t \/ v_blocks t !! b = v_home t !! b) ->
    exists s', brelse g s = Done (tt, s') /\ tx_rep s' (closed b t);
  tx_len s t b v : tx_rep s t -> v_blocks t !! b = Some v -> length v = BSIZE }.

(** ** Rules for code over the interface *)

Section Rules.
Context {S G : Type} `{!TxBlocks S G}.
Implicit Types (V H : gmap Z block) (O : gmap Z (G * nat)) (L : gset Z) (s : S).

Definition open_map (b : Z) (g : G) O : gmap Z (G * nat) :=
  <[b := (g, Datatypes.S (match O !! b with Some (_, k) => k | None => 0 end))]> O.
Definition close_map (b : Z) O : gmap Z (G * nat) :=
  match O !! b with Some (g, Datatypes.S (Datatypes.S k)) => <[b := (g, Datatypes.S k)]> O | _ => delete b O end.

(** [k] more blocks may be opened at the same time. *)
Definition room O L (k : nat) : Prop :=
  base.size (dom O ∪ L) + k <= NBUF /\ forall b g c, O !! b = Some (g, c) -> 0 < c /\ c + k <= MAX_GUARDS.
(** [k] more blocks may be logged. *)
Definition log_room L (k : nat) : Prop := base.size L + k <= LOGSIZE.

Lemma close_open b g O : (forall g' c, O !! b = Some (g', c) -> g' = g /\ 0 < c) -> close_map b (open_map b g O) = O.
Proof.
  intros Hg. unfold close_map, open_map. rewrite lookup_insert_eq. destruct (O !! b) as [[g' c]|] eqn:E.
  - destruct (Hg g' c eq_refl) as [-> Hc]. destruct c as [|c]; [lia|]. by rewrite insert_insert_eq, insert_id.
  - by rewrite delete_insert_id.
Qed.

Lemma size_add L (b : Z) : base.size ({[b]} ∪ L) <= Datatypes.S (base.size L).
Proof. rewrite size_union_alt, size_singleton. pose proof (subseteq_size (L ∖ {[b]}) L ltac:(set_solver)). lia. Qed.

Lemma log_room_add L b k : log_room L (Datatypes.S k) -> log_room ({[b]} ∪ L) k.
Proof. unfold log_room. pose proof (size_add L b). lia. Qed.

Lemma log_room_le L k k' : k' <= k -> log_room L k -> log_room L k'.
Proof. unfold log_room. lia. Qed.

Lemma room_le O L k k' : k' <= k -> room O L k -> room O L k'.
Proof. intros Hle [H1 H2]. split; [lia|]. intros b g c Hb. destruct (H2 b g c Hb). lia. Qed.

Lemma room_open O L k b g : room O L (Datatypes.S k) -> room (open_map b g O) L k.
Proof.
  intros [H1 H2]. unfold open_map. split.
  - rewrite dom_insert_L, <- (assoc_L (∪)). pose proof (size_add (dom O ∪ L) b). lia.
  - intros b' g' c. destruct (decide (b' = b)) as [->|Hne].
    + rewrite lookup_insert_eq. intros [= <- <-]. destruct (O !! b) as [[g'' c]|] eqn:E; [|unfold MAX_GUARDS, NBUF in *; lia].
      destruct (H2 b g'' c E). lia.
    + rewrite lookup_insert_ne by done. intros Hb'. destruct (H2 b' g' c Hb'). lia.
Qed.

Lemma room_log O L k b : room O L (Datatypes.S k) -> room O ({[b]} ∪ L) k.
Proof.
  intros [H1 H2]. split.
  - replace (dom O ∪ ({[b]} ∪ L)) with ({[b]} ∪ (dom O ∪ L)) by set_solver. pose proof (size_add (dom O ∪ L) b). lia.
  - intros b' g c Hb'. destruct (H2 b' g c Hb'). lia.
Qed.

Lemma run_bread {B} V H O L s b v k (kont : G -> M S B) post :
  tx_rep s (mkView V H O L) -> V !! b = Some v -> room O L (Datatypes.S k) ->
  (forall g s', tx_rep s' (mkView V H (open_map b g O) L) -> room (open_map b g O) L k ->
     close_map b (open_map b g O) = O -> run (kont g) s' post) ->
  run (bread b ≫= kont) s post.
Proof.
  intros R Hv Hr Hk. pose proof Hr as [H1 H2].
  destruct (bread_ok s (mkView V H O L) b v R Hv) as (g & s' & E & R' & Hg).
  - right. unfold busy. cbn [v_open v_log]. lia.
  - intros g c Ho. destruct (H2 b g c Ho). lia.
  - eapply run_step; [exact E|]. apply Hk; [exact R'|by apply room_open|]. apply close_open.
    intros g' c Ho. split; [by eapply Hg|]. by destruct (H2 b g' c Ho).
Qed.

Lemma open_lookup b g O : exists c, open_map b g O !! b = Some (g, c).
Proof. unfold open_map. rewrite lookup_insert_eq. eauto. Qed.

Lemma run_bdata {B} V H O L s b g c v (kont : block -> M S B) post :
  tx_rep s (mkView V H O L) -> O !! b = Some (g, c) -> V !! b = Some v -> run (kont v) s post -> run (bdata g ≫= kont) s post.
Proof.
  intros R Ho Hv Hk. destruct (bdata_ok s _ b g c R Ho) as (w & Hw & _ & E). cbn [v_blocks] in Hw. rewrite Hv in Hw.
  injection Hw as <-. by eapply run_step.
Qed.

Lemma run_bstore {B} V H O L s b g c w (kont : unit -> M S B) post :
  tx_rep s (mkView V H O L) -> O !! b = Some (g, c) -> length w = BSIZE ->
  (forall s', tx_rep s' (mkView (<[b := w]> V) H O L) -> run (kont tt) s' post) -> run (bstore g w ≫= kont) s post.
Proof.
  intros R Ho Hw Hk. destruct (bstore_ok s _ b g c w R Ho Hw) as (s' & E & R'). eapply run_step; [exact E|]. by apply Hk.
Qed.

Lemma run_bwrite {B} V H O L s b g c (kont : unit -> M S B) post :
  tx_rep s (mkView V H O L) -> O !! b = Some (g, c) -> log_room L 1 ->
  (forall s', tx_rep s' (mkView V H O ({[b]} ∪ L)) -> run (kont tt) s' post) -> run (bwrite g ≫= kont) s post.
Proof.
  intros R Ho Hw Hk. destruct (bwrite_ok s _ b g c R Ho) as (s' & E & R'); [unfold log_room in Hw; cbn [v_log]; lia|].
  eapply run_step; [exact E|]. by apply Hk.
Qed.

Lemma run_brelse {B} V H O L s b g c (kont : unit -> M S B) post :
  tx_rep s (mkView V H O L) -> O !! b = Some (g, c) -> (b ∈ L \/ V !! b = H !! b) ->
  (forall s', tx_rep s' (mkView V H (close_map b O) L) -> run (kont tt) s' post) -> run (brelse g ≫= kont) s post.
Proof.
  intros R Ho Hc Hk. destruct (brelse_ok s _ b g c R Ho) as (s' & E & R'); [done|].
  eapply run_step; [exact E|]. by apply Hk.
Qed.
End Rules.

(** ** The buffer cache and the log *)

Section Instance.
Context `{Profile} `{ByteOrder} {D : Type} `{!BDev D} (d : Z) (Hd : d <> 0%Z).
(** The device [dk] and all of the log but its header stay the same. *)
Context (dk : D) (l0 : LogInternal) (Hout : (1 <= outstanding l0)%Z).

Definition guards_of (t : tview BufferGuard) (b : Z) : nat := match v_open t !! b with Some (_, k) => k | None => 0 end.
Definition pins_of (t : tview BufferGuard) (b : Z) : nat := if decide (b ∈ v_log t) then 1 else 0.

(** A block in a buffer, or not. *)
Definition use_ok (t : tview BufferGuard) (b : Z) (x : option use) : Prop :=
  match x with
  | Some x => v_blocks t !! b = Some (u_data x) /\ u_rc x = Z.of_nat (guards_of t b + pins_of t b) /\
      (forall g k, v_open t !! b = Some (g, k) -> g = mkGuard d b (u_idx x) /\ 0 < k <= MAX_GUARDS)
  | None => v_blocks t !! b = v_home t !! b /\ v_open t !! b = None /\ b ∉ v_log t
  end.

(** The header of the log lists the logged blocks. *)
Record log_ok (l : LogInternal) (bs : gset Z) : Prop := mkLogOk {
  lo_n : n (logheader l) = Z.of_nat (base.size bs);
  lo_len : length (block_nums (logheader l)) = LOGSIZE;
  lo_set : list_to_set (take (base.size bs) (block_nums (logheader l))) = bs;
  lo_nodup : NoDup (take (base.size bs) (block_nums (logheader l)));
  lo_wf : Forall (in_width 32) (block_nums (logheader l));
  lo_same : l = with_header (logheader l) l0 }.

Record fs_rep (s : fsst D) (t : tview BufferGuard) : Prop := mkFsRep {
  fr_use : exists u, rep d (bcache s) u /\ forall b, use_ok t b (u !! b);
  fr_dev : bdev (bcache s) = dk;
  fr_home : blocks dk = v_home t;
  fr_log : log_ok (log s) (v_log t) }.

Lemma on_bc_eq {A} (m : M (BufferCache D) A) (s : fsst D) a c :
  m (bcache s) = Done (a, c) -> on_bc m s = Done (a, mkFS c (log s)).
Proof. intros E. unfold on_bc. by rewrite E. Qed.

(** The blocks in use are the busy ones. *)
Lemma use_busy t (u : gmap Z use) : (forall b, use_ok t b (u !! b)) ->
  (forall b x, u !! b = Some x -> (0 < u_rc x)%Z) -> dom u = busy t.
Proof.
  intros Hu Hpos. apply set_eq. intros b. unfold busy. rewrite elem_of_union, !elem_of_dom. specialize (Hu b).
  destruct (u !! b) as [x|] eqn:Ex; cbn [use_ok] in Hu.
  - split; [intros _|eauto]. destruct Hu as (_ & Hrc & _). specialize (Hpos b x Ex). rewrite Hrc in Hpos.
    unfold guards_of, pins_of in Hpos. destruct (decide (b ∈ v_log t)); [by right|].
    destruct (v_open t !! b) as [[g k]|]; [left; eauto|lia].
  - destruct Hu as (_ & -> & Hn). split; [by intros []|]. intros [[? ?]|?]; done.
Qed.

Lemma rep_pos c u b x : rep d c u -> u !! b = Some x -> (0 < u_rc x)%Z.
Proof. intros R Hx. by apply (r_use _ _ _ R) in Hx as [? _]. Qed.

Lemma rep_size s t u : rep d (bcache s) u -> (forall b, use_ok t b (u !! b)) -> base.size u = base.size (busy t).
Proof. intros R Hu. rewrite <- size_dom. by rewrite (use_busy t u Hu) by (intros; by eapply rep_pos). Qed.

Lemma in_use t (u : gmap Z use) b : (forall b, use_ok t b (u !! b)) -> b ∈ busy t -> is_Some (u !! b).
Proof.
  intros Hu Hb. specialize (Hu b). destruct (u !! b) as [x|]; [eauto|]. destruct Hu as (_ & Ho & Hn).
  unfold busy in Hb. rewrite elem_of_union, elem_of_dom, Ho in Hb. destruct Hb as [[? ?]|?]; done.
Qed.

Lemma use_ok_ext t t' b x :
  v_blocks t' !! b = v_blocks t !! b -> v_home t' !! b = v_home t !! b -> v_open t' !! b = v_open t !! b ->
  (b ∈ v_log t' <-> b ∈ v_log t) -> use_ok t b x -> use_ok t' b x.
Proof.
  intros E1 E2 E3 E4. destruct x as [x|]; cbn [use_ok]; rewrite ?E1, ?E2, ?E3, ?E4; [|done].
  intros (H1 & H2 & H3). split_and!; [done| |done]. rewrite H2. unfold guards_of, pins_of. rewrite E3.
  by rewrite (decide_ext _ _ _ _ E4).
Qed.

(** One block changes its entry. *)
Lemma use_ok_insert t t' (u : gmap Z use) b y :
  (forall b', b' <> b -> v_blocks t' !! b' = v_blocks t !! b' /\ v_home t' !! b' = v_home t !! b' /\
     v_open t' !! b' = v_open t !! b' /\ (b' ∈ v_log t' <-> b' ∈ v_log t)) ->
  (forall b, use_ok t b (u !! b)) -> use_ok t' b (Some y) -> forall b', use_ok t' b' (<[b := y]> u !! b').
Proof.
  intros Hext Hu Hy b'. destruct (decide (b' = b)) as [->|Hne]; [by rewrite lookup_insert_eq|].
  rewrite lookup_insert_ne by done. destruct (Hext b' Hne) as (E1 & E2 & E3 & E4). by eapply use_ok_ext.
Qed.

Lemma fs_read s t b v : fs_rep s t -> v_blocks t !! b = Some v ->
  (b ∈ busy t \/ base.size (busy t) < NBUF) -> (forall g k, v_open t !! b = Some (g, k) -> k < MAX_GUARDS) ->
  exists g s', on_bc (read d b) s = Done (g, s') /\ fs_rep s' (opened b g t) /\ (forall g' k, v_open t !! b = Some (g', k) -> g' = g).
Proof using Hd Hout.
  intros [(u & R & Hu) Hdv Hh Hl] Hv Hroom Hg. pose proof (Hu b) as Hb.
  assert (Hdisk : exists w, blocks (bdev (bcache s)) !! b = Some w /\ (u !! b = None -> w = v)).
  { destruct (u !! b) as [x|] eqn:Ex; cbn [use_ok] in Hb.
    - destruct (r_disk _ _ _ R b x Ex) as [_ [w Hw]]. exists w. split; [done|]. done.
    - exists v. rewrite Hdv, Hh. destruct Hb as [<- _]. done. }
  destruct Hdisk as (w & Hw & Hwv).
  assert (Hcount : guards_of t b + pins_of t b < 2000).
  { unfold guards_of, pins_of. destruct (v_open t !! b) as [[g k]|]; [specialize (Hg g k eq_refl); unfold MAX_GUARDS in Hg|]; case_decide; lia. }
  destruct (read_spec d Hd (bcache s) u b w R Hw) as (i & c & Hr & Hc & R' & Hi).
  - intros x Ex. rewrite Ex in Hb. destruct Hb as (_ & Hrc & _). lia.
  - intros Hn. rewrite (rep_size s t u R Hu). destruct Hroom as [Hin|]; [|done].
    apply (in_use t u b Hu) in Hin as [x Hx]. congruence.
  - exists (mkGuard d b i), (mkFS c (log s)). split; [by apply on_bc_eq|]. split; [split|].
    + exists (<[b := read_use u b w i]> u). split; [done|]. apply (use_ok_insert t).
      * intros b' Hne. cbn [opened v_blocks v_home v_open v_log]. by rewrite lookup_insert_ne.
      * done.
      * unfold read_use. destruct (u !! b) as [x|] eqn:Ex; cbn [use_ok opened v_blocks v_home v_open v_log] in Hb |- *.
        -- destruct Hb as (Hb1 & Hb2 & Hb3). cbn [u_data u_rc u_idx]. split_and!; [done| |].
           ++ unfold guards_of, pins_of in *. cbn [opened v_open v_log]. rewrite lookup_insert_eq. rewrite Hb2. lia.
           ++ intros g k. rewrite lookup_insert_eq. intros [= <- <-]. split; [done|].
              destruct (v_open t !! b) as [[g k]|]; [specialize (Hg g k eq_refl)|]; unfold MAX_GUARDS in *; lia.
        -- destruct Hb as (Hb1 & Hb2 & Hb3). cbn [u_data u_rc u_idx]. rewrite Hwv in * by done. split_and!; [done| |].
           ++ unfold guards_of, pins_of. cbn [opened v_open v_log]. rewrite lookup_insert_eq, Hb2, decide_False by done. done.
           ++ intros g k. rewrite lookup_insert_eq, Hb2. intros [= <- <-]. split; [done|]. unfold MAX_GUARDS. lia.
    + cbn [bcache]. by rewrite Hc.
    + done.
    + done.
    + intros g' k Ho. destruct (u !! b) as [x|] eqn:Ex; cbn [use_ok] in Hb.
      * destruct Hb as (_ & _ & Hb3). destruct (Hb3 g' k Ho) as [-> _]. by rewrite (Hi x eq_refl).
      * destruct Hb as (_ & Hb2 & _). congruence.
Qed.

(** The guard of an open block. *)
Lemma open_guard s t u b g k : rep d (bcache s) u -> (forall b, use_ok t b (u !! b)) -> v_open t !! b = Some (g, k) ->
  exists x, guards u g b x /\ use_ok t b (Some x) /\ v_blocks t !! b = Some (u_data x) /\ length (u_data x) = BSIZE.
Proof.
  intros R Hu Ho. pose proof (Hu b) as Hb. destruct (u !! b) as [x|] eqn:Ex.
  - exists x. pose proof Hb as (Hv & _ & Hg). destruct (Hg g k Ho) as [-> _].
    split_and!; [by split|done|done|]. by destruct (r_disk _ _ _ R b x Ex).
  - destruct Hb as (_ & Hb & _). congruence.
Qed.

Lemma fs_data s t b g k : fs_rep s t -> v_open t !! b = Some (g, k) ->
  exists v, v_blocks t !! b = Some v /\ length v = BSIZE /\ on_bc (guard_data g) s = Done (v, s).
Proof.
  intros [(u & R & Hu) Hdv Hh Hl] Ho. destruct (open_guard s t u b g k R Hu Ho) as (x & Hg & _ & Hv & Hlen).
  exists (u_data x). split_and!; [done|done|]. rewrite (on_bc_eq _ s _ _ (guard_data_spec d _ u g b x R Hg)). by destruct s.
Qed.

Lemma fs_store s t b g k v : fs_rep s t -> v_open t !! b = Some (g, k) -> length v = BSIZE ->
  exists s', on_bc (guard_set g v) s = Done (tt, s') /\ fs_rep s' (stored b v t).
Proof using Hd Hout.
  intros [(u & R & Hu) Hdv Hh Hl] Ho Hlen. destruct (open_guard s t u b g k R Hu Ho) as (x & Hg & Hx & _).
  destruct (guard_set_spec d Hd _ u g b x v R Hg Hlen) as (c & Hr & Hc & R'). exists (mkFS c (log s)).
  split; [by apply on_bc_eq|]. split.
  - eexists. split; [exact R'|]. apply (use_ok_insert t).
    + intros b' Hne. cbn [stored v_blocks v_home v_open v_log]. by rewrite lookup_insert_ne.
    + done.
    + destruct Hx as (_ & Hrc & Hx). cbn [use_ok stored v_blocks v_open u_data u_rc u_idx]. by rewrite lookup_insert_eq.
  - cbn [bcache]. by rewrite Hc.
  - done.
  - done.
Qed.

Lemma log_ok_absorb l bs b : log_ok l bs -> in_width 32 b -> b ∈ bs -> base.size bs < LOGSIZE ->
  log_ok (with_header (logged_header (logheader l) b) l) ({[b]} ∪ bs).
Proof.
  clear d Hd Hout. intros [H1 H2 H3 H4 H5 H6] Hbw Hb Hlt. assert (Eb : {[b]} ∪ bs = bs) by set_solver. rewrite Eb.
  assert (Hin : b ∈ take (Z.to_nat (n (logheader l))) (block_nums (logheader l))).
  { rewrite H1, Nat2Z.id. rewrite <- H3 in Hb. by apply elem_of_list_to_set in Hb. }
  unfold logged_header. rewrite decide_True by done. rewrite H1, Nat2Z.id.
  split; cbn [with_header logheader n block_nums]; rewrite ?length_insert, ?take_insert_ge by lia; try done.
  - by apply Forall_insert.
  - by rewrite H6.
Qed.

Lemma log_ok_append l bs b : log_ok l bs -> in_width 32 b -> b ∉ bs -> base.size bs < LOGSIZE ->
  log_ok (with_header (logged_header (logheader l) b) l) ({[b]} ∪ bs).
Proof.
  clear d Hd Hout. intros [H1 H2 H3 H4 H5 H6] Hbw Hb Hlt.
  assert (Hin : b ∉ take (Z.to_nat (n (logheader l))) (block_nums (logheader l))).
  { rewrite H1, Nat2Z.id. intros Hin. apply Hb. rewrite <- H3. by apply elem_of_list_to_set. }
  unfold logged_header. rewrite decide_False by done. rewrite H1, Nat2Z.id.
  assert (Hsz : base.size ({[b]} ∪ bs) = S (base.size bs)) by (rewrite size_union, size_singleton by set_solver; done).
  assert (Ht : take (S (base.size bs)) (<[base.size bs := b]> (block_nums (logheader l))) =
    take (base.size bs) (block_nums (logheader l)) ++ [b]).
  { rewrite (take_S_r _ _ b) by (apply list_lookup_insert_eq; lia). by rewrite take_insert_ge by lia. }
  split; cbn [with_header logheader n block_nums]; rewrite ?Hsz, ?Ht, ?length_insert; try done; try lia.
  - rewrite list_to_set_app_L, H3. cbn. set_solver.
  - apply list.NoDup_app. split_and!; [done| |apply NoDup_singleton]. intros x Hx ->%list_elem_of_singleton.
    apply Hb. rewrite <- H3. by apply elem_of_list_to_set.
  - by apply Forall_insert.
  - by rewrite H6.
Qed.

Lemma fs_write s t b g k : fs_rep s t -> v_open t !! b = Some (g, k) -> base.size (v_log t) < LOGSIZE ->
  exists s', log_write g s = Done (tt, s') /\ fs_rep s' (logged_in b t).
Proof using Hd Hout.
  intros [(u & R & Hu) Hdv Hh Hl] Ho Hlt. destruct (open_guard s t u b g k R Hu Ho) as (x & Hg & Hx & _).
  pose proof Hl as [H1 H2 H3 H4 H5 H6]. destruct Hg as (Hux & Hgi & Hgb).
  assert (Hbw : in_width 32 b).
  { destruct (r_disk _ _ _ R b x Hux) as [_ [w Hw]]. destruct (blocks_len _ _ _ Hw). unfold in_width. lia. }
  rewrite (log_write_eq s g) by (done || (try lia) || by rewrite H6). cbv zeta. rewrite Hgb.
  assert (Hiff : b ∈ take (Z.to_nat (n (logheader (log s)))) (block_nums (logheader (log s))) <-> b ∈ v_log t).
  { rewrite H1, Nat2Z.id. rewrite <- (elem_of_list_to_set (C := gset Z)). by rewrite H3. }
  destruct (decide (b ∈ take _ _)) as [Hin|Hin].
  - apply Hiff in Hin. eexists. split; [done|]. split; cbn [bcache log logged_in v_home v_log]; [|done|done|by apply log_ok_absorb].
    exists u. split; [done|]. intros b'. eapply use_ok_ext; [..|exact (Hu b')]; try done. cbn. set_solver.
  - rewrite Hiff in Hin. destruct Hx as (Hx1 & Hx2 & Hx3).
    assert (Hcount : (u_rc x < 2 ^ 32 - 1)%Z).
    { rewrite Hx2. unfold guards_of, pins_of. rewrite Ho. destruct (Hx3 g k Ho) as [_ Hk]. unfold MAX_GUARDS in Hk. case_decide; lia. }
    destruct (guard_pin_spec d Hd _ u g b x R (conj Hux (conj Hgi Hgb)) Hcount) as (c & -> & Hc & R').
    eexists. split; [done|]. split; cbn [bcache log logged_in v_home v_log]; [|by rewrite Hc|done|by apply log_ok_append].
    eexists. split; [exact R'|]. apply (use_ok_insert t); [|done|].
    + intros b' Hne. cbn [logged_in v_blocks v_home v_open v_log]. split_and!; [done|done|done|set_solver].
    + cbn [use_ok logged_in v_blocks v_open u_data u_rc u_idx]. split_and!; [done| |done].
      rewrite Hx2. unfold guards_of, pins_of. cbn [logged_in v_open v_log]. rewrite (decide_False (P := b ∈ v_log t)), (decide_True (P := b ∈ {[b]} ∪ v_log t)) by (done || set_solver). lia.
Qed.

Lemma fs_release s t b g k : fs_rep s t -> v_open t !! b = Some (g, k) ->
  (k = 1 -> b ∈ v_log t \/ v_blocks t !! b = v_home t !! b) ->
  exists s', on_bc (guard_drop g) s = Done (tt, s') /\ fs_rep s' (closed b t).
Proof using Hd Hout.
  intros [(u & R & Hu) Hdv Hh Hl] Ho Hclean. destruct (open_guard s t u b g k R Hu Ho) as (x & Hg & (Hx1 & Hx2 & Hx3) & _).
  destruct (Hx3 g k Ho) as [Eg Hk]. unfold guards_of, pins_of in Hx2. rewrite Ho in Hx2.
  destruct (guard_drop_spec d Hd _ u g b x R Hg) as (c & Hr & Hc & R').
  { intros E. rewrite Hdv, Hh, <- Hx1. destruct (decide (b ∈ v_log t)); [lia|]. symmetry. destruct (Hclean ltac:(lia)); done. }
  exists (mkFS c (log s)). split; [by apply on_bc_eq|].
  split; cbn [bcache log closed v_home v_log]; [|by rewrite Hc|done|done]. eexists. split; [exact R'|].
  assert (Hother : forall b', b' <> b -> v_open (closed b t) !! b' = v_open t !! b').
  { intros b' Hne. cbn [closed v_open]. rewrite Ho. destruct k as [|[|k]]; by rewrite ?lookup_delete_ne, ?lookup_insert_ne. }
  unfold use_set. cbn [u_rc]. destruct (Z.ltb_spec 0 (u_rc x - 1)) as [Hpos|Hz].
  - apply (use_ok_insert t); [|done|].
    + intros b' Hne. by rewrite Hother.
    + cbn [use_ok closed v_blocks v_home v_open v_log u_data u_rc u_idx]. rewrite Ho. split_and!; [done| |].
      * unfold guards_of, pins_of. cbn [closed v_open v_log]. rewrite Ho.
        destruct k as [|[|k]]; rewrite ?lookup_delete_eq, ?lookup_insert_eq; case_decide; lia.
      * intros g' k'. destruct k as [|[|k]]; rewrite ?lookup_delete_eq, ?lookup_insert_eq; [done|done|].
        intros [= <- <-]. unfold MAX_GUARDS in *. split; [done|lia].
  - intros b'. destruct (decide (b' = b)) as [->|Hne].
    + rewrite lookup_delete_eq. destruct (decide (b ∈ v_log t)) as [|Hn]; [lia|]. assert (k = 1) as -> by lia.
      cbn [use_ok closed v_blocks v_home v_open v_log]. rewrite Ho, lookup_delete_eq.
      split_and!; [|done|done]. destruct (Hclean eq_refl); done.
    + rewrite lookup_delete_ne by done. eapply use_ok_ext; [..|exact (Hu b')]; try done. by rewrite Hother.
Qed.

Lemma fs_len s t b v : fs_rep s t -> v_blocks t !! b = Some v -> length v = BSIZE.
Proof.
  intros [(u & R & Hu) Hdv Hh Hl] Hv. specialize (Hu b). destruct (u !! b) as [x|] eqn:Ex; cbn [use_ok] in Hu.
  - destruct Hu as (Hu & _). destruct (r_disk _ _ _ R b x Ex) as [Hlen _]. congruence.
  - destruct Hu as (Hu & _). rewrite Hu, <- Hh, <- Hdv in Hv. by destruct (blocks_len _ _ _ Hv).
Qed.

(** The instance: what Log.v and BCache.v do keeps the promises. *)
Definition fs_TxBlocks : TxBlocks (fsst D) BufferGuard := {|
  bread b := on_bc (read d b); bdata g := on_bc (guard_data g); bstore g v := on_bc (guard_set g v);
  bwrite g := log_write g; brelse g := on_bc (guard_drop g); tx_rep := fs_rep;
  bread_ok := fs_read; bdata_ok := fs_data; bstore_ok := fs_store; bwrite_ok := fs_write; brelse_ok := fs_release;
  tx_len := fs_len |}.
End Instance.
