(* ===== verification/Block.v ===== *)
(** * Block allocation of the xv6 file system
    (domains/usr/xv6/kernel/fs/src/block.rs, fs.rs, params.rs)

    The bitmap of used blocks, its operations [alloc], [free] and [zero], and the super
    block that says where things are.  The code runs over the interface of Tx.v.

    A buffer is locked while it is used, and the locks are not reentrant: [held] names
    the blocks whose buffers the caller has locked. *)

From Stdlib Require Import ZArith Lia.
From stdpp Require Import base gmap list.
From stdpp Require Import options.
From S2P Require Import Prelude BCache Log Tx.

Set Default Proof Using "Type".

Definition BPB : nat := BSIZE * 8.

Record SuperBlock := mkSB {
  sb_size : Z; nblocks : Z; ninodes : Z; nlog : Z; logstart : Z; inodestart : Z; bmapstart : Z }.

Section SuperBlock.
Context `{ByteOrder}.

(** [SuperBlock::from_bytes]: seven words. *)
Definition SuperBlock_from_bytes (bytes : block) : outcome SuperBlock :=
  a0 ← word_at bytes 0; a1 ← word_at bytes 4; a2 ← word_at bytes 8; a3 ← word_at bytes 12;
  a4 ← word_at bytes 16; a5 ← word_at bytes 20; a6 ← word_at bytes 24;
  Done (mkSB (read_u32 a0) (read_u32 a1) (read_u32 a2) (read_u32 a3) (read_u32 a4) (read_u32 a5) (read_u32 a6)).
End SuperBlock.

Section Code.
Context `{Profile} {S G : Type} `{!TxBlocks S G} (sb : SuperBlock).
Abbreviation F := (M S).

(** [guard.lock()] *)
Definition lock_data (held : list Z) (b : Z) (g : G) : F block := if decide (b ∈ held) then hang else bdata g.

Definition block_to_bitmap_block (b : Z) : outcome Z := uadd 32 (b / Z.of_nat BPB) (bmapstart sb).

Definition read_superblock `{ByteOrder} : F SuperBlock :=
  g ← bread 1%Z; v ← bdata g; r ← lift (SuperBlock_from_bytes v); _ ← brelse g; mret r.

(** The mask [1 << (bi % 8)] of a byte. *)
Definition mask (bi : nat) : Z := 2 ^ Z.of_nat (bi mod 8).

Definition free (held : list Z) (b : Z) : F unit :=
  bm ← lift (block_to_bitmap_block b);
  bguard ← bread bm;
  buffer ← lock_data held bm bguard;
  let bi := Z.to_nat (b mod Z.of_nat BPB) in
  v ← lift (index buffer (bi / 8));
  if (Z.land v (mask bi) =? 0)%Z then panic
  else
    _ ← bstore bguard (<[bi / 8 := Z.land v (Z.lxor 255 (mask bi))]> buffer);
    _ ← bwrite bguard;
    _ ← brelse bguard;
    mret tt.

Definition zero (held : list Z) (b : Z) : F unit :=
  bguard ← bread b;
  buffer ← lock_data held b bguard;
  _ ← bstore bguard ((fun _ => 0%Z) <$> buffer);
  _ ← bwrite bguard;
  _ ← brelse bguard;
  mret tt.

(** The inner loop of [alloc]: the first clear bit from [bi] on, [k] bits in all. *)
Fixpoint find_clear (buffer : block) (k bi : nat) : outcome (option nat) :=
  match k with
  | O => Done None
  | Datatypes.S k =>
      v ← index buffer (bi / 8);
      if (Z.land v (mask bi) =? 0)%Z then Done (Some bi) else find_clear buffer k (Datatypes.S bi)
  end.

(** The loop over the bitmap blocks, [k] of them left, the first for block [b]. *)
Fixpoint alloc_loop (held : list Z) (k : nat) (b : Z) : F (option Z) :=
  match k with
  | O => mret None
  | Datatypes.S k =>
      bm ← lift (block_to_bitmap_block b);
      bguard ← bread bm;
      buffer ← lock_data held bm bguard;
      r ← lift (find_clear buffer (Nat.min BPB (Z.to_nat (sb_size sb - b))) 0);
      match r with
      | Some bi =>
          v ← lift (index buffer (bi / 8));
          _ ← bstore bguard (<[bi / 8 := Z.lor v (mask bi)]> buffer);
          _ ← bwrite bguard;
          _ ← zero held (b + Z.of_nat bi);
          _ ← brelse bguard;
          mret (Some (b + Z.of_nat bi)%Z)
      | None => _ ← brelse bguard; alloc_loop held k (b + Z.of_nat BPB)
      end
  end.

(** [(0..size).step_by(BPB)] *)
Definition bitmap_blocks : nat := (Z.to_nat (sb_size sb) + BPB - 1) / BPB.
Definition alloc (held : list Z) : F (option Z) := alloc_loop held bitmap_blocks 0.
End Code.

(** ** Bits *)

Lemma mask_land v bi : (Z.land v (mask bi) =? 0)%Z = negb (Z.testbit v (Z.of_nat (bi mod 8))).
Proof.
  unfold mask. set (k := Z.of_nat (bi mod 8)). assert (0 <= k)%Z by (unfold k; lia).
  destruct (Z.testbit v k) eqn:E; cbn [negb].
  - apply Z.eqb_neq. intros E0. apply (f_equal (fun x => Z.testbit x k)) in E0.
    rewrite Z.land_spec, E, Z.pow2_bits_true, Z.bits_0 in E0 by done. done.
  - apply Z.eqb_eq. apply Z.bits_inj'. intros m Hm. rewrite Z.land_spec, Z.bits_0, Z.pow2_bits_eqb by done.
    destruct (Z.eqb_spec k m) as [<-|]; [by rewrite E|]. by rewrite andb_false_r.
Qed.

Lemma mask_lor v bi i : i < 8 ->
  Z.testbit (Z.lor v (mask bi)) (Z.of_nat i) = if decide (i = bi mod 8) then true else Z.testbit v (Z.of_nat i).
Proof.
  intros Hi. unfold mask. rewrite Z.lor_spec, Z.pow2_bits_eqb by lia.
  destruct (decide (i = bi mod 8)) as [->|Hne]; [by rewrite Z.eqb_refl, orb_true_r|].
  destruct (Z.eqb_spec (Z.of_nat (bi mod 8)) (Z.of_nat i)); [lia|]. by rewrite orb_false_r.
Qed.

Lemma bits_255 i : i < 8 -> Z.testbit 255 (Z.of_nat i) = true.
Proof. intros Hi. do 8 (destruct i as [|i]; [done|]). lia. Qed.

Lemma mask_clear v bi i : i < 8 ->
  Z.testbit (Z.land v (Z.lxor 255 (mask bi))) (Z.of_nat i) = if decide (i = bi mod 8) then false else Z.testbit v (Z.of_nat i).
Proof.
  intros Hi. unfold mask. rewrite Z.land_spec, Z.lxor_spec, Z.pow2_bits_eqb, bits_255 by lia.
  destruct (decide (i = bi mod 8)) as [->|Hne]; [by rewrite Z.eqb_refl, andb_false_r|].
  destruct (Z.eqb_spec (Z.of_nat (bi mod 8)) (Z.of_nat i)); [lia|]. cbn [xorb]. by rewrite andb_true_r.
Qed.

(** Bit [bi] of a bitmap block. *)
Definition bit (buffer : block) (bi : nat) : bool :=
  match buffer !! (bi / 8) with Some v => Z.testbit v (Z.of_nat (bi mod 8)) | None => false end.

Lemma bit_update buffer bi v w j : buffer !! (bi / 8) = Some v ->
  bit (<[bi / 8 := w]> buffer) j =
    if decide (j / 8 = bi / 8) then Z.testbit w (Z.of_nat (j mod 8)) else bit buffer j.
Proof.
  intros Hv. unfold bit. destruct (decide (j / 8 = bi / 8)) as [->|Hne].
  - by rewrite list_lookup_insert_eq by (by eapply lookup_lt_Some).
  - by rewrite list_lookup_insert_ne.
Qed.

Lemma div_mod_8 j bi : j / 8 = bi / 8 -> j mod 8 = bi mod 8 -> j = bi.
Proof. intros H1 H2. rewrite (Nat.div_mod_eq j 8), (Nat.div_mod_eq bi 8). lia. Qed.

Lemma bit_set buffer bi v j : buffer !! (bi / 8) = Some v ->
  bit (<[bi / 8 := Z.lor v (mask bi)]> buffer) j = if decide (j = bi) then true else bit buffer j.
Proof.
  intros Hv. rewrite (bit_update buffer bi v _ j Hv). destruct (decide (j / 8 = bi / 8)) as [E|Hne].
  - rewrite mask_lor by (apply Nat.mod_upper_bound; done). unfold bit. rewrite E, Hv.
    destruct (decide (j mod 8 = bi mod 8)) as [E2|Hn2].
    + by rewrite decide_True by (by apply div_mod_8).
    + by rewrite decide_False by congruence.
  - by rewrite decide_False by congruence.
Qed.

Lemma bit_clear buffer bi v j : buffer !! (bi / 8) = Some v ->
  bit (<[bi / 8 := Z.land v (Z.lxor 255 (mask bi))]> buffer) j = if decide (j = bi) then false else bit buffer j.
Proof.
  intros Hv. rewrite (bit_update buffer bi v _ j Hv). destruct (decide (j / 8 = bi / 8)) as [E|Hne].
  - rewrite mask_clear by (apply Nat.mod_upper_bound; done). unfold bit. rewrite E, Hv.
    destruct (decide (j mod 8 = bi mod 8)) as [E2|Hn2].
    + by rewrite decide_True by (by apply div_mod_8).
    + by rewrite decide_False by congruence.
  - by rewrite decide_False by congruence.
Qed.

Lemma find_clear_spec buffer k bi : (forall j, j < bi + k -> is_Some (buffer !! (j / 8))) ->
  find_clear buffer k bi = Done (find (fun j => negb (bit buffer j)) (seq bi k)).
Proof.
  revert bi. induction k as [|k IH]; intros bi Hb; [done|]. cbn [find_clear seq find].
  destruct (Hb bi ltac:(lia)) as [v Hv]. rewrite (index_Some _ _ _ Hv). cbn [mbind outcome_bind]. rewrite mask_land.
  unfold bit at 1. rewrite Hv. destruct (negb _); [done|]. apply IH. intros j Hj. apply Hb. lia.
Qed.

Lemma find_seq_first f a k i : find f (seq a k) = Some i -> forall j, a <= j < i -> f j = false.
Proof.
  revert a. induction k as [|k IH]; intros a; [done|]. cbn [seq find]. destruct (f a) eqn:E; [intros [= <-]; lia|].
  intros Hf j Hj. destruct (decide (j = a)) as [->|]; [done|]. apply (IH (S a) Hf). lia.
Qed.

Lemma find_seq_none f a k : find f (seq a k) = None -> forall j, a <= j < a + k -> f j = false.
Proof.
  revert a. induction k as [|k IH]; intros a; [lia|]. cbn [seq find]. destruct (f a) eqn:E; [done|].
  intros Hf j Hj. destruct (decide (j = a)) as [->|]; [done|]. apply (IH (S a) Hf). lia.
Qed.

(** ** The bitmap of a view *)

Section Bitmap.
Context (sb : SuperBlock).
Implicit Types (V : gmap Z block).

Definition bm (b : Z) : Z := b / Z.of_nat BPB + bmapstart sb.
Definition bit_index (b : Z) : nat := Z.to_nat (b mod Z.of_nat BPB).
Definition used V (b : Z) : bool := match V !! bm b with Some buf => bit buf (bit_index b) | None => false end.

(** The blocks of the file system exist, and the bitmap lies among them, marked as used. *)
Record geometry V : Prop := mkGeo {
  geo_size : (0 <= sb_size sb < 2 ^ 31)%Z;
  geo_bmap : (0 <= bmapstart sb < 2 ^ 31)%Z;
  geo_blocks : forall b, (0 <= b < sb_size sb)%Z -> exists v, V !! b = Some v /\ length v = BSIZE;
  geo_bm : forall b, (0 <= b < sb_size sb)%Z -> (0 <= bm b < sb_size sb)%Z /\ used V (bm b) = true }.

(** [V'] is [V] with the bit of [b] set to [val]. *)
Definition bit_changed V V' (b : Z) (val : bool) : Prop :=
  exists buf, V' = <[bm b := buf]> V /\ length buf = BSIZE /\
    forall c, (0 <= c)%Z -> used V' c = if decide (c = b) then val else used V c.

Lemma BPB_pos : (0 < Z.of_nat BPB)%Z.
Proof. done. Qed.

Lemma bit_index_lt b : bit_index b < BPB.
Proof. unfold bit_index. pose proof (Z.mod_pos_bound b (Z.of_nat BPB) BPB_pos). lia. Qed.

Lemma bit_byte b (buf : block) : length buf = BSIZE -> exists v, buf !! (bit_index b / 8) = Some v.
Proof.
  intros Hl. apply lookup_lt_is_Some_2. rewrite Hl. pose proof (bit_index_lt b) as Hb. unfold BPB in Hb.
  apply Nat.Div0.div_lt_upper_bound. lia.
Qed.

Lemma bm_same c b : (0 <= c)%Z -> (0 <= b)%Z -> bm c = bm b -> bit_index c = bit_index b -> c = b.
Proof.
  intros Hc Hb E1 E2. unfold bm, bit_index in *. pose proof BPB_pos.
  pose proof (Z.mod_pos_bound c (Z.of_nat BPB) BPB_pos). pose proof (Z.mod_pos_bound b (Z.of_nat BPB) BPB_pos).
  rewrite (Z.div_mod c (Z.of_nat BPB)), (Z.div_mod b (Z.of_nat BPB)) by lia. f_equal; [f_equal; lia|lia].
Qed.

Lemma bit_changed_update V b buf buf' val : (0 <= b)%Z -> V !! bm b = Some buf -> length buf' = BSIZE ->
  (forall j, bit buf' j = if decide (j = bit_index b) then val else bit buf j) ->
  bit_changed V (<[bm b := buf']> V) b val.
Proof.
  intros Hb Hv Hl Hbit. exists buf'. split_and!; [done|done|]. intros c Hc. unfold used.
  destruct (decide (bm c = bm b)) as [E|Hne].
  - rewrite E, lookup_insert_eq, Hv, Hbit. destruct (decide (c = b)) as [->|Hcb]; [by rewrite decide_True|].
    rewrite decide_False; [done|]. intros E2. by apply Hcb, bm_same.
  - rewrite lookup_insert_ne by done. rewrite decide_False by congruence. done.
Qed.

(** Writing a block that is not of the bitmap. *)
Lemma used_other V x v c : x <> bm c -> used (<[x := v]> V) c = used V c.
Proof. intros Hne. unfold used. by rewrite lookup_insert_ne. Qed.

Lemma geometry_insert V x v : geometry V -> length v = BSIZE -> (forall b, (0 <= b < sb_size sb)%Z -> x <> bm b) ->
  geometry (<[x := v]> V).
Proof.
  intros [G1 G2 G3 G4] Hl Hx. split; try done.
  - intros b Hb. destruct (decide (b = x)) as [->|Hne]; [exists v; by rewrite lookup_insert_eq|].
    rewrite lookup_insert_ne by done. by apply G3.
  - intros b Hb. destruct (G4 b Hb) as [Hbm Hu]. split; [done|]. rewrite used_other by (by apply Hx). done.
Qed.

Lemma geometry_bit V V' x val : geometry V -> bit_changed V V' x val ->
  (val = false -> forall b, (0 <= b < sb_size sb)%Z -> x <> bm b) -> geometry V'.
Proof.
  intros [G1 G2 G3 G4] (buf & -> & Hl & Hu) Hx. split; try done.
  - intros b Hb. destruct (decide (b = bm x)) as [->|Hne]; [exists buf; by rewrite lookup_insert_eq|].
    rewrite lookup_insert_ne by done. by apply G3.
  - intros b Hb. destruct (G4 b Hb) as [Hbm Hub]. split; [done|]. rewrite Hu by lia.
    destruct (decide (bm b = x)) as [E|]; [|done]. destruct val; [done|]. exfalso. by apply (Hx eq_refl b Hb).
Qed.
End Bitmap.

(** ** The operations on a view *)

Section Specs.
Context `{HP : Profile} {S G : Type} `{!TxBlocks S G} (sb : SuperBlock).
Implicit Types (V H : gmap Z block) (O : gmap Z (G * nat)) (L : gset Z) (s : S).

(** Blocks that are not logged are as on the device. *)
Definition clean V H L : Prop := forall b, b ∉ L -> V !! b = H !! b.

Lemma in_logged b L : b ∈ {[b]} ∪ L.
Proof. set_solver. Qed.

Lemma clean_log V H L b v : clean V H L -> clean (<[b := v]> V) H ({[b]} ∪ L).
Proof. intros Hc c Hn. rewrite lookup_insert_ne by set_solver. apply Hc. set_solver. Qed.

Lemma run_lock {B} V H O L s held b g c v (kont : block -> M S B) post :
  tx_rep s (mkView V H O L) -> (b ∉ held) -> O !! b = Some (g, c) -> V !! b = Some v ->
  run (kont v) s post -> run (lock_data held b g ≫= kont) s post.
Proof. intros R Hh Ho Hv Hk. unfold lock_data. rewrite decide_False by done. by eapply run_bdata. Qed.

Lemma bitmap_block_ok V b : geometry sb V -> (0 <= b < sb_size sb)%Z -> block_to_bitmap_block sb b = Done (bm sb b).
Proof.
  intros Hg Hb. unfold block_to_bitmap_block, uadd. apply checked_ok. destruct (geo_bm _ _ Hg b Hb) as [Hbm _].
  destruct (geo_size _ _ Hg). unfold in_width. fold (bm sb b). lia.
Qed.

Lemma zero_spec V H O L s held b v k :
  tx_rep s (mkView V H O L) -> clean V H L -> V !! b = Some v -> length v = BSIZE -> (b ∉ held) ->
  room O L (Datatypes.S k) -> log_room L 1 ->
  run (zero held b) s (fun _ s' => tx_rep s' (mkView (<[b := replicate BSIZE 0%Z]> V) H O ({[b]} ∪ L))).
Proof.
  intros R Hc Hv Hl Hh Hr Hlr. unfold zero. eapply run_bread; [exact R|exact Hv|exact Hr|]. intros g s1 R1 _ Eo.
  destruct (open_lookup b g O) as [c Ho]. eapply run_lock; [exact R1|done|exact Ho|exact Hv|].
  assert (Ez : (fun _ => 0%Z) <$> v = replicate BSIZE 0%Z).
  { apply list_eq_same_length with BSIZE; [by rewrite ?length_fmap, ?length_replicate..|].
    intros i x y Hi Hx Hy. rewrite list_lookup_fmap in Hx. apply lookup_replicate in Hy as [-> _]. destruct (v !! i); by simplify_eq/=. }
  rewrite Ez. eapply run_bstore; [exact R1|exact Ho|apply length_replicate|]. intros s2 R2.
  eapply run_bwrite; [exact R2|exact Ho|exact Hlr|]. intros s3 R3.
  eapply run_brelse; [exact R3|exact Ho|left; apply in_logged|]. intros s4 R4. rewrite Eo in R4. by apply run_ret.
Qed.

Lemma free_spec V H O L s held b k :
  tx_rep s (mkView V H O L) -> clean V H L -> geometry sb V -> (0 <= b < sb_size sb)%Z -> used sb V b = true ->
  (bm sb b ∉ held) -> room O L (Datatypes.S k) -> log_room L 1 ->
  run (free sb held b) s (fun _ s' => exists V', bit_changed sb V V' b false /\ tx_rep s' (mkView V' H O ({[bm sb b]} ∪ L))).
Proof.
  intros R Hc Hg Hb Hu Hh Hr Hlr. unfold free. eapply run_lift; [by eapply bitmap_block_ok|].
  destruct (geo_bm _ _ Hg b Hb) as [Hbm _]. destruct (geo_blocks _ _ Hg _ Hbm) as (buf & Hv & Hl).
  eapply run_bread; [exact R|exact Hv|exact Hr|]. intros g s1 R1 _ Eo.
  destruct (open_lookup (bm sb b) g O) as [c Ho]. eapply run_lock; [exact R1|done|exact Ho|exact Hv|].
  destruct (bit_byte b buf Hl) as [x Hx]. unfold used in Hu. rewrite Hv in Hu. fold (bit_index b).
  eapply run_lift; [by apply index_Some|]. rewrite mask_land. unfold bit in Hu. rewrite Hx in Hu. rewrite Hu. cbn [negb].
  eapply run_bstore; [exact R1|exact Ho|by rewrite length_insert|]. intros s2 R2.
  eapply run_bwrite; [exact R2|exact Ho|exact Hlr|]. intros s3 R3.
  eapply run_brelse; [exact R3|exact Ho|left; apply in_logged|]. intros s4 R4. rewrite Eo in R4. apply run_ret.
  eexists. split; [|exact R4]. apply (bit_changed_update sb V b buf); [lia|done|by rewrite length_insert|].
  intros j. by rewrite (bit_clear buf (bit_index b) x j Hx).
Qed.

(** Freeing a block that is free panics. *)
Lemma free_panics V H O L s held b k :
  tx_rep s (mkView V H O L) -> geometry sb V -> (0 <= b < sb_size sb)%Z -> used sb V b = false ->
  (bm sb b ∉ held) -> room O L (Datatypes.S k) -> free sb held b s = Panic.
Proof.
  intros R Hg Hb Hu Hh [Hr Hr']. unfold free. rewrite (bitmap_block_ok V b Hg Hb), bind_lift.
  destruct (geo_bm _ _ Hg b Hb) as [Hbm _]. destruct (geo_blocks _ _ Hg _ Hbm) as (buf & Hv & Hl).
  destruct (bread_ok s _ (bm sb b) buf R Hv) as (g & s1 & E & R1 & _); [right; unfold busy; cbn [v_open v_log]; lia| |].
  { intros g c Ho. destruct (Hr' _ g c Ho). lia. }
  mstep E. unfold lock_data. rewrite decide_False by done. destruct (open_lookup (bm sb b) g O) as [c Ho].
  destruct (bdata_ok s1 _ (bm sb b) g c R1 Ho) as (w & Hw & _ & E2). cbn [v_blocks opened] in Hw. rewrite Hv in Hw. injection Hw as <-.
  mstep E2. destruct (bit_byte b buf Hl) as [x Hx]. fold (bit_index b). rewrite (index_Some _ _ _ Hx), bind_lift, mask_land.
  unfold used in Hu. rewrite Hv in Hu. unfold bit in Hu. rewrite Hx in Hu. by rewrite Hu.
Qed.

(** The blocks the caller has locked are used, and not of the bitmap. *)
Definition held_ok V (held : list Z) : Prop :=
  forall h, h ∈ held -> used sb V h = true /\ (0 <= h)%Z /\ forall b, (0 <= b < sb_size sb)%Z -> h <> bm sb b.

(** What [alloc] does to the view when it finds [x]. *)
Definition allocated V V' (x : Z) : Prop :=
  exists V1, bit_changed sb V V1 x true /\ V' = <[x := replicate BSIZE 0%Z]> V1.

Lemma free_not_bm V x : geometry sb V -> used sb V x = false -> forall b, (0 <= b < sb_size sb)%Z -> x <> bm sb b.
Proof. intros Hg Hu b Hb ->. destruct (geo_bm _ _ Hg b Hb). congruence. Qed.

Lemma allocated_geometry V V' x : geometry sb V -> used sb V x = false -> allocated V V' x -> geometry sb V'.
Proof.
  intros Hg Hu (V1 & Hb & ->). apply geometry_insert.
  - by eapply geometry_bit.
  - apply length_replicate.
  - by eapply free_not_bm.
Qed.

Lemma allocated_used V V' x c : geometry sb V -> used sb V x = false -> allocated V V' x -> (0 <= c < sb_size sb)%Z ->
  used sb V' c = if decide (c = x) then true else used sb V c.
Proof.
  intros Hg Hu (V1 & (buf & -> & Hl & Hbit) & ->) Hc. rewrite used_other by (by apply (free_not_bm V)). apply Hbit. lia.
Qed.

Lemma allocated_lookup V V' x y : allocated V V' x -> y <> x -> y <> bm sb x -> V' !! y = V !! y.
Proof. intros (V1 & (buf & -> & _) & ->) H1 H2. by rewrite !lookup_insert_ne by done. Qed.

Lemma allocated_zero V V' x : allocated V V' x -> V' !! x = Some (replicate BSIZE 0%Z).
Proof. intros (V1 & _ & ->). apply lookup_insert_eq. Qed.

Lemma allocated_clean V V' H L x : allocated V V' x -> clean V H L -> clean V' H ({[x]} ∪ ({[bm sb x]} ∪ L)).
Proof. intros (V1 & (buf & -> & _) & ->) Hc. by apply clean_log, clean_log. Qed.

(** Blocks of one bitmap block. *)
Lemma bm_base b bi : (0 <= b)%Z -> (b mod Z.of_nat BPB = 0)%Z -> bi < BPB ->
  bm sb (b + Z.of_nat bi) = bm sb b /\ bit_index (b + Z.of_nat bi) = bi.
Proof.
  intros Hb Hm Hbi. unfold bm, bit_index. pose proof BPB_pos.
  pose proof (Z.div_mod b (Z.of_nat BPB) ltac:(lia)) as E. rewrite Hm, Z.add_0_r, Z.mul_comm in E.
  set (q := (b / Z.of_nat BPB)%Z) in *. split.
  - rewrite E, Z.div_add_l, Z.div_small by lia. lia.
  - rewrite E, Z.add_comm, Z.mod_add, Z.mod_small by lia. lia.
Qed.

(** Allocation returns the first free block, zeroed and marked, or tells that there is none. *)
Lemma alloc_loop_spec V H O L s held k b :
  tx_rep s (mkView V H O L) -> clean V H L -> geometry sb V -> held_ok V held -> room O L 3 -> log_room L 2 ->
  (0 <= b)%Z -> (b mod Z.of_nat BPB = 0)%Z -> (forall c, (0 <= c < Z.min b (sb_size sb))%Z -> used sb V c = true) ->
  (b + Z.of_nat k * Z.of_nat BPB < sb_size sb + Z.of_nat BPB)%Z -> (sb_size sb <= b + Z.of_nat k * Z.of_nat BPB)%Z ->
  run (alloc_loop sb held k b) s (fun r s' =>
    match r with
    | Some x => (0 <= x < sb_size sb)%Z /\ used sb V x = false /\ (forall c, (0 <= c < x)%Z -> used sb V c = true) /\
        exists V', allocated V V' x /\ tx_rep s' (mkView V' H O ({[x]} ∪ ({[bm sb x]} ∪ L)))
    | None => (forall c, (0 <= c < sb_size sb)%Z -> used sb V c = true) /\ tx_rep s' (mkView V H O L)
    end).
Proof.
  intros R Hc Hg Hh Hr Hlr. revert s b R. induction k as [|k IH]; intros s b R Hb Hm Hall H1 H2.
  { apply run_ret. split; [|done]. intros c Hcc. apply Hall. lia. }
  pose proof BPB_pos as HB. cbn [alloc_loop]. assert (Hbs : (0 <= b < sb_size sb)%Z) by lia.
  eapply run_lift; [by eapply bitmap_block_ok|].
  destruct (geo_bm _ _ Hg b Hbs) as [Hbm Hbu]. destruct (geo_blocks _ _ Hg _ Hbm) as (buf & Hv & Hl).
  eapply run_bread; [exact R|exact Hv|exact Hr|]. intros g s1 R1 Hr1 Eo.
  assert (Hnh : bm sb b ∉ held) by (intros Hin; destruct (Hh _ Hin) as (_ & _ & Hx); by apply (Hx b)).
  destruct (open_lookup (bm sb b) g O) as [c Ho]. eapply run_lock; [exact R1|done|exact Ho|exact Hv|].
  eapply run_lift.
  { apply find_clear_spec. intros j Hj. apply lookup_lt_is_Some_2. rewrite Hl. apply Nat.Div0.div_lt_upper_bound. unfold BPB in Hj. lia. }
  assert (Hub : forall bi, bi < BPB -> used sb V (b + Z.of_nat bi) = bit buf bi).
  { intros bi Hbi. destruct (bm_base b bi Hb Hm Hbi) as [E1 E2]. unfold used. by rewrite E1, E2, Hv. }
  destruct (find _ _) as [bi|] eqn:Ef.
  - apply find_some in Ef as Hf. destruct Hf as [Hin%in_seq Hclr%negb_true_iff].
    assert (Hbi : bi < BPB /\ (b + Z.of_nat bi < sb_size sb)%Z) by lia. destruct Hbi as [Hbi Hx]. set (x := (b + Z.of_nat bi)%Z) in *.
    destruct (bm_base b bi Hb Hm Hbi) as [Ebm Ebi]. fold x in Ebm, Ebi. rewrite <- (Hub bi Hbi) in Hclr. fold x in Hclr.
    assert (Hxbm : x <> bm sb x) by (rewrite Ebm; by apply (free_not_bm V)).
    destruct (bit_byte x buf Hl) as [w Hw]. rewrite Ebi in Hw. eapply run_lift; [by apply index_Some|].
    eapply run_bstore; [exact R1|exact Ho|by rewrite length_insert|]. intros s2 R2.
    eapply run_bwrite; [exact R2|exact Ho|by eapply log_room_le; [|exact Hlr]; lia|]. intros s3 R3.
    assert (Hbit : bit_changed sb V (<[bm sb b := <[bi / 8 := Z.lor w (mask bi)]> buf]> V) x true).
    { rewrite <- Ebm. apply (bit_changed_update sb V x buf); [unfold x; lia|by rewrite Ebm|by rewrite length_insert|].
      intros j. rewrite Ebi. by apply bit_set. }
    set (V1 := <[bm sb b := _]> V) in *. destruct (geo_blocks _ _ Hg x ltac:(unfold x; lia)) as (xv & Hxv & Hxl).
    eapply run_bind.
    { eapply (zero_spec V1 H _ _ s3 held x xv); [exact R3|by apply clean_log| |done| | |].
      - unfold V1. by rewrite lookup_insert_ne by congruence.
      - intros Hin'. destruct (Hh x Hin') as [Hux _]. congruence.
      - by apply room_log.
      - by apply log_room_add. }
    intros [] s4 R4. eapply run_brelse; [exact R4|exact Ho|left; apply elem_of_union_r, in_logged|]. intros s5 R5. rewrite Eo in R5. apply run_ret.
    split; [unfold x; lia|]. split; [done|]. split.
    + intros c0 Hc0. destruct (decide (c0 < b)%Z); [apply Hall; lia|].
      replace c0 with (b + Z.of_nat (Z.to_nat (c0 - b)))%Z by lia. unfold x in Hc0. rewrite Hub by lia.
      pose proof (find_seq_first _ _ _ _ Ef (Z.to_nat (c0 - b)) ltac:(lia)) as Hj. by apply negb_false_iff in Hj.
    + exists (<[x := replicate BSIZE 0%Z]> V1). split; [by exists V1|]. by rewrite Ebm.
  - pose proof (find_seq_none _ _ _ Ef) as Hnone.
    eapply run_brelse; [exact R1|exact Ho| |].
    { destruct (decide (bm sb b ∈ L)); [by left|right]. by apply Hc. }
    intros s2 R2. rewrite Eo in R2. apply IH; [exact R2|lia| | |lia|lia].
    + replace (b + Z.of_nat BPB)%Z with (b + 1 * Z.of_nat BPB)%Z by lia. by rewrite Z.mod_add by lia.
    + intros c0 Hc0. destruct (decide (c0 < b)%Z); [apply Hall; lia|].
      replace c0 with (b + Z.of_nat (Z.to_nat (c0 - b)))%Z by lia. rewrite Hub by lia.
      specialize (Hnone (Z.to_nat (c0 - b)) ltac:(lia)). by apply negb_false_iff in Hnone.
Qed.

Lemma alloc_spec V H O L s held :
  tx_rep s (mkView V H O L) -> clean V H L -> geometry sb V -> held_ok V held -> room O L 3 -> log_room L 2 ->
  run (alloc sb held) s (fun r s' =>
    match r with
    | Some x => (0 <= x < sb_size sb)%Z /\ used sb V x = false /\ (forall c, (0 <= c < x)%Z -> used sb V c = true) /\
        exists V', allocated V V' x /\ tx_rep s' (mkView V' H O ({[x]} ∪ ({[bm sb x]} ∪ L)))
    | None => (forall c, (0 <= c < sb_size sb)%Z -> used sb V c = true) /\ tx_rep s' (mkView V H O L)
    end).
Proof.
  intros R Hc Hg Hh Hr Hlr. unfold alloc. destruct (geo_size _ _ Hg) as [Hs _].
  assert (Hk : (sb_size sb <= Z.of_nat (bitmap_blocks sb) * Z.of_nat BPB < sb_size sb + Z.of_nat BPB)%Z).
  { unfold bitmap_blocks. pose proof BPB_pos. set (n := Z.to_nat (sb_size sb) + BPB - 1).
    pose proof (Nat.div_mod_eq n BPB). pose proof (Nat.mod_upper_bound n BPB ltac:(lia)). lia. }
  apply alloc_loop_spec; try done; try lia.
Qed.
End Specs.
