(* ===== verification/Inode.v ===== *)
(** * Inodes of the xv6 file system
    (domains/usr/xv6/kernel/fs/src/icache/inode.rs, fs.rs; interface/src/vfs/{file,directory}.rs)

    The inode on disk and in memory, the map from file blocks to disk blocks, reading,
    writing and truncating a file, and directories as files of entries.  The data of a
    locked inode ([INodeDataGuard]) is passed along.  The code runs over the interface of
    Tx.v and the block allocator of Block.v.

    The [byteorder] functions on 16 bits are an interface, [ByteOrder16]. *)

From Stdlib Require Import ZArith Lia.
From stdpp Require Import base gmap list.
From stdpp Require Import options.
From S2P Require Import Prelude BCache Log Utf8 Tx Block.

Set Default Proof Using "Type".

(** ** Data *)

Inductive INodeFileType : Type := Unitialized | Directory | File | Device.

Inductive DirError := FileAlreadyExists.

Global Instance INodeFileType_eq_dec : EqDecision INodeFileType.
Proof. solve_decision. Defined.

Definition type_to_u16 (t : INodeFileType) : Z :=
  match t with Unitialized => 0 | Directory => 1 | File => 2 | Device => 3 end.
(** [FromPrimitive::from_u16] *)
Definition type_from_u16 (x : Z) : option INodeFileType :=
  if (x =? 0)%Z then Some Unitialized else if (x =? 1)%Z then Some Directory
  else if (x =? 2)%Z then Some File else if (x =? 3)%Z then Some Device else None.

Definition NDIRECT : nat := 12.
Definition NINDIRECT : nat := BSIZE / 4.
Definition DINODE_SIZE : nat := 64.
Definition IPB : nat := BSIZE / DINODE_SIZE.
Definition DIRSIZ : nat := 14.
Definition SIZE_OF_DIRENT : nat := 16.

Record INodeData := mkINode {
  file_type : INodeFileType; major : Z; minor : Z; nlink : Z; isize : Z; addresses : list Z }.

Definition INodeData_new : INodeData := mkINode Unitialized 0 0 0 0 (replicate (NDIRECT + 1) 0%Z).

Definition with_address (i : nat) (a : Z) (ino : INodeData) : INodeData :=
  mkINode (file_type ino) (major ino) (minor ino) (nlink ino) (isize ino) (<[i := a]> (addresses ino)).
Definition with_size (sz : Z) (ino : INodeData) : INodeData :=
  mkINode (file_type ino) (major ino) (minor ino) (nlink ino) sz (addresses ino).

(** Sixteen-bit words: two bytes that read back. *)
Class ByteOrder16 := {
  read_u16 : list Z -> Z; write_u16 : Z -> list Z;
  read_i16 : list Z -> Z; write_i16 : Z -> list Z;
  write_u16_length x : length (write_u16 x) = 2;
  write_i16_length x : length (write_i16 x) = 2;
  read_write_u16 x : in_width 16 x -> read_u16 (write_u16 x) = x;
  read_write_i16 x : (- 2 ^ 15 <= x < 2 ^ 15)%Z -> read_i16 (write_i16 x) = x }.

(** [u32::from_ne_bytes], on a little-endian machine. *)
Definition u32_from_ne_bytes (l : list Z) : Z := foldr (fun b acc => b + 256 * acc)%Z 0%Z l.

(** [&bytes[a..b]], and writing to it. *)
Definition subslice (bytes : list Z) (a b : nat) : outcome (list Z) :=
  if (a <=? b) && (b <=? length bytes) then Done (take (b - a) (drop a bytes)) else Panic.
Definition put_at (bytes : list Z) (a : nat) (w : list Z) : outcome (list Z) :=
  if a + length w <=? length bytes then Done (take a bytes ++ w ++ drop (a + length w) bytes) else Panic.

Section Codec.
Context `{ByteOrder} `{ByteOrder16}.

Fixpoint read_addresses (bytes : list Z) (k offset : nat) : outcome (list Z) :=
  match k with
  | O => Done []
  | S k => w ← subslice bytes offset (offset + 4); ws ← read_addresses bytes k (offset + 4); Done (read_u32 w :: ws)
  end.

Definition copy_from_bytes (bytes : list Z) : outcome INodeData :=
  t ← subslice bytes 0 2;
  ft ← expect (type_from_u16 (read_u16 t));
  mj ← subslice bytes 2 4;
  mn ← subslice bytes 4 6;
  nl ← subslice bytes 6 8;
  sz ← subslice bytes 8 12;
  ad ← read_addresses bytes (NDIRECT + 1) 12;
  Done (mkINode ft (read_i16 mj) (read_i16 mn) (read_i16 nl) (read_u32 sz) ad).

Fixpoint write_addresses (bytes : list Z) (offset : nat) (ads : list Z) : outcome (list Z) :=
  match ads with
  | [] => Done bytes
  | a :: ads => bytes ← put_at bytes offset (write_u32 a); write_addresses bytes (offset + 4) ads
  end.

Definition to_bytes (ino : INodeData) (bytes : list Z) : outcome (list Z) :=
  bytes ← put_at bytes 0 (write_u16 (type_to_u16 (file_type ino)));
  bytes ← put_at bytes 2 (write_i16 (major ino));
  bytes ← put_at bytes 4 (write_i16 (minor ino));
  bytes ← put_at bytes 6 (write_i16 (nlink ino));
  bytes ← put_at bytes 8 (write_u32 (isize ino));
  write_addresses bytes 12 (addresses ino).
End Codec.

(** ** Operations on a locked inode *)

Section Code.
Context `{HP : Profile} `{ByteOrder} `{ByteOrder16} {S G : Type} `{!TxBlocks S G} (sb : SuperBlock).
Abbreviation F := (M S).

Definition block_num_for_node (inum : Z) : outcome Z := uadd 32 (inum / Z.of_nat IPB) (inodestart sb).

(** Replace the slice of a block that holds the inode. *)
Definition dinode_offset (inum : Z) : nat := Z.to_nat inum mod IPB * DINODE_SIZE.

Definition update (inum : Z) (ino : INodeData) : F unit :=
  b ← lift (block_num_for_node inum);
  bguard ← bread b;
  buffer ← lock_data [] b bguard;
  old ← lift (subslice buffer (dinode_offset inum) (dinode_offset inum + DINODE_SIZE));
  new ← lift (to_bytes ino old);
  buffer ← lift (put_at buffer (dinode_offset inum) new);
  _ ← bstore bguard buffer;
  _ ← bwrite bguard;
  _ ← brelse bguard;
  mret tt.

(** [INode::lock] when the inode is not valid: load it. *)
Definition load (inum : Z) : F INodeData :=
  b ← lift (block_num_for_node inum);
  bguard ← bread b;
  buffer ← lock_data [] b bguard;
  bytes ← lift (subslice buffer (dinode_offset inum) (dinode_offset inum + DINODE_SIZE));
  ino ← lift (copy_from_bytes bytes);
  _ ← assert (negb (bool_decide (file_type ino = Unitialized)));
  _ ← brelse bguard;
  mret ino.

(** A word of an indirect block, and a new block where it is zero. *)
Definition table_word (buffer : block) (i : nat) : outcome Z :=
  chunk ← subslice buffer (i * 4) ((i + 1) * 4); Done (u32_from_ne_bytes chunk).

Definition alloc_block (held : list Z) : F Z := r ← alloc sb held; lift (expect r).

Definition block_map (ino : INodeData) (block_number : Z) : F (Z * INodeData) :=
  let n := Z.to_nat block_number in
  if n <? NDIRECT then
    address ← lift (index (addresses ino) n);
    if (address =? 0)%Z then
      address ← alloc_block [];
      mret (address, with_address n address ino)
    else mret (address, ino)
  else
    let n := n - NDIRECT in
    _ ← assert (n <? NINDIRECT * NINDIRECT);
    address ← lift (index (addresses ino) NDIRECT);
    r ← (if (address =? 0)%Z then
           address ← alloc_block [];
           mret (address, with_address NDIRECT address ino)
         else mret (address, ino));
    let '(level1, ino) := r in
    bguard1 ← bread level1;
    buffer ← lock_data [] level1 bguard1;
    let i := n / NINDIRECT in
    address ← lift (table_word buffer i);
    level2 ← (if (address =? 0)%Z then
                address ← alloc_block [level1];
                _ ← bwrite bguard1;
                mret address
              else mret address);
    bguard2 ← bread level2;
    buffer ← lock_data [] level2 bguard2;
    address ← lift (table_word buffer (n - NINDIRECT * i));
    address ← (if (address =? 0)%Z then
                 address ← alloc_block [level2];
                 _ ← bwrite bguard2;
                 mret address
               else mret address);
    _ ← brelse bguard2;
    _ ← brelse bguard1;
    mret (address, ino).

(** The loop of [truncate] over the direct blocks. *)
Fixpoint free_direct (k i : nat) (ino : INodeData) : F INodeData :=
  match k with
  | O => mret ino
  | Datatypes.S k =>
      a ← lift (index (addresses ino) i);
      if (a =? 0)%Z then free_direct k (Datatypes.S i) ino
      else _ ← free sb [] a; free_direct k (Datatypes.S i) (with_address i 0 ino)
  end.

(** Its loop over the words of the level 1 table. *)
Fixpoint free_words (held : list Z) (buffer : block) (k i : nat) : F unit :=
  match k with
  | O => mret tt
  | Datatypes.S k =>
      b ← lift (table_word buffer i);
      if (b =? 0)%Z then free_words held buffer k (Datatypes.S i)
      else _ ← free sb held b; free_words held buffer k (Datatypes.S i)
  end.

Definition truncate (inum : Z) (ino : INodeData) : F INodeData :=
  ino ← free_direct NDIRECT 0 ino;
  a ← lift (index (addresses ino) NDIRECT);
  ino ← (if (a =? 0)%Z then mret ino
         else
           bguard ← bread a;
           buffer ← lock_data [] a bguard;
           _ ← free_words [a] buffer NINDIRECT 0;
           _ ← brelse bguard;
           mret (with_address NDIRECT 0 ino));
  let ino := with_size 0 ino in
  _ ← update inum ino;
  mret ino.

(** [read]: the loop, with the bytes of the user buffer. *)
Fixpoint read_loop (fuel : nat) (ino : INodeData) (user_buffer : list Z) (offset : Z) (total : nat) (bytes_to_read : Z)
    : F (list Z * INodeData) :=
  if (Z.of_nat total <? bytes_to_read)%Z then
    match fuel with
    | O => hang
    | Datatypes.S fuel =>
        r ← block_map ino (wrap 32 (offset / Z.of_nat BSIZE));
        let '(b, ino) := r in
        bguard ← bread b;
        buffer ← lock_data [] b bguard;
        let start := Z.to_nat (offset mod Z.of_nat BSIZE) in
        let bytes_read := Z.to_nat (Z.min (bytes_to_read - Z.of_nat total) (Z.of_nat (BSIZE - start))) in
        chunk ← lift (subslice buffer start (start + bytes_read));
        user_buffer ← lift (put_at user_buffer total chunk);
        _ ← brelse bguard;
        offset ← lift (uadd 64 offset (Z.of_nat bytes_read));
        read_loop fuel ino user_buffer offset (total + bytes_read) bytes_to_read
    end
  else mret (user_buffer, ino).

(** A round copies a byte at least, and copying past the user buffer panics. *)
Definition read (ino : INodeData) (user_buffer : list Z) (offset : Z) : F (Z * list Z * INodeData) :=
  e ← lift (uadd 64 offset (Z.of_nat (length user_buffer)));
  bytes_to_read ← (if (isize ino <? e)%Z then lift (usub 64 (isize ino) offset) else mret (Z.of_nat (length user_buffer)));
  r ← read_loop (Datatypes.S (length user_buffer)) ino user_buffer offset 0 bytes_to_read;
  mret (bytes_to_read, fst r, snd r).

Fixpoint write_loop (fuel : nat) (ino : INodeData) (user_buffer : list Z) (offset : Z) (total : nat) : F (Z * INodeData) :=
  if total <? length user_buffer then
    match fuel with
    | O => hang
    | Datatypes.S fuel =>
        r ← block_map ino (wrap 32 (offset / Z.of_nat BSIZE));
        let '(b, ino) := r in
        bguard ← bread b;
        buffer ← lock_data [] b bguard;
        let start := Z.to_nat (offset mod Z.of_nat BSIZE) in
        let bytes_written := Nat.min (length user_buffer - total) (BSIZE - start) in
        chunk ← lift (subslice user_buffer total (total + bytes_written));
        buffer ← lift (put_at buffer start chunk);
        _ ← bstore bguard buffer;
        _ ← bwrite bguard;
        _ ← brelse bguard;
        offset ← lift (uadd 64 offset (Z.of_nat bytes_written));
        write_loop fuel ino user_buffer offset (total + bytes_written)
    end
  else mret (offset, ino).

Definition write (inum : Z) (ino : INodeData) (user_buffer : list Z) (offset : Z) : F (nat * INodeData) :=
  r ← write_loop (length user_buffer) ino user_buffer offset 0;
  let '(offset, ino) := r in
  if 0 <? length user_buffer then
    let ino := with_size (Z.max (wrap 32 offset) (isize ino)) ino in
    _ ← update inum ino;
    mret (length user_buffer, ino)
  else mret (length user_buffer, ino).

(** ** Directories *)

(** [DirectoryEntryRef::from_bytes] and [as_bytes] *)
Definition dirent_from_bytes (arr : list Z) : outcome (Z * list Z) :=
  i ← subslice arr 0 2; nm ← subslice arr 2 (2 + DIRSIZ); Done (read_u16 i, nm).
Definition dirent_as_bytes (inum : Z) (name : list Z) : outcome (list Z) :=
  if length name =? DIRSIZ then Done (write_u16 inum ++ name) else Panic.

(** [utils::cstr::to_string]: up to the first zero. *)
Fixpoint till_null (l : list Z) : list Z :=
  match l with [] => [] | c :: l => if (c =? 0)%Z then [] else c :: till_null l end.
Definition cstr_to_string (l : list Z) : option (list Z) :=
  let sl := till_null l in if utf8 sl then Some sl else None.

(** The entry at an offset of the directory. *)
Definition read_dirent (ino : INodeData) (offset : Z) : F (Z * list Z * INodeData) :=
  r ← read ino (replicate SIZE_OF_DIRENT 0%Z) offset;
  let '(_, buffer, ino) := r in
  e ← lift (dirent_from_bytes buffer);
  mret (fst e, snd e, ino).

(** [(0..size).step_by(SIZE_OF_DIRENT)] *)
Definition dirents (ino : INodeData) : nat := (Z.to_nat (isize ino) + SIZE_OF_DIRENT - 1) / SIZE_OF_DIRENT.

(** [dirlookup]: the offset and the inode number of the entry with this name. *)
Fixpoint dirlookup_loop (k : nat) (ino : INodeData) (offset : Z) (name : list Z) : F (option (Z * Z) * INodeData) :=
  match k with
  | O => mret (None, ino)
  | Datatypes.S k =>
      r ← read_dirent ino offset;
      let '(inum, nm, ino) := r in
      if (inum =? 0)%Z then dirlookup_loop k ino (offset + Z.of_nat SIZE_OF_DIRENT) name
      else
        dirent_name ← lift (expect (cstr_to_string nm));
        if decide (dirent_name = name) then mret (Some (offset, inum), ino)
        else dirlookup_loop k ino (offset + Z.of_nat SIZE_OF_DIRENT) name
  end.

Definition dirlookup (ino : INodeData) (name : list Z) : F (option (Z * Z) * INodeData) :=
  _ ← assert (bool_decide (file_type ino = Directory));
  dirlookup_loop (dirents ino) ino 0 name.

(** [is_dirempty]: the first two entries are skipped. *)
Fixpoint dirempty_loop (k : nat) (ino : INodeData) (offset : Z) : F (bool * INodeData) :=
  match k with
  | O => mret (true, ino)
  | Datatypes.S k =>
      r ← read_dirent ino offset;
      let '(inum, _, ino) := r in
      if (inum =? 0)%Z then dirempty_loop k ino (offset + Z.of_nat SIZE_OF_DIRENT) else mret (false, ino)
  end.

Definition is_dirempty (ino : INodeData) : F (bool * INodeData) :=
  _ ← assert (bool_decide (file_type ino = Directory));
  dirempty_loop (dirents ino - 2) ino (2 * Z.of_nat SIZE_OF_DIRENT).

(** The place that [dirlink] writes to: an empty entry, or the first one. *)
Fixpoint empty_offset (k : nat) (ino : INodeData) (offset : Z) : F (Z * INodeData) :=
  match k with
  | O => mret (0%Z, ino)
  | Datatypes.S k =>
      r ← read_dirent ino offset;
      let '(inum, _, ino) := r in
      if (inum =? 0)%Z then mret (offset, ino) else empty_offset k ino (offset + Z.of_nat SIZE_OF_DIRENT)
  end.

(** [dirlink] behind its check. *)
Definition dirlink_entry (self : Z) (ino : INodeData) (name : list Z) (inum : Z) : F INodeData :=
  r ← empty_offset (dirents ino) ino 0;
  let '(off, ino) := r in
  buffer ← lift (dirent_as_bytes inum (name ++ replicate (DIRSIZ - length name) 0%Z));
  w ← write self ino buffer off;
  mret (snd w).

(** [dirlink]: the check is a [dirlookup], which also asks the inode cache for the inode it
    found; [cached] says whether the cache has room for it, and any failure counts as a name
    that is not there.  The inode that was found is linked, so that giving it back leaves the
    disk alone. *)
Definition dirlink (cached : Z -> bool) (self : Z) (ino : INodeData) (name : list Z) (inum : Z) : F (result DirError unit * INodeData) :=
  r ← dirlookup ino name;
  let '(found, ino) := r in
  if match found with Some (_, n) => cached n | None => false end then mret (Err FileAlreadyExists, ino)
  else ino ← dirlink_entry self ino name inum; mret (Ok tt, ino).
End Code.

(** ** Slices *)

Lemma put_at_app P R w : length w <= length R -> put_at (P ++ R) (length P) w = Done ((P ++ w) ++ drop (length w) R).
Proof.
  intros Hw. unfold put_at. rewrite length_app, (proj2 (Nat.leb_le _ _)) by lia.
  by rewrite take_app_length, drop_app_add, app_assoc.
Qed.

Lemma subslice_app P w R a b : a = length P -> b = a + length w -> subslice (P ++ w ++ R) a b = Done w.
Proof.
  intros -> ->. unfold subslice. rewrite !length_app, (proj2 (Nat.leb_le _ _)), (proj2 (Nat.leb_le _ _)) by lia. cbn [andb].
  rewrite drop_app_length, take_app_length' by lia. done.
Qed.

Lemma subslice_front w R b : b = length w -> subslice (w ++ R) 0 b = Done w.
Proof. intros ->. by apply (subslice_app [] w R). Qed.

(** ** The inode on disk *)

Section CodecProofs.
Context `{ByteOrder} `{ByteOrder16}.

Definition address_bytes (ads : list Z) : list Z := concat (write_u32 <$> ads).

Definition inode_bytes (ino : INodeData) : list Z :=
  write_u16 (type_to_u16 (file_type ino)) ++ write_i16 (major ino) ++ write_i16 (minor ino) ++ write_i16 (nlink ino) ++
  write_u32 (isize ino) ++ address_bytes (addresses ino).

Record inode_wf (ino : INodeData) : Prop := mkIwf {
  iw_major : (- 2 ^ 15 <= major ino < 2 ^ 15)%Z;
  iw_minor : (- 2 ^ 15 <= minor ino < 2 ^ 15)%Z;
  iw_nlink : (- 2 ^ 15 <= nlink ino < 2 ^ 15)%Z;
  iw_size : in_width 32 (isize ino);
  iw_len : length (addresses ino) = NDIRECT + 1;
  iw_addr : Forall (in_width 32) (addresses ino) }.

Lemma address_bytes_length ads : length (address_bytes ads) = 4 * length ads.
Proof.
  unfold address_bytes. induction ads as [|a ads IH]; [done|]. cbn [fmap list_fmap concat length].
  rewrite length_app, write_u32_length. lia.
Qed.

Lemma inode_bytes_length ino : inode_wf ino -> length (inode_bytes ino) = DINODE_SIZE.
Proof.
  intros Hw. unfold inode_bytes. rewrite !length_app, write_u16_length, !write_i16_length, write_u32_length, address_bytes_length.
  by rewrite (iw_len _ Hw).
Qed.

Lemma write_addresses_app ads P R a : a = length P -> 4 * length ads <= length R ->
  write_addresses (P ++ R) a ads = Done ((P ++ address_bytes ads) ++ drop (4 * length ads) R).
Proof.
  intros ->. revert P R. induction ads as [|a ads IH]; intros P R Hl; cbn [write_addresses].
  - by rewrite drop_0, app_nil_r.
  - cbn [length] in Hl. rewrite put_at_app by (rewrite write_u32_length; lia). cbn [mbind outcome_bind].
    rewrite write_u32_length. replace (length P + 4) with (length (P ++ write_u32 a)) by (rewrite length_app, write_u32_length; done).
    rewrite IH by (rewrite length_drop; lia). unfold address_bytes. cbn [fmap list_fmap concat length].
    rewrite drop_drop, <- !app_assoc. by replace (4 * S (length ads)) with (4 + 4 * length ads) by lia.
Qed.

Lemma put_at_next P R w a : a = length P -> length w <= length R -> put_at (P ++ R) a w = Done ((P ++ w) ++ drop (length w) R).
Proof. intros ->. apply put_at_app. Qed.

Lemma to_bytes_ok ino bytes : inode_wf ino -> length bytes = DINODE_SIZE -> to_bytes ino bytes = Done (inode_bytes ino).
Proof.
  intros Hw Hl. unfold to_bytes, inode_bytes. unfold DINODE_SIZE in Hl. set (ty := type_to_u16 (file_type ino)).
  rewrite (put_at_next [] bytes) by (done || (rewrite write_u16_length; lia)). cbn [mbind outcome_bind].
  rewrite write_u16_length. rewrite app_nil_l.
  rewrite put_at_next by (rewrite ?write_u16_length, ?write_i16_length, ?length_drop; lia). cbn [mbind outcome_bind].
  rewrite write_i16_length, drop_drop.
  rewrite put_at_next by (rewrite ?length_app, ?write_u16_length, ?write_i16_length, ?length_drop; lia). cbn [mbind outcome_bind].
  rewrite write_i16_length, drop_drop.
  rewrite put_at_next by (rewrite ?length_app, ?write_u16_length, ?write_i16_length, ?length_drop; lia). cbn [mbind outcome_bind].
  rewrite write_i16_length, drop_drop.
  rewrite put_at_next by (rewrite ?length_app, ?write_u16_length, ?write_i16_length, ?write_u32_length, ?length_drop; lia).
  cbn [mbind outcome_bind]. rewrite write_u32_length, drop_drop. cbn [Nat.add].
  rewrite write_addresses_app;
    [|by rewrite !length_app, write_u16_length, !write_i16_length, write_u32_length|rewrite length_drop, (iw_len _ Hw); unfold NDIRECT; lia].
  rewrite drop_drop, drop_ge by (rewrite (iw_len _ Hw); unfold NDIRECT; lia). by rewrite app_nil_r, <- !app_assoc.
Qed.

Lemma read_addresses_app ads P R a : a = length P -> Forall (in_width 32) ads ->
  read_addresses (P ++ address_bytes ads ++ R) (length ads) a = Done ads.
Proof.
  intros -> Hw. revert P. induction Hw as [|a ads Ha Hw IH]; intros P; [done|]. cbn [length read_addresses].
  unfold address_bytes. cbn [fmap list_fmap concat]. rewrite <- app_assoc.
  rewrite subslice_app by (rewrite ?write_u32_length; done). cbn [mbind outcome_bind]. fold (address_bytes ads).
  replace (length P + 4) with (length (P ++ write_u32 a)) by (rewrite length_app, write_u32_length; done).
  rewrite (app_assoc P). rewrite IH. cbn [mbind outcome_bind]. by rewrite read_write_u32.
Qed.

Lemma type_from_to t : type_from_u16 (type_to_u16 t) = Some t.
Proof. by destruct t. Qed.
Lemma type_width t : in_width 16 (type_to_u16 t).
Proof. unfold in_width. destruct t; cbn; lia. Qed.

Lemma copy_from_bytes_ok ino R : inode_wf ino -> copy_from_bytes (inode_bytes ino ++ R) = Done ino.
Proof.
  intros Hw. unfold copy_from_bytes, inode_bytes. set (T := write_u16 (type_to_u16 (file_type ino))).
  assert (HT : length T = 2) by apply write_u16_length. rewrite <- !app_assoc.
  rewrite (subslice_front T) by done. cbn [mbind outcome_bind]. 
  assert (Hty : read_u16 T = type_to_u16 (file_type ino)) by apply read_write_u16, type_width. rewrite Hty, type_from_to. cbn [expect mbind outcome_bind].
  rewrite (subslice_app T _ _ 2 4) by (rewrite ?HT, ?write_i16_length; done). cbn [mbind outcome_bind].
  rewrite (app_assoc T). rewrite (subslice_app (T ++ _) _ _ 4 6) by (rewrite ?length_app, ?HT, ?write_i16_length; done). cbn [mbind outcome_bind].
  rewrite (app_assoc (T ++ _)). rewrite (subslice_app ((T ++ _) ++ _) _ _ 6 8) by (rewrite ?length_app, ?HT, ?write_i16_length; done). cbn [mbind outcome_bind].
  rewrite (app_assoc ((T ++ _) ++ _)). rewrite (subslice_app (((T ++ _) ++ _) ++ _) _ _ 8 12) by (rewrite ?length_app, ?HT, ?write_i16_length, ?write_u32_length; done).
  cbn [mbind outcome_bind]. rewrite (app_assoc (((T ++ _) ++ _) ++ _)).
  rewrite <- (iw_len _ Hw), read_addresses_app;
    [|by rewrite !length_app, HT, !write_i16_length, write_u32_length|apply (iw_addr _ Hw)]. cbn [mbind outcome_bind].
  rewrite !read_write_i16, read_write_u32 by apply Hw. by destruct ino.
Qed.
End CodecProofs.

(** ** Files on a view

    Statements about the twelve direct blocks of a file. *)

Abbreviation B := (Z.of_nat BSIZE).

Section Files.
Context (sb : SuperBlock).
Implicit Types (V : gmap Z block) (ino : INodeData).

Definition iblock (inum : Z) : Z := inum / Z.of_nat IPB + inodestart sb.

(** The metadata of the file system is in order: its blocks are marked as used, and the
    inode table and the bitmap do not overlap. *)
Record fs_ok V : Prop := mkFsOk {
  fo_geo : geometry sb V;
  fo_zero : used sb V 0 = true;
  fo_start : (0 <= inodestart sb < 2 ^ 31)%Z;
  fo_inode : forall inum, (0 <= inum < ninodes sb)%Z ->
    (0 < iblock inum < sb_size sb)%Z /\ used sb V (iblock inum) = true /\
    forall b, (0 <= b < sb_size sb)%Z -> iblock inum <> bm sb b }.

Definition data_block V (a : Z) : Prop :=
  (0 < a < sb_size sb)%Z /\ used sb V a = true /\ (forall b, (0 <= b < sb_size sb)%Z -> a <> bm sb b) /\
  (forall inum, (0 <= inum < ninodes sb)%Z -> a <> iblock inum).

(** A file that fits its direct blocks: its blocks are its own, and all bytes below its
    size have a block. *)
Record file_ok V ino : Prop := mkFileOk {
  f_len : length (addresses ino) = NDIRECT + 1;
  f_addr : forall i a, i < NDIRECT -> addresses ino !! i = Some a -> a <> 0%Z -> data_block V a;
  f_inj : forall i j a, i < NDIRECT -> j < NDIRECT -> addresses ino !! i = Some a -> addresses ino !! j = Some a -> a <> 0%Z -> i = j;
  f_map : forall i, i < NDIRECT -> (Z.of_nat i * B < isize ino)%Z -> exists a, addresses ino !! i = Some a /\ a <> 0%Z;
  f_size : (0 <= isize ino <= Z.of_nat NDIRECT * B)%Z }.

(** The byte of a file at an offset. *)
Definition fbyte V ino (o : Z) : option Z :=
  if (Z.to_nat (o / B) <? NDIRECT) then
    a ← addresses ino !! Z.to_nat (o / B); if (a =? 0)%Z then None else blk ← V !! a; blk !! Z.to_nat (o mod B)
  else None.

(** What writing to the file leaves alone: used blocks outside the bitmap that are not its own. *)
Definition untouched V ino (b : Z) : Prop :=
  (0 < b < sb_size sb)%Z /\ used sb V b = true /\ (forall c, (0 <= c < sb_size sb)%Z -> b <> bm sb c) /\
  (forall i, i < NDIRECT -> addresses ino !! i <> Some b).
Definition others V ino V' : Prop := forall b, untouched V ino b -> V' !! b = V !! b /\ used sb V' b = true.

(** [k] blocks are free. *)
Definition frees V (k : nat) : Prop :=
  exists X : gset Z, k <= base.size X /\ forall x, x ∈ X -> (0 <= x < sb_size sb)%Z /\ used sb V x = false.

Lemma frees_le V k k' : k' <= k -> frees V k -> frees V k'.
Proof. intros Hle (X & H1 & H2). exists X. split; [lia|done]. Qed.

Lemma frees_allocated V V' x k : geometry sb V -> used sb V x = false -> allocated sb V V' x -> frees V (S k) -> frees V' k.
Proof.
  intros Hg Hu Ha (X & H1 & H2). exists (X ∖ {[x]}). split.
  - rewrite size_difference_alt. pose proof (subseteq_size (X ∩ {[x]}) {[x]} ltac:(set_solver)) as Hs.
    rewrite size_singleton in Hs. lia.
  - intros y [Hy Hne]%elem_of_difference. destruct (H2 y Hy) as [Hr Hf]. split; [done|].
    rewrite (allocated_used sb V V' x y) by done. rewrite decide_False; [done|]. intros ->. apply Hne. by apply elem_of_singleton.
Qed.

(** A free block becomes a block of the file. *)
Lemma free_is_data V x : fs_ok V -> (0 <= x < sb_size sb)%Z -> used sb V x = false ->
  (0 < x)%Z /\ (forall b, (0 <= b < sb_size sb)%Z -> x <> bm sb b) /\ (forall inum, (0 <= inum < ninodes sb)%Z -> x <> iblock inum).
Proof.
  intros Hok Hx Hu. split_and!.
  - destruct (decide (x = 0)%Z) as [->|]; [|lia]. pose proof (fo_zero _ Hok). congruence.
  - by apply (free_not_bm sb V), Hu; apply Hok.
  - intros inum Hi ->. destruct (fo_inode _ Hok inum Hi) as (_ & Hu' & _). congruence.
Qed.

Section Allocated.
Context V V' x (Hok : fs_ok V) (Hx : (0 <= x < sb_size sb)%Z) (Hu : used sb V x = false) (Ha : allocated sb V V' x).

Lemma allocated_data a : data_block V a -> data_block V' a /\ V' !! a = V !! a.
Proof using Hok Hx Hu Ha.
  intros ((H1 & H1') & H2 & H3 & H4). assert (Hne : a <> x) by congruence. split.
  - split_and!; try done. rewrite (allocated_used sb V V' x a) by (done || apply Hok || lia). by rewrite decide_False.
  - apply (allocated_lookup sb V V' x); [done|done|]. by apply H3.
Qed.

Lemma allocated_fs_ok : fs_ok V'.
Proof using Hok Hx Hu Ha.
  destruct Hok as [Hg Hz Hs Hi]. split; [by apply (allocated_geometry sb V V' x)| |done|].
  - rewrite (allocated_used sb V V' x) by (done || lia). by case_decide.
  - intros inum Hin. destruct (Hi inum Hin) as (H1 & H2 & H3). split; [done|]. split; [|done].
    rewrite (allocated_used sb V V' x) by (done || lia). by case_decide.
Qed.

Lemma allocated_new : data_block V' x.
Proof using Hok Hx Hu Ha.
  destruct (free_is_data V x Hok Hx Hu) as (H1 & H2 & H3). split_and!; [lia|lia| |done|done].
  rewrite (allocated_used sb V V' x x) by (done || apply Hok). by rewrite decide_True.
Qed.

Lemma allocated_file ino n : file_ok V ino -> n < NDIRECT -> addresses ino !! n = Some 0%Z -> file_ok V' (with_address n x ino).
Proof using Hok Hx Hu Ha.
  intros [F1 F2 F3 F4 F5] Hn Ha0. pose proof allocated_new as Hnew.
  assert (Hlk : forall i a, addresses (with_address n x ino) !! i = Some a ->
    (i = n /\ a = x) \/ (i <> n /\ addresses ino !! i = Some a)).
  { intros i a. cbn [addresses with_address]. destruct (decide (i = n)) as [->|Hne].
    - rewrite list_lookup_insert_eq by (by eapply lookup_lt_Some). intros [= <-]. by left.
    - rewrite list_lookup_insert_ne by done. by right. }
  split.
  - cbn [addresses with_address]. by rewrite length_insert.
  - intros i a Hi [[-> ->]|[_ Hia]]%Hlk Hne; [done|]. by destruct (allocated_data a (F2 i a Hi Hia Hne)).
  - intros i k a Hi Hk [[-> ->]|[H1 Hia]]%Hlk [[-> E]|[H2 Hka]]%Hlk Hne; [done| | |by eapply F3].
    + destruct (F2 k x Hk Hka Hne) as (_ & Hux & _). congruence.
    + subst a. destruct (F2 i x Hi Hia Hne) as (_ & Hux & _). congruence.
  - intros i Hi Hlt. destruct (F4 i Hi Hlt) as (a & Hia & Hne). exists a. split; [|done]. cbn [addresses with_address].
    rewrite list_lookup_insert_ne; [done|]. intros ->. congruence.
  - done.
Qed.

Lemma allocated_fbyte ino n o : file_ok V ino -> n < NDIRECT -> addresses ino !! n = Some 0%Z ->
  is_Some (fbyte V ino o) -> fbyte V' (with_address n x ino) o = fbyte V ino o.
Proof using Hok Hu Ha Hx.
  intros Hf Hn Ha0. unfold fbyte. destruct (Nat.ltb_spec (Z.to_nat (o / B)) NDIRECT) as [Ho|]; [|by intros []].
  destruct (decide (Z.to_nat (o / B) = n)) as [->|Hne].
  - rewrite Ha0. cbn [mbind option_bind Z.eqb]. by intros [].
  - cbn [addresses with_address]. rewrite list_lookup_insert_ne by done.
    destruct (addresses ino !! Z.to_nat (o / B)) as [a|] eqn:Ea; [|by intros []]. cbn [mbind option_bind].
    destruct (Z.eqb_spec a 0) as [|Hnz]; [by intros []|]. destruct (allocated_data a (f_addr _ _ Hf _ a Ho Ea Hnz)) as [_ ->]. done.
Qed.

Lemma allocated_others ino : others V ino V'.
Proof using Hok Hu Ha Hx.
  intros b (Hb & Hub & Hbm & _). assert (Hne : b <> x) by congruence. split.
  - apply (allocated_lookup sb V V' x); [done|done|]. by apply Hbm.
  - rewrite (allocated_used sb V V' x b) by (done || apply Hok || lia). by rewrite decide_False.
Qed.
End Allocated.

Section Stored.
Context V ino (n : nat) (a : Z) (v : block) (Hok : fs_ok V) (Hf : file_ok V ino) (Hn : n < NDIRECT).
Context (Ha : addresses ino !! n = Some a) (Hnz : a <> 0%Z) (Hv : length v = BSIZE).
Let V' : gmap Z block := <[a := v]> V.

Lemma stored_used b : (0 <= b < sb_size sb)%Z -> used sb V' b = used sb V b.
Proof using Hf Hn Ha Hnz Hv. intros Hb. destruct (f_addr _ _ Hf n a Hn Ha Hnz) as (_ & _ & H3 & _). by apply used_other, H3. Qed.

Lemma stored_fs_ok : fs_ok V'.
Proof using Hok Hf Hn Ha Hnz Hv.
  destruct (f_addr _ _ Hf n a Hn Ha Hnz) as (H1 & H2 & H3 & H4). destruct Hok as [Hg Hz Hs Hi]. split.
  - by apply geometry_insert.
  - rewrite stored_used by lia. done.
  - done.
  - intros inum Hin. destruct (Hi inum Hin) as (I1 & I2 & I3). rewrite stored_used by lia. done.
Qed.

Lemma stored_file : file_ok V' ino.
Proof using Hf Hn Ha Hnz Hv.
  pose proof Hf as [F1 F2 F3 F4 F5]. split; try done. intros i a' Hi Hia Hne.
  destruct (F2 i a' Hi Hia Hne) as (H1 & H2 & H3 & H4). split; [done|]. split; [by rewrite stored_used by lia|done].
Qed.

Lemma stored_fbyte o : fbyte V' ino o = if decide (Z.to_nat (o / B) = n) then v !! Z.to_nat (o mod B) else fbyte V ino o.
Proof using Hf Hn Ha Hnz Hv.
  unfold fbyte. destruct (decide (Z.to_nat (o / B) = n)) as [->|Hne].
  - rewrite (proj2 (Nat.ltb_lt _ _) Hn), Ha. cbn [mbind option_bind]. destruct (Z.eqb_spec a 0); [done|].
    unfold V'. by rewrite lookup_insert_eq.
  - destruct (Nat.ltb_spec (Z.to_nat (o / B)) NDIRECT) as [Ho|]; [|done].
    destruct (addresses ino !! Z.to_nat (o / B)) as [a'|] eqn:Ea; [|done]. cbn [mbind option_bind].
    destruct (Z.eqb_spec a' 0) as [|Hnz']; [done|]. unfold V'. rewrite lookup_insert_ne; [done|].
    intros <-. apply Hne. by apply (f_inj _ _ Hf _ _ a).
Qed.

Lemma stored_others : others V ino V'.
Proof using Hf Hn Ha Hnz Hv.
  intros b (Hb & Hu & Hbm & Hown). split; [|by rewrite stored_used by lia]. unfold V'. rewrite lookup_insert_ne; [done|].
  intros <-. by apply (Hown n Hn).
Qed.
End Stored.
End Files.

(** ** Progress of an operation on a file *)

Lemma size_union_le (X Y : gset Z) : base.size (X ∪ Y) <= base.size X + base.size Y.
Proof. rewrite size_union_alt. pose proof (subseteq_size (Y ∖ X) Y ltac:(set_solver)). lia. Qed.

Lemma room_union {G} (O : gmap Z (G * nat)) (L X : gset Z) k : room O L (base.size X + k) -> room O (X ∪ L) k.
Proof.
  intros [H1 H2]. split.
  - replace (dom O ∪ (X ∪ L)) with (X ∪ (dom O ∪ L)) by set_solver. pose proof (size_union_le X (dom O ∪ L)). lia.
  - intros b g c Hb. destruct (H2 b g c Hb). lia.
Qed.

Lemma log_room_union (L X : gset Z) k : log_room L (base.size X + k) -> log_room (X ∪ L) k.
Proof. unfold log_room. pose proof (size_union_le X L). lia. Qed.

Definition same_meta (ino ino' : INodeData) : Prop :=
  file_type ino' = file_type ino /\ major ino' = major ino /\ minor ino' = minor ino /\ nlink ino' = nlink ino /\ isize ino' = isize ino.

(** From [V], [L], [ino] to [V'], [L'], [ino'] over [m] file blocks, each with a bitmap block. *)
Record progress (sb : SuperBlock) (H : gmap Z block) (m : nat) V L ino V' L' ino' : Prop := mkProgress {
  pr_clean : clean V' H L';
  pr_fs : fs_ok sb V';
  pr_file : file_ok sb V' ino';
  pr_meta : same_meta ino ino';
  pr_others : others sb V ino V';
  pr_own : forall i a, i < NDIRECT -> addresses ino' !! i = Some a -> a <> 0%Z -> addresses ino !! i = Some a \/ used sb V a = false;
  pr_keep : forall i a, addresses ino !! i = Some a -> a <> 0%Z -> addresses ino' !! i = Some a;
  pr_tail : addresses ino' !! NDIRECT = addresses ino !! NDIRECT;
  pr_log : exists X : gset Z, L' = X ∪ L /\ base.size X <= 2 * m /\ forall b, untouched sb V ino b -> b ∉ X;
  pr_frees : forall k, frees sb V (m + k) -> frees sb V' k }.

Lemma progress_refl sb H V L ino : clean V H L -> fs_ok sb V -> file_ok sb V ino -> progress sb H 0 V L ino V L ino.
Proof.
  intros H1 H2 H3. split; try done; [by intros b (_ & ? & _)|by left|]. exists ∅. split; [set_solver|]. split; [by rewrite size_empty|]. intros b _. apply not_elem_of_empty.
Qed.

(** What the first operation leaves alone is not the file's after it. *)
Lemma progress_untouched sb H m V L ino V' L' ino' b : progress sb H m V L ino V' L' ino' -> untouched sb V ino b -> untouched sb V' ino' b.
Proof.
  intros P U. pose proof U as (Hb & Hu & Hbm & Hown). destruct (pr_others _ _ _ _ _ _ _ _ _ P b U) as [_ U1].
  split; [done|]. split; [done|]. split; [done|]. intros i Hi Hia.
  destruct (pr_own _ _ _ _ _ _ _ _ _ P i b Hi Hia ltac:(lia)) as [Hb'|Hb']; [by apply (Hown i Hi)|congruence].
Qed.

Lemma progress_trans sb H m1 m2 V L ino V1 L1 ino1 V2 L2 ino2 :
  progress sb H m1 V L ino V1 L1 ino1 -> progress sb H m2 V1 L1 ino1 V2 L2 ino2 -> progress sb H (m1 + m2) V L ino V2 L2 ino2.
Proof.
  intros P1 P2. split.
  - apply P2.
  - apply P2.
  - apply P2.
  - destruct (pr_meta _ _ _ _ _ _ _ _ _ P1) as (A1 & A2 & A3 & A4 & A5), (pr_meta _ _ _ _ _ _ _ _ _ P2) as (B1 & B2 & B3 & B4 & B5).
    unfold same_meta. split_and!; congruence.
  - intros b U. destruct (pr_others _ _ _ _ _ _ _ _ _ P1 b U) as [E1 _].
    destruct (pr_others _ _ _ _ _ _ _ _ _ P2 b) as [E2 U2]; [by eapply progress_untouched|]. by rewrite E2.
  - intros i a Hi Hia Hne. destruct (pr_own _ _ _ _ _ _ _ _ _ P2 i a Hi Hia Hne) as [H1|H1].
    + by apply (pr_own _ _ _ _ _ _ _ _ _ P1 i a).
    + right. apply not_true_is_false. intros Hu.
      destruct (f_addr _ _ _ (pr_file _ _ _ _ _ _ _ _ _ P2) i a Hi Hia Hne) as (Hr & _ & Hbm & _).
      assert (Hn : forall j, j < NDIRECT -> addresses ino !! j <> Some a).
      { intros j Hj Hja. apply (pr_keep _ _ _ _ _ _ _ _ _ P1) in Hja; [|done].
        destruct (f_addr _ _ _ (pr_file _ _ _ _ _ _ _ _ _ P1) j a Hj Hja Hne) as (_ & Hu1 & _). congruence. }
      destruct (pr_others _ _ _ _ _ _ _ _ _ P1 a (conj Hr (conj Hu (conj Hbm Hn)))). congruence.
  - intros i a Hia Hne. by apply (pr_keep _ _ _ _ _ _ _ _ _ P2), Hne; apply (pr_keep _ _ _ _ _ _ _ _ _ P1).
  - by rewrite (pr_tail _ _ _ _ _ _ _ _ _ P2), (pr_tail _ _ _ _ _ _ _ _ _ P1).
  - destruct (pr_log _ _ _ _ _ _ _ _ _ P1) as (X1 & -> & S1 & U1), (pr_log _ _ _ _ _ _ _ _ _ P2) as (X2 & -> & S2 & U2).
    exists (X2 ∪ X1). split; [by rewrite (assoc_L _)|]. pose proof (size_union_le X2 X1). split; [lia|].
    intros b U [Hx|Hx]%elem_of_union; [|by apply (U1 b U)]. by eapply U2, Hx; eapply progress_untouched.
  - intros k Hk. apply (pr_frees _ _ _ _ _ _ _ _ _ P2), (pr_frees _ _ _ _ _ _ _ _ _ P1). by rewrite Nat.add_assoc.
Qed.

Lemma progress_le sb H m m' V L ino V' L' ino' : m <= m' -> progress sb H m V L ino V' L' ino' -> progress sb H m' V L ino V' L' ino'.
Proof.
  intros Hle [P1 P2 P3 P4 P5 P6 P7 P8 (X & -> & HX & HXu) P9]. split; try done; [exists X; split_and!; [done|lia|done]|].
  intros k Hk. apply P9. by eapply frees_le; [|exact Hk]; lia.
Qed.

Lemma splice_lookup (v w : list Z) (a i : nat) : a + length w <= length v ->
  (take a v ++ w ++ drop (a + length w) v) !! i = if decide (a <= i < a + length w) then w !! (i - a) else v !! i.
Proof.
  intros Hl. destruct (decide (i < a)) as [Hi|Hi].
  { rewrite lookup_app_l by (rewrite length_take; lia). rewrite lookup_take_lt by lia. by rewrite decide_False by lia. }
  rewrite lookup_app_r by (rewrite length_take; lia). rewrite length_take, Nat.min_l by lia.
  destruct (decide (i < a + length w)) as [Hi'|Hi'].
  - rewrite lookup_app_l by lia. by rewrite decide_True by lia.
  - rewrite lookup_app_r, lookup_drop by lia. rewrite decide_False by lia. f_equal. lia.
Qed.

Lemma fbyte_at V ino n a v o : n < NDIRECT -> addresses ino !! n = Some a -> a <> 0%Z -> V !! a = Some v ->
  Z.to_nat (o / B) = n -> fbyte V ino o = v !! Z.to_nat (o mod B).
Proof.
  intros Hn Ha Hnz Hv En. unfold fbyte. rewrite En, (proj2 (Nat.ltb_lt _ _) Hn), Ha. cbn [mbind option_bind].
  destruct (Z.eqb_spec a 0); [done|]. by rewrite Hv.
Qed.

Lemma B_pos : (0 < B)%Z.
Proof. done. Qed.

(** Positions of a file: an offset in the block of [o], [d] bytes on. *)
Lemma same_block o d : (0 <= o)%Z -> (0 <= d)%Z -> (o mod B + d < B)%Z -> ((o + d) / B = o / B /\ (o + d) mod B = o mod B + d)%Z.
Proof.
  intros Ho Hd Hlt. pose proof B_pos. pose proof (Z.mod_pos_bound o B B_pos). pose proof (Z.div_mod o B ltac:(lia)) as E.
  set (q := (o / B)%Z) in *. set (r := (o mod B)%Z) in *.
  assert (Eo : (o + d = q * B + (r + d))%Z) by lia. rewrite Eo. split.
  - rewrite Z.div_add_l, Z.div_small by lia. lia.
  - rewrite Z.add_comm, Z.mod_add, Z.mod_small by lia. done.
Qed.

Lemma same_block_inv o o' : (0 <= o)%Z -> (0 <= o')%Z -> Z.to_nat (o' / B) = Z.to_nat (o / B) -> (o' - o' mod B = o - o mod B)%Z.
Proof.
  intros Ho Ho' E. pose proof B_pos. pose proof (Z.div_mod o B ltac:(lia)). pose proof (Z.div_mod o' B ltac:(lia)).
  assert (0 <= o / B)%Z by (by apply Z.div_pos). assert (0 <= o' / B)%Z by (by apply Z.div_pos).
  assert (E' : (o' / B = o / B)%Z) by lia. rewrite E' in *. lia.
Qed.

(** ** The operations on files *)

Section FileSpecs.
Context `{HP : Profile} `{HB : ByteOrder} `{HB16 : ByteOrder16} {S G : Type} `{!TxBlocks S G} (sb : SuperBlock).
Implicit Types (V H : gmap Z block) (O : gmap Z (G * nat)) (L : gset Z) (s : S) (ino : INodeData).

Lemma block_map_mapped ino n a s : Z.to_nat n < NDIRECT -> addresses ino !! Z.to_nat n = Some a -> a <> 0%Z ->
  block_map sb ino n s = Done ((a, ino), s).
Proof.
  intros Hn Ha Hnz. unfold block_map. cbv zeta. rewrite (proj2 (Nat.ltb_lt _ _) Hn), (index_Some _ _ _ Ha), bind_lift.
  by destruct (Z.eqb_spec a 0).
Qed.

(** The block of a file for a position, allocated when it has none. *)
Lemma block_map_direct V H O L s ino n :
  tx_rep s (mkView V H O L) -> clean V H L -> fs_ok sb V -> file_ok sb V ino -> Z.to_nat n < NDIRECT ->
  frees sb V 1 -> room O L 3 -> log_room L 2 ->
  run (block_map sb ino n) s (fun r s' => exists V' L', tx_rep s' (mkView V' H O L') /\
    progress sb H 1 V L ino V' L' (snd r) /\ addresses (snd r) !! Z.to_nat n = Some (fst r) /\ fst r <> 0%Z /\
    (forall o, is_Some (fbyte V ino o) -> fbyte V' (snd r) o = fbyte V ino o) /\
    (exists X : gset Z, {[fst r]} ∪ L' = X ∪ L /\ base.size X <= 2 /\ forall b, untouched sb V ino b -> b ∉ X)).
Proof.
  intros R Hc Hok Hf Hn Hfr Hr Hl. unfold block_map. cbv zeta. rewrite (proj2 (Nat.ltb_lt _ _) Hn).
  destruct (lookup_lt_is_Some_2 (addresses ino) (Z.to_nat n)) as [a Ha]; [rewrite (f_len _ _ _ Hf); lia|].
  eapply run_lift; [by apply index_Some|]. destruct (Z.eqb_spec a 0) as [->|Hnz].
  - unfold alloc_block. apply run_assoc. eapply run_bind.
    { apply (alloc_spec sb V H O L s []); try done; [apply Hok|]. intros h Hh. by apply not_elem_of_nil in Hh. }
    intros [x|] s1.
    + intros (Hx & Hu & _ & V' & Hal & R'). eapply run_lift; [done|]. apply run_ret. cbn [fst snd].
      exists V', ({[x]} ∪ ({[bm sb x]} ∪ L)). split; [done|].
      assert (Hsz : base.size ({[x]} ∪ {[bm sb x]} : gset Z) <= 2).
      { pose proof (size_union_le {[x]} {[bm sb x]}) as Hs. rewrite !size_singleton in Hs. lia. }
      destruct (free_is_data sb V x Hok Hx Hu) as (Hx0 & _).
      assert (Hun : forall b, untouched sb V ino b -> b ∉ ({[x]} ∪ {[bm sb x]} : gset Z)).
      { intros b (Hb & Hub & Hbm & _) [ ->%elem_of_singleton | ->%elem_of_singleton ]%elem_of_union; [congruence|by apply (Hbm x)]. }
      split; [split|split_and!].
      * by apply (allocated_clean sb V).
      * by apply (allocated_fs_ok sb V V' x).
      * by apply (allocated_file sb V V' x).
      * done.
      * by apply (allocated_others sb V V' x).
      * intros i b Hi Hib Hb. cbn [addresses with_address] in Hib. destruct (decide (i = Z.to_nat n)) as [->|Hne].
        -- rewrite list_lookup_insert_eq in Hib by (by eapply lookup_lt_Some). injection Hib as <-. by right.
        -- rewrite list_lookup_insert_ne in Hib by done. by left.
      * intros i b Hib Hb. cbn [addresses with_address]. rewrite list_lookup_insert_ne; [done|]. intros <-. congruence.
      * cbn [addresses with_address]. apply list_lookup_insert_ne. lia.
      * eexists. split; [apply (assoc_L (∪))|]. split; [done|exact Hun].
      * intros k. apply (frees_allocated sb V V' x k); [apply Hok|done|done].
      * cbn [addresses with_address]. apply list_lookup_insert_eq. by eapply lookup_lt_Some.
      * lia.
      * intros o. by apply (allocated_fbyte sb V V' x).
      * exists ({[x]} ∪ {[bm sb x]}). split; [clear; set_solver|]. split; [exact Hsz|exact Hun].
    + intros [Hall _]. exfalso. destruct Hfr as (X & HX & Hfree).
      assert (HXe : X <> ∅) by (intros ->; rewrite size_empty in HX; lia). apply set_choose_L in HXe as [x Hx].
      destruct (Hfree x Hx) as [Hxr Hxf]. by rewrite (Hall x Hxr) in Hxf.
  - apply run_ret. cbn [fst snd]. exists V, L. split; [done|]. split_and!; try done.
    + apply (progress_le _ _ 0); [lia|]. by apply progress_refl.
    + exists {[a]}. split; [done|]. rewrite size_singleton. split; [lia|]. intros b (_ & _ & _ & Hown) ->%elem_of_singleton. by apply (Hown _ Hn).
Qed.

(** Storing the block of a position after looking it up. *)
Lemma stored_progress V H L ino V1 L1 ino1 n a v :
  progress sb H 1 V L ino V1 L1 ino1 -> n < NDIRECT -> addresses ino1 !! n = Some a -> a <> 0%Z -> length v = BSIZE ->
  (exists X : gset Z, {[a]} ∪ L1 = X ∪ L /\ base.size X <= 2 /\ forall b, untouched sb V ino b -> b ∉ X) ->
  progress sb H 1 V L ino (<[a := v]> V1) ({[a]} ∪ L1) ino1.
Proof.
  intros P Hn Ha Hnz Hv HX. pose proof P as [P1 P2 P3 P4 P5 P6 P7 P7' P8 P9]. split; try done.
  - by apply clean_log.
  - by apply (stored_fs_ok sb V1 ino1 n).
  - by apply (stored_file sb V1 ino1 n).
  - intros b U. destruct (P5 b U) as [E _]. rewrite <- E. apply (stored_others sb V1 ino1 n a v); try done. by eapply progress_untouched.
  - intros k Hk. destruct (P9 k Hk) as (Y & HY & Hfree). exists Y. split; [done|]. intros x Hx. destruct (Hfree x Hx) as [Hxr Hxu].
    split; [done|]. by rewrite (stored_used sb V1 ino1 n a v).
Qed.

(** The bytes of the file after [w] is put into its block at [start]. *)
Lemma file_stored_bytes V ino n a v w start o :
  file_ok sb V ino -> n < NDIRECT -> addresses ino !! n = Some a -> a <> 0%Z -> V !! a = Some v -> length v = BSIZE ->
  start + length w <= BSIZE ->
  fbyte (<[a := take start v ++ w ++ drop (start + length w) v]> V) ino o =
    if decide (Z.to_nat (o / B) = n /\ start <= Z.to_nat (o mod B) < start + length w)
    then w !! (Z.to_nat (o mod B) - start) else fbyte V ino o.
Proof.
  intros Hf Hn Ha Hnz Hv Hl Hw.
  assert (Hl' : length (take start v ++ w ++ drop (start + length w) v) = BSIZE) by (rewrite !length_app, length_take, length_drop; lia).
  rewrite (stored_fbyte sb V ino n a _ Hf Hn Ha Hnz Hl' o). destruct (decide (Z.to_nat (o / B) = n)) as [En|Hne].
  - rewrite splice_lookup by lia. rewrite (fbyte_at V ino n a v o Hn Ha Hnz Hv En).
    destruct (decide (start <= _ < _)); [by rewrite decide_True|by rewrite decide_False by tauto].
  - by rewrite decide_False by tauto.
Qed.

(** What a write of the bytes of [buf] from [total] on at [offset] does to the bytes of the file. *)
Definition bytes_written V ino V' ino' (buf : list Z) (offset : Z) (total : nat) : Prop :=
  (forall j, total <= j < length buf -> fbyte V' ino' (offset + Z.of_nat (j - total)) = buf !! j) /\
  (forall o, (0 <= o)%Z -> is_Some (fbyte V ino o) -> (o < offset \/ offset + Z.of_nat (length buf - total) <= o)%Z ->
     fbyte V' ino' o = fbyte V ino o).

Lemma bytes_written_trans V ino V1 ino1 V2 ino2 buf offset total nw : (0 <= offset)%Z -> 0 < nw -> total + nw <= length buf ->
  (forall j, total <= j < total + nw -> fbyte V1 ino1 (offset + Z.of_nat (j - total)) = buf !! j) ->
  (forall o, (0 <= o)%Z -> is_Some (fbyte V ino o) -> (o < offset \/ offset + Z.of_nat nw <= o)%Z -> fbyte V1 ino1 o = fbyte V ino o) ->
  bytes_written V1 ino1 V2 ino2 buf (offset + Z.of_nat nw) (total + nw) -> bytes_written V ino V2 ino2 buf offset total.
Proof.
  intros Ho Hnw Hle W1 K1 [W2 K2]. split.
  - intros j Hj. destruct (decide (j < total + nw)) as [Hlt|Hge].
    + rewrite K2; [apply W1; lia|lia| |lia]. rewrite W1 by lia. apply lookup_lt_is_Some_2. lia.
    + replace (offset + Z.of_nat (j - total))%Z with (offset + Z.of_nat nw + Z.of_nat (j - (total + nw)))%Z by lia. apply W2. lia.
  - intros o Ho' Hs Hout. rewrite <- (K1 o) by (done || lia). apply K2; [done| |lia]. by rewrite (K1 o) by (done || lia).
Qed.

(** The bytes of one round of the loop. *)
Lemma round_bytes V ino n a v buf offset total nw :
  file_ok sb V ino -> n < NDIRECT -> addresses ino !! n = Some a -> a <> 0%Z -> V !! a = Some v -> length v = BSIZE ->
  (0 <= offset)%Z -> n = Z.to_nat (offset / B) -> Z.to_nat (offset mod B) + nw <= BSIZE -> total + nw <= length buf ->
  let w := take nw (drop total buf) in let start := Z.to_nat (offset mod B) in
  let V' := <[a := take start v ++ w ++ drop (start + length w) v]> V in
  (forall j, total <= j < total + nw -> fbyte V' ino (offset + Z.of_nat (j - total)) = buf !! j) /\
  (forall o, (0 <= o)%Z -> (o < offset \/ offset + Z.of_nat nw <= o)%Z -> fbyte V' ino o = fbyte V ino o).
Proof.
  intros Hf Hn Ha Hnz Hv Hl Ho En Hst Hle w start V'. pose proof B_pos as HB0. pose proof (Z.mod_pos_bound offset B B_pos) as Hmod.
  assert (Hw : length w = nw) by (unfold w; rewrite length_take, length_drop; lia). unfold V', start. split.
  - intros j Hj. rewrite (file_stored_bytes V ino n) by (done || lia).
    destruct (same_block offset (Z.of_nat (j - total))) as [E1 E2]; [lia..|]. rewrite E1, E2, Hw.
    rewrite decide_True by (split; [done|lia]). unfold w. rewrite lookup_take_lt, lookup_drop by lia. f_equal. lia.
  - intros o Ho' Hout. rewrite (file_stored_bytes V ino n) by (done || lia). rewrite decide_False; [done|]. intros [En' Hr].
    rewrite Hw in Hr. pose proof (same_block_inv offset o Ho Ho' ltac:(congruence)). pose proof (Z.mod_pos_bound o B B_pos). lia.
Qed.

Lemma position_block offset : (0 <= offset < Z.of_nat NDIRECT * B)%Z ->
  wrap 32 (offset / B) = (offset / B)%Z /\ Z.to_nat (offset / B) < NDIRECT.
Proof.
  intros Ho. pose proof B_pos. assert (0 <= offset / B < Z.of_nat NDIRECT)%Z.
  { split; [apply Z.div_pos; lia|]. apply Z.div_lt_upper_bound; lia. }
  split; [|lia]. unfold wrap. apply Z.mod_small. unfold NDIRECT in *. lia.
Qed.

Lemma uadd_position offset d : (0 <= offset)%Z -> (0 <= d)%Z -> (offset + d <= Z.of_nat NDIRECT * B)%Z -> uadd 64 offset d = Done (offset + d)%Z.
Proof. intros Ho Hd Hle. apply checked_ok. unfold in_width. unfold NDIRECT, BSIZE in Hle. lia. Qed.

(** One round: the bytes go to the block of the position. *)
Lemma write_round {A} V H O L s ino buf offset total nw post (kont : Z * INodeData -> M S A) :
  let start := Z.to_nat (offset mod B) in
  tx_rep s (mkView V H O L) -> clean V H L -> fs_ok sb V -> file_ok sb V ino -> (0 <= offset < Z.of_nat NDIRECT * B)%Z ->
  0 < nw -> start + nw <= BSIZE -> total + nw <= length buf -> frees sb V 1 -> room O L 3 -> log_room L 3 ->
  (forall V2 L2 ino2 a s', tx_rep s' (mkView V2 H O L2) -> progress sb H 1 V L ino V2 L2 ino2 ->
     (forall j, total <= j < total + nw -> fbyte V2 ino2 (offset + Z.of_nat (j - total)) = buf !! j) ->
     (forall o, (0 <= o)%Z -> is_Some (fbyte V ino o) -> (o < offset \/ offset + Z.of_nat nw <= o)%Z -> fbyte V2 ino2 o = fbyte V ino o) ->
     run (kont (a, ino2)) s' post) ->
  run (r ← block_map sb ino (wrap 32 (offset / B));
       let '(b, ino) := r in
       bguard ← bread b; buffer ← lock_data [] b bguard;
       chunk ← lift (subslice buf total (total + nw));
       buffer ← lift (put_at buffer start chunk);
       _ ← bstore bguard buffer; _ ← bwrite bguard; _ ← brelse bguard; kont (b, ino)) s post.
Proof.
  intros start R Hc Hok Hf Ho Hnw Hst Hle Hfr Hr Hl Hk. destruct (position_block offset Ho) as [-> Hn].
  eapply run_bind.
  { eapply (block_map_direct V H O L s ino); try done. by eapply log_room_le; [|exact Hl]; lia. }
  intros [a ino1] s1 (V1 & L1 & R1 & P & Ha & Hnz & Hkeep & HX). cbn [fst snd] in *.
  destruct (geo_blocks _ _ (fo_geo _ _ (pr_fs _ _ _ _ _ _ _ _ _ P)) a) as (v & Hv & Hvl).
  { destruct (f_addr _ _ _ (pr_file _ _ _ _ _ _ _ _ _ P) _ a Hn Ha Hnz) as (Hra & _). lia. }
  assert (Hr1 : room O L1 1 /\ log_room L1 1).
  { destruct (pr_log _ _ _ _ _ _ _ _ _ P) as (X & -> & HXs & _). split; [apply room_union|apply log_room_union].
    - by eapply room_le; [|exact Hr]; lia.
    - by eapply log_room_le; [|exact Hl]; lia. }
  destruct Hr1 as [Hr1 Hl1]. eapply run_bread; [exact R1|exact Hv|exact Hr1|]. intros g s2 R2 _ Eo.
  destruct (open_lookup a g O) as [c Hg]. eapply run_lock; [exact R2|apply not_elem_of_nil|exact Hg|exact Hv|].
  set (w := take nw (drop total buf)). assert (Hw : length w = nw) by (unfold w; rewrite length_take, length_drop; lia).
  eapply run_lift.
  { unfold subslice. rewrite (proj2 (Nat.leb_le _ _)), (proj2 (Nat.leb_le _ _)) by lia. cbn [andb].
    by replace (total + nw - total) with nw by lia. }
  fold w. eapply run_lift; [unfold put_at; by rewrite (proj2 (Nat.leb_le _ _)) by lia|].
  set (v' := take start v ++ w ++ drop (start + length w) v).
  assert (Hvl' : length v' = BSIZE) by (unfold v'; rewrite !length_app, length_take, length_drop; lia).
  eapply run_bstore; [exact R2|exact Hg|done|]. intros s3 R3.
  eapply run_bwrite; [exact R3|exact Hg|exact Hl1|]. intros s4 R4.
  eapply run_brelse; [exact R4|exact Hg|left; apply in_logged|]. intros s5 R5. rewrite Eo in R5.
  destruct (round_bytes V1 ino1 (Z.to_nat (offset / B)) a v buf offset total nw) as [W K]; try done; [apply P|lia|].
  eapply Hk; [exact R5|by eapply stored_progress|exact W|].
  intros o Ho' Hs Hout. transitivity (fbyte V1 ino1 o); [by apply K|by apply Hkeep].
Qed.

Lemma file_write_loop_spec H O buf fuel : forall V L s ino offset total k,
  tx_rep s (mkView V H O L) -> clean V H L -> fs_ok sb V -> file_ok sb V ino ->
  total <= length buf <= total + fuel -> (0 <= offset)%Z -> (offset + Z.of_nat (length buf - total) <= Z.of_nat NDIRECT * B)%Z ->
  (total < length buf -> (offset mod B + Z.of_nat (length buf - total) <= Z.of_nat k * B)%Z) ->
  frees sb V k -> room O L (2 * k + 3) -> log_room L (2 * k + 1) ->
  run (write_loop sb fuel ino buf offset total) s (fun r s' => fst r = (offset + Z.of_nat (length buf - total))%Z /\
    exists V' L', tx_rep s' (mkView V' H O L') /\ progress sb H k V L ino V' L' (snd r) /\
      bytes_written V ino V' (snd r) buf offset total).
Proof.
  induction fuel as [|fuel IH]; intros V L s ino offset total k R Hc Hok Hf Ht Ho Hend Hk Hfr Hr Hl;
    cbn [write_loop]; destruct (Nat.ltb_spec total (length buf)) as [Hlt|Hge]; try lia.
  1, 3: apply run_ret; cbn [fst snd]; split; [lia|]; exists V, L; split; [done|]; split;
    [apply (progress_le _ _ 0); [lia|by apply progress_refl]|split; [lia|done]].
  pose proof B_pos as HB0. pose proof (Z.mod_pos_bound offset B B_pos) as Hmod. specialize (Hk Hlt).
  destruct k as [|k]; [lia|]. set (nw := Nat.min (length buf - total) (BSIZE - Z.to_nat (offset mod B))).
  assert (Hnw : 0 < nw /\ nw <= length buf - total /\ Z.to_nat (offset mod B) + nw <= BSIZE) by lia. destruct Hnw as (N1 & N2 & N3).
  apply (write_round V H O L s ino buf offset total nw _
    (fun p => offset ← lift (uadd 64 offset (Z.of_nat nw)); write_loop sb fuel (snd p) buf offset (total + nw))); try done; try lia.
  { by eapply frees_le; [|exact Hfr]; lia. }
  { by eapply room_le; [|exact Hr]; lia. }
  { by eapply log_room_le; [|exact Hl]; lia. }
  intros V2 L2 ino2 a s2 R2 P W K. cbn [snd]. destruct (pr_log _ _ _ _ _ _ _ _ _ P) as (X & EL & HX & _).
  eapply run_lift; [apply uadd_position; lia|]. eapply run_mono.
  { apply (IH V2 L2 s2 ino2 _ _ k); try done; try apply P; try lia.
    - intros Hlt'. assert (Hfull : nw = BSIZE - Z.to_nat (offset mod B)) by lia.
      pose proof (Z.div_mod offset B ltac:(lia)) as E.
      replace (offset + Z.of_nat nw)%Z with ((offset / B + 1) * B)%Z by lia. rewrite Z.mod_mul by lia. lia.
    - done.
    - rewrite EL. apply room_union. by eapply room_le; [|exact Hr]; lia.
    - rewrite EL. apply log_room_union. by eapply log_room_le; [|exact Hl]; lia. }
  intros [o ino3] s3 (-> & V3 & L3 & R3 & P3 & BW). cbn [fst snd] in *. split; [lia|]. exists V3, L3. split; [done|]. split.
  - by apply (progress_trans sb H 1 k V L ino V2 L2 ino2).
  - eapply bytes_written_trans; [exact Ho|exact N1|lia|exact W|exact K|exact BW].
Qed.

(** ** The inode table *)

(** The inode in the table on a view. *)
Definition on_disk V (inum : Z) ino : Prop :=
  exists blk, V !! iblock sb inum = Some blk /\ take DINODE_SIZE (drop (dinode_offset inum) blk) = inode_bytes ino.

Lemma dinode_fits inum : dinode_offset inum + DINODE_SIZE <= BSIZE.
Proof.
  unfold dinode_offset. pose proof (Nat.mod_upper_bound (Z.to_nat inum) IPB ltac:(done)) as Hm.
  assert (HI : IPB * DINODE_SIZE = BSIZE) by reflexivity. nia.
Qed.

Lemma dinode_apart i j : (0 <= i)%Z -> (0 <= j)%Z -> i <> j -> iblock sb i = iblock sb j ->
  dinode_offset i + DINODE_SIZE <= dinode_offset j \/ dinode_offset j + DINODE_SIZE <= dinode_offset i.
Proof.
  intros Hi Hj Hne E. unfold dinode_offset. assert (Hne' : Z.to_nat i mod IPB <> Z.to_nat j mod IPB).
  { intros Em. apply Hne. unfold iblock in E. assert (Ed : (i / Z.of_nat IPB = j / Z.of_nat IPB)%Z) by lia.
    assert (HI : (Z.of_nat IPB <> 0)%Z) by done. pose proof (Z.div_mod i (Z.of_nat IPB) HI) as Di. pose proof (Z.div_mod j (Z.of_nat IPB) HI) as Dj.
    apply (f_equal Z.of_nat) in Em. rewrite !Nat2Z.inj_mod, !Z2Nat.id in Em by lia. congruence. }
  nia.
Qed.

Lemma slice_same (v w : list Z) a b n : a + length w <= length v -> (a + length w <= b \/ b + n <= a) ->
  take n (drop b (take a v ++ w ++ drop (a + length w) v)) = take n (drop b v).
Proof.
  intros Hl Hd. apply list_eq. intros i. destruct (decide (i < n)) as [Hi|Hi].
  - rewrite !lookup_take_lt, !lookup_drop, splice_lookup by lia. by rewrite decide_False by lia.
  - by rewrite !lookup_take_ge by lia.
Qed.

Lemma slice_put (v w : list Z) a n : a + length w <= length v -> n = length w ->
  take n (drop a (take a v ++ w ++ drop (a + length w) v)) = w.
Proof.
  intros Hl ->. rewrite drop_app_length' by (rewrite length_take; lia). by rewrite take_app_length.
Qed.

Lemma node_block_ok V inum : fs_ok sb V -> (0 <= inum < ninodes sb)%Z -> block_num_for_node sb inum = Done (iblock sb inum).
Proof.
  intros Hok Hi. apply checked_ok. destruct (fo_inode _ _ Hok inum Hi) as [Hb _].
  destruct (geo_size _ _ (fo_geo _ _ Hok)). unfold in_width, iblock in *. lia.
Qed.

(** [V'] is [V] with the inode put into the table. *)
Definition updated V (inum : Z) ino V' : Prop :=
  on_disk V' inum ino /\ (forall b, b <> iblock sb inum -> V' !! b = V !! b) /\
  (forall i ino', (0 <= i)%Z -> i <> inum -> on_disk V i ino' -> on_disk V' i ino') /\
  (exists v, V' = <[iblock sb inum := v]> V /\ length v = BSIZE).

Lemma update_spec V H O L s inum ino :
  tx_rep s (mkView V H O L) -> clean V H L -> fs_ok sb V -> inode_wf ino -> (0 <= inum < ninodes sb)%Z ->
  room O L 1 -> log_room L 1 ->
  run (update sb inum ino) s (fun _ s' => exists V', tx_rep s' (mkView V' H O ({[iblock sb inum]} ∪ L)) /\ updated V inum ino V').
Proof.
  intros R Hc Hok Hw Hi Hr Hl. unfold update. eapply run_lift; [by eapply node_block_ok|].
  destruct (fo_inode _ _ Hok inum Hi) as (Hb & _ & _). destruct (geo_blocks _ _ (fo_geo _ _ Hok) (iblock sb inum) ltac:(lia)) as (v & Hv & Hvl).
  pose proof (dinode_fits inum) as Hfit. pose proof (inode_bytes_length ino Hw) as Hbl.
  eapply run_bread; [exact R|exact Hv|exact Hr|]. intros g s1 R1 _ Eo. destruct (open_lookup (iblock sb inum) g O) as [c Hg].
  eapply run_lock; [exact R1|apply not_elem_of_nil|exact Hg|exact Hv|]. set (off := dinode_offset inum) in *.
  eapply run_lift; [unfold subslice; by rewrite (proj2 (Nat.leb_le _ _)), (proj2 (Nat.leb_le _ _)) by lia|].
  eapply run_lift; [apply to_bytes_ok; [done|]; rewrite length_take, length_drop; lia|].
  eapply run_lift; [unfold put_at; by rewrite (proj2 (Nat.leb_le _ _)) by lia|].
  eapply run_bstore; [exact R1|exact Hg|rewrite !length_app, length_take, length_drop; lia|]. intros s2 R2.
  eapply run_bwrite; [exact R2|exact Hg|exact Hl|]. intros s3 R3.
  eapply run_brelse; [exact R3|exact Hg|left; apply in_logged|]. intros s4 R4. rewrite Eo in R4. apply run_ret.
  eexists. split; [exact R4|]. split_and!.
  - eexists. split; [apply lookup_insert_eq|]. apply slice_put; [lia|done].
  - intros b Hne. by rewrite lookup_insert_ne.
  - intros i ino' Hi0 Hne (blk & Hblk & Hs). destruct (decide (iblock sb i = iblock sb inum)) as [E|Hn].
    + eexists. split; [rewrite E; apply lookup_insert_eq|]. assert (blk = v) as -> by congruence. rewrite slice_same; [done|lia|].
      destruct (dinode_apart i inum); try done; lia.
    + exists blk. by rewrite lookup_insert_ne.
  - eexists. split; [done|]. rewrite !length_app, length_take, length_drop. lia.
Qed.

(** Locking an inode that is not in memory finds it in the table. *)
Lemma load_spec V H O L s inum ino :
  tx_rep s (mkView V H O L) -> clean V H L -> fs_ok sb V -> inode_wf ino -> file_type ino <> Unitialized -> (0 <= inum < ninodes sb)%Z ->
  on_disk V inum ino -> room O L 1 ->
  run (load sb inum) s (fun r s' => r = ino /\ tx_rep s' (mkView V H O L)).
Proof.
  intros R Hc Hok Hw Hty Hi (v & Hv & Hs) Hr. unfold load. eapply run_lift; [by eapply node_block_ok|].
  pose proof (dinode_fits inum) as Hfit. destruct (fo_inode _ _ Hok inum Hi) as (Hb & _ & _).
  destruct (geo_blocks _ _ (fo_geo _ _ Hok) (iblock sb inum) ltac:(lia)) as (v' & Hv' & Hvl). assert (v' = v) as -> by congruence.
  eapply run_bread; [exact R|exact Hv|exact Hr|]. intros g s1 R1 _ Eo. destruct (open_lookup (iblock sb inum) g O) as [c Hg].
  eapply run_lock; [exact R1|apply not_elem_of_nil|exact Hg|exact Hv|]. set (off := dinode_offset inum) in *.
  eapply run_lift; [unfold subslice; by rewrite (proj2 (Nat.leb_le _ _)), (proj2 (Nat.leb_le _ _)) by lia|].
  replace (off + DINODE_SIZE - off) with DINODE_SIZE by lia. rewrite Hs.
  eapply run_lift; [rewrite <- (app_nil_r (inode_bytes ino)); by apply copy_from_bytes_ok|].
  rewrite bool_decide_eq_false_2 by done. eapply run_step; [done|].
  eapply run_brelse; [exact R1|exact Hg| |].
  { destruct (decide (iblock sb inum ∈ L)); [by left|right]. by apply Hc. }
  intros s2 R2. rewrite Eo in R2. by apply run_ret.
Qed.

(** ** Writing and reading *)

Lemma updated_used V inum ino V' b : fs_ok sb V -> (0 <= inum < ninodes sb)%Z -> updated V inum ino V' -> (0 <= b < sb_size sb)%Z ->
  used sb V' b = used sb V b.
Proof. intros Hok Hi (_ & _ & _ & v & -> & _) Hb. apply used_other. destruct (fo_inode _ _ Hok inum Hi) as (_ & _ & Hn). by apply Hn. Qed.

Lemma updated_fs_ok V inum ino V' : fs_ok sb V -> (0 <= inum < ninodes sb)%Z -> updated V inum ino V' -> fs_ok sb V'.
Proof.
  intros Hok Hi U. pose proof (fun b => updated_used V inum ino V' b Hok Hi U) as Hu. pose proof Hok as [Hg Hz Hs Hn]. split.
  - destruct U as (_ & _ & _ & v & -> & Hv). apply geometry_insert; try done. by apply Hn.
  - destruct (fo_inode _ _ Hok inum Hi) as (Hb & _). rewrite Hu by lia. done.
  - done.
  - intros i Hii. destruct (Hn i Hii) as (H1 & H2 & H3). split; [done|]. split; [|done]. by rewrite Hu by lia.
Qed.

Lemma updated_file V inum ino V' f : fs_ok sb V -> (0 <= inum < ninodes sb)%Z -> updated V inum ino V' -> file_ok sb V f ->
  file_ok sb V' f /\ forall o, fbyte V' f o = fbyte V f o.
Proof.
  intros Hok Hi U Hf. pose proof (fun b => updated_used V inum ino V' b Hok Hi U) as Hu. destruct U as (_ & Hsame & _). split.
  - pose proof Hf as [F1 F2 F3 F4 F5]. split; try done. intros i a Hin Hia Hnz. destruct (F2 i a Hin Hia Hnz) as (D1 & D2 & D3 & D4).
    split; [done|]. split; [|done]. by rewrite Hu by lia.
  - intros o. unfold fbyte. destruct (Nat.ltb_spec (Z.to_nat (o / B)) NDIRECT) as [Hn|]; [|done].
    destruct (addresses f !! _) as [a|] eqn:Ea; [|done]. cbn [mbind option_bind]. destruct (Z.eqb_spec a 0) as [|Hnz]; [done|].
    destruct (f_addr _ _ _ Hf _ a Hn Ea Hnz) as (_ & _ & _ & Hd). rewrite Hsame; [done|]. by apply Hd.
Qed.

(** A file grows to hold the bytes that were written. *)
Lemma grown_file V ino V1 ino1 buf offset : (0 <= offset <= isize ino)%Z -> isize ino1 = isize ino ->
  (offset + Z.of_nat (length buf) <= Z.of_nat NDIRECT * B)%Z -> file_ok sb V1 ino1 ->
  bytes_written V ino V1 ino1 buf offset 0 ->
  file_ok sb V1 (with_size (Z.max (offset + Z.of_nat (length buf)) (isize ino1)) ino1).
Proof.
  intros Ho Es Hend Hf [W _]. pose proof Hf as [F1 F2 F3 F4 F5]. split; try done; cbn [with_size isize addresses]; [|lia].
  intros i Hi Hlt. destruct (decide (Z.of_nat i * B < isize ino1)%Z) as [Hold|Hnew]; [by apply F4|].
  pose proof B_pos as HB0. assert (Hin : (offset <= Z.of_nat i * B < offset + Z.of_nat (length buf))%Z) by lia.
  set (j := Z.to_nat (Z.of_nat i * B - offset)). specialize (W j ltac:(lia)).
  replace (offset + Z.of_nat (j - 0))%Z with (Z.of_nat i * B)%Z in W by lia.
  destruct (lookup_lt_is_Some_2 buf j ltac:(lia)) as [x Hx]. rewrite Hx in W. unfold fbyte in W.
  rewrite Z.div_mul, Nat2Z.id in W by lia. rewrite (proj2 (Nat.ltb_lt _ _) Hi) in W.
  destruct (addresses ino1 !! i) as [a|]; [|done]. cbn [mbind option_bind] in W. exists a. split; [done|]. intros ->. done.
Qed.

Lemma grown_wf V L ino V1 L1 ino1 H k z : progress sb H k V L ino V1 L1 ino1 -> inode_wf ino -> in_width 32 z ->
  inode_wf (with_size z ino1).
Proof.
  intros P [W1 W2 W3 W4 W5 W6] Hz. destruct (pr_meta _ _ _ _ _ _ _ _ _ P) as (M1 & M2 & M3 & M4 & M5).
  pose proof (pr_file _ _ _ _ _ _ _ _ _ P) as Hf. pose proof (f_len _ _ _ Hf) as Hlen.
  split; cbn [with_size major minor nlink isize addresses]; rewrite ?M2, ?M3, ?M4; try done.
  apply Forall_lookup_2. intros i a Hia. destruct (decide (i < NDIRECT)) as [Hi|Hi].
  - destruct (decide (a = 0%Z)) as [->|Hnz]; [by unfold in_width|].
    destruct (f_addr _ _ _ Hf i a Hi Hia Hnz) as (Hr & _). destruct (geo_size _ _ (fo_geo _ _ (pr_fs _ _ _ _ _ _ _ _ _ P))).
    unfold in_width. lia.
  - assert (i = NDIRECT) as -> by (apply lookup_lt_Some in Hia; lia). rewrite (pr_tail _ _ _ _ _ _ _ _ _ P) in Hia.
    by apply (Forall_lookup_1 _ _ _ _ W6 Hia).
Qed.

(** Two files have no block in common. *)
Definition apart (f ino : INodeData) : Prop :=
  forall i k a, i < NDIRECT -> k < NDIRECT -> addresses f !! i = Some a -> addresses ino !! k = Some a -> a = 0%Z.

Lemma progress_other V L ino V1 L1 ino1 H k f : progress sb H k V L ino V1 L1 ino1 -> file_ok sb V f -> apart f ino ->
  file_ok sb V1 f /\ apart f ino1 /\ forall o, fbyte V1 f o = fbyte V f o.
Proof.
  intros P Hf Hd. assert (Hown : forall i a, i < NDIRECT -> addresses f !! i = Some a -> a <> 0%Z ->
    data_block sb V1 a /\ V1 !! a = V !! a).
  { intros i a Hi Hia Hnz. destruct (f_addr _ _ _ Hf i a Hi Hia Hnz) as (D1 & D2 & D3 & D4).
    destruct (pr_others _ _ _ _ _ _ _ _ _ P a) as [E U]; [|by split]. split; [done|]. split; [done|]. split; [done|].
    intros j Hj Hja. by apply Hnz, (Hd i j). }
  split_and!.
  - pose proof Hf as [F1 F2 F3 F4 F5]. split; try done. intros i a Hi Hia Hnz. by destruct (Hown i a Hi Hia Hnz).
  - intros i j a Hi Hj Hia Hja. destruct (decide (a = 0%Z)) as [|Hnz]; [done|].
    destruct (pr_own _ _ _ _ _ _ _ _ _ P j a Hj Hja Hnz) as [Hja'|Hu]; [by apply (Hd i j)|].
    destruct (f_addr _ _ _ Hf i a Hi Hia Hnz) as (_ & D2 & _). congruence.
  - intros o. unfold fbyte. destruct (Nat.ltb_spec (Z.to_nat (o / B)) NDIRECT) as [Hn|]; [|done].
    destruct (addresses f !! _) as [a|] eqn:Ea; [|done]. cbn [mbind option_bind]. destruct (Z.eqb_spec a 0) as [|Hnz]; [done|].
    by destruct (Hown _ a Hn Ea Hnz) as [_ ->].
Qed.

Lemma progress_on_disk V L ino V1 L1 ino1 H k i f : progress sb H k V L ino V1 L1 ino1 -> fs_ok sb V -> file_ok sb V ino ->
  (0 <= i < ninodes sb)%Z -> on_disk V i f -> on_disk V1 i f.
Proof.
  intros P Hok Hf Hi (blk & Hblk & Hs). destruct (fo_inode _ _ Hok i Hi) as (I1 & I2 & I3). exists blk. split; [|done].
  destruct (pr_others _ _ _ _ _ _ _ _ _ P (iblock sb i)) as [-> _]; [|done]. split; [done|]. split; [done|]. split; [done|].
  intros j Hj Hja. destruct (f_addr _ _ _ Hf j _ Hj Hja ltac:(lia)) as (_ & _ & _ & Hd). by apply (Hd i Hi).
Qed.

(** What a write leaves. *)
Record wrote H V L (inum : Z) ino V' L' ino' (buf : list Z) (offset : Z) (k : nat) : Prop := mkWrote {
  wr_clean : clean V' H L';
  wr_fs : fs_ok sb V';
  wr_file : file_ok sb V' ino';
  wr_wf : inode_wf ino';
  wr_meta : file_type ino' = file_type ino /\ nlink ino' = nlink ino;
  wr_size : isize ino' = Z.max (offset + Z.of_nat (length buf)) (isize ino);
  wr_bytes : bytes_written V ino V' ino' buf offset 0;
  wr_disk : on_disk V' inum ino';
  wr_inodes : forall i f, (0 <= i < ninodes sb)%Z -> i <> inum -> on_disk V i f -> on_disk V' i f;
  wr_others : forall f, file_ok sb V f -> apart f ino -> file_ok sb V' f /\ apart f ino' /\ forall o, fbyte V' f o = fbyte V f o;
  wr_frees : forall j, frees sb V (k + j) -> frees sb V' j;
  wr_log : exists X : gset Z, L' = X ∪ L /\ base.size X <= 2 * k + 1 /\
    forall b, untouched sb V ino b -> b <> iblock sb inum -> b ∉ X }.

Lemma file_write_spec V H O L s inum ino buf offset k :
  tx_rep s (mkView V H O L) -> clean V H L -> fs_ok sb V -> file_ok sb V ino -> inode_wf ino ->
  (0 <= inum < ninodes sb)%Z -> 0 < length buf -> (0 <= offset <= isize ino)%Z ->
  (offset + Z.of_nat (length buf) <= Z.of_nat NDIRECT * B)%Z -> (offset mod B + Z.of_nat (length buf) <= Z.of_nat k * B)%Z ->
  frees sb V k -> room O L (2 * k + 3) -> log_room L (2 * k + 1) ->
  run (write sb inum ino buf offset) s (fun r s' => fst r = length buf /\
    exists V' L', tx_rep s' (mkView V' H O L') /\ wrote H V L inum ino V' L' (snd r) buf offset k).
Proof.
  intros R Hc Hok Hf Hw Hi Hbuf Ho Hend Hk Hfr Hr Hl. unfold write. eapply run_bind.
  { eapply (file_write_loop_spec H O buf (length buf) V L s ino offset 0 k); try done; try lia. }
  intros [off ino1] s1 (Eoff & V1 & L1 & R1 & P & BW). cbn [fst snd] in *. rewrite Nat.sub_0_r in Eoff. subst off.
  rewrite (proj2 (Nat.ltb_lt _ _) Hbuf). destruct (pr_meta _ _ _ _ _ _ _ _ _ P) as (M1 & M2 & M3 & M4 & M5).
  assert (Hz : in_width 32 (offset + Z.of_nat (length buf))) by (unfold in_width; unfold NDIRECT, BSIZE in Hend; lia).
  assert (Ez : wrap 32 (offset + Z.of_nat (length buf)) = (offset + Z.of_nat (length buf))%Z) by (by apply Z.mod_small). rewrite Ez.
  pose proof (grown_file V ino V1 ino1 buf offset Ho M5 Hend (pr_file _ _ _ _ _ _ _ _ _ P) BW) as Hg.
  set (ino2 := with_size (Z.max _ _) ino1) in *. assert (Hw2 : inode_wf ino2).
  { eapply grown_wf; [exact P|done|]. pose proof (f_size _ _ _ Hf). unfold in_width. rewrite M5. unfold NDIRECT, BSIZE in *. lia. }
  pose proof (pr_fs _ _ _ _ _ _ _ _ _ P) as Hok1. destruct (pr_log _ _ _ _ _ _ _ _ _ P) as (X & EL & HX & HXu). eapply run_bind.
  { eapply (update_spec V1 H O L1 s1 inum ino2); try done; [apply P| |]; rewrite EL.
    - apply room_union. by eapply room_le; [|exact Hr]; lia.
    - apply log_room_union. by eapply log_room_le; [|exact Hl]; lia. }
  intros [] s2 (V2 & R2 & U). apply run_ret. cbn [fst snd]. split; [done|]. exists V2, ({[iblock sb inum]} ∪ L1). split; [done|].
  destruct (updated_file V1 inum ino2 V2 ino2 Hok1 Hi U Hg) as [Hf2 Hb2]. destruct BW as [BW1 BW2]. split.
  - destruct U as (_ & _ & _ & v & -> & _). by apply clean_log, P.
  - by apply (updated_fs_ok V1 inum ino2).
  - done.
  - done.
  - cbn [ino2 with_size file_type nlink]. done.
  - cbn [ino2 with_size isize]. by rewrite M5.
  - split; [intros j Hj|intros o Ho' Hs Hout]; rewrite Hb2; [by apply BW1|by apply BW2].
  - exact (proj1 U).
  - intros i f Hii Hne Hd. destruct U as (_ & _ & U & _). apply U; [lia|done|]. by eapply progress_on_disk.
  - intros f Hff Hap. destruct (progress_other _ _ _ _ _ _ _ _ f P Hff Hap) as (F1 & F2 & F3).
    destruct (updated_file V1 inum ino2 V2 f Hok1 Hi U F1) as [F4 F5]. split_and!; [done|done|]. intros o. by rewrite F5.
  - intros j Hj. destruct (pr_frees _ _ _ _ _ _ _ _ _ P j Hj) as (Y & HY & Hfree). exists Y. split; [done|]. intros x Hx.
    destruct (Hfree x Hx) as [Hxr Hxu]. split; [done|]. by rewrite (updated_used V1 inum ino2 V2).
  - exists ({[iblock sb inum]} ∪ X). rewrite EL, (assoc_L (∪)). split; [done|]. pose proof (size_add X (iblock sb inum)).
    split; [lia|]. intros b Ub Hne [ ->%elem_of_singleton | Hx ]%elem_of_union; [done|by apply (HXu b)].
Qed.

Lemma file_read_loop_spec V H O L ino fuel : clean V H L -> fs_ok sb V -> file_ok sb V ino -> room O L 1 ->
  forall s ub offset total btr,
  tx_rep s (mkView V H O L) -> total <= btr <= total + fuel -> btr <= length ub -> (0 <= offset)%Z ->
  (total < btr -> (offset + Z.of_nat (btr - total) <= isize ino)%Z) ->
  run (read_loop sb fuel ino ub offset total (Z.of_nat btr)) s (fun r s' => snd r = ino /\ tx_rep s' (mkView V H O L) /\
    forall j, fst r !! j = if decide (total <= j < btr) then fbyte V ino (offset + Z.of_nat (j - total)) else ub !! j).
Proof.
  intros Hc Hok Hf Hr. induction fuel as [|fuel IH]; intros s ub offset total btr R Ht Hbl Ho Hin;
    cbn [read_loop]; destruct (Z.ltb_spec (Z.of_nat total) (Z.of_nat btr)) as [Hlt|Hge]; try lia.
  1, 3: apply run_ret; cbn [fst snd]; split_and!; [done|done|]; intros j; by rewrite decide_False by lia.
  pose proof B_pos as HB0. pose proof (Z.mod_pos_bound offset B B_pos) as Hmod. pose proof (f_size _ _ _ Hf) as Hsz. specialize (Hin ltac:(lia)).
  destruct (position_block offset) as [-> Hn]; [lia|].
  destruct (f_map _ _ _ Hf (Z.to_nat (offset / B)) Hn) as (a & Ha & Hnz).
  { rewrite Z2Nat.id by (apply Z.div_pos; lia). pose proof (Z.div_mod offset B ltac:(lia)). lia. }
  eapply run_step; [by apply (block_map_mapped ino _ a)|].
  destruct (f_addr _ _ _ Hf _ a Hn Ha Hnz) as (Hra & _). destruct (geo_blocks _ _ (fo_geo _ _ Hok) a ltac:(lia)) as (v & Hv & Hvl).
  eapply run_bread; [exact R|exact Hv|exact Hr|]. intros g s1 R1 _ Eo. destruct (open_lookup a g O) as [c Hg].
  eapply run_lock; [exact R1|apply not_elem_of_nil|exact Hg|exact Hv|]. cbv zeta.
  set (start := Z.to_nat (offset mod B)) in *.
  replace (Z.to_nat (Z.min (Z.of_nat btr - Z.of_nat total) (Z.of_nat (BSIZE - start)))) with (Nat.min (btr - total) (BSIZE - start)) by lia.
  set (nr := Nat.min (btr - total) (BSIZE - start)) in *.
  assert (Hnr : 0 < nr /\ nr <= btr - total /\ start + nr <= BSIZE) by lia. destruct Hnr as (N1 & N2 & N3).
  eapply run_lift; [unfold subslice; by rewrite (proj2 (Nat.leb_le _ _)), (proj2 (Nat.leb_le _ _)) by lia|].
  replace (start + nr - start) with nr by lia. set (w := take nr (drop start v)).
  assert (Hw : length w = nr) by (unfold w; rewrite length_take, length_drop; lia).
  eapply run_lift; [unfold put_at; by rewrite (proj2 (Nat.leb_le _ _)) by lia|].
  eapply run_brelse; [exact R1|exact Hg| |].
  { destruct (decide (a ∈ L)); [by left|right]. by apply Hc. }
  intros s2 R2. rewrite Eo in R2. eapply run_lift; [apply uadd_position; lia|]. eapply run_mono.
  { apply (IH s2); [exact R2|lia| |lia|lia]. rewrite !length_app, length_take, length_drop. lia. }
  intros [ub' ino'] s3 (-> & R3 & Hub). cbn [fst snd] in *. split_and!; [done|done|]. intros j. rewrite Hub.
  destruct (decide (total + nr <= j < btr)).
  { rewrite decide_True by lia. f_equal. lia. }
  rewrite splice_lookup, Hw by lia. destruct (decide (total <= j < total + nr)) as [Hj|]; [|by rewrite decide_False by lia].
  rewrite decide_True by lia. destruct (same_block offset (Z.of_nat (j - total))) as [E1 E2]; [lia..|].
  rewrite (fbyte_at V ino (Z.to_nat (offset / B)) a v) by (done || by rewrite E1). rewrite E2.
  unfold w. rewrite lookup_take_lt, lookup_drop by lia. f_equal. lia.
Qed.

(** The number of bytes there are to read. *)
Definition available ino (ub : list Z) (offset : Z) : nat := Nat.min (length ub) (Z.to_nat (isize ino - offset)).

Lemma file_read_spec V H O L s ino ub offset :
  tx_rep s (mkView V H O L) -> clean V H L -> fs_ok sb V -> file_ok sb V ino -> room O L 1 ->
  (0 <= offset <= isize ino)%Z -> (offset + Z.of_nat (length ub) < 2 ^ 64)%Z ->
  run (read sb ino ub offset) s (fun r s' =>
    fst (fst r) = Z.of_nat (available ino ub offset) /\ snd r = ino /\ tx_rep s' (mkView V H O L) /\
    forall j, snd (fst r) !! j = if decide (j < available ino ub offset) then fbyte V ino (offset + Z.of_nat j) else ub !! j).
Proof.
  intros R Hc Hok Hf Hr Ho Hb. unfold read. set (btr := available ino ub offset).
  eapply run_lift; [apply checked_ok; unfold in_width; lia|].
  eapply run_bind with (mid := fun r s' => r = Z.of_nat btr /\ s' = s).
  { unfold btr, available. destruct (Z.ltb_spec (isize ino) (offset + Z.of_nat (length ub))) as [Hlt|Hge].
    - exists (isize ino - offset)%Z, s. split; [|split; [lia|done]]. unfold usub. rewrite checked_ok; [done|]. unfold in_width. lia.
    - apply run_ret. split; [lia|done]. }
  intros ? ? [-> ->]. eapply run_bind.
  { apply (file_read_loop_spec V H O L ino (Datatypes.S (length ub)) Hc Hok Hf Hr s ub offset 0 btr R); unfold btr, available; lia. }
  intros [ub' ino'] s' (-> & R' & Hub). apply run_ret. cbn [fst snd] in *. split_and!; [done|done|done|]. intros j. rewrite Hub, Nat.sub_0_r.
  destruct (decide (j < btr)); [by rewrite decide_True by lia|by rewrite decide_False by lia].
Qed.
End FileSpecs.
