(* ===== verification/FileSystem.v ===== *)
(** * Files of the xv6 file system: the properties
    (the layers of domains/usr/xv6/kernel/fs/src put together)

    The block allocator (Block.v) and the inodes (Inode.v) over the buffer cache and the
    log: what is written is what is read, a write that is committed is atomic even when the
    machine stops, and where the code forgets blocks and directory entries. *)

From Stdlib Require Import ZArith Lia.
From stdpp Require Import base gmap list.
From stdpp Require Import options.
From S2P Require Import Prelude BCache Log Utf8 Tx Block Inode.

Set Default Proof Using "Type".

(** ** The interface at the end of a transaction *)

Section Commit.
Context `{HP : Profile} `{HB : ByteOrder} {D : Type} `{!BDev D} (d : Z) (Hd : d <> 0%Z) (dk : Traced D) (l0 : LogInternal).

Definition contents (V : gmap Z block) (b : Z) : block := default [] (V !! b).
Definition listed (l : LogInternal) : list Z := take (Z.to_nat (n (logheader l))) (block_nums (logheader l)).

Lemma log_ok_listed l L : log_ok l0 l L -> (forall b, b ∈ listed l <-> b ∈ L) /\ NoDup (listed l).
Proof.
  intros [H1 H2 H3 H4 H5 H6]. unfold listed. rewrite H1, Nat2Z.id. split; [|done]. intros b.
  rewrite <- (elem_of_list_to_set (C := gset Z)). by rewrite H3.
Qed.

(** The log of a file system at rest: its blocks exist and its header on disk is empty. *)
Record log_area (H : gmap Z block) : Prop := mkLogArea {
  la_dev : dev l0 = d;
  la_start : (0 <= start l0)%Z;
  la_clear : exists h, header_of (start l0) H = Some h /\ n h = 0%Z;
  la_disk : forall b, in_log (start l0) b -> is_Some (H !! b) }.

(** When all guards are dropped and nothing of the log area is logged, the transaction may commit. *)
Lemma committable_of s V H L l :
  fs_rep d dk l0 s (mkView V H ∅ L) -> log_area H -> L <> ∅ -> base.size L < NBUF -> (forall b, b ∈ L -> ~ in_log (start l0) b) ->
  start l = start l0 -> dev l = dev l0 -> logheader l = logheader (log s) ->
  exists u, committable d (mkFS (bcache s) l) u H l (contents V) (listed (log s)).
Proof using Hd.
  intros [(u & R & Hu) Hdv Hh Hl] [A1 A2 A3 A4] Hne Hsz Hout E1 E2 E3. cbn [v_home v_log] in *.
  destruct (log_ok_listed _ _ Hl) as [Hin Hnd]. pose proof Hl as [L1 L2 L3 L4 L5 L6].
  assert (Hpos : 0 < base.size L) by (apply Nat.neq_0_lt_0; by intros Hz%size_empty_inv%leibniz_equiv).
  assert (Hle : base.size L <= LOGSIZE).
  { rewrite <- L3, <- L2. rewrite size_list_to_set by done. rewrite length_take. lia. }
  exists u. split; rewrite ?E3, ?E1.
  - split; [done|by rewrite <- Hh, <- Hdv|done].
  - congruence.
  - done.
  - unfold header_ok.  split_and!; [|done|done]. rewrite L1. unfold in_width, LOGSIZE, MAXOPBLOCKS in *. lia.
  - rewrite L1. lia.
  - done.
  - done.
  - done.
  - intros b Hb. apply Hout. by apply Hin.
  - intros b Hb. apply Hin in Hb. specialize (Hu b). destruct (u !! b) as [x|]; [|by destruct Hu as (_ & _ & ?)].
    destruct Hu as (Hv & Hrc & _). exists x. split; [done|]. unfold contents. cbn [v_blocks] in Hv. rewrite Hv. split; [done|].
    rewrite Hrc. unfold guards_of, pins_of. cbn [v_open v_log]. rewrite lookup_empty. case_decide; lia.
  - intros b Hb. specialize (Hu b). destruct (u !! b) as [x|] eqn:Ex; [|done]. exfalso.
    destruct Hu as (_ & Hrc & _). pose proof (rep_pos d _ u b x R Ex) as Hp. rewrite Hrc in Hp.
    unfold guards_of, pins_of in Hp. cbn [v_open v_log] in Hp. rewrite lookup_empty in Hp.
    case_decide as Hb'; [by apply (Hout b Hb')|lia].
  - done.
  - rewrite (rep_size d s _ u R Hu). unfold busy. cbn [v_open v_log]. rewrite dom_empty_L, (left_id_L ∅ (∪)). done.
Qed.

(** The blocks of the transaction over the disk are the view. *)
Lemma installed_view l V H L : log_ok l0 l L -> clean V H L -> (forall b, b ∈ L -> is_Some (V !! b)) ->
  installed (contents V) (listed l) H = V.
Proof.
  intros Hl Hc Hs. destruct (log_ok_listed _ _ Hl) as [Hin _]. apply map_eq. intros b. rewrite installed_lookup.
  destruct (decide (b ∈ listed l)) as [Hb|Hb].
  - apply Hin in Hb. unfold contents. by destruct (Hs b Hb) as [v ->].
  - symmetry. apply Hc. by rewrite <- Hin.
Qed.

Lemma end_op_run (s s1 : fsst (Traced D)) : outstanding (log s) = 1%Z -> committing (log s) = false ->
  commit (mkFS (bcache s) (with_committing true (with_outstanding 0 (log s)))) = Done (tt, s1) ->
  end_op s = Done (tt, mkFS (bcache s1) (with_committing false (log s1))).
Proof.
  intros Ho Hc E. assert (Eu : usub 32 1 1 = Done 0%Z) by (by apply checked_ok).
  unfold end_op. rewrite bind_gets, Ho, Eu, bind_lift. unfold upd_log. rewrite bind_modify, Hc, bind_assert.
  rewrite Z.eqb_refl, bind_modify. cbn [bcache log]. by mstep E.
Qed.

Lemma logged_exist s V H L : fs_rep d dk l0 s (mkView V H ∅ L) -> forall b, b ∈ L -> is_Some (V !! b).
Proof.
  intros [(u & R & Hu) _ _ _] b Hb. specialize (Hu b). destruct (u !! b) as [x|]; [|by destruct Hu as (_ & _ & ?)].
  destruct Hu as [Hv _]. eauto.
Qed.

(** Ending the last operation of a transaction: the disk goes from [H] to [V] in one step. *)
Lemma end_op_atomic s V H L :
  fs_rep d dk l0 s (mkView V H ∅ L) -> clean V H L -> log_area H -> outstanding l0 = 1%Z -> committing l0 = false ->
  base.size L < NBUF -> (forall b, b ∈ L -> ~ in_log (start l0) b) ->
  exists s' new, end_op s = Done (tt, s') /\ hist s' = new ++ (blocks <$> tr_hist dk) /\
    Forall (fun m => same_home (start l0) (recovered (start l0) m) H \/ same_home (start l0) (recovered (start l0) m) V) new /\
    same_home (start l0) (blocks (bdev (bcache s'))) V /\ n (logheader (log s')) = 0%Z.
Proof using Hd.
  intros R Hc HA Ho Hcm Hsz Hout. pose proof (logged_exist s V H L R) as Hs. pose proof R as [_ Hdv Hh Hl]. cbn [v_home v_log] in Hh, Hl.
  pose proof (lo_same _ _ _ Hl) as El. assert (E1 : outstanding (log s) = 1%Z /\ committing (log s) = false) by (rewrite El; done).
  destruct E1 as [E1 E2]. set (l := with_committing true (with_outstanding 0 (log s))).
  assert (Eh : hist (mkFS (bcache s) l) = blocks <$> tr_hist dk) by (unfold hist; cbn [bcache]; by rewrite Hdv).
  destruct (decide (L = ∅)) as [->|Hne].
  - assert (E : commit (mkFS (bcache s) l) = Done (tt, mkFS (bcache s) l)).
    { unfold commit. rewrite bind_gets. cbn [log l with_committing with_outstanding logheader].
      rewrite (lo_n _ _ _ Hl), size_empty. done. }
    eexists _, []. split; [by apply end_op_run|]. split; [exact Eh|]. split; [constructor|]. split.
    + intros b _. cbn [bcache]. rewrite Hdv, Hh. symmetry. apply Hc. apply not_elem_of_empty.
    + cbn. rewrite (lo_n _ _ _ Hl), size_empty. done.
  - destruct (committable_of s V H L l R HA Hne Hsz Hout) as [u C].
    1-3: cbn [l with_committing with_outstanding start dev logheader]; rewrite El; done.
    destruct (commit_trip d Hd _ u H l _ _ C) as ([] & s' & new & E & Hh' & HQ & m' & Hst & Hhd & Hm).
    assert (Es : start l = start l0) by (cbn [l with_committing with_outstanding start]; rewrite El; done).
    unfold atomic in HQ. rewrite Es, (installed_view (log s) V H L Hl Hc Hs) in *.
    eexists _, new. split; [by apply end_op_run|]. split; [by rewrite Eh in Hh'|]. split; [exact HQ|]. split.
    + cbn [bcache]. by rewrite (st_disk _ _ _ _ _ Hst).
    + cbn [log with_committing logheader]. by rewrite (st_log _ _ _ _ _ Hst).
Qed.
End Commit.

(** ** Files *)

(** A write that the file system has room for: [k] blocks at most, in the direct blocks. *)
Record writable {G} `{ByteOrder} `{ByteOrder16} (sb : SuperBlock) (V : gmap Z block) (O : gmap Z (G * nat)) (L : gset Z)
    (inum : Z) (ino : INodeData) (buf : list Z) (offset : Z) (k : nat) : Prop := mkWritable {
  wa_fs : fs_ok sb V;
  wa_file : file_ok sb V ino;
  wa_wf : inode_wf ino;
  wa_inum : (0 <= inum < ninodes sb)%Z;
  wa_buf : 0 < length buf;
  wa_offset : (0 <= offset <= isize ino)%Z;
  wa_end : (offset + Z.of_nat (length buf) <= Z.of_nat NDIRECT * B)%Z;
  wa_blocks : (offset mod B + Z.of_nat (length buf) <= Z.of_nat k * B)%Z;
  wa_free : frees sb V k;
  wa_room : room O L (2 * k + 3);
  wa_log : log_room L (2 * k + 1) }.

Section Theorems.
Context `{HP : Profile} `{HB : ByteOrder} `{HB16 : ByteOrder16} {S G : Type} `{!TxBlocks S G} (sb : SuperBlock).
Implicit Types (V H : gmap Z block) (O : gmap Z (G * nat)) (L : gset Z) (s : S) (ino : INodeData).

Lemma writable_write V H O L s inum ino buf offset k :
  tx_rep s (mkView V H O L) -> clean V H L -> writable sb V O L inum ino buf offset k ->
  run (write sb inum ino buf offset) s (fun r s' => fst r = length buf /\
    exists V' L', tx_rep s' (mkView V' H O L') /\ room O L' 1 /\ wrote sb H V L inum ino V' L' (snd r) buf offset k).
Proof.
  intros R Hc [W1 W2 W3 W4 W5 W6 W7 W8 W9 W10 W11]. eapply run_mono; [by eapply file_write_spec|].
  intros [m ino'] s' (Em & V' & L' & R' & W). cbn [fst snd] in *. split; [done|]. exists V', L'. split; [done|]. split; [|done].
  destruct (wr_log _ _ _ _ _ _ _ _ _ _ _ _ W) as (X & -> & HX & _). apply room_union. by eapply room_le; [|exact W10]; lia.
Qed.

(** C5: a file holds what was written to it.  A write in the direct blocks returns the
    number of bytes; then the inode as it is read back from the inode table, and a read
    with it at the same offset, give exactly the bytes written.  Other files and other
    inodes are as before, no block is shared, and at most [2 * k + 1] blocks are logged. *)
Theorem file_write_read V H O L s inum ino buf ub offset k :
  tx_rep s (mkView V H O L) -> clean V H L -> writable sb V O L inum ino buf offset k ->
  file_type ino <> Unitialized -> length ub = length buf ->
  run (r ← write sb inum ino buf offset; ino' ← load sb inum; q ← read sb ino' ub offset; mret (fst r, fst q, ino')) s
    (fun r s' => fst r = (length buf, (Z.of_nat (length buf), buf)) /\
      exists V' L', tx_rep s' (mkView V' H O L') /\ wrote sb H V L inum ino V' L' (snd r) buf offset k).
Proof.
  intros R Hc Hw Hty Hub. eapply run_bind; [by eapply writable_write|].
  intros [m ino'] s1 (Em & V' & L' & R1 & Hr & W). cbn [fst snd] in *. subst m.
  pose proof W as [C1 C2 C3 C4 [C5 _] C6 [C7 _] C8 _ _ _ _]. destruct Hw as [_ _ _ Hi Hb Ho He _ _ _ _].
  eapply run_bind; [by eapply (load_spec sb V' H O L' s1 inum ino'); rewrite ?C5|]. intros ? s2 [-> R2].
  eapply run_bind.
  { eapply (file_read_spec sb V' H O L' s2 ino' ub offset); try done; [lia|]. unfold NDIRECT, BSIZE in He. lia. }
  intros [[m ub'] ino2] s3 (Em & Ei & R3 & Hbytes). cbn [fst snd] in *. subst m ino2. apply run_ret. cbn [fst snd].
  assert (Ea : available ino' ub offset = length buf) by (unfold available; lia). rewrite Ea in *. split; [|eauto].
  do 2 f_equal. apply list_eq. intros j. rewrite Hbytes. destruct (decide (j < length buf)) as [Hj|Hj].
  - rewrite <- (C7 j) by lia. f_equal. lia.
  - by rewrite !lookup_ge_None_2 by lia.
Qed.
Lemma table_word_zero j : j < NINDIRECT -> table_word (replicate BSIZE 0%Z) j = Done 0%Z.
Proof.
  intros Hj. assert (HI : NINDIRECT * 4 = BSIZE) by reflexivity. unfold table_word, subslice. rewrite length_replicate.
  rewrite (proj2 (Nat.leb_le _ _)), (proj2 (Nat.leb_le _ _)) by lia. cbn [andb mbind outcome_bind].
  replace ((j + 1) * 4 - j * 4) with 4 by lia. rewrite drop_replicate, take_replicate, Nat.min_l by lia. done.
Qed.

Lemma alloc_block_spec V H O L s held :
  tx_rep s (mkView V H O L) -> clean V H L -> geometry sb V -> held_ok sb V held -> room O L 3 -> log_room L 2 -> frees sb V 1 ->
  run (alloc_block sb held) s (fun x s' => (0 <= x < sb_size sb)%Z /\ used sb V x = false /\
    exists V', allocated sb V V' x /\ tx_rep s' (mkView V' H O ({[x]} ∪ ({[bm sb x]} ∪ L)))).
Proof.
  intros R Hc Hg Hh Hr Hl (X & HX & Hfree). unfold alloc_block. eapply run_bind; [by apply (alloc_spec sb V H O L s held)|].
  intros [x|] s'.
  - intros (Hx & Hu & _ & V' & Ha & R'). exists x, s'. split; [done|]. eauto.
  - intros [Hall _]. exfalso. assert (HXe : X <> ∅) by (intros ->; rewrite size_empty in HX; lia).
    apply set_choose_L in HXe as [x Hx]. destruct (Hfree x Hx) as [Hxr Hxf]. by rewrite (Hall x Hxr) in Hxf.
Qed.

(** A block that the code may read while it allocates: in use, and not of the bitmap. *)
Definition reserved V (a : Z) : Prop :=
  (0 <= a < sb_size sb)%Z /\ used sb V a = true /\ forall b, (0 <= b < sb_size sb)%Z -> a <> bm sb b.

Lemma reserved_held V a : reserved V a -> held_ok sb V [a].
Proof. intros (H1 & H2 & H3) h ->%list_elem_of_singleton. split; [done|]. split; [lia|done]. Qed.

Lemma reserved_allocated V V' x a : geometry sb V -> used sb V x = false -> (0 <= x < sb_size sb)%Z -> allocated sb V V' x -> reserved V a ->
  reserved V' a /\ V' !! a = V !! a.
Proof.
  intros Hg Hu Hx Ha (H1 & H2 & H3). split.
  - split; [done|]. split; [|done]. rewrite (allocated_used sb V V' x a) by done. by case_decide.
  - apply (allocated_lookup sb V V' x); [done|congruence|by apply H3].
Qed.

Lemma reserved_new V V' x : geometry sb V -> used sb V x = false -> (0 <= x < sb_size sb)%Z -> allocated sb V V' x -> reserved V' x.
Proof.
  intros Hg Hu Hx Ha. split; [done|]. split; [|by apply (free_not_bm sb V)]. rewrite (allocated_used sb V V' x x) by done. by rewrite decide_True.
Qed.

Lemma clean_more V H L b : clean V H L -> clean V H ({[b]} ∪ L).
Proof. intros Hc c Hn. apply Hc. intros Hin. apply Hn. by apply elem_of_union_r. Qed.

(** One level of the lookup, where the table has no block: a block is allocated, and the
    table is logged as it was. *)
Lemma level_forgets {A} V H O L s a v i post (kont : G -> Z -> M S A) :
  tx_rep s (mkView V H O L) -> clean V H L -> geometry sb V -> reserved V a -> V !! a = Some v -> table_word v i = Done 0%Z ->
  frees sb V 1 -> room O L 4 -> log_room L 3 ->
  (forall g x s' V', let L' := {[a]} ∪ ({[x]} ∪ ({[bm sb x]} ∪ L)) in
     (0 <= x < sb_size sb)%Z -> used sb V x = false -> allocated sb V V' x -> reserved V' a -> V' !! a = V !! a -> clean V' H L' ->
     tx_rep s' (mkView V' H (open_map a g O) L') -> close_map a (open_map a g O) = O -> 
     (forall k, room O L (4 + k) -> room (open_map a g O) L' k) -> run (kont g x) s' post) ->
  run (bguard ← bread a; buffer ← lock_data [] a bguard; address ← lift (table_word buffer i);
       address ← (if (address =? 0)%Z then address ← alloc_block sb [a]; _ ← bwrite bguard; mret address else mret address);
       kont bguard address) s post.
Proof.
  intros R Hc Hg Hra Hv Hw Hfr Hr Hl Hk. eapply run_bread; [exact R|exact Hv|exact Hr|]. intros g s1 R1 Hr1 Eo.
  destruct (open_lookup a g O) as [c Hgo]. eapply run_lock; [exact R1|apply not_elem_of_nil|exact Hgo|exact Hv|].
  eapply run_lift; [exact Hw|]. rewrite Z.eqb_refl. apply run_assoc. eapply run_bind.
  { eapply (alloc_block_spec V H _ L s1 [a]); try done; [by apply reserved_held|]. by eapply log_room_le; [|exact Hl]; lia. }
  intros x s2 (Hx & Hu & V1 & Ha & R2). destruct (reserved_allocated V V1 x a Hg Hu Hx Ha Hra) as [Hra1 Ev].
  apply run_assoc. eapply run_bwrite; [exact R2|exact Hgo|by do 2 apply log_room_add|]. intros s3 R3. apply (run_step _ _ _ x s3); [done|].
  apply (Hk g x s3 V1); try done.
  - apply clean_more. by apply (allocated_clean sb V).
  - intros k Hk'. do 3 apply room_log. by apply room_open.
Qed.

(** What looking up a position in an indirect block leaves: a new block, and the table as it was. *)
Definition forgot V H O L (a x : Z) s' : Prop :=
  used sb V x = false /\ exists V' L', tx_rep s' (mkView V' H O L') /\ clean V' H L' /\ geometry sb V' /\ reserved V' a /\
    used sb V' x = true /\ V' !! a = V !! a /\ (forall k, frees sb V (2 + k) -> frees sb V' k) /\
    (forall k, room O L (6 + k) -> room O L' k) /\ (forall k, log_room L (6 + k) -> log_room L' k).

Lemma block_map_forgets V H O L s ino n a v :
  tx_rep s (mkView V H O L) -> clean V H L -> geometry sb V -> (Z.of_nat NDIRECT <= n < Z.of_nat (NDIRECT + NINDIRECT * NINDIRECT))%Z ->
  addresses ino !! NDIRECT = Some a -> a <> 0%Z -> reserved V a -> V !! a = Some v ->
  table_word v ((Z.to_nat n - NDIRECT) / NINDIRECT) = Done 0%Z -> frees sb V 2 -> room O L 8 -> log_room L 6 ->
  run (block_map sb ino n) s (fun r s' => snd r = ino /\ forgot V H O L a (fst r) s').
Proof.
  intros R Hc Hg Hn Ha Hnz Hra Hv Hw Hfr Hr Hl. unfold block_map. cbv zeta.
  assert (HI : NINDIRECT <> 0) by done. set (m := Z.to_nat n - NDIRECT) in *.
  rewrite (proj2 (Nat.ltb_ge _ _)) by lia. rewrite (proj2 (Nat.ltb_lt _ _)) by (unfold m; lia).
  eapply run_step; [done|]. eapply run_lift; [by apply index_Some|]. rewrite (proj2 (Z.eqb_neq _ _) Hnz). apply (run_step _ _ _ (a, ino) s); [done|].
  cbv iota beta. eapply level_forgets; [exact R|done|done|done|exact Hv|exact Hw|..].
  1: by eapply frees_le; [|exact Hfr]; lia. 1: by eapply room_le; [|exact Hr]; lia. 1: by eapply log_room_le; [|exact Hl]; lia.
  intros g1 x2 s1 V1 L1 Hx2 Hu2 A1 Hra1 Ev1 Hc1 R1 Eo1 Hr1. pose proof (allocated_geometry sb V V1 x2 Hg Hu2 A1) as Hg1.
  pose proof (Hr1 4 Hr) as Hr1'.
  eapply level_forgets; [exact R1|done|done|by apply (reserved_new V)|by apply (allocated_zero sb V)|..]; [| |exact Hr1'| |].
  { apply table_word_zero. pose proof (Nat.div_mod_eq m NINDIRECT). pose proof (Nat.mod_upper_bound m NINDIRECT HI). lia. }
  { by apply (frees_allocated sb V V1 x2). }
  { unfold L1. do 3 apply log_room_add. exact Hl. }
  intros g2 x3 s2 V2 L2 Hx3 Hu3 A2 Hra2 Ev2 Hc2 R2 Eo2 Hr2.
  assert (Hu3' : used sb V x3 = false).
  { rewrite (allocated_used sb V V1 x2 x3 Hg Hu2 A1 Hx3) in Hu3. by case_decide. }
  destruct (reserved_allocated V1 V2 x3 a Hg1 Hu3 Hx3 A2 Hra1) as [Hra' Ev']. destruct (reserved_new V1 V2 x3 Hg1 Hu3 Hx3 A2) as (_ & Hux3 & _).
  destruct (open_lookup x2 g2 (open_map a g1 O)) as [c2 Ho2]. destruct (open_lookup a g1 O) as [c1 Ho1].
  eapply run_brelse; [exact R2|exact Ho2|left; apply in_logged|]. intros s3 R3. rewrite Eo2 in R3.
  eapply run_brelse; [exact R3|exact Ho1|left; do 3 apply elem_of_union_r; apply in_logged|].
  intros s4 R4. rewrite Eo1 in R4. apply run_ret. cbn [fst snd]. split; [done|]. split; [done|].
  exists V2, L2. split_and!; [done|done|by apply (allocated_geometry sb V1 V2 x3)|done|done|congruence|..].
  - intros k Hk. by apply (frees_allocated sb V1 V2 x3), (frees_allocated sb V V1 x2).
  - intros k Hk. unfold L2, L1. do 6 apply room_log. done.
  - intros k Hk. unfold L2, L1. do 6 apply log_room_add. done.
Qed.

(** C40: files do not grow past their direct blocks.  Looking up the same position behind
    them twice gives two different blocks: the blocks that [block_map] allocates for
    the tables are never stored in the tables, so that what is written there is lost. *)
Theorem indirect_block_forgotten V H O L s ino n a :
  tx_rep s (mkView V H O L) -> clean V H L -> geometry sb V -> (Z.of_nat NDIRECT <= n < Z.of_nat (NDIRECT + NINDIRECT * NINDIRECT))%Z ->
  addresses ino !! NDIRECT = Some a -> a <> 0%Z -> reserved V a -> V !! a = Some (replicate BSIZE 0%Z) ->
  frees sb V 4 -> room O L 14 -> log_room L 12 ->
  run (r ← block_map sb ino n; r' ← block_map sb (snd r) n; mret (fst r, fst r')) s (fun r _ => fst r <> snd r).
Proof.
  intros R Hc Hg Hn Ha Hnz Hra Hv Hfr Hr Hl.
  assert (Hw : table_word (replicate BSIZE 0%Z) ((Z.to_nat n - NDIRECT) / NINDIRECT) = Done 0%Z).
  { apply table_word_zero. apply Nat.Div0.div_lt_upper_bound. lia. }
  eapply run_bind; [eapply (block_map_forgets V H O L s ino n a); try eassumption|].
  { by eapply frees_le; [|exact Hfr]; lia. } { by eapply room_le; [|exact Hr]; lia. } { by eapply log_room_le; [|exact Hl]; lia. }
  intros [x ino'] s1 (Ei & _ & V1 & L1 & R1 & Hc1 & Hg1 & Hra1 & Hx & Ev & Hf1 & Hr1 & Hl1). cbn [fst snd] in *. subst ino'.
  eapply run_bind; [eapply (block_map_forgets V1 H O L1 s1 ino n a); try eassumption|].
  { rewrite Ev. exact Hv. } { apply Hf1. exact Hfr. } { apply Hr1. exact Hr. } { apply Hl1. exact Hl. }
  intros [x' ino'] s2 (_ & Hx' & _). apply run_ret. cbn [fst snd] in *. congruence.
Qed.
End Theorems.

Section Atomic.
Context `{HP : Profile} `{HB : ByteOrder} `{HB16 : ByteOrder16} {D : Type} `{!BDev D}.
Context (d : Z) (Hd : d <> 0%Z) (dk : Traced D) (l0 : LogInternal) (Ho : outstanding l0 = 1%Z) (sb : SuperBlock).

#[local] Instance last_op : TxBlocks (fsst (Traced D)) BufferGuard :=
  fs_TxBlocks d Hd dk l0 (Z.eq_le_incl _ _ (eq_sym Ho)).

(** C4: a write to a file is atomic.  In the last operation of a transaction that
    started on an empty log, [write] and the [end_op] that commits it return; whenever the machine
    stops on the way, between any two block writes, recovery finds the disk, outside the
    log, either as it was before the write or with all of the write done: data blocks,
    bitmap and inode.  In the end the write is on the disk. *)
Theorem file_write_atomic (s : fsst (Traced D)) H inum ino buf offset k :
  fs_rep d dk l0 s (mkView H H ∅ ∅) -> log_area d l0 H -> committing l0 = false ->
  writable (G := BufferGuard) sb H ∅ ∅ inum ino buf offset k ->
  (forall b, in_log (start l0) b -> untouched sb H ino b /\ forall i, (0 <= i < ninodes sb)%Z -> b <> iblock sb i) ->
  exists ino' V' L' s1 s2 new, write (TxBlocks0 := last_op) sb inum ino buf offset s = Done ((length buf, ino'), s1) /\ end_op s1 = Done (tt, s2) /\
    wrote sb H H ∅ inum ino V' L' ino' buf offset k /\ hist s2 = new ++ (blocks <$> tr_hist dk) /\
    Forall (fun m => same_home (start l0) (recovered (start l0) m) H \/ same_home (start l0) (recovered (start l0) m) V') new /\
    same_home (start l0) (blocks (bdev (bcache s2))) V' /\ n (logheader (log s2)) = 0%Z.
Proof.
  intros R HA Hcm Hw Hlog. destruct (writable_write (TxBlocks0 := last_op) sb H H ∅ ∅ s inum ino buf offset k R) as ([m ino'] & s1 & E & Em & V' & L' & R' & Hr & W); [done..|].
  cbn [fst snd] in *. subst m. destruct (wr_log _ _ _ _ _ _ _ _ _ _ _ _ W) as (X & EL & HX & HXu). rewrite (right_id_L ∅ (∪)) in EL. subst X.
  destruct (end_op_atomic d Hd dk l0 s1 V' H L' R') as (s2 & new & E2 & P); try done.
  - apply W.
  - destruct Hr as [Hr _]. rewrite dom_empty_L, (left_id_L ∅ (∪)) in Hr. lia.
  - intros b Hb Hin. destruct (Hlog b Hin) as [U Hi]. apply (HXu b U); [|done]. apply Hi, Hw.
  - exists ino', V', L', s1, s2, new. done.
Qed.
End Atomic.

(** ** Instances *)

#[export] Instance LittleEndian16 : ByteOrder16.
Proof.
  refine {| read_u16 l := match l with a :: b :: _ => a + 256 * b | _ => 0 end%Z;
            write_u16 x := [x mod 256; x / 256 mod 256]%Z;
            read_i16 l := (let v := match l with a :: b :: _ => a + 256 * b | _ => 0 end in if v <? 2 ^ 15 then v else v - 2 ^ 16)%Z;
            write_i16 x := [x mod 256; x / 256 mod 256]%Z |}; try done.
  - intros x Hx. unfold in_width in Hx. pose proof (Z.div_mod x 256 ltac:(done)). assert (x / 256 < 256)%Z by (apply Z.div_lt_upper_bound; lia).
    rewrite (Z.mod_small (x / 256)); [lia|]. split; [apply Z.div_pos; lia|done].
  - intros x Hx. pose proof (Z.div_mod x 256 ltac:(done)) as E. pose proof (Z.mod_pos_bound x 256 ltac:(done)).
    assert (Hq : (-128 <= x / 256 < 128)%Z) by (split; [apply Z.div_le_lower_bound; lia|apply Z.div_lt_upper_bound; lia]).
    cbv zeta. destruct (decide (0 <= x)%Z) as [Hpos|Hneg].
    + rewrite (Z.mod_small (x / 256)) by (split; [apply Z.div_pos; lia|lia]). destruct (Z.ltb_spec (x mod 256 + 256 * (x / 256)) (2 ^ 15)); lia.
    + replace ((x / 256) mod 256)%Z with (x / 256 + 256)%Z by (rewrite <- (Z.mod_add (x / 256) 1 256), Z.mod_small by lia; lia).
      destruct (Z.ltb_spec (x mod 256 + 256 * (x / 256 + 256)) (2 ^ 15)); lia.
Defined.

(** A disk of forty blocks: the log at 2 to 32, the inode table at 33, the bitmap at 34,
    and free blocks from 35 on. *)
Definition small_sb : SuperBlock := mkSB 40 5 10 30 2 33 34.
Definition small_bitmap : block := [255; 255; 255; 255; 7]%Z ++ replicate (BSIZE - 5) 0%Z.
Definition small_disk : MemBDev := mkMem (replicate (34 * BSIZE) 0%Z ++ small_bitmap ++ replicate (5 * BSIZE) 0%Z).
Definition small_log : LogInternal := mkLog 2 30 1 false 1 header0.
Definition small_state : fsst (Traced MemBDev) := mkFS (mkBCache BufferCacheInternal_new (mkTr small_disk [])) small_log.
Definition small_file : INodeData := mkINode File 0 0 1 0 (replicate 13 0%Z).

Lemma small_lookup b : (0 <= b < 40)%Z ->
  blocks small_disk !! b = Some (if decide (b = 34%Z) then small_bitmap else replicate BSIZE 0%Z).
Proof.
  intros Hb. cbn [blocks MemBDev_BDev]. apply mem_blocks_lookup. exists (Z.to_nat b).
  assert (Hl : length small_bitmap = BSIZE) by (unfold small_bitmap; rewrite length_app, length_replicate; cbn [length]; unfold BSIZE; lia).
  unfold small_disk, mem_block. cbn [memdisk]. rewrite !length_app, !length_replicate, Hl.
  split_and!; [lia| |unfold BSIZE; lia|lia]. destruct (decide (b = 34%Z)) as [->|Hne].
  - rewrite drop_app_length' by (rewrite length_replicate; unfold BSIZE; lia). rewrite take_app_length'; [done|lia].
  - destruct (decide (b < 34)%Z).
    + rewrite drop_app_le by (rewrite length_replicate; unfold BSIZE; lia). rewrite drop_replicate.
      rewrite take_app_le by (rewrite length_replicate; unfold BSIZE; lia). rewrite take_replicate. f_equal. unfold BSIZE. lia.
    + rewrite (app_assoc (replicate _ _)). rewrite drop_app_ge by (rewrite length_app, length_replicate, Hl; unfold BSIZE; lia).
      rewrite drop_replicate, take_replicate. f_equal. rewrite length_app, length_replicate, Hl. unfold BSIZE. lia.
Qed.

Lemma small_bm b : (0 <= b < 40)%Z -> bm small_sb b = 34%Z.
Proof. intros Hb. unfold bm. rewrite Z.div_small; [done|]. unfold BPB, BSIZE. lia. Qed.

Lemma small_used b : (0 <= b < 40)%Z -> used small_sb (blocks small_disk) b = (b <? 35)%Z.
Proof.
  intros Hb. unfold used. rewrite small_bm, small_lookup by lia. rewrite decide_True by done.
  assert (E : bit_index b = Z.to_nat b) by (unfold bit_index; rewrite Z.mod_small; [done|unfold BPB, BSIZE; lia]). rewrite E.
  assert (Hall : forallb (fun i => eqb (bit small_bitmap i) (i <? 35)) (seq 0 40) = true) by (vm_compute; reflexivity).
  apply forallb_forall with (x := Z.to_nat b) in Hall; [|apply in_seq; lia]. apply eqb_prop in Hall. rewrite Hall.
  destruct (Nat.ltb_spec (Z.to_nat b) 35), (Z.ltb_spec b 35); lia.
Qed.

Lemma small_iblock i : (0 <= i < 10)%Z -> iblock small_sb i = 33%Z.
Proof. intros Hi. unfold iblock. rewrite Z.div_small; [done|]. change (Z.of_nat IPB) with 64%Z. lia. Qed.

Lemma small_fs_ok : fs_ok small_sb (blocks small_disk).
Proof.
  split; cbn [small_sb sb_size ninodes inodestart].
  - split; cbn [small_sb sb_size bmapstart]; try lia.
    + intros b Hb. rewrite small_lookup by done. eexists. split; [done|]. case_decide; [|apply length_replicate].
      unfold small_bitmap. rewrite length_app, length_replicate. cbn [length]. unfold BSIZE. lia.
    + intros b Hb. rewrite small_bm by done. split; [lia|]. by rewrite small_used.
  - by rewrite small_used.
  - lia.
  - intros i Hi. rewrite small_iblock by done. split; [lia|]. split; [by rewrite small_used|]. intros b Hb. by rewrite small_bm.
Qed.

Lemma small_file_ok : file_ok small_sb (blocks small_disk) small_file.
Proof.
  assert (Hz : forall i a, addresses small_file !! i = Some a -> a = 0%Z).
  { intros i a Hia. cbn [small_file addresses] in Hia. by apply lookup_replicate in Hia as [-> _]. }
  split; cbn [small_file isize].
  - reflexivity.
  - intros i a _ Hia Hne. by apply Hz in Hia.
  - intros i j a _ _ Hia _ Hne. by apply Hz in Hia.
  - intros i _ Hi. pose proof B_pos. lia.
  - pose proof B_pos. lia.
Qed.

Lemma small_writable : writable (G := BufferGuard) small_sb (blocks small_disk) ∅ ∅ 1 small_file [1; 2; 3]%Z 0 1.
Proof.
  split; cbn [small_sb ninodes small_file isize]; try lia.
  - apply small_fs_ok.
  - apply small_file_ok.
  - split; cbn; try lia; try (unfold in_width; lia). repeat constructor; unfold in_width; lia.
  - cbn. lia.
  - cbn [length]. unfold NDIRECT, BSIZE. lia.
  - rewrite Z.mod_0_l by done. cbn [length]. unfold BSIZE. lia.
  - exists {[35%Z]}. rewrite size_singleton. split; [done|]. intros x ->%elem_of_singleton. split; [cbn; lia|]. by rewrite small_used.
  - split; [|intros b g c Hb; by rewrite lookup_empty in Hb]. rewrite dom_empty_L, (left_id_L ∅ (∪)), size_empty. unfold NBUF. lia.
  - unfold log_room. rewrite size_empty. unfold LOGSIZE, MAXOPBLOCKS. lia.
Qed.

Lemma traced_blocks {D} `{!BDev D} (dk : D) h : blocks (mkTr dk h) = blocks dk.
Proof. reflexivity. Qed.

Lemma small_rep : fs_rep 1 (mkTr small_disk []) small_log small_state (mkView (blocks small_disk) (blocks small_disk) ∅ ∅).
Proof.
  split; cbn [v_home v_log]; [|reflexivity|exact (traced_blocks small_disk [])|].
  - exists ∅. split; [apply new_rep|]. intros b. rewrite lookup_empty. cbn [use_ok v_blocks v_home v_open v_log].
    split_and!; [reflexivity|reflexivity|apply not_elem_of_empty].
  - split; cbn [v_log]; rewrite ?size_empty; try done; [apply NoDup_nil_2|]. apply Forall_replicate. by unfold in_width.
Qed.

Lemma small_log_area : log_area 1 small_log (blocks small_disk).
Proof.
  split; [done|done| |].
  - exists header0. split; [|done]. unfold header_of. cbn [small_log start]. rewrite small_lookup by lia. cbn [mbind option_bind decide].
    rewrite decide_False by done. by vm_compute.
  - intros b Hb. unfold in_log in Hb. cbn in Hb. rewrite small_lookup by lia. eauto.
Qed.

Definition small_tx : TxBlocks (fsst (Traced MemBDev)) BufferGuard :=
  fs_TxBlocks (H := true) (D := Traced MemBDev) 1 ltac:(discriminate) (mkTr small_disk []) small_log ltac:(discriminate).

Lemma file_write_read_witness :
  exists r s', (r ← write (TxBlocks0 := small_tx) (HP := true) small_sb 1 small_file [1; 2; 3]%Z 0;
      ino' ← load (TxBlocks0 := small_tx) (HP := true) small_sb 1;
      q ← read (TxBlocks0 := small_tx) (HP := true) small_sb ino' [0; 0; 0]%Z 0; mret (fst r, fst q, ino')) small_state = Done (r, s') /\
    fst r = (3, (3%Z, [1; 2; 3]%Z)).
Proof.
  destruct (file_write_read (TxBlocks0 := small_tx) (HP := true) small_sb (blocks small_disk) (blocks small_disk) ∅ ∅ small_state 1 small_file
    [1; 2; 3]%Z [0; 0; 0]%Z 0 1) as (r & s' & E & Er & _).
  - exact small_rep.
  - intros b _. reflexivity.
  - exact small_writable.
  - discriminate.
  - reflexivity.
  - exists r, s'. exact (conj E Er).
Defined.

Lemma file_write_atomic_witness :
  exists ino' s1 s2, write (TxBlocks0 := last_op (HP := true) 1 ltac:(discriminate) (mkTr small_disk []) small_log eq_refl) (HP := true)
      small_sb 1 small_file [1; 2; 3]%Z 0 small_state = Done ((3, ino'), s1) /\
    end_op (H := true) s1 = Done (tt, s2) /\ n (logheader (log s2)) = 0%Z.
Proof.
  destruct (file_write_atomic (HP := true) 1 ltac:(discriminate) (mkTr small_disk []) small_log eq_refl small_sb small_state (blocks small_disk)
    1 small_file [1; 2; 3]%Z 0 1) as (ino' & V' & L' & s1 & s2 & new & E1 & E2 & _ & _ & _ & _ & En).
  - exact small_rep.
  - exact small_log_area.
  - reflexivity.
  - exact small_writable.
  - intros b Hb. unfold in_log in Hb. cbn [small_log start] in Hb. unfold LOGSIZE, MAXOPBLOCKS in Hb.
    assert (Hr : (0 < b < 33)%Z) by lia. split.
    + split; [cbn [small_sb sb_size]; lia|]. split; [rewrite small_used by lia; apply Z.ltb_lt; lia|]. split.
      * intros c Hc. rewrite small_bm by exact Hc. lia.
      * intros i Hi Hib. cbn [small_file addresses] in Hib. apply lookup_replicate in Hib as [-> _]. lia.
    + intros i Hi. rewrite small_iblock by exact Hi. lia.
  - exists ino', s1, s2. exact (conj E1 (conj E2 En)).
Defined.

Lemma small_frees k : k <= 5 -> frees small_sb (blocks small_disk) k.
Proof.
  intros Hk. exists (list_to_set [35; 36; 37; 38; 39]%Z). split.
  - rewrite size_list_to_set by (apply NoDup_ListNoDup; repeat constructor; set_solver). cbn [length]. exact Hk.
  - intros x Hx%elem_of_list_to_set. assert (Hr : (35 <= x < 40)%Z) by (apply list_elem_of_In in Hx; cbn in Hx; lia).
    split; [cbn; lia|]. rewrite small_used by lia. apply Z.ltb_ge. lia.
Qed.

Lemma small_room k : k <= 30 -> room (G := BufferGuard) ∅ ∅ k /\ log_room ∅ k.
Proof.
  intros Hk. split; [split; [|intros b g c Hb; by rewrite lookup_empty in Hb]|].
  - rewrite dom_empty_L, (left_id_L ∅ (∪)), size_empty. unfold NBUF. lia.
  - unfold log_room. rewrite size_empty. unfold LOGSIZE, MAXOPBLOCKS. lia.
Qed.

Definition small_big_file : INodeData := mkINode File 0 0 1 0 (replicate 12 0%Z ++ [1%Z]).

Lemma indirect_block_forgotten_witness :
  exists r s', (r ← block_map (TxBlocks0 := small_tx) (HP := true) small_sb small_big_file 12;
      r' ← block_map (TxBlocks0 := small_tx) (HP := true) small_sb (snd r) 12; mret (fst r, fst r')) small_state = Done (r, s') /\ fst r <> snd r.
Proof.
  destruct (indirect_block_forgotten (TxBlocks0 := small_tx) (HP := true) small_sb (blocks small_disk) (blocks small_disk) ∅ ∅ small_state small_big_file
    12 1) as (r & s' & E & Er).
  - exact small_rep.
  - intros b _. reflexivity.
  - apply small_fs_ok.
  - unfold NDIRECT. split; [reflexivity|]. apply Z.ltb_lt. vm_compute. reflexivity.
  - reflexivity.
  - discriminate.
  - split; [split; [discriminate|reflexivity]|]. split; [rewrite small_used by lia; reflexivity|]. intros b Hb. rewrite small_bm by exact Hb. discriminate.
  - rewrite small_lookup by lia. rewrite decide_False by discriminate. reflexivity.
  - apply small_frees. lia.
  - apply small_room. lia.
  - apply (small_room 12). lia.
  - exists r, s'. exact (conj E Er).
Defined.
