(* ===== verification/Directory.v ===== *)
(** * Directories of the xv6 file system
    (the directory operations of domains/usr/xv6/kernel/fs/src/icache/inode.rs)

    A directory is a file of entries of sixteen bytes, a number and a name.  The
    operations of Inode.v on such a file are compared with functions on the list of its
    entries. *)

From Stdlib Require Import ZArith Lia.
From stdpp Require Import base gmap list.
From stdpp Require Import options.
From S2P Require Import Prelude BCache Log Utf8 Tx Block Inode FileSystem.

Set Default Proof Using "Type".

Abbreviation dirent := (Z * list Z)%type.

(** [dirlookup] on the list of entries. *)
Fixpoint lookup_entries (es : list dirent) (offset : Z) (name : list Z) : outcome (option (Z * Z)) :=
  match es with
  | [] => Done None
  | (inum, nm) :: es =>
      if (inum =? 0)%Z then lookup_entries es (offset + Z.of_nat SIZE_OF_DIRENT) name
      else str ← expect (cstr_to_string nm);
        if decide (str = name) then Done (Some (offset, inum)) else lookup_entries es (offset + Z.of_nat SIZE_OF_DIRENT) name
  end.

(** The first empty entry. *)
Fixpoint free_index (es : list dirent) : option nat :=
  match es with [] => None | (inum, _) :: es => if (inum =? 0)%Z then Some 0 else S <$> free_index es end.

(** The entries after linking [e]: without an empty entry, the first one is replaced. *)
Definition linked (e : dirent) (es : list dirent) : list dirent :=
  match es with [] => [e] | _ => <[default 0 (free_index es) := e]> es end.

Definition padded (name : list Z) : list Z := name ++ replicate (DIRSIZ - length name) 0%Z.

Lemma free_index_lt (es : list dirent) i : free_index es = Some i -> i < length es.
Proof.
  revert i. induction es as [|[inum nm] es IH]; intros i; cbn [free_index length]; [done|].
  destruct (inum =? 0)%Z; [intros [= <-]; lia|]. destruct (free_index es) as [j|]; cbn; [|done]. intros [= <-]. specialize (IH j eq_refl). lia.
Qed.

Definition slot (es : list dirent) : nat := default 0 (free_index es).

Lemma linked_lookup e es i e' : linked e es !! i = Some e' -> (i = slot es /\ e' = e) \/ (i <> slot es /\ es !! i = Some e').
Proof.
  unfold linked, slot. destruct es as [|e0 es0] eqn:Ee.
  - destruct i; cbn; [intros [= <-]; by left|done].
  - destruct (decide (i = default 0 (free_index (e0 :: es0)))) as [->|Hne].
    + rewrite list_lookup_insert_eq; [intros [= <-]; by left|]. destruct (free_index _) as [j|] eqn:Ej; cbn [default]; [by apply free_index_lt|cbn; lia].
    + rewrite list_lookup_insert_ne by done. by right.
Qed.

Lemma linked_length e es : length (linked e es) = Nat.max (slot es + 1) (length es).
Proof.
  unfold linked, slot. destruct es as [|e0 es0]; [done|]. rewrite length_insert.
  destruct (free_index _) as [j|] eqn:Ej; cbn [default id]; [apply free_index_lt in Ej; lia|cbn [length]; lia].
Qed.

Lemma slot_bound es : slot es < length es + 1.
Proof. unfold slot. destruct (free_index es) as [i|] eqn:E; cbn [default id]; [apply free_index_lt in E; lia|lia]. Qed.

(** ** Names *)

Lemma till_null_app l k : 0%Z ∉ l -> till_null (l ++ replicate k 0%Z) = l.
Proof.
  induction l as [|c l IH]; intros Hn; cbn [app till_null].
  - by destruct k.
  - apply not_elem_of_cons in Hn as [Hc Hn]. destruct (Z.eqb_spec c 0); [congruence|]. by rewrite IH.
Qed.

(** A name that an entry can hold. *)
Definition name_ok (name : list Z) : Prop := length name <= DIRSIZ /\ (0%Z ∉ name) /\ utf8 name = true.

Lemma padded_string name : name_ok name -> cstr_to_string (padded name) = Some name.
Proof. intros (_ & Hn & Hu). unfold cstr_to_string, padded. by rewrite till_null_app, Hu. Qed.

Lemma lookup_entries_app name pre : forall rest off, lookup_entries pre off name = Done None ->
  lookup_entries (pre ++ rest) off name = lookup_entries rest (off + 16 * Z.of_nat (length pre)) name.
Proof.
  induction pre as [|[inum nm] pre IH]; intros rest off; cbn [lookup_entries app length].
  { intros _. f_equal. lia. }
  assert (Hoff : forall o, (o + Z.of_nat SIZE_OF_DIRENT + 16 * Z.of_nat (length pre) = o + 16 * Z.of_nat (S (length pre)))%Z)
    by (intros; unfold SIZE_OF_DIRENT; lia).
  destruct (inum =? 0)%Z; [intros H; rewrite (IH _ _ H); by rewrite Hoff|].
  destruct (cstr_to_string nm) as [str|]; cbn [expect mbind outcome_bind]; [|done].
  destruct (decide (str = name)); [done|]. intros H. rewrite (IH _ _ H). by rewrite Hoff.
Qed.

Lemma lookup_entries_prefix name pre : forall rest off, lookup_entries (pre ++ rest) off name = Done None ->
  lookup_entries pre off name = Done None.
Proof.
  induction pre as [|[inum nm] pre IH]; intros rest off; cbn [lookup_entries app]; [done|].
  destruct (inum =? 0)%Z; [apply IH|]. destruct (cstr_to_string nm) as [str|]; cbn [expect mbind outcome_bind]; [|done].
  destruct (decide (str = name)); [done|apply IH].
Qed.

(** The entry that is linked is the one that is found, and where it is put in an empty
    slot the other names are found as before. *)
Lemma lookup_linked name inum es : name_ok name -> inum <> 0%Z -> lookup_entries es 0 name = Done None ->
  lookup_entries (linked (inum, padded name) es) 0 name = Done (Some ((16 * Z.of_nat (slot es))%Z, inum)).
Proof.
  intros Hn Hi Hnone. pose proof (padded_string name Hn) as Hp.
  assert (Hhd : forall rest off, lookup_entries ((inum, padded name) :: rest) off name = Done (Some (off, inum))).
  { intros rest off. cbn [lookup_entries]. destruct (Z.eqb_spec inum 0); [done|]. rewrite Hp. cbn [expect mbind outcome_bind].
    by rewrite decide_True. }
  unfold linked. pose proof (slot_bound es) as Hs. fold (slot es). destruct es as [|e es]; [apply Hhd|].
  assert (Hlt : slot (e :: es) < length (e :: es)).
  { unfold slot in *. destruct (free_index (e :: es)) as [i|] eqn:E; cbn [default id]; [by apply free_index_lt|cbn; lia]. }
  rewrite (insert_take_drop _ _ _ Hlt). rewrite lookup_entries_app.
  - rewrite Hhd, length_take_le by lia. done.
  - apply (lookup_entries_prefix name _ (drop (slot (e :: es)) (e :: es))). by rewrite take_drop.
Qed.

Section Directory.
Context `{HP : Profile} `{HB : ByteOrder} `{HB16 : ByteOrder16} {S G : Type} `{!TxBlocks S G} (sb : SuperBlock).
Implicit Types (V H : gmap Z block) (O : gmap Z (G * nat)) (L : gset Z) (s : S) (ino : INodeData) (es : list dirent).

(** The file [ino] holds the entries [es]. *)
Record directory V ino es : Prop := mkDirectory {
  dr_type : file_type ino = Directory;
  dr_size : isize ino = (16 * Z.of_nat (length es))%Z;
  dr_entry : forall i inum nm, es !! i = Some (inum, nm) -> in_width 16 inum /\ length nm = DIRSIZ /\
    forall j, j < 16 -> fbyte V ino (16 * Z.of_nat i + Z.of_nat j) = (write_u16 inum ++ nm) !! j }.

Lemma dirent_length inum nm : length nm = DIRSIZ -> length (write_u16 inum ++ nm) = 16.
Proof. intros Hl. by rewrite length_app, write_u16_length, Hl. Qed.

Section Reading.
Context V H O L ino es (Hc : clean V H L) (Hok : fs_ok sb V) (Hf : file_ok sb V ino) (Hr : room O L 1) (Hdir : directory V ino es).

Lemma read_dirent_spec s i inum nm : tx_rep s (mkView V H O L) -> es !! i = Some (inum, nm) ->
  run (read_dirent sb ino (16 * Z.of_nat i)) s (fun r s' => r = (inum, nm, ino) /\ tx_rep s' (mkView V H O L)).
Proof using Hc Hok Hf Hr Hdir.
  intros R Hi. destruct (dr_entry _ _ _ Hdir i inum nm Hi) as (Hw & Hl & Hb). apply lookup_lt_Some in Hi.
  pose proof (dr_size _ _ _ Hdir) as Hs. pose proof (f_size _ _ _ Hf) as Hfs.
  unfold read_dirent. eapply run_bind.
  { eapply (file_read_spec sb V H O L s ino); try done; [lia|]. rewrite length_replicate. unfold SIZE_OF_DIRENT, NDIRECT, BSIZE in *. lia. }
  intros [[m buf] ino'] s' (_ & Ei & R' & Hbuf). cbn [fst snd] in *. subst ino'.
  assert (Ea : available ino (replicate SIZE_OF_DIRENT 0%Z) (16 * Z.of_nat i) = 16) by (unfold available; rewrite length_replicate; unfold SIZE_OF_DIRENT; lia).
  assert (Eb : buf = write_u16 inum ++ nm).
  { apply list_eq. intros j. rewrite Hbuf, Ea. destruct (decide (j < 16)) as [Hj|Hj]; [by apply Hb|].
    rewrite !lookup_ge_None_2; [done|rewrite dirent_length by done; lia|rewrite length_replicate; unfold SIZE_OF_DIRENT; lia]. }
  rewrite Eb. eapply run_lift.
  { unfold dirent_from_bytes. rewrite subslice_front by (by rewrite write_u16_length). cbn [mbind outcome_bind].
    pose proof (subslice_app (write_u16 inum) nm [] 2 (2 + DIRSIZ)) as E. rewrite app_nil_r in E.
    rewrite E by (rewrite ?write_u16_length, ?Hl; done). cbn [mbind outcome_bind]. done. }
  apply run_ret. cbn [fst snd]. by rewrite read_write_u16.
Qed.

Lemma dirents_length : dirents ino = length es.
Proof using Hdir. unfold dirents, SIZE_OF_DIRENT. rewrite (dr_size _ _ _ Hdir). replace (Z.to_nat _ + 16 - 1) with (length es * 16 + 15) by lia. by rewrite Nat.div_add_l by done. Qed.

Lemma dirlookup_loop_spec name r rest : forall pre s, tx_rep s (mkView V H O L) -> es = pre ++ rest ->
  lookup_entries rest (16 * Z.of_nat (length pre)) name = Done r ->
  run (dirlookup_loop sb (length rest) ino (16 * Z.of_nat (length pre)) name) s (fun q s' => q = (r, ino) /\ tx_rep s' (mkView V H O L)).
Proof using Hc Hok Hf Hr Hdir.
  induction rest as [|[inum nm] rest IH]; intros pre s R Ees; cbn [lookup_entries length dirlookup_loop].
  { intros [= <-]. by apply run_ret. }
  intros Hlk. eapply run_bind; [eapply (read_dirent_spec s (length pre) inum nm R); rewrite Ees; by apply list_lookup_middle|].
  intros ? s1 [-> R1].
  assert (IH' : lookup_entries rest (16 * Z.of_nat (length pre) + Z.of_nat SIZE_OF_DIRENT) name = Done r ->
    run (dirlookup_loop sb (length rest) ino (16 * Z.of_nat (length pre) + Z.of_nat SIZE_OF_DIRENT) name) s1 (fun q s' => q = (r, ino) /\ tx_rep s' (mkView V H O L))).
  { replace (16 * Z.of_nat (length pre) + Z.of_nat SIZE_OF_DIRENT)%Z with (16 * Z.of_nat (length (pre ++ [(inum, nm)])))%Z
      by (rewrite length_app; cbn [length]; unfold SIZE_OF_DIRENT; lia). apply IH; [done|]. by rewrite <- app_assoc. }
  destruct (inum =? 0)%Z; [by apply IH'|]. destruct (cstr_to_string nm) as [str|]; cbn [expect mbind outcome_bind] in Hlk; [|done].
  eapply run_lift; [done|]. destruct (decide (str = name)); [|by apply IH']. injection Hlk as <-. by apply run_ret.
Qed.

Lemma dirlookup_spec s name r : tx_rep s (mkView V H O L) -> lookup_entries es 0 name = Done r ->
  run (dirlookup sb ino name) s (fun q s' => q = (r, ino) /\ tx_rep s' (mkView V H O L)).
Proof using Hc Hok Hf Hr Hdir.
  intros R Hlk. unfold dirlookup. rewrite bool_decide_eq_true_2 by apply Hdir. eapply run_step; [done|].
  rewrite dirents_length. by apply (dirlookup_loop_spec name r es []).
Qed.

Lemma empty_offset_loop rest : forall pre s, tx_rep s (mkView V H O L) -> es = pre ++ rest ->
  run (empty_offset sb (length rest) ino (16 * Z.of_nat (length pre))) s (fun q s' =>
    q = ((match free_index rest with Some i => 16 * Z.of_nat (length pre + i) | None => 0 end)%Z, ino) /\ tx_rep s' (mkView V H O L)).
Proof using Hc Hok Hf Hr Hdir.
  induction rest as [|[inum nm] rest IH]; intros pre s R Ees; cbn [free_index length empty_offset].
  { by apply run_ret. }
  eapply run_bind; [eapply (read_dirent_spec s (length pre) inum nm R); rewrite Ees; by apply list_lookup_middle|].
  intros ? s1 [-> R1]. destruct (inum =? 0)%Z; [apply run_ret; by rewrite Nat.add_0_r|].
  replace (16 * Z.of_nat (length pre) + Z.of_nat SIZE_OF_DIRENT)%Z with (16 * Z.of_nat (length (pre ++ [(inum, nm)])))%Z
      by (rewrite length_app; cbn [length]; unfold SIZE_OF_DIRENT; lia).
  eapply run_mono; [apply IH; [done|by rewrite <- app_assoc]|]. intros ? s2 [-> R2]. split; [|done]. f_equal.
  destruct (free_index rest) as [i|]; cbn [fmap option_fmap option_map]; [|done]. rewrite length_app. cbn [length]. lia.
Qed.
End Reading.

(** The entries after the bytes of [e] are written to a slot. *)
Lemma linked_directory H V L self ino V' L' ino' inum nm es k :
  directory V ino es -> in_width 16 inum -> length nm = DIRSIZ ->
  wrote sb H V L self ino V' L' ino' (write_u16 inum ++ nm) (16 * Z.of_nat (slot es)) k ->
  directory V' ino' (linked (inum, nm) es).
Proof.
  intros [D1 D2 D3] Hw Hl W. pose proof (dirent_length inum nm Hl) as Hel.
  destruct (wr_meta _ _ _ _ _ _ _ _ _ _ _ _ W) as [Ht _]. pose proof (wr_size _ _ _ _ _ _ _ _ _ _ _ _ W) as Hs.
  destruct (wr_bytes _ _ _ _ _ _ _ _ _ _ _ _ W) as [B1 B2]. rewrite Hel in *. split.
  - congruence.
  - rewrite Hs, D2, linked_length. lia.
  - intros i inum' nm' [[-> [= -> ->]]|[Hne Hi]]%linked_lookup.
    + split; [done|]. split; [done|]. intros j Hj. rewrite <- (B1 j) by lia. f_equal. lia.
    + destruct (D3 i inum' nm' Hi) as (E1 & E2 & E3). split; [done|]. split; [done|]. intros j Hj. rewrite <- (E3 j Hj).
      apply B2; [lia| |lia]. rewrite E3 by done. apply lookup_lt_is_Some_2. by rewrite dirent_length.
Qed.

(** The directory can take an entry. *)
Record linkable V O L (self : Z) ino es : Prop := mkLinkable {
  li_fs : fs_ok sb V;
  li_file : file_ok sb V ino;
  li_wf : inode_wf ino;
  li_dir : directory V ino es;
  li_self : (0 <= self < ninodes sb)%Z;
  li_size : (16 * Z.of_nat (length es + 1) <= Z.of_nat NDIRECT * B)%Z;
  li_free : frees sb V 1;
  li_room : room O L 5;
  li_log : log_room L 3 }.

Lemma slot_fits i : ((16 * Z.of_nat i) mod B + 16 <= 1 * B)%Z.
Proof.
  change B with (16 * 256)%Z. rewrite Z.mul_mod_distr_l by done. pose proof (Z.mod_pos_bound (Z.of_nat i) 256 ltac:(done)). lia.
Qed.

Lemma dirlink_spec V H O L s self ino es name inum :
  tx_rep s (mkView V H O L) -> clean V H L -> linkable V O L self ino es -> in_width 16 inum -> length name <= DIRSIZ ->
  run (dirlink_entry sb self ino name inum) s (fun ino' s' => exists V' L', tx_rep s' (mkView V' H O L') /\
    wrote sb H V L self ino V' L' ino' (write_u16 inum ++ padded name) (16 * Z.of_nat (slot es)) 1 /\
    directory V' ino' (linked (inum, padded name) es)).
Proof.
  intros R Hc [L1 L2 L3 L4 L5 L6 L7 L8 L9] Hw Hn. unfold dirlink_entry. eapply run_bind.
  { rewrite (dirents_length V ino es L4). eapply (empty_offset_loop V H O L ino es Hc L1 L2) with (pre := []); try done. by eapply room_le; [|exact L8]; lia. }
  intros ? s1 [-> R1]. cbn [length Nat.add]. assert (Hp : length (padded name) = DIRSIZ) by (unfold padded; rewrite length_app, length_replicate; lia).
  eapply run_lift; [unfold dirent_as_bytes; fold (padded name); by rewrite Hp, Nat.eqb_refl|].
  replace (match free_index es with Some i => (16 * Z.of_nat i)%Z | None => 0%Z end) with (16 * Z.of_nat (slot es))%Z
    by (unfold slot; by destruct (free_index es)).
  pose proof (slot_bound es). pose proof (dr_size _ _ _ L4). pose proof (slot_fits (slot es)). pose proof (dirent_length inum _ Hp) as Hel.
  assert (Hsl : (16 * Z.of_nat (slot es) <= isize ino)%Z) by lia.
  eapply run_bind; [apply (writable_write sb V H O L s1 self ino (write_u16 inum ++ padded name) (16 * Z.of_nat (slot es)) 1); try done|].
  - split; rewrite ?Hel; try done; lia.
  - intros [m ino'] s2 (_ & V' & L' & R2 & _ & W). apply run_ret. cbn [snd] in *. exists V', L'. split_and!; try done. by eapply linked_directory.
Qed.

(** The whole of [dirlink], for a name that is not there and for one that is. *)
Lemma dirlink_new V H O L s cached self ino es name inum :
  tx_rep s (mkView V H O L) -> clean V H L -> linkable V O L self ino es -> in_width 16 inum -> length name <= DIRSIZ ->
  lookup_entries es 0 name = Done None ->
  run (dirlink sb cached self ino name inum) s (fun r s' => fst r = Ok tt /\ exists V' L', tx_rep s' (mkView V' H O L') /\
    wrote sb H V L self ino V' L' (snd r) (write_u16 inum ++ padded name) (16 * Z.of_nat (slot es)) 1 /\
    directory V' (snd r) (linked (inum, padded name) es)).
Proof.
  intros R Hc Hl Hw Hn Hnone. unfold dirlink. eapply run_bind.
  { eapply (dirlookup_spec V H O L ino es Hc); try apply Hl; [|exact R|exact Hnone]. by eapply room_le; [|apply (li_room _ _ _ _ _ _ Hl)]; lia. }
  intros ? s1 [-> R1]. cbv beta iota. eapply run_bind; [by eapply dirlink_spec|]. intros ino' s2 Hw2. apply run_ret. by split.
Qed.

Lemma dirlink_present V H O L s (cached : Z -> bool) self ino es name inum off n :
  tx_rep s (mkView V H O L) -> clean V H L -> fs_ok sb V -> file_ok sb V ino -> room O L 1 -> directory V ino es ->
  lookup_entries es 0 name = Done (Some (off, n)) -> cached n = true ->
  run (dirlink sb cached self ino name inum) s (fun r s' => r = (Err FileAlreadyExists, ino) /\ tx_rep s' (mkView V H O L)).
Proof.
  intros R Hc Hok Hf Hr Hd Hlk Hcn. unfold dirlink. eapply run_bind; [by eapply (dirlookup_spec V H O L ino es Hc)|].
  intros ? s1 [-> R1]. cbv beta iota. rewrite Hcn. by apply run_ret.
Qed.

Lemma wrote_room H V L self ino V' L' ino' buf offset k O j :
  wrote sb H V L self ino V' L' ino' buf offset k ->
  (room O L (2 * k + 1 + j) -> room O L' j) /\ (log_room L (2 * k + 1 + j) -> log_room L' j).
Proof.
  intros W. destruct (wr_log _ _ _ _ _ _ _ _ _ _ _ _ W) as (X & -> & HX & _). split; intros Hr.
  - apply room_union. by eapply room_le; [|exact Hr]; lia.
  - apply log_room_union. by eapply log_room_le; [|exact Hr]; lia.
Qed.

(** C29: a name that is linked into a directory is found there.  [dirlink] of a name that
    the directory does not have succeeds, [dirlookup] after it returns the number of the inode
    and the offset of the entry, and linking the name again fails with [FileAlreadyExists] as
    long as the inode cache has room for the inode. *)
Theorem dirlink_then_dirlookup V H O L s (cached : Z -> bool) self ino es name inum other :
  tx_rep s (mkView V H O L) -> clean V H L -> linkable V O L self ino es -> name_ok name -> in_width 16 inum -> inum <> 0%Z ->
  lookup_entries es 0 name = Done None -> cached inum = true ->
  run (r ← dirlink sb cached self ino name inum; q ← dirlookup sb (snd r) name; a ← dirlink sb cached self (snd q) name other;
       mret (fst r, fst q, fst a)) s
    (fun r s' => r = (Ok tt, Some ((16 * Z.of_nat (slot es))%Z, inum), Err FileAlreadyExists)).
Proof.
  intros R Hc Hl Hn Hw Hnz Hnone Hcn. eapply run_bind; [by eapply dirlink_new; try apply Hn|].
  intros [r ino'] s1 (Er & V' & L' & R1 & W & D). cbn [fst snd] in *. subst r.
  assert (Hr : room O L' 1) by (apply (wrote_room _ _ _ _ _ _ _ _ _ _ _ O 1 W); by eapply room_le; [|apply (li_room _ _ _ _ _ _ Hl)]; lia).
  pose proof (lookup_linked name inum es Hn Hnz Hnone) as Hlk. pose proof (wr_clean _ _ _ _ _ _ _ _ _ _ _ _ W) as Hc'.
  eapply run_bind; [eapply (dirlookup_spec V' H O L' ino' _ Hc'); try apply W; [exact Hr|exact D|exact R1|exact Hlk]|].
  intros ? s2 [-> R2]. cbn [fst snd]. eapply run_bind; [eapply (dirlink_present V' H O L' s2 cached self ino' _ name other _ _ R2 Hc'); try apply W; [exact Hr|exact D|exact Hlk|exact Hcn]|].
  intros ? s3 [-> R3]. by apply run_ret.
Qed.

(** The second entry of a new directory replaces the first.  Linking ["."] and then [".."]
    into an empty directory, as [ICache::create] does, leaves one entry, and ["."] is not
    found: without an empty slot [dirlink] writes at offset 0, not at the end. *)
Theorem new_directory_loses_dot V H O L s cached self ino inum parent :
  tx_rep s (mkView V H O L) -> clean V H L -> linkable V O L self ino [] -> frees sb V 2 -> room O L 8 -> log_room L 6 ->
  in_width 16 inum -> inum <> 0%Z -> in_width 16 parent -> parent <> 0%Z ->
  run (r1 ← dirlink sb cached self ino [46]%Z inum; r2 ← dirlink sb cached self (snd r1) [46; 46]%Z parent;
       r ← dirlookup sb (snd r2) [46]%Z; mret (fst r, snd r2)) s
    (fun r s' => fst r = None /\ exists V' L', tx_rep s' (mkView V' H O L') /\ directory V' (snd r) [(parent, padded [46; 46]%Z)]).
Proof.
  intros R Hc Hl Hfr Hr Hlg Hi Hi0 Hp Hp0. pose proof Hl as [_ _ _ _ Hs _ _ _ _].
  eapply run_bind; [eapply dirlink_new; try done; cbn; unfold DIRSIZ; lia|]. intros [r1 ino1] s1 (_ & V1 & L1 & R1 & W1 & D1). cbn [snd] in *.
  destruct (wrote_room _ _ _ _ _ _ _ _ _ _ _ O 5 W1) as [Hr1 _]. destruct (wrote_room _ _ _ _ _ _ _ _ _ _ _ O 3 W1) as [_ Hl1].
  assert (Hlk : linkable V1 O L1 self ino1 (linked (inum, padded [46]%Z) [])).
  { apply mkLinkable; [apply W1|apply W1|apply W1|exact D1|exact Hs| | |exact (Hr1 Hr)|exact (Hl1 Hlg)].
    - cbn [linked length]. unfold NDIRECT, BSIZE. lia.
    - exact (wr_frees _ _ _ _ _ _ _ _ _ _ _ _ W1 1 Hfr). }
  eapply run_bind; [eapply dirlink_new; [exact R1|apply W1|exact Hlk|done|cbn; unfold DIRSIZ; lia|]|].
  { cbn [linked lookup_entries]. destruct (Z.eqb_spec inum 0); [done|]. reflexivity. }
  intros [r2 ino2] s2 (_ & V2 & L2 & R2 & W2 & D2). cbn [snd] in *. destruct (wrote_room _ _ _ _ _ _ _ _ _ _ _ O 1 W2) as [Hr2 _].
  assert (El : linked (parent, padded [46; 46]%Z) (linked (inum, padded [46]%Z) []) = [(parent, padded [46; 46]%Z)]).
  { cbn [linked free_index]. destruct (Z.eqb_spec inum 0); [done|]. done. }
  rewrite El in D2. eapply run_bind.
  { eapply (dirlookup_spec V2 H O L2 ino2 _ (wr_clean _ _ _ _ _ _ _ _ _ _ _ _ W2)); try apply W2; [|exact D2|exact R2|].
    - apply Hr2. by eapply room_le; [|apply (li_room _ _ _ _ _ _ Hlk)]; lia.
    - cbn [lookup_entries]. destruct (Z.eqb_spec parent 0); [done|]. reflexivity. }
  intros ? s3 [-> R3]. apply run_ret. cbn [fst snd]. eauto.
Qed.
End Directory.

(** ** Instances *)

Definition small_dir : INodeData := mkINode Directory 0 0 1 0 (replicate 13 0%Z).

Lemma small_linkable : linkable (G := BufferGuard) small_sb (blocks small_disk) ∅ ∅ 1 small_dir [].
Proof.
  destruct small_writable as [W1 W2 W3 W4 W5 W6 W7 W8 W9 W10 W11]. split; [exact W1| | | |exact W4| |exact W9|exact W10|exact W11].
  - destruct W2 as [F1 F2 F3 F4 F5]. by split.
  - destruct W3 as [I1 I2 I3 I4 I5 I6]. by split.
  - split; [reflexivity|reflexivity|]. intros i inum nm Hi. discriminate Hi.
  - cbn [length]. unfold NDIRECT, BSIZE. lia.
Qed.

Lemma dirlink_then_dirlookup_witness :
  exists r s', (r ← dirlink (TxBlocks0 := small_tx) (HP := true) small_sb (fun _ => true) 1 small_dir [97; 98]%Z 2;
      q ← dirlookup (TxBlocks0 := small_tx) (HP := true) small_sb (snd r) [97; 98]%Z;
      a ← dirlink (TxBlocks0 := small_tx) (HP := true) small_sb (fun _ => true) 1 (snd q) [97; 98]%Z 3;
      mret (fst r, fst q, fst a)) small_state = Done (r, s') /\ r = (Ok tt, Some (0%Z, 2%Z), Err FileAlreadyExists).
Proof.
  destruct (dirlink_then_dirlookup (TxBlocks0 := small_tx) (HP := true) small_sb (blocks small_disk) (blocks small_disk) ∅ ∅ small_state (fun _ => true) 1 small_dir []
    [97; 98]%Z 2 3) as (r & s' & E & Er).
  - exact small_rep.
  - intros b _. reflexivity.
  - exact small_linkable.
  - split; [cbn; unfold DIRSIZ; lia|]. split; [|reflexivity]. intros Hin. apply list_elem_of_In in Hin. cbn in Hin. lia.
  - unfold in_width. lia.
  - discriminate.
  - reflexivity.
  - reflexivity.
  - exists r, s'. exact (conj E Er).
Defined.

Lemma new_directory_loses_dot_witness :
  exists r s', (r1 ← dirlink (TxBlocks0 := small_tx) (HP := true) small_sb (fun _ => true) 1 small_dir [46]%Z 1;
      r2 ← dirlink (TxBlocks0 := small_tx) (HP := true) small_sb (fun _ => true) 1 (snd r1) [46; 46]%Z 3;
      r ← dirlookup (TxBlocks0 := small_tx) (HP := true) small_sb (snd r2) [46]%Z; mret (fst r, snd r2)) small_state = Done (r, s') /\ fst r = None.
Proof.
  destruct (new_directory_loses_dot (TxBlocks0 := small_tx) (HP := true) small_sb (blocks small_disk) (blocks small_disk) ∅ ∅ small_state (fun _ => true) 1 small_dir
    1 3) as (r & s' & E & Er & _).
  - exact small_rep.
  - intros b _. reflexivity.
  - exact small_linkable.
  - apply small_frees. lia.
  - apply small_room. lia.
  - apply (small_room 6). lia.
  - unfold in_width. lia.
  - discriminate.
  - unfold in_width. lia.
  - discriminate.
  - exists r, s'. exact (conj E Er).
Defined.
