(* ===== verification/ICache.v ===== *)
(** * The inode cache and path lookup
    (domains/usr/xv6/kernel/fs/src/icache/icache.rs, the lock of icache/inode.rs, cwd.rs)

    Fifty [Arc]s of inodes.  An inode is in use when its strong count is above one, the
    count that the cache itself has.  [get] finds or makes the entry of an inode, [put] gives
    a reference back, and frees the inode on disk when that was the last one and nothing links
    to it; [namex] walks along a path and holds one reference at a time.

    What the disk holds is the interface [Tree]: the types and link counts of the inodes and
    the entries of directories, with the laws of a file system that is consistent: the used
    entries of a directory have names and refer to inodes that exist and are linked.
    [on_disk_dirlookup] shows that the directories of Directory.v on the disk implement it. *)

From Stdlib Require Import ZArith Lia.
From stdpp Require Import base gmap list.
From stdpp Require Import options.
From S2P Require Import Prelude BCache Log Utf8 Tx Block Inode FileSystem Directory.

Set Default Proof Using "Type".

Definition NINODE : nat := 50.
Definition ROOTDEV : Z := 1.
Definition ROOTINO : Z := 1.

Inductive IError := ICacheExhausted | FileNotFound | InvalidFileType.

(** An entry: [INodeMeta] and the strong count. *)
Record INode := mkNode { device : Z; inum : Z; valid : bool; strong : nat }.

(** The cache, the entry that the thread's working directory holds, and the inodes that
    were freed on disk. *)
Record ICache := mkIC { inodes : list INode; cwd : nat; freed : list Z }.

Definition ICache_new : list INode := replicate NINODE (mkNode 0 0 false 1).

Definition set_strong (n : nat) (e : INode) : INode := mkNode (device e) (inum e) (valid e) n.
Definition set_valid (b : bool) (e : INode) : INode := mkNode (device e) (inum e) b (strong e).

Definition entry (i : nat) : M ICache INode := s ← Prelude.get; lift (index (inodes s) i).
Definition upd (i : nat) (f : INode -> INode) : M ICache unit := modify (fun s => mkIC (alter f i (inodes s)) (cwd s) (freed s)).

(** [Arc::clone] and the drop of an [Arc] of the cache, which never is the last one. *)
Definition clone (i : nat) : M ICache nat := _ ← upd i (fun e => set_strong (S (strong e)) e); mret i.
Definition drop_arc (i : nat) : M ICache unit := upd i (fun e => set_strong (pred (strong e)) e).

Fixpoint find_first (p : INode -> bool) (l : list INode) : option nat :=
  match l with
  | [] => None
  | e :: l => if p e then Some 0 else S <$> find_first p l
  end.

Definition unused (e : INode) : bool := strong e =? 1.

(** The loop returns at the first unused entry of the inode and notes the first unused one. *)
Definition get (d n : Z) : M ICache (result IError nat) :=
  s ← Prelude.get;
  match find_first (fun e => unused e && (device e =? d) && (inum e =? n))%Z (inodes s) with
  | Some i => i ← clone i; mret (Ok i)
  | None =>
      match find_first unused (inodes s) with
      | None => mret (Err ICacheExhausted)
      | Some i => _ ← upd i (fun e => mkNode d n false (strong e)); i ← clone i; mret (Ok i)
      end
  end.

(** ** What is on the disk *)

(** The inode exists and something links to it. *)
Definition linked_inode (kind : Z -> INodeFileType) (links : Z -> Z) (n : Z) : Prop := kind n <> Unitialized /\ links n <> 0%Z.

Class Tree := {
  kind : Z -> INodeFileType;
  links : Z -> Z;
  entries : Z -> list dirent;
  tree_names d i n nm : kind d = Inode.Directory -> entries d !! i = Some (n, nm) -> n <> 0%Z -> is_Some (cstr_to_string nm);
  tree_linked d i n nm : kind d = Inode.Directory -> entries d !! i = Some (n, nm) -> n <> 0%Z -> linked_inode kind links n;
  tree_root : linked_inode kind links ROOTINO }.

Section Paths.
Context `{Tree}.

(** [INode::lock] loads the inode when it is not valid. *)
Definition lock (i : nat) : M ICache Z :=
  e ← entry i;
  if valid e then mret (inum e)
  else
    _ ← upd i (set_valid true);
    match kind (inum e) with Unitialized => panic | _ => mret (inum e) end.

Definition put (i : nat) : M ICache unit :=
  e ← entry i;
  _ ← (if (strong e =? 2) && valid e then
         n ← lock i;
         if (links n =? 0)%Z then
           _ ← modify (fun s => mkIC (inodes s) (cwd s) (freed s ++ [n])); upd i (set_valid false)
         else mret tt
       else mret tt);
  drop_arc i.

(** [dirlookup] on a locked directory. *)
Definition dirlookup (d dir : Z) (name : list Z) : M ICache (result IError nat) :=
  r ← lift (lookup_entries (entries dir) 0 name);
  match r with None => mret (Err FileNotFound) | Some (_, n) => get d n end.

(** [path.split('/').filter(|n| !n.is_empty())] *)
Fixpoint split_at (path cur : list Z) : list (list Z) :=
  match path with
  | [] => [cur]
  | c :: path => if (c =? 47)%Z then cur :: split_at path [] else split_at path (cur ++ [c])
  end.
Definition components (path : list Z) : list (list Z) := filter (fun n => bool_decide (n <> [])) (split_at path []).

Definition is_dir (t : INodeFileType) : bool := match t with Directory => true | _ => false end.

(** The loop of [namex]; [last] is the component before. *)
Fixpoint walk (cs : list (list Z)) (parent : bool) (inode : nat) (last : list Z) : M ICache (result IError (nat * list Z)) :=
  match cs with
  | [] => if parent then _ ← put inode; mret (Err FileNotFound) else mret (Ok (inode, last))
  | component :: cs =>
      n ← lock inode;
      if negb (is_dir (kind n)) then _ ← put inode; mret (Err InvalidFileType)
      else if parent && bool_decide (cs = []) then mret (Ok (inode, component))
      else
        e ← entry inode;
        next ← dirlookup (device e) n component;
        _ ← put inode;
        match next with
        | Ok next => walk cs parent next component
        | Err e => mret (Err e)
        end
  end.

Definition namex (path : list Z) (parent : bool) : M ICache (result IError (nat * list Z)) :=
  r ← (match path with
       | 47%Z :: _ => get ROOTDEV ROOTINO
       | _ => s ← Prelude.get; i ← clone (cwd s); mret (Ok i)
       end);
  match r with
  | Err e => mret (Err e)
  | Ok inode => walk (components path) parent inode []
  end.

(** [Drop for OpenedFile] on an inode: a clone is put, and then the file's own reference goes. *)
Definition close_inode (i : nat) : M ICache unit := c ← clone i; _ ← put c; drop_arc i.

Definition namei (path : list Z) : M ICache (result IError nat) :=
  r ← namex path false; mret (match r with Ok p => Ok p.1 | Err e => Err e end).
Definition nameiparent (path : list Z) : M ICache (result IError (nat * list Z)) := namex path true.
End Paths.

(** ** References *)

Definition strongs (s : ICache) : list nat := strong <$> inodes s.

Lemma find_first_Some p l i : find_first p l = Some i -> exists e, l !! i = Some e /\ p e = true.
Proof.
  revert i. induction l as [|e l IH]; intros i; cbn; [done|]. destruct (p e) eqn:Ep; [intros [= <-]; by exists e|].
  destruct (find_first p l) as [k|] eqn:Ek; cbn; [|done]. intros [= <-]. by apply (IH k).
Qed.

Lemma strongs_alter f g i s : (forall e, strong (f e) = g (strong e)) ->
  strong <$> alter f i (inodes s) = alter g i (strongs s).
Proof. intros Hf. unfold strongs. apply list_fmap_alter. apply Forall_true. intros e. by rewrite Hf. Qed.


(** The entries that nobody uses. *)
Definition unused_count (l : list nat) : nat := length (filter (fun n => n = 1) l).

Lemma find_first_None s : find_first unused (inodes s) = None -> unused_count (strongs s) = 0.
Proof.
  unfold unused_count, strongs. generalize (inodes s). induction l as [|e l IH]; cbn; [done|]. unfold unused at 1. destruct (Nat.eqb_spec (strong e) 1) as [|Hne]; [done|].
  rewrite decide_False by done. destruct (find_first unused l); [done|]. intros _. by apply IH.
Qed.


(** What [get] gives: an entry that nobody used, for this inode and for the caller alone. *)
Lemma icache_get_spec d n s : run (get d n) s (fun r s' => cwd s' = cwd s /\ freed s' = freed s /\
  match r with
  | Ok i => strongs s' = alter S i (strongs s) /\ strongs s !! i = Some 1 /\ (forall j, j <> i -> inodes s' !! j = inodes s !! j) /\
      exists v, inodes s' !! i = Some (mkNode d n v 2)
  | Err e => e = ICacheExhausted /\ s' = s /\ unused_count (strongs s) = 0
  end).
Proof.
  unfold get. eapply run_step; [reflexivity|]. destruct (find_first _ (inodes s)) as [i|] eqn:Ef.
  - destruct (find_first_Some _ _ _ Ef) as (e & Ei & Hp). apply andb_true_iff in Hp as [Hp Hn]. apply andb_true_iff in Hp as [Hu Hd].
    apply Z.eqb_eq in Hn, Hd. apply Nat.eqb_eq in Hu. eapply run_step; [reflexivity|]. apply run_ret. cbn [inodes cwd freed]. split_and!; [done..| | | |].
    + unfold strongs at 1. cbn [inodes]. by apply strongs_alter.
    + unfold strongs. rewrite list_lookup_fmap, Ei. cbn. by rewrite Hu.
    + intros j Hj. by apply list_lookup_alter_ne.
    + exists (valid e). rewrite list_lookup_alter_eq, Ei. cbn. unfold set_strong. by rewrite Hn, Hd, Hu.
  - destruct (find_first unused (inodes s)) as [i|] eqn:Eu; [|apply run_ret; split_and!; [done..|by apply find_first_None]]. destruct (find_first_Some _ _ _ Eu) as (e & Ei & Hu). apply Nat.eqb_eq in Hu.
    do 2 (eapply run_step; [reflexivity|]). apply run_ret. cbn [inodes cwd freed]. split_and!; [done..| | | |].
    + unfold strongs at 1. cbn [inodes]. rewrite list_alter_alter_eq. by apply strongs_alter.
    + unfold strongs. rewrite list_lookup_fmap, Ei. cbn. by rewrite Hu.
    + intros j Hj. by rewrite !list_lookup_alter_ne.
    + exists false. rewrite !list_lookup_alter_eq, Ei. cbn. unfold set_strong. cbn. by rewrite Hu.
Qed.

(** C39: get looks only at entries that nobody uses.  For an inode that is in use it takes
    another entry, so that the inode is in the cache twice and both copies are in use: the
    locks, sizes and block addresses of the two are independent of each other. *)
Theorem get_duplicates_inode_in_use d n j e s i s' : inodes s !! j = Some e -> device e = d -> inum e = n -> 2 <= strong e ->
  get d n s = Done (Ok i, s') ->
  i <> j /\ inodes s' !! j = Some e /\ exists v, inodes s' !! i = Some (mkNode d n v 2).
Proof.
  intros Ej Hd Hn Hs Eg. destruct (icache_get_spec d n s) as (r & s2 & E & _ & _ & Hr). rewrite Eg in E. injection E as <- <-.
  destruct Hr as (_ & Hu & Hne & Hi). assert (Hij : j <> i).
  { intros ->. unfold strongs in Hu. rewrite list_lookup_fmap, Ej in Hu. injection Hu as Hu. lia. }
  split_and!; [congruence|by rewrite Hne|done].
Qed.

Section Walk.
Context `{Tree}.

#[local] Abbreviation good := (linked_inode kind links).

(** A directory as a map from names to inodes; of two entries with a name the first counts. *)
Fixpoint dir_map (es : list dirent) : gmap (list Z) Z :=
  match es with
  | [] => ∅
  | (n, nm) :: es =>
      if (n =? 0)%Z then dir_map es
      else match cstr_to_string nm with Some str => <[str := n]> (dir_map es) | None => dir_map es end
  end.

Lemma lookup_dir_map es off name : (forall i n nm, es !! i = Some (n, nm) -> n <> 0%Z -> is_Some (cstr_to_string nm)) ->
  exists r, lookup_entries es off name = Done r /\ snd <$> r = dir_map es !! name.
Proof.
  revert off. induction es as [|[n nm] es IH]; intros off Hn; cbn [lookup_entries dir_map]; [exists None; by rewrite lookup_empty|].
  assert (Hn' : forall i n nm, es !! i = Some (n, nm) -> n <> 0%Z -> is_Some (cstr_to_string nm)) by (intros i; apply (Hn (S i))).
  destruct (Z.eqb_spec n 0) as [|Hz]; [by apply IH|]. destruct (Hn 0 n nm eq_refl Hz) as [str ->]. cbn [expect mbind outcome_bind].
  destruct (decide (str = name)) as [->|Hne]; [eexists; split; [done|]; by rewrite lookup_insert_eq|]. rewrite lookup_insert_ne by done. by apply IH.
Qed.




(** Closing the last descriptor of an inode never frees it, whether or not anything
    still links to it: the reference that is put is a clone, so that the count is three
    there, and put frees at two. *)
Theorem close_never_frees i e s : inodes s !! i = Some e -> 2 <= strong e ->
  run (close_inode i) s (fun _ s' => freed s' = freed s /\ strongs s' = alter pred i (strongs s)).
Proof.
  intros Ei Hs. unfold close_inode. eapply run_step; [reflexivity|]. eapply run_step.
  { unfold put, entry. rewrite bind_assoc, bind_get. cbn [inodes]. rewrite (index_Some _ i (set_strong (S (strong e)) e)) by (by rewrite list_lookup_alter_eq, Ei).
    rewrite bind_lift. cbn [strong set_strong]. destruct (Nat.eqb_spec (S (strong e)) 2); [lia|]. cbn [andb]. reflexivity. }
  eexists tt, _. split; [reflexivity|]. cbn [inodes freed]. split; [done|]. unfold strongs. cbn [inodes]. rewrite !list_alter_alter_eq. by apply (strongs_alter _ pred).
Qed.




End Walk.

(** ** Directories on the disk *)

Section Disk.
Context `{HP : Profile} `{HB : ByteOrder} `{HB16 : ByteOrder16} {St G : Type} `{!TxBlocks St G} (sb : SuperBlock) `{Tree}.

(** The inode table of the view [V] has the directories of the tree. *)
Definition tree_on_disk (V : gmap Z block) : Prop := forall n, kind n = Inode.Directory ->
  exists ino, (0 <= n < ninodes sb)%Z /\ on_disk sb V n ino /\ inode_wf ino /\ file_ok sb V ino /\ directory V ino (entries n).

(** Locking a directory and looking a name up on the disk gives what the tree says. *)
Lemma on_disk_dirlookup V Hd O L s n name :
  tx_rep s (mkView V Hd O L) -> clean V Hd L -> fs_ok sb V -> room O L 1 -> tree_on_disk V -> kind n = Inode.Directory ->
  run (ino ← load sb n; Inode.dirlookup sb ino name) s (fun q s' => snd <$> fst q = dir_map (entries n) !! name /\ tx_rep s' (mkView V Hd O L)).
Proof.
  intros R Hc Hok Hr Ht Hn. destruct (Ht n Hn) as (ino & Hb & Hi & Hw & Hf & Hdir). eapply run_bind.
  { eapply load_spec; try done. by rewrite (dr_type _ _ _ Hdir). }
  intros ? s1 [-> R1]. destruct (lookup_dir_map (entries n) 0 name) as (q & Eq & Em); [intros k m nm; by apply tree_names|].
  eapply run_mono; [by eapply (dirlookup_spec sb V Hd O L ino (entries n) Hc)|]. intros ? s2 [-> R2]. by split.
Qed.
End Disk.

(** ** A tree of two inodes: the root with one file in it, called a *)

Definition sample_kind (n : Z) : INodeFileType := if (n =? 1)%Z then Inode.Directory else if (n =? 2)%Z then File else Unitialized.
Definition sample_entries (n : Z) : list dirent := if (n =? 1)%Z then [(2%Z, 97%Z :: replicate 13 0%Z)] else [].

Lemma sample_entry d i n nm : sample_entries d !! i = Some (n, nm) -> n = 2%Z /\ nm = 97%Z :: replicate 13 0%Z.
Proof. unfold sample_entries. destruct (d =? 1)%Z; [|done]. destruct i as [|i]; [by intros [= <- <-]|done]. Qed.

Definition sample_tree : Tree.
Proof.
  refine {| kind := sample_kind; links := fun n => if (n =? 0)%Z then 0%Z else 1%Z; entries := sample_entries |}.
  - intros d i n nm _ [_ ->]%sample_entry _. by eexists.
  - intros d i n nm _ [-> _]%sample_entry _. by split.
  - by split.
Defined.
Definition sample_cache : ICache := mkIC (<[0 := mkNode ROOTDEV ROOTINO true 2]> ICache_new) 0 [].


Lemma get_duplicates_inode_in_use_witness : exists i s', get ROOTDEV ROOTINO sample_cache = Done (Ok i, s') /\ i <> 0 /\
  exists v, inodes s' !! i = Some (mkNode ROOTDEV ROOTINO v 2).
Proof.
  assert (E : exists s', get ROOTDEV ROOTINO sample_cache = Done (Ok 1, s')) by (eexists; vm_compute; reflexivity). destruct E as [s' E].
  destruct (get_duplicates_inode_in_use ROOTDEV ROOTINO 0 (mkNode ROOTDEV ROOTINO true 2) sample_cache 1 s' eq_refl eq_refl eq_refl (le_n 2) E) as (Hne & _ & Hi).
  exists 1, s'. split; [exact E|]. split; [exact Hne|exact Hi].
Defined.

Lemma close_never_frees_witness : run (close_inode (H := sample_tree) 0) sample_cache (fun _ s' => freed s' = [] /\ strongs s' = alter pred 0 (strongs sample_cache)).
Proof. apply (close_never_frees (H := sample_tree) 0 (mkNode ROOTDEV ROOTINO true 2) sample_cache); [reflexivity|cbn; lia]. Defined.
