(* ===== verification/SpinLocks.v ===== *)
(** * Spin locks (lib/core/spin-rs/src/{mutex,rw_lock,once}.rs)

    The locks that guard all shared state of the kernel and of the domains.  A lock is
    used by a number of agents, each the place for one guard: a thread that holds two
    guards is two agents.  A step of an agent is one atomic access of the lock word, so a
    method of several accesses is several steps and other agents run in between.  The
    loops of [lock], [read], [write], [upgradeable_read], [upgrade] and [wait] repeat a
    [try] step or a load.  Accesses are sequentially consistent; the weaker orderings that the
    code asks for are not modelled.

    The three sections give the steps of [Mutex], [RwLock] and [Once], their invariants
    and what follows for every interleaving. *)

From Stdlib Require Import ZArith Lia.
From stdpp Require Import base list.
From stdpp Require Import options.
From S2P Require Import Prelude.

Set Default Proof Using "Type".

(** ** Interleaved agents *)

Section Agents.
Context {Sh Pc Act : Type} (move : Act -> Sh -> Pc -> option (Sh * Pc)).

Record system := mkSys { shared : Sh; agents : list Pc }.

(** Agent [i] takes the step [a]. *)
Definition sys_step (l : nat * Act) (s : system) : option system :=
  pc ← agents s !! l.1; r ← move l.2 (shared s) pc; Some (mkSys (r.1) (<[l.1 := r.2]> (agents s))).

Inductive reachable (s0 : system) : system -> Prop :=
  | reach_init : reachable s0 s0
  | reach_step s l s' : reachable s0 s -> sys_step l s = Some s' -> reachable s0 s'.

Fixpoint sys_run (ls : list (nat * Act)) (s : system) : option system :=
  match ls with [] => Some s | l :: ls => s' ← sys_step l s; sys_run ls s' end.

Lemma run_reachable s0 ls s s' : reachable s0 s -> sys_run ls s = Some s' -> reachable s0 s'.
Proof.
  revert s. induction ls as [|l ls IH]; intros s Hr; cbn [sys_run]; [by intros [= <-]|].
  destruct (sys_step l s) as [s1|] eqn:E; [|done]. cbn. apply IH. by apply (reach_step _ s l).
Qed.

Lemma step_inv i a s s' : sys_step (i, a) s = Some s' ->
  exists pc sh pc', agents s !! i = Some pc /\ move a (shared s) pc = Some (sh, pc') /\ s' = mkSys sh (<[i := pc']> (agents s)).
Proof.
  unfold sys_step. cbn. destruct (agents s !! i) as [pc|]; [|done]. cbn. destruct (move a _ pc) as [[sh pc']|] eqn:E; [|done].
  cbn. intros [= <-]. eauto 6.
Qed.

(** A property of the start that every step keeps holds in all reachable states. *)
Lemma reachable_inv (P : system -> Prop) s0 s :
  reachable s0 s -> P s0 -> (forall s i a s', P s -> sys_step (i, a) s = Some s' -> P s') -> P s.
Proof. intros Hr H0 Hs. induction Hr as [|s [i a] s' Hr IH Hst]; [done|]. by eapply Hs. Qed.
End Agents.
Arguments mkSys {Sh Pc}. Arguments shared {Sh Pc}. Arguments agents {Sh Pc}.

(** The weight of all agents, and how it changes when one of them moves. *)
Fixpoint total {Pc} (f : Pc -> nat) (l : list Pc) : nat := match l with [] => 0 | pc :: l => f pc + total f l end.

Lemma total_insert {Pc} (f : Pc -> nat) l i pc pc' : l !! i = Some pc ->
  total f (<[i := pc']> l) + f pc = total f l + f pc'.
Proof.
  revert i. induction l as [|x l IH]; intros [|i]; [done..| |].
  - intros [= ->]. cbn. lia.
  - intros Hi. specialize (IH i Hi). change (<[S i := pc']> (x :: l)) with (x :: <[i := pc']> l). cbn [total]. lia.
Qed.

Lemma total_ge {Pc} (f : Pc -> nat) l i pc : l !! i = Some pc -> f pc <= total f l.
Proof.
  revert i. induction l as [|x l IH]; intros [|i]; cbn; [done..| |].
  - intros [= ->]. lia.
  - intros Hi. specialize (IH i Hi). lia.
Qed.

Lemma total_ge_2 {Pc} (f : Pc -> nat) l i j pc pc' : i <> j -> l !! i = Some pc -> l !! j = Some pc' -> f pc + f pc' <= total f l.
Proof.
  revert i j. induction l as [|x l IH]; intros [|i] [|j] Hne; cbn; try done.
  - intros [= ->] Hj. pose proof (total_ge f l j pc' Hj). lia.
  - intros Hi [= ->]. pose proof (total_ge f l i pc Hi). lia.
  - intros Hi Hj. specialize (IH i j ltac:(lia) Hi Hj). lia.
Qed.

Lemma total_zero {Pc} (f : Pc -> nat) l : (forall pc, pc ∈ l -> f pc = 0) -> total f l = 0.
Proof.
  induction l as [|x l IH]; intros H; [done|]. cbn. rewrite (H x), IH; [done| |by left].
  intros pc Hpc. apply H. by right.
Qed.

Lemma total_bound {Pc} (f : Pc -> nat) l k : (forall pc, f pc <= k) -> total f l <= k * length l.
Proof. intros Hf. induction l as [|x l IH]; cbn; [lia|]. specialize (Hf x). lia. Qed.

Lemma total_le {Pc} (f g : Pc -> nat) l : (forall pc, f pc <= g pc) -> total f l <= total g l.
Proof. intros Hf. induction l as [|x l IH]; cbn; [lia|]. specialize (Hf x). lia. Qed.

Lemma total_replicate {Pc} (f : Pc -> nat) n pc : f pc = 0 -> total f (replicate n pc) = 0.
Proof. intros Hf. apply total_zero. intros x Hx. by apply elem_of_replicate in Hx as [-> _]. Qed.

(** ** [Mutex] *)

Section Mutex.
Context {T : Type}.

Record Mutex := mkMutex { mx_lock : bool; mx_data : T }.

(** Outside; in [obtain_lock] before the next [compare_and_swap]; in its inner loop; with a guard. *)
Inductive mutex_pc := MIdle | MTry | MSpin | MGuard.

Inductive mutex_act :=
  | MLock                 (** call [lock] *)
  | MStep                 (** the next access of [obtain_lock] *)
  | MTryLock              (** call [try_lock] *)
  | MRead                 (** read through the guard *)
  | MWrite (v : T)        (** write through the guard *)
  | MDrop.                (** drop the guard *)

Definition Mutex_new (v : T) : Mutex := mkMutex false v.

(** [compare_and_swap(false, true)]: the old value. *)
Definition mutex_cas (m : Mutex) : bool * Mutex := (mx_lock m, mkMutex true (mx_data m)).

Definition obtain_lock (m : Mutex) (pc : mutex_pc) : Mutex * mutex_pc :=
  match pc with
  | MTry => let '(old, m) := mutex_cas m in if old then (m, MSpin) else (m, MGuard)
  | MSpin => if mx_lock m then (m, MSpin) else (m, MTry)
  | pc => (m, pc)
  end.

Definition try_lock (m : Mutex) : Mutex * mutex_pc :=
  let '(old, m) := mutex_cas m in if old then (m, MIdle) else (m, MGuard).

Definition mutex_drop (m : Mutex) : Mutex := mkMutex false (mx_data m).

Definition mutex_move (a : mutex_act) (m : Mutex) (pc : mutex_pc) : option (Mutex * mutex_pc) :=
  match a, pc with
  | MLock, MIdle => Some (m, MTry)
  | MStep, (MTry | MSpin) => Some (obtain_lock m pc)
  | MTryLock, MIdle => Some (try_lock m)
  | MRead, MGuard => Some (m, MGuard)
  | MWrite v, MGuard => Some (mkMutex (mx_lock m) v, MGuard)
  | MDrop, MGuard => Some (mutex_drop m, MIdle)
  | _, _ => None
  end.

Definition mutex_start (n : nat) (v : T) : system := mkSys (Mutex_new v) (replicate n MIdle).

Definition guards (pc : mutex_pc) : nat := match pc with MGuard => 1 | _ => 0 end.

(** The lock word is set exactly when there is a guard. *)
Definition mutex_inv (s : system) : Prop := total guards (agents s) = if mx_lock (shared s) then 1 else 0.

Lemma mutex_step_inv s i a s' : mutex_inv s -> sys_step mutex_move (i, a) s = Some s' -> mutex_inv s'.
Proof.
  unfold mutex_inv. intros Hi (pc & m & pc' & Hpc & Hm & ->)%step_inv. cbn [agents shared].
  pose proof (total_insert guards _ _ _ pc' Hpc) as Ht. pose proof (total_ge guards _ _ _ Hpc) as Hg.
  destruct (shared s) as [lk v]. cbn [mx_lock] in Hi.
  destruct a, pc; cbn in Hm; try done; destruct lk; cbn in Hm; injection Hm as <- <-; cbn in *; lia.
Qed.

Lemma mutex_reachable n v s : reachable mutex_move (mutex_start n v) s -> mutex_inv s.
Proof.
  intros Hr. eapply (reachable_inv _ mutex_inv); [exact Hr| |intros; by eapply mutex_step_inv].
  unfold mutex_inv. cbn. by apply total_replicate.
Qed.
End Mutex.
Arguments mutex_act T : clear implicits.

(** ** [RwLock] *)

(** Bits of the lock word. *)
Definition READER : Z := Z.shiftl 1 2.
Definition UPGRADED : Z := Z.shiftl 1 1.
Definition WRITER : Z := 1.

(** [!m] on a [usize]. *)
Definition unot (m : Z) : Z := Z.lxor (2 ^ 64 - 1) m.

(** What the lock word says of a word [4 * r + 2 * u + w]. *)
Definition word (r : nat) (u w : bool) : Z := 4 * Z.of_nat r + 2 * Z.b2z u + Z.b2z w.

Lemma word_low r u w : (word r u w mod 4 = 2 * Z.b2z u + Z.b2z w)%Z.
Proof. unfold word. symmetry. apply (Z.mod_unique _ _ (Z.of_nat r)); destruct u, w; cbn; lia. Qed.

Lemma word_both r u w : (Z.land (word r u w) (Z.lor WRITER UPGRADED) = 2 * Z.b2z u + Z.b2z w)%Z.
Proof. change (Z.lor WRITER UPGRADED) with (Z.ones 2). rewrite Z.land_ones by done. apply word_low. Qed.

Lemma word_writer r u w : (Z.land (word r u w) WRITER = Z.b2z w)%Z.
Proof.
  change WRITER with (Z.ones 1). rewrite Z.land_ones by done. unfold word. change (2 ^ 1)%Z with 2%Z. symmetry.
  apply (Z.mod_unique _ _ (2 * Z.of_nat r + Z.b2z u)); destruct u, w; cbn; lia.
Qed.

Lemma word_bits r u w i : (0 <= i)%Z ->
  Z.testbit (word r u w) i = if (i =? 0)%Z then w else if (i =? 1)%Z then u else Z.testbit (Z.of_nat r) (i - 2).
Proof.
  intros Hi. replace (word r u w) with (2 * (2 * Z.of_nat r + Z.b2z u) + Z.b2z w)%Z by (unfold word; lia).
  destruct (Z.eqb_spec i 0) as [->|H0]; [apply Z.testbit_0_r|]. destruct (Z.eqb_spec i 1) as [->|H1].
  - change 1%Z with (Z.succ 0). rewrite Z.testbit_succ_r by done. apply Z.testbit_0_r.
  - replace i with (Z.succ (Z.succ (i - 2))) at 1 by lia. by rewrite !Z.testbit_succ_r by lia.
Qed.

Lemma word_or r u w : Z.lor (word r u w) UPGRADED = word r true w.
Proof.
  apply Z.bits_inj'. intros i Hi. rewrite Z.lor_spec, !word_bits by done. change UPGRADED with (2 ^ 1)%Z. rewrite Z.pow2_bits_eqb by done.
  rewrite (Z.eqb_sym 1 i). destruct (Z.eqb_spec i 0) as [->|]; [by rewrite orb_false_r|]. destruct (Z.eqb_spec i 1); [by rewrite orb_true_r|by rewrite orb_false_r].
Qed.

Lemma word_and r u w : (word r u w < 2 ^ 64)%Z -> Z.land (word r u w) (unot (Z.lor WRITER UPGRADED)) = word r false false.
Proof.
  intros Hlt. apply Z.bits_inj'. intros i Hi. rewrite Z.land_spec, !word_bits by done. unfold unot. rewrite Z.lxor_spec.
  change (2 ^ 64 - 1)%Z with (Z.ones 64). change (Z.lor WRITER UPGRADED) with (Z.ones 2).
  destruct (Z.eqb_spec i 0) as [->|]; [by rewrite andb_false_r|]. destruct (Z.eqb_spec i 1) as [->|]; [by rewrite andb_false_r|].
  rewrite (Z.ones_spec_high 2) by lia. rewrite xorb_false_r. destruct (decide (i < 64)%Z) as [Hlt'|Hge].
  - rewrite Z.ones_spec_low by lia. by rewrite andb_true_r.
  - rewrite Z.ones_spec_high by lia. rewrite andb_false_r. symmetry.
    destruct (decide (r = 0)) as [->|Hr]; [by rewrite Z.testbit_0_l|]. apply Z.bits_above_log2; [lia|].
    apply Z.log2_lt_pow2; [lia|]. assert (2 ^ 62 <= 2 ^ (i - 2))%Z by (apply Z.pow_le_mono_r; lia). unfold word in Hlt. destruct u, w; cbn [Z.b2z] in Hlt; lia.
Qed.

(** The bits above the two flags. *)
Lemma word_readers r u w : (word r u w < 2 ^ 64)%Z -> (Z.land (word r u w) (unot (Z.lor WRITER UPGRADED)) = 4 * Z.of_nat r)%Z.
Proof. intros Hlt. rewrite word_and by done. unfold word. cbn. lia. Qed.

Section RwLock.
Context {T : Type}.

Record RwLock := mkRw { rw_lock : Z; rw_data : T }.

(** Where an agent is: outside; with [try_read] refused and the count to be undone; with a
    read guard, and in its [drop] behind the assertion; the same for an upgradeable and
    a write guard; in a [downgrade], with the reader counted, before and behind the
    assertion of the [drop] of the old guard; stopped by a failed assertion. *)
Inductive rw_pc :=
  | RIdle | RUndo | RRead | RReadDrop
  | RUp | RUpDrop | RUpDown | RUpDownDrop
  | RWrite | RWriteDrop | RWrDown | RWrDownDrop
  | RPanicked.

Inductive rw_act :=
  | RTryRead | RTryWrite (strong fails : bool) | RTryUpgradeable | RTryUpgrade (strong fails : bool)
  | RDowngrade | RDrop | RNext | RGet | RSet (v : T).

Definition RwLock_new (v : T) : RwLock := mkRw 0 v.
Definition with_lock (l : Z) (m : RwLock) : RwLock := mkRw l (rw_data m).

(** [fetch_add], [fetch_sub]: the word wraps around. *)
Definition fetch_add (k : Z) (m : RwLock) : RwLock := with_lock (wrap 64 (rw_lock m + k)) m.
Definition fetch_sub (k : Z) (m : RwLock) : RwLock := with_lock (wrap 64 (rw_lock m - k)) m.

(** The weak exchange may fail although the word is as expected. *)
Definition compare_exchange (current new : Z) (strong fails : bool) (m : RwLock) : option RwLock :=
  if (rw_lock m =? current)%Z && (strong || negb fails) then Some (with_lock new m) else None.

Definition try_read (m : RwLock) : RwLock * rw_pc :=
  let value := rw_lock m in
  let m := fetch_add READER m in
  if (Z.land value (Z.lor WRITER UPGRADED) =? 0)%Z then (m, RRead) else (m, RUndo).

Definition try_write_internal (strong fails : bool) (m : RwLock) : RwLock * rw_pc :=
  match compare_exchange 0 WRITER strong fails m with Some m => (m, RWrite) | None => (m, RIdle) end.

Definition try_upgradeable_read (m : RwLock) : RwLock * rw_pc :=
  let value := rw_lock m in
  let m := with_lock (Z.lor value UPGRADED) m in
  if (Z.land value (Z.lor WRITER UPGRADED) =? 0)%Z then (m, RUp) else (m, RIdle).

Definition try_upgrade_internal (strong fails : bool) (m : RwLock) : RwLock * rw_pc :=
  match compare_exchange UPGRADED WRITER strong fails m with Some m => (m, RWrite) | None => (m, RUp) end.

(** The assertions of the three [drop]s, and what they do behind them. *)
Definition read_drop_ok (m : RwLock) : bool := (0 <? Z.land (rw_lock m) (unot (Z.lor WRITER UPGRADED)))%Z.
Definition up_drop_ok (m : RwLock) : bool := (Z.land (rw_lock m) (Z.lor WRITER UPGRADED) =? UPGRADED)%Z.
Definition write_drop_ok (m : RwLock) : bool := (Z.land (rw_lock m) WRITER =? WRITER)%Z.

Definition read_drop (m : RwLock) : RwLock := fetch_sub READER m.
Definition up_drop (m : RwLock) : RwLock := fetch_sub UPGRADED m.
Definition write_drop (m : RwLock) : RwLock := with_lock (Z.land (rw_lock m) (unot (Z.lor WRITER UPGRADED))) m.

Definition asserted (b : bool) (pc : rw_pc) : rw_pc := if b then pc else RPanicked.

Definition rw_move (a : rw_act) (m : RwLock) (pc : rw_pc) : option (RwLock * rw_pc) :=
  match a, pc with
  | RTryRead, RIdle => Some (try_read m)
  | RNext, RUndo => Some (fetch_sub READER m, RIdle)
  | RTryWrite strong fails, RIdle => Some (try_write_internal strong fails m)
  | RTryUpgradeable, RIdle => Some (try_upgradeable_read m)
  | RTryUpgrade strong fails, RUp => Some (try_upgrade_internal strong fails m)
  | RDowngrade, RUp => Some (fetch_add READER m, RUpDown)
  | RDowngrade, RWrite => Some (fetch_add READER m, RWrDown)
  | RDrop, RRead => Some (m, asserted (read_drop_ok m) RReadDrop)
  | RNext, RReadDrop => Some (read_drop m, RIdle)
  | RDrop, RUp => Some (m, asserted (up_drop_ok m) RUpDrop)
  | RNext, RUpDrop => Some (up_drop m, RIdle)
  | RDrop, RWrite => Some (m, asserted (write_drop_ok m) RWriteDrop)
  | RNext, RWriteDrop => Some (write_drop m, RIdle)
  | RNext, RUpDown => Some (m, asserted (up_drop_ok m) RUpDownDrop)
  | RNext, RUpDownDrop => Some (up_drop m, RRead)
  | RNext, RWrDown => Some (m, asserted (write_drop_ok m) RWrDownDrop)
  | RNext, RWrDownDrop => Some (write_drop m, RRead)
  | RGet, (RRead | RUp | RWrite) => Some (m, pc)
  | RSet v, RWrite => Some (mkRw (rw_lock m) v, RWrite)
  | _, _ => None
  end.

Definition rw_start (n : nat) (v : T) : system := mkSys (RwLock_new v) (replicate n RIdle).

(** What an agent counts for: a reader in the word, a read guard, an upgradeable guard, a write guard. *)
Definition counted (pc : rw_pc) : nat := match pc with RUndo | RRead | RReadDrop | RUpDown | RUpDownDrop | RWrDown | RWrDownDrop => 1 | _ => 0 end.
Definition reads (pc : rw_pc) : nat := match pc with RRead | RReadDrop => 1 | _ => 0 end.
Definition upgrades (pc : rw_pc) : nat := match pc with RUp | RUpDrop | RUpDown | RUpDownDrop => 1 | _ => 0 end.
Definition writes (pc : rw_pc) : nat := match pc with RWrite | RWriteDrop | RWrDown | RWrDownDrop => 1 | _ => 0 end.
Definition panics (pc : rw_pc) : nat := match pc with RPanicked => 1 | _ => 0 end.

(** The word counts the readers, has the writer bit exactly when there is a write guard, and the
    upgraded bit when there is an upgradeable guard and otherwise only next to a write guard. *)
Record rw_inv (s : system) : Prop := mkRwInv {
  rv_word : exists u w, rw_lock (shared s) = word (total counted (agents s)) u w /\
    (if w then total writes (agents s) = 1 else total writes (agents s) = 0) /\
    (if u then total upgrades (agents s) = 1 \/ total writes (agents s) = 1 else total upgrades (agents s) = 0);
  rv_one : total writes (agents s) + total upgrades (agents s) <= 1;
  rv_excl : total writes (agents s) = 1 -> total reads (agents s) = 0;
  rv_panics : total panics (agents s) = 0;
  rv_len : (4 * Z.of_nat (length (agents s)) + 3 < 2 ^ 64)%Z }.

Lemma word_add r u w d : (word (S r) u w < 2 ^ 64)%Z -> fetch_add READER (mkRw (word r u w) d) = mkRw (word (S r) u w) d.
Proof.
  intros Hlt. unfold fetch_add, with_lock, wrap. cbn [rw_lock rw_data]. f_equal. rewrite Z.mod_small.
  - unfold word. change READER with 4%Z. lia.
  - unfold word in *. change READER with 4%Z. destruct u, w; cbn [Z.b2z] in *; lia.
Qed.

Lemma word_sub r u w d : (word (S r) u w < 2 ^ 64)%Z -> fetch_sub READER (mkRw (word (S r) u w) d) = mkRw (word r u w) d.
Proof.
  intros Hlt. unfold fetch_sub, with_lock, wrap. cbn [rw_lock rw_data]. f_equal. rewrite Z.mod_small.
  - unfold word. change READER with 4%Z. lia.
  - unfold word in *. change READER with 4%Z. destruct u, w; cbn [Z.b2z] in *; lia.
Qed.

Lemma word_sub_up r w d : (word r true w < 2 ^ 64)%Z -> fetch_sub UPGRADED (mkRw (word r true w) d) = mkRw (word r false w) d.
Proof.
  intros Hlt. unfold fetch_sub, with_lock, wrap. cbn [rw_lock rw_data]. f_equal. rewrite Z.mod_small.
  - unfold word. change UPGRADED with 2%Z. cbn [Z.b2z]. lia.
  - unfold word in *. change UPGRADED with 2%Z. destruct w; cbn [Z.b2z] in *; lia.
Qed.

(** The sums over the agents before and after agent [i] moves from [pc] to [pc']. *)
Lemma totals_insert l i pc pc' : l !! i = Some pc ->
  let l' := <[i := pc']> l in
  total counted l' + counted pc = total counted l + counted pc' /\ total reads l' + reads pc = total reads l + reads pc' /\
  total upgrades l' + upgrades pc = total upgrades l + upgrades pc' /\ total writes l' + writes pc = total writes l + writes pc' /\
  total panics l' + panics pc = total panics l + panics pc' /\ length l' = length l /\
  total counted l <= length l /\ total counted l' <= length l /\ counted pc <= total counted l /\
  upgrades pc <= total upgrades l /\ writes pc <= total writes l /\ total reads l <= total counted l.
Proof.
  intros Hi l'. pose proof (total_bound counted l 1 ltac:(intros []; cbn; lia)). pose proof (total_bound counted l' 1 ltac:(intros []; cbn; lia)).
  assert (length l' = length l) by apply length_insert. split_and!; try (by apply total_insert); try (by eapply total_ge); try lia. apply total_le. intros []; cbn; lia.
Qed.

(** The word is in range. *)
Lemma word_range r u w n : r <= n -> (4 * Z.of_nat n + 3 < 2 ^ 64)%Z -> (word r u w < 2 ^ 64)%Z.
Proof. intros Hr Hn. unfold word. destruct u, w; cbn [Z.b2z]; lia. Qed.

(** The invariant for the word [4 * C + 2 * u + w]. *)
Lemma rw_inv_intro (l : list rw_pc) (d : T) (u w : bool) : (if w then total writes l = 1 else total writes l = 0) ->
  (if u then total upgrades l = 1 \/ total writes l = 1 else total upgrades l = 0) ->
  total writes l + total upgrades l <= 1 -> (total writes l = 1 -> total reads l = 0) -> total panics l = 0 ->
  (4 * Z.of_nat (length l) + 3 < 2 ^ 64)%Z -> rw_inv (mkSys (mkRw (word (total counted l) u w) d) l).
Proof. intros. split; try done. by exists u, w. Qed.

Lemma word_zero r u w : (word r u w =? 0)%Z = true -> r = 0 /\ u = false /\ w = false.
Proof. intros E%Z.eqb_eq. unfold word in E. destruct u, w; cbn [Z.b2z] in E; lia. Qed.

Lemma word_upgraded r u w : (word r u w =? UPGRADED)%Z = true -> r = 0 /\ u = true /\ w = false.
Proof. intros E%Z.eqb_eq. unfold word in E. change UPGRADED with 2%Z in E. destruct u, w; cbn [Z.b2z] in E; lia. Qed.

Lemma up_drop_word r d : up_drop_ok (mkRw (word r true false) d) = true.
Proof. unfold up_drop_ok. cbn [rw_lock]. by rewrite word_both. Qed.
Lemma write_drop_word r u d : write_drop_ok (mkRw (word r u true) d) = true.
Proof. unfold write_drop_ok. cbn [rw_lock]. by rewrite word_writer. Qed.
Lemma write_drop_eq r u w d : (word r u w < 2 ^ 64)%Z -> write_drop (mkRw (word r u w) d) = mkRw (word r false false) d.
Proof. intros Hlt. unfold write_drop, with_lock. cbn [rw_lock rw_data]. by rewrite word_and. Qed.

Section Step.
Context (l : list rw_pc) (d : T) (u w : bool) (i : nat) (pc pc' : rw_pc) (m : RwLock).
Context (Hinv : rw_inv (mkSys (mkRw (word (total counted l) u w) d) l)) (Hpc : l !! i = Some pc).
Context (Hw : if w then total writes l = 1 else total writes l = 0).
Context (Hu : if u then total upgrades l = 1 \/ total writes l = 1 else total upgrades l = 0).
Let l' : list rw_pc := <[i := pc']> l.

(** The new word has the new count, and the flags agree with the new agents. *)
Lemma rw_next u' w' d' : m = mkRw (word (total counted l + counted pc' - counted pc) u' w') d' ->
  panics pc' = 0 -> writes pc' + upgrades pc' + (total writes l - writes pc) + (total upgrades l - upgrades pc) <= 1 ->
  (if w' then total writes l + writes pc' = 1 + writes pc else total writes l + writes pc' = writes pc) ->
  (if u' then total upgrades l + upgrades pc' = 1 + upgrades pc \/ w' = true else total upgrades l + upgrades pc' = upgrades pc) ->
  (total writes l + writes pc' = 1 + writes pc -> total reads l + reads pc' = reads pc) -> rw_inv (mkSys m l').
Proof using Hinv Hpc.
  intros -> Hp H1 Hw' Hu' Hex. destruct Hinv as [_ I1 I2 I3 I4]. cbn [agents] in *.
  destruct (totals_insert l i pc pc' Hpc) as (T1 & T2 & T3 & T4 & T5 & T6 & T7 & T8 & T9 & T10 & T11 & T12). fold l' in T1, T2, T3, T4, T5, T6, T8.
  replace (total counted l + counted pc' - counted pc) with (total counted l') by lia. apply rw_inv_intro; try lia.
  - destruct w'; lia.
  - destruct u'; [|lia]. destruct Hu' as [Hu'|Hu']; [lia|]. subst w'. lia.
Qed.

(** Finish a case: the flags and the data after the step. *)
Ltac rw_close Hm Hnext u' w' d' :=
  injection Hm as <- <-; apply (Hnext u' w' d'); cbn in *; try lia;
  destruct u', w'; try lia; do 2 f_equal; lia.

Lemma rw_move_inv a : rw_move a (mkRw (word (total counted l) u w) d) pc = Some (m, pc') -> rw_inv (mkSys m l').
Proof using Hinv Hpc Hw Hu.
  intros Hm. pose proof rw_next as Hnext. pose proof Hinv as [_ I1 I2 I3 I4]. cbn [agents] in *.
  destruct (totals_insert l i pc pc' Hpc) as (T1 & T2 & T3 & T4 & T5 & T6 & T7 & T8 & T9 & T10 & T11 & T12). fold l' in T1, T2, T3, T4, T5, T6, T8.
  set (C := total counted l) in *. pose proof (word_range C u w (length l) T7 I4) as Hrg.
  assert (Hup : upgrades pc = 1 -> u = true /\ w = false /\ total upgrades l = 1) by (intros; destruct u, w; lia).
  assert (Hwr : writes pc = 1 -> w = true /\ total writes l = 1 /\ total upgrades l = 0) by (intros; destruct w; lia).
  assert (Hsub : counted pc = 1 -> fetch_sub READER (mkRw (word C u w) d) = mkRw (word (C - 1) u w) d).
  { intros Hct. destruct C as [|c] eqn:Ec; [lia|]. replace (S c - 1) with c by lia. by apply word_sub. }
  assert (Hadd : total counted l' = S C -> fetch_add READER (mkRw (word C u w) d) = mkRw (word (S C) u w) d)
    by (intros; apply word_add, (word_range _ _ _ (length l)); lia).
  unfold rw_move in Hm.
  destruct a as [|strong fails| |strong fails| | | | |v], pc; try discriminate Hm; apply (inj Some) in Hm; cbn in T1, T2, T3, T4, T5, T9, T10, T11, T12.
  - unfold try_read in Hm. cbn [rw_lock] in Hm. rewrite word_both in Hm.
    rewrite Hadd in Hm by (destruct u, w; cbn in Hm; injection Hm as _ <-; cbn in *; lia).
    destruct u, w; cbn in Hm; [rw_close Hm Hnext true true d|rw_close Hm Hnext true false d|rw_close Hm Hnext false true d|rw_close Hm Hnext false false d].
  - unfold try_write_internal, compare_exchange in Hm. cbn [rw_lock] in Hm.
    destruct ((word C u w =? 0)%Z && (strong || negb fails)) eqn:E; [|rw_close Hm Hnext u w d].
    apply andb_prop in E as [(E & -> & ->)%word_zero _]. injection Hm as <- <-. apply (Hnext false true d); cbn in *; try lia. by rewrite E.
  - unfold try_upgradeable_read, with_lock in Hm. cbn [rw_lock rw_data] in Hm. rewrite word_both, word_or in Hm.
    destruct u, w; cbn in Hm; [rw_close Hm Hnext true true d|rw_close Hm Hnext true false d|rw_close Hm Hnext true true d|rw_close Hm Hnext true false d].
  - destruct (Hup eq_refl) as (-> & -> & HU). unfold try_upgrade_internal, compare_exchange in Hm. cbn [rw_lock] in Hm.
    destruct ((word C true false =? UPGRADED)%Z && (strong || negb fails)) eqn:E; [|rw_close Hm Hnext true false d].
    apply andb_prop in E as [(E & _)%word_upgraded _]. injection Hm as <- <-. apply (Hnext false true d); cbn in *; try lia. by rewrite E.
  - destruct (Hup eq_refl) as (-> & -> & HU). rewrite Hadd in Hm by (injection Hm as _ <-; cbn in *; lia). rw_close Hm Hnext true false d.
  - destruct (Hwr eq_refl) as (-> & HW & HU). rewrite Hadd in Hm by (injection Hm as _ <-; cbn in *; lia). rw_close Hm Hnext u true d.
  - unfold read_drop_ok in Hm. cbn [rw_lock] in Hm. rewrite word_readers, (proj2 (Z.ltb_lt _ _)) in Hm by (done || lia). rw_close Hm Hnext u w d.
  - destruct (Hup eq_refl) as (-> & -> & HU). rewrite up_drop_word in Hm. rw_close Hm Hnext true false d.
  - destruct (Hwr eq_refl) as (-> & HW & HU). rewrite write_drop_word in Hm. rw_close Hm Hnext u true d.
  - rewrite (Hsub eq_refl) in Hm. rw_close Hm Hnext u w d.
  - unfold read_drop in Hm. rewrite (Hsub eq_refl) in Hm. rw_close Hm Hnext u w d.
  - destruct (Hup eq_refl) as (-> & -> & HU). unfold up_drop in Hm. rewrite word_sub_up in Hm by done. rw_close Hm Hnext false false d.
  - destruct (Hup eq_refl) as (-> & -> & HU). rewrite up_drop_word in Hm. rw_close Hm Hnext true false d.
  - destruct (Hup eq_refl) as (-> & -> & HU). unfold up_drop in Hm. rewrite word_sub_up in Hm by done. rw_close Hm Hnext false false d.
  - destruct (Hwr eq_refl) as (-> & HW & HU). rewrite write_drop_eq in Hm by done. rw_close Hm Hnext false false d.
  - destruct (Hwr eq_refl) as (-> & HW & HU). rewrite write_drop_word in Hm. rw_close Hm Hnext u true d.
  - destruct (Hwr eq_refl) as (-> & HW & HU). rewrite write_drop_eq in Hm by done. rw_close Hm Hnext false false d.
  - rw_close Hm Hnext u w d.
  - rw_close Hm Hnext u w d.
  - rw_close Hm Hnext u w d.
  - rw_close Hm Hnext u w v.
Qed.
End Step.

Lemma rw_step_inv s i a s' : rw_inv s -> sys_step rw_move (i, a) s = Some s' -> rw_inv s'.
Proof.
  intros Hinv (pc & m & pc' & Hpc & Hm & ->)%step_inv. pose proof Hinv as [(u & w & Hlk & Hw & Hu) _ _ _ _].
  destruct s as [[lk d] l]. cbn [shared agents rw_lock] in *. subst lk. by eapply rw_move_inv.
Qed.

Lemma rw_reachable n v s : (4 * Z.of_nat n + 3 < 2 ^ 64)%Z -> reachable rw_move (rw_start n v) s -> rw_inv s.
Proof.
  intros Hn Hr. eapply (reachable_inv _ rw_inv); [exact Hr| |intros; by eapply rw_step_inv].
  unfold rw_start, RwLock_new. replace 0%Z with (word (total counted (replicate n RIdle)) false false) by (by rewrite total_replicate).
  apply rw_inv_intro; rewrite ?total_replicate, ?length_replicate by done; lia.
Qed.
End RwLock.
Arguments rw_act T : clear implicits.

(** ** [Once] *)

Definition INCOMPLETE : Z := 0.
Definition RUNNING : Z := 1.
Definition COMPLETE : Z := 2.
Definition PANICKED : Z := 3.

Section Once.
Context {T : Type}.

Record Once := mkOnce { on_state : Z; on_data : option T }.

(** Outside; in [call_once] before the [compare_and_swap]; running the builder; with the
    value stored; unwinding from the builder; before the final [_force_get]; in the loop with
    the status that it saw; in [wait]; returned; stopped by a panic; in code that is unreachable. *)
Inductive once_pc :=
  | OIdle | OCas | OBuilding | OBuilt | OUnwinding | OStored | OLoop (status : Z) | OWaiting
  | OReturned (v : T) | OPanicked | OUnreachable.

Inductive once_act :=
  | OCall                        (** [call_once]: the first load *)
  | OBuild (r : option T)        (** the builder returns a value or panics *)
  | OTry                         (** [try] *)
  | OWait                        (** call [wait] *)
  | OStep.                       (** the next access *)

Definition Once_new : Once := mkOnce INCOMPLETE None.
Definition with_state (st : Z) (o : Once) : Once := mkOnce st (on_data o).

Definition force_get (o : Once) : once_pc := match on_data o with Some p => OReturned p | None => OUnreachable end.

(** [call_once] behind the first load; the end of a loop round. *)
Definition call_once (o : Once) : once_pc := if (on_state o =? INCOMPLETE)%Z then OCas else OLoop (on_state o).
Definition once_cas (o : Once) : Once * once_pc :=
  if (on_state o =? INCOMPLETE)%Z then (with_state RUNNING o, OBuilding) else (o, OLoop (on_state o)).
Definition once_loop (status : Z) (o : Once) : once_pc :=
  if (status =? RUNNING)%Z then OLoop (on_state o)
  else if (status =? PANICKED)%Z then OPanicked
  else if (status =? COMPLETE)%Z then force_get o
  else OUnreachable.
Definition once_try (o : Once) : once_pc := if (on_state o =? COMPLETE)%Z then force_get o else OIdle.
Definition once_wait (o : Once) : once_pc :=
  if (on_state o =? INCOMPLETE)%Z then OIdle
  else if (on_state o =? RUNNING)%Z then OWaiting
  else if (on_state o =? COMPLETE)%Z then force_get o
  else if (on_state o =? PANICKED)%Z then OPanicked
  else OUnreachable.

Definition once_move (a : once_act) (o : Once) (pc : once_pc) : option (Once * once_pc) :=
  match a, pc with
  | OCall, OIdle => Some (o, call_once o)
  | OStep, OCas => Some (once_cas o)
  | OBuild (Some v), OBuilding => Some (mkOnce (on_state o) (Some v), OBuilt)
  | OBuild None, OBuilding => Some (o, OUnwinding)
  | OStep, OBuilt => Some (with_state COMPLETE o, OStored)
  | OStep, OUnwinding => Some (with_state PANICKED o, OPanicked)
  | OStep, OStored => Some (o, force_get o)
  | OStep, OLoop st => Some (o, once_loop st o)
  | OTry, OIdle => Some (o, once_try o)
  | OWait, OIdle => Some (o, OWaiting)
  | OStep, OWaiting => Some (o, once_wait o)
  | _, _ => None
  end.

Definition once_start (n : nat) : system := mkSys Once_new (replicate n OIdle).

(** How often a builder runs. *)
Definition is_build (a : once_act) : nat := match a with OBuild _ => 1 | _ => 0 end.
Fixpoint builds (ls : list (nat * once_act)) : nat := match ls with [] => 0 | l :: ls => is_build l.2 + builds ls end.

Definition building (pc : once_pc) : nat := match pc with OBuilding | OBuilt | OUnwinding => 1 | _ => 0 end.
Definition built (pc : once_pc) : nat := match pc with OBuilt | OUnwinding => 1 | _ => 0 end.

Definition once_agent_ok (o : Once) (pc : once_pc) : Prop :=
  match pc with
  | OLoop st => on_state o <> INCOMPLETE /\ (st = RUNNING \/ (st = COMPLETE /\ on_state o = COMPLETE) \/ st = PANICKED)
  | OStored => on_state o = COMPLETE
  | OReturned v => on_state o = COMPLETE /\ on_data o = Some v
  | OBuilt => is_Some (on_data o)
  | OUnreachable => False
  | _ => True
  end.

(** [k] builders have run. *)
Record once_inv (k : nat) (s : system) : Prop := mkOnceInv {
  oi_agents : forall i pc, agents s !! i = Some pc -> once_agent_ok (shared s) pc;
  oi_state :
    (on_state (shared s) = INCOMPLETE /\ total building (agents s) = 0 /\ k = 0) \/
    (on_state (shared s) = RUNNING /\ total building (agents s) = 1 /\ k = total built (agents s)) \/
    (on_state (shared s) = COMPLETE /\ total building (agents s) = 0 /\ k = 1 /\ is_Some (on_data (shared s))) \/
    (on_state (shared s) = PANICKED /\ total building (agents s) = 0 /\ k = 1) }.

(** What one agent relies on survives the steps of the others. *)
Definition once_later (o o' : Once) : Prop :=
  (on_state o = COMPLETE -> on_state o' = COMPLETE /\ on_data o' = on_data o) /\ (is_Some (on_data o) -> is_Some (on_data o')) /\
  (on_state o <> INCOMPLETE -> on_state o' <> INCOMPLETE).

Lemma once_agent_later o o' pc : once_later o o' -> once_agent_ok o pc -> once_agent_ok o' pc.
Proof.
  intros (H1 & H2 & H3). destruct pc as [| | | | | |st| |v| |]; cbn; try done; [intros H; by apply H1| |].
  - intros [Hi H]. split; [auto|]. destruct H as [?|[[-> Hc]|?]]; [by left|right; left|by right; right]. split; [done|]. by apply H1.
  - intros [Hc Hd]. destruct (H1 Hc) as [H4 H5]. split; congruence.
Qed.

Lemma once_force_get o : on_state o = COMPLETE -> is_Some (on_data o) -> once_agent_ok o (force_get o).
Proof. intros Hc [v Hv]. unfold force_get. rewrite Hv. done. Qed.

(** What the steps do that neither start nor end a builder. *)
Lemma once_quiet k o l i pc pc' : once_inv k (mkSys o l) -> l !! i = Some pc -> 
  building pc = 0 -> building pc' = 0 -> once_agent_ok o pc' -> once_inv k (mkSys o (<[i := pc']> l)).
Proof.
  intros [Ha Hs] Hpc H1 H2 Hok. cbn [shared agents] in *. split; cbn [shared agents].
  - intros j pcj Hj. apply list_lookup_insert_Some in Hj as [(-> & <- & _)|[Hne Hj]]; [done|]. by apply (Ha j).
  - pose proof (total_insert building l i pc pc' Hpc). pose proof (total_insert built l i pc pc' Hpc).
    assert (built pc = 0 /\ built pc' = 0) by (clear -H1 H2; destruct pc, pc'; cbn in *; lia).
    replace (total building (<[i := pc']> l)) with (total building l) by lia.
    by replace (total built (<[i := pc']> l)) with (total built l) by lia.
Qed.

(** The steps that do: the agent is the only one that builds. *)
Lemma once_built_one l i pc : l !! i = Some pc -> total building l = building pc -> total built l = built pc.
Proof.
  intros Hpc Hone. pose proof (total_ge built l i pc Hpc). pose proof (total_ge (fun x => building x - built x) l i pc Hpc) as Hge. cbn in Hge.
  assert (Hsum : total (fun x => building x - built x) l + total built l = total building l).
  { clear. induction l as [|x l IH]; cbn; [done|]. destruct x; cbn; lia. }
  assert (building pc - built pc + built pc = building pc) by (destruct pc; cbn; lia). lia.
Qed.

Lemma once_busy k o l i pc : once_inv k (mkSys o l) -> l !! i = Some pc -> building pc = 1 ->
  on_state o = RUNNING /\ total building l = 1 /\ k = built pc.
Proof.
  intros [_ Hs] Hpc Hb. cbn [shared agents] in Hs. pose proof (total_ge building l i pc Hpc).
  destruct Hs as [(? & ? & ?)|[(? & Ht & ->)|[(? & ? & ? & ?)|(? & ? & ?)]]]; try lia.
  split_and!; [done..|]. apply (once_built_one l i); [done|]. by rewrite Hb.
Qed.

Lemma once_loud k k' o l i pc o' pc' : once_inv k (mkSys o l) -> l !! i = Some pc -> total building l = building pc ->
  once_later o o' -> once_agent_ok o' pc' ->
  ((on_state o' = RUNNING /\ building pc' = 1 /\ k' = built pc') \/
   (on_state o' = COMPLETE /\ building pc' = 0 /\ k' = 1 /\ is_Some (on_data o')) \/
   (on_state o' = PANICKED /\ building pc' = 0 /\ k' = 1)) ->
  once_inv k' (mkSys o' (<[i := pc']> l)).
Proof.
  intros [Ha Hs] Hpc Hone Hl Hok Hst. cbn [shared agents] in *. split; cbn [shared agents].
  - intros j pcj Hj. apply list_lookup_insert_Some in Hj as [(-> & <- & _)|[Hne Hj]]; [done|]. by eapply once_agent_later, (Ha j).
  - pose proof (total_insert building l i pc pc' Hpc). pose proof (total_insert built l i pc pc' Hpc).
    pose proof (once_built_one l i pc Hpc Hone).
    destruct Hst as [(? & ? & ?)|[(? & ? & ? & ?)|(? & ? & ?)]]; [right; left|right; right; left|right; right; right]; split_and!; try done; lia.
Qed.

(** What an access finds, and that the place it leads to is sound. *)
Definition once_sound (o : Once) : Prop :=
  on_state o = INCOMPLETE \/ on_state o = RUNNING \/ (on_state o = COMPLETE /\ is_Some (on_data o)) \/ on_state o = PANICKED.

Lemma once_inv_sound k s : once_inv k s -> once_sound (shared s).
Proof. intros [_ Hs]. unfold once_sound. tauto. Qed.

Lemma force_get_quiet o : building (force_get o) = 0.
Proof. unfold force_get. by destruct (on_data o). Qed.

Lemma once_loop_ok o st : once_sound o -> once_agent_ok o (OLoop st) -> once_agent_ok o (once_loop st o) /\ building (once_loop st o) = 0.
Proof.
  intros Ho [Hi [->|[[-> Hc]| ->]]]; [|split; [apply once_force_get; [done|]|apply force_get_quiet]|done].
  - split; [|done]. split; [done|]. destruct Ho as [?|[?|[[? _]|?]]]; [done|by left|right; left; done|by right; right].
  - destruct Ho as [Ho|[Ho|[[_ Ho]|Ho]]]; [..|done|]; rewrite Ho in Hc; discriminate Hc.
Qed.

Lemma once_access_ok o pc : once_sound o -> pc = call_once o \/ pc = once_try o \/ pc = once_wait o \/ (on_state o = COMPLETE /\ pc = force_get o) ->
  once_agent_ok o pc /\ building pc = 0.
Proof.
  intros Ho H. pose proof (once_force_get o) as Hf. pose proof (force_get_quiet o) as Hq.
  unfold call_once, once_try, once_wait in H.
  destruct Ho as [Ho|[Ho|[[Ho Hd]|Ho]]]; rewrite ?Ho in H;
    destruct H as [->|[->|[->|[Hc ->]]]]; try discriminate Hc;
    cbn; rewrite ?Ho; split; eauto.
Qed.

Lemma once_later_running o o' : on_state o = RUNNING -> on_state o' <> INCOMPLETE -> (is_Some (on_data o) -> is_Some (on_data o')) -> once_later o o'.
Proof. intros H1 H2 H3. split; [rewrite H1; discriminate|]. by split. Qed.

Lemma once_builder_step k s i a s' pc : once_inv k s -> agents s !! i = Some pc -> building pc = 1 -> sys_step once_move (i, a) s = Some s' ->
  once_inv (k + is_build a) s'.
Proof.
  intros Hinv Hi Hb (pc1 & o' & pc' & Hpc & Hm & ->)%step_inv. rewrite Hi in Hpc. injection Hpc as <-.
  pose proof (oi_agents _ _ Hinv i pc Hi) as Hok. destruct s as [o l]. cbn [shared agents] in *.
  destruct (once_busy _ _ _ _ _ Hinv Hi Hb) as (Hs & Ht & ->).
  destruct a as [|[v|]| | |], pc; try discriminate; injection Hm as <- <-; (eapply once_loud; [exact Hinv|exact Hi|done|apply once_later_running; cbn; rewrite ?Hs; by eauto|by cbn; eauto|]).
  - by left.
  - by left.
  - by right; left.
  - by right; right.
Qed.

Lemma once_cas_step k o l i : once_inv k (mkSys o l) -> l !! i = Some OCas ->
  once_inv k (mkSys (once_cas o).1 (<[i := (once_cas o).2]> l)).
Proof.
  intros Hinv Hi. unfold once_cas. destruct (Z.eqb_spec (on_state o) INCOMPLETE) as [Ho|Ho]; cbn [fst snd].
  - pose proof Hinv as [_ [(_ & Ht & ->)|Hs]]; cbn [shared agents] in *.
    2: { destruct Hs as [[Hs _]|[[Hs _]|[Hs _]]]; rewrite Ho in Hs; discriminate Hs. }
    eapply once_loud; [exact Hinv|exact Hi|done| |done|by left].
    split; [rewrite Ho; discriminate|]. done.
  - eapply once_quiet; [exact Hinv|exact Hi|done|done|]. split; [done|].
    destruct (once_inv_sound _ _ Hinv) as [?|[?|[[? _]|?]]]; cbn in *; [done|by left|right; left; done|by right; right].
Qed.

Lemma once_step_inv k s i a s' : once_inv k s -> sys_step once_move (i, a) s = Some s' -> once_inv (k + is_build a) s'.
Proof.
  intros Hinv Hst. pose proof Hst as (pc & o' & pc' & Hpc & Hm & ->)%step_inv.
  destruct (decide (building pc = 1)) as [Hb|Hb]; [by eapply once_builder_step|].
  pose proof (oi_agents _ _ Hinv i pc Hpc) as Hok. pose proof (once_inv_sound _ _ Hinv) as Ho.
  destruct s as [o l]. cbn [shared agents] in *.
  assert (Hquiet : forall q, o' = o -> pc' = q -> building pc = 0 -> once_agent_ok o q /\ building q = 0 -> once_inv (k + 0) (mkSys o' (<[i := pc']> l))).
  { intros q -> -> H1 [H2 H3]. rewrite Nat.add_0_r. by eapply once_quiet. }
  destruct a as [|[v|]| | |], pc as [| | | | | |st| |v'| |]; try discriminate Hm; try (by destruct Hb); cbn [once_move] in Hm; apply (inj Some) in Hm;
    cbn [is_build building] in *; try (injection Hm as <- <-; eapply Hquiet; [done..|apply once_access_ok; tauto]).
  - injection Hm as <- <-. by eapply Hquiet.
  - rewrite Nat.add_0_r. pose proof (once_cas_step k o l i Hinv Hpc) as H. by rewrite Hm in H.
  - injection Hm as <- <-. eapply Hquiet; [done..|]. by apply once_loop_ok.
Qed.

Lemma once_start_inv n : once_inv 0 (once_start n).
Proof.
  split; cbn.
  - intros i pc Hi. by apply lookup_replicate in Hi as [-> _].
  - left. split_and!; [done| |done]. by apply total_replicate.
Qed.

Lemma once_run_inv ls k s s' : once_inv k s -> sys_run once_move ls s = Some s' -> once_inv (k + builds ls) s'.
Proof.
  revert k s. induction ls as [|[i a] ls IH]; intros k s Hinv; cbn [sys_run builds snd]; [intros [= <-]; by rewrite Nat.add_0_r|].
  destruct (sys_step once_move (i, a) s) as [s1|] eqn:E; [|done]. cbn. intros Hr. rewrite Nat.add_assoc. eapply IH; [|exact Hr].
  by eapply once_step_inv.
Qed.
End Once.
Arguments once_act T : clear implicits.

(** ** What the locks promise *)

(** C26: in every interleaving of [lock], [try_lock], accesses through guards and drops of
    guards on one [Mutex], at most one agent has a guard; while it has, no step of another
    agent changes the data or the guard; and whenever no agent has a guard, an agent that is in
    [lock] has one after at most two of its own steps. *)
Theorem mutex_exclusive {T} n (v : T) s i : reachable mutex_move (mutex_start n v) s ->
  (agents s !! i = Some MGuard ->
     (forall j, agents s !! j = Some MGuard -> j = i) /\
     (forall j a s', j <> i -> sys_step mutex_move (j, a) s = Some s' ->
        mx_data (shared s') = mx_data (shared s) /\ agents s' !! i = Some MGuard)) /\
  ((forall j, agents s !! j <> Some MGuard) -> agents s !! i = Some MTry \/ agents s !! i = Some MSpin ->
     exists k s', k <= 2 /\ sys_run mutex_move (replicate k (i, MStep)) s = Some s' /\ agents s' !! i = Some MGuard).
Proof.
  intros Hr. pose proof (mutex_reachable n v s Hr) as Hinv. unfold mutex_inv in Hinv. split; [intros Hi; split|intros Hno Hi].
  - intros j Hj. destruct (decide (j = i)) as [|Hne]; [done|]. pose proof (total_ge_2 guards _ j i _ _ Hne Hj Hi) as H. cbn in H.
    destruct (mx_lock (shared s)); lia.
  - intros j a s' Hne (pc & m & pc' & Hpc & Hm & ->)%step_inv. cbn [shared agents]. rewrite list_lookup_insert_ne by done. split; [|done].
    pose proof (total_ge_2 guards _ j i _ _ Hne Hpc Hi) as H. assert (guards pc = 0) by (destruct (mx_lock (shared s)); cbn in H; lia).
    destruct (shared s) as [lk d], a, pc; try done; destruct lk; cbn in Hm; by injection Hm as <- <-.
  - assert (Hlk : mx_lock (shared s) = false).
    { rewrite total_zero in Hinv; [by destruct (mx_lock (shared s))|]. intros pc [j Hj]%list_elem_of_lookup.
      destruct pc; try done. by destruct (Hno j). }
    destruct s as [[lk d] l]. cbn in Hlk, Hi. subst lk. destruct Hi as [Hi|Hi].
    + exists 1, (mkSys (mkMutex true d) (<[i := MGuard]> l)). split; [lia|]. cbn. unfold sys_step. cbn. rewrite Hi. cbn. split; [done|].
      apply list_lookup_insert_eq. by eapply lookup_lt_Some.
    + exists 2, (mkSys (mkMutex true d) (<[i := MGuard]> l)). split; [lia|]. cbn. unfold sys_step. cbn. rewrite Hi. cbn.
      pose proof (lookup_lt_Some _ _ _ Hi). rewrite list_lookup_insert_eq by done. cbn. rewrite list_insert_insert_eq. split; [done|].
      by apply list_lookup_insert_eq.
Qed.

(** A thread takes the lock, a second one waits for it, the first writes and drops. *)
Definition mutex_history : list (nat * mutex_act nat) :=
  [(0, MLock); (0, MStep); (1, MLock); (1, MStep); (0, MWrite 7); (2, MTryLock)].

Lemma mutex_exclusive_witness : exists s, sys_run mutex_move mutex_history (mutex_start 3 0) = Some s /\
  mx_data (shared s) = 7 /\ (forall j, agents s !! j = Some MGuard -> j = 0).
Proof.
  eexists. split; [reflexivity|]. split; [reflexivity|].
  apply (mutex_exclusive 3 0 _ 0); [|reflexivity].
  apply (run_reachable _ _ mutex_history (mutex_start 3 0)); [apply reach_init|reflexivity].
Defined.

(** The guards that an agent of a [RwLock] can have. *)
Definition reading (pc : rw_pc) : bool := match pc with RRead | RReadDrop => true | _ => false end.
Definition upgradeable (pc : rw_pc) : bool := match pc with RUp | RUpDrop | RUpDown | RUpDownDrop => true | _ => false end.
Definition writing (pc : rw_pc) : bool := match pc with RWrite | RWriteDrop | RWrDown | RWrDownDrop => true | _ => false end.

Lemma rw_excludes {T} (s : system (Sh := RwLock (T := T))) i j pc pc' : rw_inv s -> i <> j -> agents s !! i = Some pc -> agents s !! j = Some pc' ->
  (writing pc -> ~ reading pc' /\ ~ upgradeable pc' /\ ~ writing pc') /\ (upgradeable pc -> ~ upgradeable pc').
Proof.
  intros [_ I1 I2 _ _] Hne Hi Hj. pose proof (total_ge_2 writes _ i j _ _ Hne Hi Hj). pose proof (total_ge_2 upgrades _ i j _ _ Hne Hi Hj).
  pose proof (total_ge writes _ i _ Hi). pose proof (total_ge upgrades _ j _ Hj). pose proof (total_ge reads _ j _ Hj).
  destruct pc, pc'; cbn in *; split; intros HH; try done; split_and?; intros HH'; try done; lia.
Qed.

(** Only a write guard changes the data. *)
Lemma rw_data_move {T} a (m m' : RwLock (T := T)) pc pc' : rw_move a m pc = Some (m', pc') -> ~ writing pc -> rw_data m' = rw_data m.
Proof.
  intros Hm Hw. destruct a as [|strong fails| |strong fails| | | | |v], pc; try discriminate Hm; try (by destruct Hw); apply (inj Some) in Hm;
    unfold try_read, try_write_internal, try_upgradeable_read, try_upgrade_internal, compare_exchange in Hm;
    repeat match type of Hm with context [if ?b then _ else _] => destruct b end; by injection Hm as <- <-.
Qed.

(** C27: with fewer than 2^62 agents, in every interleaving of the methods of one [RwLock] and of the
    drops of its guards no assertion of a [drop] fails; a writer is alone; there is at
    most one upgradeable guard; while an agent has a guard no other agent changes the data; and
    when no agent has anything to do with the lock its word is 0 again. *)
Theorem rwlock_exclusive {T} n (v : T) s : (4 * Z.of_nat n + 3 < 2 ^ 64)%Z -> reachable rw_move (rw_start n v) s ->
  (forall i, agents s !! i <> Some RPanicked) /\
  (forall i j pc pc', i <> j -> agents s !! i = Some pc -> agents s !! j = Some pc' ->
     (writing pc -> ~ reading pc' /\ ~ upgradeable pc' /\ ~ writing pc') /\ (upgradeable pc -> ~ upgradeable pc')) /\
  (forall i j pc a s', i <> j -> agents s !! i = Some pc -> reading pc || upgradeable pc || writing pc ->
     sys_step rw_move (j, a) s = Some s' -> rw_data (shared s') = rw_data (shared s)) /\
  ((forall pc, pc ∈ agents s -> pc = RIdle) -> rw_lock (shared s) = 0%Z).
Proof.
  intros Hn Hr. pose proof (rw_reachable n v s Hn Hr) as Hinv. split_and!.
  - intros i Hi. pose proof (total_ge panics _ i _ Hi). pose proof (rv_panics _ Hinv). cbn in *. lia.
  - intros i j pc pc' Hne Hi Hj. by apply (rw_excludes s i j).
  - intros i j pc a s' Hne Hi Hg (pc1 & m & pc' & Hj & Hm & ->)%step_inv. cbn [shared]. apply (rw_data_move _ _ _ _ _ Hm).
    intros Hw. destruct (rw_excludes s j i pc1 pc Hinv (not_eq_sym Hne) Hj Hi) as [H _]. destruct (H Hw) as (H1 & H2 & H3).
    destruct (reading pc), (upgradeable pc), (writing pc); naive_solver.
  - intros Hall. pose proof Hinv as [(u & w & -> & Hw & Hu) _ _ _ _].
    assert (Hz : forall f, f RIdle = 0 -> total f (agents s) = 0) by (intros f Hf; apply total_zero; intros pc Hpc; by rewrite (Hall pc Hpc)).
    rewrite (Hz counted) by done. rewrite (Hz writes) in Hw, Hu by done. rewrite (Hz upgrades) in Hu by done.
    destruct u, w; try done; lia.
Qed.

Definition rw_history : list (nat * rw_act nat) :=
  [(0, RTryUpgradeable); (1, RTryRead); (0, RTryUpgrade true false); (1, RNext); (0, RTryUpgrade true false); (0, RSet 5); (2, RTryWrite true false)].

Lemma rwlock_exclusive_witness : exists s, sys_run rw_move rw_history (rw_start 3 0) = Some s /\ agents s !! 0 = Some RWrite /\
  rw_data (shared s) = 5 /\ (forall i, agents s !! i <> Some RPanicked).
Proof.
  exists (mkSys (mkRw 1 5) [RWrite; RIdle; RIdle]). split; [vm_compute; reflexivity|]. split; [reflexivity|]. split; [reflexivity|].
  eapply (rwlock_exclusive 3 0); [vm_compute; reflexivity|].
  apply (run_reachable _ _ rw_history (rw_start 3 0)); [apply reach_init|vm_compute; reflexivity].
Defined.

(** C28: in every interleaving of [call_once], [try] and [wait] on one [Once] at most one builder
    runs; all values that are returned are the one value of the builder that ran; no thread
    gets to the code marked as unreachable; and behind a complete initialisation [try] and
    [call_once] return that value. *)
Theorem once_runs_once {T} n (ls : list (nat * once_act T)) s : sys_run once_move ls (once_start n) = Some s ->
  builds ls <= 1 /\ (forall i, agents s !! i <> Some OUnreachable) /\
  (forall i v, agents s !! i = Some (OReturned v) -> builds ls = 1 /\ on_data (shared s) = Some v) /\
  (on_state (shared s) = COMPLETE -> exists v, on_data (shared s) = Some v /\ once_try (shared s) = OReturned v /\
     once_loop COMPLETE (shared s) = OReturned v /\ call_once (shared s) = OLoop COMPLETE).
Proof.
  intros Hr. pose proof (once_run_inv ls 0 _ _ (once_start_inv n) Hr) as Hinv. cbn in Hinv. pose proof Hinv as [Ha Hs].
  pose proof (total_le built building (agents s) ltac:(intros []; cbn; lia)). split_and!.
  - destruct Hs as [(_ & _ & ?)|[(_ & ? & ?)|[(_ & _ & ? & _)|(_ & _ & ?)]]]; lia.
  - intros i Hi. exact (Ha i _ Hi).
  - intros i v Hi. destruct (Ha i _ Hi) as [Hc Hd]. split; [|done].
    destruct Hs as [(Hc' & _)|[(Hc' & _)|[(_ & _ & ? & _)|(Hc' & _)]]]; [..|done|]; rewrite Hc in Hc'; discriminate Hc'.
  - intros Hc. destruct Hs as [(Hc' & _)|[(Hc' & _)|[(_ & _ & _ & [v Hv])|(Hc' & _)]]]; [..|exists v|]; try (rewrite Hc in Hc'; discriminate Hc').
    unfold once_try, once_loop, call_once, force_get. by rewrite Hc, Hv.
Qed.

Definition once_history : list (nat * once_act nat) :=
  [(0, OCall); (1, OCall); (1, OStep); (0, OStep); (1, OBuild (Some 4)); (0, OStep); (1, OStep); (0, OStep); (1, OStep); (0, OStep)].

Lemma once_runs_once_witness : exists s, sys_run once_move once_history (once_start 2) = Some s /\
  agents s = [OReturned 4; OReturned 4] /\ builds once_history = 1 /\ on_data (shared s) = Some 4.
Proof.
  exists (mkSys (mkOnce 2 (Some 4)) [OReturned 4; OReturned 4]). split; [vm_compute; reflexivity|]. split; [reflexivity|].
  eapply (once_runs_once 2 once_history); [vm_compute; reflexivity|]. exact (eq_refl : [OReturned 4; OReturned 4] !! 0 = Some (OReturned 4)).
Defined.
