(* ===== verification/VSpace.v ===== *)
(** * The page tables (kernel/src/arch/vspace.rs)

    [VSpace] builds the four-level page tables of the kernel.  The tables are 4 KiB pages
    that the page allocator hands out zeroed; an entry of a table is a 64-bit word that the
    crate [x86] encodes and decodes.  The model keeps the words of all table pages in a store
    keyed by page address, so that two entries that point to the same page share it.

    Section [Ops] is the code.  Section [Tables] gives the invariant: every table page is
    reached by exactly one path, so that a write through one path changes only the addresses
    under it.  Section [Mapping] shows what [map_generic] does to the translation and the
    rights of every address, that it returns and how many pages it takes; then
    [map_change_prot], [set_guard_page] and the construction of the kernel's own map. *)

From Stdlib Require Import ZArith Lia.
From stdpp Require Import base gmap sets list numbers.
From stdpp Require Import options.
From S2P Require Import Prelude Buddy.

Set Default Proof Using "Type".
Local Open Scope Z_scope.

(** The flags of an entry that the code names. *)
Inductive Flag := P | RW | US | PCD | PS | XD.
Global Instance Flag_eq : EqDecision Flag.
Proof. solve_decision. Defined.
Global Instance Flag_countable : Countable Flag.
Proof.
  refine (inj_countable' (fun f => match f with P => 0%nat | RW => 1%nat | US => 2%nat | PCD => 3%nat | PS => 4%nat | XD => 5%nat end)
    (fun n => match n with 0%nat => P | 1%nat => RW | 2%nat => US | 3%nat => PCD | 4%nat => PS | _ => XD end) _). by intros [].
Defined.

Inductive MapAction :=
  | MNone | ReadUser | ReadKernel | ReadWriteUser | ReadWriteKernel | ReadWriteKernelNoCache
  | ReadExecuteUser | ReadExecuteKernel | ReadWriteExecuteUser | ReadWriteExecuteKernel.
Global Instance MapAction_eq : EqDecision MapAction.
Proof. solve_decision. Defined.

Inductive VSpaceError := AlreadyMapped (from to : Z).

Definition to_pdpt_rights (a : MapAction) : gset Flag :=
  match a with
  | MNone => ∅
  | ReadUser => {[XD]} ∪ {[US]}
  | ReadKernel => {[XD]}
  | ReadWriteUser => {[RW]} ∪ {[XD]} ∪ {[US]}
  | ReadWriteKernel => {[RW]} ∪ {[XD]}
  | ReadWriteKernelNoCache => {[RW]} ∪ {[XD]} ∪ {[PCD]}
  | ReadExecuteUser => {[US]}
  | ReadExecuteKernel => ∅
  | ReadWriteExecuteUser => {[RW]} ∪ {[US]}
  | ReadWriteExecuteKernel => {[RW]}
  end.
Definition to_pd_rights (a : MapAction) : gset Flag :=
  match a with
  | MNone => ∅
  | ReadUser => {[XD]} ∪ {[US]}
  | ReadKernel => {[XD]}
  | ReadWriteUser => {[RW]} ∪ {[XD]} ∪ {[US]}
  | ReadWriteKernel => {[RW]} ∪ {[XD]}
  | ReadWriteKernelNoCache => {[RW]} ∪ {[XD]} ∪ {[PCD]}
  | ReadExecuteUser => {[US]}
  | ReadExecuteKernel => ∅
  | ReadWriteExecuteUser => {[RW]} ∪ {[US]}
  | ReadWriteExecuteKernel => {[RW]}
  end.
Definition to_pt_rights (a : MapAction) : gset Flag :=
  match a with
  | MNone => ∅
  | ReadUser => {[XD]} ∪ {[US]}
  | ReadKernel => {[XD]}
  | ReadWriteUser => {[RW]} ∪ {[XD]} ∪ {[US]}
  | ReadWriteKernel => {[RW]} ∪ {[XD]}
  | ReadWriteKernelNoCache => {[RW]} ∪ {[XD]} ∪ {[PCD]}
  | ReadExecuteUser => {[US]}
  | ReadExecuteKernel => ∅
  | ReadWriteExecuteUser => {[RW]} ∪ {[US]}
  | ReadWriteExecuteKernel => {[RW]}
  end.

(** ** What the crate [x86] provides

    The levels of the entries, by the table that holds them. *)
Inductive level := PT | PD | PDPT | PML4.
Global Instance level_eq : EqDecision level.
Proof. solve_decision. Defined.

(** [PML4Entry::new] and so on; a word is read as an entry of the table it is found in. *)
Class Paging := {
  LARGE_PAGE_SIZE : Z;
  HUGE_PAGE_SIZE : Z;
  PML4_SLOT_SIZE : Z;
  PAGE_SIZE_ENTRIES : nat;
  entry_new : level -> Z -> gset Flag -> outcome Z;
  address : level -> Z -> Z;
  flags_of : level -> Z -> gset Flag;
  is_present : level -> Z -> bool;
  is_page : level -> Z -> bool;
  pml4_index : Z -> nat;
  pdpt_index : Z -> nat;
  pd_index : Z -> nat;
  pt_index : Z -> nat;
  huge_page_offset : Z -> Z;
  large_page_offset : Z -> Z;
  base_page_offset : Z -> Z;
}.

(** Its documented behaviour: page sizes of 4 KiB, 2 MiB and 1 GiB and tables of 512 entries; the index
    functions select the nine bits of a level and the offsets the bits below; a new entry for a
    page-aligned address below the 52 bits of a physical address reads back as that address and
    those flags, and every entry as such an address; present and page are the flags [P] and [PS]; a zero word is not present. *)
Class PagingLaws `(Paging) : Prop := {
  large_size : LARGE_PAGE_SIZE = 2 ^ 21;
  huge_size : HUGE_PAGE_SIZE = 2 ^ 30;
  slot_size : PML4_SLOT_SIZE = 2 ^ 39;
  table_entries : PAGE_SIZE_ENTRIES = 512%nat;
  new_entry : forall l a f, 0 <= a < 2 ^ 52 -> a mod 4096 = 0 ->
    exists e, entry_new l a f = Done e /\ address l e = a /\ flags_of l e = f;
  present_flag : forall l e, is_present l e = bool_decide (P ∈ flags_of l e);
  page_flag : forall l e, is_page l e = bool_decide (PS ∈ flags_of l e);
  zero_absent : forall l, is_present l 0 = false;
  address_range : forall l e, 0 <= address l e < 2 ^ 52 /\ address l e mod 4096 = 0;
  pml4_index_eq : forall v, pml4_index v = Z.to_nat (v / 2 ^ 39 mod 512);
  pdpt_index_eq : forall v, pdpt_index v = Z.to_nat (v / 2 ^ 30 mod 512);
  pd_index_eq : forall v, pd_index v = Z.to_nat (v / 2 ^ 21 mod 512);
  pt_index_eq : forall v, pt_index v = Z.to_nat (v / 2 ^ 12 mod 512);
  huge_offset : forall v, huge_page_offset v = v mod 2 ^ 30;
  large_offset : forall v, large_page_offset v = v mod 2 ^ 21;
  base_offset : forall v, base_page_offset v = v mod 2 ^ 12;
}.

(** ** Where the pages come from

    [global_alloc size align] is the global allocator of the kernel: the address of a region, which is
    zeroed when it is one page, or a panic when there is none. *)
Class PageSource (S : Type) := global_alloc : Z -> Z -> S -> outcome (Z * S).

(** What it promises for single pages: [src_ok st F] says that the pages that can still be handed out are [F]. *)
Class PageOwner (S : Type) := src_ok : S -> gset Z -> Prop.
Class PageSourceLaws (S : Type) `{PageSource S} `{PageOwner S} : Prop := {
  page_range : forall st F p, src_ok st F -> p ∈ F -> 0 < p < 2 ^ 52 /\ p mod 4096 = 0;
  page_taken : forall st F, src_ok st F -> F <> ∅ ->
    exists p st', global_alloc 4096 4096 st = Done (p, st') /\ p ∈ F /\ src_ok st' (F ∖ {[p]});
  page_none : forall st, src_ok st ∅ -> global_alloc 4096 4096 st = Panic;
}.

(** The table pages by their addresses; the first table is a box of its own. *)
Record VSpace (S : Type) := mkVSpace { pml4 : list Z; tables : gmap Z (list Z); source : S }.
Arguments mkVSpace {S}. Arguments pml4 {S}. Arguments tables {S}. Arguments source {S}.

Section Ops.
Context `{HP : Profile} `{HG : Paging} {Src : Type} `{HS : PageSource Src}.
Implicit Types (rights : MapAction) (vbase pbase psize : Z).

Definition VSpace_new (st : Src) : outcome (VSpace Src) :=
  e ← entry_new PML4 0 ∅; Done (mkVSpace (replicate PAGE_SIZE_ENTRIES e) ∅ st).

(** A word of a table: the page must be there and the index in range. *)
Definition read_pml4 (i : nat) : M (VSpace Src) Z := fun s => lift (index (pml4 s) i) s.
Definition write_pml4 (i : nat) (e : Z) : M (VSpace Src) unit := fun s =>
  if (i <? length (pml4 s))%nat then Done (tt, mkVSpace (<[i := e]> (pml4 s)) (tables s) (source s)) else Panic.
Definition read_entry (t : Z) (i : nat) : M (VSpace Src) Z := fun s =>
  lift (l ← expect (tables s !! t); index l i) s.
Definition write_entry (t : Z) (i : nat) (e : Z) : M (VSpace Src) unit := fun s =>
  l ← expect (tables s !! t);
  if (i <? length l)%nat then Done (tt, mkVSpace (pml4 s) (<[t := <[i := e]> l]> (tables s)) (source s)) else Panic.

(** A page of zeros, which is what a region of one page holds; what a larger one holds does not matter to the tables. *)
Definition zero_table : list Z := replicate 512 0.

Definition allocate_pages (how_many : Z) : M (VSpace Src) Z := fun s =>
  size ← umul 64 how_many BASE_PAGE_SIZE;
  '(v, st) ← global_alloc size 4096 (source s);
  if v =? 0 then Panic
  else p ← kernel_vaddr_to_paddr v; Done (p, mkVSpace (pml4 s) (if how_many =? 1 then <[p := zero_table]> (tables s) else tables s) st).

Definition allocate_one_page : M (VSpace Src) Z := allocate_pages 1.

Definition is_power_of_two (a : Z) : bool := (0 <? a) && (Z.land a (a - 1) =? 0).

Definition allocate_pages_aligned (how_many align_to : Z) : M (VSpace Src) Z :=
  assert (is_power_of_two align_to);;
  assert (BASE_PAGE_SIZE <=? align_to);;
  let alignment_mask := align_to - 1 in
  actual_how_many ← lift (uadd 64 how_many (Z.shiftr align_to 12));
  assert (how_many <=? actual_how_many);;
  paddr ← allocate_pages actual_how_many;
  len ← lift (umul 64 actual_how_many BASE_PAGE_SIZE);
  end_ ← lift (uadd 64 paddr len);
  up ← lift (uadd 64 paddr alignment_mask);
  let aligned_paddr := Z.ldiff up alignment_mask in
  assert (aligned_paddr mod align_to =? 0);;
  want ← lift (umul 64 how_many BASE_PAGE_SIZE);
  aligned_end ← lift (uadd 64 aligned_paddr want);
  bottom ← lift (usub 64 aligned_paddr paddr);
  top ← lift (usub 64 end_ aligned_end);
  unused ← lift (uadd 64 (bottom / BASE_PAGE_SIZE) (top / BASE_PAGE_SIZE));
  assert (unused =? actual_how_many - how_many);;
  mret aligned_paddr.

Definition new_pt : M (VSpace Src) Z := paddr ← allocate_one_page; lift (entry_new PD paddr ({[P]} ∪ {[RW]} ∪ {[US]})).
Definition new_pd : M (VSpace Src) Z := paddr ← allocate_one_page; lift (entry_new PDPT paddr ({[P]} ∪ {[RW]} ∪ {[US]})).
Definition new_pdpt : M (VSpace Src) Z := paddr ← allocate_one_page; lift (entry_new PML4 paddr ({[P]} ∪ {[RW]} ∪ {[US]})).

Definition get_pt (entry : Z) : M (VSpace Src) Z := lift (paddr_to_kernel_vaddr (address PD entry)).
Definition get_pd (entry : Z) : M (VSpace Src) Z := lift (paddr_to_kernel_vaddr (address PDPT entry)).
Definition get_pdpt (entry : Z) : M (VSpace Src) Z := lift (paddr_to_kernel_vaddr (address PML4 entry)).

Definition resolve_addr (addr : Z) : M (VSpace Src) (option Z) :=
  e4 ← read_pml4 (pml4_index addr);
  if negb (is_present PML4 e4) then mret None else
  pdpt ← get_pdpt e4;
  e3 ← read_entry pdpt (pdpt_index addr);
  if negb (is_present PDPT e3) then mret None else
  if is_page PDPT e3 then a ← lift (uadd 64 (address PDPT e3) (huge_page_offset addr)); mret (Some a) else
  pd ← get_pd e3;
  e2 ← read_entry pd (pd_index addr);
  if negb (is_present PD e2) then mret None else
  if is_page PD e2 then a ← lift (uadd 64 (address PD e2) (large_page_offset addr)); mret (Some a) else
  pt ← get_pt e2;
  e1 ← read_entry pt (pt_index addr);
  if negb (is_present PT e1) then mret None else
  a ← lift (uadd 64 (address PT e1) (base_page_offset addr)); mret (Some a).

(** The loops that enter 1 GiB pages into a PDPT and 2 MiB pages into a PD, which differ in the names
    only: the pages of [size] bytes from the entry [idx] on, as long as there is a whole page left to map and
    the table goes on. *)
Fixpoint big_loop (n : nat) (l : level) (size : Z) (flags : gset Flag) (table : Z) (idx : nat) pbase psize (mapped : Z) : M (VSpace Src) Z :=
  if (mapped <? psize) && (size <=? psize - mapped) && (idx <? 512)%nat then
    match n with
    | O => hang
    | Datatypes.S n =>
        e ← read_entry table idx;
        assert (negb (is_present l e));;
        a ← lift (uadd 64 pbase mapped);
        e ← lift (entry_new l a flags);
        write_entry table idx e;;
        mapped ← lift (uadd 64 mapped size);
        big_loop n l size flags table (idx + 1) pbase psize mapped
    end
  else mret mapped.
Definition huge_loop (pdpt : Z) (pdpt_idx : nat) pbase psize rights : M (VSpace Src) Z :=
  big_loop 512 PDPT HUGE_PAGE_SIZE ({[P]} ∪ {[PS]} ∪ to_pdpt_rights rights) pdpt pdpt_idx pbase psize 0.
Definition large_loop (pd : Z) (pd_idx : nat) pbase psize rights : M (VSpace Src) Z :=
  big_loop 512 PD LARGE_PAGE_SIZE ({[P]} ∪ {[PS]} ∪ to_pd_rights rights) pd pd_idx pbase psize 0.

(** The loop over the entries of a page table: an entry that is present stays. *)
Fixpoint base_loop (n : nat) (pt : Z) (pt_idx : nat) pbase psize rights (mapped : Z) : M (VSpace Src) Z :=
  if (mapped <? psize) && (pt_idx <? 512)%nat then
    match n with
    | O => hang
    | Datatypes.S n =>
        e ← read_entry pt pt_idx;
        (if negb (is_present PT e) then
           a ← lift (uadd 64 pbase mapped);
           e ← lift (entry_new PT a ({[P]} ∪ to_pt_rights rights));
           write_entry pt pt_idx e
         else assert (is_present PT e));;
        mapped ← lift (uadd 64 mapped BASE_PAGE_SIZE);
        base_loop n pt (pt_idx + 1) pbase psize rights mapped
    end
  else mret mapped.

(** The address that an entry of a PDPT or PD starts at. *)
Definition huge_pos (pml4_idx pdpt_idx : nat) : outcome Z :=
  a ← umul 64 PML4_SLOT_SIZE (Z.of_nat pml4_idx); b ← umul 64 HUGE_PAGE_SIZE (Z.of_nat pdpt_idx); uadd 64 a b.
Definition large_pos (pml4_idx pdpt_idx pd_idx : nat) : outcome Z :=
  a ← huge_pos pml4_idx pdpt_idx; b ← umul 64 LARGE_PAGE_SIZE (Z.of_nat pd_idx); uadd 64 a b.

(** The three stages of [map_generic].  The first makes sure that there is a PDPT and returns it. *)
Definition enter_pml4 vbase : M (VSpace Src) Z :=
  let pml4_idx := pml4_index vbase in
  e ← read_pml4 pml4_idx;
  (if negb (is_present PML4 e) then e ← new_pdpt; write_pml4 pml4_idx e else mret tt);;
  e ← read_pml4 pml4_idx;
  assert (is_present PML4 e);;
  get_pdpt e.

(** The second and the third stage, again the same but for the names: when the entry [idx] of the table is not
    present, map pages of [size] bytes if the addresses are right for one, and return how many bytes,
    or make a table for it; then return the table that the entry points to. *)
Definition enter_table (l : level) (size : Z) (pos : outcome Z) (loop new_table : M (VSpace Src) Z) (table : Z) (idx : nat)
    vbase pbase psize : M (VSpace Src) (Z + Z) :=
  e ← read_entry table idx;
  r ← (if negb (is_present l e) then
         vaddr_pos ← lift pos;
         if (vbase =? vaddr_pos) && (pbase mod size =? 0) && (size <=? psize) then
           mapped ← loop; mret (Some mapped)
         else e ← new_table; write_entry table idx e;; mret None
       else mret None);
  match r with
  | Some mapped => mret (inl mapped)
  | None =>
      e ← read_entry table idx;
      assert (is_present l e);;
      assert (negb (is_page l e));;
      t ← lift (paddr_to_kernel_vaddr (address l e)); mret (inr t)
  end.
Definition enter_pdpt (pdpt : Z) vbase pbase psize rights : M (VSpace Src) (Z + Z) :=
  let pml4_idx := pml4_index vbase in
  let pdpt_idx := pdpt_index vbase in
  enter_table PDPT HUGE_PAGE_SIZE (huge_pos pml4_idx pdpt_idx) (huge_loop pdpt pdpt_idx pbase psize rights) new_pd
    pdpt pdpt_idx vbase pbase psize.
Definition enter_pd (pd : Z) vbase pbase psize rights : M (VSpace Src) (Z + Z) :=
  let pml4_idx := pml4_index vbase in
  let pdpt_idx := pdpt_index vbase in
  let pd_idx := pd_index vbase in
  enter_table PD LARGE_PAGE_SIZE (large_pos pml4_idx pdpt_idx pd_idx) (large_loop pd pd_idx pbase psize rights) new_pt
    pd pd_idx vbase pbase psize.

(** What one call maps before it recurses or returns, in bytes. *)
Definition map_chunk vbase pbase psize rights : M (VSpace Src) Z :=
  pdpt ← enter_pml4 vbase;
  r ← enter_pdpt pdpt vbase pbase psize rights;
  match r with
  | inl mapped => mret mapped
  | inr pd =>
      r ← enter_pd pd vbase pbase psize rights;
      match r with
      | inl mapped => mret mapped
      | inr pt => base_loop 512 pt (pt_index vbase) pbase psize rights 0
      end
  end.

Fixpoint map_generic_rec (fuel : nat) vbase pbase psize rights : M (VSpace Src) (result VSpaceError unit) :=
  match fuel with
  | O => hang
  | Datatypes.S fuel =>
      assert (pbase mod BASE_PAGE_SIZE =? 0);;
      assert (psize mod BASE_PAGE_SIZE =? 0);;
      assert (vbase mod BASE_PAGE_SIZE =? 0);;
      assert (bool_decide (rights <> MNone));;
      mapped ← map_chunk vbase pbase psize rights;
      if mapped <? psize then
        vbase ← lift (uadd 64 vbase mapped);
        pbase ← lift (uadd 64 pbase mapped);
        psize ← lift (usub 64 psize mapped);
        map_generic_rec fuel vbase pbase psize rights
      else mret (Ok tt)
  end.

(** Every call but the last maps up to a boundary of 2 MiB, so this many calls are enough. *)
Definition calls psize : nat := Z.to_nat (psize / 2 ^ 21 + 2).
Definition map_generic vbase (pregion : Z * Z) rights : M (VSpace Src) (result VSpaceError unit) :=
  map_generic_rec (calls (pregion.2)) vbase (pregion.1) (pregion.2) rights.

Definition map_identity_with_offset (at_offset pbase end_ : Z) rights : M (VSpace Src) (result VSpaceError unit) :=
  assert (pbase <? end_);;
  vbase ← lift (uadd 64 at_offset pbase);
  size ← lift (usub 64 end_ pbase);
  map_generic vbase (pbase, size) rights.

(** The result is dropped; the flush of the TLB is not part of the tables. *)
Definition map_identity (base end_ : Z) rights : M (VSpace Src) unit :=
  map_identity_with_offset 0 base end_ rights;; mret tt.

(** [set_guard_page] and [map_change_prot] walk down to the entry of the page table. *)
Definition change_entry vbase (flags : gset Flag) : M (VSpace Src) bool :=
  e4 ← read_pml4 (pml4_index vbase);
  if negb (is_present PML4 e4) then mret false else
  pdpt ← get_pdpt e4;
  e3 ← read_entry pdpt (pdpt_index vbase);
  if negb (is_present PDPT e3) then mret false else
  pd ← get_pd e3;
  e2 ← read_entry pd (pd_index vbase);
  if negb (is_present PD e2) then mret false else
  pt ← get_pt e2;
  e1 ← read_entry pt (pt_index vbase);
  if negb (is_present PT e1) then mret false else
  e ← lift (entry_new PT (address PT e1) flags);
  write_entry pt (pt_index vbase) e;;
  mret true.

Definition set_guard_page vbase : M (VSpace Src) bool := change_entry vbase (to_pt_rights MNone).
Definition map_change_prot vbase rights : M (VSpace Src) bool := change_entry vbase ({[P]} ∪ to_pt_rights rights).

Fixpoint change_prot_loop (n : nat) (p : Z) vbase rights : M (VSpace Src) bool :=
  match n with
  | O => mret true
  | Datatypes.S n =>
      off ← lift (umul 64 p BASE_PAGE_SIZE);
      a ← lift (uadd 64 vbase off);
      done ← map_change_prot a rights;
      if negb done then mret done else change_prot_loop n (p + 1) vbase rights
  end.
Definition map_change_prot_range vbase (size : Z) rights : M (VSpace Src) bool :=
  assert (size mod BASE_PAGE_SIZE =? 0);;
  assert (vbase mod BASE_PAGE_SIZE =? 0);;
  change_prot_loop (Z.to_nat (size / BASE_PAGE_SIZE)) 0 vbase rights.

Definition alloc_stack_guarded (num_pages : Z) : M (VSpace Src) Z :=
  n ← lift (uadd 64 num_pages 1);
  stack_region ← allocate_pages n;
  v ← lift (paddr_to_kernel_vaddr stack_region);
  set_guard_page v;;
  lift (paddr_to_kernel_vaddr stack_region).

Definition map (base size : Z) rights (palignment : Z) : M (VSpace Src) (result VSpaceError (Z * Z)) :=
  assert (base mod BASE_PAGE_SIZE =? 0);;
  assert (size mod BASE_PAGE_SIZE =? 0);;
  paddr ← allocate_pages_aligned (size / BASE_PAGE_SIZE) palignment;
  r ← map_generic base (paddr, size) rights;
  match r with Ok _ => mret (Ok (paddr, size)) | Err e => mret (Err e) end.
End Ops.

(** ** The tables as paths

    The depth of an entry: 0 in the PML4, 3 in a page table.  [size_at d] is the range of one
    entry, [slot d v] the number of the entry of that depth that is for [v]. *)
Definition lvl (d : nat) : level := match d with 0%nat => PML4 | 1%nat => PDPT | 2%nat => PD | _ => PT end.
Definition size_at (d : nat) : Z := match d with 0%nat => 2 ^ 39 | 1%nat => 2 ^ 30 | 2%nat => 2 ^ 21 | _ => 2 ^ 12 end.
Definition slot (d : nat) (v : Z) : Z := v / size_at d.
Definition idx (d : nat) (v : Z) : nat := Z.to_nat (slot d v mod 512).
Definition canonical (v : Z) : Prop := 0 <= v < 2 ^ 48.

Lemma size_pos d : 0 < size_at d.
Proof. by destruct d as [|[|[|]]]. Qed.
Lemma size_S d : (d < 3)%nat -> size_at d = 512 * size_at (Datatypes.S d).
Proof. intros Hd. destruct d as [|[|[|]]]; [done..|lia]. Qed.
Lemma size_page d : size_at d mod 4096 = 0.
Proof. by destruct d as [|[|[|]]]. Qed.

Lemma slot_nonneg d v : 0 <= v -> 0 <= slot d v.
Proof. intros Hv. pose proof (size_pos d). by apply Z.div_pos. Qed.
Lemma slot_S d v : (d < 3)%nat -> 0 <= v -> slot (Datatypes.S d) v = 512 * slot d v + Z.of_nat (idx (Datatypes.S d) v).
Proof.
  intros Hd Hv. unfold idx. rewrite Z2Nat.id by (apply Z.mod_pos_bound; lia). unfold slot. rewrite (size_S d Hd).
  rewrite (Z.mul_comm 512 (size_at _)), <- Z.div_div by (pose proof (size_pos (Datatypes.S d)); lia). apply Z.div_mod. lia.
Qed.
Lemma slot_0 v : canonical v -> slot 0 v = Z.of_nat (idx 0 v).
Proof.
  intros [H1 H2]. unfold idx. assert (0 <= slot 0 v < 512).
  { split; [by apply slot_nonneg|]. apply Z.div_lt_upper_bound; cbn; lia. }
  rewrite Z.mod_small by done. lia.
Qed.
Lemma idx_lt d v : (idx d v < 512)%nat.
Proof. unfold idx. pose proof (Z.mod_pos_bound (slot d v) 512). lia. Qed.

Lemma slot_bounds d v : slot d v * size_at d <= v < (slot d v + 1) * size_at d.
Proof.
  pose proof (size_pos d). unfold slot. pose proof (Z.div_mod v (size_at d) ltac:(lia)). pose proof (Z.mod_pos_bound v (size_at d)). nia.
Qed.
Lemma slot_eq d v k : k * size_at d <= v < (k + 1) * size_at d -> slot d v = k.
Proof. intros H. pose proof (size_pos d). symmetry. apply (Z.div_unique _ _ _ (v - k * size_at d)); [left|]; lia. Qed.

(** The slots of an address at a smaller depth follow from those at a larger one. *)
Lemma slot_up d d' v v' : (d <= d')%nat -> (d' <= 3)%nat -> 0 <= v -> 0 <= v' -> slot d' v = slot d' v' -> slot d v = slot d v'.
Proof.
  intros Hd Hd' Hv Hv'. induction Hd as [|d' Hd IH]; [done|]. intros E. apply IH; [lia|].
  unfold slot in *. rewrite (size_S d') by lia. rewrite (Z.mul_comm 512), <- !Z.div_div by (pose proof (size_pos (Datatypes.S d')); lia). by rewrite E.
Qed.

Section Tables.
Context `{HG : Paging} {Src : Type} `{HO : PageOwner Src} {HL : PagingLaws HG}.
Implicit Types (s : VSpace Src) (v : Z) (d : nat) (own : gmap Z (nat * Z)) (F : gset Z).

(** The table that an entry points to. *)
Definition points (d : nat) (e : Z) : option Z :=
  if is_present (lvl d) e && (d <? 3)%nat && ((d =? 0)%nat || negb (is_page (lvl d) e)) then Some (address (lvl d) e) else None.

(** The entry of depth [d] on the way to [v]. *)
Fixpoint down s v (d : nat) : option Z :=
  match d with
  | O => pml4 s !! idx 0 v
  | Datatypes.S d' => e ← down s v d'; p ← points d' e; t ← tables s !! p; t !! idx d v
  end.

(** [own] gives for every table page the depth of its entries and the slot above that it is the table of;
    [F] are the pages that the allocator has. *)
Record wf own s F : Prop := mkWf {
  wf_len : length (pml4 s) = 512%nat;
  wf_tab : forall p x t, own !! p = Some x -> tables s !! p = Some t -> length t = 512%nat;
  wf_root : forall i e q, pml4 s !! i = Some e -> points 0 e = Some q -> own !! q = Some (1%nat, Z.of_nat i);
  wf_next : forall p d k t i e q, own !! p = Some (d, k) -> tables s !! p = Some t -> t !! i = Some e -> points d e = Some q ->
    own !! q = Some (Datatypes.S d, 512 * k + Z.of_nat i);
  wf_dom : forall p x, own !! p = Some x -> is_Some (tables s !! p);
  wf_src : src_ok (source s) F;
  wf_free : forall p, p ∈ F -> own !! p = None }.

Lemma points_depth d e q : points d e = Some q -> (d < 3)%nat.
Proof. unfold points. destruct (Nat.ltb_spec d 3); [done|]. by rewrite andb_false_r. Qed.

Lemma down_page own s F v d e q : wf own s F -> canonical v -> down s v d = Some e -> points d e = Some q ->
  own !! q = Some (Datatypes.S d, slot d v).
Proof.
  intros Hwf Hv. revert e q. induction d as [|d IH]; intros e q; cbn [down].
  - intros He Hq. rewrite slot_0 by done. by eapply wf_root.
  - destruct (down s v d) as [e'|] eqn:Ed; [|done]. cbn. destruct (points d e') as [q'|] eqn:Eq; [|done]. cbn.
    pose proof (IH e' q' eq_refl Eq) as Ho. destruct (tables s !! q') as [t|] eqn:Et; [|done]. cbn. intros Hi Hq.
    rewrite slot_S by (apply points_depth in Eq; apply Hv || done). by eapply wf_next.
Qed.

(** Below a table there is an entry. *)
Lemma down_S own s F v d e q : wf own s F -> canonical v -> down s v d = Some e -> points d e = Some q ->
  exists t e', tables s !! q = Some t /\ length t = 512%nat /\ t !! idx (Datatypes.S d) v = Some e' /\ down s v (Datatypes.S d) = Some e'.
Proof.
  intros Hwf Hv Hd Hq. pose proof (down_page _ _ _ _ _ _ _ Hwf Hv Hd Hq) as Ho. destruct (wf_dom _ _ _ Hwf _ _ Ho) as [t Ht].
  pose proof (wf_tab _ _ _ Hwf _ _ _ Ho Ht) as Hl. destruct (lookup_lt_is_Some_2 t (idx (Datatypes.S d) v)) as [e' He']; [rewrite Hl; apply idx_lt|].
  exists t, e'. split_and!; [done..|]. cbn. rewrite Hd. cbn. rewrite Hq. cbn. by rewrite Ht.
Qed.

Lemma down_0 own s F v : wf own s F -> is_Some (down s v 0).
Proof. intros Hwf. apply lookup_lt_is_Some_2. rewrite (wf_len _ _ _ Hwf). apply idx_lt. Qed.

(** The walk depends on the owned tables only. *)
Lemma down_agree own s s' F v d : wf own s F -> canonical v -> pml4 s' = pml4 s -> (forall p x, own !! p = Some x -> tables s' !! p = tables s !! p) ->
  down s' v d = down s v d.
Proof.
  intros Hwf Hv Hr Ht. induction d as [|d IH]; cbn [down]; [by rewrite Hr|]. rewrite IH. destruct (down s v d) as [e|] eqn:Ed; [|done]. cbn.
  destruct (points d e) as [q|] eqn:Eq; [|done]. cbn. by rewrite (Ht q _ (down_page _ _ _ _ _ _ _ Hwf Hv Ed Eq)).
Qed.

(** Write the entry of depth [d] on the way to [v]. *)
Definition set_down s v (d : nat) (e : Z) : VSpace Src :=
  match d with
  | O => mkVSpace (<[idx 0 v := e]> (pml4 s)) (tables s) (source s)
  | Datatypes.S d' =>
      match (e' ← down s v d'; points d' e') with
      | Some p => mkVSpace (pml4 s) (alter (fun t => <[idx d v := e]> t) p (tables s)) (source s)
      | None => s
      end
  end.

(** Addresses in one slot share the entries down to it. *)
Lemma down_slot s v v' d : canonical v -> canonical v' -> (d <= 3)%nat -> slot d v = slot d v' -> down s v d = down s v' d.
Proof.
  intros Hv Hv'. induction d as [|d IH]; intros Hd Hs; cbn [down]; unfold idx; rewrite Hs; [done|].
  rewrite IH; [done|lia|]. apply (slot_up d (Datatypes.S d)); [lia|lia|apply Hv|apply Hv'|done].
Qed.

(** A write at depth [d] is to the root or to one page, which is a table of that depth. *)
Lemma set_down_S own s F v d e0 e : wf own s F -> canonical v -> down s v (Datatypes.S d) = Some e0 ->
  exists e1 p t, down s v d = Some e1 /\ points d e1 = Some p /\ own !! p = Some (Datatypes.S d, slot d v) /\ tables s !! p = Some t /\ length t = 512%nat /\
    t !! idx (Datatypes.S d) v = Some e0 /\
    set_down s v (Datatypes.S d) e = mkVSpace (pml4 s) (<[p := <[idx (Datatypes.S d) v := e]> t]> (tables s)) (source s).
Proof.
  intros Hwf Hv He0. cbn [down] in He0. unfold set_down.
  destruct (down s v d) as [e1|] eqn:Ed; [|done]. cbn in *. destruct (points d e1) as [p|] eqn:Ep; [|done]. cbn in *.
  pose proof (down_page _ _ _ _ _ _ _ Hwf Hv Ed Ep) as Ho. destruct (tables s !! p) as [t|] eqn:Et; [|done].
  pose proof (wf_tab _ _ _ Hwf _ _ _ Ho Et) as Hl. exists e1, p, t. split_and!; try done. f_equal. apply map_eq. intros q. destruct (decide (q = p)) as [->|Hne].
  - by rewrite lookup_alter_eq, lookup_insert_eq, Et.
  - by rewrite lookup_alter_ne, lookup_insert_ne by done.
Qed.

Lemma down_set_above own s F v d e0 e v' d' : wf own s F -> canonical v -> canonical v' -> down s v d = Some e0 -> (d' < d)%nat ->
  down (set_down s v d e) v' d' = down s v' d'.
Proof.
  intros Hwf Hv Hv' He0 Hd. destruct d as [|d]; [lia|]. destruct (set_down_S _ _ _ _ _ _ e Hwf Hv He0) as (e1 & p & t & _ & _ & Ho & _ & _ & _ & ->).
  induction d' as [|d' IH]; [done|]. cbn [down]. rewrite IH by lia. destruct (down s v' d') as [e'|] eqn:Ed'; [|done]. cbn.
  destruct (points d' e') as [q|] eqn:Eq; [|done]. cbn. pose proof (down_page _ _ _ _ _ _ _ Hwf Hv' Ed' Eq) as Hoq.
  rewrite lookup_insert_ne; [done|]. intros ->. rewrite Ho in Hoq. injection Hoq. lia.
Qed.

Lemma down_set_same own s F v d e0 e v' : wf own s F -> canonical v -> canonical v' -> (d <= 3)%nat -> down s v d = Some e0 -> slot d v' = slot d v ->
  down (set_down s v d e) v' d = Some e.
Proof.
  intros Hwf Hv Hv' Hd3 He0 Hs. pose proof (down_set_above own s F v d e0 e v' (pred d) Hwf Hv Hv' He0) as Hab. destruct d as [|d].
  - cbn [down set_down pml4]. unfold idx. rewrite Hs. apply list_lookup_insert_eq. rewrite (wf_len _ _ _ Hwf). apply idx_lt.
  - specialize (Hab ltac:(lia)). cbn [pred] in Hab. cbn [down]. rewrite Hab.
    destruct (set_down_S _ _ _ _ _ _ e Hwf Hv He0) as (e1 & p & t & Ed & Ep & Ho & Ht & Hl & _ & ->).
    assert (Hs' : slot d v' = slot d v) by (apply (slot_up d (Datatypes.S d)); [lia|done|apply Hv'|apply Hv|done]).
    rewrite (down_slot s v' v d), Ed by (done || lia). cbn. rewrite Ep. cbn. rewrite lookup_insert_eq. cbn. unfold idx. rewrite Hs. apply list_lookup_insert_eq.
    rewrite Hl. apply idx_lt.
Qed.

Lemma down_set_other own s F v d e0 e v' d' : wf own s F -> canonical v -> canonical v' -> down s v d = Some e0 -> slot d v' <> slot d v ->
  down (set_down s v d e) v' d' = down s v' d'.
Proof.
  intros Hwf Hv Hv' He0 Hs. induction d' as [|d' IH].
  - destruct d as [|d]; [|by eapply down_set_above; [..|lia]]. cbn. apply list_lookup_insert_ne. rewrite !slot_0 in Hs by done. lia.
  - destruct (decide (Datatypes.S d' < d)%nat) as [Hlt|Hge]; [by eapply down_set_above|]. cbn [down]. rewrite IH.
    destruct (down s v' d') as [e'|] eqn:Ed'; [|done]. cbn. destruct (points d' e') as [q|] eqn:Eq; [|done]. cbn.
    destruct d as [|d]; [done|]. destruct (set_down_S _ _ _ _ _ _ e Hwf Hv He0) as (e1 & p & t & Ed & Ep & Ho & Ht & Hl & _ & ->). cbn [tables].
    pose proof (down_page _ _ _ _ _ _ _ Hwf Hv' Ed' Eq) as Hoq. destruct (decide (q = p)) as [->|Hne]; [|by rewrite lookup_insert_ne].
    rewrite Ho in Hoq. injection Hoq as <- Hk. rewrite lookup_insert_eq, Ht. cbn. apply list_lookup_insert_ne. intros Hi. apply Hs.
    pose proof (points_depth _ _ _ Ep). rewrite !slot_S by (done || apply Hv || apply Hv'). by rewrite Hk, Hi.
Qed.

Lemma down_set_below own s F v d e0 e v' : wf own s F -> canonical v -> canonical v' -> (d <= 3)%nat -> down s v d = Some e0 -> slot d v' = slot d v ->
  down (set_down s v d e) v' (Datatypes.S d) = (p ← points d e; t ← tables (set_down s v d e) !! p; t !! idx (Datatypes.S d) v').
Proof. intros Hwf Hv Hv' Hd He0 Hs. cbn [down]. by rewrite (down_set_same own s F v d e0 e v'). Qed.

(** A write that adds no pointer keeps the tables well-formed. *)
Lemma set_down_wf own s F v d e0 e : wf own s F -> canonical v -> down s v d = Some e0 ->
  (forall q, points d e = Some q -> own !! q = Some (Datatypes.S d, slot d v)) -> wf own (set_down s v d e) F.
Proof.
  intros Hwf Hv He0 Hp. destruct d as [|d].
  - pose proof Hwf as [W1 W2 W3 W4 W5 W6 W7]. split; cbn [set_down pml4 tables source]; try done.
    + by rewrite length_insert.
    + intros i e' q [(<- & <- & _)|[_ Hi]]%list_lookup_insert_Some Hq; [|by eapply W3]. rewrite <- slot_0 by done. by apply Hp.
  - destruct (set_down_S _ _ _ _ _ _ e Hwf Hv He0) as (e1 & p & t & Ed & Ep & Ho & Ht & Hl & _ & ->).
    pose proof Hwf as [W1 W2 W3 W4 W5 W6 W7]. split; cbn [pml4 tables source]; try done.
    + intros q x t' Hq [[<- <-]|[_ Ht']]%lookup_insert_Some; [by rewrite length_insert|by eapply W2].
    + intros q d' k t' i e' q' Hq [[<- <-]|[_ Ht']]%lookup_insert_Some Hi Hq'; [|by eapply W4].
      rewrite Ho in Hq. injection Hq as <- <-. apply list_lookup_insert_Some in Hi as [(<- & <- & _)|[_ Hi]]; [|by eapply W4].
      pose proof (points_depth _ _ _ Ep). rewrite <- slot_S by (done || apply Hv). by apply Hp.
    + intros q x Hq. destruct (decide (q = p)) as [->|Hne]; [rewrite lookup_insert_eq; eauto|]. rewrite lookup_insert_ne by done. by eapply W5.
Qed.

(** ** What the tables say of an address: where it is and with which rights. *)
Definition leaf (d : nat) (e : Z) : bool := is_present (lvl d) e && ((d =? 3)%nat || (negb (d =? 0)%nat && is_page (lvl d) e)).
Definition leaf_at s v d : option (Z * gset Flag) :=
  e ← down s v d; if leaf d e then Some (address (lvl d) e + v mod size_at d, flags_of (lvl d) e ∖ {[PS]}) else None.
Definition access s v : option (Z * gset Flag) :=
  match leaf_at s v 1, leaf_at s v 2 with Some a, _ => Some a | None, Some a => Some a | None, None => leaf_at s v 3 end.

Lemma leaf_points d e : leaf d e = true -> points d e = None.
Proof.
  unfold leaf, points. destruct (is_present _ e); [|done]. cbn. destruct (Nat.eqb_spec d 3) as [->|H3]; [done|].
  destruct (Nat.eqb_spec d 0) as [->|H0]; [done|]. cbn. intros ->. by rewrite andb_false_r.
Qed.

Lemma leaf_above s v d e d' : down s v d = Some e -> (d' < d)%nat -> leaf_at s v d' = None.
Proof.
  revert e. induction d as [|d IH]; intros e He Hd; [lia|]. cbn [down] in He. destruct (down s v d) as [e1|] eqn:E1; [|done]. cbn in He.
  destruct (points d e1) as [q|] eqn:Eq; [|done]. destruct (decide (d' = d)) as [->|]; [|apply (IH e1 eq_refl); lia].
  unfold leaf_at. rewrite E1. cbn. destruct (leaf d e1) eqn:El; [|done]. apply leaf_points in El. by rewrite El in Eq.
Qed.

Lemma down_below s v d e d' : down s v d = Some e -> points d e = None -> (d < d')%nat -> down s v d' = None.
Proof.
  intros He Hp Hd. induction Hd as [|d' Hd IH]; cbn [down]; [by rewrite He; cbn; rewrite Hp|by rewrite IH].
Qed.

Lemma access_stop s v d e : down s v d = Some e -> points d e = None -> (d <= 3)%nat -> access s v = leaf_at s v d.
Proof.
  intros He Hp Hd. assert (Hlo : forall d', (d < d')%nat -> leaf_at s v d' = None)
    by (intros d' Hd'; unfold leaf_at; by rewrite (down_below _ _ _ _ _ He Hp Hd')).
  pose proof (fun d' => leaf_above s v d e d' He) as Hhi. unfold access.
  destruct d as [|[|[|[|]]]]; [..|lia]; rewrite ?(Hlo 1%nat), ?(Hlo 2%nat), ?(Hlo 3%nat), ?(Hhi 1%nat), ?(Hhi 2%nat) by lia; try done.
  - unfold leaf_at. rewrite He. cbn. unfold leaf. by destruct (is_present _ e).
  - by destruct (leaf_at s v 1).
  - by destruct (leaf_at s v 2).
Qed.

Lemma absent_points d e : is_present (lvl d) e = false -> points d e = None.
Proof. unfold points. by intros ->. Qed.
Lemma absent_leaf s v d e : down s v d = Some e -> is_present (lvl d) e = false -> leaf_at s v d = None.
Proof. unfold leaf_at, leaf. intros -> Hp. cbn. by rewrite Hp. Qed.
Lemma points_zero d : points d 0 = None.
Proof using HL. apply absent_points, zero_absent. Qed.

(** ** Writes

    [wrote s s' v d e b]: the entry of depth [d] on the way to [v] is now [e], and the entries under it, if any, are
    [b] and end there; nothing else changed. *)
Record wrote s s' v d (e : Z) (b : option Z) : Prop := mkWrote {
  wr_same : forall v', canonical v' -> slot d v' = slot d v -> down s' v' d = Some e;
  wr_below : forall v', canonical v' -> slot d v' = slot d v -> down s' v' (Datatypes.S d) = b;
  wr_above : forall v' d', canonical v' -> (d' < d)%nat -> down s' v' d' = down s v' d';
  wr_other : forall v' d', canonical v' -> slot d v' <> slot d v -> down s' v' d' = down s v' d' }.

Lemma access_wrote s s' v d e b v' : wrote s s' v d e b -> canonical v -> canonical v' -> (d <= 3)%nat ->
  (b = None /\ points d e = None) \/ ((d < 3)%nat /\ b = Some 0) ->
  access s' v' = if decide (slot d v' = slot d v) then leaf_at s' v' d else access s v'.
Proof using HL.
  intros [H1 H2 H3 H4] Hv Hv' Hd Hb. destruct (decide _) as [Es|Es].
  - specialize (H1 v' Hv' Es). specialize (H2 v' Hv' Es). destruct Hb as [[-> Hb]|[Hd3 ->]]; [by apply (access_stop _ _ _ e)|].
    rewrite (leaf_above s' v' _ _ d H2) by lia. rewrite (access_stop s' v' (Datatypes.S d) 0) by (done || apply points_zero || lia).
    apply (absent_leaf _ _ _ 0); [done|apply zero_absent].
  - unfold access, leaf_at. by rewrite !(H4 v' _ Hv' Es).
Qed.

(** What was there before: nothing. *)
Lemma access_none s v d e0 v' : canonical v -> canonical v' -> (d <= 3)%nat -> down s v d = Some e0 -> is_present (lvl d) e0 = false -> slot d v' = slot d v ->
  access s v' = None.
Proof.
  intros Hv Hv' Hd He0 Hp Hs. rewrite <- (down_slot s v' v d) in He0 by done.
  rewrite (access_stop s v' d e0) by (done || by apply absent_points). by apply (absent_leaf _ _ _ e0).
Qed.

(** A write of an entry that points nowhere. *)
Lemma wrote_leaf own s F v d e0 e : wf own s F -> canonical v -> (d <= 3)%nat -> down s v d = Some e0 -> points d e = None ->
  wrote s (set_down s v d e) v d e None /\ wf own (set_down s v d e) F.
Proof.
  intros Hwf Hv Hd He0 Hp. split; [split|].
  - intros v' Hv' Hs. by eapply down_set_same.
  - intros v' Hv' Hs. by rewrite (down_set_below own s F v d e0), Hp.
  - intros v' d' Hv' Hd'. by eapply down_set_above.
  - intros v' d' Hv' Hs. by eapply down_set_other.
  - eapply set_down_wf; [done..|]. by rewrite Hp.
Qed.

(** A fresh page, before an entry points to it. *)
Definition with_page s (q : Z) (st : Src) : VSpace Src := mkVSpace (pml4 s) (<[q := zero_table]> (tables s)) st.

Lemma fresh_wf own s F q st x : wf own s F -> q ∈ F -> src_ok st (F ∖ {[q]}) -> wf (<[q := x]> own) (with_page s q st) (F ∖ {[q]}).
Proof using HL.
  intros Hwf Hq Hst. pose proof (wf_free _ _ _ Hwf q Hq) as Hn. pose proof Hwf as [W1 W2 W3 W4 W5 W6 W7].
  assert (Hmono : forall p y, own !! p = Some y -> <[q := x]> own !! p = Some y) by (intros p y Hp; rewrite lookup_insert_ne; [done|congruence]).
  split; cbn [with_page pml4 tables source]; try done.
  - intros p y t [[<- <-]|[Hne Hp]]%lookup_insert_Some; [rewrite lookup_insert_eq; intros <-%(inj Some); apply length_replicate|].
    rewrite lookup_insert_ne by done. by eapply W2.
  - intros i e p Hi Hp. eapply Hmono, W3; done.
  - intros p d k t i e r [[<- ->]|[Hne Hp]]%lookup_insert_Some.
    + rewrite lookup_insert_eq. intros <-%(inj Some) [-> _]%lookup_replicate_1. by rewrite points_zero.
    + rewrite lookup_insert_ne by done. intros. eapply Hmono, W4; done.
  - intros p y [[<- <-]|[Hne Hp]]%lookup_insert_Some; [rewrite lookup_insert_eq; eauto|]. rewrite lookup_insert_ne by done. by eapply W5.
  - intros p [Hp Hpq]%elem_of_difference. rewrite lookup_insert_ne by set_solver. by apply W7.
Qed.

Lemma fresh_down own s F q st v d : wf own s F -> q ∈ F -> canonical v -> down (with_page s q st) v d = down s v d.
Proof.
  intros Hwf Hq Hv. eapply down_agree; [done..|]. intros p x Hp. cbn. rewrite lookup_insert_ne; [done|].
  intros ->. by rewrite (wf_free _ _ _ Hwf p Hq) in Hp.
Qed.

(** A write of an entry that points to a fresh page. *)
Lemma wrote_table own s F v d e0 e q st : wf own s F -> canonical v -> (d < 3)%nat -> down s v d = Some e0 -> q ∈ F -> src_ok st (F ∖ {[q]}) -> points d e = Some q ->
  let s' := set_down (with_page s q st) v d e in
  wrote s s' v d e (Some 0) /\ wf (<[q := (Datatypes.S d, slot d v)]> own) s' (F ∖ {[q]}).
Proof using HL.
  intros Hwf Hv Hd He0 Hq Hst Hp s'. set (s1 := with_page s q st) in *. set (own' := <[q := (Datatypes.S d, slot d v)]> own).
  pose proof (fresh_wf own s F q st (Datatypes.S d, slot d v) Hwf Hq Hst : wf own' s1 (F ∖ {[q]})) as Hwf1.
  assert (He1 : down s1 v d = Some e0) by (by unfold s1; rewrite (fresh_down own s F)).
  assert (Hwf' : wf own' s' (F ∖ {[q]})) by (eapply set_down_wf; [done..|]; intros r Hr; rewrite Hp in Hr; injection Hr as <-; apply lookup_insert_eq).
  split; [|done]. split.
  - intros v' Hv' Hs. eapply down_set_same; [exact Hwf1|done|done|lia|done|done].
  - intros v' Hv' Hs. unfold s'. rewrite (down_set_below own' s1 (F ∖ {[q]}) v d e0) by (done || lia). rewrite Hp. cbn.
    assert (Ht : tables s' !! q = Some zero_table).
    { unfold s'. destruct d as [|d]; [cbn; apply lookup_insert_eq|].
      destruct (set_down_S _ _ _ _ _ _ e Hwf1 Hv He1) as (e1 & p & t & Ed & Ep & _ & _ & _ & _ & ->). cbn. rewrite lookup_insert_ne; [apply lookup_insert_eq|].
      intros ->. unfold s1 in Ed. rewrite (fresh_down own s F) in Ed by done.
      pose proof (down_page _ _ _ _ _ _ _ Hwf Hv Ed Ep) as Ho. by rewrite (wf_free _ _ _ Hwf q Hq) in Ho. }
    fold s1. fold s'. rewrite Ht. change (zero_table !! idx (Datatypes.S d) v' = Some 0). apply lookup_replicate_2, idx_lt.
  - intros v' d' Hv' Hd'. unfold s'. rewrite (down_set_above own' s1 (F ∖ {[q]}) v d e0) by done. by apply (fresh_down own s F).
  - intros v' d' Hv' Hs. unfold s'. rewrite (down_set_other own' s1 (F ∖ {[q]}) v d e0) by done. by apply (fresh_down own s F).
Qed.
End Tables.

(** ** Counting the tables that a region still needs *)
Fixpoint count (f : Z -> bool) (a : Z) (n : nat) : nat :=
  match n with O => 0%nat | S n => ((if f a then 1 else 0) + count f (a + 1) n)%nat end.

Lemma count_ext f g a n : (forall k, a <= k < a + Z.of_nat n -> f k = g k) -> count f a n = count g a n.
Proof.
  revert a. induction n as [|n IH]; intros a H; [done|]. cbn. rewrite (H a) by lia. f_equal. apply IH. intros k Hk. apply H. lia.
Qed.
Lemma count_flip f g a n k : a <= k < a + Z.of_nat n -> f k = true -> g k = false -> (forall j, j <> k -> g j = f j) -> count f a n = Datatypes.S (count g a n).
Proof.
  revert a. induction n as [|n IH]; intros a Hk Hf Hg Hj; [lia|]. cbn. destruct (decide (a = k)) as [->|Hne].
  - rewrite Hf, Hg. cbn. f_equal. apply count_ext. intros j Hj'. symmetry. apply Hj. lia.
  - rewrite (IH (a + 1)) by (done || lia). rewrite (Hj a Hne). lia.
Qed.
Lemma count_pos f a n k : a <= k < a + Z.of_nat n -> f k = true -> (0 < count f a n)%nat.
Proof.
  revert a. induction n as [|n IH]; intros a Hk Hf; [lia|]. cbn. destruct (decide (a = k)) as [->|Hne]; [rewrite Hf; lia|].
  specialize (IH (a + 1) ltac:(lia) Hf). destruct (f a); lia.
Qed.
Lemma count_le f a n : (count f a n <= n)%nat.
Proof. revert a. induction n as [|n IH]; intros a; cbn; [lia|]. specialize (IH (a + 1)). destruct (f a); lia. Qed.
Lemma count_suffix f a n j : (count f (a + Z.of_nat j) n <= count f a (j + n))%nat.
Proof.
  revert a. induction j as [|j IH]; intros a; cbn [count Nat.add]; [by rewrite Z.add_0_r|].
  specialize (IH (a + 1)). replace (a + Z.of_nat (Datatypes.S j)) with (a + 1 + Z.of_nat j) by lia. destruct (f a); lia.
Qed.

Section Need.
Context `{HG : Paging} {Src : Type} `{HO : PageOwner Src} {HL : PagingLaws HG}.
Implicit Types (s : VSpace Src) (v : Z) (d : nat) (own : gmap Z (nat * Z)) (F : gset Z).

(** Is there a table under the entry [k] of depth [d]? *)
Definition has_table s d (k : Z) : bool :=
  match down s (k * size_at d) d with Some e => match points d e with Some _ => true | None => false end | None => false end.
Definition lacks s d a b : nat := count (fun k => negb (has_table s d k)) (slot d a) (Z.to_nat (slot d b - slot d a + 1)).
(** The tables that are missing on the ways to the addresses from [a] to [b]. *)
Definition need s a b : nat := (lacks s 0 a b + lacks s 1 a b + lacks s 2 a b)%nat.

Lemma slot_mono d a b : a <= b -> slot d a <= slot d b.
Proof. intros H. pose proof (size_pos d). apply Z.div_le_mono; lia. Qed.

Lemma lacks_suffix s d a a' b : a <= a' <= b -> (lacks s d a' b <= lacks s d a b)%nat.
Proof.
  intros H. pose proof (slot_mono d a a' ltac:(lia)). pose proof (slot_mono d a' b ltac:(lia)). unfold lacks.
  pose proof (count_suffix (fun k => negb (has_table s d k)) (slot d a) (Z.to_nat (slot d b - slot d a' + 1)) (Z.to_nat (slot d a' - slot d a))) as Hc.
  rewrite Z2Nat.id in Hc by lia. replace (slot d a + (slot d a' - slot d a)) with (slot d a') in Hc by lia. etrans; [exact Hc|].
  by replace (Z.to_nat (slot d a' - slot d a) + Z.to_nat (slot d b - slot d a' + 1))%nat with (Z.to_nat (slot d b - slot d a + 1)) by lia.
Qed.
Lemma need_suffix s a a' b : a <= a' <= b -> (need s a' b <= need s a b)%nat.
Proof. intros H. unfold need. pose proof (lacks_suffix s 0 a a' b H). pose proof (lacks_suffix s 1 a a' b H). pose proof (lacks_suffix s 2 a a' b H). lia. Qed.

(** The first address of the slot [k]. *)
Lemma slot_first d k : slot d (k * size_at d) = k.
Proof. apply slot_eq. pose proof (size_pos d). nia. Qed.
Lemma first_canonical d a b k : canonical a -> canonical b -> slot d a <= k <= slot d b -> canonical (k * size_at d).
Proof.
  intros [Ha _] [_ Hb] Hk. pose proof (slot_bounds d b). pose proof (slot_nonneg d a Ha). pose proof (size_pos d). split; nia.
Qed.

Lemma has_table_eq s s' d k : down s' (k * size_at d) d = down s (k * size_at d) d -> has_table s' d k = has_table s d k.
Proof. unfold has_table. by intros ->. Qed.
Lemma has_table_none s d k : (e ← down s (k * size_at d) d; points d e) = None -> has_table s d k = false.
Proof. unfold has_table. destruct (down s _ d) as [e|]; cbn; [by intros ->|done]. Qed.

(** A write where nothing was: what changes is whether that slot has a table. *)
Lemma has_table_wrote s s' v d e e0 b k d' : wrote s s' v d e b -> canonical v -> (d <= 3)%nat -> down s v d = Some e0 -> is_present (lvl d) e0 = false ->
  (b = None /\ points d e = None) \/ b = Some 0 -> canonical (k * size_at d') -> (d' <> d \/ k <> slot d v \/ points d e = None) ->
  has_table s' d' k = has_table s d' k.
Proof using HL.
  intros Hw Hv Hd He0 Hp Hb Hk Hor. destruct (decide (slot d (k * size_at d') = slot d v)) as [Es|Es];
    [|apply has_table_eq, (wr_other _ _ _ _ _ _ Hw); done].
  destruct (decide (d' < d)%nat) as [Hlt|Hge]; [apply has_table_eq, (wr_above _ _ _ _ _ _ Hw); done|].
  pose proof (wr_same _ _ _ _ _ _ Hw _ Hk Es) as Hs. pose proof (wr_below _ _ _ _ _ _ Hw _ Hk Es) as Hbl.
  assert (He0' : down s (k * size_at d') d = Some e0) by (by rewrite (down_slot s _ v d)).
  rewrite (has_table_none s d' k).
  2: { destruct (decide (d' = d)) as [->|Hne]; [rewrite He0'; cbn; by apply absent_points|].
       by rewrite (down_below _ _ d e0 d') by (done || (by apply absent_points) || lia). }
  apply has_table_none. destruct (decide (d' = d)) as [->|Hne].
  - rewrite slot_first in Es. rewrite Hs. cbn. destruct Hor as [?|[?|?]]; done.
  - destruct (decide (d' = Datatypes.S d)) as [->|Hne'].
    + rewrite Hbl. destruct Hb as [[-> _]| ->]; cbn; [done|apply points_zero].
    + destruct Hb as [[-> Hb]| ->]; [by rewrite (down_below _ _ d e d') by (done || lia)|].
      by rewrite (down_below _ _ (Datatypes.S d) 0 d') by (done || apply points_zero || lia).
Qed.

Lemma lacks_ext s s' d a b : (forall k, slot d a <= k <= slot d b -> has_table s' d k = has_table s d k) -> lacks s' d a b = lacks s d a b.
Proof. intros H. unfold lacks. apply count_ext. intros k Hk. by rewrite H by lia. Qed.

Lemma need_leaf s s' v d e e0 a b : wrote s s' v d e None -> canonical v -> (d <= 3)%nat -> down s v d = Some e0 -> is_present (lvl d) e0 = false ->
  points d e = None -> canonical a -> canonical b -> need s' a b = need s a b.
Proof using HL.
  intros Hw Hv Hd He0 Hp Hpt Ha Hb. unfold need.
  assert (H : forall d', lacks s' d' a b = lacks s d' a b).
  { intros d'. apply lacks_ext. intros k Hk. eapply has_table_wrote; eauto. by apply (first_canonical d' a b). }
  by rewrite !H.
Qed.

Lemma need_table s s' v d e e0 q a b : wrote s s' v d e (Some 0) -> canonical v -> (d < 3)%nat -> down s v d = Some e0 -> is_present (lvl d) e0 = false ->
  points d e = Some q -> canonical a -> canonical b -> a <= v <= b -> need s a b = Datatypes.S (need s' a b).
Proof using HL.
  intros Hw Hv Hd He0 Hp Hpt Ha Hb Hin.
  assert (Hoth : forall d' , d' <> d -> lacks s' d' a b = lacks s d' a b).
  { intros d' Hne. apply lacks_ext. intros k Hk. eapply has_table_wrote; eauto; [lia|]. by apply (first_canonical d' a b). }
  assert (Hat : lacks s d a b = Datatypes.S (lacks s' d a b)).
  { unfold lacks. pose proof (slot_mono d a v ltac:(lia)). pose proof (slot_mono d v b ltac:(lia)).
    assert (Hcv : canonical (slot d v * size_at d)) by (by apply (first_canonical d v v)).
    transitivity (Datatypes.S (count (fun k => if decide (k = slot d v) then false else negb (has_table s d k)) (slot d a) (Z.to_nat (slot d b - slot d a + 1)))).
    - apply (count_flip _ _ _ _ (slot d v)); [lia| |by destruct (decide _)|intros j Hj; by destruct (decide _)].
      rewrite has_table_none; [done|]. rewrite (down_slot s _ v d), He0 by (done || lia || apply slot_first). cbn. by apply absent_points.
    - f_equal. apply count_ext. intros k Hk. destruct (decide (k = slot d v)) as [->|Hne].
      + unfold has_table. by rewrite (wr_same _ _ _ _ _ _ Hw), Hpt by (done || apply slot_first).
      + f_equal. symmetry. eapply has_table_wrote; eauto; [lia|]. eapply (first_canonical d a b); [done..|lia]. }
  unfold need. destruct d as [|[|[|]]]; [..|lia]; rewrite Hat.
  - rewrite (Hoth 1%nat), (Hoth 2%nat) by done. lia.
  - rewrite (Hoth 0%nat), (Hoth 2%nat) by done. lia.
  - rewrite (Hoth 0%nat), (Hoth 1%nat) by done. lia.
Qed.
End Need.

(** ** The operations on the tables *)
Section Runs.
Context `{HP : Profile} `{HG : Paging} {Src : Type} `{HS : PageSource Src} `{HO : PageOwner Src} {HL : PagingLaws HG} {HSL : PageSourceLaws Src}.
Implicit Types (s : VSpace Src) (v : Z) (d : nat) (own : gmap Z (nat * Z)) (F : gset Z).

Lemma index_0 v : pml4_index v = idx 0 v.
Proof using HL. apply pml4_index_eq. Qed.
Lemma index_1 v : pdpt_index v = idx 1 v.
Proof using HL. apply pdpt_index_eq. Qed.
Lemma index_2 v : pd_index v = idx 2 v.
Proof using HL. apply pd_index_eq. Qed.
Lemma index_3 v : pt_index v = idx 3 v.
Proof using HL. apply pt_index_eq. Qed.

Lemma points_Some d e q : points d e = Some q <-> is_present (lvl d) e = true /\ (d < 3)%nat /\ (d = 0%nat \/ is_page (lvl d) e = false) /\ q = address (lvl d) e.
Proof.
  unfold points. destruct (is_present (lvl d) e), (Nat.ltb_spec d 3), (Nat.eqb_spec d 0), (is_page (lvl d) e); cbn; split; try (intros; naive_solver lia).
Qed.

Lemma read_pml4_run own s F v : wf own s F -> exists e, down s v 0 = Some e /\ read_pml4 (pml4_index v) s = Done (e, s).
Proof using HL.
  intros Hwf. destruct (down_0 _ _ _ v Hwf) as [e He]. exists e. split; [done|]. unfold read_pml4, lift. rewrite index_0. cbn in He. by rewrite (index_Some _ _ _ He).
Qed.
Lemma write_pml4_run own s F v e : wf own s F -> write_pml4 (pml4_index v) e s = Done (tt, set_down s v 0 e).
Proof using HL.
  intros Hwf. unfold write_pml4. rewrite index_0, (wf_len _ _ _ Hwf). pose proof (idx_lt 0 v) as Hi. by destruct (Nat.ltb_spec (idx 0 v) 512); [|lia].
Qed.

Lemma read_entry_run own s F v d e q : wf own s F -> canonical v -> down s v d = Some e -> points d e = Some q ->
  exists e', down s v (S d) = Some e' /\ read_entry q (idx (S d) v) s = Done (e', s).
Proof.
  intros Hwf Hv Hd Hq. destruct (down_S _ _ _ _ _ _ _ Hwf Hv Hd Hq) as (t & e' & Ht & _ & Hi & He'). exists e'. split; [done|].
  unfold read_entry, lift. rewrite Ht. cbn. by rewrite (index_Some _ _ _ Hi).
Qed.
Lemma write_entry_run own s F v d e q e' : wf own s F -> canonical v -> down s v d = Some e -> points d e = Some q ->
  write_entry q (idx (S d) v) e' s = Done (tt, set_down s v (S d) e').
Proof.
  intros Hwf Hv Hd Hq. destruct (down_S _ _ _ _ _ _ _ Hwf Hv Hd Hq) as (t & e1 & Ht & Hl & _ & He1).
  destruct (set_down_S _ _ _ _ _ _ e' Hwf Hv He1) as (e2 & p & t2 & Hd2 & Hq2 & _ & Ht2 & _ & _ & ->). simplify_eq.
  unfold write_entry. rewrite Ht. cbn [expect mbind outcome_bind]. by rewrite Hl, (proj2 (Nat.ltb_lt _ _)) by apply idx_lt.
Qed.

Lemma kernel_id p : 0 <= p < 2 ^ 52 -> paddr_to_kernel_vaddr p = Done p /\ kernel_vaddr_to_paddr p = Done p.
Proof.
  intros Hp. unfold paddr_to_kernel_vaddr, kernel_vaddr_to_paddr, uadd, usub. change KERNEL_BASE with 0. rewrite Z.add_0_r, Z.sub_0_r.
  by rewrite checked_ok by (unfold in_width; lia).
Qed.
Lemma table_run l e s : lift (paddr_to_kernel_vaddr (address l e)) s = Done (address l e, s).
Proof using HL. unfold lift. by rewrite (proj1 (kernel_id _ (proj1 (address_range l e)))). Qed.

Lemma allocate_one_page_run s F : src_ok (source s) F -> F <> ∅ ->
  exists q st, allocate_one_page s = Done (q, with_page s q st) /\ q ∈ F /\ src_ok st (F ∖ {[q]}).
Proof using HSL.
  intros Hs HF. destruct (page_taken _ _ Hs HF) as (p & st & E & Hp & Hs'). destruct (page_range _ _ _ Hs Hp) as [Hr _].
  exists p, st. split; [|done]. unfold allocate_one_page, allocate_pages. unfold umul. change (1 * BASE_PAGE_SIZE) with 4096. rewrite checked_ok by (unfold in_width; lia).
  cbn. rewrite E. cbn. destruct (Z.eqb_spec p 0); [lia|]. rewrite (proj2 (kernel_id p ltac:(lia))). done.
Qed.

(** The operation that makes a table for an entry of depth [d]. *)
Definition new_table (d : nat) : M (VSpace Src) Z := match d with 0%nat => new_pdpt | 1%nat => new_pd | _ => new_pt end.

Lemma new_table_run s F d : src_ok (source s) F -> F <> ∅ -> (d < 3)%nat ->
  exists q st e, new_table d s = Done (e, with_page s q st) /\ q ∈ F /\ src_ok st (F ∖ {[q]}) /\ points d e = Some q.
Proof using HL HSL.
  intros Hs HF Hd. destruct (allocate_one_page_run s F Hs HF) as (q & st & E & Hq & Hst).
  destruct (page_range _ _ _ Hs Hq) as [Hr Ha].
  destruct (new_entry (lvl d) q ({[P]} ∪ {[RW]} ∪ {[US]}) ltac:(lia) Ha) as (e & Ee & Hae & Hfe). exists q, st, e. split_and!; [|done..|].
  - unfold new_table. destruct d as [|[|[|]]]; [..|lia]; unfold new_pdpt, new_pd, new_pt; mstep E; unfold lift; cbn [lvl] in Ee; by rewrite Ee.
  - apply points_Some. rewrite present_flag, page_flag, Hfe. split_and!; [by apply bool_decide_eq_true; set_solver|done| |done].
    right. apply bool_decide_eq_false. set_solver.
Qed.

(** The translation that [resolve_addr] computes is that of [access]. *)
Lemma resolve_access own s F v : wf own s F -> canonical v -> resolve_addr v s = Done (fst <$> access s v, s).
Proof using HL.
  intros Hwf Hv. unfold resolve_addr.
  assert (Hadd : forall l e n o, 0 <= o < 2 ^ 30 -> (lift (uadd 64 (address l e) o) ≫= fun a => mret (Some a : option Z)) (n : VSpace Src) = Done (Some (address l e + o), n)).
  { intros l e n o Ho. unfold uadd. pose proof (address_range l e). rewrite checked_ok by (unfold in_width; lia). done. }
  destruct (read_pml4_run own s F v Hwf) as (e4 & D4 & R4). mstep R4.
  destruct (is_present PML4 e4) eqn:P4; cbn [negb].
  2: { rewrite (access_stop s v 0 e4), (absent_leaf s v 0 e4) by (done || (by apply absent_points) || lia). done. }
  assert (Q4 : points 0 e4 = Some (address PML4 e4)) by (apply points_Some; auto with lia). unfold get_pdpt. mstep (table_run PML4 e4 s).
  rewrite index_1. destruct (read_entry_run _ _ _ _ _ _ _ Hwf Hv D4 Q4) as (e3 & D3 & R3). mstep R3.
  destruct (is_present PDPT e3) eqn:P3; cbn [negb].
  2: { rewrite (access_stop s v 1 e3), (absent_leaf s v 1 e3) by (done || (by apply absent_points) || lia). done. }
  destruct (is_page PDPT e3) eqn:G3.
  { assert (L3 : leaf 1 e3 = true) by (unfold leaf; cbn; by rewrite P3, G3). rewrite (access_stop s v 1 e3) by (done || (by apply leaf_points) || lia).
    unfold leaf_at. rewrite D3. cbn. rewrite L3, huge_offset. apply Hadd, Z.mod_pos_bound. lia. }
  assert (Q3 : points 1 e3 = Some (address PDPT e3)) by (apply points_Some; auto with lia). unfold get_pd. mstep (table_run PDPT e3 s).
  rewrite index_2. destruct (read_entry_run _ _ _ _ _ _ _ Hwf Hv D3 Q3) as (e2 & D2 & R2). mstep R2.
  destruct (is_present PD e2) eqn:P2; cbn [negb].
  2: { rewrite (access_stop s v 2 e2), (absent_leaf s v 2 e2) by (done || (by apply absent_points) || lia). done. }
  destruct (is_page PD e2) eqn:G2.
  { assert (L2 : leaf 2 e2 = true) by (unfold leaf; cbn; by rewrite P2, G2). rewrite (access_stop s v 2 e2) by (done || (by apply leaf_points) || lia).
    unfold leaf_at. rewrite D2. cbn. rewrite L2, large_offset. apply Hadd. pose proof (Z.mod_pos_bound v (2 ^ 21)). lia. }
  assert (Q2 : points 2 e2 = Some (address PD e2)) by (apply points_Some; auto with lia). unfold get_pt. mstep (table_run PD e2 s).
  rewrite index_3. destruct (read_entry_run _ _ _ _ _ _ _ Hwf Hv D2 Q2) as (e1 & D1 & R1). mstep R1.
  destruct (is_present PT e1) eqn:P1; cbn [negb].
  2: { rewrite (access_stop s v 3 e1), (absent_leaf s v 3 e1) by (done || (by apply absent_points) || lia). done. }
  assert (L1 : leaf 3 e1 = true) by (unfold leaf; cbn; by rewrite P1). rewrite (access_stop s v 3 e1) by (done || (by apply leaf_points) || lia).
  unfold leaf_at. rewrite D1. cbn. rewrite L1, base_offset. apply Hadd. pose proof (Z.mod_pos_bound v (2 ^ 12)). lia.
Qed.
End Runs.

(** ** What [map_generic] does *)
Section Mapping.
Context `{HP : Profile} `{HG : Paging} {Src : Type} `{HS : PageSource Src} `{HO : PageOwner Src} {HL : PagingLaws HG} {HSL : PageSourceLaws Src}.
Implicit Types (s : VSpace Src) (v : Z) (d : nat) (own : gmap Z (nat * Z)) (F : gset Z) (fl : gset Flag).

(** The addresses whose missing tables are counted; what is mapped lies between them. *)
Context (A B : Z) (HA : 0 <= A) (HB : B < 2 ^ 48).

(** No entry of depth [d] whose range is wholly between [a] and [hi] is present. *)
Definition big_free s d a hi : Prop := forall w e, a <= w -> w mod size_at d = 0 -> w + size_at d <= hi -> down s w d = Some e -> is_present (lvl d) e = false.
(** No address between [a] and [hi] is in a page of 1 GiB or 2 MiB. *)
Definition uncovered s a hi : Prop := forall x d e, a <= x < hi -> (d = 1 \/ d = 2)%nat -> down s x d = Some e -> is_present (lvl d) e = true -> is_page (lvl d) e = false.
(** [map_generic] can map between [a] and [hi]. *)
Record region_free s a hi : Prop := mkFree { rf_1 : big_free s 1 a hi; rf_2 : big_free s 2 a hi; rf_c : uncovered s a hi }.

(** The [m] bytes from [v0] on are mapped to [p0] on with the flags [fl], where they were not mapped before; all else is the same. *)
Definition mapped_as s s' v0 m p0 fl : Prop := forall x, canonical x -> access s' x =
  if decide (v0 <= x < v0 + m) then match access s x with Some a => Some a | None => Some (p0 + (x - v0), fl) end else access s x.

Lemma mapped_nothing s v0 p0 fl : mapped_as s s v0 0 p0 fl.
Proof. intros x _. destruct (decide _); [lia|done]. Qed.
Lemma mapped_seq s s1 s2 v0 m1 m2 p0 fl : 0 <= m1 -> 0 <= m2 -> mapped_as s s1 v0 m1 p0 fl -> mapped_as s1 s2 (v0 + m1) m2 (p0 + m1) fl -> mapped_as s s2 v0 (m1 + m2) p0 fl.
Proof.
  intros Hm1 Hm2 H1 H2 x Hx. rewrite (H2 x Hx), (H1 x Hx).
  destruct (decide (v0 + m1 <= x < v0 + m1 + m2)), (decide (v0 <= x < v0 + m1)), (decide (v0 <= x < v0 + (m1 + m2))); try lia; try done.
  destruct (access s x); [done|]. do 2 f_equal. lia.
Qed.
Lemma mapped_eq s s1 s2 v0 m p0 fl : (forall x, canonical x -> access s1 x = access s x) -> mapped_as s1 s2 v0 m p0 fl -> mapped_as s s2 v0 m p0 fl.
Proof. intros He H x Hx. by rewrite (H x Hx), He. Qed.

Lemma big_free_weaken s d a a' hi : a <= a' -> big_free s d a hi -> big_free s d a' hi.
Proof. intros Ha H w e Hw. apply H. lia. Qed.
Lemma uncovered_weaken s a a' hi : a <= a' -> uncovered s a hi -> uncovered s a' hi.
Proof. intros Ha H x d e Hx. apply H. lia. Qed.

(** The address of an aligned slot, and the addresses in it. *)
Lemma aligned_slot d w : w mod size_at d = 0 -> w = slot d w * size_at d.
Proof. intros H. pose proof (size_pos d). unfold slot. pose proof (Z.div_mod w (size_at d)). lia. Qed.
Lemma aligned_in d w x : w mod size_at d = 0 -> slot d x = slot d w <-> w <= x < w + size_at d.
Proof.
  intros Hw%aligned_slot. pose proof (slot_bounds d x). pose proof (size_pos d). split; [intros E; rewrite E in *; lia|].
  intros Hx. apply slot_eq. lia.
Qed.
Lemma aligned_off d w x : w mod size_at d = 0 -> w <= x < w + size_at d -> x mod size_at d = x - w.
Proof. intros Hw%aligned_slot Hx. symmetry. apply (Z.mod_unique _ _ (slot d w)); [left|]; lia. Qed.


Lemma region_weaken s a a' hi : a <= a' -> region_free s a hi -> region_free s a' hi.
Proof. intros Ha [H1 H2 H3]. split; eauto using big_free_weaken, uncovered_weaken. Qed.

(** From [s] to [s'] only the entries for the [m] bytes from [v] on have changed: regions beside them that were free still are. *)
Definition frame s s' v m : Prop := forall a b, 0 <= a -> b <= 2 ^ 48 -> (b <= v \/ v + m <= a) -> region_free s a b -> region_free s' a b.
Lemma frame_refl s v m : frame s s v m.
Proof. by intros a b. Qed.
Lemma frame_seq s1 s2 s3 v1 m1 v2 m2 v m : frame s1 s2 v1 m1 -> frame s2 s3 v2 m2 -> v <= v1 -> v <= v2 -> v1 + m1 <= v + m -> v2 + m2 <= v + m -> frame s1 s3 v m.
Proof. intros H1 H2 ???? a b Ha Hb Hd H. apply H2; [lia..|]. apply H1; [lia..|done]. Qed.

Lemma big_free_wrote s s' v d e b d' a hi : wrote s s' v d e b -> canonical v -> 0 <= a -> hi <= 2 ^ 48 -> (d <= 3)%nat -> (d' <= 3)%nat ->
  (b = None /\ points d e = None) \/ b = Some 0 -> hi <= v \/ v < a -> big_free s d' a hi -> big_free s' d' a hi.
Proof using HL.
  intros Hw Hv Ha Hhi Hd Hd' Hb Hgt H w e' Hwa Hal Hwh He'. assert (Hc : canonical w) by (pose proof (size_pos d'); split; lia).
  destruct (decide (slot d w = slot d v)) as [Es|Es]; [|rewrite (wr_other _ _ _ _ _ _ Hw) in He' by done; by apply (H w e')].
  destruct (decide (d' < d)%nat); [rewrite (wr_above _ _ _ _ _ _ Hw) in He' by done; by apply (H w e')|].
  pose proof (wr_same _ _ _ _ _ _ Hw _ Hc Es) as Hs. pose proof (wr_below _ _ _ _ _ _ Hw _ Hc Es) as Hbl. destruct (decide (d' = d)) as [->|Hne].
  - symmetry in Es. apply (aligned_in d w v Hal) in Es. lia.
  - destruct (decide (d' = S d)) as [->|Hne'].
    + rewrite Hbl in He'. destruct Hb as [[-> _]| ->]; [done|]. injection He' as <-. apply zero_absent.
    + destruct Hb as [[-> Hb]| ->]; [by rewrite (down_below _ _ d e d') in He' by (done || lia)|].
      by rewrite (down_below _ _ (S d) 0 d') in He' by (done || apply points_zero || lia).
Qed.

Lemma uncovered_wrote s s' v d e b a hi : wrote s s' v d e b -> canonical v -> 0 <= a -> hi <= 2 ^ 48 -> (d <= 3)%nat ->
  (b = None /\ points d e = None) \/ b = Some 0 -> ((forall x, a <= x < hi -> slot d x <> slot d v) \/ d = 3%nat \/ exists q, points d e = Some q) ->
  uncovered s a hi -> uncovered s' a hi.
Proof using HL.
  intros Hw Hv Ha Hhi Hd Hb Hor H x d' e' Hx Hd' He' Hp. assert (Hc : canonical x) by (split; lia).
  destruct (decide (slot d x = slot d v)) as [Es|Es]; [|rewrite (wr_other _ _ _ _ _ _ Hw) in He' by done; by apply (H x d' e')].
  destruct (decide (d' < d)%nat); [rewrite (wr_above _ _ _ _ _ _ Hw) in He' by done; by apply (H x d' e')|].
  destruct Hor as [Hor|[->|[q Hq]]]; [by destruct (Hor x Hx)|lia|].
  pose proof (wr_same _ _ _ _ _ _ Hw _ Hc Es) as Hs. pose proof (wr_below _ _ _ _ _ _ Hw _ Hc Es) as Hbl. destruct (decide (d' = d)) as [->|Hne].
  - rewrite Hs in He'. injection He' as <-. apply points_Some in Hq as (_ & _ & [?|?] & _); [lia|done].
  - destruct Hb as [[-> Hb]| ->]; [by rewrite Hb in Hq|]. destruct (decide (d' = S d)) as [->|Hne'].
    + rewrite Hbl in He'. injection He' as <-. by rewrite zero_absent in Hp.
    + by rewrite (down_below _ _ (S d) 0 d') in He' by (done || apply points_zero || lia).
Qed.

Lemma frame_leaf s s' w d e : wrote s s' w d e None -> points d e = None -> canonical w -> w mod size_at d = 0 -> (d <= 3)%nat -> frame s s' w (size_at d).
Proof using HL.
  intros Hw Hp Hc Hal Hd a b Ha Hb Hdis [H1 H2 H3]. pose proof (size_pos d). split.
  - eapply big_free_wrote; [exact Hw|done|lia|lia|lia|lia|by left|lia|done].
  - eapply big_free_wrote; [exact Hw|done|lia|lia|lia|lia|by left|lia|done].
  - eapply uncovered_wrote; [exact Hw|done|lia|lia|lia|by left| |done]. left. intros x Hx Es. apply (aligned_in d w x Hal) in Es. lia.
Qed.
Lemma frame_table s s' v d e q : wrote s s' v d e (Some 0) -> points d e = Some q -> canonical v -> (d < 3)%nat -> frame s s' v 1.
Proof using HL.
  intros Hw Hp Hc Hd a b Ha Hb Hdis [H1 H2 H3]. split.
  - eapply big_free_wrote; [exact Hw|done|lia|lia|lia|lia|by right|lia|done].
  - eapply big_free_wrote; [exact Hw|done|lia|lia|lia|lia|by right|lia|done].
  - eapply uncovered_wrote; [exact Hw|done|lia|lia|lia|by right|by right; right; exists q|done].
Qed.

(** Where a call of [map_generic] for [v] up to [hi] stands, before it maps anything. *)
Record stage own s F v hi : Prop := mkStage {
  st_wf : wf own s F;
  st_free : region_free s (v + 1) hi;
  st_c : uncovered s v (v + 1);
  st_need : (need s A B <= base.size F)%nat }.

(** The entry of depth [d] for [v] is free: a table is made and entered. *)
Lemma make_table own s F v hi d e0 : stage own s F v hi -> canonical v -> v < hi <= 2 ^ 48 -> A <= v <= B -> (d < 3)%nat ->
  down s v d = Some e0 -> is_present (lvl d) e0 = false ->
  exists own' s1 s' F' e q, new_table d s = Done (e, s1) /\ s' = set_down s1 v d e /\ (forall x d', canonical x -> down s1 x d' = down s x d') /\ (exists own1 F1, wf own1 s1 F1) /\
    stage own' s' F' v hi /\ down s' v d = Some e /\ points d e = Some q /\ (forall x d', canonical x -> (d' < d)%nat -> down s' x d' = down s x d') /\
    (forall x, canonical x -> access s' x = access s x) /\ frame s s' v 1.
Proof using HL HSL HA HB.
  intros [Hwf Hfr Hc Hn] Hv Hhi HAB Hd He0 Hp. assert (Ha : canonical A) by (destruct Hv; split; lia). assert (Hb : canonical B) by (destruct Hv; split; lia).
  assert (HF : F <> ∅).
  { intros ->. rewrite size_empty in Hn. unfold need in Hn. assert (Hl : lacks s d A B = 0%nat) by (destruct d as [|[|[|]]]; lia).
    pose proof (slot_mono d A v ltac:(lia)) as Hm1. pose proof (slot_mono d v B ltac:(lia)) as Hm2.
    assert (0 < lacks s d A B)%nat; [|lia]. apply (count_pos _ _ _ (slot d v)); [lia|]. rewrite has_table_none; [done|].
    rewrite (down_slot s _ v d), He0; [cbn; by apply absent_points|by apply (first_canonical d v v)|done|lia|apply slot_first]. }
  destruct (new_table_run s F d (wf_src _ _ _ Hwf) HF Hd) as (q & st & e & En & Hq & Hst & Hpt).
  destruct (wrote_table own s F v d e0 e q st Hwf Hv Hd He0 Hq Hst Hpt) as [Hw Hwf']. set (s' := set_down (with_page s q st) v d e) in *.
  pose proof (frame_table s s' v d e q Hw Hpt Hv Hd) as Hframe.
  exists (<[q := (S d, slot d v)]> own), (with_page s q st), s', (F ∖ {[q]}), e, q. split_and!; try done.
  - intros x d' Hx. by apply (fresh_down own s F).
  - eexists _, _. by eapply (fresh_wf own s F q st (0%nat, 0)).
  - pose proof (need_table s s' v d e e0 q A B Hw Hv Hd He0 Hp Hpt Ha Hb ltac:(lia)) as Hnt. split; [done|..].
    + apply Hframe; [destruct Hv; lia|lia|lia|done].
    + eapply uncovered_wrote; [exact Hw|done|apply Hv|lia|lia|by right|by right; right; exists q|done].
    + rewrite size_difference, size_singleton by set_solver. lia.
  - apply (wr_same _ _ _ _ _ _ Hw); done.
  - intros x d' Hx Hlt. by apply (wr_above _ _ _ _ _ _ Hw).
  - intros x Hx. rewrite (access_wrote s s' v d e (Some 0)) by (done || lia || by right). destruct (decide _) as [Es|]; [|done].
    rewrite (access_none s v d e0) by (done || lia). pose proof (wr_same _ _ _ _ _ _ Hw x Hx Es) as Hs. unfold leaf_at. rewrite Hs. cbn.
    destruct (leaf d e) eqn:El; [|done]. apply leaf_points in El. by rewrite El in Hpt.
Qed.

(** A page is entered at a free entry of depth [d]. *)
Lemma put_page own s F w d e0 p fl : wf own s F -> canonical w -> w mod size_at d = 0 -> (1 <= d <= 3)%nat -> down s w d = Some e0 -> is_present (lvl d) e0 = false ->
  0 <= p < 2 ^ 52 -> p mod 4096 = 0 -> P ∈ fl -> d = 3%nat \/ PS ∈ fl ->
  exists e, entry_new (lvl d) p fl = Done e /\ points d e = None /\ wrote s (set_down s w d e) w d e None /\ wf own (set_down s w d e) F /\
    mapped_as s (set_down s w d e) w (size_at d) p (fl ∖ {[PS]}).
Proof using HL.
  intros Hwf Hw Hal Hd He0 Hp Hr Hpa HP' HPS. destruct (new_entry (lvl d) p fl Hr Hpa) as (e & Ee & Ha & Hf).
  assert (Hl : leaf d e = true).
  { unfold leaf. rewrite present_flag, page_flag, Hf. rewrite (bool_decide_eq_true_2 _ HP'). cbn. destruct HPS as [->|HPS]; [done|].
    rewrite (bool_decide_eq_true_2 _ HPS). destruct d as [|[|[|[|]]]]; try done; lia. }
  pose proof (leaf_points d e Hl) as Hpt. destruct (wrote_leaf own s F w d e0 e Hwf Hw ltac:(lia) He0 Hpt) as [Hwr Hwf'].
  exists e. split_and!; [done..|]. intros x Hx. rewrite (access_wrote s _ w d e None) by (done || lia || by left).
  pose proof (aligned_in d w x Hal) as Hin. destruct (decide (slot d x = slot d w)) as [Es|Es], (decide (w <= x < w + size_at d)) as [Hxin|Hxin]; try tauto.
  rewrite (access_none s w d e0) by (done || lia). unfold leaf_at. rewrite (wr_same _ _ _ _ _ _ Hwr) by done. cbn. rewrite Hl, Ha, Hf.
  do 2 f_equal. rewrite (aligned_off d w x) by done. lia.
Qed.

(** Where the loops stand in the table that holds the entries of depth [S d]: at its end or at the entry for [w]. *)
Definition at_entry s d w (table : Z) (i : nat) : Prop := (i < 512)%nat -> i = idx (S d) w /\ exists e, down s w d = Some e /\ points d e = Some table.

Lemma idx_next d w : canonical w -> (d < 3)%nat -> (idx (S d) w + 1 < 512)%nat ->
  idx (S d) (w + size_at (S d)) = (idx (S d) w + 1)%nat /\ slot d (w + size_at (S d)) = slot d w.
Proof.
  intros [Hw _] Hd Hi. pose proof (size_pos (S d)).
  assert (Hs : slot (S d) (w + size_at (S d)) = slot (S d) w + 1) by (unfold slot; rewrite <- (Z.mul_1_l (size_at (S d))) at 1; rewrite Z.div_add by lia; done).
  pose proof (slot_S d w Hd Hw) as H1. pose proof (slot_S d (w + size_at (S d)) Hd ltac:(lia)) as H2. pose proof (idx_lt (S d) (w + size_at (S d))).
  rewrite Hs in H2. lia.
Qed.

Lemma slot_canonical d x y : canonical x -> 0 <= y -> slot d y = slot d x -> canonical y.
Proof.
  intros [Hx0 Hx] Hy Es. split; [done|]. pose proof (slot_bounds d y) as H1. pose proof (slot_bounds d x) as H2. rewrite Es in H1.
  assert (exists k, 2 ^ 48 = k * size_at d) as [k Hk] by (destruct d as [|[|[|]]]; [exists (2 ^ 9)|exists (2 ^ 18)|exists (2 ^ 27)|exists (2 ^ 36)]; done).
  pose proof (size_pos d). assert (slot d x < k) by nia. nia.
Qed.

Lemma at_entry_next s s' d w table i : canonical w -> (d < 3)%nat -> (i < 512)%nat -> at_entry s d w table i ->
  (forall x, canonical x -> down s' x d = down s x d) -> at_entry s' d (w + size_at (S d)) table (i + 1).
Proof.
  intros Hw Hd Hi Hat Hs Hi'. destruct (Hat Hi) as (-> & e & He & Hp). destruct (idx_next d w Hw Hd Hi') as [E1 E2]. split; [done|].
  assert (Hw' : canonical (w + size_at (S d))) by (apply (slot_canonical d w); [done|destruct Hw; pose proof (size_pos (S d)); lia|done]).
  exists e. split; [|done]. rewrite Hs by done. by rewrite (down_slot s _ w d) by (done || lia).
Qed.

Section BigLoop.
Context (d : nat) (v p0 psize : Z) (fl : gset Flag) (table : Z).
Context (Hd : (d = 0 \/ d = 1)%nat) (HPf : P ∈ fl) (HPS : PS ∈ fl) (Hv : 0 <= v) (Hhi : v + psize <= 2 ^ 48) (Hp0 : 0 <= p0) (Hpe : p0 + psize <= 2 ^ 52) (HAv : A <= v) (HvB : v + psize - 1 <= B).
Let sz : Z := size_at (S d).
Let hi : Z := v + psize.

Lemma big_step own s F i mapped e0 : let w := v + mapped in
  wf own s F -> 0 <= mapped < psize -> sz <= psize - mapped -> (i < 512)%nat -> (p0 + mapped) mod 4096 = 0 -> w mod sz = 0 ->
  at_entry s d w table i -> down s w (S d) = Some e0 -> is_present (lvl (S d)) e0 = false ->
  exists s1, (forall n, big_loop (S n) (lvl (S d)) sz fl table i p0 psize mapped s = big_loop n (lvl (S d)) sz fl table (i + 1) p0 psize (mapped + sz) s1) /\
    wf own s1 F /\ mapped_as s s1 w sz (p0 + mapped) (fl ∖ {[PS]}) /\ at_entry s1 d (w + sz) table (i + 1) /\ frame s s1 w sz /\ need s1 A B = need s A B.
Proof using HL HA HB Hd HPf HPS Hv Hhi Hp0 Hpe HAv HvB.
  intros w Hwf Hm Hsz Hi Hpa Hwa Hat He0 Hab. pose proof (size_pos (S d)) as Hszp. fold sz in Hszp.
  assert (Hw : canonical w) by (unfold canonical, w; lia). destruct (Hat Hi) as (Hix & e1 & He1 & Hpt1).
  destruct (read_entry_run _ _ _ _ _ _ _ Hwf Hw He1 Hpt1) as (e0' & He0' & R0). rewrite He0 in He0'. injection He0' as <-.
  destruct (put_page own s F w (S d) e0 (p0 + mapped) fl Hwf Hw Hwa ltac:(lia) He0 Hab ltac:(lia) Hpa HPf (or_intror HPS)) as (e & Ee & Hpt & Hwr & Hwf' & Hma).
  exists (set_down s w (S d) e). split_and!; try done.
  - intros n. cbn [big_loop]. destruct (Z.ltb_spec mapped psize), (Z.leb_spec sz (psize - mapped)), (Nat.ltb_spec i 512); try lia. cbn [andb].
    rewrite Hix. mstep R0. rewrite Hab. cbn [negb]. rewrite bind_assert. unfold uadd.
    rewrite (checked_ok 64 (p0 + mapped)) by (unfold in_width; lia). rewrite bind_lift.
    rewrite Ee, bind_lift. mstep (write_entry_run own s F w d e1 table e Hwf Hw He1 Hpt1). rewrite (checked_ok 64 (mapped + sz)) by (unfold in_width; lia). by rewrite bind_lift.
  - apply (at_entry_next s); try done; [lia|]. intros x Hx. apply (wr_above _ _ _ _ _ _ Hwr); [done|lia].
  - apply (frame_leaf s _ w (S d) e); [done..|lia].
  - eapply need_leaf; [exact Hwr|done|lia|done|done|done|split; lia|split; lia].
Qed.

(** The loops over big pages. *)
Lemma big_loop_spec n own s F i mapped : let w := v + mapped in
  wf own s F -> 0 <= mapped <= psize -> (p0 + mapped) mod 4096 = 0 -> w mod sz = 0 -> (512 - i <= n)%nat -> at_entry s d w table i ->
  (mapped < psize -> sz <= psize - mapped -> (i < 512)%nat -> exists e0, down s w (S d) = Some e0 /\ is_present (lvl (S d)) e0 = false) -> region_free s (w + 1) hi ->
  exists m s', big_loop n (lvl (S d)) sz fl table i p0 psize mapped s = Done (m, s') /\ mapped <= m <= psize /\ (m - mapped) mod sz = 0 /\
    (mapped < psize -> sz <= psize - mapped -> (i < 512)%nat -> mapped < m) /\
    wf own s' F /\ mapped_as s s' w (m - mapped) (p0 + mapped) (fl ∖ {[PS]}) /\ frame s s' w (m - mapped) /\ need s' A B = need s A B.
Proof using HL HA HB Hd HPf HPS Hv Hhi Hp0 Hpe HAv HvB.
  pose proof (size_pos (S d)) as Hszp. fold sz in Hszp. revert s i mapped.
  induction n as [|n IH]; intros s i mapped w Hwf Hm Hpa Hwa Hn Hat Hab Hfr;
    (destruct (decide (mapped < psize /\ sz <= psize - mapped /\ (i < 512)%nat)) as [(H1 & H2 & H3)|Hno];
     [|exists mapped, s; split_and!; [|lia|lia|by rewrite Z.sub_diag|lia|done|rewrite Z.sub_diag; apply mapped_nothing|apply frame_refl|done];
       cbn [big_loop]; destruct (Z.ltb_spec mapped psize), (Z.leb_spec sz (psize - mapped)), (Nat.ltb_spec i 512); cbn [andb]; try done; exfalso; lia]).
  { lia. }
  destruct (Hab H1 H2 H3) as (e0 & He0 & Hp0').
  destruct (big_step own s F i mapped e0 Hwf ltac:(lia) H2 H3 Hpa Hwa Hat He0 Hp0') as (s1 & Hrun & Hwf1 & Hma & Hat1 & Hf1 & Hk1).
  fold w in Hma, Hat1, Hf1. replace (w + sz) with (v + (mapped + sz)) in * by (unfold w; lia).
  assert (Hfr1 : region_free s1 (v + (mapped + sz)) hi) by (apply Hf1; [lia|done|unfold w; lia|eapply region_weaken; [|exact Hfr]; unfold w; lia]).
  assert (Hal1 : (v + (mapped + sz)) mod sz = 0) by (replace (v + (mapped + sz)) with (w + 1 * sz) by (unfold w; lia); rewrite Z.mod_add by lia; done).
  destruct (IH s1 (i + 1)%nat (mapped + sz)) as (m & s' & Hrun' & Hmm & Hmod & _ & Hwf' & Hma' & Hf' & Hk'); try done; try lia.
  { rewrite Z.add_assoc. pose proof (size_page (S d)) as Hpg. fold sz in Hpg. rewrite Z.add_mod, Hpa, Hpg by lia. done. }
  { intros Hlt Hsz Hi. destruct (Hat1 Hi) as (_ & e1 & He1 & Hpt1). assert (Hcw : canonical (v + (mapped + sz))) by (split; lia).
    destruct (down_S _ _ _ _ _ _ _ Hwf1 Hcw He1 Hpt1) as (_ & e2 & _ & _ & _ & He2). exists e2. split; [done|].
    assert (big_free s1 (S d) (v + (mapped + sz)) hi) as Hbf by (destruct Hfr1; by destruct Hd as [-> | ->]).
    apply (Hbf (v + (mapped + sz)) e2); [lia|done|unfold hi; fold sz; lia|done]. }
  { eapply region_weaken; [|exact Hfr1]. lia. }
  exists m, s'. split_and!; try done; try lia.
  - by rewrite Hrun.
  - replace (m - mapped) with (m - (mapped + sz) + 1 * sz) by lia. rewrite Z.mod_add by lia. done.
  - replace (m - mapped) with (sz + (m - (mapped + sz))) by lia. eapply mapped_seq; [lia|lia|exact Hma|].
    replace (w + sz) with (v + (mapped + sz)) by (unfold w; lia). by replace (p0 + mapped + sz) with (p0 + (mapped + sz)) by lia.
  - eapply frame_seq; [exact Hf1|exact Hf'|unfold w; lia..].
Qed.
End BigLoop.

Section BaseLoop.
Context (v p0 psize : Z) (rights : MapAction) (table : Z).
Context (Hv : 0 <= v) (Hhi : v + psize <= 2 ^ 48) (Hp0 : 0 <= p0) (Hpe : p0 + psize <= 2 ^ 52) (HAv : A <= v) (HvB : v + psize - 1 <= B).
Let hi : Z := v + psize.
Let fl : gset Flag := {[P]} ∪ to_pt_rights rights.

Lemma rights_page : fl ∖ {[PS]} = fl.
Proof. unfold fl. destruct rights; set_solver. Qed.

(** A page that is mapped already. *)
Lemma mapped_kept own s F w e q : wf own s F -> canonical w -> w mod 4096 = 0 -> down s w 3 = Some e -> is_present PT e = true -> mapped_as s s w 4096 q fl.
Proof.
  intros Hwf Hw Hal He Hp x Hx. destruct (decide _) as [Hin|]; [|done]. apply (aligned_in 3 w x Hal) in Hin.
  rewrite <- (down_slot s x w 3) in He by (done || lia). assert (Hl : leaf 3 e = true) by (unfold leaf; cbn; by rewrite Hp).
  rewrite (access_stop s x 3 e) by (done || by apply leaf_points). unfold leaf_at. rewrite He. cbn. by rewrite Hl.
Qed.

Lemma base_step own s F i mapped : let w := v + mapped in
  wf own s F -> 0 <= mapped < psize -> psize mod 4096 = 0 -> mapped mod 4096 = 0 -> (i < 512)%nat -> p0 mod 4096 = 0 -> v mod 4096 = 0 -> at_entry s 2 w table i ->
  exists s1, (forall n, base_loop (S n) table i p0 psize rights mapped s = base_loop n table (i + 1) p0 psize rights (mapped + 4096) s1) /\
    wf own s1 F /\ mapped_as s s1 w 4096 (p0 + mapped) fl /\ at_entry s1 2 (w + 4096) table (i + 1) /\ frame s s1 w 4096 /\ need s1 A B = need s A B.
Proof using HL HSL HA HB Hv Hhi Hp0 Hpe HAv HvB.
  intros w Hwf Hm Hps Hma Hi Hpa Hva Hat.
  assert (Hw : canonical w) by (unfold canonical, w; lia). destruct (Hat Hi) as (Hix & e1 & He1 & Hpt1).
  assert (Hwa : w mod 4096 = 0) by (unfold w; rewrite Z.add_mod, Hva, Hma by lia; done).
  assert (Hqa : (p0 + mapped) mod 4096 = 0) by (rewrite Z.add_mod, Hpa, Hma by lia; done).
  assert (Hle : mapped + 4096 <= psize) by (pose proof (Z.div_mod psize 4096); pose proof (Z.div_mod mapped 4096); lia).
  destruct (read_entry_run _ _ _ _ _ _ _ Hwf Hw He1 Hpt1) as (e0 & He0 & R0).
  assert (Hrun : forall n, base_loop (S n) table i p0 psize rights mapped s =
    (e ← read_entry table i; (if negb (is_present PT e) then
           a ← lift (uadd 64 p0 mapped); e ← lift (entry_new PT a fl); write_entry table i e
         else assert (is_present PT e)) ≫= fun _ => mapped ← lift (uadd 64 mapped BASE_PAGE_SIZE); base_loop n table (i + 1) p0 psize rights mapped) s).
  { intros n. cbn [base_loop]. destruct (Z.ltb_spec mapped psize), (Nat.ltb_spec i 512); try lia. done. }
  destruct (is_present PT e0) eqn:Hpr.
  - exists s. split_and!; [|done|by eapply mapped_kept|exact (at_entry_next s s 2 w table i Hw ltac:(lia) Hi Hat (fun _ _ => eq_refl))|apply frame_refl|done].
    intros n. rewrite Hrun, Hix. mstep R0. rewrite Hpr. cbn [negb]. rewrite bind_assert. unfold uadd.
    rewrite checked_ok by (unfold in_width; change BASE_PAGE_SIZE with 4096; lia). by rewrite bind_lift.
  - destruct (put_page own s F w 3 e0 (p0 + mapped) fl Hwf Hw Hwa ltac:(lia) He0 Hpr ltac:(lia) Hqa ltac:(unfold fl; set_solver) (or_introl eq_refl))
      as (e & Ee & Hpt & Hwr & Hwf' & Hmap). rewrite rights_page in Hmap.
    exists (set_down s w 3 e). split_and!; try done.
    + intros n. rewrite Hrun, Hix. mstep R0. rewrite Hpr. cbn [negb]. unfold uadd. rewrite (checked_ok 64 (p0 + mapped)) by (unfold in_width; lia).
      rewrite bind_assoc, bind_lift. change PT with (lvl 3). rewrite Ee, bind_assoc, bind_lift. mstep (write_entry_run own s F w 2 e1 table e Hwf Hw He1 Hpt1).
      rewrite checked_ok by (unfold in_width; change BASE_PAGE_SIZE with 4096; lia). by rewrite bind_lift.
    + refine (at_entry_next s _ 2 w table i Hw ltac:(lia) Hi Hat _). intros x Hx. apply (wr_above _ _ _ _ _ _ Hwr); [done|lia].
    + apply (frame_leaf s _ w 3 e); [done..|lia].
    + eapply need_leaf; [exact Hwr|done|lia|done|done|done|split; lia|split; lia].
Qed.

Lemma base_loop_spec n own s F i mapped : let w := v + mapped in
  wf own s F -> 0 <= mapped <= psize -> psize mod 4096 = 0 -> mapped mod 4096 = 0 -> p0 mod 4096 = 0 -> v mod 4096 = 0 ->
  (512 - i <= n)%nat -> (i <= 512)%nat -> at_entry s 2 w table i ->
  exists m s', base_loop n table i p0 psize rights mapped s = Done (m, s') /\ mapped <= m <= psize /\ m mod 4096 = 0 /\ (m = psize \/ m - mapped = 4096 * (512 - Z.of_nat i)) /\
    wf own s' F /\ mapped_as s s' w (m - mapped) (p0 + mapped) fl /\ frame s s' w (m - mapped) /\ need s' A B = need s A B.
Proof using HL HSL HA HB Hv Hhi Hp0 Hpe HAv HvB.
  revert s i mapped. induction n as [|n IH]; intros s i mapped w Hwf Hm Hps Hma Hpa Hva Hn Hi Hat;
    (destruct (decide (mapped < psize /\ (i < 512)%nat)) as [[H1 H2]|Hno];
     [|exists mapped, s; split_and!; [|lia|lia|done|lia|done|rewrite Z.sub_diag; apply mapped_nothing|apply frame_refl|done];
       cbn [base_loop]; destruct (Z.ltb_spec mapped psize), (Nat.ltb_spec i 512); cbn [andb]; try done; exfalso; lia]).
  { lia. }
  destruct (base_step own s F i mapped Hwf ltac:(lia) Hps Hma H2 Hpa Hva Hat) as (s1 & Hrun & Hwf1 & Hmap & Hat1 & Hf1 & Hk1).
  assert (Hle : mapped + 4096 <= psize) by (pose proof (Z.div_mod psize 4096); pose proof (Z.div_mod mapped 4096); lia).
  fold w in Hmap, Hat1. replace (w + 4096) with (v + (mapped + 4096)) in * by (unfold w; lia).
  destruct (IH s1 (i + 1)%nat (mapped + 4096)) as (m & s' & Hrun' & Hmm & Hmod & Hend & Hwf' & Hma' & Hf' & Hk'); try done; try lia.
  { replace (mapped + 4096) with (mapped + 1 * 4096) by lia. by rewrite Z.mod_add by lia. }
  exists m, s'. split_and!; try done; try lia.
  - by rewrite Hrun.
  - replace (m - mapped) with (4096 + (m - (mapped + 4096))) by lia. eapply mapped_seq; [lia|lia|exact Hmap|].
    replace (w + 4096) with (v + (mapped + 4096)) by (unfold w; lia). by replace (p0 + mapped + 4096) with (p0 + (mapped + 4096)) by lia.
  - eapply frame_seq; [exact Hf1|exact Hf'|unfold w; lia..].
Qed.
End BaseLoop.

(** What a call has achieved when it has mapped [m] bytes. *)
Record advanced s s' F' v psize p0 fl m : Prop := mkAdvanced {
  ad_wf : exists own', wf own' s' F';
  ad_m : 0 < m <= psize;
  ad_page : m mod 4096 = 0;
  ad_end : m < psize -> (v + m) mod 2 ^ 21 = 0;
  ad_map : mapped_as s s' v m p0 fl;
  ad_frame : frame s s' v m;
  ad_need : (need s' A B <= base.size F')%nat }.

Section Enter.
Context (v p0 psize : Z) (rights : MapAction).
Context (Hv : 0 <= v) (Hps : 0 < psize) (Hhi : v + psize <= 2 ^ 48) (Hp0 : 0 <= p0) (Hpe : p0 + psize <= 2 ^ 52) (HAv : A <= v) (HvB : v + psize - 1 <= B).
Context (Hpa : p0 mod 4096 = 0) (Hva : v mod 4096 = 0) (Hsa : psize mod 4096 = 0).
Let hi : Z := v + psize.
Let fl : gset Flag := {[P]} ∪ to_pt_rights rights.

Lemma big_flags (r : gset Flag) : r = to_pt_rights rights -> ({[P]} ∪ {[PS]} ∪ r) ∖ {[PS]} = fl.
Proof. intros ->. unfold fl. destruct rights; set_solver. Qed.

Lemma enter_table_spec d own s F e1 table r : (d = 0 \/ d = 1)%nat -> r = to_pt_rights rights ->
  stage own s F v hi -> down s v d = Some e1 -> points d e1 = Some table ->
  let D := S d in let sz := size_at D in
  exists x s', enter_table (lvl D) sz (Done (slot D v * sz)) (big_loop 512 (lvl D) sz ({[P]} ∪ {[PS]} ∪ r) table (idx D v) p0 psize 0) (new_table D) table (idx D v) v p0 psize s = Done (x, s') /\
    match x with
    | inl m => advanced s s' F v psize p0 fl m
    | inr t => (forall x, canonical x -> access s' x = access s x) /\ frame s s' v 1 /\
        exists own' F' e, down s' v D = Some e /\ points D e = Some t /\ stage own' s' F' v hi
    end.
Proof using HL HSL Hv Hps Hhi Hp0 Hpe Hpa Hva Hsa HA HB HAv HvB.
  intros Hd Hr Hst He1 Hpt1 D sz. assert (Hcv : canonical v) by (split; lia). pose proof Hst as [Hwf Hfr Hc Hn].
  destruct (read_entry_run _ _ _ _ _ _ _ Hwf Hcv He1 Hpt1) as (e0 & He0 & R0). unfold enter_table. mstep R0.
  assert (Hcov : is_present (lvl D) e0 = true -> is_page (lvl D) e0 = false) by (intros Hp; apply (Hc v D e0); [lia|unfold D; lia|done|done]).
  destruct (is_present (lvl D) e0) eqn:Hpr; cbn [negb].
  - rewrite bind_mret. mstep R0. rewrite Hpr, bind_assert, (Hcov eq_refl). cbn [negb]. rewrite bind_assert. mstep (table_run (lvl D) e0 s).
    eexists _, s. split; [done|]. split; [done|]. split; [apply frame_refl|]. exists own, F, e0. split_and!; [done| |done].
    apply points_Some. split_and!; [done|unfold D; lia|right; auto|done].
  - rewrite bind_assoc, bind_lift. destruct ((v =? slot D v * sz) && (p0 mod sz =? 0) && (sz <=? psize)) eqn:Ec.
    + apply andb_prop in Ec as [[Ev%Z.eqb_eq Ep%Z.eqb_eq]%andb_prop Es%Z.leb_le]. pose proof (size_pos D) as Hszp.
      assert (Hal : v mod sz = 0) by (rewrite Ev; apply Z.mod_mul; unfold sz; lia).
      destruct (big_loop_spec d v p0 psize ({[P]} ∪ {[PS]} ∪ r) table Hd ltac:(set_solver) ltac:(set_solver) Hv Hhi Hp0 Hpe HAv HvB 512 own s F (idx D v) 0)
        as (m & s' & Hrun & Hm & Hmod & Hpos & Hwf' & Hmap & Hfm & Hnd).
      { done. } { lia. } { by rewrite Z.add_0_r. } { by rewrite Z.add_0_r. } { lia. } { rewrite Z.add_0_r. split; [done|eauto]. }
      { rewrite Z.add_0_r. eauto. } { by rewrite Z.add_0_r. }
      rewrite !Z.add_0_r, Z.sub_0_r in *. change (S d) with D in Hrun, Hmod, Hpos. change (size_at D) with sz in Hrun, Hmod, Hpos. rewrite bind_assoc. mstep Hrun. rewrite bind_mret.
      exists (inl m), s'. split; [done|]. specialize (Hpos Hps Es (idx_lt D v)).
      assert (Hmm : (v + m) mod sz = 0) by (rewrite Z.add_mod, Hal, Hmod by lia; done).
      assert (Hsz21 : (2 ^ 21 | sz)) by (destruct Hd as [-> | ->]; [by exists (2 ^ 9)|by exists 1]).
      split; [by exists own|lia| | |by rewrite <- (big_flags r Hr)|done|by rewrite Hnd].
      * apply Z.mod_divide; [lia|]. apply Z.mod_divide in Hmod; [|lia]. etrans; [|exact Hmod]. etrans; [|exact Hsz21]. by exists 512.
      * intros _. apply Z.mod_divide; [lia|]. apply Z.mod_divide in Hmm; [|lia]. by etrans.
    + destruct (make_table own s F v hi D e0 Hst Hcv ltac:(unfold hi; lia) ltac:(lia) ltac:(unfold D; lia) He0 Hpr)
        as (own' & s1 & s' & F' & e & q & En & -> & Hd1 & (own1 & F1 & Hwf1) & Hst' & He & Hq & Hab & Hacc & Hframe).
      rewrite !bind_assoc. mstep En. rewrite bind_assoc.
      mstep (write_entry_run own1 s1 F1 v d e1 table e Hwf1 Hcv ltac:(by rewrite Hd1) Hpt1). rewrite bind_mret.
      pose proof (st_wf _ _ _ _ _ Hst') as Hwf'.
      assert (Hat : down (set_down s1 v D e) v d = Some e1) by (rewrite Hab; [done|done|unfold D; lia]).
      destruct (read_entry_run _ _ _ _ _ _ _ Hwf' Hcv Hat Hpt1) as (e2 & He2 & R2). assert (e2 = e) as -> by (change (S d) with D in He2; congruence). mstep R2.
      pose proof Hq as (Hp2 & _ & Hg2 & ->)%points_Some. rewrite Hp2, bind_assert. destruct Hg2 as [?|Hg2]; [done|]. rewrite Hg2. cbn [negb]. rewrite bind_assert.
      mstep (table_run (lvl D) e (set_down s1 v D e)). eexists _, _. split; [done|]. split; [done|]. split; [done|]. by exists own', F', e.
Qed.

Lemma enter_pml4_spec own s F : stage own s F v hi ->
  exists t s' own' F' e, enter_pml4 v s = Done (t, s') /\ stage own' s' F' v hi /\ down s' v 0 = Some e /\ points 0 e = Some t /\
    (forall x, canonical x -> access s' x = access s x) /\ frame s s' v 1.
Proof using HL HSL Hv Hps Hhi HA HB HAv HvB.
  intros Hst. assert (Hcv : canonical v) by (split; lia). pose proof Hst as [Hwf _ _ _]. unfold enter_pml4.
  destruct (read_pml4_run own s F v Hwf) as (e0 & He0 & R0). mstep R0.
  assert (Hend : forall s' e, read_pml4 (pml4_index v) s' = Done (e, s') -> is_present PML4 e = true ->
    (e ← read_pml4 (pml4_index v); assert (is_present PML4 e);; get_pdpt e) s' = Done (address PML4 e, s')).
  { intros s' e R Hp. mstep R. rewrite Hp, bind_assert. apply table_run. }
  destruct (is_present PML4 e0) eqn:Hpr; cbn [negb].
  - rewrite bind_mret, (Hend s e0) by done. exists (address PML4 e0), s, own, F, e0. split_and!; try done; [|apply frame_refl]. apply points_Some. auto with lia.
  - destruct (make_table own s F v hi 0 e0 Hst Hcv ltac:(unfold hi; lia) ltac:(lia) ltac:(lia) He0 Hpr)
      as (own' & s1 & s' & F' & e & q & En & -> & Hd1 & (own1 & F1 & Hwf1) & Hst' & He & Hq & _ & Hacc & Hframe).
    rewrite bind_assoc. cbn [new_table] in En. mstep En. mstep (write_pml4_run own1 s1 F1 v e Hwf1). pose proof (st_wf _ _ _ _ _ Hst') as Hwf'.
    destruct (read_pml4_run _ _ _ v Hwf') as (e2 & He2 & R2). rewrite He in He2. injection He2 as <-. pose proof Hq as (Hp & _ & _ & ->)%points_Some.
    rewrite (Hend _ e R2 Hp). eexists _, _, own', F', e. split_and!; [done|exact Hst'|done..].
Qed.

Lemma huge_pos_run : huge_pos (pml4_index v) (pdpt_index v) = Done (slot 1 v * size_at 1).
Proof using HL Hv Hps Hhi HB HvB HA HAv.
  assert (Hcv : canonical v) by (split; lia). unfold huge_pos, umul, uadd. rewrite slot_size, huge_size, index_0, index_1.
  pose proof (idx_lt 0 v). pose proof (idx_lt 1 v). pose proof (slot_S 0 v ltac:(lia) Hv) as Hs. rewrite slot_0 in Hs by done.
  rewrite checked_ok by (unfold in_width; lia). cbn. rewrite checked_ok by (unfold in_width; lia). cbn. rewrite checked_ok by (unfold in_width; lia). f_equal.
  rewrite Hs. cbn [size_at]. lia.
Qed.
Lemma large_pos_run : large_pos (pml4_index v) (pdpt_index v) (pd_index v) = Done (slot 2 v * size_at 2).
Proof using HL Hv Hps Hhi HB HvB HA HAv.
  assert (Hcv : canonical v) by (split; lia). unfold large_pos. rewrite huge_pos_run. unfold umul, uadd. rewrite large_size, index_2.
  pose proof (idx_lt 2 v). pose proof (slot_S 1 v ltac:(lia) Hv) as Hs. pose proof (slot_bounds 1 v) as Hb. cbn [size_at] in *.
  cbn [mbind outcome_bind]. rewrite checked_ok by (unfold in_width; lia). cbn [mbind outcome_bind]. rewrite checked_ok by (unfold in_width; lia). f_equal. lia.
Qed.

Lemma rights_agree : to_pdpt_rights rights = to_pt_rights rights /\ to_pd_rights rights = to_pt_rights rights.
Proof. by destruct rights. Qed.

(** A result for a later state is one for an earlier state with the same translation. *)
Lemma advanced_eq s s1 s' F' m : (forall x, canonical x -> access s1 x = access s x) -> frame s s1 v 1 -> advanced s1 s' F' v psize p0 fl m -> advanced s s' F' v psize p0 fl m.
Proof. intros He Hf []. split; try done; [by eapply mapped_eq|]. eapply frame_seq; [exact Hf|eassumption|lia..]. Qed.

(** One call of [map_generic]: how far it gets. *)
Lemma map_chunk_spec own s F : stage own s F v hi ->
  exists m s' F', map_chunk v p0 psize rights s = Done (m, s') /\ advanced s s' F' v psize p0 fl m.
Proof using HL HSL Hv Hps Hhi Hp0 Hpe Hpa Hva Hsa HA HB HAv HvB.
  intros Hst. unfold map_chunk. destruct (enter_pml4_spec own s F Hst) as (pdpt & s1 & own1 & F1 & e1 & R1 & Hst1 & He1 & Hq1 & Ha1 & Hf1). mstep R1.
  destruct rights_agree as [HR1 HR2].
  destruct (enter_table_spec 0 own1 s1 F1 e1 pdpt (to_pdpt_rights rights) (or_introl eq_refl) HR1 Hst1 He1 Hq1) as (x & s2 & R2 & Hx).
  assert (R2' : enter_pdpt pdpt v p0 psize rights s1 = Done (x, s2)).
  { unfold enter_pdpt, huge_loop. by rewrite huge_pos_run, huge_size, index_1. }
  mstep R2'. destruct x as [m|pd].
  { exists m, s2, F1. split; [done|]. by eapply advanced_eq. }
  destruct Hx as (Ha2 & Hf2 & own2 & F2 & e2 & He2 & Hq2 & Hst2).
  destruct (enter_table_spec 1 own2 s2 F2 e2 pd (to_pd_rights rights) (or_intror eq_refl) HR2 Hst2 He2 Hq2) as (x & s3 & R3 & Hx).
  assert (R3' : enter_pd pd v p0 psize rights s2 = Done (x, s3)).
  { unfold enter_pd, large_loop. by rewrite large_pos_run, large_size, index_2. }
  mstep R3'. assert (Ha12 : forall y, canonical y -> access s2 y = access s y) by (intros y Hy; by rewrite Ha2, Ha1).
  assert (Hf12 : frame s s2 v 1) by (eapply frame_seq; [exact Hf1|exact Hf2|lia..]). destruct x as [m|pt].
  { exists m, s3, F2. split; [done|]. by eapply advanced_eq. }
  destruct Hx as (Ha3 & Hf3 & own3 & F3 & e3 & He3 & Hq3 & Hst3). pose proof Hst3 as [Hwf3 _ _ Bn].
  destruct (base_loop_spec v p0 psize rights pt Hv Hhi Hp0 Hpe HAv HvB 512 own3 s3 F3 (idx 3 v) 0) as (m & s4 & R4 & Hm & Hmp & Hend & Hwf4 & Hmap & Hf4 & Hnd); try done; try lia.
  { pose proof (idx_lt 3 v). lia. }
  { rewrite Z.add_0_r. intros _. split; [done|]. by exists e3. }
  rewrite index_3, R4. exists m, s4, F3. split; [done|]. rewrite Z.add_0_r, Z.sub_0_r in *. rewrite Z.add_0_r in Hmap.
  pose proof (idx_lt 3 v) as Hi. eapply (advanced_eq s s3); [intros y Hy; by rewrite Ha3, Ha12|eapply frame_seq; [exact Hf12|exact Hf3|lia..]|].
  split; [by exists own3|lia|done| |done|done|by rewrite Hnd].
  intros Hlt. destruct Hend as [-> | ->]; [lia|]. pose proof (slot_S 2 v ltac:(lia) Hv) as Hs. pose proof (aligned_slot 3 v Hva) as Hal. cbn [size_at] in Hal.
  replace (v + 4096 * (512 - Z.of_nat (idx 3 v))) with ((slot 2 v + 1) * 2 ^ 21) by lia. apply Z.mod_mul. lia.
Qed.
End Enter.

Lemma page_add a b : a mod 4096 = 0 -> b mod 4096 = 0 -> (a + b) mod 4096 = 0 /\ (a - b) mod 4096 = 0.
Proof. intros Ha Hb. split; [rewrite Z.add_mod, Ha, Hb by lia|rewrite Zminus_mod, Ha, Hb]; done. Qed.

(** The whole of [map_generic]. *)
Lemma map_rec_spec fuel own s F v p0 psize rights : rights <> MNone -> 0 <= v -> 0 < psize -> v + psize <= 2 ^ 48 -> 0 <= p0 -> p0 + psize <= 2 ^ 52 ->
  p0 mod 4096 = 0 -> v mod 4096 = 0 -> psize mod 4096 = 0 -> A <= v -> v + psize - 1 <= B ->
  wf own s F -> region_free s v (v + psize) -> (need s A B <= base.size F)%nat -> slot 2 (v + psize - 1) - slot 2 v < Z.of_nat fuel ->
  exists s' own' F', map_generic_rec fuel v p0 psize rights s = Done (Ok tt, s') /\ wf own' s' F' /\ mapped_as s s' v psize p0 ({[P]} ∪ to_pt_rights rights) /\
    frame s s' v psize /\ (need s' A B <= base.size F')%nat.
Proof using HL HSL HA HB.
  revert own s F v p0 psize. induction fuel as [|fuel IH]; intros own s F v p0 psize Hr Hv Hps Hhi Hp0 Hpe Hpa Hva Hsa HAv HvB Hwf Hrf Hn Hf.
  { pose proof (slot_mono 2 v (v + psize - 1) ltac:(lia)). lia. }
  cbn [map_generic_rec]. change BASE_PAGE_SIZE with 4096. rewrite Hpa, Hsa, Hva, bool_decide_eq_true_2 by done. change (0 =? 0) with true. rewrite !bind_assert.
  destruct (map_chunk_spec v p0 psize rights Hv Hps Hhi Hp0 Hpe HAv HvB Hpa Hva Hsa own s F) as (m & s1 & F1 & Rm & [[own1 Hwf1] Hm Hmp Hend Hmap Hfr Hn1]).
  { split; [done|eapply region_weaken; [|done]; lia|intros x d e Hx; apply (rf_c _ _ _ Hrf); lia|done]. }
  mstep Rm. destruct (Z.ltb_spec m psize) as [Hlt|Hge].
  - unfold uadd, usub. rewrite (checked_ok 64 (v + m)) by (unfold in_width; lia). rewrite bind_lift. rewrite (checked_ok 64 (p0 + m)) by (unfold in_width; lia).
    rewrite bind_lift. rewrite (checked_ok 64 (psize - m)) by (unfold in_width; lia). rewrite bind_lift. specialize (Hend Hlt).
    destruct (IH own1 s1 F1 (v + m) (p0 + m) (psize - m)) as (s2 & own2 & F2 & Rr & Hwf2 & Hmap2 & Hf2 & Hn2); try done; try lia; try (by apply page_add).
    { replace (v + m + (psize - m)) with (v + psize) by lia. apply Hfr; [lia|lia|lia|]. eapply region_weaken; [|done]. lia. }
    { replace (v + m + (psize - m) - 1) with (v + psize - 1) by lia. pose proof (aligned_slot 2 (v + m) Hend) as Hal. pose proof (slot_bounds 2 v) as Hb.
      assert (slot 2 v < slot 2 (v + m)); [|lia]. cbn [size_at] in *. nia. }
    exists s2, own2, F2. split_and!; try done.
    + replace psize with (m + (psize - m)) by lia. eapply mapped_seq; [lia|lia|exact Hmap|done].
    + eapply frame_seq; [exact Hfr|exact Hf2|lia..].
  - assert (m = psize) as -> by lia. by exists s1, own1, F1.
Qed.

(** The number of calls that [map_generic] is run with is enough. *)
Lemma calls_enough v psize : 0 <= v -> 0 < psize -> slot 2 (v + psize - 1) - slot 2 v < Z.of_nat (calls psize).
Proof.
  intros Hv Hps. unfold calls. rewrite Z2Nat.id by (pose proof (Z.div_pos psize (2 ^ 21)); lia).
  pose proof (slot_bounds 2 v) as H1. pose proof (slot_bounds 2 (v + psize - 1)) as H2. cbn [size_at] in *. pose proof (Z.div_mod psize (2 ^ 21) ltac:(lia)). pose proof (Z.mod_pos_bound psize (2 ^ 21)). nia.
Qed.

Lemma map_generic_spec own s F v p0 psize rights : rights <> MNone -> 0 <= v -> 0 < psize -> v + psize <= 2 ^ 48 -> 0 <= p0 -> p0 + psize <= 2 ^ 52 ->
  p0 mod 4096 = 0 -> v mod 4096 = 0 -> psize mod 4096 = 0 -> A <= v -> v + psize - 1 <= B ->
  wf own s F -> region_free s v (v + psize) -> (need s A B <= base.size F)%nat ->
  exists s' own' F', map_generic v (p0, psize) rights s = Done (Ok tt, s') /\ wf own' s' F' /\ mapped_as s s' v psize p0 ({[P]} ∪ to_pt_rights rights) /\
    frame s s' v psize /\ (need s' A B <= base.size F')%nat.
Proof using HL HSL HA HB. intros. apply (map_rec_spec _ own s F); try done. by apply calls_enough. Qed.
End Mapping.

(** ** Changing a page *)
Section Change.
Context `{HP : Profile} `{HG : Paging} {Src : Type} `{HS : PageSource Src} `{HO : PageOwner Src} {HL : PagingLaws HG}.
Implicit Types (s : VSpace Src) (v : Z) (own : gmap Z (nat * Z)) (F : gset Z) (fl : gset Flag).

Lemma change_entry_spec own s F v fl : wf own s F -> canonical v -> v mod 4096 = 0 -> uncovered s v (v + 1) ->
  match access s v with
  | None => change_entry v fl s = Done (false, s)
  | Some (a, _) => exists s', change_entry v fl s = Done (true, s') /\ wf own s' F /\ forall x, canonical x ->
      access s' x = if decide (v <= x < v + 4096) then (if decide (P ∈ fl) then Some (a + (x - v), fl ∖ {[PS]}) else None) else access s x
  end.
Proof using HL.
  intros Hwf Hv Hal Hunc. unfold change_entry.
  assert (Hpts : forall d e, (d < 3)%nat -> down s v d = Some e -> is_present (lvl d) e = true -> points d e = Some (address (lvl d) e)).
  { intros d e Hd He Hp. apply points_Some. split_and!; [done..| |done]. destruct (decide (d = 0%nat)) as [|Hne]; [by left|right]. apply (Hunc v d e); [lia|lia|done|done]. }
  assert (Hnone : forall d e, (d <= 3)%nat -> down s v d = Some e -> is_present (lvl d) e = false -> access s v = None).
  { intros d e Hd He Hp. rewrite (access_stop s v d e) by (done || by apply absent_points). by apply (absent_leaf s v d e). }
  destruct (read_pml4_run own s F v Hwf) as (e4 & D4 & R4). mstep R4.
  destruct (is_present PML4 e4) eqn:P4; cbn [negb]; [|by rewrite (Hnone 0%nat e4) by (done || lia)].
  unfold get_pdpt. mstep (table_run PML4 e4 s). rewrite index_1, index_2, index_3.
  destruct (read_entry_run _ _ _ _ _ _ _ Hwf Hv D4 (Hpts 0%nat e4 ltac:(lia) D4 P4)) as (e3 & D3 & R3). cbn [lvl] in R3. mstep R3.
  destruct (is_present PDPT e3) eqn:P3; cbn [negb]; [|by rewrite (Hnone 1%nat e3) by (done || lia)].
  unfold get_pd. mstep (table_run PDPT e3 s).
  destruct (read_entry_run _ _ _ _ _ _ _ Hwf Hv D3 (Hpts 1%nat e3 ltac:(lia) D3 P3)) as (e2 & D2 & R2). cbn [lvl] in R2. mstep R2.
  destruct (is_present PD e2) eqn:P2; cbn [negb]; [|by rewrite (Hnone 2%nat e2) by (done || lia)].
  unfold get_pt. mstep (table_run PD e2 s). pose proof (Hpts 2%nat e2 ltac:(lia) D2 P2) as Q2. cbn [lvl] in Q2.
  destruct (read_entry_run _ _ _ _ _ _ _ Hwf Hv D2 Q2) as (e1 & D1 & R1). mstep R1.
  destruct (is_present PT e1) eqn:P1; cbn [negb]; [|by rewrite (Hnone 3%nat e1) by (done || lia)].
  assert (L1 : leaf 3 e1 = true) by (unfold leaf; cbn; by rewrite P1). rewrite (access_stop s v 3 e1) by (done || by apply leaf_points).
  unfold leaf_at at 1. rewrite D1. cbn [mbind option_bind]. rewrite L1. cbn [lvl size_at]. destruct (address_range PT e1) as [Hr Ha].
  destruct (new_entry PT (address PT e1) fl Hr Ha) as (e & Ee & Hae & Hfe). rewrite Ee, bind_lift.
  mstep (write_entry_run own s F v 2 e2 _ e Hwf Hv D2 Q2). exists (set_down s v 3 e).
  assert (Hp3 : points 3 e = None) by (unfold points; cbn; by rewrite andb_false_r).
  destruct (wrote_leaf own s F v 3 e1 e Hwf Hv ltac:(lia) D1 Hp3) as [Hw Hwf']. split; [done|]. split; [done|].
  intros x Hx. rewrite (access_wrote s _ v 3 e None) by (done || by left). pose proof (aligned_in 3 v x Hal) as Hin. cbn [size_at] in Hin. change (2 ^ 12) with 4096 in *.
  destruct (decide (slot 3 x = slot 3 v)) as [Es|Es], (decide (v <= x < v + 4096)) as [Hxi|Hxi]; try tauto.
  unfold leaf_at. rewrite (wr_same _ _ _ _ _ _ Hw) by done. cbn [mbind option_bind]. unfold leaf. cbn [lvl]. rewrite present_flag, Hfe, Hae. cbn [Nat.eqb orb].
  rewrite (aligned_off 3 v x Hal Hxi). rewrite Hal, Z.add_0_r, andb_true_r. by destruct (decide (P ∈ fl)) as [HPf|HPf]; [rewrite bool_decide_eq_true_2|rewrite bool_decide_eq_false_2].
Qed.
End Change.

(** ** A concrete encoding and a concrete pool of pages

    The words of the Intel manuals: the address in bits 12 to 51, the flags at their bits. *)
Definition flag_bit (f : Flag) : Z := match f with P => 0 | RW => 1 | US => 2 | PCD => 4 | PS => 7 | XD => 63 end.
Definition all_flags : list Flag := [P; RW; US; PCD; PS; XD].
Definition word_flags (e : Z) : gset Flag := list_to_set (base.filter (fun f => Z.testbit e (flag_bit f) = true) all_flags).
Fixpoint flag_word (l : list Flag) (f : gset Flag) : Z :=
  match l with [] => 0 | x :: l => (if decide (x ∈ f) then 2 ^ flag_bit x else 0) + flag_word l f end.
Definition word_address (e : Z) : Z := e mod 2 ^ 52 / 4096 * 4096.
Definition word_new (a : Z) (f : gset Flag) : outcome Z :=
  if (a mod 4096 =? 0) && (0 <=? a) && (a <? 2 ^ 52) then Done (a + flag_word all_flags f) else Panic.

Definition x86_words : Paging := {|
  LARGE_PAGE_SIZE := 2 ^ 21; HUGE_PAGE_SIZE := 2 ^ 30; PML4_SLOT_SIZE := 2 ^ 39; PAGE_SIZE_ENTRIES := 512%nat;
  entry_new := fun _ => word_new; address := fun _ => word_address; flags_of := fun _ => word_flags;
  is_present := fun _ e => Z.testbit e 0; is_page := fun _ e => Z.testbit e 7;
  pml4_index := fun v => Z.to_nat (v / 2 ^ 39 mod 512); pdpt_index := fun v => Z.to_nat (v / 2 ^ 30 mod 512);
  pd_index := fun v => Z.to_nat (v / 2 ^ 21 mod 512); pt_index := fun v => Z.to_nat (v / 2 ^ 12 mod 512);
  huge_page_offset := fun v => v mod 2 ^ 30; large_page_offset := fun v => v mod 2 ^ 21; base_page_offset := fun v => v mod 2 ^ 12 |}.

Lemma word_flags_elem e f : f ∈ word_flags e <-> Z.testbit e (flag_bit f) = true.
Proof.
  unfold word_flags. rewrite elem_of_list_to_set, list_elem_of_filter. split; [by intros [? _]|]. intros H. split; [done|]. destruct f; set_solver.
Qed.

(** The low bits of the flags, and bit 63. *)
Lemma flag_word_split f : exists lo hi, flag_word all_flags f = lo + hi * 2 ^ 63 /\ 0 <= lo < 4096 /\ hi = (if decide (XD ∈ f) then 1 else 0) /\
  lo = flag_word [P; RW; US; PCD; PS] f.
Proof.
  exists (flag_word [P; RW; US; PCD; PS] f), (if decide (XD ∈ f) then 1 else 0). split; [|split; [|done]].
  - unfold all_flags. cbn [flag_word flag_bit]. destruct (decide (XD ∈ f)); lia.
  - cbn [flag_word flag_bit]. repeat case_decide; lia.
Qed.

(** The flags of a word, by the bits of its low part and its bit 63. *)
Lemma flag_word_bit a f x : a mod 4096 = 0 -> 0 <= a < 2 ^ 52 -> Z.testbit (a + flag_word all_flags f) (flag_bit x) = bool_decide (x ∈ f).
Proof.
  intros Ha Hr. destruct (flag_word_split f) as (lo & hi & E & Hlo & Hhi & Hlo'). rewrite E. replace (a + (lo + hi * 2 ^ 63)) with (hi * 2 ^ 63 + (a + lo)) by lia.
  destruct (decide (x = XD)) as [->|Hne].
  - cbn [flag_bit]. rewrite Z.testbit_odd, Z.shiftr_div_pow2 by lia. rewrite Z.div_add_l, (Z.div_small (a + lo)) by lia. rewrite Hhi.
    destruct (decide (XD ∈ f)); [by rewrite bool_decide_eq_true_2|by rewrite bool_decide_eq_false_2].
  - assert (Hb : 0 <= flag_bit x < 12) by (destruct x; cbn; done || lia). rewrite <- (Z.mod_pow2_bits_low _ 12) by lia.
    replace ((hi * 2 ^ 63 + (a + lo)) mod 2 ^ 12) with lo.
    2: { apply (Z.mod_unique _ _ (hi * 2 ^ 51 + a / 4096)); [left; lia|]. pose proof (Z.div_mod a 4096 ltac:(lia)). change (2 ^ 63) with (2 ^ 51 * 4096). change (2 ^ 12) with 4096. lia. }
    rewrite Hlo'. cbn [flag_word flag_bit]. destruct x; try done; cbn [flag_bit];
      repeat match goal with |- context [decide (?y ∈ f)] => destruct (decide (y ∈ f)) end;
      (rewrite bool_decide_eq_true_2 by done) || (rewrite bool_decide_eq_false_2 by done); reflexivity.
Qed.

Global Instance x86_words_laws : PagingLaws x86_words.
Proof.
  split; try done.
  - intros l a f Hr Ha. cbn. exists (a + flag_word all_flags f). split; [|split].
    + unfold word_new. rewrite Ha, (proj2 (Z.leb_le _ _)), (proj2 (Z.ltb_lt _ _)) by lia. done.
    + unfold word_address. destruct (flag_word_split f) as (lo & hi & E & Hlo & _ & _).
      replace (a + flag_word all_flags f) with ((a + lo) + (hi * 2 ^ 11) * 2 ^ 52) by lia. rewrite Z.mod_add by lia.
      pose proof (Z.div_mod a 4096 ltac:(lia)). rewrite Z.mod_small by lia. replace (a + lo) with (a / 4096 * 4096 + lo) by lia. rewrite Z.div_add_l, (Z.div_small lo) by lia. lia.
    + apply set_eq. intros x. change (x ∈ word_flags (a + flag_word all_flags f) <-> x ∈ f). rewrite word_flags_elem, flag_word_bit by done. apply bool_decide_eq_true.
  - intros l e. change (Z.testbit e 0 = bool_decide (P ∈ word_flags e)). apply Bool.eq_iff_eq_true. by rewrite bool_decide_eq_true, word_flags_elem.
  - intros l e. change (Z.testbit e 7 = bool_decide (PS ∈ word_flags e)). apply Bool.eq_iff_eq_true. by rewrite bool_decide_eq_true, word_flags_elem.
  - intros l e. change (0 <= word_address e < 2 ^ 52 /\ word_address e mod 4096 = 0). unfold word_address. pose proof (Z.mod_pos_bound e (2 ^ 52) ltac:(lia)). pose proof (Z.div_mod (e mod 2 ^ 52) 4096 ltac:(lia)). pose proof (Z.mod_pos_bound (e mod 2 ^ 52) 4096 ltac:(lia)).
    split; [lia|]. apply Z.mod_mul. lia.
Qed.

(** Pages handed out one after the other. *)
Global Instance pool : PageSource (list Z) := fun _ _ st => match st with [] => Panic | p :: st => Done (p, st) end.
Global Instance pool_owner : PageOwner (list Z) := fun st F =>
  NoDup st /\ F = list_to_set st /\ Forall (fun p => 0 < p < 2 ^ 52 /\ p mod 4096 = 0) st.
Global Instance pool_laws : PageSourceLaws (list Z).
Proof.
  split.
  - intros st F p (_ & -> & Hall) Hp%elem_of_list_to_set. apply (proj1 (list.Forall_forall _ _) Hall p Hp).
  - intros [|p st] F (Hnd & -> & Hall) HF; [done|]. exists p, st. split; [done|]. apply list.NoDup_cons in Hnd as [Hp Hnd]. inversion Hall; subst. split; [set_solver|].
    split; [done|]. split; [|done]. set_solver.
  - intros [|p st] (_ & E & _); [done|]. set_solver.
Qed.

(** ** The properties *)
Section Properties.
Context `{HP : Profile} `{HG : Paging} {Src : Type} `{HS : PageSource Src} `{HO : PageOwner Src} {HL : PagingLaws HG} {HSL : PageSourceLaws Src}.

(** A new address space maps nothing and every region of it is free. *)
Lemma new_space (st : Src) F : src_ok st F ->
  exists s, VSpace_new st = Done s /\ wf ∅ s F /\ (forall v, access s v = None) /\ (forall a b, region_free s a b) /\ source s = st.
Proof using HL.
  intros Hst. destruct (new_entry PML4 0 ∅ ltac:(lia) eq_refl) as (e & Ee & _ & Hf). unfold VSpace_new. rewrite Ee. cbn [mbind outcome_bind].
  rewrite table_entries. eexists. split; [done|]. set (s := mkVSpace (replicate 512 e) ∅ st : VSpace Src).
  assert (Hp : is_present PML4 e = false) by (rewrite present_flag, Hf; by apply bool_decide_eq_false_2).
  assert (Hpt : points 0 e = None) by (by apply absent_points).
  assert (H0 : forall v, down s v 0 = Some e) by (intros v; apply lookup_replicate_2, idx_lt).
  assert (Hd : forall v d, (0 < d)%nat -> down s v d = None) by (intros v d; by apply down_below with e).
  split_and!; [|intros v; by rewrite (access_stop s v 0 e), (absent_leaf s v 0 e) by (done || lia)| |done].
  - split; try done; cbn [pml4 tables source s].
    intros i e' q [-> _]%lookup_replicate_1. by rewrite Hpt.
  - intros a b. split; [intros w e' _ _ _; by rewrite Hd by lia..|]. intros x d e' _ Hdd. by rewrite Hd by lia.
Qed.

(** C14: [map_generic] for a page-aligned region of at least one page, of canonical virtual and 52-bit physical
    addresses, that no large page covers and that has room for the tables it needs, returns [Ok] after at most
    one call more than the region has 2 MiB ranges; afterwards every byte of the region that was not
    mapped resolves to the byte at the same offset of the physical region, with the requested rights and
    whatever page sizes the code chose; bytes that were mapped keep their mapping, no other address changes,
    and the tables are well-formed. *)
Theorem map_generic_maps own s F vbase pbase psize rights : wf own s F -> rights <> MNone ->
  0 <= vbase -> 0 < psize -> vbase + psize <= 2 ^ 48 -> 0 <= pbase -> pbase + psize <= 2 ^ 52 ->
  vbase mod 4096 = 0 -> pbase mod 4096 = 0 -> psize mod 4096 = 0 ->
  region_free s vbase (vbase + psize) -> (need s vbase (vbase + psize - 1) <= base.size F)%nat ->
  exists s' own' F', map_generic vbase (pbase, psize) rights s = Done (Ok tt, s') /\ wf own' s' F' /\
    forall x, canonical x ->
      resolve_addr x s' = Done (if decide (vbase <= x < vbase + psize) then Some (match access s x with Some (a, _) => a | None => pbase + (x - vbase) end) else fst <$> access s x, s') /\
      (vbase <= x < vbase + psize -> access s x = None -> access s' x = Some (pbase + (x - vbase), {[P]} ∪ to_pt_rights rights)).
Proof using HL HSL.
  intros Hwf Hr Hv Hps Hhi Hp0 Hpe Hva Hpa Hsa Hfree Hneed.
  destruct (map_generic_spec vbase (vbase + psize - 1) Hv ltac:(lia) own s F vbase pbase psize rights) as (s' & own' & F' & E & Hwf' & Hmap & _ & _); try done; try lia.
  exists s', own', F'. split; [done|]. split; [done|]. intros x Hx. rewrite (resolve_access own' s' F' x Hwf' Hx), (Hmap x Hx).
  destruct (decide _) as [Hin|Hout]; [|split; [done|lia]]. split; [by destruct (access s x) as [[a f]|]|]. by intros _ ->.
Qed.

(** For a page that is not in a large page, [set_guard_page] and [map_change_prot] return false and change nothing
    when the page is not mapped; otherwise they return true, and afterwards no address of a guard page resolves, a page whose
    protection was changed resolves as before with exactly the new rights, and no other address changes. *)
Theorem page_changes own s F vbase rights : wf own s F -> canonical vbase -> vbase mod 4096 = 0 -> uncovered s vbase (vbase + 1) ->
  match access s vbase with
  | None => set_guard_page vbase s = Done (false, s) /\ map_change_prot vbase rights s = Done (false, s)
  | Some (a, _) =>
      (exists s', set_guard_page vbase s = Done (true, s') /\ wf own s' F /\
         forall x, canonical x -> resolve_addr x s' = Done (if decide (vbase <= x < vbase + 4096) then None else fst <$> access s x, s')) /\
      (exists s', map_change_prot vbase rights s = Done (true, s') /\ wf own s' F /\
         forall x, canonical x -> access s' x = if decide (vbase <= x < vbase + 4096) then Some (a + (x - vbase), {[P]} ∪ to_pt_rights rights) else access s x)
  end.
Proof using HL HSL.
  intros Hwf Hv Hal Hunc. unfold set_guard_page, map_change_prot.
  pose proof (change_entry_spec own s F vbase (to_pt_rights MNone) Hwf Hv Hal Hunc) as H1.
  pose proof (change_entry_spec own s F vbase ({[P]} ∪ to_pt_rights rights) Hwf Hv Hal Hunc) as H2. destruct (access s vbase) as [[a f]|]; [|done].
  destruct H1 as (s1 & E1 & Hwf1 & A1). destruct H2 as (s2 & E2 & Hwf2 & A2). split; [exists s1|exists s2]; (split; [done|]); (split; [done|]); intros x Hx.
  - rewrite (resolve_access own s1 F x Hwf1 Hx), (A1 x Hx). destruct (decide (vbase <= x < _)); [|done]. rewrite decide_False; [done|]. cbn. set_solver.
  - rewrite (A2 x Hx). destruct (decide (vbase <= x < _)); [|done]. rewrite decide_True by set_solver. do 2 f_equal. destruct rights; set_solver.
Qed.
End Properties.

(** A new space with six pages; two pages are mapped across the boundary between the first and the second GiB. *)
Definition wit_pool : list Z := [0x1000; 0x2000; 0x3000; 0x4000; 0x5000; 0x6000].
Definition wit_space : VSpace (list Z) := mkVSpace (replicate 512 0) ∅ wit_pool.

Lemma wit_pool_ok : src_ok wit_pool (list_to_set wit_pool).
Proof. split; [by apply (bool_decide_unpack _); vm_compute|]. split; [done|]. repeat constructor; vm_compute; done. Qed.
Lemma wit_space_new : wf (HG := x86_words) ∅ wit_space (list_to_set wit_pool) /\ (forall v, access (HG := x86_words) wit_space v = None) /\
  (forall a b, region_free (HG := x86_words) wit_space a b).
Proof.
  destruct (new_space (HG := x86_words) wit_pool _ wit_pool_ok) as (s & E & H1 & H2 & H3 & _).
  assert (Done s = Done wit_space) as [= ->] by (rewrite <- E; vm_compute; reflexivity). done.
Qed.

Lemma map_generic_maps_witness : exists s', map_generic (HP := true) (HG := x86_words) 0x3FFFF000 (0x80000000, 0x2000) ReadWriteKernel wit_space = Done (Ok tt, s') /\
  resolve_addr (HP := true) (HG := x86_words) 0x40000123 s' = Done (Some 0x80001123, s').
Proof.
  destruct wit_space_new as (Hwf & Hnone & Hfree).
  destruct (map_generic_maps (HP := true) (HG := x86_words) ∅ wit_space (list_to_set wit_pool) 0x3FFFF000 0x80000000 0x2000 ReadWriteKernel)
    as (s' & own' & F' & E & _ & H); [done|done|lia|lia|lia|lia|lia|reflexivity|reflexivity|reflexivity|apply Hfree| |].
  { apply Nat.leb_le. vm_compute. reflexivity. }
  exists s'. split; [exact E|]. destruct (H 0x40000123 ltac:(split; lia)) as [Hr _]. by rewrite Hnone in Hr.
Defined.

(** The space with one page mapped. *)
Definition wit_mapped : VSpace (list Z) :=
  match map_generic (HP := true) (HG := x86_words) 0x40000000 (0x7000, 0x1000) ReadWriteKernel wit_space with Done (_, s) => s | _ => wit_space end.

Lemma page_changes_witness : exists own F s', wf (HG := x86_words) own wit_mapped F /\
  set_guard_page (HP := true) (HG := x86_words) 0x40000000 wit_mapped = Done (true, s') /\
  resolve_addr (HP := true) (HG := x86_words) 0x40000010 wit_mapped = Done (Some 0x7010, wit_mapped) /\
  resolve_addr (HP := true) (HG := x86_words) 0x40000010 s' = Done (None, s').
Proof.
  destruct wit_space_new as (Hwf & Hnone & Hfree).
  destruct (map_generic_spec (HP := true) (HG := x86_words) 0x40000000 0x40000FFF ltac:(lia) ltac:(lia) ∅ wit_space (list_to_set wit_pool) 0x40000000 0x7000 0x1000 ReadWriteKernel)
    as (s & own & F & E & Hwf' & Hmap & _ & _); [done|lia|lia|lia|lia|lia|reflexivity|reflexivity|reflexivity|lia|lia|done|apply Hfree|apply Nat.leb_le; vm_compute; reflexivity|].
  assert (s = wit_mapped) as -> by (unfold wit_mapped; by rewrite E).
  assert (Hv : canonical 0x40000000) by (split; lia).
  pose proof (page_changes (HP := true) (HG := x86_words) own wit_mapped F 0x40000000 ReadKernel Hwf' Hv eq_refl) as Hc.
  rewrite (Hmap _ Hv), Hnone, decide_True in Hc by lia. destruct Hc as [(s' & E' & _ & H) _].
  { intros x d e Hx Hd He Hp. assert (x = 0x40000000) as -> by lia. destruct Hd as [-> | ->]; vm_compute in He; injection He as <-; reflexivity. }
  exists own, F, s'. split; [done|]. split; [done|]. split; [vm_compute; reflexivity|]. rewrite H by (split; lia). by rewrite decide_True by lia.
Defined.
