(* ===== verification/Memory.v ===== *)
(** * The memory of the kernel (kernel/src/memory/mod.rs, kernel/src/arch/mod.rs)

    [init_buddy] picks the region of the boot loader's memory map that the buddy allocator manages.
    [SafeZoneAllocator] is the global allocator: single pages and large requests go to the buddy
    allocator, the rest to the slab allocator of the crate [slabmalloc], which is a parameter.
    [construct_pt] builds the kernel's own address space out of pages of that allocator.

    The file shows that the allocator is the source of pages that [VSpace] asks for, and with that
    what the kernel's address space is. *)

From Stdlib Require Import ZArith Lia.
From stdpp Require Import base gmap sets list numbers.
From stdpp Require Import options.
From S2P Require Import Prelude Buddy VSpace.

Set Default Proof Using "Type".
Local Open Scope Z_scope.

(** ** The slab allocator, as the kernel uses it *)
Inductive AllocationError := OutOfMemory | InvalidLayout.
Class Slab (Zn : Type) := {
  MAX_ALLOC_SIZE : Z;
  MAX_BASE_ALLOC_SIZE : Z;
  slab_allocate : Layout -> Zn -> result AllocationError Z * Zn;
  slab_refill : Layout -> Z -> Zn -> option Zn;
  slab_refill_large : Layout -> Z -> Zn -> option Zn;
  slab_deallocate : Z -> Layout -> Zn -> option Zn;
}.

Record SafeZoneAllocator (Zn : Type) := mkZone { allocator : Zn; buddy : option bst }.
Arguments mkZone {Zn}. Arguments allocator {Zn}. Arguments buddy {Zn}.

Section Alloc.
Context `{HP : Profile} {Zn : Type} `{HZ : Slab Zn}.

(** [self.buddy.lock().as_mut().expect(...)]: an operation of the buddy allocator. *)
Definition with_buddy {A} (m : M bst A) : M (SafeZoneAllocator Zn) A := fun s =>
  b ← expect (buddy s); '(a, b') ← m b; Done (a, mkZone (allocator s) (Some b')).
Definition with_slab (m : Zn -> option Zn) : M (SafeZoneAllocator Zn) unit := fun s =>
  z ← expect (m (allocator s)); Done (tt, mkZone z (buddy s)).

(** A frame of the buddy allocator, zeroed (the words of the frame are not part of this state), and its address. *)
Definition buddy_frame (layout : Layout) : M (SafeZoneAllocator Zn) Z :=
  f ← with_buddy (allocate layout);
  f ← lift (expect f);
  lift (kernel_vaddr f).

Definition align_to (l : Layout) (align : Z) : Layout := mkLayout (lsize l) (Z.max (lalign l) align).

Definition slab_try (layout : Layout) : M (SafeZoneAllocator Zn) (result AllocationError Z) := fun s =>
  let '(r, z) := slab_allocate layout (allocator s) in Done (r, mkZone z (buddy s)).

Definition alloc (layout : Layout) : M (SafeZoneAllocator Zn) Z :=
  with_buddy (mret tt);;
  if lsize layout =? BASE_PAGE_SIZE then buddy_frame layout
  else if (0 <=? lsize layout) && (lsize layout <=? MAX_ALLOC_SIZE) then
    r ← slab_try layout;
    match r with
    | Ok nptr => mret nptr
    | Err OutOfMemory =>
        (if lsize layout <=? MAX_BASE_ALLOC_SIZE then
           vframe ← buddy_frame layout; with_slab (slab_refill layout vframe)
         else
           vframe ← buddy_frame (align_to layout (2 * 1024 * 1024)); with_slab (slab_refill_large layout vframe));;
        r ← slab_try layout;
        match r with Ok p => mret p | Err _ => panic end
    | Err InvalidLayout => panic
    end
  else buddy_frame layout.

Definition dealloc (ptr : Z) (layout : Layout) : M (SafeZoneAllocator Zn) unit :=
  with_buddy (mret tt);;
  p ← lift (kernel_vaddr_to_paddr ptr);
  let frame := mkFrame p 0 in
  if lsize layout =? BASE_PAGE_SIZE then with_buddy (deallocate frame layout)
  else if (0 <=? lsize layout) && (lsize layout <=? MAX_ALLOC_SIZE) then
    if ptr =? 0 then mret tt else with_slab (slab_deallocate ptr layout)
  else with_buddy (deallocate frame layout).

Global Instance kernel_source : PageSource (SafeZoneAllocator Zn) := fun size align => alloc (mkLayout size align).
End Alloc.

(** The pages of the allocator: those that are free in the buddy allocator, whose region is [r]. *)
Definition free_pages (ls : list (list Z)) (F : gset Z) : Prop := forall p, p ∈ F <-> p mod 4096 = 0 /\ cover ls p = 1.
Definition kernel_pages {Zn} (r : Frame) : PageOwner (SafeZoneAllocator Zn) := fun st F =>
  exists b B K ls, buddy st = Some b /\ Inv b B K ls /\ region (Buddy.alloc b) = r /\ B mod 4096 = 0 /\ B + bs K <= 2 ^ 52 /\ free_pages ls F.

(** ** Choosing the region of the buddy allocator (kernel/src/arch/mod.rs)

    An area of the memory map: its type, start and size. *)
Record MemoryArea := mkArea { typ : Z; start_address : Z; area_size : Z }.

Definition KERNEL_START : Z := 0x100000.
(** Without the feature [large_mem]. *)
Definition MEM_THRESHOLD : Z := 0x2EE0000.

Section Boot.
Context `{HP : Profile}.

(** The region that one area gives, when it is taken. *)
Definition area_frame (kernel_end : Z) (a : MemoryArea) : outcome (option Frame) :=
  if typ a =? 1 then
    let base := start_address a in
    let size := area_size a in
    let base := if (KERNEL_START <=? base) && (base <? kernel_end) then kernel_end else base in
    if (100000000 <=? base) && (BASE_PAGE_SIZE <? size) && (MEM_THRESHOLD <=? size) then
      '(base, size) ← (if negb (base mod HEAP_ALIGN =? 0) then
          let pad := HEAP_ALIGN - base mod HEAP_ALIGN in
          base ← uadd 64 base pad; size ← usub 64 size pad; Done (base, size)
        else Done (base, size));
      let size := if 4 * 0x100000000 <? size then 4 * 0x100000000 else size in
      Done (Some (mkFrame base size))
    else Done None
  else Done None.

Fixpoint init_areas (kernel_end : Z) (areas : list MemoryArea) : M bst unit :=
  match areas with
  | [] => mret tt
  | a :: areas =>
      f ← lift (area_frame kernel_end a);
      (match f with Some f => add_memory f;; mret tt | None => mret tt end);;
      init_areas kernel_end areas
  end.

(** [memory_map_tag] is an option: without it no area is looked at. *)
Definition init_buddy (kernel_end : Z) (areas : option (list MemoryArea)) : outcome bst :=
  '(_, s) ← init_areas kernel_end (default [] areas) bst0;
  if size (get_region (Buddy.alloc s)) =? 0 then Panic else Done s.
End Boot.

(** ** The kernel's own address space

    The addresses that the linker and the loader give. *)
Record Symbols := mkSymbols {
  text_end : Z; rodata_start : Z; rodata_end : Z; data_start : Z; data_end : Z;
  bss_start : Z; bss_end : Z; tdata_start : Z; KERNEL_END : Z }.

Definition IMAGE_BASE : Z := 0x100000.
Definition MAP_BASE : Z := 0x0.

Section Construct.
Context `{HP : Profile} `{HG : Paging} {Zn : Type} `{HZ : Slab Zn}.
Let Src : Type := SafeZoneAllocator Zn.

(** [map_generic(a, (a, b - a), rights).unwrap()] *)
Definition map_section (a b : Z) (rights : MapAction) : M (VSpace Src) unit :=
  n ← lift (usub 64 b a);
  r ← map_generic a (a, n) rights;
  match r with Ok _ => mret tt | Err _ => panic end.

Fixpoint map_frames (n : nat) (page base_ : Z) : M (VSpace Src) unit :=
  match n with
  | O => mret tt
  | S n =>
      o ← lift (umul 64 page BASE_PAGE_SIZE);
      a ← lift (uadd 64 base_ o);
      o' ← lift (umul 64 (page + 1) BASE_PAGE_SIZE);
      b ← lift (uadd 64 base_ o');
      map_identity a b ReadWriteExecuteKernel;;
      map_frames n (page + 1) base_
  end.

Definition buddy_region : M (VSpace Src) Frame := fun s =>
  match buddy (source s) with Some b => Done (get_region (Buddy.alloc b), s) | None => Panic end.

(** Without the final switch to the new tables. *)
Definition construct_pt (y : Symbols) : M (VSpace Src) unit :=
  map_section MAP_BASE IMAGE_BASE ReadWriteExecuteKernel;;
  map_section IMAGE_BASE (text_end y) ReadWriteExecuteKernel;;
  map_section (rodata_start y) (rodata_end y) ReadKernel;;
  map_section (data_start y) (data_end y) ReadWriteExecuteKernel;;
  map_section (bss_start y) (bss_end y) ReadWriteExecuteKernel;;
  map_section (tdata_start y) (KERNEL_END y) ReadWriteExecuteKernel;;
  frame ← buddy_region;
  assert (size frame mod BASE_PAGE_SIZE =? 0);;
  map_frames (Z.to_nat (size frame / BASE_PAGE_SIZE)) 0 (base frame);;
  map_identity 0xfec00000 (0xfec00000 + BASE_PAGE_SIZE) ReadWriteExecuteKernel;;
  map_identity 0xfed40000 (0xfed40000 + 5 * BASE_PAGE_SIZE) ReadWriteExecuteKernel;;
  map_identity 0xfee00000 (0xfee00000 + BASE_PAGE_SIZE) ReadWriteExecuteKernel.
End Construct.

(** ** The pages that the allocator hands out *)
Section Pages.
Context `{HP : Profile} {Zn : Type} `{HZ : Slab Zn}.

Definition page_layout : Layout := mkLayout 4096 4096.
Lemma page_valid : valid_layout page_layout.
Proof. split; [done|]. exists 12. done. Qed.
Lemma page_order : order_of page_layout = 0%nat.
Proof. reflexivity. Qed.

Lemma page_cover_range b B K ls p : Inv b B K ls -> cover ls p = 1 -> B <= p < B + bs K.
Proof.
  intros HI Hc. destruct (cover_pos ls p ltac:(lia)) as (n & l & a & Hl & Ha & Hp).
  destruct (inv_blk _ _ _ _ HI n l a Hl Ha) as (_ & k & Hk & -> & Hin). pose proof (bs_pos n). nia.
Qed.

(** A free page can be taken, and what is taken was free. *)
Lemma take_page b B K ls F : Inv b B K ls -> B mod 4096 = 0 -> B + bs K <= 2 ^ 52 -> free_pages ls F ->
  (F = ∅ /\ allocate page_layout b = Done (None, b)) \/
  (exists f b' ls', allocate page_layout b = Done (Some f, b') /\ Inv b' B K ls' /\ region (Buddy.alloc b') = region (Buddy.alloc b) /\
     base f ∈ F /\ free_pages ls' (F ∖ {[base f]})).
Proof.
  intros HI HB Htop HF. destruct (allocate_ok b B K ls page_layout HI page_valid) as (r & b' & ls' & E & HI' & (Hreg & _) & Hpost). destruct r as [f|].
  - right. exists f, b', ls'. unfold allocate_post in Hpost. rewrite page_order in Hpost. destruct Hpost as (_ & _ & _ & Hsz & Hal & Hlo & Hhi & Hc). change (bs 0) with 4096 in *.
    assert (Hpa : base f mod 4096 = 0). { rewrite Hsz in Hal. replace (base f) with (base f - B + B) by lia. rewrite Z.add_mod, Hal, HB by lia. done. }
    assert (Hin : forall q, q mod 4096 = 0 -> in_frame f q = if decide (q = base f) then 1 else 0).
    { intros q Hq. unfold in_frame. rewrite Hsz. pose proof (Z.div_mod q 4096 ltac:(lia)). pose proof (Z.div_mod (base f) 4096 ltac:(lia)).
      destruct (decide (q = base f)) as [->|Hne]; zcase; cbn; lia. }
    assert (Hone : forall q, cover ls' q <= 1 /\ cover ls q <= 1) by (intros q; split; [apply (inv_cover _ _ _ _ HI')|apply (inv_cover _ _ _ _ HI)]).
    assert (Hnn : forall q, 0 <= cover ls' q) by (intros q; apply cover_from_nonneg).
    split_and!; [done|done|done| |].
    + apply HF. split; [done|]. specialize (Hc (base f)). rewrite Hin, decide_True in Hc by done. specialize (Hone (base f)). specialize (Hnn (base f)). lia.
    + intros p. unfold free_pages in HF. rewrite elem_of_difference, HF, not_elem_of_singleton. specialize (Hc p). specialize (Hone p). specialize (Hnn p). split.
      * intros [[Hp H1] Hne]. rewrite Hin, decide_False in Hc by done. split; [done|lia].
      * intros [Hp H1]. rewrite Hin in Hc by done. destruct (decide (p = base f)); [lia|]. split; [split; [done|lia]|done].
  - left. unfold allocate_post in Hpost. destruct Hpost as [-> Hpost]. split; [|done]. apply set_eq. intros p. unfold free_pages in HF. rewrite HF. split; [|set_solver].
    intros [_ Hc]. exfalso. destruct Hpost as [Hp|[Hp|Hp]]; [done| |].
    + rewrite page_order in Hp. change (bs 0) with 4096 in Hp. pose proof (inv_root _ _ _ _ HI). pose proof (bs_mono 0 K ltac:(lia)). change (bs 0) with 4096 in *. lia.
    + destruct (cover_pos ls p ltac:(lia)) as (n & l & a & Hl & Ha & _). rewrite (Hp n l) in Ha by (rewrite ?page_order; done || lia). set_solver.
Qed.

Lemma alloc_page_run st b r b' : buddy st = Some b -> allocate page_layout b = Done (r, b') ->
  alloc page_layout st = match r with Some f => match kernel_vaddr f with Done v => Done (v, mkZone (allocator st) (Some b')) | Panic => Panic | Hang => Hang end | None => Panic end.
Proof.
  destruct st as [z o]. cbn [buddy allocator]. intros -> E. unfold alloc, buddy_frame, with_buddy, mbind, M_bind. cbn [buddy expect lsize page_layout].
  change (mbind _ (Done b)) with (Done (tt, b)). cbn. by rewrite E; destruct r as [f|]; cbn; [destruct (kernel_vaddr f)|].
Qed.

Lemma kernel_pages_sound (r : Frame) : PageSourceLaws (SafeZoneAllocator Zn) (H0 := kernel_pages r).
Proof.
  assert (Hid : forall b B K ls p, Inv b B K ls -> B + bs K <= 2 ^ 52 -> cover ls p = 1 -> 0 < p < 2 ^ 52).
  { intros b B K ls p HI Ht Hc. pose proof (page_cover_range _ _ _ _ _ HI Hc). pose proof (inv_pos _ _ _ _ HI). lia. }
  split.
  - intros st F p (b & B & K & ls & _ & HI & _ & HB & Ht & HF) [Hp Hc]%HF. split; [by eapply Hid|done].
  - intros st F (b & B & K & ls & Hb & HI & Hr & HB & Ht & HF) Hne.
    destruct (take_page b B K ls F HI HB Ht HF) as [[-> _]|(f & b' & ls' & E & HI' & Hreg & Hf & HF')]; [done|].
    exists (base f), (mkZone (allocator st) (Some b')). split_and!; [|done|exists b', B, K, ls'; split_and!; try done; by rewrite Hreg].
    assert (Hrg : 0 < base f < 2 ^ 52) by (apply HF in Hf as [_ Hf]; exact (Hid b B K ls _ HI Ht Hf)).
    change (alloc page_layout st = Done (base f, mkZone (allocator st) (Some b'))). rewrite (alloc_page_run st b _ _ Hb E).
    unfold kernel_vaddr. by rewrite (proj1 (kernel_id (base f) ltac:(lia))).
  - intros st (b & B & K & ls & Hb & HI & Hr & HB & Ht & HF).
    destruct (take_page b B K ls ∅ HI HB Ht HF) as [[_ E]|(f & b' & ls' & _ & _ & _ & Hf & _)]; [|set_solver].
    change (alloc page_layout st = Panic). by rewrite (alloc_page_run st b _ _ Hb E).
Qed.

(** The global allocator of the kernel is a source of pages for the page tables: a request for one page takes one of the
    pages that are free in the buddy allocator, each page once, page-aligned and within the region, as long as there is
    one, and panics when there is none. *)
Theorem kernel_pages_laws (r : Frame) : PageSourceLaws (SafeZoneAllocator Zn) (H0 := kernel_pages r).
Proof. apply kernel_pages_sound. Qed.
End Pages.

(** ** The map that [construct_pt] builds

    A list of regions with their rights, each mapped to itself. *)
Definition kmap : Type := list (Z * Z * MapAction).
Fixpoint lookup_region (R : kmap) (x : Z) : option (Z * gset Flag) :=
  match R with
  | [] => None
  | (a, b, r) :: R => if decide (a <= x < b) then Some (x, {[P]} ∪ to_pt_rights r) else lookup_region R x
  end.
Definition apart (a b : Z) (R : kmap) : Prop := Forall (fun '(a', b', _) => b <= a' \/ b' <= a) R.
Definition valid_region (top a b : Z) (r : MapAction) : Prop := 0 <= a < b /\ b <= top /\ a mod 4096 = 0 /\ b mod 4096 = 0 /\ r <> MNone.
Fixpoint disjoint_regions (top : Z) (R : kmap) : Prop :=
  match R with [] => True | (a, b, r) :: R => valid_region top a b r /\ apart a b R /\ disjoint_regions top R end.

(** What [construct_pt] maps, last first: the image of the kernel; and before it the device pages and the memory of the
    buddy allocator. *)
Definition kernel_image (y : Symbols) : kmap :=
  [(tdata_start y, KERNEL_END y, ReadWriteExecuteKernel); (bss_start y, bss_end y, ReadWriteExecuteKernel);
   (data_start y, data_end y, ReadWriteExecuteKernel); (rodata_start y, rodata_end y, ReadKernel);
   (IMAGE_BASE, text_end y, ReadWriteExecuteKernel); (MAP_BASE, IMAGE_BASE, ReadWriteExecuteKernel)].
Definition kernel_map (y : Symbols) (f : Frame) : kmap :=
  (0xfee00000, 0xfee01000, ReadWriteExecuteKernel) :: (0xfed40000, 0xfed45000, ReadWriteExecuteKernel) :: (0xfec00000, 0xfec01000, ReadWriteExecuteKernel) ::
  (base f, base f + size f, ReadWriteExecuteKernel) :: kernel_image y.

(** The tables for all addresses below [top]. *)
Definition tables_below (top : Z) : nat := Z.to_nat ((top - 1) / 2 ^ 39 + (top - 1) / 2 ^ 30 + (top - 1) / 2 ^ 21 + 3).

Section KernelMap.
Context `{HP : Profile} `{HG : Paging} {HL : PagingLaws HG} {Zn : Type} `{HZ : Slab Zn} (r : Frame) (top : Z).
Context (Htop : 0 < top) (Hcan : top <= 2 ^ 48).
Local Instance owner : PageOwner (SafeZoneAllocator Zn) := kernel_pages r.
Local Instance owner_laws : PageSourceLaws (SafeZoneAllocator Zn) := kernel_pages_sound r.
Implicit Types (s : VSpace (SafeZoneAllocator Zn)).

(** The space maps exactly [R], and can be extended elsewhere. *)
Record identity s (R : kmap) : Prop := mkIdentity {
  id_wf : exists own F, wf own s F /\ (need s 0 (top - 1) <= base.size F)%nat;
  id_access : forall x, canonical x -> access s x = lookup_region R x;
  id_free : forall a b, 0 <= a -> b <= 2 ^ 48 -> apart a b R -> region_free s a b }.

Lemma apart_none R a b x : apart a b R -> a <= x < b -> lookup_region R x = None.
Proof.
  intros Ha Hx. induction Ha as [|[[a' b'] r'] R Hd Ha IH]; [done|]. cbn. destruct (decide (a' <= x < b')); [lia|done].
Qed.

Lemma map_one s R a b rights : identity s R -> valid_region top a b rights -> apart a b R ->
  exists s', map_generic a (a, b - a) rights s = Done (Ok tt, s') /\ identity s' ((a, b, rights) :: R).
Proof using HL Htop Hcan.
  intros [(own & F & Hwf & Hn) Hacc Hfree] (Hab & Hb & Hal & Hbl & Hr) Hap.
  destruct (map_generic_spec 0 (top - 1) ltac:(lia) ltac:(lia) own s F a a (b - a) rights) as (s' & own' & F' & E & Hwf' & Hmap & Hfr & Hn'); try done; try lia.
  { by apply page_add. }
  { replace (a + (b - a)) with b by lia. apply Hfree; [lia|lia|done]. }
  exists s'. split; [done|]. split; [by exists own', F'|..].
  - intros x Hx. rewrite (Hmap x Hx), (Hacc x Hx). cbn [lookup_region]. replace (a + (b - a)) with b by lia.
    destruct (decide (a <= x < b)) as [Hin|]; [|done]. rewrite (apart_none R a b x) by done. do 2 f_equal. lia.
  - intros a' b' Ha' Hb' Hap'. unfold apart in Hap'. apply list.Forall_cons in Hap' as [Hd Hap']. apply Hfr; [done|done|lia|]. by apply Hfree.
Qed.

Lemma usub_ok (a b : Z) : 0 <= a <= b -> b < 2 ^ 64 -> usub 64 b a = Done (b - a).
Proof. intros H1 H2. unfold usub. apply checked_ok. unfold in_width. lia. Qed.
Lemma uadd_ok (a b : Z) : 0 <= a + b < 2 ^ 64 -> uadd 64 a b = Done (a + b).
Proof. intros H. unfold uadd. by apply checked_ok. Qed.

Lemma map_section_run s R a b rights : identity s R -> valid_region top a b rights -> apart a b R ->
  exists s', map_section a b rights s = Done (tt, s') /\ identity s' ((a, b, rights) :: R).
Proof using HL Htop Hcan.
  intros Hid Hv Hap. destruct (map_one s R a b rights Hid Hv Hap) as (s' & E & Hid'). exists s'. split; [|done]. destruct Hv as (Hab & Hb & _).
  unfold map_section. rewrite usub_ok by lia. rewrite bind_lift. by mstep E.
Qed.

Lemma map_identity_run s R a b rights : identity s R -> valid_region top a b rights -> apart a b R ->
  exists s', map_identity a b rights s = Done (tt, s') /\ identity s' ((a, b, rights) :: R).
Proof using HL Htop Hcan.
  intros Hid Hv Hap. destruct (map_one s R a b rights Hid Hv Hap) as (s' & E & Hid'). exists s'. split; [|done]. destruct Hv as (Hab & Hb & _).
  unfold map_identity, map_identity_with_offset. rewrite (proj2 (Z.ltb_lt a b)) by lia. rewrite bind_assoc, bind_assert, bind_assoc.
  rewrite uadd_ok by lia. rewrite bind_lift, bind_assoc, usub_ok by lia. rewrite bind_lift. by mstep E.
Qed.

(** Regions that touch and have the same rights are one region. *)
Lemma identity_join s R a b c rights : a <= b <= c -> identity s ((b, c, rights) :: (a, b, rights) :: R) -> identity s ((a, c, rights) :: R).
Proof.
  intros Hab [Hwf Hacc Hfree]. split; [done|..].
  - intros x Hx. rewrite (Hacc x Hx). cbn. repeat case_decide; try done; lia.
  - intros a' b' Ha' Hb' [Hd Hap]%list.Forall_cons. apply Hfree; [done|done|]. constructor; [lia|]. constructor; [lia|done].
Qed.
Lemma identity_empty s R a rights : identity s R -> identity s ((a, a, rights) :: R).
Proof.
  intros [Hwf Hacc Hfree]. split; [done|..].
  - intros x Hx. rewrite (Hacc x Hx). cbn. case_decide; [lia|done].
  - intros a' b' Ha' Hb' [Hd Hap]%list.Forall_cons. by apply Hfree.
Qed.

Lemma map_frames_run n k s R a : 0 <= k -> 0 <= a -> a mod 4096 = 0 -> a + (k + Z.of_nat n) * 4096 <= top -> apart a (a + (k + Z.of_nat n) * 4096) R ->
  identity s ((a, a + k * 4096, ReadWriteExecuteKernel) :: R) ->
  exists s', map_frames n k a s = Done (tt, s') /\ identity s' ((a, a + (k + Z.of_nat n) * 4096, ReadWriteExecuteKernel) :: R).
Proof using HL Htop Hcan.
  revert k s. induction n as [|n IH]; intros k s Hk Ha Hal Hend Hap Hid.
  { exists s. split; [done|]. by rewrite Z.add_0_r. }
  cbn [map_frames]. change BASE_PAGE_SIZE with 4096. unfold umul.
  rewrite (checked_ok 64 (k * 4096)) by (unfold in_width; lia). rewrite bind_lift, uadd_ok by lia. rewrite bind_lift.
  rewrite (checked_ok 64 ((k + 1) * 4096)) by (unfold in_width; lia). rewrite bind_lift, uadd_ok by lia. rewrite bind_lift.
  destruct (map_identity_run s ((a, a + k * 4096, ReadWriteExecuteKernel) :: R) (a + k * 4096) (a + (k + 1) * 4096) ReadWriteExecuteKernel) as (s1 & E & Hid1); [done| | |].
  { split; [lia|]. split; [lia|]. split; [by rewrite Z.mod_add by lia|]. split; [by rewrite Z.mod_add by lia|done]. }
  { constructor; [lia|]. eapply list.Forall_impl; [exact Hap|]. intros [[a' b'] r']. lia. }
  mstep E. destruct (IH (k + 1) s1) as (s2 & E2 & Hid2); [lia|lia|done|lia| | |].
  { by replace (k + 1 + Z.of_nat n) with (k + Z.of_nat (S n)) by lia. }
  { eapply identity_join; [|exact Hid1]. lia. }
  exists s2. split; [done|]. by replace (k + Z.of_nat (S n)) with (k + 1 + Z.of_nat n) by lia.
Qed.

Lemma buddy_region_run s R : identity s R -> buddy_region s = Done (r, s).
Proof. intros [(own & F & Hwf & _) _ _]. destruct (wf_src _ _ _ Hwf) as (b & B & K & ls & Hb & _ & Hr & _). unfold buddy_region. rewrite Hb. unfold get_region. by rewrite Hr. Qed.

Lemma need_bound s : (need s 0 (top - 1) <= tables_below top)%nat.
Proof using Htop.
  unfold need, lacks, tables_below. change (slot 0 0) with 0. change (slot 1 0) with 0. change (slot 2 0) with 0.
  unfold slot. cbn [size_at]. pose proof (Z.div_pos (top - 1) (2 ^ 39)). pose proof (Z.div_pos (top - 1) (2 ^ 30)). pose proof (Z.div_pos (top - 1) (2 ^ 21)).
  pose proof (count_le (fun k => negb (has_table s 0 k)) 0 (Z.to_nat ((top - 1) / 2 ^ 39 - 0 + 1))).
  pose proof (count_le (fun k => negb (has_table s 1 k)) 0 (Z.to_nat ((top - 1) / 2 ^ 30 - 0 + 1))).
  pose proof (count_le (fun k => negb (has_table s 2 k)) 0 (Z.to_nat ((top - 1) / 2 ^ 21 - 0 + 1))). lia.
Qed.
End KernelMap.

Section ConstructPt.
Context `{HP : Profile} `{HG : Paging} {HL : PagingLaws HG} {Zn : Type} `{HZ : Slab Zn}.

(** C15: [construct_pt] on a new address space, with a buddy allocator that has pages for the tables of all addresses
    below [top], and with an image, a buddy region and device pages that are page-aligned, not empty, pairwise disjoint
    and below [top], returns; afterwards every address of these regions resolves to itself with the
    rights of its region, read-only data without write and execute, and no other address is mapped.  The pages for the
    tables come from the same buddy allocator whose memory is mapped. *)
Theorem construct_pt_identity (y : Symbols) (f : Frame) (top : Z) (st : SafeZoneAllocator Zn) (F : gset Z) :
  kernel_pages f st F -> 0 < top <= 2 ^ 48 -> (tables_below top <= base.size F)%nat -> size f mod 4096 = 0 -> disjoint_regions top (kernel_map y f) ->
  exists s0 s', VSpace_new st = Done s0 /\ construct_pt y s0 = Done (tt, s') /\
    forall x, canonical x -> access s' x = lookup_region (kernel_map y f) x /\ resolve_addr x s' = Done (fst <$> lookup_region (kernel_map y f) x, s').
Proof using HL.
  intros Hst [Ht Hc] Hroom Hsz Hdis. pose (HO := kernel_pages f : PageOwner (SafeZoneAllocator Zn)).
  destruct (new_space (HO := HO) st F Hst) as (s0 & E0 & Hwf0 & Hacc0 & Hfree0 & _). exists s0.
  assert (Hid : identity f top s0 []).
  { split; [exists ∅, F; split; [done|]; etrans; [by apply need_bound|done]|intros x _; apply Hacc0|intros a b _ _ _; apply Hfree0]. }
  unfold kernel_map, kernel_image in Hdis. cbn [disjoint_regions] in Hdis. destruct Hdis as (V1 & A1 & V2 & A2 & V3 & A3 & V4 & A4 & V5 & A5 & V6 & A6 & V7 & A7 & V8 & A8 & V9 & A9 & V10 & A10 & _).
  unfold construct_pt.
  destruct (map_section_run f top Ht Hc _ _ _ _ _ Hid V10 A10) as (s1 & E1 & I1). mstep E1.
  destruct (map_section_run f top Ht Hc _ _ _ _ _ I1 V9 A9) as (s2 & E2 & I2). mstep E2.
  destruct (map_section_run f top Ht Hc _ _ _ _ _ I2 V8 A8) as (s3 & E3 & I3). mstep E3.
  destruct (map_section_run f top Ht Hc _ _ _ _ _ I3 V7 A7) as (s4 & E4 & I4). mstep E4.
  destruct (map_section_run f top Ht Hc _ _ _ _ _ I4 V6 A6) as (s5 & E5 & I5). mstep E5.
  destruct (map_section_run f top Ht Hc _ _ _ _ _ I5 V5 A5) as (s6 & E6 & I6). mstep E6.
  mstep (buddy_region_run f top _ _ I6). change BASE_PAGE_SIZE with 4096. rewrite Hsz, bind_assert.
  destruct V4 as (Hb4 & Hb4' & Hb4a & _). assert (Hsize : size f = (0 + Z.of_nat (Z.to_nat (size f / 4096))) * 4096).
  { pose proof (Z.div_mod (size f) 4096 ltac:(lia)). pose proof (Z.div_pos (size f) 4096). lia. }
  destruct (map_frames_run f top Ht Hc (Z.to_nat (size f / 4096)) 0 s6 (kernel_image y) (base f)) as (s7 & E7 & I7);
    [lia|lia|exact Hb4a|lia|rewrite <- Hsize; exact A4|replace (base f + 0 * 4096) with (base f) by lia; apply identity_empty; exact I6|].
  mstep E7. rewrite <- Hsize in I7.
  destruct (map_identity_run f top Ht Hc _ _ _ _ _ I7 V3 A3) as (s8 & E8 & I8). mstep E8.
  destruct (map_identity_run f top Ht Hc _ _ _ _ _ I8 V2 A2) as (s9 & E9 & I9). mstep E9.
  destruct (map_identity_run f top Ht Hc _ _ _ _ _ I9 V1 A1) as (s10 & E10 & I10).
  exists s10. split; [done|]. split; [exact E10|]. intros x Hx. destruct I10 as [(own & F' & Hwf & _) Hacc _].
  split; [by apply Hacc|]. rewrite (resolve_access own s10 F' x Hwf Hx). by rewrite Hacc.
Qed.
End ConstructPt.

(** ** The pages after boot *)
Definition page_list (a : Z) (n : nat) : list Z := (fun i => a + Z.of_nat i * 4096) <$> seq 0 n.
Lemma page_list_elem a n p : p ∈ page_list a n <-> exists i, (i < n)%nat /\ p = a + Z.of_nat i * 4096.
Proof.
  unfold page_list. rewrite list_elem_of_fmap. split; intros (i & H1 & H2); exists i; [apply elem_of_seq in H2; split; [lia|done]|split; [done|]; apply elem_of_seq; lia].
Qed.
Lemma page_list_NoDup a n : NoDup (page_list a n).
Proof. unfold page_list. apply NoDup_fmap_2; [intros i j; lia|apply NoDup_seq]. Qed.

(** [add_memory] of a page-aligned region makes the pages of its root block available. *)
Lemma boot_pages `{HP : Profile} {Zn} (z : Zn) (r : Frame) : 0 < base r -> base r mod 4096 = 0 -> 4096 <= size r <= 2 ^ 39 -> base r + size r < 2 ^ 52 ->
  exists s, add_memory r bst0 = Done (true, s) /\
    kernel_pages (region (Buddy.alloc s)) (mkZone z (Some s)) (list_to_set (page_list (base r) (Z.to_nat (bs (root_order (size r)) / 4096)))).
Proof.
  intros Hb Ha Hs Ht. destruct (add_memory_ok r Hb Hs ltac:(lia)) as (s & ls & E & HI & Hc & _). set (K := root_order (size r)) in *.
  exists s. split; [done|]. assert (Hk : bs K = bs K / 4096 * 4096). { unfold bs. rewrite Z.pow_add_r by lia. change (2 ^ 12) with 4096. rewrite (Z.mul_comm 4096), Z.div_mul; lia. }
  pose proof (bs_pos K). destruct (root_order_bounds (size r) Hs) as (_ & Hlo & Hhi). fold K in Hlo, Hhi.
  exists s, (base r), K, ls. split_and!; [done..|lia|]. intros p. rewrite elem_of_list_to_set, page_list_elem, Hc. unfold ind. split.
  - intros (i & Hi & ->). split; [by rewrite Z.mod_add by lia|]. zcase; cbn; lia.
  - intros [Hp Hin]. pose proof (Z.div_mod p 4096 ltac:(lia)). pose proof (Z.div_mod (base r) 4096 ltac:(lia)).
    destruct (Z.leb_spec (base r) p), (Z.ltb_spec p (base r + bs K)); try (cbn in Hin; lia). exists (Z.to_nat (p / 4096 - base r / 4096)). split; lia.
Qed.

(** A slab allocator that has no memory. *)
Global Instance no_slab : Slab unit := {|
  MAX_ALLOC_SIZE := 0; MAX_BASE_ALLOC_SIZE := 0; slab_allocate := fun _ z => (Err OutOfMemory, z);
  slab_refill := fun _ _ _ => None; slab_refill_large := fun _ _ _ => None; slab_deallocate := fun _ _ _ => None |}.

(** An image below 2 MiB and 32 MiB of memory at 128 MiB. *)
Definition wit_symbols : Symbols := mkSymbols 0x120000 0x120000 0x130000 0x130000 0x140000 0x140000 0x150000 0x150000 0x160000.
Definition wit_ram : Frame := mkFrame 0x8000000 0x2000000.

Lemma construct_pt_identity_witness : exists st s0 s', VSpace_new (HG := x86_words) st = Done s0 /\
  construct_pt (HP := true) (HG := x86_words) (Zn := unit) wit_symbols s0 = Done (tt, s') /\
  resolve_addr (HP := true) (HG := x86_words) 0x8123456 s' = Done (Some 0x8123456, s') /\ access (HG := x86_words) s' 0x128000 = Some (0x128000, {[P; XD]}).
Proof.
  destruct (boot_pages (HP := true) tt wit_ram) as (b & E & Hk); [done|done|done|done|].
  assert (Hreg : region (Buddy.alloc b) = wit_ram) by (vm_compute in E; injection E as <-; reflexivity).
  rewrite Hreg in Hk.
  destruct (construct_pt_identity (HP := true) (HG := x86_words) wit_symbols wit_ram 0x100000000 _ _ Hk) as (s0 & s' & E0 & Ec & H).
  - done.
  - rewrite size_list_to_set by apply page_list_NoDup. unfold page_list. rewrite length_fmap, length_seq. apply Nat.leb_le. vm_compute. reflexivity.
  - reflexivity.
  - unfold kernel_map, kernel_image, wit_symbols, wit_ram, IMAGE_BASE, MAP_BASE. cbn [disjoint_regions text_end rodata_start rodata_end data_start data_end bss_start bss_end tdata_start KERNEL_END base size].
    unfold valid_region, apart. split_and!; try lia; try reflexivity; try discriminate; try exact I; repeat (constructor; [lia|]); constructor.
  - exists (mkZone tt (Some b)), s0, s'. split; [done|]. split; [done|]. split.
    + destruct (H 0x8123456 ltac:(split; done)) as [_ Hr]. rewrite Hr. vm_compute. reflexivity.
    + destruct (H 0x128000 ltac:(split; done)) as [Ha _]. rewrite Ha. vm_compute. reflexivity.
Defined.

(** ** The region that [init_buddy] picks *)
Section Areas.
Context `{HP : Profile}.

Lemma area_pad a b : 0 <= a -> 0 < b -> (a + (b - a mod b)) mod b = 0.
Proof.
  intros Ha Hb. pose proof (Z.div_mod a b ltac:(lia)). replace (a + (b - a mod b)) with ((a / b + 1) * b) by lia. apply Z.mod_mul. lia.
Qed.

(** Every region that [init_buddy] takes from the memory map is aligned to 2 MiB and has at most 16 GiB (the comment in the
    code says 4 GiB), and the region of an area that does not start in the kernel image lies within the area.  But for
    an area that starts in the image the base moves to the end of the image and the size stays, so that the
    region reaches beyond the end of the area by exactly the bytes that were skipped. *)
Theorem area_frame_bounds (kernel_end : Z) (a : MemoryArea) :
  0 <= kernel_end < 2 ^ 48 -> 0 <= start_address a < 2 ^ 48 -> 0 <= area_size a < 2 ^ 48 ->
  (forall f, area_frame kernel_end a = Done (Some f) -> base f mod HEAP_ALIGN = 0 /\ size f <= 16 * 2 ^ 30 /\
     (start_address a < KERNEL_START \/ kernel_end <= start_address a -> start_address a <= base f /\ base f + size f <= start_address a + area_size a)) /\
  (typ a = 1 -> KERNEL_START <= start_address a < kernel_end -> kernel_end mod HEAP_ALIGN = 0 -> 100000000 <= kernel_end -> MEM_THRESHOLD <= area_size a <= 16 * 2 ^ 30 ->
     exists f, area_frame kernel_end a = Done (Some f) /\ base f + size f = start_address a + area_size a + (kernel_end - start_address a)).
Proof.
  intros Hk Hs Hz. set (b0 := if (KERNEL_START <=? start_address a) && (start_address a <? kernel_end) then kernel_end else start_address a).
  change HEAP_ALIGN with (2 ^ 21). change MEM_THRESHOLD with 0x2EE0000.
  assert (Hb0 : 0 <= b0 < 2 ^ 48) by (unfold b0; destruct (_ && _); lia).
  assert (Hout : start_address a < KERNEL_START \/ kernel_end <= start_address a -> b0 = start_address a) by (unfold b0; zcase; cbn; lia || done).
  pose proof (Z.mod_pos_bound b0 (2 ^ 21) ltac:(lia)) as Hm. split.
  - intros f. unfold area_frame. fold b0. change HEAP_ALIGN with (2 ^ 21). change MEM_THRESHOLD with 0x2EE0000. change BASE_PAGE_SIZE with 4096.
    destruct (typ a =? 1); [|done]. destruct ((100000000 <=? b0) && (4096 <? area_size a) && (0x2EE0000 <=? area_size a)) eqn:Ec; [|done].
    apply andb_prop in Ec as [[_ _]%andb_prop Ht%Z.leb_le]. destruct (Z.eqb_spec (b0 mod 2 ^ 21) 0) as [Hal|Hal]; cbn [negb].
    + cbn [mbind outcome_bind]. intros [= <-]. cbn [base size]. split; [done|]. split; [zcase; lia|]. intros Ho. rewrite (Hout Ho). zcase; lia.
    + unfold uadd, usub. rewrite (checked_ok 64 (b0 + _)) by (unfold in_width; lia). cbn [mbind outcome_bind]. rewrite checked_ok by (unfold in_width; lia).
      cbn [mbind outcome_bind]. intros [= <-]. cbn [base size]. split; [apply area_pad; lia|]. split; [zcase; lia|]. intros Ho. rewrite (Hout Ho) in *. zcase; lia.
  - intros Ht Hin Hal Hbig Hsz. exists (mkFrame kernel_end (area_size a)). split; [|cbn; lia]. unfold area_frame. rewrite Ht. change (1 =? 1) with true. cbv iota.
    fold b0. assert (b0 = kernel_end) as -> by (unfold b0; zcase; cbn; lia). change HEAP_ALIGN with (2 ^ 21). change MEM_THRESHOLD with 0x2EE0000. change BASE_PAGE_SIZE with 4096.
    rewrite (proj2 (Z.leb_le _ _)), (proj2 (Z.ltb_lt _ _)), (proj2 (Z.leb_le _ _)) by lia. cbn [andb]. rewrite Hal. change (0 =? 0) with true. cbn [negb mbind outcome_bind].
    by rewrite (proj2 (Z.ltb_ge _ _)) by lia.
Qed.
End Areas.

(** A kernel that ends at 96 MiB in 128 MiB of memory from 1 MiB on: the region ends 95 MiB behind the memory. *)
Lemma area_frame_bounds_witness : exists f, area_frame (HP := false) 0x6000000 (mkArea 1 0x100000 0x7F00000) = Done (Some f) /\
  base f + size f = 0x8000000 + 0x5F00000.
Proof.
  destruct (area_frame_bounds (HP := false) 0x6000000 (mkArea 1 0x100000 0x7F00000)) as [_ H]; [done|done|done|].
  destruct H as (f & E & Hf); [done|done|done|done|done|]. exists f. split; [exact E|]. rewrite Hf. reflexivity.
Defined.
