(* ===== verification/Maglev.v ===== *)
(** * The Maglev load balancer (domains/lib/libbenchnet/src/maglev.rs)

    [populate] builds the consistent-hashing table of the back ends: every node walks
    its own permutation of the slots and the nodes take turns in claiming the next free
    one.  [get_index_from_hash] answers from a connection cache, a [CIndex] of
    lib/external/sashstore, and falls back on the table.

    The two hash functions over nodes belong to the crates fnv and twox-hash; they are
    the class [Hashers], of which only the width of [finish()] is used.  The static
    counters HIT_COUNT and HASHMAP_TOTAL are part of the state. *)

From Stdlib Require Import ZArith Znumtheory Lia.
From stdpp Require Import base gmap list.
From stdpp Require Import options.
From S2P Require Import Prelude IndexMap SashStore.

Set Default Proof Using "Type".

Definition TABLE_SIZE : nat := Z.to_nat 65537.
Definition CACHE_BITS : nat := 21.
Definition CACHE_SIZE : nat := 2 ^ CACHE_BITS.

(** [FnvHasher] and [XxHash] run over a value that implements [Hash]. *)
Class Hashers (N : Type) := { fnv_finish : N -> Z; xx_finish : N -> Z }.
Class HashersLaws (N : Type) `{Hashers N} :=
  { fnv_u64 n : in_width 64 (fnv_finish n); xx_u64 n : in_width 64 (xx_finish n) }.

(** [x as i8], and [x as usize] of an [i8]. *)
Definition as_i8 (x : nat) : Z := let b := wrap 8 (Z.of_nat x) in if (b <? 128)%Z then b else (b - 256)%Z.
Definition i8_as_usize (x : Z) : Z := wrap 64 x.

(** [a % b] panics on zero. *)
Definition urem (a b : Z) : outcome Z := if (b =? 0)%Z then Panic else Done (a mod b)%Z.

(** ** The table *)

(** The locals [entry], [next] and [j] of [populate]. *)
Record Fill := mkFill { entry : list Z; next : list nat; taken : nat }.

Section Populate.
Context `{Profile} (m : nat).

Definition hash_offset_skip {N : Type} `{Hashers N} (key : N) : outcome (Z * Z) :=
  d ← usub 64 (Z.of_nat m) 1;
  r ← urem (fnv_finish key) d;
  skip ← uadd 64 r 1;
  offset ← urem (xx_finish key) (Z.of_nat m);
  Done (offset, skip).

(** [(offset + i * skip) % m] *)
Definition permutation_at (offset skip : Z) (i : nat) : outcome nat :=
  q ← umul 64 (Z.of_nat i) skip; p ← uadd 64 offset q; r ← urem p (Z.of_nat m); Done (Z.to_nat r).

Definition permutation_row {N : Type} `{Hashers N} (node : N) : outcome (list nat) :=
  os ← hash_offset_skip node; mapM (permutation_at os.1 os.2) (seq 0 m).

(** [while entry[c] >= 0]: node [i] moves on along its permutation. *)
Fixpoint seek (fuel : nat) (row : list nat) (entry : list Z) (i c : nat) (next : list nat) : outcome (nat * list nat) :=
  match fuel with
  | O => Hang
  | S fuel =>
      e ← index entry c;
      if (0 <=? e)%Z then
        k ← index next i;
        c ← index row (S k);
        seek fuel row entry i c (<[i := S k]> next)
      else Done (c, next)
  end.

(** The body of [for i in 0..n], up to the [break]. *)
Fixpoint turns (permutation : list (list nat)) (nodes : list nat) (s : Fill) : outcome Fill :=
  match nodes with
  | [] => Done s
  | i :: nodes =>
      row ← index permutation i;
      k ← index (next s) i;
      c ← index row k;
      r ← seek (S m) row (entry s) i c (next s);
      k ← index r.2 i;
      let s := mkFill (<[r.1 := as_i8 i]> (entry s)) (<[i := S k]> r.2) (S (taken s)) in
      if taken s =? m then Done s else turns permutation nodes s
  end.

(** [while j < m] *)
Fixpoint rounds (fuel n : nat) (permutation : list (list nat)) (s : Fill) : outcome Fill :=
  match fuel with
  | O => Hang
  | S fuel => if taken s <? m then s ← turns permutation (seq 0 n) s; rounds fuel n permutation s else Done s
  end.

Definition populate {N : Type} `{Hashers N} (nodes : list N) : outcome (list Z) :=
  permutation ← mapM permutation_row nodes;
  s ← rounds (S m) (length nodes) permutation (mkFill (replicate m (-1)%Z) (replicate (length nodes) 0) 0);
  Done (entry s).
End Populate.

(** ** The balancer *)

(** A [usize] in memory. *)
Definition usize_image (x : Z) : list Z := to_le_bytes 8 x.
Definition usize_key (x : Z) : Key Z := mkKey x (usize_image x).

Record Maglev (N : Type) := mkMaglev {
  nodes : list N; lookup : list Z; cache : Index Z Z; HIT_COUNT : Z; HASHMAP_TOTAL : Z }.
Arguments mkMaglev {N}. Arguments nodes {N}. Arguments lookup {N}. Arguments cache {N}.
Arguments HIT_COUNT {N}. Arguments HASHMAP_TOTAL {N}.

Section Balancer.
Context `{Profile} {N : Type}.

Definition Maglev_new `{Hashers N} (nodes : list N) : outcome (Maglev N) :=
  l ← populate TABLE_SIZE nodes; Done (mkMaglev nodes l (with_capacity CACHE_SIZE) 0 0).

(** [self.lookup[hash % self.lookup.len()] as usize] *)
Definition lookup_at (l : list Z) (hash : Z) : outcome Z :=
  r ← urem hash (Z.of_nat (length l)); e ← index l (Z.to_nat r); Done (i8_as_usize e).

Definition get_index_from_hash (hash : Z) (s : Maglev N) : outcome (Z * Maglev N) :=
  found ← CIndex_get (usize_key hash) (cache s);
  x ← match found with
      | Some idx => h ← uadd 64 (HIT_COUNT s) 1; Done (idx, h)
      | None => idx ← lookup_at (lookup s) hash; Done (idx, HIT_COUNT s)
      end;
  t ← uadd 64 (HASHMAP_TOTAL s) 1;
  c ← match found with
      | Some _ => Done (cache s)
      | None => r ← CIndex_insert (usize_key hash) x.1 (cache s); Done r.2
      end;
  Done (x.1, mkMaglev (nodes s) (lookup s) c x.2 t).

Definition get_index {Q : Type} `{Hashers Q} (key : Q) (s : Maglev N) : outcome (Z * Maglev N) :=
  get_index_from_hash (fnv_finish key) s.

Definition get {Q : Type} `{Hashers Q} (key : Q) (s : Maglev N) : outcome (N * Maglev N) :=
  r ← get_index key s; n ← index (nodes r.2) (Z.to_nat r.1); Done (n, r.2).
End Balancer.

(** ** Counting *)

Definition occ (P : Z -> Prop) `{forall x, Decision (P x)} (l : list Z) : nat := length (filter P l).

Section Counting.
Context (P : Z -> Prop) `{forall x, Decision (P x)}.

Lemma occ_insert l c x y : l !! c = Some y ->
  occ P (<[c := x]> l) + (if decide (P y) then 1 else 0) = occ P l + (if decide (P x) then 1 else 0).
Proof.
  revert c. unfold occ. induction l as [|z l IH]; intros [|c] Hc; [done..|injection Hc as ->|].
  - change (<[0 := x]> (y :: l)) with (x :: l). rewrite !filter_cons. repeat case_decide; cbn [length]; lia.
  - specialize (IH c Hc). change (<[S c := x]> (z :: l)) with (z :: <[c := x]> l). rewrite !filter_cons.
    destruct (decide (P z)); cbn [length]; lia.
Qed.

Lemma occ_full l : occ P l = length l -> Forall P l.
Proof.
  unfold occ. induction l as [|z l IH]; [by constructor|]. rewrite filter_cons. case_decide; cbn [length].
  - intros [= E]. constructor; auto.
  - intros E. pose proof (length_filter P l). lia.
Qed.

Lemma occ_free l : occ P l < length l -> exists c x, l !! c = Some x /\ ~ P x.
Proof.
  unfold occ. induction l as [|z l IH]; [cbn; lia|]. rewrite filter_cons. destruct (decide (P z)); cbn [length].
  - intros Hl. destruct IH as (c & x & Hc & Hx); [lia|]. by exists (S c), x.
  - intros _. by exists 0, z.
Qed.
End Counting.

(** How many of the first [t] turns node [i] of [n] has. *)
Definition share (n t i : nat) : nat := t / n + (if i <? t mod n then 1 else 0).

Lemma share_S n t i : i < n -> share n (S t) i = share n t i + (if decide (i = t mod n) then 1 else 0).
Proof.
  intros Hi. unfold share. pose proof (Nat.div_mod_eq t n). pose proof (Nat.mod_upper_bound t n ltac:(lia)).
  destruct (decide (S (t mod n) = n)) as [E|E].
  - assert (Hq : S t / n = S (t / n)) by (symmetry; apply (Nat.div_unique _ _ _ 0); nia).
    assert (Hr : S t mod n = 0) by (symmetry; apply (Nat.mod_unique _ _ (S (t / n))); nia).
    rewrite Hq, Hr. destruct (Nat.ltb_spec i 0), (Nat.ltb_spec i (t mod n)), (decide (i = t mod n)); lia.
  - assert (Hq : S t / n = t / n) by (symmetry; apply (Nat.div_unique _ _ _ (S (t mod n))); nia).
    assert (Hr : S t mod n = S (t mod n)) by (symmetry; apply (Nat.mod_unique _ _ (t / n)); nia).
    rewrite Hq, Hr. destruct (Nat.ltb_spec i (S (t mod n))), (Nat.ltb_spec i (t mod n)), (decide (i = t mod n)); lia.
Qed.

(** ** Filling the table *)

Definition taken_at (l : list Z) (c : nat) : Prop := exists e, l !! c = Some e /\ (0 <= e)%Z.
Definition free_at (l : list Z) (c : nat) : Prop := exists e, l !! c = Some e /\ (e < 0)%Z.

(** The search of a node ends at the first free slot on its way. *)
Lemma seek_spec fuel row l i c nx k k' :
  nx !! i = Some k -> row !! k = Some c -> Forall (fun c => c < length l) row ->
  k <= k' < k + fuel -> (exists c', row !! k' = Some c' /\ free_at l c') ->
  exists k1 c1, seek fuel row l i c nx = Done (c1, <[i := k1]> nx) /\ k <= k1 /\ row !! k1 = Some c1 /\ free_at l c1 /\
    (forall k2 c2, k <= k2 < k1 -> row !! k2 = Some c2 -> taken_at l c2).
Proof.
  revert c nx k. induction fuel as [|fuel IH]; intros c nx k Hk Hc Hrow Hk' Hfree; [lia|]. cbn [seek].
  destruct (lookup_lt_is_Some_2 l c) as [e He]; [exact (Forall_lookup_1 _ _ _ _ Hrow Hc)|].
  rewrite (index_Some _ _ _ He). cbn [mbind outcome_bind]. destruct (Z.leb_spec 0 e) as [Hpos|Hneg].
  - rewrite (index_Some _ _ _ Hk). cbn [mbind outcome_bind].
    assert (Hlt : k < k'). { destruct (decide (k = k')) as [->|]; [|lia]. destruct Hfree as (c' & Hc' & e' & He' & ?). naive_solver lia. }
    destruct (lookup_lt_is_Some_2 row (S k)) as [c' Hc'].
    { destruct Hfree as (? & Hl%lookup_lt_Some & _). lia. }
    rewrite (index_Some _ _ _ Hc'). cbn [mbind outcome_bind].
    destruct (IH c' (<[i := S k]> nx) (S k)) as (k1 & c1 & Hs & ? & ? & ? & Hdone); [|done|done|lia|done|].
    { apply list_lookup_insert_eq. by eapply lookup_lt_Some. }
    exists k1, c1. rewrite Hs, list_insert_insert_eq. split_and!; [done|lia|done|done|].
    intros k2 c2 Hk2 Hc2. destruct (decide (k2 = k)) as [->|]; [|apply (Hdone k2); [lia|done]].
    simplify_eq. by exists e.
  - exists k, c. rewrite list_insert_id by done. split_and!; [done|lia|done|by exists e|lia].
Qed.

Lemma taken_insert l c c' x : taken_at l c -> (0 <= x)%Z -> taken_at (<[c' := x]> l) c.
Proof.
  intros (e & He & ?) Hx. destruct (decide (c' = c)) as [->|].
  - exists x. rewrite list_lookup_insert_eq by (by eapply lookup_lt_Some). done.
  - exists e. by rewrite list_lookup_insert_ne.
Qed.

Lemma as_i8_small i : i < 128 -> as_i8 i = Z.of_nat i.
Proof. intros Hi. unfold as_i8, wrap. rewrite Z.mod_small by lia. destruct (Z.ltb_spec (Z.of_nat i) 128); lia. Qed.

Lemma occ_replicate (P : Z -> Prop) `{forall x, Decision (P x)} k x : ~ P x -> occ P (replicate k x) = 0.
Proof. intros Hx. unfold occ. induction k as [|k IH]; [done|]. cbn [replicate]. by rewrite filter_cons_False. Qed.

Section Filling.
Context (m n : nat) (perm : list (list nat)) (Hn : 0 < n <= 128) (Hperm : length perm = n).
Context (Hrow : forall i row, perm !! i = Some row ->
  length row = m /\ Forall (fun c => c < m) row /\ forall c, c < m -> exists k, row !! k = Some c).

Record filled (t : nat) (s : Fill) : Prop := {
  f_len : length (entry s) = m;
  f_next : length (next s) = n;
  f_taken : taken s = t;
  f_val : Forall (fun e => e = -1 \/ 0 <= e < Z.of_nat n)%Z (entry s);
  f_occ : occ (fun e => 0 <= e)%Z (entry s) = t;
  f_share i : i < n -> occ (fun e => e = Z.of_nat i) (entry s) = share n t i;
  f_done i k k' row c : next s !! i = Some k -> perm !! i = Some row -> k' < k -> row !! k' = Some c -> taken_at (entry s) c }.

(** One turn: node [t mod n] takes a free slot, and nothing else changes hands. *)
Lemma filled_turn t s c k k1 row i :
  filled t s -> i = t mod n -> next s !! i = Some k -> perm !! i = Some row -> k <= k1 -> row !! k1 = Some c -> free_at (entry s) c ->
  (forall k2 c2, k <= k2 < k1 -> row !! k2 = Some c2 -> taken_at (entry s) c2) ->
  filled (S t) (mkFill (<[c := as_i8 i]> (entry s)) (<[i := S k1]> (<[i := k1]> (next s))) (S (taken s))).
Proof using Hn Hperm.
  intros F Hi Hk Hr Hk1 Hc (e & He & Hneg) Hdone. assert (Hin : i < n) by (subst; apply Nat.mod_upper_bound; lia).
  rewrite as_i8_small, list_insert_insert_eq by lia. split; cbn [entry next taken].
  - rewrite length_insert. apply F.
  - rewrite length_insert. apply F.
  - f_equal. apply F.
  - apply Forall_insert; [apply F|lia].
  - pose proof (occ_insert (fun e => 0 <= e)%Z _ _ (Z.of_nat i) _ He) as Ho.
    rewrite (f_occ _ _ F), (decide_False (P := (0 <= e)%Z)), (decide_True (P := (0 <= Z.of_nat i)%Z)) in Ho by lia. lia.
  - intros i' Hi'. pose proof (occ_insert (fun e => e = Z.of_nat i') _ _ (Z.of_nat i) _ He) as Ho.
    rewrite (f_share _ _ F i' Hi'), (decide_False (P := (e = Z.of_nat i'))) in Ho by lia.
    rewrite share_S by done. destruct (decide (Z.of_nat i = Z.of_nat i')), (decide (i' = t mod n)); lia.
  - intros i' k' k2 row' c2 Hk' Hr' Hlt Hc2. destruct (decide (i = i')) as [<-|].
    + rewrite list_lookup_insert_eq in Hk' by (rewrite (f_next _ _ F); lia). simplify_eq.
      destruct (decide (k2 = k1)) as [->|].
      * simplify_eq. eexists. rewrite list_lookup_insert_eq by (by eapply lookup_lt_Some). split; [done|lia].
      * apply taken_insert; [|lia]. destruct (decide (k2 < k)); [by eapply (f_done _ _ F)|apply (Hdone k2); [lia|done]].
    + rewrite list_lookup_insert_ne in Hk' by done. apply taken_insert; [by eapply (f_done _ _ F)|lia].
Qed.

(** A free slot is on the rest of every node's way. *)
Lemma free_ahead t s i k row :
  filled t s -> t < m -> next s !! i = Some k -> perm !! i = Some row ->
  exists k' c, k <= k' < m /\ row !! k' = Some c /\ free_at (entry s) c.
Proof using Hn Hperm Hrow.
  intros F Ht Hk Hr. destruct (Hrow i row Hr) as (Hl & _ & Hsurj).
  destruct (occ_free (fun e => 0 <= e)%Z (entry s)) as (c & e & He & Hneg); [by rewrite (f_occ _ _ F), (f_len _ _ F)|].
  destruct (Hsurj c) as [k' Hk']; [rewrite <- (f_len _ _ F); by eapply lookup_lt_Some|].
  exists k', c. split_and!; [|rewrite <- Hl; by eapply lookup_lt_Some|done|exists e; split; [done|lia]].
  destruct (decide (k <= k')); [done|]. destruct (f_done _ _ F i k k' row c) as (e' & He' & ?); [done..|lia|done|naive_solver lia].
Qed.

(** The nodes from [t mod n] on take their turns, until the table is full. *)
Lemma turns_spec r t s : filled t s -> t < m -> r = n - t mod n -> 
  exists s', turns m perm (seq (t mod n) r) s = Done s' /\ filled (taken s') s' /\ t < taken s' <= m /\
    (taken s' = m \/ taken s' mod n = 0).
Proof using Hn Hperm Hrow.
  revert t s. induction r as [|r IH]; intros t s F Ht Hr; pose proof (Nat.mod_upper_bound t n ltac:(lia)) as Hi; [lia|].
  cbn [seq turns]. set (i := t mod n) in *. destruct (lookup_lt_is_Some_2 perm i) as [row Hrw]; [lia|].
  destruct (lookup_lt_is_Some_2 (next s) i) as [k Hk]; [by rewrite (f_next _ _ F)|].
  destruct (free_ahead t s i k row F Ht Hk Hrw) as (k' & c' & Hk' & Hc' & Hfree). destruct (Hrow i row Hrw) as (Hl & Hb & _).
  destruct (lookup_lt_is_Some_2 row k) as [c Hc]; [lia|].
  rewrite (index_Some _ _ _ Hrw), (index_Some _ _ _ Hk). cbn [mbind outcome_bind].
  rewrite (index_Some _ _ _ Hc). cbn [mbind outcome_bind].
  destruct (seek_spec (S m) row (entry s) i c (next s) k k') as (k1 & c1 & -> & Hk1 & Hc1 & Hf1 & Hd);
    [done|done|by rewrite (f_len _ _ F)|lia|by exists c'|]. cbn [mbind outcome_bind fst snd].
  rewrite (index_Some _ i k1) by (apply list_lookup_insert_eq; by eapply lookup_lt_Some). cbn [mbind outcome_bind taken].
  pose proof (filled_turn t s c1 k k1 row i F eq_refl Hk Hrw Hk1 Hc1 Hf1 Hd) as F'. rewrite (f_taken _ _ F) in *.
  destruct (Nat.eqb_spec (S t) m) as [E|E]; [eexists; split; [done|]; cbn [taken]; split_and!; [done|lia..]|].
  pose proof (Nat.div_mod_eq t n) as Hdm. fold i in Hdm. destruct r as [|r].
  - cbn [turns]. eexists. split; [done|]. cbn [taken]. split_and!; [done|lia|lia|right].
    symmetry. apply (Nat.mod_unique _ _ (S (t / n))); nia.
  - assert (Hm : S t mod n = S i) by (symmetry; apply (Nat.mod_unique _ _ (t / n)); nia).
    destruct (IH (S t) _ F') as (s' & Hs' & ? & ? & ?); [lia|lia|]. rewrite Hm in Hs'. exists s'. split_and!; [done|done|lia..].
Qed.

Lemma rounds_spec fuel t s : filled t s -> t <= m -> (t = m \/ t mod n = 0) -> m < t + fuel ->
  exists s', rounds m fuel n perm s = Done s' /\ filled m s'.
Proof using Hn Hperm Hrow.
  revert t s. induction fuel as [|fuel IH]; intros t s F Ht Hm Hf; [lia|]. cbn [rounds]. rewrite (f_taken _ _ F).
  destruct (Nat.ltb_spec t m) as [Hlt|Hge]; [|exists s; split; [done|by replace m with t by lia]].
  destruct Hm as [?|Hm]; [lia|]. destruct (turns_spec n t s F Hlt) as (s' & Hs' & F' & Ht' & Hm'); [lia|].
  rewrite Hm in Hs'. rewrite Hs'. cbn [mbind outcome_bind]. apply (IH (taken s')); [done|lia|done|lia].
Qed.

Lemma filled_start : filled 0 (mkFill (replicate m (-1)%Z) (replicate n 0) 0).
Proof using Hn Hperm.
  split; cbn [entry next taken].
  - apply length_replicate.
  - apply length_replicate.
  - done.
  - apply Forall_replicate. by left.
  - apply occ_replicate; lia.
  - intros i Hi. rewrite occ_replicate by lia. unfold share. rewrite Nat.Div0.mod_0_l, Nat.Div0.div_0_l. done.
  - intros i k k' row c Hk _ Hlt. apply lookup_replicate in Hk as [-> _]. lia.
Qed.

Definition balanced (l : list Z) : Prop :=
  length l = m /\ Forall (fun e => 0 <= e < Z.of_nat n)%Z l /\
  forall i, i < n -> occ (fun e => e = Z.of_nat i) l = m / n + (if i <? m mod n then 1 else 0).

Lemma filled_balanced s : filled m s -> balanced (entry s).
Proof using Hn Hperm.
  intros F. split_and!; [apply F| |apply F].
  assert (Ho : occ (fun e => 0 <= e)%Z (entry s) = length (entry s)) by (by rewrite (f_occ _ _ F), (f_len _ _ F)).
  apply occ_full in Ho. pose proof (f_val _ _ F) as Hv. rewrite list.Forall_forall in *. intros e He.
  specialize (Ho e He). specialize (Hv e He). lia.
Qed.
End Filling.

(** ** The permutations *)

Lemma mapM_Done {A B} (f : A -> outcome B) (g : A -> B) l :
  Forall (fun a => f a = Done (g a)) l -> mapM f l = Done (g <$> l).
Proof. induction 1 as [|a l Ha Hl IH]; [done|]. cbn [mapM]. rewrite Ha. cbn [mbind outcome_bind]. by rewrite IH. Qed.

Lemma prime_65537 : Z.prime 65537.
Proof.
  split; [lia|]. intros d Hd [q Hq].
  assert (Hall : forallb (fun d => negb (65537 mod Z.of_nat d =? 0)%Z) (seq 2 255) = true) by (vm_compute; reflexivity).
  assert (Hno : forall x y, (1 < x <= 256)%Z -> (65537 = y * x)%Z -> False).
  { intros x y Hx Hy. rewrite forallb_forall in Hall. specialize (Hall (Z.to_nat x)).
    rewrite in_seq, negb_true_iff, Z.eqb_neq, Z2Nat.id in Hall by lia. apply Hall; [lia|]. rewrite Hy. apply Z.mod_mul. lia. }
  destruct (decide (d <= 256)%Z); [apply (Hno d q); lia|]. apply (Hno q d); [nia|lia].
Qed.

(** A step that is not a multiple of a prime visits every slot. *)
Lemma stride_surj m offset skip c : Z.prime m -> (0 < skip < m)%Z -> (0 <= c < m)%Z ->
  exists k, (0 <= k < m)%Z /\ ((offset + k * skip) mod m = c)%Z.
Proof.
  intros Hp Hs Hc. destruct (Z.Bezout_coprime m skip) as (v & u & Huv); [apply Z.coprime_prime_small; [done|lia]|]. exists (((c - offset) * u) mod m)%Z.
  split; [apply Z.mod_pos_bound; lia|]. rewrite <- (Z.add_mod_idemp_r offset), Z.mul_mod_idemp_l, Z.add_mod_idemp_r by lia.
  replace (offset + (c - offset) * u * skip)%Z with (offset + (c - offset) * (u * skip))%Z by ring.
  replace (u * skip)%Z with (1 - v * m)%Z by lia.
  replace (offset + (c - offset) * (1 - v * m))%Z with (c + (- (c - offset) * v) * m)%Z by ring.
  rewrite Z.mod_add by lia. apply Z.mod_small. lia.
Qed.

Section Rows.
Context `{Profile} {N : Type} `{HashersLaws N} (m : nat) (Hm : Z.prime (Z.of_nat m)) (Hw : (Z.of_nat m < 2 ^ 31)%Z).

Definition stride (node : N) (i : nat) : nat :=
  Z.to_nat ((xx_finish node mod Z.of_nat m + Z.of_nat i * (fnv_finish node mod (Z.of_nat m - 1) + 1)) mod Z.of_nat m).

Lemma permutation_row_Done node : permutation_row m node = Done (stride node <$> seq 0 m).
Proof using Hm Hw.
  pose proof (Z.prime_ge_2 _ Hm) as H2. pose proof (Z.mod_pos_bound (fnv_finish node) (Z.of_nat m - 1) ltac:(lia)) as Hs.
  pose proof (Z.mod_pos_bound (xx_finish node) (Z.of_nat m) ltac:(lia)) as Ho.
  unfold permutation_row, hash_offset_skip, usub, uadd, urem. rewrite (checked_ok 64 (Z.of_nat m - 1)) by (unfold in_width; lia).
  cbn [mbind outcome_bind]. destruct (Z.eqb_spec (Z.of_nat m - 1) 0); [lia|]. cbn [mbind outcome_bind].
  rewrite checked_ok by (unfold in_width; lia). cbn [mbind outcome_bind]. destruct (Z.eqb_spec (Z.of_nat m) 0); [lia|].
  cbn [mbind outcome_bind fst snd]. apply mapM_Done, list.Forall_forall. intros i Hi%elem_of_seq.
  set (skip := (fnv_finish node mod (Z.of_nat m - 1) + 1)%Z) in *.
  assert (0 <= Z.of_nat i * skip < 2 ^ 62)%Z by (change (2 ^ 62)%Z with (2 ^ 31 * 2 ^ 31)%Z; nia).
  unfold permutation_at, umul, uadd, urem. rewrite (checked_ok 64 (Z.of_nat i * skip)) by (unfold in_width; lia).
  cbn [mbind outcome_bind]. rewrite checked_ok by (unfold in_width; lia). cbn [mbind outcome_bind].
  destruct (Z.eqb_spec (Z.of_nat m) 0); [lia|]. done.
Qed.

Lemma stride_row node : let row := stride node <$> seq 0 m in
  length row = m /\ Forall (fun c => c < m) row /\ forall c, c < m -> exists k, row !! k = Some c.
Proof using Hm.
  pose proof (Z.prime_ge_2 _ Hm) as H2. intros row. split_and!.
  - unfold row. by rewrite length_fmap, length_seq.
  - apply Forall_fmap, list.Forall_forall. intros i _. cbn. unfold stride.
    match goal with |- context [Z.modulo ?a (Z.of_nat m)] => pose proof (Z.mod_pos_bound a (Z.of_nat m) ltac:(lia)) end. lia.
  - intros c Hc. pose proof (Z.mod_pos_bound (fnv_finish node) (Z.of_nat m - 1) ltac:(lia)) as Hs.
    destruct (stride_surj (Z.of_nat m) (xx_finish node mod Z.of_nat m) (fnv_finish node mod (Z.of_nat m - 1) + 1) (Z.of_nat c))
      as (k & Hk & E); [done|lia|lia|].
    exists (Z.to_nat k). unfold row. rewrite list_lookup_fmap, lookup_seq_lt by lia. cbn. unfold stride.
    rewrite Z2Nat.id, E by lia. by rewrite Nat2Z.id.
Qed.

Lemma populate_balanced_at (nodes : list N) : 0 < length nodes <= 128 ->
  exists l, populate m nodes = Done l /\ balanced m (length nodes) l.
Proof using Hm Hw.
  intros Hn. unfold populate.
  rewrite (mapM_Done _ (fun node => stride node <$> seq 0 m)) by (apply list.Forall_forall; intros; apply permutation_row_Done).
  cbn [mbind outcome_bind]. set (perm := (fun node => stride node <$> seq 0 m) <$> nodes).
  assert (Hrow : forall i row, perm !! i = Some row ->
    length row = m /\ Forall (fun c => c < m) row /\ forall c, c < m -> exists k, row !! k = Some c).
  { intros i row Hi. unfold perm in Hi. apply list_lookup_fmap_Some in Hi as (node & -> & _). apply stride_row. }
  destruct (rounds_spec m (length nodes) perm Hn (length_fmap _ _) Hrow (S m) 0
    (mkFill (replicate m (-1)%Z) (replicate (length nodes) 0) 0)) as (s & -> & F).
  - apply filled_start; [done|apply length_fmap].
  - lia.
  - right. apply Nat.Div0.mod_0_l.
  - lia.
  - exists (entry s). split; [done|]. exact (filled_balanced m (length nodes) perm Hn (length_fmap _ _) s F).
Qed.
End Rows.

Lemma TABLE_SIZE_Z : Z.of_nat TABLE_SIZE = 65537%Z.
Proof. apply Z2Nat.id. lia. Qed.

(** ** The cache *)

Lemma CACHE_BITS_ok : CACHE_BITS < 64.
Proof. unfold CACHE_BITS. lia. Qed.

Lemma CACHE_BITS_ge : 2 <= CACHE_BITS.
Proof. unfold CACHE_BITS. lia. Qed.
Lemma CACHE_SIZE_Z : Z.of_nat CACHE_SIZE = 2097152%Z.
Proof. unfold CACHE_SIZE. by rewrite Nat2Z.inj_pow. Qed.
#[local] Opaque CACHE_BITS.

Section Cached.
Context `{Profile} {N : Type}.

#[local] Abbreviation usize_hash := (fun h : Z => fnv (usize_image h)).

(** The FNV hash of the key leaves room for the probe distance when additions are
    checked. *)
Definition query_ok (hash : Z) : Prop := in_width 64 hash /\ no_overflow (fnv (usize_image hash)) CACHE_SIZE.

Lemma usize_image_bytes x : Forall is_byte (usize_image x).
Proof.
  unfold usize_image. generalize 8. intros k. revert x. induction k as [|k IH]; intros x; [constructor|].
  cbn [to_le_bytes]. constructor; [|apply IH]. unfold is_byte, in_width. change (2 ^ 8)%Z with 256%Z. apply Z.mod_pos_bound. lia.
Qed.

Lemma query_hash_ok h : query_ok h -> hash_ok (fnv (usize_image h)) (2 ^ CACHE_BITS).
Proof. intros [_ Hn]. split; [apply fnv_width, usize_image_bytes|done]. Qed.

(** The cache holds [c], and what it holds is what the table says. *)
Record cached (s : Maglev N) (c : gmap Z Z) : Prop := {
  c_rep : irep usize_hash CACHE_BITS (cache s) c;
  c_size : base.size c <= CACHE_SIZE;
  c_agrees h v : c !! h = Some v -> lookup_at (lookup s) h = Done v }.

Lemma cached_hit s c h v : cached s c -> query_ok h -> c !! h = Some v ->
  (HIT_COUNT s + 1 < 2 ^ 64)%Z -> (HASHMAP_TOTAL s + 1 < 2 ^ 64)%Z -> (0 <= HIT_COUNT s)%Z -> (0 <= HASHMAP_TOTAL s)%Z ->
  get_index_from_hash h s = Done (v, mkMaglev (nodes s) (lookup s) (cache s) (HIT_COUNT s + 1) (HASHMAP_TOTAL s + 1)).
Proof.
  intros C Hq Hv ? ? ? ?. unfold get_index_from_hash, CIndex_get. cbn [key mem usize_key].
  pose proof (get_hashed_spec usize_hash CACHE_BITS CACHE_BITS_ok _ c h (c_rep _ _ C) (query_hash_ok _ Hq)) as Hg.
  cbn beta in Hg. rewrite Hg, Hv.
  cbn [mbind outcome_bind]. unfold uadd. rewrite (checked_ok 64 (HIT_COUNT s + 1)) by (unfold in_width; lia).
  cbn [mbind outcome_bind fst snd]. rewrite checked_ok by (unfold in_width; lia). done.
Qed.

Lemma cached_miss s c h v : cached s c -> query_ok h -> c !! h = None -> lookup_at (lookup s) h = Done v ->
  (HASHMAP_TOTAL s + 1 < 2 ^ 64)%Z -> (0 <= HASHMAP_TOTAL s)%Z ->
  if decide (CACHE_SIZE <= base.size c) then get_index_from_hash h s = Panic
  else exists x, get_index_from_hash h s = Done (v, mkMaglev (nodes s) (lookup s) x (HIT_COUNT s) (HASHMAP_TOTAL s + 1)) /\
    irep usize_hash CACHE_BITS x (<[h := v]> c).
Proof.
  intros C Hq Hv Hl ? ?. unfold get_index_from_hash, CIndex_get, CIndex_insert. cbn [key mem usize_key].
  pose proof (get_hashed_spec usize_hash CACHE_BITS CACHE_BITS_ok _ c h (c_rep _ _ C) (query_hash_ok _ Hq)) as Hg.
  cbn beta in Hg. rewrite Hg, Hv.
  cbn [mbind outcome_bind]. rewrite Hl. cbn [mbind outcome_bind fst snd]. unfold uadd.
  rewrite (checked_ok 64 (HASHMAP_TOTAL s + 1)) by (unfold in_width; lia). cbn [mbind outcome_bind fst snd].
  pose proof (insert_hashed_spec usize_hash CACHE_BITS CACHE_BITS_ok _ c h v (c_rep _ _ C) (query_hash_ok _ Hq)) as Hi.
  cbn beta in Hi. change (2 ^ CACHE_BITS) with CACHE_SIZE in Hi. destruct (decide (CACHE_SIZE <= base.size c)).
  - rewrite decide_True in Hi by done. by rewrite Hi.
  - rewrite decide_False in Hi by tauto. destruct Hi as (x & -> & R). by exists x.
Qed.

Lemma shows_runs_cons {O A S} (step : O -> S -> outcome (A * S)) o os s a s' :
  step o s = Done (a, s') -> shows (runs step (o :: os) s) = (l ← shows (runs step os s'); Done (a :: l)).
Proof. intros E. cbn [runs]. rewrite E. cbn [mbind outcome_bind snd]. by destruct (runs step os s') as [[? ?]| |]. Qed.

(** Queries answered from a cache that already holds [c]. *)
Lemma cached_runs (hs : list Z) (s : Maglev N) (c : gmap Z Z) (answers : list Z) :
  cached s c -> Forall query_ok hs -> mapM (lookup_at (lookup s)) hs = Done answers ->
  (0 <= HIT_COUNT s)%Z -> (0 <= HASHMAP_TOTAL s)%Z ->
  (HIT_COUNT s + Z.of_nat (length hs) < 2 ^ 64)%Z -> (HASHMAP_TOTAL s + Z.of_nat (length hs) < 2 ^ 64)%Z ->
  shows (runs get_index_from_hash hs s) =
    if decide (base.size (dom c ∪ list_to_set hs : gset Z) <= CACHE_SIZE) then Done answers else Panic.
Proof.
  intros C Hq. revert s c answers C. induction Hq as [|h hs Hh Hq IH]; intros s c answers C Ha ? ? Hb Hb'.
  - injection Ha as <-. cbn [runs shows list_to_set]. rewrite decide_True; [done|].
    rewrite (right_id_L ∅ (∪)), size_dom. apply C.
  - cbn [mapM length] in *. destruct (lookup_at (lookup s) h) as [v| |] eqn:Hl; [|done..]. cbn [mbind outcome_bind] in Ha.
    destruct (mapM (lookup_at (lookup s)) hs) as [vs| |] eqn:Hvs; [|done..]. injection Ha as <-.
    destruct (c !! h) as [v'|] eqn:Hc.
    + pose proof (c_agrees _ _ C h v' Hc) as Hv. rewrite Hl in Hv. injection Hv as <-.
      rewrite (shows_runs_cons _ _ _ _ _ _ (cached_hit s c h v C Hh Hc ltac:(lia) ltac:(lia) ltac:(lia) ltac:(lia))).
      rewrite (IH _ c vs) by (cbn [HIT_COUNT HASHMAP_TOTAL lookup]; first [done | lia | split; apply C]).
      replace (dom c ∪ list_to_set (h :: hs)) with (dom c ∪ list_to_set hs : gset Z)
        by (apply elem_of_dom_2 in Hc; cbn [list_to_set]; set_solver).
      by destruct (decide _).
    + pose proof (cached_miss s c h v C Hh Hc Hl ltac:(lia) ltac:(lia)) as Hm. destruct (decide (CACHE_SIZE <= base.size c)).
      * cbn [runs]. rewrite Hm, decide_False; [done|]. intros Hs. apply not_elem_of_dom in Hc.
        pose proof (subseteq_size ({[h]} ∪ dom c) (dom c ∪ list_to_set (h :: hs) : gset Z) ltac:(cbn [list_to_set]; set_solver)) as Hsub.
        rewrite size_union, size_singleton, size_dom in Hsub by set_solver. lia.
      * destruct Hm as (x & Hx & R). rewrite (shows_runs_cons _ _ _ _ _ _ Hx).
        rewrite (IH _ (<[h := v]> c) vs); cbn [HIT_COUNT HASHMAP_TOTAL lookup]; try done; try lia.
        -- replace (dom (<[h := v]> c) ∪ list_to_set hs : gset Z) with (dom c ∪ list_to_set (h :: hs) : gset Z)
             by (rewrite dom_insert_L; cbn [list_to_set]; set_solver). by destruct (decide _).
        -- split; cbn [cache lookup]; [done|rewrite map_size_insert_None by done; lia|].
           intros h' v' [[<- <-]|[? Hc']]%lookup_insert_Some; [done|by apply (c_agrees _ _ C)].
Qed.
End Cached.

(** ** Claims *)

(** A hasher that returns the node's number for both functions. *)
#[global] Instance plain_hashers : Hashers nat := {| fnv_finish n := wrap 64 (Z.of_nat n); xx_finish n := wrap 64 (Z.of_nat n) |}.
#[global] Instance plain_hashers_laws : HashersLaws nat.
Proof. split; intros n; apply Z.mod_pos_bound; lia. Qed.

Section Claims.
Context `{Profile}.

Lemma populate_table {N : Type} `{HashersLaws N} (nodes : list N) : 0 < length nodes <= 128 ->
  exists l, populate TABLE_SIZE nodes = Done l /\ balanced TABLE_SIZE (length nodes) l.
Proof. intros Hn. apply populate_balanced_at; [rewrite TABLE_SIZE_Z; apply prime_65537|rewrite TABLE_SIZE_Z; lia|done]. Qed.

Lemma lookup_at_balanced m n l h : 0 < n <= 128 -> 0 < m -> balanced m n l -> in_width 64 h ->
  exists i, lookup_at l h = Done i /\ (0 <= i < Z.of_nat n)%Z.
Proof.
  intros Hn Hm (Hl & Hf & _) Hh. unfold lookup_at, urem. rewrite Hl. destruct (Z.eqb_spec (Z.of_nat m) 0); [lia|].
  cbn [mbind outcome_bind]. pose proof (Z.mod_pos_bound h (Z.of_nat m) ltac:(lia)) as Hb.
  destruct (lookup_lt_is_Some_2 l (Z.to_nat (h mod Z.of_nat m))) as [e He]; [lia|].
  rewrite (index_Some _ _ _ He). cbn [mbind outcome_bind]. pose proof (Forall_lookup_1 _ _ _ _ Hf He) as He'. cbn in He'.
  exists e. unfold i8_as_usize, wrap. rewrite Z.mod_small by lia. done.
Qed.

Lemma lookups_balanced m n l hs : 0 < n <= 128 -> 0 < m -> balanced m n l -> Forall (in_width 64) hs ->
  exists answers, mapM (lookup_at l) hs = Done answers /\ Forall (fun i => 0 <= i < Z.of_nat n)%Z answers.
Proof.
  intros Hn Hm Hb. induction 1 as [|h hs Hh Hhs (answers & IH & Ha)]; [by exists []|].
  destruct (lookup_at_balanced m n l h Hn Hm Hb Hh) as (i & Hi & Hr). exists (i :: answers). cbn [mapM].
  rewrite Hi. cbn [mbind outcome_bind]. rewrite IH. split; [done|by constructor].
Qed.

Lemma new_answers {N : Type} `{HashersLaws N} (nodes : list N) (hs : list Z) :
  0 < length nodes <= 128 -> Forall query_ok hs -> (Z.of_nat (length hs) < 2 ^ 64)%Z ->
  exists s answers, Maglev_new nodes = Done s /\ mapM (lookup_at (lookup s)) hs = Done answers /\
    Forall (fun i => 0 <= i < Z.of_nat (length nodes))%Z answers /\
    shows (runs get_index_from_hash hs s) =
      if decide (base.size (list_to_set hs : gset Z) <= CACHE_SIZE) then Done answers else Panic.
Proof.
  intros Hn Hq Hl. destruct (populate_table nodes Hn) as (l & El & Hb). unfold Maglev_new. rewrite El. cbn [mbind outcome_bind].
  destruct (lookups_balanced TABLE_SIZE (length nodes) l hs) as (answers & Ha & Hr);
    [done|pose proof TABLE_SIZE_Z; lia|done|apply (list.Forall_impl _ _ _ Hq); by intros ? []|].
  eexists _, answers. split_and!; [done|done|done|].
  rewrite (cached_runs hs _ ∅ answers); cbn [HIT_COUNT HASHMAP_TOTAL lookup]; [|split|done|done|lia..].
  - by rewrite dom_empty_L, (left_id_L ∅ (∪)).
  - cbn [cache]. unfold CACHE_SIZE. apply (with_capacity_irep (fun h => fnv (usize_image h)) CACHE_BITS).
  - rewrite map_size_empty. lia.
  - intros h v. by rewrite lookup_empty.
Qed.

(** Without nodes the loop of [populate] never ends. *)
Lemma populate_no_nodes m fuel s : taken s < m -> rounds m fuel 0 [] s = Hang.
Proof. intros Hs. induction fuel as [|fuel IH]; [done|]. cbn [rounds]. destruct (Nat.ltb_spec (taken s) m); [done|lia]. Qed.

(** C31: for 1 to 128 nodes [populate] returns, whatever the hash functions: the table has
    65537 slots, each holds the number of a node, and every node holds the same number
    of slots up to one, the first [65537 mod n] nodes having the extra slot. *)
Theorem populate_balances {N : Type} `{HashersLaws N} (nodes : list N) : 0 < length nodes <= 128 ->
  exists l, populate TABLE_SIZE nodes = Done l /\ length l = TABLE_SIZE /\
    Forall (fun e => 0 <= e < Z.of_nat (length nodes))%Z l /\
    forall i, i < length nodes ->
      length (filter (fun e => e = Z.of_nat i) l) =
        TABLE_SIZE / length nodes + (if i <? TABLE_SIZE mod length nodes then 1 else 0).
Proof. intros Hn. destruct (populate_table nodes Hn) as (l & Hl & Hb). exists l. by split. Qed.

(** C30: the connection cache changes no answer: for every sequence of flow hashes a new
    balancer answers each as a lookup in its table would, the number of a node, as long
    as there are at most 2^21 different hashes; the next new hash panics. *)
Theorem cache_transparent {N : Type} `{HashersLaws N} (nodes : list N) (hs : list Z) :
  0 < length nodes <= 128 -> Forall query_ok hs -> (Z.of_nat (length hs) < 2 ^ 64)%Z ->
  exists s answers, Maglev_new nodes = Done s /\ mapM (lookup_at (lookup s)) hs = Done answers /\
    Forall (fun i => 0 <= i < Z.of_nat (length nodes))%Z answers /\
    shows (runs get_index_from_hash hs s) =
      if decide (base.size (list_to_set hs : gset Z) <= CACHE_SIZE) then Done answers else Panic.
Proof. apply new_answers. Qed.
End Claims.

Lemma populate_balances_witness : 0 < length [0; 1; 2] <= 128 /\
  exists l, populate (H := true) TABLE_SIZE [0; 1; 2] = Done l /\ length l = TABLE_SIZE.
Proof.
  split; [cbn; lia|]. destruct (populate_balances (H := true) [0; 1; 2]) as (l & Hl & Hs & _); [cbn; lia|].
  exists l. split; [exact Hl|exact Hs].
Defined.

Lemma cache_transparent_witness :
  exists (s : Maglev nat) answers, Maglev_new (H := true) [0; 1; 2] = Done s /\
    shows (runs (get_index_from_hash (H := true)) [7%Z; 9%Z; 7%Z] s) = Done answers.
Proof.
  destruct (cache_transparent (H := true) [0; 1; 2] [7%Z; 9%Z; 7%Z]) as (s & answers & Hs & _ & _ & Hr).
  - cbn. lia.
  - repeat constructor; unfold no_overflow; try (right; rewrite CACHE_SIZE_Z); vm_compute; discriminate || reflexivity.
  - cbn. lia.
  - exists s, answers. split; [exact Hs|]. rewrite Hr, decide_True; [reflexivity|].
    rewrite list_to_set_size. apply (Nat.lt_le_incl _ _), (Nat.lt_le_trans _ (2 ^ 2)); [cbn; lia|apply Nat.pow_le_mono_r; [lia|apply CACHE_BITS_ge]].
Defined.

(** The example of the Maglev paper: three back ends, seven slots. *)
Example populate_paper :
  entry <$> match rounds 7 8 3 [[3; 0; 4; 1; 5; 2; 6]; [0; 2; 4; 6; 1; 3; 5]; [3; 4; 5; 6; 0; 1; 2]]
      (mkFill (replicate 7 (-1)%Z) [0; 0; 0] 0) with Done s => Some s | _ => None end = Some [1; 0; 1; 0; 2; 2; 0]%Z.
Proof. vm_compute. reflexivity. Qed.

(** Node 128 is stored as -128, which reads as a free slot: another node takes it, and a
    slot stays free at the end. *)
Example populate_129_nodes :
  match populate (H := true) 131 (seq 0 129) with
  | Done l => bool_decide ((-1)%Z ∈ l) && bool_decide ((-128)%Z ∉ l)
  | _ => false
  end = true.
Proof. vm_compute. reflexivity. Qed.
