(* ===== verification/Packet.v ===== *)
(** * Packet headers and the load-balancing forwarder
    (domains/lib/libbenchnet/src/packettool.rs and the packet loop of
    [run_fwd_maglevtest] in lib.rs)

    A frame is the list of its bytes: Ethernet header, IPv4 header, then ports and
    payload.  Slicing and indexing out of range panic. *)

From Stdlib Require Import ZArith Lia.
From stdpp Require Import base gmap list.
From stdpp Require Import options.
From S2P Require Import Prelude IndexMap Maglev.

Set Default Proof Using "Type".

Definition ETH_HEADER_LEN : nat := 14.
Definition UDP_HEADER_LEN : nat := 8.
Definition IPV4_PROTO_OFFSET : nat := 9.
Definition IPV4_LENGTH_OFFSET : nat := 2.
Definition IPV4_CHECKSUM_OFFSET : nat := 10.
Definition UDP_LENGTH_OFFSET : nat := 4.
Definition UDP_CHECKSUM_OFFSET : nat := 6.

(** ** Slices *)

(** [frame[a..b]] *)
Definition range (frame : list Z) (a b : nat) : outcome (list Z) :=
  if (a <=? b) && (b <=? length frame) then Done (take (b - a) (drop a frame)) else Panic.

(** [frame[i] = x] *)
Definition store (i : nat) (x : Z) (frame : list Z) : outcome (list Z) :=
  if i <? length frame then Done (<[i := x]> frame) else Panic.

(** [frame.swap(i, j)] *)
Definition swap (i j : nat) (frame : list Z) : outcome (list Z) :=
  a ← index frame i; b ← index frame j; Done (<[j := a]> (<[i := b]> frame)).

(** [for i in l { frame.swap(..) }] *)
Fixpoint swaps (f : nat -> nat * nat) (l : list nat) (frame : list Z) : outcome (list Z) :=
  match l with [] => Done frame | i :: l => frame ← swap (f i).1 (f i).2 frame; swaps f l frame end.

(** ** The operations *)

Section Ops.
Context `{Profile}.

Definition swap_mac (frame : list Z) : outcome (list Z) := swaps (fun i => (i, 6 + i)) (seq 0 6) frame.

Definition fix_ip_length (frame : list Z) : outcome (list Z) :=
  len ← usub 64 (Z.of_nat (length frame)) (Z.of_nat ETH_HEADER_LEN);
  frame ← store (ETH_HEADER_LEN + IPV4_LENGTH_OFFSET) (wrap 8 (Z.shiftr len 8)) frame;
  store (ETH_HEADER_LEN + IPV4_LENGTH_OFFSET + 1) (wrap 8 len) frame.

(** [(frame[ETH_HEADER_LEN] & 0b1111) as usize * 4] *)
Definition v4len (frame : list Z) : outcome nat :=
  b ← index frame ETH_HEADER_LEN; n ← umul 64 (Z.land b 15) 4; Done (Z.to_nat n).

(** One round of the loop of [calc_ipv4_checksum]. *)
Definition checksum_round (header : list Z) (i : nat) (checksum : Z) : outcome Z :=
  if i =? 5 then Done checksum
  else
    hi ← index header (i * 2);
    lo ← index header (i * 2 + 1);
    w ← uadd 32 (wrap 32 (Z.shiftl hi 8)) lo;
    c ← uadd 32 checksum w;
    if (0xffff <? c)%Z then uadd 32 (Z.land c 0xffff) 1 else Done c.

Fixpoint checksum_loop (header : list Z) (l : list nat) (checksum : Z) : outcome Z :=
  match l with [] => Done checksum | i :: l => c ← checksum_round header i checksum; checksum_loop header l c end.

Definition calc_ipv4_checksum (header : list Z) : outcome Z :=
  if length header mod 2 =? 0 then
    c ← checksum_loop header (seq 0 (length header / 2)) 0%Z; Done (wrap 16 (Z.lnot (wrap 16 c)))
  else Panic.

Definition fix_ip_checksum (frame : list Z) : outcome (list Z) :=
  n ← v4len frame;
  header ← range frame ETH_HEADER_LEN (ETH_HEADER_LEN + n);
  checksum ← calc_ipv4_checksum header;
  frame ← store (ETH_HEADER_LEN + IPV4_CHECKSUM_OFFSET) (wrap 8 (Z.shiftr checksum 8)) frame;
  store (ETH_HEADER_LEN + IPV4_CHECKSUM_OFFSET + 1) (wrap 8 (Z.land checksum 0xff)) frame.

Definition fix_udp_length (frame : list Z) : outcome (list Z) :=
  n ← v4len frame;
  len ← usub 64 (Z.of_nat (length frame)) (Z.of_nat ETH_HEADER_LEN);
  len ← usub 64 len (Z.of_nat n);
  frame ← store (ETH_HEADER_LEN + n + UDP_LENGTH_OFFSET) (wrap 8 (Z.shiftr len 8)) frame;
  store (ETH_HEADER_LEN + n + UDP_LENGTH_OFFSET + 1) (wrap 8 len) frame.

Definition fix_udp_checksum (frame : list Z) : outcome (list Z) :=
  n ← v4len frame;
  frame ← store (ETH_HEADER_LEN + n + UDP_CHECKSUM_OFFSET) 0%Z frame;
  store (ETH_HEADER_LEN + n + UDP_CHECKSUM_OFFSET + 1) 0%Z frame.



(** The offset and the bytes of the payload. *)
Definition get_mut_udp_payload (frame : list Z) : outcome (option (nat * list Z)) :=
  b ← index frame ETH_HEADER_LEN;
  if (Z.shiftr b 4 =? 4)%Z then
    n ← v4len frame;
    proto ← index frame (ETH_HEADER_LEN + IPV4_PROTO_OFFSET);
    if (proto =? 17)%Z then
      payload ← range frame (ETH_HEADER_LEN + n + UDP_HEADER_LEN) (length frame);
      Done (Some (ETH_HEADER_LEN + n + UDP_HEADER_LEN, payload))
    else Done None
  else Done None.

Definition swap_udp_ips (frame : list Z) : outcome (list Z) :=
  n ← v4len frame;
  frame ← swaps (fun i => (ETH_HEADER_LEN + n + i, ETH_HEADER_LEN + n + 2 + i)) (seq 0 2) frame;
  swaps (fun i => (ETH_HEADER_LEN + 12 + i, ETH_HEADER_LEN + 12 + 4 + i)) (seq 0 4) frame.

(** ** Forwarding (lib.rs, [run_fwd_maglevtest]) *)



End Ops.

(** ** The layout of a frame *)

Record packet := mkPacket {
  eth_dst : list Z; eth_src : list Z; eth_type : list Z;
  ip_head : list Z;  (** the first nine bytes of the IPv4 header *)
  ip_proto : Z; ip_sum : list Z; ip_src : list Z; ip_dst : list Z; ip_opts : list Z;
  sport : list Z; dport : list Z; body : list Z }.

Definition header_of (p : packet) : list Z := ip_head p ++ [ip_proto p] ++ ip_sum p ++ ip_src p ++ ip_dst p ++ ip_opts p.
Definition bytes_of (p : packet) : list Z :=
  eth_dst p ++ eth_src p ++ eth_type p ++ header_of p ++ sport p ++ dport p ++ body p.

(** The parts have their sizes, the length field of the header is right, bytes are bytes. *)
Record packet_ok (p : packet) : Prop := {
  k_eth_dst : length (eth_dst p) = 6; k_eth_src : length (eth_src p) = 6; k_eth_type : length (eth_type p) = 2;
  k_head : length (ip_head p) = 9; k_sum : length (ip_sum p) = 2; k_src : length (ip_src p) = 4; k_dst : length (ip_dst p) = 4;
  k_sport : length (sport p) = 2; k_dport : length (dport p) = 2;
  k_ihl : exists b, ip_head p !! 0 = Some b /\ (Z.land b 15 * 4 = 20 + Z.of_nat (length (ip_opts p)))%Z;
  k_bytes : Forall is_byte (bytes_of p) }.

(** ** One's complement sums (RFC 1071) *)

Fixpoint words (l : list Z) : list Z :=
  match l with a :: b :: l => (256 * a + b)%Z :: words l | _ => [] end.
Definition ones_add (a b : Z) : Z := if (0xffff <? a + b)%Z then (a + b - 0xffff)%Z else (a + b)%Z.
Definition ones_sum (ws : list Z) : Z := foldl ones_add 0%Z ws.

(** A receiver accepts a header whose words, the checksum included, add up to 0xffff. *)
Definition verifies (header : list Z) : Prop := ones_sum (words header) = 0xffff%Z.

Fixpoint zsum (ws : list Z) : Z := match ws with [] => 0%Z | w :: ws => (w + zsum ws)%Z end.
Definition norm (s : Z) : Z := if (s =? 0)%Z then 0%Z else ((s - 1) mod 0xffff + 1)%Z.
Definition is_word (w : Z) : Prop := in_width 16 w.

Lemma norm_bound s : (0 <= s)%Z -> (0 <= norm s <= 0xffff)%Z.
Proof.
  intros Hs. unfold norm. destruct (Z.eqb_spec s 0); [lia|]. pose proof (Z.mod_pos_bound (s - 1) 0xffff ltac:(lia)). lia.
Qed.

Lemma norm_add s w : (0 <= s)%Z -> is_word w -> ones_add (norm s) w = norm (s + w).
Proof.
  intros Hs [Hw Hw']. change (2 ^ 16)%Z with 65536%Z in Hw'. unfold ones_add, norm.
  destruct (Z.eqb_spec s 0) as [->|Hn].
  - rewrite Z.add_0_l. destruct (Z.ltb_spec 65535 w), (Z.eqb_spec w 0); try lia. rewrite Z.mod_small by lia. lia.
  - pose proof (Z.mod_pos_bound (s - 1) 0xffff ltac:(lia)) as Hr. destruct (Z.eqb_spec (s + w) 0); [lia|].
    replace (s + w - 1)%Z with (s - 1 + w)%Z by lia. rewrite <- (Z.add_mod_idemp_l (s - 1)) by lia.
    set (r := ((s - 1) mod 65535)%Z) in *. destruct (Z.ltb_spec 65535 (r + 1 + w)).
    + replace (r + w)%Z with (r + w - 65535 + 1 * 65535)%Z by lia. rewrite Z.mod_add, Z.mod_small by lia. lia.
    + rewrite Z.mod_small by lia. lia.
Qed.

Lemma zsum_nonneg ws : Forall is_word ws -> (0 <= zsum ws)%Z.
Proof. induction 1 as [|w ws [Hw _] Hws IH]; cbn [zsum]; lia. Qed.

Lemma ones_sum_from s ws : (0 <= s)%Z -> Forall is_word ws -> foldl ones_add (norm s) ws = norm (s + zsum ws).
Proof.
  intros Hs Hws. revert s Hs. induction Hws as [|w ws Hw Hws IH]; intros s Hs; cbn [foldl zsum]; [by rewrite Z.add_0_r|].
  rewrite norm_add, IH by (done || destruct Hw; lia). f_equal. lia.
Qed.

Lemma ones_sum_norm ws : Forall is_word ws -> ones_sum ws = norm (zsum ws).
Proof. intros Hws. unfold ones_sum. rewrite <- (Z.add_0_l (zsum ws)). by apply (ones_sum_from 0). Qed.

Lemma zsum_insert ws i x y : ws !! i = Some y -> zsum (<[i := x]> ws) = (zsum ws - y + x)%Z.
Proof.
  revert i. induction ws as [|w ws IH]; intros [|i] Hi; [done..|injection Hi as ->|].
  - change (<[0 := x]> (y :: ws)) with (x :: ws). cbn [zsum]. lia.
  - change (<[S i := x]> (w :: ws)) with (w :: <[i := x]> ws). cbn [zsum]. rewrite (IH i Hi). lia.
Qed.

Lemma zsum_perm ws ws' : ws ≡ₚ ws' -> zsum ws = zsum ws'.
Proof. induction 1; cbn [zsum]; lia. Qed.

Lemma words_lookup h i w : words h !! i = Some w ->
  exists a b, h !! (i * 2) = Some a /\ h !! (i * 2 + 1) = Some b /\ w = (256 * a + b)%Z.
Proof.
  revert i. assert (forall n h i, length h <= n -> words h !! i = Some w ->
    exists a b, h !! (i * 2) = Some a /\ h !! (i * 2 + 1) = Some b /\ w = (256 * a + b)%Z) as Hn; [|by intros; eapply Hn].
  clear. intros n. induction n as [|n IH]; intros [|a [|b h]] i Hl Hi; cbn [length words] in *; try done; try lia.
  destruct i as [|i]; [injection Hi as <-; by exists a, b|]. cbn in Hi. by apply (IH h i ltac:(lia)).
Qed.

Lemma words_ok h : Forall is_byte h -> Forall is_word (words h).
Proof.
  intros Hh. apply Forall_lookup. intros i w (a & b & Ha & Hb & ->)%words_lookup.
  pose proof (Forall_lookup_1 _ _ _ _ Hh Ha) as [? ?]. pose proof (Forall_lookup_1 _ _ _ _ Hh Hb) as [? ?].
  unfold is_word, in_width. change (2 ^ 8)%Z with 256%Z in *. change (2 ^ 16)%Z with 65536%Z. lia.
Qed.

Lemma words_length h : length (words h) = length h / 2.
Proof.
  assert (forall n h, length h <= n -> length (words h) = length h / 2) as Hn; [|by apply (Hn (length h))].
  clear. intros n. induction n as [|n IH]; intros [|a [|b h]] Hl; cbn [length words] in *; try done; try lia.
  rewrite (IH h ltac:(lia)). symmetry. apply (Nat.div_add_l 1 2 (length h)). done.
Qed.

Section Checksum.
Context `{Profile}.

Lemma checksum_round_spec h i s w : Forall is_byte h -> (0 <= s)%Z -> words h !! i = Some w ->
  checksum_round h i (norm s) = Done (norm (s + if i =? 5 then 0 else w)).
Proof.
  intros Hh Hs Hw. unfold checksum_round. destruct (Nat.eqb_spec i 5); [by rewrite Z.add_0_r|].
  pose proof (Forall_lookup_1 _ _ _ _ (words_ok h Hh) Hw) as Hww.
  pose proof Hw as (a & b & Ha & Hb & ->)%words_lookup. rewrite (index_Some _ _ _ Ha), (index_Some _ _ _ Hb).
  cbn [mbind outcome_bind]. pose proof (Forall_lookup_1 _ _ _ _ Hh Ha) as [? ?]. pose proof (Forall_lookup_1 _ _ _ _ Hh Hb) as [? ?].
  change (2 ^ 8)%Z with 256%Z in *. pose proof (norm_bound s Hs).
  rewrite Z.shiftl_mul_pow2 by lia. unfold wrap. rewrite Z.mod_small by lia. unfold uadd.
  replace (a * 2 ^ 8 + b)%Z with (256 * a + b)%Z by lia. rewrite (checked_ok 32 (256 * a + b)) by (unfold in_width; lia).
  cbn [mbind outcome_bind]. rewrite (checked_ok 32 (norm s + (256 * a + b))) by (unfold in_width; lia). cbn [mbind outcome_bind].
  rewrite <- norm_add by done. unfold ones_add. destruct (Z.ltb_spec 65535 (norm s + (256 * a + b))); [|done].
  change 65535%Z with (Z.ones 16) at 1. rewrite Z.land_ones by lia. set (t := (norm s + (256 * a + b))%Z) in *.
  assert (E : (t mod 2 ^ 16 = t - 65536)%Z) by (symmetry; apply (Z.mod_unique _ _ 1); lia).
  rewrite E, checked_ok by (unfold in_width; lia). f_equal. lia.
Qed.

Lemma checksum_loop_spec h k i s : Forall is_byte h -> (0 <= s)%Z -> i + k = length (words h) ->
  checksum_loop h (seq i k) (norm s) = Done (norm (s + zsum (drop i (<[5 := 0%Z]> (words h))))).
Proof.
  intros Hh. revert i s. induction k as [|k IH]; intros i s Hs Hi; cbn [seq checksum_loop].
  - rewrite drop_ge by (rewrite length_insert; lia). cbn [zsum]. by rewrite Z.add_0_r.
  - destruct (lookup_lt_is_Some_2 (words h) i) as [w Hw]; [lia|]. rewrite (checksum_round_spec h i s w Hh Hs Hw).
    cbn [mbind outcome_bind]. pose proof (Forall_lookup_1 _ _ _ _ (words_ok h Hh) Hw) as [Hw0 _].
    rewrite IH by (destruct (Nat.eqb_spec i 5); lia).
    rewrite (drop_S (<[5 := 0%Z]> (words h)) (if i =? 5 then 0%Z else w) i).
    + cbn [zsum]. do 2 f_equal. lia.
    + destruct (Nat.eqb_spec i 5) as [->|]; [apply list_lookup_insert_eq; lia|by rewrite list_lookup_insert_ne].
Qed.

(** The checksum makes up for what the other words lack. *)
Lemma calc_ipv4_checksum_spec h y : Forall is_byte h -> Nat.Even (length h) -> words h !! 5 = Some y ->
  exists c, calc_ipv4_checksum h = Done c /\ is_word c /\ ones_sum (<[5 := c]> (words h)) = 0xffff%Z.
Proof.
  intros Hh [q Hq] Hy. unfold calc_ipv4_checksum.
  assert (Hmod : length h mod 2 = 0) by (rewrite Hq, Nat.mul_comm; apply Nat.Div0.mod_mul).
  rewrite Hmod. cbn [Nat.eqb]. rewrite (checksum_loop_spec h _ 0 0 Hh) by (rewrite ?words_length; lia).
  cbn [mbind outcome_bind]. rewrite drop_0, Z.add_0_l. pose proof (words_ok h Hh) as Hws.
  set (s := zsum (<[5 := 0%Z]> (words h))). assert (Hs : (0 <= s)%Z).
  { apply zsum_nonneg, Forall_insert; [done|unfold is_word, in_width; lia]. }
  pose proof (norm_bound s Hs) as Hb. assert (E : (wrap 16 (Z.lnot (wrap 16 (norm s))) = 65535 - norm s)%Z).
  { unfold wrap. rewrite (Z.mod_small (norm s)) by lia. unfold Z.lnot. symmetry. apply (Z.mod_unique _ _ (-1)); lia. }
  rewrite E. eexists. split; [done|]. assert (Hw : is_word (65535 - norm s)) by (unfold is_word, in_width; lia).
  split; [done|]. rewrite ones_sum_norm by (by apply Forall_insert). rewrite (zsum_insert _ _ _ _ Hy).
  assert (Es : (zsum (words h) - y = s)%Z) by (unfold s; rewrite (zsum_insert _ _ _ _ Hy); lia). rewrite Es.
  unfold norm in *. destruct (Z.eqb_spec s 0) as [->|]; [done|].
  pose proof (Z.mod_pos_bound (s - 1) 65535 ltac:(lia)). destruct (Z.eqb_spec (s + (65535 - ((s - 1) mod 65535 + 1))) 0); [lia|].
  pose proof (Z.div_mod (s - 1) 65535 ltac:(lia)) as Hdm. set (r := ((s - 1) mod 65535)%Z) in *. set (d := ((s - 1) / 65535)%Z) in *.
  replace (s + (65535 - (r + 1)) - 1)%Z with (65534 + d * 65535)%Z by lia. by rewrite Z.mod_add by lia.
Qed.

End Checksum.

(** ** The operations on a well-formed packet *)

(** Replace a list of known length by its elements. *)
Ltac explode l :=
  match goal with
  | H : length l = S _ |- _ => destruct l as [|? l]; [discriminate H|cbn [length] in H; injection H as H; explode l]
  | H : length l = 0 |- _ => apply nil_length_inv in H; subst l
  end.

Ltac explode_packet p Hk :=
  let Hb := fresh "Hb" in let Hi := fresh "Hi" in let Hn := fresh "Hn" in
  destruct p as [d s t hd pr cs sr ds op sp dp bd]; destruct Hk as [? ? ? ? ? ? ? ? ? (ihl & Hi & Hn) Hb];
  cbn [eth_dst eth_src eth_type ip_head ip_proto ip_sum ip_src ip_dst ip_opts sport dport body] in *;
  explode d; explode s; explode t; explode hd; explode cs; explode sr; explode ds; explode sp; explode dp;
  injection Hi as ->.

Definition with_macs (dst src : list Z) (p : packet) : packet :=
  mkPacket dst src (eth_type p) (ip_head p) (ip_proto p) (ip_sum p) (ip_src p) (ip_dst p) (ip_opts p) (sport p) (dport p) (body p).
Definition with_sum (c : list Z) (p : packet) : packet :=
  mkPacket (eth_dst p) (eth_src p) (eth_type p) (ip_head p) (ip_proto p) c (ip_src p) (ip_dst p) (ip_opts p) (sport p) (dport p) (body p).
Definition reversed (p : packet) : packet :=
  mkPacket (eth_dst p) (eth_src p) (eth_type p) (ip_head p) (ip_proto p) (ip_sum p) (ip_dst p) (ip_src p) (ip_opts p) (dport p) (sport p) (body p).

Section Packets.
Context `{Profile}.

Lemma header_of_length p : packet_ok p -> length (header_of p) = 20 + length (ip_opts p).
Proof. intros Hk. explode_packet p Hk. reflexivity. Qed.

Lemma v4len_spec p : packet_ok p -> v4len (bytes_of p) = Done (20 + length (ip_opts p)).
Proof.
  intros Hk. explode_packet p Hk. unfold v4len, umul. cbn [bytes_of header_of]. 
  change (index _ ETH_HEADER_LEN) with (Done ihl). cbn [mbind outcome_bind]. rewrite Hn.
  assert (Z.land ihl 15 < 16)%Z.
  { change 15%Z with (Z.ones 4). rewrite Z.land_ones by lia. apply Z.mod_pos_bound. lia. }
  rewrite checked_ok by (unfold in_width; lia). cbn [mbind outcome_bind ip_opts]. f_equal. lia.
Qed.

Lemma swap_mac_spec p : packet_ok p -> swap_mac (bytes_of p) = Done (bytes_of (with_macs (eth_src p) (eth_dst p) p)).
Proof. intros Hk. explode_packet p Hk. reflexivity. Qed.

Lemma swap_app pre i j l :
  swap (length pre + i) (length pre + j) (pre ++ l) = (l ← swap i j l; Done (pre ++ l)).
Proof.
  unfold swap, index. rewrite !lookup_app_r by lia.
  replace (length pre + i - length pre) with i by lia. replace (length pre + j - length pre) with j by lia.
  destruct (l !! i), (l !! j); try done. cbn [expect mbind outcome_bind]. by rewrite !insert_app_r.
Qed.

(** The bytes before the ports. *)
Definition front (p : packet) : list Z := eth_dst p ++ eth_src p ++ eth_type p ++ header_of p.
Lemma bytes_front p : bytes_of p = front p ++ sport p ++ dport p ++ body p.
Proof. unfold bytes_of, front. by rewrite <- !app_assoc. Qed.
Lemma front_length p : packet_ok p -> length (front p) = ETH_HEADER_LEN + (20 + length (ip_opts p)).
Proof. intros Hk. explode_packet p Hk. reflexivity. Qed.

Lemma swap_ports p n : packet_ok p -> n = 20 + length (ip_opts p) ->
  swaps (fun i => (ETH_HEADER_LEN + n + i, ETH_HEADER_LEN + n + 2 + i)) (seq 0 2) (bytes_of p) =
    Done (front p ++ dport p ++ sport p ++ body p).
Proof.
  intros Hk ->. cbn [swaps seq fst snd]. rewrite bytes_front, <- (front_length p Hk), <- !Nat.add_assoc.
  rewrite swap_app. destruct Hk. destruct p as [d s t hd pr cs sr ds op sp dp bd]. cbn [sport dport body] in *. explode sp; explode dp.
  match goal with |- context [swap 0 (2 + 0) ([?a; ?b] ++ [?c; ?d] ++ bd)] =>
    change (swap 0 (2 + 0) ([a; b] ++ [c; d] ++ bd)) with (Done (c :: b :: a :: d :: bd)) end.
  cbn [mbind outcome_bind]. rewrite swap_app. reflexivity.
Qed.

Lemma swap_udp_ips_spec p : packet_ok p -> swap_udp_ips (bytes_of p) = Done (bytes_of (reversed p)).
Proof.
  intros Hk. unfold swap_udp_ips. rewrite (v4len_spec p Hk). cbn [mbind outcome_bind]. rewrite (swap_ports p _ Hk eq_refl).
  cbn [mbind outcome_bind]. explode_packet p Hk. reflexivity.
Qed.

Lemma reversed_ok p : packet_ok p -> packet_ok (reversed p).
Proof.
  intros Hk. pose proof (k_bytes p Hk) as Hb. destruct Hk. split; cbn [reversed eth_dst eth_src eth_type ip_head ip_proto ip_sum ip_src ip_dst ip_opts sport dport]; try done.
  unfold bytes_of, header_of in *. cbn [reversed eth_dst eth_src eth_type ip_head ip_proto ip_sum ip_src ip_dst ip_opts sport dport body].
  rewrite !Forall_app in *. tauto.
Qed.
Lemma range_app a b c : range (a ++ b ++ c) (length a) (length a + length b) = Done b.
Proof.
  unfold range. rewrite !length_app. destruct (Nat.leb_spec (length a) (length a + length b)); [|lia].
  destruct (Nat.leb_spec (length a + length b) (length a + (length b + length c))); [|lia]. cbn [andb].
  rewrite drop_app_length. replace (length a + length b - length a) with (length b) by lia. by rewrite take_app_length.
Qed.

(** A word as the two bytes that are stored. *)
Definition high (c : Z) : Z := wrap 8 (Z.shiftr c 8).
Definition low (c : Z) : Z := wrap 8 c.

Lemma high_low c : (256 * high c + low c = wrap 16 c)%Z.
Proof.
  unfold high, low, wrap. rewrite Z.shiftr_div_pow2 by lia. change (2 ^ 8)%Z with 256%Z. change (2 ^ 16)%Z with (256 * 256)%Z.
  rewrite Z.rem_mul_r by lia. lia.
Qed.
Lemma low_land c : wrap 8 (Z.land c 0xff) = low c.
Proof. unfold low, wrap. change 0xff%Z with (Z.ones 8). rewrite Z.land_ones by lia. by rewrite Z.mod_mod by lia. Qed.
Lemma wrap_byte x : is_byte (wrap 8 x).
Proof. apply Z.mod_pos_bound. lia. Qed.

Lemma with_sum_ok p a b : packet_ok p -> is_byte a -> is_byte b -> packet_ok (with_sum [a; b] p).
Proof.
  intros Hk Ha Hb'. pose proof (k_bytes p Hk) as Hb. destruct Hk. split; cbn [with_sum eth_dst eth_src eth_type ip_head ip_proto ip_sum ip_src ip_dst ip_opts sport dport]; try done.
  unfold bytes_of, header_of in *. cbn [with_sum eth_dst eth_src eth_type ip_head ip_proto ip_sum ip_src ip_dst ip_opts sport dport body].
  rewrite !Forall_app in *. assert (Forall is_byte [a; b]) by (constructor; [done|constructor; [done|constructor]]). tauto.
Qed.

Lemma header_bytes p : packet_ok p -> Forall is_byte (header_of p).
Proof. intros Hk. pose proof (k_bytes p Hk) as Hb. unfold bytes_of in Hb. rewrite !Forall_app in Hb. tauto. Qed.

Lemma header_even p : packet_ok p -> Nat.Even (length (header_of p)).
Proof.
  intros Hk. rewrite header_of_length by done. destruct (k_ihl p Hk) as (b & _ & Hb).
  exists (2 * Z.to_nat (Z.land b 15)). assert (0 <= Z.land b 15)%Z by (apply Z.land_nonneg; lia). lia.
Qed.

Lemma fix_ip_checksum_spec p : packet_ok p ->
  exists a b, fix_ip_checksum (bytes_of p) = Done (bytes_of (with_sum [a; b] p)) /\ is_byte a /\ is_byte b /\
    verifies (header_of (with_sum [a; b] p)).
Proof.
  intros Hk. unfold fix_ip_checksum. rewrite (v4len_spec p Hk). cbn [mbind outcome_bind].
  assert (Hr : range (bytes_of p) ETH_HEADER_LEN (ETH_HEADER_LEN + (20 + length (ip_opts p))) = Done (header_of p)).
  { pose proof (range_app (eth_dst p ++ eth_src p ++ eth_type p) (header_of p) (sport p ++ dport p ++ body p)) as Hr.
    rewrite <- !app_assoc, !length_app, header_of_length in Hr by done. destruct Hk as [E1 E2 E3 _ _ _ _ _ _ _ _].
    rewrite E1, E2, E3 in Hr. exact Hr. }
  rewrite Hr. cbn [mbind outcome_bind].
  destruct (lookup_lt_is_Some_2 (words (header_of p)) 5) as [y Hy].
  { rewrite words_length, header_of_length by done. apply (Nat.lt_le_trans _ (20 / 2)); [cbn; lia|apply Nat.Div0.div_le_mono; lia]. }
  destruct (calc_ipv4_checksum_spec _ y (header_bytes p Hk) (header_even p Hk) Hy) as (c & -> & Hc & Hsum).
  cbn [mbind outcome_bind]. rewrite low_land. fold (high c). exists (high c), (low c).
  assert (Hhl : (256 * high c + low c = c)%Z) by (rewrite high_low; apply Z.mod_small, Hc).
  split_and!; [|apply wrap_byte..|].
  - explode_packet p Hk. reflexivity.
  - unfold verifies. rewrite <- Hsum. f_equal. clear Hsum Hy Hr. generalize dependent c. intros c _. generalize (high c), (low c).
    intros a b <-. explode_packet p Hk. reflexivity.
Qed.

Lemma verifies_perm h h' : Forall is_byte h -> Forall is_byte h' -> words h ≡ₚ words h' -> verifies h <-> verifies h'.
Proof. intros Hh Hh' Hp. unfold verifies. rewrite !ones_sum_norm by (by apply words_ok). by rewrite (zsum_perm _ _ Hp). Qed.

Lemma reversed_verifies p : packet_ok p -> verifies (header_of p) <-> verifies (header_of (reversed p)).
Proof.
  intros Hk. apply verifies_perm; [by apply header_bytes|by apply header_bytes, reversed_ok|].
  explode_packet p Hk. cbn [header_of reversed ip_head ip_proto ip_sum ip_src ip_dst ip_opts app words]. solve_Permutation.
Qed.

Lemma get_mut_udp_payload_spec p b : packet_ok p -> ip_head p !! 0 = Some b ->
  get_mut_udp_payload (bytes_of p) =
    if (Z.shiftr b 4 =? 4)%Z && (ip_proto p =? 17)%Z then
      if 4 <=? length (body p) then Done (Some (length (front p) + UDP_HEADER_LEN, drop 4 (body p))) else Panic
    else Done None.
Proof.
  intros Hk Hv. unfold get_mut_udp_payload.
  assert (Hb : index (bytes_of p) ETH_HEADER_LEN = Done b) by (explode_packet p Hk; injection Hv as ->; reflexivity).
  assert (Hp : index (bytes_of p) (ETH_HEADER_LEN + IPV4_PROTO_OFFSET) = Done (ip_proto p)) by (explode_packet p Hk; reflexivity).
  rewrite Hb. cbn [mbind outcome_bind]. destruct (Z.shiftr b 4 =? 4)%Z; [|done]. rewrite (v4len_spec p Hk). cbn [mbind outcome_bind andb].
  rewrite Hp. cbn [mbind outcome_bind]. destruct (ip_proto p =? 17)%Z; [|done]. rewrite <- (front_length p Hk), bytes_front.
  destruct Hk as [_ _ _ _ _ _ _ E1 E2 _ _]. destruct (sport p) as [|? [|? [|? ?]]]; try discriminate. destruct (dport p) as [|? [|? [|? ?]]]; try discriminate.
  unfold range, UDP_HEADER_LEN. rewrite length_app. cbn [length app]. destruct (Nat.leb_spec 4 (length (body p))) as [Hl|Hl].
  - destruct (Nat.leb_spec (length (front p) + 8) (length (front p) + S (S (S (S (length (body p))))))); [|lia].
    rewrite Nat.leb_refl. cbn [andb mbind outcome_bind]. rewrite drop_app_add. cbn [drop].
    rewrite take_ge by (rewrite length_drop; lia). done.
  - destruct (Nat.leb_spec (length (front p) + 8) (length (front p) + S (S (S (S (length (body p))))))); [lia|]. done.
Qed.

(** [fix_ip_length] makes the second word of the header the length after the Ethernet
    header, modulo 2^16, and changes nothing else. *)
Lemma fix_ip_length_spec p : packet_ok p -> (Z.of_nat (length (bytes_of p)) < 2 ^ 64)%Z ->
  exists f, fix_ip_length (bytes_of p) = Done f /\ length f = length (bytes_of p) /\
    words (drop ETH_HEADER_LEN f) !! 1 = Some (wrap 16 (Z.of_nat (length (bytes_of p)) - 14)) /\
    forall k, k <> 16 -> k <> 17 -> f !! k = bytes_of p !! k.
Proof.
  intros Hk Hl. unfold fix_ip_length, usub. assert (Hlen : 18 <= length (bytes_of p)) by (explode_packet p Hk; cbn; lia).
  rewrite checked_ok by (unfold in_width, ETH_HEADER_LEN; lia). cbn [mbind outcome_bind]. change (Z.of_nat ETH_HEADER_LEN) with 14%Z.
  unfold store, ETH_HEADER_LEN, IPV4_LENGTH_OFFSET. cbn [Nat.add]. destruct (Nat.ltb_spec 16 (length (bytes_of p))); [|lia].
  cbn [mbind outcome_bind]. rewrite length_insert. destruct (Nat.ltb_spec 17 (length (bytes_of p))); [|lia].
  eexists. split; [done|]. split; [by rewrite !length_insert|]. split.
  - rewrite <- high_low. unfold high, low. generalize (wrap 8 (Z.shiftr (Z.of_nat (length (bytes_of p)) - 14) 8)).
    generalize (wrap 8 (Z.of_nat (length (bytes_of p)) - 14)). intros x y. explode_packet p Hk. reflexivity.
  - intros k H16 H17. by rewrite !list_lookup_insert_ne by done.
Qed.

Lemma store_app i x a l : store (length a + i) x (a ++ l) = (l ← store i x l; Done (a ++ l)).
Proof.
  unfold store. rewrite length_app. destruct (Nat.ltb_spec i (length l)), (Nat.ltb_spec (length a + i) (length a + length l)); try lia; [|done].
  cbn [mbind outcome_bind]. by rewrite insert_app_r.
Qed.

Lemma store_twice i j x y a l :
  (f ← store (length a + i) x (a ++ l); store (length a + j) y f) = (l ← store i x l; l ← store j y l; Done (a ++ l)).
Proof. rewrite store_app. destruct (store i x l) as [l'| |]; cbn [mbind outcome_bind]; [apply store_app|done..]. Qed.

Definition with_body (l : list Z) (p : packet) : packet :=
  mkPacket (eth_dst p) (eth_src p) (eth_type p) (ip_head p) (ip_proto p) (ip_sum p) (ip_src p) (ip_dst p) (ip_opts p) (sport p) (dport p) l.

(** The UDP fields after the ports. *)
Lemma fix_udp_spec p a b c d l : packet_ok p -> (Z.of_nat (length (bytes_of p)) < 2 ^ 64)%Z -> body p = a :: b :: c :: d :: l ->
  let len := (Z.of_nat (8 + length l))%Z in
  fix_udp_length (bytes_of p) = Done (bytes_of (with_body (high len :: low len :: c :: d :: l) p)) /\
  fix_udp_checksum (bytes_of p) = Done (bytes_of (with_body (a :: b :: 0%Z :: 0%Z :: l) p)).
Proof.
  intros Hk Hl Hb len. unfold fix_udp_length, fix_udp_checksum. rewrite (v4len_spec p Hk). cbn [mbind outcome_bind].
  pose proof (front_length p Hk) as Hf. rewrite <- Hf.
  assert (Hlen : length (bytes_of p) = length (front p) + (8 + length l)).
  { rewrite bytes_front, !length_app, (k_sport p Hk), (k_dport p Hk), Hb. reflexivity. }
  destruct Hk as [_ _ _ _ _ _ _ E1 E2 _ _]. rewrite !bytes_front in *. cbn [with_body front sport dport body header_of] in *.
  destruct (sport p) as [|? [|? [|? ?]]]; try discriminate. destruct (dport p) as [|? [|? [|? ?]]]; try discriminate.
  rewrite Hb in *. cbn [app] in *. rewrite <- !(Nat.add_assoc (length (front p))). split.
  - unfold usub. rewrite checked_ok by (unfold in_width, ETH_HEADER_LEN in *; lia). cbn [mbind outcome_bind].
    rewrite checked_ok by (unfold in_width, ETH_HEADER_LEN in *; lia). cbn [mbind outcome_bind].
    match goal with |- context [Z.shiftr ?x 8] => replace x with len by (unfold len, ETH_HEADER_LEN in *; lia) end.
    rewrite store_twice. reflexivity.
  - rewrite store_twice. reflexivity.
Qed.
End Packets.

(** ** Forwarding a sequence of packets *)

Section Forwarding.
Context `{Profile} {N : Type}.


End Forwarding.

(** ** Claims *)

Section Claims.
Context `{Profile}.

(** [fix_ip_checksum] replaces the two bytes of the checksum field and nothing else,
    and a receiver that adds up the words of the new header in one's complement gets
    0xffff, whatever was in the field before. *)
Theorem fix_ip_checksum_verifies (p : packet) : packet_ok p ->
  exists a b, fix_ip_checksum (bytes_of p) = Done (bytes_of (with_sum [a; b] p)) /\
    packet_ok (with_sum [a; b] p) /\ verifies (header_of (with_sum [a; b] p)).
Proof.
  intros Hk. destruct (fix_ip_checksum_spec p Hk) as (a & b & Hf & Ha & Hb & Hv). exists a, b.
  split_and!; [done|by apply with_sum_ok|done].
Qed.

(** [swap_mac] exchanges the two Ethernet addresses and [swap_udp_ips] exchanges the
    two IP addresses and the two ports, each leaving the rest of the frame; the reversed
    header has a right checksum exactly if the header had one. *)
Theorem swaps_reverse_packet (p : packet) : packet_ok p ->
  swap_mac (bytes_of p) = Done (bytes_of (with_macs (eth_src p) (eth_dst p) p)) /\
  swap_udp_ips (bytes_of p) = Done (bytes_of (reversed p)) /\
  (verifies (header_of p) <-> verifies (header_of (reversed p))).
Proof. intros Hk. split_and!; [by apply swap_mac_spec|by apply swap_udp_ips_spec|by apply reversed_verifies]. Qed.

End Claims.

(** ** A packet

    The packet of [run_tx_udptest], with a payload of seven bytes. *)
Definition sample : packet :=
  mkPacket [0x90; 0xe2; 0xba; 0xb3; 0x74; 0x81]%Z [0x90; 0xe2; 0xba; 0xb5; 0x14; 0xcd]%Z [0x08; 0x00]%Z
    [0x45; 0x00; 0x00; 0x2e; 0x00; 0x0; 0x0; 0x00; 0x40]%Z 0x11%Z [0x00; 0x00]%Z [0x0a; 0x0a; 0x03; 0x01]%Z [0x0a; 0x0a; 0x03; 0x02]%Z []
    [0xb2; 0x6f]%Z [0x14; 0x51]%Z [0x00; 0x1a; 0x9c; 0xaf; 82; 101; 100; 108; 101; 97; 102]%Z.

Lemma sample_ok : packet_ok sample.
Proof.
  split; [reflexivity..|exists 0x45%Z; split; reflexivity|]. apply Forall_forall.
  assert (E : forallb (fun b => (0 <=? b)%Z && (b <? 256)%Z) (bytes_of sample) = true) by (vm_compute; reflexivity).
  rewrite forallb_forall in E. intros b Hb. specialize (E b Hb). unfold is_byte, in_width. lia.
Defined.

Lemma fix_ip_checksum_verifies_witness :
  packet_ok sample /\ exists f, fix_ip_checksum (H := true) (bytes_of sample) = Done f /\ length f = 49.
Proof.
  split; [exact sample_ok|]. destruct (fix_ip_checksum_verifies (H := true) sample sample_ok) as (a & b & Hf & _ & _).
  eexists. split; [exact Hf|reflexivity].
Defined.

Lemma swaps_reverse_packet_witness :
  packet_ok sample /\ swap_udp_ips (H := true) (bytes_of sample) = Done (bytes_of (reversed sample)).
Proof. split; [exact sample_ok|]. apply (swaps_reverse_packet (H := true) sample sample_ok). Defined.

