(* ===== verification/Ixgbe.v ===== *)
(** * The ixgbe network driver (lib/devices/ixgbe/src/lib.rs)

    The transmit and receive rings of an 82599 network card: submitting packets,
    collecting the finished ones, and the legacy interface over [Vec] buffers.

    A descriptor is its two 64-bit words, as the union [ixgbe_adv_tx_desc] /
    [ixgbe_adv_rx_desc] (lib/devices/libdma/src/ixgbe.rs) lays them out.  The card is not
    code of the repository: it runs between any two accesses of the driver and is given
    by a script, one list of events for each time the driver reads a status word.  An
    event completes a descriptor that was given to the card: the card overwrites the
    descriptor and, on the receive side, the memory that the descriptor points to.  A
    descriptor counts as given from the moment it is filled, which allows the card more
    than the tail register does.

    An [RRef] or a [Vec] buffer is named by its address.  [dropped] lists the packets
    whose last owner was the driver, in the order in which Rust frees them.  The queues
    [RRefDeque] are the bounded queues that they refine (file RRefDeque). *)

From Stdlib Require Import ZArith Lia.
From stdpp Require Import base gmap list.
From stdpp Require Import options.
From S2P Require Import Prelude.

Set Default Proof Using "Type".

(** ** Constants *)

Definition TX_CLEAN_BATCH : nat := 32.
Definition IXGBE_RXDADV_STAT_DD : Z := 0x01.
Definition IXGBE_RXDADV_STAT_EOP : Z := 0x02.
Definition IXGBE_ADVTXD_PAYLEN_SHIFT : Z := 14.
Definition IXGBE_ADVTXD_DCMD_EOP : Z := 0x01000000.
Definition IXGBE_ADVTXD_DCMD_RS : Z := 0x08000000.
Definition IXGBE_ADVTXD_DCMD_IFCS : Z := 0x02000000.
Definition IXGBE_ADVTXD_DTYP_DATA : Z := 0x00300000.
Definition IXGBE_ADVTXD_DCMD_DEXT : Z := 0x20000000.
Definition IXGBE_ADVTXD_STAT_DD : Z := 0x01.
Definition NUM_DESCS : nat := 512.
Definition BATCH_SIZE : nat := 32.
Definition PKT_SIZE : nat := 1514.

(** ** Descriptors *)

Record desc := mkDesc { d_lo : Z; d_hi : Z }.

Definition write_buffer_addr (a : Z) (d : desc) : desc := mkDesc a (d_hi d).
Definition write_cmd_type_len (v : Z) (d : desc) : desc := mkDesc (d_lo d) (Z.lor (Z.shiftl (Z.shiftr (d_hi d) 32) 32) (wrap 32 v)).
Definition write_olinfo_status (v : Z) (d : desc) : desc := mkDesc (d_lo d) (Z.lor (Z.shiftl (wrap 32 v) 32) (wrap 32 (d_hi d))).
Definition tx_status (d : desc) : Z := Z.shiftr (d_hi d) 32.

Definition write_pkt_addr (a : Z) (d : desc) : desc := mkDesc a (d_hi d).
Definition write_hdr_addr (a : Z) (d : desc) : desc := mkDesc (d_lo d) a.
Definition rx_status (d : desc) : Z := wrap 32 (d_hi d).
Definition rx_length (d : desc) : nat := Z.to_nat (wrap 16 (Z.shiftr (d_hi d) 32)).

(** ** The device *)

Inductive dir := Tx | Rx.

(** [Vec<u8>]: buffer, length, capacity. *)
Record Vec := mkVec { v_ptr : Z; v_len : nat; v_cap : nat }.

(** One ring with the driver's tables for it; [owned] are the descriptors that the card
    has. *)
Record Side := mkSide {
  buffers : list (option Vec); rrefs : list (option Z); ring : list desc; slot : list bool;
  index_ : nat; clean_index : nat; tail_reg : Z; owned : gset nat }.

(** What the card does: it completes descriptor [i], writing [d] over it and [data] to
    the buffer. *)
Record event := Complete { e_dir : dir; e_idx : nat; e_desc : desc; e_data : list Z }.

Record IxgbeDevice := mkDevice {
  transmit : Side; receive : Side; transmit_clean_index : nat;
  memory : gmap Z (list Z); script : list (list event); dropped : list Z }.

Definition side (d : dir) (s : IxgbeDevice) : Side := match d with Tx => transmit s | Rx => receive s end.
Definition on_side (d : dir) (f : Side -> Side) (s : IxgbeDevice) : IxgbeDevice :=
  match d with
  | Tx => mkDevice (f (transmit s)) (receive s) (transmit_clean_index s) (memory s) (script s) (dropped s)
  | Rx => mkDevice (transmit s) (f (receive s)) (transmit_clean_index s) (memory s) (script s) (dropped s)
  end.

Definition with_buffers f (s : Side) := mkSide (f (buffers s)) (rrefs s) (ring s) (slot s) (index_ s) (clean_index s) (tail_reg s) (owned s).
Definition with_rrefs f (s : Side) := mkSide (buffers s) (f (rrefs s)) (ring s) (slot s) (index_ s) (clean_index s) (tail_reg s) (owned s).
Definition with_ring f (s : Side) := mkSide (buffers s) (rrefs s) (f (ring s)) (slot s) (index_ s) (clean_index s) (tail_reg s) (owned s).
Definition with_slot f (s : Side) := mkSide (buffers s) (rrefs s) (ring s) (f (slot s)) (index_ s) (clean_index s) (tail_reg s) (owned s).
Definition with_index i (s : Side) := mkSide (buffers s) (rrefs s) (ring s) (slot s) i (clean_index s) (tail_reg s) (owned s).
Definition with_clean i (s : Side) := mkSide (buffers s) (rrefs s) (ring s) (slot s) (index_ s) i (tail_reg s) (owned s).
Definition with_tail v (s : Side) := mkSide (buffers s) (rrefs s) (ring s) (slot s) (index_ s) (clean_index s) v (owned s).
Definition with_owned f (s : Side) := mkSide (buffers s) (rrefs s) (ring s) (slot s) (index_ s) (clean_index s) (tail_reg s) (f (owned s)).

Definition with_memory m (s : IxgbeDevice) := mkDevice (transmit s) (receive s) (transmit_clean_index s) m (script s) (dropped s).
Definition with_script l (s : IxgbeDevice) := mkDevice (transmit s) (receive s) (transmit_clean_index s) (memory s) l (dropped s).
Definition with_dropped l (s : IxgbeDevice) := mkDevice (transmit s) (receive s) (transmit_clean_index s) (memory s) (script s) l.
Definition with_tci i (s : IxgbeDevice) := mkDevice (transmit s) (receive s) i (memory s) (script s) (dropped s).

(** [IxgbeDevice::new]: the rings are zeroed memory. *)
Definition new_side : Side :=
  mkSide (replicate NUM_DESCS None) (replicate NUM_DESCS None) (replicate NUM_DESCS (mkDesc 0 0)) (replicate NUM_DESCS false) 0 0 0 ∅.
Definition IxgbeDevice_new (m : gmap Z (list Z)) (sc : list (list event)) : IxgbeDevice :=
  mkDevice new_side new_side 0 m sc [].

(** ** The card *)

(** Received bytes overwrite the start of the buffer. *)
Definition dma_write (a : Z) (data : list Z) (m : gmap Z (list Z)) : gmap Z (list Z) :=
  match m !! a with Some l => <[a := data ++ drop (length data) l]> m | None => <[a := data]> m end.

Definition card_event (e : event) (s : IxgbeDevice) : IxgbeDevice :=
  let sd := side (e_dir e) s in
  if decide (e_idx e ∈ owned sd) then
    match ring sd !! e_idx e with
    | Some de =>
        let s := match e_dir e with Rx => with_memory (dma_write (d_lo de) (e_data e) (memory s)) s | Tx => s end in
        on_side (e_dir e) (fun sd => with_owned (fun o => o ∖ {[e_idx e]}) (with_ring (<[e_idx e := e_desc e]>) sd)) s
    | None => s
    end
  else s.

Definition card_events (es : list event) (s : IxgbeDevice) : IxgbeDevice := foldl (fun s e => card_event e s) s es.

Definition tick : M IxgbeDevice unit := modify (fun s =>
  match script s with [] => s | es :: sc => card_events es (with_script sc s) end).

(** ** Accesses *)

Definition desc_at (d : dir) (i : nat) : M IxgbeDevice desc := sd ← gets (side d); lift (index (ring sd) i).
Definition slot_at (d : dir) (i : nat) : M IxgbeDevice bool := sd ← gets (side d); lift (index (slot sd) i).
Definition set_slot (d : dir) (i : nat) (b : bool) : M IxgbeDevice unit := modify (on_side d (with_slot (<[i := b]>))).
Definition set_rref (d : dir) (i : nat) (o : option Z) : M IxgbeDevice unit := modify (on_side d (with_rrefs (<[i := o]>))).
Definition set_desc (d : dir) (i : nat) (f : desc -> desc) : M IxgbeDevice unit :=
  modify (on_side d (with_ring (alter f i))).

(** [read_volatile] of a status word; the card runs first. *)
Definition read_status (d : dir) (i : nat) : M IxgbeDevice Z :=
  _ ← tick; de ← desc_at d i; mret (match d with Tx => tx_status de | Rx => rx_status de end).

(** [self.rrefs[i].take()] *)
Definition take_rref (d : dir) (i : nat) : M IxgbeDevice (option Z) :=
  sd ← gets (side d); o ← lift (index (rrefs sd) i); _ ← set_rref d i None; mret o.

(** An owned packet goes out of scope. *)
Definition drop_ (a : Z) : M IxgbeDevice unit := modify (fun s => with_dropped (dropped s ++ [a]) s).
Definition drop_opt (o : option Z) : M IxgbeDevice unit := match o with Some a => drop_ a | None => mret tt end.

(** [self.rrefs[i] = o]: what was there is dropped. *)
Definition assign_rref (d : dir) (i : nat) (o : option Z) : M IxgbeDevice unit :=
  sd ← gets (side d); old ← lift (index (rrefs sd) i); _ ← set_rref d i o; drop_opt old.

(** [self.buffers[i] = o]: the old vector is dropped and its memory freed. *)
Definition assign_buffer (d : dir) (i : nat) (o : option Vec) : M IxgbeDevice unit :=
  sd ← gets (side d); old ← lift (index (buffers sd) i);
  _ ← modify (on_side d (with_buffers (<[i := o]>))); drop_opt (v_ptr <$> old).

(** [RRefDeque::push_back] *)
Definition push_back (cap : nat) (q : list Z) (a : Z) : option Z * list Z :=
  if length q =? cap then (Some a, q) else (None, q ++ [a]).

Section Ops.
Context `{Profile}.

Definition wrap_ring (index ring_size : nat) : outcome nat :=
  a ← uadd 64 (Z.of_nat index) 1; b ← usub 64 (Z.of_nat ring_size) 1; Done (Z.to_nat (Z.land a b)).
Definition next_index (i : nat) : M IxgbeDevice nat := lift (wrap_ring i NUM_DESCS).

Definition has_dd (status : Z) : bool := negb (Z.land status IXGBE_RXDADV_STAT_DD =? 0)%Z.
Definition has_eop (status : Z) : bool := negb (Z.land status IXGBE_RXDADV_STAT_EOP =? 0)%Z.

(** The three writes that fill a transmit descriptor; the card has it from then on. *)
Definition tx_cmd (len : nat) : Z :=
  Z.lor (Z.lor (Z.lor (Z.lor (Z.lor IXGBE_ADVTXD_DCMD_EOP IXGBE_ADVTXD_DCMD_RS) IXGBE_ADVTXD_DCMD_IFCS) IXGBE_ADVTXD_DCMD_DEXT)
    IXGBE_ADVTXD_DTYP_DATA) (wrap 32 (Z.of_nat len)).
Definition tx_paylen (len : nat) : Z := wrap 32 (Z.shiftl (wrap 32 (Z.of_nat len)) IXGBE_ADVTXD_PAYLEN_SHIFT).
Definition give (d : dir) (i : nat) : M IxgbeDevice unit := modify (on_side d (with_owned (fun o => o ∪ {[i]}))).

(** ** Transmit, shared-heap packets *)

(** The locals of the submission loops. *)
Record Loc := mkLoc { l_reap : list Z; l_index : nat; l_clean : nat; l_last : nat; l_count : nat }.

(** [((packet[14 + 2] as usize) << 8) + (packet[14 + 3] as usize) + 14] *)
Definition real_pkt_len (a : Z) : M IxgbeDevice nat :=
  m ← gets memory; bytes ← lift (expect (m !! a));
  hi ← lift (index bytes 16); lo ← lift (index bytes 17);
  mret (Z.to_nat (Z.shiftl hi 8 + lo + 14)).

Definition fill_tx_rref (i : nat) (packet : Z) (len : nat) : M IxgbeDevice unit :=
  _ ← set_desc Tx i (write_buffer_addr packet);
  _ ← assign_rref Tx i (Some packet);
  _ ← set_slot Tx i true;
  _ ← set_desc Tx i (write_cmd_type_len (tx_cmd len));
  _ ← set_desc Tx i (write_olinfo_status (tx_paylen len));
  give Tx i.

(** [while let Some(packet) = packets.pop_front()] *)
Fixpoint tx_submit_rref (packets : list Z) (l : Loc) : M IxgbeDevice (list Z * Loc) :=
  match packets with
  | [] => mret ([], l)
  | packet :: rest =>
      status ← read_status Tx (l_index l);
      sl ← slot_at Tx (l_index l);
      if negb (has_dd status) && sl then mret (rest ++ [packet], l)
      else
        len ← real_pkt_len packet;
        taken ← (if sl : bool then take_rref Tx (l_index l) else mret None);
        match taken with
        | Some buf =>
            match push_back BATCH_SIZE (l_reap l) buf with
            | (Some buf, reap) =>
                _ ← assign_rref Tx (l_index l) (Some buf); _ ← drop_ packet;
                mret (rest, mkLoc reap (l_index l) (l_clean l) (l_last l) (l_count l))
            | (None, reap) =>
                clean ← next_index (l_clean l);
                _ ← fill_tx_rref (l_index l) packet len;
                i ← next_index (l_index l);
                tx_submit_rref rest (mkLoc reap i clean (l_index l) (S (l_count l)))
            end
        | None =>
            _ ← fill_tx_rref (l_index l) packet len;
            i ← next_index (l_index l);
            tx_submit_rref rest (mkLoc (l_reap l) i (l_clean l) (l_index l) (S (l_count l)))
        end
  end.

(** The loop over the finished descriptors, at most [n] times. *)
Fixpoint tx_reap_rref (n : nat) (reap : list Z) (clean : nat) : M IxgbeDevice (list Z * nat) :=
  match n with
  | O => mret (reap, clean)
  | S n =>
      status ← read_status Tx clean;
      r ← (if has_dd status then
             sl ← slot_at Tx clean;
             reap ← (if sl : bool then
                       o ← take_rref Tx clean;
                       reap ← match o with
                              | Some buf => let r := push_back BATCH_SIZE reap buf in _ ← drop_opt r.1; mret r.2
                              | None => mret reap
                              end;
                       _ ← set_slot Tx clean false; _ ← assign_buffer Tx clean None; mret reap
                     else mret reap);
             clean ← next_index clean; mret (reap, clean)
           else mret (reap, clean));
      sd ← gets (side Tx);
      if (r.2 =? index_ sd) || (n =? 0) then mret r else tx_reap_rref n r.1 r.2
  end.

Definition tx_submit_and_poll_rref (packets reap_queue : list Z) : M IxgbeDevice (nat * list Z * list Z) :=
  sd ← gets (side Tx);
  r ← tx_submit_rref packets (mkLoc reap_queue (index_ sd) (clean_index sd) (index_ sd) 0);
  let (packets, l) := r : list Z * Loc in
  p ← (if length (l_reap l) <? BATCH_SIZE then
         p ← tx_reap_rref (BATCH_SIZE - length (l_reap l)) (l_reap l) (l_clean l);
         c ← next_index p.2;
         _ ← modify (on_side Tx (with_clean c)); mret p
       else mret (l_reap l, l_clean l));
  _ ← (if l_index l =? l_last l then mret tt
       else modify (on_side Tx (fun sd => with_clean p.2 (with_index (l_index l) (with_tail (Z.of_nat (l_index l)) sd)))));
  mret (l_count l, packets, p.1).

(** ** Receive, shared-heap packets *)

Definition check_eop (status : Z) : M IxgbeDevice unit := assert (negb (has_dd status && negb (has_eop status))).

Definition fill_rx_rref (i : nat) (packet : Z) : M IxgbeDevice unit :=
  _ ← set_desc Rx i (write_pkt_addr packet);
  _ ← set_desc Rx i (write_hdr_addr 0);
  _ ← assign_rref Rx i (Some packet);
  _ ← set_slot Rx i true;
  give Rx i.

Fixpoint rx_submit_rref (packets : list Z) (l : Loc) : M IxgbeDevice (list Z * Loc) :=
  match packets with
  | [] => mret ([], l)
  | packet :: rest =>
      status ← read_status Rx (l_index l);
      sl ← slot_at Rx (l_index l);
      if negb (has_dd status) && sl then mret (rest ++ [packet], l)
      else
        _ ← check_eop status;
        de ← desc_at Rx (l_index l);
        p ← (if sl : bool then
               o ← take_rref Rx (l_index l);
               reap ← match o with
                      | Some buf =>
                          if rx_length de <=? PKT_SIZE then
                            let r := push_back BATCH_SIZE (l_reap l) buf in _ ← drop_opt r.1; mret r.2
                          else _ ← drop_ buf; mret (l_reap l)
                      | None => mret (l_reap l)
                      end;
               _ ← set_slot Rx (l_index l) false;
               clean ← next_index (l_clean l);
               mret (reap, clean)
             else mret (l_reap l, l_clean l));
        _ ← fill_rx_rref (l_index l) packet;
        i ← next_index (l_index l);
        rx_submit_rref rest (mkLoc p.1 i p.2 (l_index l) (S (l_count l)))
  end.

Fixpoint rx_reap_rref (n : nat) (reap : list Z) (clean : nat) : M IxgbeDevice (list Z * nat) :=
  match n with
  | O => mret (reap, clean)
  | S n =>
      status ← read_status Rx clean;
      if has_dd status then
        _ ← check_eop status;
        sl ← slot_at Rx clean;
        r ← (if sl : bool then
               o ← take_rref Rx clean;
               reap ← match o with
                      | Some buf => let r := push_back BATCH_SIZE reap buf in _ ← drop_opt r.1; mret r.2
                      | None => mret reap
                      end;
               _ ← set_slot Rx clean false; _ ← assign_rref Rx clean None;
               clean ← next_index clean; mret (reap, clean)
             else mret (reap, clean));
        sd ← gets (side Rx);
        if (r.2 =? index_ sd) || (n =? 0) then mret r else rx_reap_rref n r.1 r.2
      else mret (reap, clean)
  end.

Definition rx_submit_and_poll_rref (packets reap_queue : list Z) : M IxgbeDevice (nat * list Z * list Z) :=
  sd ← gets (side Rx);
  r ← rx_submit_rref packets (mkLoc reap_queue (index_ sd) (clean_index sd) (index_ sd) 0);
  let (packets, l) := r : list Z * Loc in
  clean ← next_index (l_clean l);
  p ← (if length (l_reap l) <? BATCH_SIZE then
         p ← rx_reap_rref (BATCH_SIZE - length (l_reap l)) (l_reap l) clean;
         if clean =? p.2 then mret p else c ← next_index p.2; mret (p.1, c)
       else mret (l_reap l, clean));
  _ ← (if l_index l =? l_last l then mret tt
       else modify (on_side Rx (fun sd => with_clean p.2 (with_index (l_index l) (with_tail (Z.of_nat (l_last l)) sd)))));
  mret (l_count l, packets, p.1).

Definition submit_and_poll_rref (packets collect : list Z) (tx : bool) : M IxgbeDevice (nat * list Z * list Z) :=
  if tx then tx_submit_and_poll_rref packets collect else rx_submit_and_poll_rref packets collect.

(** ** Polling the whole ring *)

Definition POLL_CAP : nat := 512.

(** [for i in 0..num_descriptors]; the receive side checks for the end of the packet. *)
Fixpoint poll_loop_rref (d : dir) (l : list nat) (reap : list Z) (reaped : nat) : M IxgbeDevice (list Z * nat) :=
  match l with
  | [] => mret (reap, reaped)
  | i :: l =>
      status ← read_status d i;
      _ ← match d with Rx => check_eop status | Tx => mret tt end;
      sl ← slot_at d i;
      if has_dd status && sl then
        o ← take_rref d i;
        reap ← match o with
               | Some pkt => let r := push_back POLL_CAP reap pkt in _ ← drop_opt r.1; mret r.2
               | None => mret reap
               end;
        _ ← set_slot d i false;
        _ ← assign_rref d i None;
        poll_loop_rref d l reap (S reaped)
      else poll_loop_rref d l reap reaped
  end.

Definition poll_rref (reap_queue : list Z) (d : dir) : M IxgbeDevice (nat * list Z) :=
  r ← poll_loop_rref d (seq 0 NUM_DESCS) reap_queue 0;
  _ ← (if 0 <? r.2 then modify (on_side d (fun sd => with_clean (index_ sd) sd)) else mret tt);
  mret (r.2, r.1).
End Ops.

(** ** The invariant

    [nic_ok s held]: the tables of the driver fit together, the card has no buffer but
    those in the rings, and the packets in the rings and the packets [held] outside of
    the driver are all different. *)

Definition buf_list (o : option Z) : list Z := match o with Some a => [a] | None => [] end.
Definition bufs_of (sd : Side) : list Z := omap id (rrefs sd).
Definition done (d : dir) (de : desc) : bool := has_dd (match d with Tx => tx_status de | Rx => rx_status de end).
Definition other (d : dir) : dir := match d with Tx => Rx | Rx => Tx end.

(** What the card may write: a finished descriptor; a received packet fits its buffer
    and is in one piece. *)
Definition desc_ok (d : dir) (de : desc) : Prop :=
  d = Rx -> done Rx de = true -> has_eop (rx_status de) = true /\ rx_length de <= PKT_SIZE.
Definition event_ok (e : event) : Prop :=
  done (e_dir e) (e_desc e) = true /\ desc_ok (e_dir e) (e_desc e) /\ length (e_data e) <= PKT_SIZE.

Record side_ok (d : dir) (sd : Side) : Prop := {
  so_ring : length (ring sd) = NUM_DESCS;
  so_slots : length (slot sd) = NUM_DESCS;
  so_rrefs : length (rrefs sd) = NUM_DESCS;
  so_buffers : buffers sd = replicate NUM_DESCS None;
  so_index : index_ sd < NUM_DESCS;
  so_clean : clean_index sd < NUM_DESCS;
  so_slot i b o : slot sd !! i = Some b -> rrefs sd !! i = Some o -> (b = true <-> is_Some o);
  so_owned i : i ∈ owned sd ->
    exists de a, ring sd !! i = Some de /\ rrefs sd !! i = Some (Some a) /\ d_lo de = a /\ done d de = false;
  so_armed i de : slot sd !! i = Some true -> ring sd !! i = Some de -> done d de = false -> i ∈ owned sd;
  so_desc : Forall (desc_ok d) (ring sd) }.

Definition all_bufs (s : IxgbeDevice) : list Z := bufs_of (transmit s) ++ bufs_of (receive s).

Record nic_ok (s : IxgbeDevice) (held : list Z) : Prop := {
  n_tx : side_ok Tx (transmit s);
  n_rx : side_ok Rx (receive s);
  n_dup : NoDup (all_bufs s ++ held);
  n_mem a : a ∈ all_bufs s ++ held -> exists l, memory s !! a = Some l /\ length l = PKT_SIZE;
  n_script : Forall (Forall event_ok) (script s) }.

Lemma nic_side d s held : nic_ok s held -> side_ok d (side d s).
Proof. intros N. destruct d; apply N. Qed.

Lemma all_bufs_side d s : all_bufs s ≡ₚ bufs_of (side d s) ++ bufs_of (side (other d) s).
Proof. unfold all_bufs. destruct d; cbn [side other]; [done|by rewrite Permutation_app_comm]. Qed.

#[global] Instance nic_ok_perm s : Proper ((≡ₚ) ==> iff) (nic_ok s).
Proof.
  assert (H : forall h h', h ≡ₚ h' -> nic_ok s h -> nic_ok s h').
  { intros h h' Hp N. split; try apply N.
    - rewrite <- Hp. apply N.
    - intros a. rewrite <- Hp. apply N. }
  intros h h' Hp. split; apply H; [done|by symmetry].
Qed.

(** The invariant moves along when buffers only change places. *)
Lemma nic_ok_moved s s' held held' : nic_ok s held ->
  side_ok Tx (transmit s') -> side_ok Rx (receive s') -> all_bufs s' ++ held' ≡ₚ all_bufs s ++ held ->
  memory s' = memory s -> script s' = script s -> nic_ok s' held'.
Proof.
  intros N Ht Hr Hp Hm Hs. split; [done|done| | |].
  - rewrite Hp. apply N.
  - intros a. rewrite Hp, Hm. apply N.
  - rewrite Hs. apply N.
Qed.

Lemma bufs_insert (l : list (option Z)) i o o' : l !! i = Some o ->
  buf_list o ++ omap id (<[i := o']> l) ≡ₚ buf_list o' ++ omap id l.
Proof.
  intros Hi. pose proof (lookup_lt_Some _ _ _ Hi) as Hl.
  rewrite <- (take_drop_middle l i o Hi) at 2. rewrite insert_take_drop by done. rewrite !omap_app.
  assert (E : forall x (l : list (option Z)), omap id (x :: l) = buf_list x ++ omap id l) by (intros [?|] ?; done).
  rewrite !E. solve_Permutation.
Qed.

(** ** Filling and emptying a descriptor *)

Definition armed (d : dir) (i : nat) (a : Z) (de : desc) (s : IxgbeDevice) : IxgbeDevice :=
  on_side d (fun sd => mkSide (buffers sd) (<[i := Some a]> (rrefs sd)) (<[i := de]> (ring sd)) (<[i := true]> (slot sd))
    (index_ sd) (clean_index sd) (tail_reg sd) (owned sd ∪ {[i]})) s.
Definition released (d : dir) (i : nat) (s : IxgbeDevice) : IxgbeDevice :=
  on_side d (fun sd => mkSide (buffers sd) (<[i := None]> (rrefs sd)) (ring sd) (<[i := false]> (slot sd))
    (index_ sd) (clean_index sd) (tail_reg sd) (owned sd)) s.

Lemma side_on d f s : side d (on_side d f s) = f (side d s).
Proof. by destruct d. Qed.
Lemma side_on_other d f s : side (other d) (on_side d f s) = side (other d) s.
Proof. by destruct d. Qed.

(** A change of one ring that keeps the ring's tables and moves buffers. *)
Lemma nic_ok_side d f s held held' : nic_ok s held -> side_ok d (f (side d s)) ->
  bufs_of (f (side d s)) ++ held' ≡ₚ bufs_of (side d s) ++ held -> nic_ok (on_side d f s) held'.
Proof.
  intros N Hd Hp. apply (nic_ok_moved s _ held); [done| | | | |].
  - destruct d; [done|apply N].
  - destruct d; [apply N|done].
  - rewrite !(all_bufs_side d), side_on, side_on_other. 
    rewrite (Permutation_app_comm (bufs_of (f (side d s)))), (Permutation_app_comm (bufs_of (side d s))), <- !app_assoc. by rewrite Hp.
  - by destruct d.
  - by destruct d.
Qed.

Lemma not_owned_slot d sd i : side_ok d sd -> slot sd !! i = Some false -> i ∉ owned sd.
Proof.
  intros S Hs Ho. destruct (so_owned _ _ S i Ho) as (de & a & _ & Hr & _). 
  destruct (so_slot _ _ S i false (Some a) Hs Hr) as [_ H]. by discriminate H.
Qed.
Lemma not_owned_done d sd i de : side_ok d sd -> ring sd !! i = Some de -> done d de = true -> i ∉ owned sd.
Proof. intros S Hr Hd Ho. destruct (so_owned _ _ S i Ho) as (de' & a & Hr' & _ & _ & Hd'). congruence. Qed.

Lemma armed_side_ok d sd i a de : side_ok d sd -> i < NUM_DESCS -> d_lo de = a -> done d de = false ->
  side_ok d (mkSide (buffers sd) (<[i := Some a]> (rrefs sd)) (<[i := de]> (ring sd)) (<[i := true]> (slot sd))
    (index_ sd) (clean_index sd) (tail_reg sd) (owned sd ∪ {[i]})).
Proof.
  intros S Hi Ha Hd. split; cbn [ring slot rrefs buffers index_ clean_index owned]; rewrite ?length_insert; try apply S.
  - intros j b o Hb Ho. destruct (decide (i = j)) as [<-|Hne].
    + rewrite list_lookup_insert_eq in Hb by (rewrite (so_slots _ _ S); lia).
      rewrite list_lookup_insert_eq in Ho by (rewrite (so_rrefs _ _ S); lia). naive_solver.
    + rewrite list_lookup_insert_ne in Hb by done. rewrite list_lookup_insert_ne in Ho by done. by apply (so_slot _ _ S j).
  - intros j Hj. destruct (decide (i = j)) as [<-|Hne].
    + exists de, a. rewrite !list_lookup_insert_eq by (rewrite ?(so_rrefs _ _ S), ?(so_ring _ _ S); lia). done.
    + rewrite !list_lookup_insert_ne by done. apply (so_owned _ _ S). set_solver.
  - intros j de' Hs Hr Hd'. destruct (decide (i = j)) as [<-|Hne]; [set_solver|].
    rewrite list_lookup_insert_ne in Hs by done. rewrite list_lookup_insert_ne in Hr by done. pose proof (so_armed _ _ S j de' Hs Hr Hd'). set_solver.
  - apply Forall_insert; [apply S|]. intros -> Hx. by rewrite Hd in Hx.
Qed.

Lemma released_side_ok d sd i : side_ok d sd -> i < NUM_DESCS -> i ∉ owned sd ->
  side_ok d (mkSide (buffers sd) (<[i := None]> (rrefs sd)) (ring sd) (<[i := false]> (slot sd))
    (index_ sd) (clean_index sd) (tail_reg sd) (owned sd)).
Proof.
  intros S Hi Hn. split; cbn [ring slot rrefs buffers index_ clean_index owned]; rewrite ?length_insert; try apply S.
  - intros j b o Hb Ho. destruct (decide (i = j)) as [<-|Hne].
    + rewrite list_lookup_insert_eq in Hb by (rewrite (so_slots _ _ S); lia).
      rewrite list_lookup_insert_eq in Ho by (rewrite (so_rrefs _ _ S); lia). simplify_eq. split; [done|by intros []].
    + rewrite list_lookup_insert_ne in Hb by done. rewrite list_lookup_insert_ne in Ho by done. by apply (so_slot _ _ S j).
  - intros j Hj. destruct (decide (i = j)) as [<-|Hne]; [done|]. rewrite list_lookup_insert_ne by done. by apply (so_owned _ _ S).
  - intros j de' Hs Hr Hd'. destruct (decide (i = j)) as [<-|Hne].
    + rewrite list_lookup_insert_eq in Hs by (rewrite (so_slots _ _ S); lia). done.
    + rewrite list_lookup_insert_ne in Hs by done. by apply (so_armed _ _ S j de').
Qed.

Lemma armed_ok d i a de o s held : nic_ok s (a :: held) -> i < NUM_DESCS -> rrefs (side d s) !! i = Some o ->
  d_lo de = a -> done d de = false -> nic_ok (armed d i a de s) (buf_list o ++ held).
Proof.
  intros N Hi Ho Ha Hd. apply (nic_ok_side d _ s (a :: held)); [done|by apply armed_side_ok; [eapply nic_side| | |]|].
  unfold bufs_of at 1. cbn [rrefs]. rewrite (app_assoc _ (buf_list o)), (Permutation_app_comm (omap id _)).
  rewrite (bufs_insert _ i o (Some a) Ho). cbn [buf_list]. unfold bufs_of. solve_Permutation.
Qed.

Lemma released_ok d i o s held : nic_ok s held -> i < NUM_DESCS -> i ∉ owned (side d s) -> rrefs (side d s) !! i = Some o ->
  nic_ok (released d i s) (buf_list o ++ held).
Proof.
  intros N Hi Hn Ho. apply (nic_ok_side d _ s held); [done|by apply released_side_ok; [eapply nic_side| |]|].
  unfold bufs_of at 1. cbn [rrefs]. rewrite (app_assoc _ (buf_list o)), (Permutation_app_comm (omap id _)).
  by rewrite (bufs_insert _ i o None Ho).
Qed.

Lemma drop_ok a s held l : nic_ok s (a :: held) -> nic_ok (with_dropped l s) held.
Proof.
  intros N. split; try apply N.
  - pose proof (n_dup _ _ N) as Hd. unfold all_bufs in *. cbn [transmit receive with_dropped].
    rewrite Permutation_app_comm in Hd. cbn [app] in Hd. apply list.NoDup_cons in Hd as [_ Hd]. by rewrite Permutation_app_comm.
  - intros b Hb. apply (n_mem _ _ N). unfold all_bufs in *. cbn [transmit receive with_dropped] in *. set_solver.
Qed.

(** ** The card keeps the invariant *)

(** Nothing of the driver changes, and no memory outside of the rings. *)
Record stable (held : list Z) (s s' : IxgbeDevice) : Prop := {
  st_rrefs d : rrefs (side d s') = rrefs (side d s);
  st_slot d : slot (side d s') = slot (side d s);
  st_index d : index_ (side d s') = index_ (side d s);
  st_clean d : clean_index (side d s') = clean_index (side d s);
  st_dropped : dropped s' = dropped s;
  st_mem a : a ∈ held -> memory s' !! a = memory s !! a }.

Lemma stable_refl held s : stable held s s.
Proof. by split. Qed.
Lemma stable_trans held s s' s'' : stable held s s' -> stable held s' s'' -> stable held s s''.
Proof.
  intros A B. split.
  - intros d. by rewrite (st_rrefs _ _ _ B), (st_rrefs _ _ _ A).
  - intros d. by rewrite (st_slot _ _ _ B), (st_slot _ _ _ A).
  - intros d. by rewrite (st_index _ _ _ B), (st_index _ _ _ A).
  - intros d. by rewrite (st_clean _ _ _ B), (st_clean _ _ _ A).
  - by rewrite (st_dropped _ _ _ B), (st_dropped _ _ _ A).
  - intros a Ha. by rewrite (st_mem _ _ _ B), (st_mem _ _ _ A).
Qed.

Lemma completed_side_ok d sd i de : side_ok d sd -> i < NUM_DESCS -> done d de = true -> desc_ok d de ->
  side_ok d (with_owned (fun o => o ∖ {[i]}) (with_ring (<[i := de]>) sd)).
Proof.
  intros S Hi Hd Hok. split; cbn [with_owned with_ring ring slot rrefs buffers index_ clean_index owned]; rewrite ?length_insert; try apply S.
  - intros j Hj. rewrite list_lookup_insert_ne by set_solver. apply (so_owned _ _ S). set_solver.
  - intros j de' Hs Hr Hd'. destruct (decide (i = j)) as [<-|Hne].
    + rewrite list_lookup_insert_eq in Hr by (rewrite (so_ring _ _ S); lia). congruence.
    + rewrite list_lookup_insert_ne in Hr by done. pose proof (so_armed _ _ S j de' Hs Hr Hd'). set_solver.
  - apply Forall_insert; [apply S|done].
Qed.

Lemma elem_of_bufs sd i a : rrefs sd !! i = Some (Some a) -> a ∈ bufs_of sd.
Proof. intros Hi. apply list_elem_of_omap. exists (Some a). split; [|done]. by eapply list_elem_of_lookup_2. Qed.

Lemma card_event_ok e s held : nic_ok s held -> event_ok e -> nic_ok (card_event e s) held /\ stable held s (card_event e s).
Proof.
  intros N (Hdone & Hdesc & Hlen). unfold card_event. case_decide as Hown; [|split; [done|apply stable_refl]].
  pose proof (nic_side (e_dir e) s held N) as S. destruct (so_owned _ _ S _ Hown) as (de & a & Hr & Hrr & Ha & _). rewrite Hr.
  assert (Hi : e_idx e < NUM_DESCS) by (rewrite <- (so_ring _ _ S); by eapply lookup_lt_Some).
  assert (Hin : a ∈ all_bufs s) by (rewrite (all_bufs_side (e_dir e)); apply elem_of_app; left; by eapply elem_of_bufs).
  pose proof (completed_side_ok _ _ _ _ S Hi Hdone Hdesc) as S'.
  destruct e as [[] i d' data]; cbn [e_dir e_idx e_desc e_data] in *.
  - split; [|split; try (by intros []); done]. by apply (nic_ok_side Tx _ s held).
  - destruct (n_mem _ _ N a) as (l & Hl & Hll); [set_solver|]. rewrite Ha. unfold dma_write. rewrite Hl. split.
    + split; [apply N|exact S'|apply N| |apply N]. cbn [on_side memory with_memory]. intros b Hb.
      destruct (decide (b = a)) as [->|]; [|rewrite lookup_insert_ne by done; by apply (n_mem _ _ N)].
      exists (data ++ drop (length data) l). rewrite lookup_insert_eq. split; [done|]. rewrite length_app, length_drop. lia.
    + split; try (by intros []); try done. intros b Hb. cbn [on_side memory with_memory]. apply lookup_insert_ne. intros ->.
      pose proof (n_dup _ _ N) as Hd. apply list.NoDup_app in Hd as (_ & Hd & _). by apply (Hd b).
Qed.

Lemma card_events_ok es s held : nic_ok s held -> Forall event_ok es ->
  nic_ok (card_events es s) held /\ stable held s (card_events es s).
Proof.
  intros N Hes. revert s N. induction Hes as [|e es He Hes IH]; intros s N; [split; [done|apply stable_refl]|].
  destruct (card_event_ok e s held N He) as [N' T]. destruct (IH _ N') as [N'' T']. split; [done|by eapply stable_trans].
Qed.

Lemma tick_spec s held : nic_ok s held -> run tick s (fun _ s' => nic_ok s' held /\ stable held s s').
Proof.
  intros N. unfold tick. eexists tt, _. split; [done|]. pose proof (n_script _ _ N) as Hsc.
  destruct (script s) as [|es sc] eqn:E; [split; [done|apply stable_refl]|]. apply list.Forall_cons in Hsc as [He Hsc].
  assert (N' : nic_ok (with_script sc s) held) by (split; try apply N; done).
  destruct (card_events_ok es _ held N' He) as [N'' T]. split; [done|]. eapply stable_trans; [|exact T]. split; by try intros [].
Qed.

Lemma read_status_spec d i s held : nic_ok s held -> i < NUM_DESCS ->
  run (read_status d i) s (fun st s' => nic_ok s' held /\ stable held s s' /\
    exists de, ring (side d s') !! i = Some de /\ has_dd st = done d de /\
      (d = Rx -> has_dd st = true -> has_eop st = true /\ rx_length de <= PKT_SIZE)).
Proof.
  intros N Hi. unfold read_status. eapply run_bind; [by apply tick_spec|]. intros [] s' [N' T].
  pose proof (nic_side d s' held N') as S. destruct (lookup_lt_is_Some_2 (ring (side d s')) i) as [de Hde]; [by rewrite (so_ring _ _ S)|].
  unfold desc_at. apply run_assoc. eapply run_step; [done|]. eapply run_lift; [by apply index_Some|]. apply run_ret.
  split_and!; [done|done|]. exists de. split_and!; [done|by destruct d|]. intros -> Hd.
  exact (Forall_lookup_1 _ _ _ _ (so_desc _ _ S) Hde eq_refl Hd).
Qed.

(** ** Bits of a descriptor *)

Lemma has_dd_bit st : has_dd st = Z.testbit st 0.
Proof.
  unfold has_dd, IXGBE_RXDADV_STAT_DD. change 1%Z with (Z.ones 1). rewrite Z.land_ones by lia. change (2 ^ 1)%Z with 2%Z.
  rewrite <- Z.bit0_mod. by destruct (Z.testbit st 0).
Qed.

Definition tx_filled (a : Z) (len : nat) (de : desc) : desc :=
  write_olinfo_status (tx_paylen len) (write_cmd_type_len (tx_cmd len) (write_buffer_addr a de)).
Definition rx_filled (a : Z) (de : desc) : desc := write_hdr_addr 0 (write_pkt_addr a de).

Lemma tx_filled_done a len de : done Tx (tx_filled a len de) = false.
Proof.
  unfold done, tx_filled, tx_status, write_olinfo_status. cbn [d_hi]. rewrite has_dd_bit, Z.shiftr_spec, Z.lor_spec by lia.
  rewrite Z.shiftl_spec by lia. cbn [Z.add Z.sub Z.opp]. unfold wrap. rewrite (Z.mod_pow2_bits_high _ 32 32), orb_false_r by lia.
  unfold tx_paylen, wrap. rewrite !Z.mod_pow2_bits_low by lia. by apply Z.shiftl_spec_low.
Qed.

Lemma rx_filled_done a de : done Rx (rx_filled a de) = false.
Proof. done. Qed.

(** ** Effects of the accesses *)

Lemma slot_at_Done d i b s : slot (side d s) !! i = Some b -> slot_at d i s = Done (b, s).
Proof. intros Hb. unfold slot_at. rewrite bind_gets. unfold lift. by rewrite (index_Some _ _ _ Hb). Qed.

Lemma take_rref_Done d i o s : rrefs (side d s) !! i = Some o ->
  take_rref d i s = Done (o, on_side d (with_rrefs (<[i := None]>)) s).
Proof. intros Ho. unfold take_rref. rewrite bind_gets, (index_Some _ _ _ Ho), bind_lift. reflexivity. Qed.

Lemma assign_rref_None d i o s : rrefs (side d s) !! i = Some None ->
  assign_rref d i o s = Done (tt, on_side d (with_rrefs (<[i := o]>)) s).
Proof. intros Ho. unfold assign_rref. rewrite bind_gets, (index_Some _ _ _ Ho), bind_lift. reflexivity. Qed.

Lemma assign_buffer_None d i s : side_ok d (side d s) -> i < NUM_DESCS -> assign_buffer d i None s = Done (tt, s).
Proof.
  intros S Hi. unfold assign_buffer. rewrite bind_gets. pose proof (so_buffers _ _ S) as Hb.
  rewrite (index_Some _ i None) by (rewrite Hb; by apply lookup_replicate_2). rewrite bind_lift, bind_modify. cbn [fmap option_fmap option_map drop_opt].
  unfold mret, M_ret. do 2 f_equal. destruct s as [[] [] ? ? ? ?], d; cbn [side transmit receive buffers] in *; subst; unfold on_side, with_buffers;
    cbn [transmit receive buffers rrefs ring slot index_ clean_index tail_reg owned transmit_clean_index memory script dropped];
    by rewrite list_insert_id by (by apply lookup_replicate_2).
Qed.

Lemma on_side_comp d f g s : on_side d f (on_side d g s) = on_side d (fun sd => f (g sd)) s.
Proof. by destruct d. Qed.
Lemma on_side_ext d f g s : f (side d s) = g (side d s) -> on_side d f s = on_side d g s.
Proof. destruct d; cbn [on_side side]; by intros ->. Qed.

Ltac side_eq s d :=
  rewrite !on_side_comp; apply on_side_ext; destruct (side d s);
  cbn [buffers rrefs ring slot index_ clean_index tail_reg owned] in *;
  cbv beta iota delta [with_owned with_ring with_slot with_rrefs with_buffers buffers rrefs ring slot index_ clean_index tail_reg owned].

Lemma fill_tx_rref_Done i a len de s : rrefs (side Tx s) !! i = Some None -> ring (side Tx s) !! i = Some de ->
  fill_tx_rref i a len s = Done (tt, armed Tx i a (tx_filled a len de) s).
Proof.
  intros Ho Hde. unfold fill_tx_rref, set_desc, set_slot, give. rewrite bind_modify.
  erewrite bind_Done; [|apply assign_rref_None; by rewrite side_on]. rewrite !bind_modify. unfold modify, armed. do 2 f_equal.
  side_eq s Tx. pose proof (lookup_lt_Some _ _ _ Hde). f_equal.
  apply list_eq. intros j. destruct (decide (j = i)) as [->|].
  - rewrite !list_lookup_alter_eq, list_lookup_insert_eq, Hde by done. reflexivity.
  - by rewrite !list_lookup_alter_ne, list_lookup_insert_ne by done.
Qed.

Lemma fill_rx_rref_Done i a de s : rrefs (side Rx s) !! i = Some None -> ring (side Rx s) !! i = Some de ->
  fill_rx_rref i a s = Done (tt, armed Rx i a (rx_filled a de) s).
Proof.
  intros Ho Hde. unfold fill_rx_rref, set_desc, set_slot, give. rewrite !bind_modify.
  erewrite bind_Done; [|apply assign_rref_None; by rewrite !side_on]. rewrite !bind_modify. unfold modify, armed. do 2 f_equal.
  side_eq s Rx. pose proof (lookup_lt_Some _ _ _ Hde). f_equal.
  apply list_eq. intros j. destruct (decide (j = i)) as [->|].
  - rewrite !list_lookup_alter_eq, list_lookup_insert_eq, Hde by done. reflexivity.
  - by rewrite !list_lookup_alter_ne, list_lookup_insert_ne by done.
Qed.

Section Steps.
Context `{Profile}.

Lemma next_index_Done i s : i < NUM_DESCS -> exists j, next_index i s = Done (j, s) /\ j < NUM_DESCS /\ j <> i.
Proof.
  intros Hi. unfold next_index, wrap_ring, lift, uadd, usub, NUM_DESCS in *. rewrite checked_ok by (unfold in_width; lia).
  cbn [mbind outcome_bind]. rewrite checked_ok by (unfold in_width; lia). cbn [mbind outcome_bind].
  eexists. split; [done|]. change (Z.of_nat 512 - 1)%Z with (Z.ones 9). rewrite Z.land_ones by lia. change (2 ^ 9)%Z with 512%Z.
  destruct (decide (i = 511)) as [->|]; [change (Z.to_nat ((Z.of_nat 511 + 1) mod 512)) with 0; lia|]. rewrite Z.mod_small by lia. lia.
Qed.
End Steps.

(** ** Moving packets

    [moved d frame s held s' held']: ring [d] took packets from [held] and gave back
    [held']; every packet is in the ring, given back or dropped, once, and the packets
    in [frame] are out of reach. *)
Record moved (d : dir) (frame : list Z) (s : IxgbeDevice) (held : list Z) (s' : IxgbeDevice) (held' : list Z) : Prop := {
  mv_ok : nic_ok s' (held' ++ frame);
  mv_kept : bufs_of (side d s') ++ held' ++ dropped s' ≡ₚ bufs_of (side d s) ++ held ++ dropped s;
  mv_other : rrefs (side (other d) s') = rrefs (side (other d) s);
  mv_mem a : a ∈ frame -> memory s' !! a = memory s !! a;
  mv_index : index_ (side d s') = index_ (side d s) }.

Lemma moved_trans d frame s1 h1 s2 h2 s3 h3 :
  moved d frame s1 h1 s2 h2 -> moved d frame s2 h2 s3 h3 -> moved d frame s1 h1 s3 h3.
Proof.
  intros A B. split.
  - apply B.
  - by rewrite (mv_kept _ _ _ _ _ _ B), (mv_kept _ _ _ _ _ _ A).
  - by rewrite (mv_other _ _ _ _ _ _ B), (mv_other _ _ _ _ _ _ A).
  - intros a Ha. by rewrite (mv_mem _ _ _ _ _ _ B), (mv_mem _ _ _ _ _ _ A).
  - by rewrite (mv_index _ _ _ _ _ _ B), (mv_index _ _ _ _ _ _ A).
Qed.

Lemma moved_perm d frame s h h1 s' h' h1' : h ≡ₚ h1 -> h' ≡ₚ h1' -> moved d frame s h s' h' -> moved d frame s h1 s' h1'.
Proof.
  intros E E' V. split; try apply V.
  - rewrite <- E'. apply V.
  - rewrite <- E, <- E'. apply V.
Qed.

Lemma moved_stable d frame s s' held : nic_ok s' (held ++ frame) -> stable (held ++ frame) s s' -> moved d frame s held s' held.
Proof.
  intros N T. split; [done| | | |].
  - unfold bufs_of. by rewrite (st_rrefs _ _ _ T), (st_dropped _ _ _ T).
  - by rewrite (st_rrefs _ _ _ T).
  - intros a Ha. apply (st_mem _ _ _ T). set_solver.
  - by rewrite (st_index _ _ _ T).
Qed.

Lemma moved_arm d frame s held i a de o : nic_ok s ((a :: held) ++ frame) -> i < NUM_DESCS -> rrefs (side d s) !! i = Some o ->
  d_lo de = a -> done d de = false -> moved d frame s (a :: held) (armed d i a de s) (buf_list o ++ held).
Proof.
  intros N Hi Ho Ha Hd. pose proof (armed_ok d i a de o s (held ++ frame) N Hi Ho Ha Hd) as N'. unfold armed in *. split.
  - by rewrite <- app_assoc.
  - rewrite side_on. unfold bufs_of at 1. cbn [rrefs].
    assert (Hp := bufs_insert _ i o (Some a) Ho). cbn [buf_list] in Hp. fold (bufs_of (side d s)) in Hp.
    assert (E : dropped (on_side d (fun sd => mkSide (buffers sd) (<[i := Some a]> (rrefs sd)) (<[i := de]> (ring sd)) (<[i := true]> (slot sd))
      (index_ sd) (clean_index sd) (tail_reg sd) (owned sd ∪ {[i]})) s) = dropped s) by (by destruct d).
    rewrite E, (app_assoc _ (buf_list o ++ held)), (app_assoc _ (buf_list o)), (Permutation_app_comm (omap id _)), Hp. cbn [app].
    rewrite <- !app_assoc. cbn [app]. by rewrite Permutation_middle.
  - by rewrite side_on_other.
  - intros b Hb. by destruct d.
  - by rewrite side_on.
Qed.

Lemma moved_release d frame s held i o : nic_ok s (held ++ frame) -> i < NUM_DESCS -> i ∉ owned (side d s) ->
  rrefs (side d s) !! i = Some o -> moved d frame s held (released d i s) (buf_list o ++ held).
Proof.
  intros N Hi Hn Ho. pose proof (released_ok d i o s (held ++ frame) N Hi Hn Ho) as N'. unfold released in *. split.
  - by rewrite <- app_assoc.
  - rewrite side_on. unfold bufs_of at 1. cbn [rrefs].
    assert (Hp := bufs_insert _ i o None Ho). cbn [buf_list app] in Hp. fold (bufs_of (side d s)) in Hp.
    assert (E : dropped (on_side d (fun sd => mkSide (buffers sd) (<[i := None]> (rrefs sd)) (ring sd) (<[i := false]> (slot sd))
      (index_ sd) (clean_index sd) (tail_reg sd) (owned sd)) s) = dropped s) by (by destruct d).
    rewrite E, (app_assoc _ (buf_list o ++ held)), (app_assoc _ (buf_list o)), (Permutation_app_comm (omap id _)), Hp. cbn [app].
    by rewrite <- !app_assoc.
  - by rewrite side_on_other.
  - intros b Hb. by destruct d.
  - by rewrite side_on.
Qed.

Lemma moved_drop d frame s held a : nic_ok s ((a :: held) ++ frame) ->
  moved d frame s (a :: held) (with_dropped (dropped s ++ [a]) s) held.
Proof.
  intros N. split; try (by destruct d).
  - by apply (drop_ok a).
  - assert (E : bufs_of (side d (with_dropped (dropped s ++ [a]) s)) = bufs_of (side d s)) by (by destruct d). rewrite E.
    cbn [dropped with_dropped]. solve_Permutation.
Qed.

Lemma armed_take d i a de s : armed d i a de (on_side d (with_rrefs (<[i := None]>)) s) = armed d i a de s.
Proof. unfold armed. side_eq s d. by rewrite list_insert_insert_eq. Qed.

Lemma put_back d i a s : rrefs (side d s) !! i = Some (Some a) ->
  on_side d (with_rrefs (<[i := Some a]>)) (on_side d (with_rrefs (<[i := None]>)) s) = s.
Proof.
  intros Ho. destruct d, s as [[] [] ? ? ? ?]; cbn [side transmit receive rrefs] in *;
    cbv beta iota delta [on_side with_rrefs buffers rrefs ring slot index_ clean_index tail_reg owned transmit receive transmit_clean_index memory script dropped];
    by rewrite list_insert_insert_eq, list_insert_id.
Qed.

Section Transmit.
Context `{Profile}.

Lemma real_pkt_len_Done a s held : nic_ok s held -> a ∈ held -> exists n, real_pkt_len a s = Done (n, s).
Proof.
  intros N Ha. destruct (n_mem _ _ N a) as (l & Hl & Hn); [set_solver|]. unfold PKT_SIZE in Hn.
  destruct (lookup_lt_is_Some_2 l 16) as [x Hx]; [lia|]. destruct (lookup_lt_is_Some_2 l 17) as [y Hy]; [lia|].
  unfold real_pkt_len. rewrite bind_gets, Hl. cbn [expect]. rewrite bind_lift, (index_Some _ _ _ Hx), bind_lift, (index_Some _ _ _ Hy), bind_lift. by eexists.
Qed.

(** The tables at one index. *)
Lemma side_at d s held i : nic_ok s held -> i < NUM_DESCS ->
  exists b o de, slot (side d s) !! i = Some b /\ rrefs (side d s) !! i = Some o /\ ring (side d s) !! i = Some de /\ (b = true <-> is_Some o).
Proof.
  intros N Hi. pose proof (nic_side d s held N) as S.
  destruct (lookup_lt_is_Some_2 (slot (side d s)) i) as [b Hb]; [by rewrite (so_slots _ _ S)|].
  destruct (lookup_lt_is_Some_2 (rrefs (side d s)) i) as [o Ho]; [by rewrite (so_rrefs _ _ S)|].
  destruct (lookup_lt_is_Some_2 (ring (side d s)) i) as [de Hde]; [by rewrite (so_ring _ _ S)|].
  exists b, o, de. split_and!; [done..|]. by apply (so_slot _ _ S i).
Qed.

(** What a submission loop leaves: room is not exceeded, and with room for everything
    no packet is dropped. *)
Record submitted (d : dir) (frame : list Z) (packets : list Z) (l : Loc) (s : IxgbeDevice) (r : list Z * Loc) (s' : IxgbeDevice) : Prop := {
  sb_moved : moved d frame s (packets ++ l_reap l) s' (r.1 ++ l_reap r.2);
  sb_index : l_index r.2 < NUM_DESCS;
  sb_clean : l_clean r.2 < NUM_DESCS;
  sb_room : length (packets ++ l_reap l) <= BATCH_SIZE ->
    dropped s' = dropped s /\ l_count r.2 + length r.1 = l_count l + length packets /\ length (r.1 ++ l_reap r.2) <= BATCH_SIZE }.

Lemma submitted_step d frame packet rest l l1 s s1 s2 r s' :
  moved d frame s (packet :: rest ++ l_reap l) s1 (packet :: rest ++ l_reap l) -> dropped s1 = dropped s ->
  moved d frame s1 (packet :: rest ++ l_reap l) s2 (rest ++ l_reap l1) ->
  l_count l1 = S (l_count l) ->
  (length (packet :: rest ++ l_reap l) <= BATCH_SIZE -> dropped s2 = dropped s1 /\ length (l_reap l1) <= S (length (l_reap l))) ->
  submitted d frame rest l1 s2 r s' -> submitted d frame (packet :: rest) l s r s'.
Proof.
  intros V E V' Hc Hroom B. split; [|apply B..|].
  - cbn [app]. eapply moved_trans; [exact V|]. eapply moved_trans; [exact V'|]. apply B.
  - cbn [app]. intros Hr. destruct (Hroom Hr) as [E' Hl]. rewrite length_cons, length_app in Hr.
    destruct (sb_room _ _ _ _ _ _ _ B) as (E'' & Hn & Hr'); [rewrite length_app; lia|].
    split_and!; [congruence|cbn [length]; lia|done].
Qed.

Lemma tx_submit_rref_spec packets l s frame :
  nic_ok s ((packets ++ l_reap l) ++ frame) -> l_index l < NUM_DESCS -> l_clean l < NUM_DESCS ->
  run (tx_submit_rref packets l) s (submitted Tx frame packets l s).
Proof.
  revert l s. induction packets as [|packet rest IH]; intros l s N Hi Hc; cbn [tx_submit_rref].
  { apply run_ret. split; [by apply moved_stable; [|apply stable_refl]|done|done|]. intros Hl. split_and!; done. }
  eapply run_bind; [by apply (read_status_spec Tx _ _ _ N Hi)|]. intros st s1 (N1 & T & de & Hde & Hdd & _).
  destruct (side_at Tx s1 _ (l_index l) N1 Hi) as (sl & o & de' & Hsl & Ho & Hde' & Hso). simplify_eq.
  pose proof (moved_stable Tx frame _ _ _ N1 T) as V1. pose proof (st_dropped _ _ _ T) as E1.
  eapply run_step; [by apply slot_at_Done|]. rewrite Hdd. destruct (negb (done Tx de) && sl) eqn:Hstop.
  { apply run_ret. split; cbn [fst snd]; [|done|done|].
    - eapply moved_perm; [done| |exact V1]. cbn [app]. solve_Permutation.
    - intros Hl. rewrite !length_app in *. cbn [length] in *. split_and!; [done|lia|lia]. }
  destruct (real_pkt_len_Done packet s1 _ N1) as [len Hlen]; [left|]. eapply run_step; [exact Hlen|].
  assert (V2 := moved_arm Tx frame s1 (rest ++ l_reap l) (l_index l) packet (tx_filled packet len de) o N1 Hi Ho eq_refl (tx_filled_done _ _ _)).
  assert (Hnext : forall l1, l_index l1 < NUM_DESCS -> l_clean l1 < NUM_DESCS ->
    rest ++ l_reap l1 ≡ₚ buf_list o ++ rest ++ l_reap l -> l_count l1 = S (l_count l) ->
    length (l_reap l1) <= S (length (l_reap l)) ->
    run (tx_submit_rref rest l1) (armed Tx (l_index l) packet (tx_filled packet len de) s1) (submitted Tx frame (packet :: rest) l s)).
  { intros l1 Hi1 Hc1 Hp Hn Hl1. apply (moved_perm _ _ _ _ _ _ _ (rest ++ l_reap l1) (reflexivity _)) in V2; [|by symmetry].
    eapply run_mono; [apply (IH l1); [apply V2|done|done]|]. intros r s' B.
    eapply submitted_step; [exact V1|exact E1|exact V2|done| |exact B]. intros _. done. }
  destruct (next_index_Done (l_index l) (armed Tx (l_index l) packet (tx_filled packet len de) s1) Hi) as (i' & Ei & Hi' & _).
  destruct sl, o as [buf|]; [|by destruct (proj1 Hso eq_refl)|by discriminate (proj2 Hso ltac:(eauto))|].
  - eapply run_step; [by apply take_rref_Done|]. unfold push_back. destruct (Nat.eqb_spec (length (l_reap l)) BATCH_SIZE) as [Hf|Hf].
    + eapply run_step; [apply assign_rref_None; rewrite side_on; apply list_lookup_insert_eq; by eapply lookup_lt_Some|].
      rewrite put_back by done. eapply run_step; [reflexivity|]. apply run_ret. split; cbn [fst snd l_index l_clean l_reap l_count]; [|done|done|].
      * eapply moved_trans; [exact V1|]. by apply moved_drop.
      * intros Hl. rewrite length_app in Hl. cbn [length] in Hl. lia.
    + destruct (next_index_Done (l_clean l) (on_side Tx (with_rrefs (<[l_index l := None]>)) s1) Hc) as (c' & Ec & Hc' & _).
      eapply run_step; [exact Ec|]. eapply run_step.
      { apply (fill_tx_rref_Done _ _ _ de); rewrite side_on; [apply list_lookup_insert_eq; by eapply lookup_lt_Some|done]. }
      rewrite armed_take. eapply run_step; [exact Ei|].
      apply Hnext; cbn [l_index l_clean l_reap l_count]; [done|done| |done|].
      * cbn [buf_list]. solve_Permutation.
      * rewrite length_app. cbn. lia.
  - eapply run_step; [reflexivity|]. eapply run_step; [by apply fill_tx_rref_Done|]. eapply run_step; [exact Ei|].
    apply Hnext; cbn [l_index l_clean l_reap l_count]; [done|done|done|done|lia].
Qed.
End Transmit.

(** ** Collecting a finished packet *)

Section Collect.
Context `{Profile}.

Lemma with_dropped_id s : with_dropped (dropped s ++ []) s = s.
Proof. rewrite app_nil_r. by destruct s. Qed.

Lemma drop_opt_Done o s : drop_opt o s = Done (tt, with_dropped (dropped s ++ buf_list o) s).
Proof. destruct o; [done|]. cbn [drop_opt buf_list]. by rewrite with_dropped_id. Qed.

(** The packet at [i] goes to the queue, or is dropped when the queue is full. *)
Definition collected (d : dir) (cap i : nat) (reap : list Z) (buf : Z) (s : IxgbeDevice) : IxgbeDevice :=
  released d i (with_dropped (dropped s ++ buf_list (push_back cap reap buf).1) s).

Lemma run_collect {A} d cap i reap buf s (K : list Z -> M IxgbeDevice A) post :
  rrefs (side d s) !! i = Some (Some buf) ->
  run (K (push_back cap reap buf).2) (collected d cap i reap buf s) post ->
  run (o ← take_rref d i;
       reap ← match o with Some buf => let r := push_back cap reap buf in _ ← drop_opt r.1; mret r.2 | None => mret reap end;
       _ ← set_slot d i false; K reap) s post.
Proof.
  intros Ho HK. eapply run_step; [by apply take_rref_Done|]. cbv zeta match. apply run_assoc.
  eapply run_step; [apply drop_opt_Done|]. eapply run_step; [reflexivity|]. eapply run_step; [reflexivity|].
  assert (E : on_side d (with_slot (<[i := false]>)) (with_dropped (dropped (on_side d (with_rrefs (<[i := None]>)) s) ++
      buf_list (push_back cap reap buf).1) (on_side d (with_rrefs (<[i := None]>)) s)) = collected d cap i reap buf s).
  { by destruct d. }
  by rewrite E.
Qed.

Lemma released_again d i s : on_side d (with_rrefs (<[i := None]>)) (released d i s) = released d i s.
Proof. unfold released. side_eq s d. by rewrite list_insert_insert_eq. Qed.

Lemma push_back_perm cap reap buf : buf :: reap ≡ₚ buf_list (push_back cap reap buf).1 ++ (push_back cap reap buf).2.
Proof. unfold push_back. destruct (length reap =? cap); [done|]. cbn [fst snd buf_list app]. solve_Permutation. Qed.

Lemma push_back_room cap reap buf : length reap < cap -> push_back cap reap buf = (None, reap ++ [buf]).
Proof. intros Hl. unfold push_back. destruct (Nat.eqb_spec (length reap) cap); [lia|done]. Qed.

Lemma released_dropped d i l s : released d i (with_dropped l s) = with_dropped l (released d i s).
Proof. by destruct d. Qed.

Lemma moved_collect d frame s held cap i reap buf : nic_ok s ((reap ++ held) ++ frame) -> i < NUM_DESCS -> i ∉ owned (side d s) ->
  rrefs (side d s) !! i = Some (Some buf) ->
  moved d frame s (reap ++ held) (collected d cap i reap buf s) ((push_back cap reap buf).2 ++ held).
Proof.
  intros N Hi Hn Ho. unfold collected. rewrite released_dropped.
  pose proof (moved_release d frame s (reap ++ held) i (Some buf) N Hi Hn Ho) as V. cbn [buf_list] in V.
  apply (moved_perm _ _ _ _ _ _ _ (buf_list (push_back cap reap buf).1 ++ (push_back cap reap buf).2 ++ held) (reflexivity _)) in V;
    [|by rewrite (app_assoc (buf_list _)), <- push_back_perm].
  destruct (push_back cap reap buf).1 as [a|]; cbn [buf_list app] in *.
  - eapply moved_trans; [exact V|]. assert (E : dropped s = dropped (released d i s)) by (by destruct d). rewrite E. apply moved_drop, V.
  - assert (E : dropped s = dropped (released d i s)) by (by destruct d). rewrite E, with_dropped_id. exact V.
Qed.

Lemma moved_frame d x frame s h s' h' : moved d (x ++ frame) s h s' h' -> moved d frame s (x ++ h) s' (x ++ h').
Proof.
  intros V. split; try apply V.
  - rewrite (Permutation_app_comm x), <- app_assoc. apply V.
  - rewrite <- !(app_assoc x), !(app_assoc _ x), !(Permutation_app_comm _ x), <- !(app_assoc x). by rewrite (mv_kept _ _ _ _ _ _ V).
  - intros a Ha. apply (mv_mem _ _ _ _ _ _ V). set_solver.
Qed.

(** ** The reaping loops *)

Record reaps (d : dir) (frame : list Z) (n : nat) (reap : list Z) (s : IxgbeDevice) (r : list Z * nat) (s' : IxgbeDevice) : Prop := {
  rp_moved : moved d frame s reap s' r.1;
  rp_clean : r.2 < NUM_DESCS;
  rp_count : length r.1 <= length reap + n;
  rp_dropped : dropped s' = dropped s }.

Lemma reaps_step d frame n reap reap1 s s1 r s' : moved d frame s reap s1 reap1 -> length reap1 <= S (length reap) ->
  dropped s1 = dropped s -> reaps d frame n reap1 s1 r s' -> reaps d frame (S n) reap s r s'.
Proof.
  intros V Hl E R. split; [|apply R| |].
  - eapply moved_trans; [exact V|apply R].
  - pose proof (rp_count _ _ _ _ _ _ _ R). lia.
  - rewrite <- E. apply R.
Qed.

Lemma reaps_end d frame n reap s clean : nic_ok s (reap ++ frame) -> clean < NUM_DESCS -> reaps d frame n reap s (reap, clean) s.
Proof. intros N Hc. split; [by apply moved_stable; [|apply stable_refl]|done|cbn; lia|done]. Qed.

Lemma collected_nic d frame s cap i reap buf : nic_ok s (reap ++ frame) -> i < NUM_DESCS -> i ∉ owned (side d s) ->
  rrefs (side d s) !! i = Some (Some buf) -> length reap < cap ->
  moved d frame s reap (collected d cap i reap buf s) (reap ++ [buf]) /\ dropped (collected d cap i reap buf s) = dropped s.
Proof.
  intros N Hi Hn Ho Hr. pose proof (moved_collect d frame s [] cap i reap buf) as V. rewrite !app_nil_r, push_back_room in V by done.
  split; [by apply V|]. unfold collected. rewrite push_back_room by done. cbn [fst buf_list]. rewrite with_dropped_id. by destruct d.
Qed.

Lemma next_index_state i j s s' : next_index i s = Done (j, s) -> next_index i s' = Done (j, s').
Proof. unfold next_index, lift. destruct (wrap_ring i NUM_DESCS); [|done..]. by intros [= ->]. Qed.

(** The end of a round: stop, or go on. *)
Lemma reap_next d frame n (loop : list Z -> nat -> M IxgbeDevice (list Z * nat)) reap s s1 :
  (forall reap clean s, nic_ok s (reap ++ frame) -> clean < NUM_DESCS -> length reap + n <= BATCH_SIZE ->
    run (loop reap clean) s (reaps d frame n reap s)) ->
  moved d frame s reap s1 reap -> dropped s1 = dropped s -> length reap + S n <= BATCH_SIZE ->
  forall reap1 clean1 s2, moved d frame s1 reap s2 reap1 -> length reap1 <= S (length reap) -> dropped s2 = dropped s1 ->
    clean1 < NUM_DESCS -> run (sd ← gets (side d); if (clean1 =? index_ sd) || (n =? 0) then mret (reap1, clean1) else loop reap1 clean1)
      s2 (reaps d frame (S n) reap s).
Proof.
  intros IH V1 E1 Hr reap1 clean1 s2 V Hl E Hc1. eapply run_step; [reflexivity|].
  pose proof (moved_trans _ _ _ _ _ _ _ _ V1 V) as V'. destruct (_ || _).
  - apply run_ret. eapply reaps_step; [exact V'|done|congruence|]. apply reaps_end; [apply V'|done].
  - eapply run_mono; [apply (IH reap1 clean1 s2); [apply V'|done|lia]|]. intros r s' R. eapply reaps_step; [exact V'|done|congruence|exact R].
Qed.

Lemma collected_empty d cap i reap buf o s : rrefs (side d s) !! i = Some o -> rrefs (side d (collected d cap i reap buf s)) !! i = Some None.
Proof. intros Ho. unfold collected, released. rewrite side_on. cbn [rrefs]. destruct d; (apply list_lookup_insert_eq; by eapply lookup_lt_Some). Qed.

Lemma tx_reap_rref_spec n reap clean s frame : nic_ok s (reap ++ frame) -> clean < NUM_DESCS -> length reap + n <= BATCH_SIZE ->
  run (tx_reap_rref n reap clean) s (reaps Tx frame n reap s).
Proof.
  revert reap clean s. induction n as [|n IH]; intros reap clean s N Hc Hr; cbn [tx_reap_rref]; [apply run_ret; by apply reaps_end|].
  eapply run_bind; [by apply (read_status_spec Tx _ _ _ N Hc)|]. intros st s1 (N1 & T & de & Hde & Hdd & _).
  pose proof (moved_stable Tx frame _ _ _ N1 T) as V1. pose proof (st_dropped _ _ _ T) as E1.
  pose proof (reap_next Tx frame n (tx_reap_rref n) reap s s1 (fun reap clean s N Hc Hr => IH reap clean s N Hc Hr) V1 E1 Hr) as Hend.
  pose proof (moved_stable Tx frame _ _ _ N1 (stable_refl _ s1)) as V0.
  rewrite Hdd. destruct (done Tx de) eqn:Hd; [|eapply run_step; [reflexivity|]; cbn [fst snd]; apply Hend; [exact V0|lia|done|done]].
  destruct (side_at Tx s1 _ clean N1 Hc) as (sl & o & de' & Hsl & Ho & Hde' & Hso).
  pose proof (not_owned_done Tx _ _ _ (nic_side Tx _ _ N1) Hde Hd) as Hno.
  apply run_assoc. eapply run_step; [by apply slot_at_Done|]. apply run_assoc. destruct (next_index_Done clean s1 Hc) as (c' & Ec & Hc' & _).
  destruct sl.
  - destruct (proj1 Hso eq_refl) as [buf ->]. destruct (collected_nic Tx frame s1 BATCH_SIZE clean reap buf) as [V E]; [done|done|done|done|lia|].
    eapply run_bind with (mid := fun r s2 => r = reap ++ [buf] /\ s2 = collected Tx BATCH_SIZE clean reap buf s1).
    { apply (run_collect Tx BATCH_SIZE clean reap buf); [done|]. rewrite push_back_room by lia.
      eapply run_step; [apply assign_buffer_None; [|done]; apply (nic_side Tx _ _ (mv_ok _ _ _ _ _ _ V))|]. by apply run_ret. }
    intros r s2 [-> ->]. apply run_assoc. eapply run_step; [exact (next_index_state _ _ _ _ Ec)|]. eapply run_step; [reflexivity|]. cbn [fst snd].
    apply Hend; [exact V| |done|done]. rewrite length_app. cbn. lia.
  - eapply run_step; [reflexivity|]. apply run_assoc. eapply run_step; [exact Ec|]. eapply run_step; [reflexivity|]. cbn [fst snd]. apply Hend; [exact V0|lia|done|done].
Qed.

Lemma check_eop_ok st s : (has_dd st = true -> has_eop st = true) -> check_eop st s = Done (tt, s).
Proof. intros Hs. unfold check_eop, assert. destruct (has_dd st); [|done]. by rewrite Hs. Qed.

Lemma rx_reap_rref_spec n reap clean s frame : nic_ok s (reap ++ frame) -> clean < NUM_DESCS -> length reap + n <= BATCH_SIZE ->
  run (rx_reap_rref n reap clean) s (reaps Rx frame n reap s).
Proof.
  revert reap clean s. induction n as [|n IH]; intros reap clean s N Hc Hr; cbn [rx_reap_rref]; [apply run_ret; by apply reaps_end|].
  eapply run_bind; [by apply (read_status_spec Rx _ _ _ N Hc)|]. intros st s1 (N1 & T & de & Hde & Hdd & Heop).
  pose proof (moved_stable Rx frame _ _ _ N1 T) as V1. pose proof (st_dropped _ _ _ T) as E1.
  pose proof (reap_next Rx frame n (rx_reap_rref n) reap s s1 (fun reap clean s N Hc Hr => IH reap clean s N Hc Hr) V1 E1 Hr) as Hend.
  pose proof (moved_stable Rx frame _ _ _ N1 (stable_refl _ s1)) as V0.
  destruct (has_dd st) eqn:Hd; [|apply run_ret; eapply reaps_step; [exact V1|lia|done|]; by apply reaps_end].
  eapply run_step; [apply check_eop_ok; intros _; by apply Heop|]. symmetry in Hdd.
  destruct (side_at Rx s1 _ clean N1 Hc) as (sl & o & de' & Hsl & Ho & _ & Hso).
  pose proof (not_owned_done Rx _ _ _ (nic_side Rx _ _ N1) Hde Hdd) as Hno.
  eapply run_step; [by apply slot_at_Done|]. destruct sl.
  - destruct (proj1 Hso eq_refl) as [buf ->]. destruct (collected_nic Rx frame s1 BATCH_SIZE clean reap buf) as [V E]; [done|done|done|done|lia|].
    destruct (next_index_Done clean s1 Hc) as (c' & Ec & Hc' & _).
    eapply run_bind with (mid := fun r s2 => r = (reap ++ [buf], c') /\ s2 = collected Rx BATCH_SIZE clean reap buf s1).
    { apply (run_collect Rx BATCH_SIZE clean reap buf); [done|]. rewrite push_back_room by lia. eapply run_step.
      { apply assign_rref_None. by eapply collected_empty. }
      unfold collected at 1. rewrite released_again. eapply run_step; [exact (next_index_state _ _ _ _ Ec)|]. by apply run_ret. }
    intros r s2 [-> ->]. cbn [fst snd]. apply Hend; [exact V| |done|done]. rewrite length_app. cbn. lia.
  - eapply run_step; [reflexivity|]. cbn [fst snd]. apply Hend; [exact V0|lia|done|done].
Qed.

Lemma rx_submit_rref_spec packets l s frame :
  nic_ok s ((packets ++ l_reap l) ++ frame) -> l_index l < NUM_DESCS -> l_clean l < NUM_DESCS ->
  run (rx_submit_rref packets l) s (submitted Rx frame packets l s).
Proof.
  revert l s. induction packets as [|packet rest IH]; intros l s N Hi Hc; cbn [rx_submit_rref].
  { apply run_ret. split; [by apply moved_stable; [|apply stable_refl]|done|done|]. intros Hl. split_and!; done. }
  eapply run_bind; [by apply (read_status_spec Rx _ _ _ N Hi)|]. intros st s1 (N1 & T & de & Hde & Hdd & Heop).
  destruct (side_at Rx s1 _ (l_index l) N1 Hi) as (sl & o & de' & Hsl & Ho & Hde' & Hso). simplify_eq.
  pose proof (moved_stable Rx frame _ _ _ N1 T) as V1. pose proof (st_dropped _ _ _ T) as E1.
  eapply run_step; [by apply slot_at_Done|]. destruct (negb (has_dd st) && sl) eqn:Hstop.
  { apply run_ret. split; cbn [fst snd]; [|done|done|].
    - eapply moved_perm; [done| |exact V1]. cbn [app]. solve_Permutation.
    - intros Hl. rewrite !length_app in *. cbn [length] in *. split_and!; [done|lia|lia]. }
  eapply run_step; [apply check_eop_ok; intros Hd; by apply Heop|].
  eapply run_step; [unfold desc_at; rewrite bind_gets; unfold lift; by rewrite (index_Some _ _ _ Hde)|].
  assert (Hnext : forall reap1 clean1 s2, clean1 < NUM_DESCS ->
    moved Rx frame s1 (packet :: rest ++ l_reap l) s2 (packet :: rest ++ reap1) -> rrefs (side Rx s2) !! l_index l = Some None ->
    ring (side Rx s2) !! l_index l = Some de ->
    (length (packet :: rest ++ l_reap l) <= BATCH_SIZE -> dropped s2 = dropped s1 /\ length reap1 <= S (length (l_reap l))) ->
    run (_ ← fill_rx_rref (l_index l) packet; i ← next_index (l_index l);
         rx_submit_rref rest (mkLoc reap1 i clean1 (l_index l) (S (l_count l)))) s2 (submitted Rx frame (packet :: rest) l s)).
  { intros reap1 clean1 s2 Hc1 V Ho2 Hde2 Hroom. eapply run_step; [by apply fill_rx_rref_Done|].
    destruct (next_index_Done (l_index l) (armed Rx (l_index l) packet (rx_filled packet de) s2) Hi) as (i' & Ei & Hi' & _).
    eapply run_step; [exact Ei|].
    pose proof (moved_arm Rx frame s2 (rest ++ reap1) (l_index l) packet (rx_filled packet de) None (mv_ok _ _ _ _ _ _ V) Hi Ho2 eq_refl (rx_filled_done _ _)) as V2.
    cbn [buf_list app] in V2. eapply run_mono; [apply IH; [apply V2|done|done]|]. intros r s' B.
    eapply (submitted_step _ _ _ _ _ (mkLoc reap1 i' clean1 (l_index l) (S (l_count l)))); [exact V1|exact E1|exact (moved_trans _ _ _ _ _ _ _ _ V V2)|done|exact Hroom|exact B]. }
  destruct (next_index_Done (l_clean l) s1 Hc) as (c' & Ec & Hc' & _).
  destruct sl, o as [buf|]; [|by destruct (proj1 Hso eq_refl)|by discriminate (proj2 Hso ltac:(eauto))|].
  - rewrite andb_true_r in Hstop. apply negb_false_iff in Hstop. destruct (Heop eq_refl Hstop) as [_ Hlen].
    pose proof (not_owned_done Rx _ _ _ (nic_side Rx _ _ N1) Hde (eq_trans (eq_sym Hdd) Hstop)) as Hno.
    destruct (Nat.leb_spec (rx_length de) PKT_SIZE); [|lia].
    eapply run_bind with (mid := fun r s2 => r = ((push_back BATCH_SIZE (l_reap l) buf).2, c') /\ s2 = collected Rx BATCH_SIZE (l_index l) (l_reap l) buf s1).
    { apply (run_collect Rx BATCH_SIZE (l_index l) (l_reap l) buf); [done|]. eapply run_step; [exact (next_index_state _ _ _ _ Ec)|]. by apply run_ret. }
    intros r s2 [-> ->]. cbn [fst snd]. apply Hnext; [done| |by eapply collected_empty|done|].
    + eapply moved_perm; [| |apply (moved_collect Rx frame s1 (packet :: rest) BATCH_SIZE (l_index l) (l_reap l) buf)].
      * solve_Permutation.
      * solve_Permutation.
      * eapply nic_ok_perm; [|exact N1]. cbn [app]. solve_Permutation.
      * done.
      * done.
      * done.
    + intros Hl. cbn [length] in Hl. rewrite length_app in Hl. rewrite push_back_room by lia. cbn [snd]. rewrite length_app. cbn [length]. split; [|lia].
      unfold collected. rewrite push_back_room by lia. cbn [fst buf_list]. by rewrite with_dropped_id.
  - eapply run_step; [reflexivity|]. cbn [fst snd]. apply Hnext; [done|by apply moved_stable; [|apply stable_refl]|done|done|]. intros _. split; [done|lia].
Qed.

(** Polling goes through the whole ring. *)
Lemma poll_loop_spec d l reap n s frame : nic_ok s (reap ++ frame) -> Forall (fun i => i < NUM_DESCS) l ->
  run (poll_loop_rref d l reap n) s (fun r s' => moved d frame s reap s' r.1 /\
    (length reap + length l <= POLL_CAP -> dropped s' = dropped s /\ length r.1 + n = length reap + r.2)).
Proof.
  intros N Hl. revert reap n s N. induction Hl as [|i l Hi Hl IH]; intros reap n s N; cbn [poll_loop_rref].
  { apply run_ret. split; [by apply moved_stable; [|apply stable_refl]|]. intros _. cbn. split; [done|lia]. }
  eapply run_bind; [by apply (read_status_spec d _ _ _ N Hi)|]. intros st s1 (N1 & T & de & Hde & Hdd & Heop).
  pose proof (moved_stable d frame _ _ _ N1 T) as V1. pose proof (st_dropped _ _ _ T) as E1.
  eapply run_step with (a := tt) (s' := s1).
  { destruct d; [done|]. apply check_eop_ok. intros Hd. by apply Heop. }
  destruct (side_at d s1 _ i N1 Hi) as (sl & o & de' & Hsl & Ho & _ & Hso). eapply run_step; [by apply slot_at_Done|].
  destruct (has_dd st && sl) eqn:Hb.
  - apply andb_true_iff in Hb as [Hst ->]. destruct (proj1 Hso eq_refl) as [buf ->].
    pose proof (not_owned_done d _ _ _ (nic_side d _ _ N1) Hde (eq_trans (eq_sym Hdd) Hst)) as Hno.
    pose proof (moved_collect d frame s1 [] POLL_CAP i reap buf) as V. rewrite !app_nil_r in V. specialize (V N1 Hi Hno Ho).
    apply (run_collect d POLL_CAP i reap buf); [done|]. eapply run_step; [apply assign_rref_None; by eapply collected_empty|].
    unfold collected at 1. rewrite released_again. fold (collected d POLL_CAP i reap buf s1).
    eapply run_mono; [apply IH, V|]. intros r s' [V' Hroom]. split.
    + eapply moved_trans; [exact V1|]. eapply moved_trans; [exact V|exact V'].
    + cbn [length]. intros Hr. rewrite push_back_room in Hroom by lia. cbn [snd] in Hroom. rewrite length_app in Hroom. cbn [length] in Hroom.
      destruct (Hroom ltac:(lia)) as [E Hn]. split; [|lia]. rewrite E. unfold collected. rewrite push_back_room by lia.
      cbn [fst buf_list]. rewrite with_dropped_id. by destruct d.
  - eapply run_mono; [by apply IH|]. intros r s' [V' Hroom]. split; [by eapply moved_trans|].
    cbn [length]. intros Hr. destruct (Hroom ltac:(lia)). split; [congruence|done].
Qed.
End Collect.

(** ** The calls of the driver *)

(** What a call does with the packets [held] of the caller: all packets are in the ring,
    back at the caller as [held'], or dropped; the other ring and the memory of the
    packets [frame] of others are left alone. *)
Record exchanged (d : dir) (frame : list Z) (s : IxgbeDevice) (held : list Z) (s' : IxgbeDevice) (held' : list Z) : Prop := {
  xc_ok : nic_ok s' (held' ++ frame);
  xc_kept : bufs_of (side d s') ++ held' ++ dropped s' ≡ₚ bufs_of (side d s) ++ held ++ dropped s;
  xc_other : rrefs (side (other d) s') = rrefs (side (other d) s);
  xc_mem a : a ∈ frame -> memory s' !! a = memory s !! a }.

Lemma moved_exchanged d frame s h s' h' : moved d frame s h s' h' -> exchanged d frame s h s' h'.
Proof. intros V. split; apply V. Qed.

(** Moving the indices and the tail register. *)
Lemma reindexed d frame s h s' h' f : exchanged d frame s h s' h' ->
  (forall sd, rrefs (f sd) = rrefs sd) -> side_ok d (f (side d s')) -> exchanged d frame s h (on_side d f s') h'.
Proof.
  intros V Hr Hok. split.
  - apply (nic_ok_side d f s' (h' ++ frame)); [apply V|done|]. unfold bufs_of. by rewrite Hr.
  - rewrite side_on. unfold bufs_of at 1. rewrite Hr. fold (bufs_of (side d s')). assert (E : dropped (on_side d f s') = dropped s') by (by destruct d).
    rewrite E. apply V.
  - rewrite side_on_other. apply V.
  - intros a Ha. assert (E : memory (on_side d f s') = memory s') by (by destruct d). rewrite E. by apply V.
Qed.

Lemma side_ok_indices d sd i c t : side_ok d sd -> i < NUM_DESCS -> c < NUM_DESCS ->
  side_ok d (with_clean c (with_index i (with_tail t sd))).
Proof. intros S Hi Hc. split; try apply S; done. Qed.
Lemma side_ok_clean d sd c : side_ok d sd -> c < NUM_DESCS -> side_ok d (with_clean c sd).
Proof. intros S Hc. split; try apply S; done. Qed.

Section Calls.
Context `{Profile}.

(** The answer of a call: how many packets went in, what is left, what came back. *)
Definition served (d : dir) (frame packets reap : list Z) (s : IxgbeDevice) (r : nat * list Z * list Z) (s' : IxgbeDevice) : Prop :=
  exchanged d frame s (packets ++ reap) s' (r.1.2 ++ r.2) /\
  (length (packets ++ reap) <= BATCH_SIZE -> dropped s' = dropped s /\ r.1.1 + length r.1.2 = length packets).

(** The end of a call, after both loops. *)
Lemma finish_call d frame packets reap s t l rest s1 s2 p f :
  submitted d frame packets (mkLoc reap (index_ (side d s)) (clean_index (side d s)) (index_ (side d s)) 0) s (rest, l) s1 ->
  moved d (rest ++ frame) s1 (l_reap l) s2 p.1 -> dropped s2 = dropped s1 -> p.2 < NUM_DESCS ->
  (forall sd, rrefs (f sd) = rrefs sd) -> (forall sd, side_ok d sd -> side_ok d (f sd)) ->
  run (_ ← (if l_index l =? l_last l then mret tt
            else modify (on_side d (fun sd => with_clean p.2 (with_index (l_index l) (with_tail t sd)))));
       mret (l_count l, rest, p.1)) (on_side d f s2) (served d frame packets reap s).
Proof.
  intros B V E Hc Hf Hok. pose proof (moved_trans _ _ _ _ _ _ _ _ (sb_moved _ _ _ _ _ _ _ B) (moved_frame _ _ _ _ _ _ _ V)) as V'.
  apply moved_exchanged in V'. cbn [fst snd l_reap] in V'.
  pose proof (Hok _ (nic_side d _ _ (xc_ok _ _ _ _ _ _ V'))) as S2. pose proof (reindexed _ _ _ _ _ _ f V' Hf S2) as V2.
  assert (Hroom : length (packets ++ reap) <= BATCH_SIZE -> dropped s2 = dropped s /\ l_count l + length rest = length packets).
  { intros Hr. destruct (sb_room _ _ _ _ _ _ _ B Hr) as (E' & Hn & _). cbn [fst snd l_count] in *. split; [congruence|lia]. }
  assert (Ed : forall g s, dropped (on_side d g s) = dropped s) by (by destruct d).
  destruct (l_index l =? l_last l).
  - eapply run_step; [reflexivity|]. apply run_ret. split; [exact V2|]. by rewrite Ed.
  - eapply run_step; [reflexivity|]. apply run_ret. split; [|by rewrite !Ed]. apply (reindexed _ _ _ _ _ _ _ V2); [done|].
    rewrite side_on. apply side_ok_indices; [exact S2|exact (sb_index _ _ _ _ _ _ _ B)|done].
Qed.

Lemma on_side_id d s : on_side d (fun sd => sd) s = s.
Proof. by destruct d, s. Qed.

Lemma tx_submit_and_poll_spec packets reap s frame : nic_ok s ((packets ++ reap) ++ frame) ->
  run (tx_submit_and_poll_rref packets reap) s (served Tx frame packets reap s).
Proof.
  intros N. unfold tx_submit_and_poll_rref. eapply run_step; [reflexivity|]. pose proof (nic_side Tx _ _ N) as S0.
  eapply run_bind; [apply (tx_submit_rref_spec packets _ s frame); [exact N|apply S0|apply S0]|]. intros [rest l] s1 B.
  pose proof (mv_ok _ _ _ _ _ _ (sb_moved _ _ _ _ _ _ _ B)) as N1. cbn [fst snd] in N1.
  assert (N1' : nic_ok s1 (l_reap l ++ rest ++ frame)) by (eapply nic_ok_perm; [|exact N1]; solve_Permutation).
  destruct (Nat.ltb_spec (length (l_reap l)) BATCH_SIZE) as [Hlt|_].
  - apply run_assoc. eapply run_bind; [apply (tx_reap_rref_spec _ _ _ s1 (rest ++ frame)); [done|exact (sb_clean _ _ _ _ _ _ _ B)|lia]|].
    intros p s2 R. pose proof (rp_clean _ _ _ _ _ _ _ R) as Hc. apply run_assoc.
    destruct (next_index_Done p.2 s2 Hc) as (c & Ec & Hc' & _). eapply run_step; [exact Ec|].
    apply run_assoc. eapply run_step; [reflexivity|]. eapply run_step; [reflexivity|].
    eapply finish_call; [exact B|apply R|apply R|exact Hc|done|]. intros sd Hs. by apply side_ok_clean.
  - eapply run_step; [reflexivity|]. rewrite <- (on_side_id Tx s1).
    eapply finish_call; [exact B|apply moved_stable; [exact N1'|apply stable_refl]|done|exact (sb_clean _ _ _ _ _ _ _ B)|done|done].
Qed.

Lemma rx_submit_and_poll_spec packets reap s frame : nic_ok s ((packets ++ reap) ++ frame) ->
  run (rx_submit_and_poll_rref packets reap) s (served Rx frame packets reap s).
Proof.
  intros N. unfold rx_submit_and_poll_rref. eapply run_step; [reflexivity|]. pose proof (nic_side Rx _ _ N) as S0.
  eapply run_bind; [apply (rx_submit_rref_spec packets _ s frame); [exact N|apply S0|apply S0]|]. intros [rest l] s1 B.
  pose proof (mv_ok _ _ _ _ _ _ (sb_moved _ _ _ _ _ _ _ B)) as N1. cbn [fst snd] in N1.
  assert (N1' : nic_ok s1 (l_reap l ++ rest ++ frame)) by (eapply nic_ok_perm; [|exact N1]; solve_Permutation).
  destruct (next_index_Done (l_clean l) s1 (sb_clean _ _ _ _ _ _ _ B)) as (c & Ec & Hc & _). eapply run_step; [exact Ec|].
  destruct (Nat.ltb_spec (length (l_reap l)) BATCH_SIZE) as [Hlt|_].
  - apply run_assoc. eapply run_bind; [apply (rx_reap_rref_spec _ _ _ s1 (rest ++ frame)); [done|done|lia]|].
    intros p s2 R. pose proof (rp_clean _ _ _ _ _ _ _ R) as Hp. rewrite <- (on_side_id Rx s2). destruct (c =? p.2).
    + eapply run_step; [reflexivity|]. eapply finish_call; [exact B|apply R|apply R|exact Hp|done|done].
    + apply run_assoc. destruct (next_index_Done p.2 (on_side Rx (fun sd => sd) s2) Hp) as (c' & Ec' & Hc' & _). eapply run_step; [exact Ec'|].
      eapply run_step; [reflexivity|]. eapply (finish_call _ _ _ _ _ _ _ _ _ _ (p.1, c')); [exact B|apply R|apply R|exact Hc'|done|done].
  - eapply run_step; [reflexivity|]. rewrite <- (on_side_id Rx s1).
    eapply (finish_call _ _ _ _ _ _ _ _ _ _ (l_reap l, c)); [exact B|apply moved_stable; [exact N1'|apply stable_refl]|done|exact Hc|done|done].
Qed.

Lemma poll_rref_spec d reap s frame : nic_ok s (reap ++ frame) ->
  run (poll_rref reap d) s (fun r s' => exchanged d frame s reap s' r.2 /\
    (reap = [] -> dropped s' = dropped s /\ r.1 = length r.2)).
Proof.
  intros N. unfold poll_rref. eapply run_bind; [apply (poll_loop_spec d _ reap 0 s frame N)|].
  { apply list.Forall_forall. intros i Hi%elem_of_seq. lia. }
  intros r s1 [V Hroom]. apply moved_exchanged in V.
  assert (Hr : reap = [] -> dropped s1 = dropped s /\ r.2 = length r.1).
  { intros ->. destruct Hroom as [E Hn]; [rewrite length_seq; done|]. cbn in Hn. split; [done|lia]. }
  destruct (0 <? r.2).
  - eapply run_step; [reflexivity|]. apply run_ret. split; [|intros Hn; destruct (Hr Hn); split; [by destruct d|done]].
    apply (reindexed _ _ _ _ _ _ _ V); [done|]. apply side_ok_clean; [eapply nic_side, V|]. eapply so_index, nic_side, V.
  - eapply run_step; [reflexivity|]. by apply run_ret.
Qed.
End Calls.

(** ** Histories

    A client owns packets, passes some of them in a call and owns what comes back. *)

Inductive nic_op :=
  | OSubmit (tx : bool) (packets reap : list Z)
  | OPoll (tx : bool) (reap : list Z).

Definition op_dir (o : nic_op) : dir := match o with OSubmit tx _ _ | OPoll tx _ => if tx then Tx else Rx end.
Definition op_held (o : nic_op) : list Z := match o with OSubmit _ packets reap => packets ++ reap | OPoll _ reap => reap end.

(** Calls that have room for everything that can come back: at most 32 packets in the two
    queues of a submission, an empty queue of 512 places for a poll. *)
Definition roomy (o : nic_op) : Prop :=
  match o with OSubmit _ packets reap => length (packets ++ reap) <= BATCH_SIZE | OPoll _ reap => reap = [] end.

Section Histories.
Context `{Profile}.

Definition nic_call (o : nic_op) : M IxgbeDevice (list Z) :=
  match o with
  | OSubmit tx packets reap => r ← submit_and_poll_rref packets reap tx; mret (r.1.2 ++ r.2)
  | OPoll tx reap => r ← poll_rref reap (if tx then Tx else Rx); mret r.2
  end.

Inductive history (m : gmap Z (list Z)) (sc : list (list event)) (pool : list Z) : IxgbeDevice -> list Z -> Prop :=
  | history_start : history m sc pool (IxgbeDevice_new m sc) pool
  | history_call s held o rest back s' : history m sc pool s held -> held ≡ₚ op_held o ++ rest ->
      nic_call o s = Done (back, s') -> history m sc pool s' (back ++ rest).

Lemma nic_call_spec o s rest : nic_ok s (op_held o ++ rest) ->
  run (nic_call o) s (fun back s' => exchanged (op_dir o) rest s (op_held o) s' back /\ (roomy o -> dropped s' = dropped s)).
Proof.
  intros N. destruct o as [tx packets reap|tx reap]; cbn [nic_call op_held op_dir roomy] in *.
  - eapply run_bind; [|intros r s' V; apply run_ret; exact V]. destruct tx; cbn [submit_and_poll_rref].
    + eapply run_mono; [by apply tx_submit_and_poll_spec|]. intros r s' [V Hr]. split; [apply V|apply Hr].
    + eapply run_mono; [by apply rx_submit_and_poll_spec|]. intros r s' [V Hr]. split; [apply V|apply Hr].
  - eapply run_bind; [|intros r s' V; apply run_ret; exact V].
    eapply run_mono; [by apply poll_rref_spec|]. intros r s' [V Hr]. split; [apply V|apply Hr].
Qed.

Lemma new_side_ok d : side_ok d new_side.
Proof.
  split; cbn [new_side ring slot rrefs buffers index_ clean_index owned]; try apply length_replicate; try done; try (unfold NUM_DESCS; lia).
  - intros i b o [-> _]%lookup_replicate [-> _]%lookup_replicate. split; [done|by intros []].
  - intros i de [H' _]%lookup_replicate. done.
  - apply Forall_replicate. intros _ Hd. discriminate Hd.
Qed.

Lemma omap_replicate_None n : omap id (replicate n (@None Z)) = [].
Proof. induction n as [|n IH]; [done|]. exact IH. Qed.

Definition pool_ok (m : gmap Z (list Z)) (sc : list (list event)) (pool : list Z) : Prop :=
  NoDup pool /\ (forall a, a ∈ pool -> exists l, m !! a = Some l /\ length l = PKT_SIZE) /\ Forall (Forall event_ok) sc.

Lemma nic_history_inv m sc pool s held : pool_ok m sc pool -> history m sc pool s held ->
  nic_ok s held /\ all_bufs s ++ held ++ dropped s ≡ₚ pool.
Proof.
  intros (Hd & Hm & Hsc) Hh. induction Hh as [|s held o rest back s' Hh [N Hp] Hheld Hcall].
  - assert (E : all_bufs (IxgbeDevice_new m sc) = []) by (unfold all_bufs, bufs_of; cbn [IxgbeDevice_new transmit receive new_side rrefs];
      by rewrite omap_replicate_None).
    split; [|by rewrite E, app_nil_r]. split; rewrite ?E; try apply new_side_ok; done.
  - rewrite Hheld in N. destruct (nic_call_spec o s rest N) as (back' & s'' & Hc & V & _). rewrite Hcall in Hc. injection Hc as <- <-.
    split; [apply V|]. rewrite <- Hp, Hheld, !(all_bufs_side (op_dir o)). pose proof (xc_kept _ _ _ _ _ _ V) as Hk.
    unfold bufs_of at 2 4. rewrite (xc_other _ _ _ _ _ _ V). set (x := omap id _) in *.
    transitivity (x ++ rest ++ bufs_of (side (op_dir o) s') ++ back ++ dropped s'); [solve_Permutation|]. rewrite Hk. solve_Permutation.
Qed.

(** C16: in every history of calls of the driver, with the card completing descriptors at
    every point, no packet exists twice: each packet there was at first is in a ring, with
    the client or among those the driver dropped because a queue of the client was full.  A
    call with room for what comes back, that is at most 32 packets in its two queues or an
    empty queue to poll into, drops none.  Every permitted call returns, and neither it nor
    the card touches a packet that the client kept or the ring of the other direction. *)
Theorem nic_history_safe m sc pool s held : pool_ok m sc pool -> history m sc pool s held ->
  all_bufs s ++ held ++ dropped s ≡ₚ pool /\
  forall o rest, held ≡ₚ op_held o ++ rest -> exists back s', nic_call o s = Done (back, s') /\
    (forall a, a ∈ rest -> memory s' !! a = memory s !! a) /\
    rrefs (side (other (op_dir o)) s') = rrefs (side (other (op_dir o)) s) /\
    (roomy o -> dropped s' = dropped s).
Proof.
  intros Hpool Hh. destruct (nic_history_inv _ _ _ _ _ Hpool Hh) as [N Hp]. split; [done|]. intros o rest Hheld. rewrite Hheld in N.
  destruct (nic_call_spec o s rest N) as (back & s' & Hc & V & Hr). exists back, s'. split_and!; [done|apply V|apply V|done].
Qed.

(** A call of [submit_and_poll_rref] with at most 32 packets in both queues drops
    nothing: it reports how many packets it took and returns the others. *)
Theorem nic_submit_exact m sc pool s held tx packets reap rest : pool_ok m sc pool -> history m sc pool s held ->
  held ≡ₚ (packets ++ reap) ++ rest -> length (packets ++ reap) <= BATCH_SIZE ->
  exists n packets' reap' s', submit_and_poll_rref packets reap tx s = Done (n, packets', reap', s') /\
    dropped s' = dropped s /\ n + length packets' = length packets /\
    bufs_of (side (if tx then Tx else Rx) s') ++ packets' ++ reap' ≡ₚ bufs_of (side (if tx then Tx else Rx) s) ++ packets ++ reap.
Proof.
  intros Hpool Hh Hheld Hr. destruct (nic_history_inv _ _ _ _ _ Hpool Hh) as [N _]. rewrite Hheld in N.
  assert (Hs : run (submit_and_poll_rref packets reap tx) s (served (if tx then Tx else Rx) rest packets reap s))
    by (destruct tx; [by apply tx_submit_and_poll_spec|by apply rx_submit_and_poll_spec]).
  destruct Hs as ([[n packets'] reap'] & s' & Hc & V & Hroom). destruct (Hroom Hr) as [E Hn]. cbn [fst snd] in *.
  exists n, packets', reap', s'. split_and!; [done|done|done|]. pose proof (xc_kept _ _ _ _ _ _ V) as Hk. rewrite E, !(app_assoc _ _ (dropped s)) in Hk.
  by apply Permutation_app_inv_r in Hk.
Qed.
End Histories.

(** Two packets are sent; the card completes the first before the next call. *)
Definition sample_mem : gmap Z (list Z) := list_to_map ((fun a => (a, replicate PKT_SIZE 0%Z)) <$> [1%Z; 2%Z; 3%Z]).
Definition sample_script : list (list event) := [[]; []; [Complete Tx 0 (mkDesc 0 (Z.shiftl 1 32)) []]].

Lemma sample_pool_ok : pool_ok sample_mem sample_script [1%Z; 2%Z; 3%Z].
Proof.
  split_and!.
  - by apply (bool_decide_unpack _).
  - intros a Ha. exists (replicate PKT_SIZE 0%Z). split; [|apply length_replicate]. unfold sample_mem.
    repeat (apply elem_of_cons in Ha as [-> | Ha]; [vm_compute; reflexivity|]). by apply not_elem_of_nil in Ha.
  - repeat constructor; try discriminate; cbn; unfold PKT_SIZE; lia.
Qed.

Lemma nic_history_safe_witness :
  exists back s', nic_call (H := true) (OSubmit true [1%Z; 2%Z] []) (IxgbeDevice_new sample_mem sample_script) = Done (back, s') /\
    memory s' !! 3%Z = Some (replicate PKT_SIZE 0%Z) /\ dropped s' = [].
Proof.
  destruct (nic_history_safe (H := true) sample_mem sample_script [1%Z; 2%Z; 3%Z] _ _ sample_pool_ok (history_start _ _ _)) as [_ Hs].
  destruct (Hs (OSubmit true [1%Z; 2%Z] []) [3%Z] (reflexivity _)) as (back & s' & Hc & Hm & _ & Hr). exists back, s'.
  split; [exact Hc|]. split; [rewrite (Hm 3%Z); [reflexivity|left]|]. apply Hr. cbn. unfold BATCH_SIZE. lia.
Defined.

Lemma nic_submit_exact_witness :
  exists n packets' reap' s', submit_and_poll_rref (H := true) [1%Z; 2%Z] [] true (IxgbeDevice_new sample_mem sample_script)
    = Done (n, packets', reap', s') /\ n + length packets' = 2.
Proof.
  destruct (nic_submit_exact (H := true) sample_mem sample_script [1%Z; 2%Z; 3%Z] _ _ true [1%Z; 2%Z] [] [3%Z]
    sample_pool_ok (history_start _ _ _)) as (n & p & r & s' & Hc & _ & Hn & _); [reflexivity|unfold BATCH_SIZE; cbn; lia|].
  exists n, p, r, s'. split; [exact Hc|exact Hn].
Defined.
