(* ===== verification/DriverCell.v ===== *)
(** * The device cell of a driver domain
    (domains/sys/driver/ixgbe/src/lib.rs, domains/sys/driver/nvme/src/lib.rs)

    Both drivers keep their device in a [RefCell<Option<_>>] beside a flag, put it there when
    the bus probes them, and open every call of their interface by borrowing it or answering
    [UninitializedDevice].  The device is a parameter; a driver's calls are those of its device
    behind [with_device]. *)

From stdpp Require Import base list.
From stdpp Require Import options.
From S2P Require Import Prelude.

Set Default Proof Using "Type".

Inductive ErrorKind := UninitializedDevice.

Record Cell (D : Type) := mkCell { vendor_id : Z; device_id : Z; device_initialized : bool; device : option D }.
#[global] Arguments mkCell {D}.
#[global] Arguments vendor_id {D}.
#[global] Arguments device_id {D}.
#[global] Arguments device_initialized {D}.
#[global] Arguments device {D}.

Section Cell.
Context {D : Type}.

Definition active (s : Cell D) : bool := device_initialized s.
Definition get_vid (s : Cell D) : Z := vendor_id s.
Definition get_did (s : Cell D) : Z := device_id s.

(** [probe]: a device that came up is put in its cell. *)
Definition probe (dev : option D) (s : Cell D) : Cell D :=
  match dev with Some d => mkCell (vendor_id s) (device_id s) true (Some d) | None => s end.

Definition with_device {A} (m : M D A) : M (Cell D) (result ErrorKind A) := fun s =>
  match device s with
  | None => Done (Err UninitializedDevice, s)
  | Some d =>
      match m d with
      | Done (a, d) => Done (Ok a, mkCell (vendor_id s) (device_id s) (device_initialized s) (Some d))
      | Panic => Panic
      | Hang => Hang
      end
  end.

(** The flag is set exactly when there is a device. *)
Definition cell_ok (s : Cell D) : Prop := device_initialized s = bool_decide (is_Some (device s)).

Lemma probe_ok dev s : cell_ok s -> cell_ok (probe dev s).
Proof. by destruct dev. Qed.

Lemma with_device_ok {A} (m : M D A) s : cell_ok s -> ensures (with_device m) s (fun r s' =>
  cell_ok s' /\ (active s = false -> r = Err UninitializedDevice /\ s' = s)).
Proof.
  intros I r s' E. unfold with_device, cell_ok, active in *. destruct (device s) as [d|] eqn:Ed.
  - destruct (m d) as [[a d']| |]; [|done..]. injection E as <- <-. cbn [device_initialized device]. by rewrite I.
  - injection E as <- <-. by rewrite Ed.
Qed.

(** A property of the device that its calls keep is one that the domain's calls keep. *)
Lemma with_device_run {A} (m : M D A) s d post : device s = Some d -> run m d post ->
  run (with_device m) s (fun r s' => exists a d', r = Ok a /\ device s' = Some d' /\ post a d').
Proof.
  intros Ed (a & d' & E & Hp). eexists _, _. split; [unfold with_device; rewrite Ed, E; reflexivity|]. by exists a, d'.
Qed.
End Cell.
