(* ===== verification/IxgbeVec.v ===== *)
(** * The [Vec] interface of the ixgbe driver, and the driver domain
    (lib/devices/ixgbe/src/lib.rs, domains/sys/driver/ixgbe/src/lib.rs,
    domains/sys/driver/ixgbe/src/nullnet.rs)

    The older interface passes packets as [Vec<u8>].  To give a buffer back the driver
    builds a second vector over the same memory with [Vec::from_raw_parts] and then
    overwrites its own; the model keeps both, and [dropped] records the buffers that are
    freed.  Debug output is left out (the driver domain passes [debug = false]). *)

From Stdlib Require Import ZArith Lia.
From stdpp Require Import base gmap list.
From stdpp Require Import options.
From S2P Require Import Prelude DriverCell Ixgbe.

Set Default Proof Using "Type".

Section Ops.
Context `{Profile}.

Definition buffer_at (d : dir) (i : nat) : M IxgbeDevice (option Vec) := sd ← gets (side d); lift (index (buffers sd) i).

(** ** [submit] and [clean_tx_queue] *)

(** The loop of [clean_tx_queue]; at most a ring of descriptors is cleaned. *)
Fixpoint clean_loop (fuel cur clean : nat) : M IxgbeDevice nat :=
  match fuel with
  | O => hang
  | S fuel =>
      let cleanable := (Z.of_nat cur - Z.of_nat clean)%Z in
      let cleanable := (if cleanable <? 0 then cleanable + Z.of_nat NUM_DESCS else cleanable)%Z in
      if (cleanable <? Z.of_nat TX_CLEAN_BATCH)%Z then mret clean
      else
        status ← read_status Tx clean;
        if has_dd status then clean ← next_index clean; clean_loop fuel cur clean else mret clean
  end.

Definition clean_tx_queue : M IxgbeDevice nat :=
  s ← get;
  c ← clean_loop (S NUM_DESCS) (index_ (transmit s)) (transmit_clean_index s);
  _ ← modify (with_tci c); mret c.

Definition fill_tx_vec (i : nat) (packet : Vec) : M IxgbeDevice unit :=
  _ ← set_desc Tx i (write_buffer_addr (v_ptr packet));
  _ ← assign_buffer Tx i (Some packet);
  _ ← set_slot Tx i true;
  _ ← set_desc Tx i (write_cmd_type_len (tx_cmd (v_len packet)));
  _ ← set_desc Tx i (write_olinfo_status (tx_paylen (v_len packet)));
  give Tx i.

Fixpoint submit_loop (clean : nat) (packets : list Vec) (cur sent : nat) : M IxgbeDevice (list Vec * nat) :=
  match packets with
  | [] => mret ([], sent)
  | packet :: rest =>
      next ← next_index cur;
      if clean =? next then mret (packet :: rest, sent)
      else
        sd ← gets (side Tx);
        i ← next_index (index_ sd);
        _ ← modify (on_side Tx (with_index i));
        _ ← fill_tx_vec cur packet;
        submit_loop clean rest next (S sent)
  end.

Definition submit (packets : list Vec) : M IxgbeDevice (nat * list Vec) :=
  sd ← gets (side Tx);
  clean ← clean_tx_queue;
  r ← submit_loop clean packets (index_ sd) 0;
  _ ← (if 0 <? r.2 then modify (on_side Tx (fun sd => with_tail (Z.of_nat (index_ sd)) sd)) else mret tt);
  mret (r.2, r.1).

(** ** Polling *)

(** [Vec::from_raw_parts(pkt.as_mut_ptr(), len, pkt.capacity())] *)
Definition from_raw_parts (pkt : Vec) (len : nat) : Vec := mkVec (v_ptr pkt) len (v_cap pkt).

Fixpoint poll_loop (d : dir) (l : list nat) (reap : list Vec) (reaped : nat) : M IxgbeDevice (list Vec * nat) :=
  match l with
  | [] => mret (reap, reaped)
  | i :: l =>
      status ← read_status d i;
      _ ← match d with Rx => check_eop status | Tx => mret tt end;
      sl ← slot_at d i;
      if has_dd status && sl then
        o ← buffer_at d i;
        de ← desc_at d i;
        let reap := match o with
                    | Some pkt => from_raw_parts pkt (match d with Tx => v_len pkt | Rx => rx_length de end) :: reap
                    | None => reap
                    end in
        _ ← set_slot d i false;
        _ ← assign_buffer d i None;
        poll_loop d l reap (S reaped)
      else poll_loop d l reap reaped
  end.

Definition poll (reap_queue : list Vec) (d : dir) : M IxgbeDevice (nat * list Vec) :=
  r ← poll_loop d (seq 0 NUM_DESCS) reap_queue 0;
  _ ← (if 0 <? r.2 then modify (on_side d (fun sd => with_clean (index_ sd) sd)) else mret tt);
  mret (r.2, r.1).

(** ** [tx_submit_and_poll] *)

Record VLoc := mkVLoc { vl_reap : list Vec; vl_index : nat; vl_clean : nat; vl_last : nat; vl_count : nat }.

Fixpoint tx_submit_vec (packets : list Vec) (l : VLoc) : M IxgbeDevice (list Vec * VLoc) :=
  match packets with
  | [] => mret ([], l)
  | packet :: rest =>
      status ← read_status Tx (vl_index l);
      sl ← slot_at Tx (vl_index l);
      if negb (has_dd status) && sl then mret (packet :: rest, l)
      else
        p ← (if sl : bool then
               o ← buffer_at Tx (vl_index l);
               clean ← next_index (vl_clean l);
               mret (match o with Some pkt => from_raw_parts pkt (v_len packet) :: vl_reap l | None => vl_reap l end, clean)
             else mret (vl_reap l, vl_clean l));
        _ ← fill_tx_vec (vl_index l) packet;
        i ← next_index (vl_index l);
        tx_submit_vec rest (mkVLoc p.1 i p.2 (vl_index l) (S (vl_count l)))
  end.

Fixpoint tx_reap_vec (n : nat) (reap : list Vec) (clean : nat) : M IxgbeDevice (list Vec * nat) :=
  match n with
  | O => mret (reap, clean)
  | S n =>
      status ← read_status Tx clean;
      r ← (if has_dd status then
             sl ← slot_at Tx clean;
             reap ← (if sl : bool then
                       o ← buffer_at Tx clean;
                       _ ← set_slot Tx clean false;
                       _ ← assign_buffer Tx clean None;
                       mret (match o with Some pkt => from_raw_parts pkt (v_len pkt) :: reap | None => reap end)
                     else mret reap);
             clean ← next_index clean; mret (reap, clean)
           else mret (reap, clean));
      sd ← gets (side Tx);
      if (r.2 =? index_ sd) || (n =? 0) then mret r else tx_reap_vec n r.1 r.2
  end.

Definition tx_submit_and_poll (packets reap_queue : list Vec) : M IxgbeDevice (nat * list Vec * list Vec) :=
  sd ← gets (side Tx);
  let l := mkVLoc reap_queue (index_ sd) (clean_index sd) (index_ sd) 0 in
  r ← (if 0 <? length packets then
         r ← tx_submit_vec packets l;
         if length (vl_reap r.2) <? BATCH_SIZE then
           p ← tx_reap_vec (BATCH_SIZE - length (vl_reap r.2)) (vl_reap r.2) (vl_clean r.2);
           c ← next_index p.2;
           _ ← modify (on_side Tx (with_clean c));
           mret (r.1, mkVLoc p.1 (vl_index r.2) p.2 (vl_last r.2) (vl_count r.2))
         else mret r
       else mret (packets, l));
  let l := r.2 : VLoc in
  _ ← (if vl_index l =? vl_last l then mret tt
       else modify (on_side Tx (fun sd => with_clean (vl_clean l) (with_index (vl_index l) (with_tail (Z.of_nat (vl_index l)) sd)))));
  mret (vl_count l, r.1, vl_reap l).

(** ** [rx_submit_and_poll] *)

Definition fill_rx_vec (i : nat) (packet : Vec) : M IxgbeDevice unit :=
  _ ← set_desc Rx i (write_pkt_addr (v_ptr packet));
  _ ← set_desc Rx i (write_hdr_addr 0);
  _ ← assign_buffer Rx i (Some packet);
  _ ← set_slot Rx i true;
  give Rx i.

Fixpoint rx_submit_vec (packets : list Vec) (l : VLoc) : M IxgbeDevice (list Vec * VLoc) :=
  match packets with
  | [] => mret ([], l)
  | packet :: rest =>
      status ← read_status Rx (vl_index l);
      sl ← slot_at Rx (vl_index l);
      if negb (has_dd status) && sl then mret (packet :: rest, l)
      else
        _ ← check_eop status;
        de ← desc_at Rx (vl_index l);
        p ← (if sl : bool then
               o ← buffer_at Rx (vl_index l);
               reap ← match o with
                      | Some pkt =>
                          _ ← assign_buffer Rx (vl_index l) None;
                          mret (if rx_length de <=? v_cap pkt then vl_reap l ++ [from_raw_parts pkt (rx_length de)] else vl_reap l)
                      | None => mret (vl_reap l)
                      end;
               _ ← set_slot Rx (vl_index l) false;
               clean ← next_index (vl_clean l);
               mret (reap, clean)
             else mret (vl_reap l, vl_clean l));
        _ ← fill_rx_vec (vl_index l) packet;
        i ← next_index (vl_index l);
        rx_submit_vec rest (mkVLoc p.1 i p.2 (vl_index l) (S (vl_count l)))
  end.

Fixpoint rx_reap_vec (n : nat) (reap : list Vec) (clean : nat) : M IxgbeDevice (list Vec * nat) :=
  match n with
  | O => mret (reap, clean)
  | S n =>
      status ← read_status Rx clean;
      if has_dd status then
        _ ← check_eop status;
        sl ← slot_at Rx clean;
        r ← (if sl : bool then
               o ← buffer_at Rx clean;
               de ← desc_at Rx clean;
               _ ← set_slot Rx clean false;
               _ ← assign_buffer Rx clean None;
               clean ← next_index clean;
               mret (match o with Some pkt => reap ++ [from_raw_parts pkt (rx_length de)] | None => reap end, clean)
             else mret (reap, clean));
        sd ← gets (side Rx);
        if (r.2 =? index_ sd) || (n =? 0) then mret r else rx_reap_vec n r.1 r.2
      else mret (reap, clean)
  end.

Definition rx_submit_and_poll (packets reap_queue : list Vec) : M IxgbeDevice (nat * list Vec * list Vec) :=
  sd ← gets (side Rx);
  r ← rx_submit_vec packets (mkVLoc reap_queue (index_ sd) (clean_index sd) (index_ sd) 0);
  let l := r.2 : VLoc in
  clean ← next_index (vl_clean l);
  p ← (if length (vl_reap l) <? BATCH_SIZE then
         p ← rx_reap_vec (BATCH_SIZE - length (vl_reap l)) (vl_reap l) clean;
         if clean =? p.2 then mret p else c ← next_index p.2; mret (p.1, c)
       else mret (vl_reap l, clean));
  _ ← (if vl_index l =? vl_last l then mret tt
       else modify (on_side Rx (fun sd => with_clean p.2 (with_index (vl_index l) (with_tail (Z.of_nat (vl_last l)) sd)))));
  mret (vl_count l, r.1, p.1).

Definition submit_and_poll (packets reap_queue : list Vec) (tx : bool) : M IxgbeDevice (nat * list Vec * list Vec) :=
  if tx then tx_submit_and_poll packets reap_queue else rx_submit_and_poll packets reap_queue.
End Ops.

(** ** What comes back is freed memory *)

(** From [s] to [s'] the queue [reap] grew to [reap']: what is new in it points to memory
    that was freed, and what was freed stays so. *)
Definition freed (s : IxgbeDevice) (reap : list Vec) (s' : IxgbeDevice) (reap' : list Vec) : Prop :=
  dropped s ⊆ dropped s' /\ forall v, v ∈ reap' -> v ∈ reap \/ v_ptr v ∈ dropped s'.

Lemma freed_refl s reap : freed s reap s reap.
Proof. split; [done|by left]. Qed.
Lemma freed_trans s1 r1 s2 r2 s3 r3 : freed s1 r1 s2 r2 -> freed s2 r2 s3 r3 -> freed s1 r1 s3 r3.
Proof.
  intros [A1 A2] [B1 B2]. split; [by transitivity (dropped s2)|]. intros v Hv. destruct (B2 v Hv) as [Hv'|?]; [|by right].
  destruct (A2 v Hv') as [?|Hd]; [by left|right; by apply B1].
Qed.
Lemma freed_same s s' reap : dropped s' = dropped s -> freed s reap s' reap.
Proof. intros E. split; [by rewrite E|by left]. Qed.

(** The buffer [o] is freed and given back. *)
Lemma freed_back s s' reap o reap' : dropped s' = dropped s ++ buf_list (v_ptr <$> o) ->
  (forall v, v ∈ reap' -> v ∈ reap \/ exists pkt, o = Some pkt /\ v_ptr v = v_ptr pkt) -> freed s reap s' reap'.
Proof.
  intros E Hr. split; [rewrite E; set_solver|]. intros v Hv. destruct (Hr v Hv) as [?|(pkt & -> & Ev)]; [by left|right].
  rewrite E, Ev. apply elem_of_app. right. cbn. by left.
Qed.

Lemma card_events_dropped es s : dropped (card_events es s) = dropped s.
Proof.
  revert s. induction es as [|e es IH]; intros s; [done|]. unfold card_events in *. cbn [foldl]. rewrite IH.
  unfold card_event. case_decide; [|done]. destruct (ring _ !! _); [|done]. by destruct (e_dir e).
Qed.
Lemma tick_dropped s : ensures tick s (fun _ s' => dropped s' = dropped s).
Proof. intros [] s' E. injection E as <-. destruct (script s); [done|]. by rewrite card_events_dropped. Qed.

Lemma read_status_dropped d i s : ensures (read_status d i) s (fun _ s' => dropped s' = dropped s).
Proof.
  eapply ensures_bind; [apply tick_dropped|]. intros [] s1 E. unfold desc_at.
  intros st s' R. rewrite bind_assoc, bind_gets in R. minv R. injection R as <- <-. unfold lift in E0. destruct (index _ _); [|done..]. by injection E0 as _ <-.
Qed.

Lemma pure_same {A} (o : outcome A) (s : IxgbeDevice) : ensures (lift o) s (fun _ s' => s' = s).
Proof. by apply ensures_lift. Qed.
Lemma slot_at_same d i s : ensures (slot_at d i) s (fun _ s' => s' = s).
Proof. intros b s' E. unfold slot_at in E. rewrite bind_gets in E. by apply pure_same in E. Qed.
Lemma desc_at_same d i s : ensures (desc_at d i) s (fun _ s' => s' = s).
Proof. intros b s' E. unfold desc_at in E. rewrite bind_gets in E. by apply pure_same in E. Qed.
Lemma check_eop_same st s : ensures (check_eop st) s (fun _ s' => s' = s).
Proof. intros [] s' E. unfold check_eop, assert in E. destruct (negb _); [by injection E as <-|done]. Qed.
Lemma buffer_at_same d i s : ensures (buffer_at d i) s (fun o s' => s' = s /\ buffers (side d s) !! i = Some o).
Proof.
  intros o s' E. unfold buffer_at in E. rewrite bind_gets in E. unfold lift in E. destruct (index _ _) as [x| |] eqn:Ex; [|done..].
  injection E as <- <-. split; [done|]. by apply index_Done.
Qed.

Lemma assign_buffer_dropped d i o s : ensures (assign_buffer d i o) s (fun _ s' => exists old,
  buffers (side d s) !! i = Some old /\ dropped s' = dropped s ++ buf_list (v_ptr <$> old)).
Proof.
  intros [] s' E. unfold assign_buffer in E. rewrite bind_gets in E. destruct (index (buffers (side d s)) i) as [old| |] eqn:Ho; [|done..].
  rewrite bind_lift, bind_modify, drop_opt_Done in E. injection E as <-. exists old. split; [by apply index_Done|by destruct d].
Qed.

(** Updates that leave the buffers and what is freed. *)
Definition quiet {A} (m : M IxgbeDevice A) : Prop :=
  forall s, ensures m s (fun _ s' => dropped s' = dropped s /\ forall d, buffers (side d s') = buffers (side d s)).

Lemma quiet_modify d f : (forall sd, buffers (f sd) = buffers sd) -> quiet (modify (on_side d f)).
Proof. intros Hf s [] s' E. injection E as <-. split; [by destruct d|]. intros d'. destruct d, d'; cbn; by rewrite ?Hf. Qed.
Lemma quiet_bind {A B} (m : M IxgbeDevice A) (k : A -> M IxgbeDevice B) : quiet m -> (forall a, quiet (k a)) -> quiet (m ≫= k).
Proof.
  intros Hm Hk s. eapply ensures_bind; [apply Hm|]. intros a s1 [E1 B1]. eapply ensures_mono; [apply Hk|].
  intros b s2 [E2 B2]. split; [congruence|]. intros d. by rewrite B2, B1.
Qed.
Lemma quiet_lift {A} (o : outcome A) : quiet (lift o).
Proof. intros s. eapply ensures_mono; [apply pure_same|]. by intros a s' ->. Qed.
Lemma quiet_ret {A} (a : A) : quiet (mret a).
Proof. intros s. by apply ensures_ret. Qed.
#[local] Hint Resolve quiet_bind quiet_lift quiet_ret : core.

Section Freed.
Context `{Profile}.

Lemma next_quiet i : quiet (next_index i).
Proof. apply quiet_lift. Qed.
Lemma set_slot_quiet d i b : quiet (set_slot d i b).
Proof. by apply quiet_modify. Qed.
Lemma set_desc_quiet d i f : quiet (set_desc d i f).
Proof. by apply quiet_modify. Qed.
Lemma give_quiet d i : quiet (give d i).
Proof. by apply quiet_modify. Qed.

(** An assignment between quiet updates. *)
Lemma assign_between {A} (m1 : M IxgbeDevice A) (m2 : M IxgbeDevice unit) d i o s : quiet m1 -> quiet m2 ->
  ensures (_ ← m1; _ ← assign_buffer d i o; m2) s (fun _ s' => exists old,
    buffers (side d s) !! i = Some old /\ dropped s' = dropped s ++ buf_list (v_ptr <$> old)).
Proof.
  intros Q1 Q2. eapply ensures_bind; [apply Q1|]. intros a s1 [E1 B1].
  eapply ensures_bind; [apply assign_buffer_dropped|]. intros [] s2 (old & Ho & E2).
  eapply ensures_mono; [apply Q2|]. intros [] s3 [E3 _]. exists old. by rewrite E3, E2, E1, <- B1.
Qed.

Lemma fill_tx_dropped i p s : ensures (fill_tx_vec i p) s (fun _ s' => exists old,
  buffers (side Tx s) !! i = Some old /\ dropped s' = dropped s ++ buf_list (v_ptr <$> old)).
Proof.
  unfold fill_tx_vec. apply (assign_between (set_desc Tx i _)); [apply set_desc_quiet|].
  repeat (apply quiet_bind; [apply set_slot_quiet || apply set_desc_quiet|intros []]). apply give_quiet.
Qed.
Lemma fill_rx_dropped i p s : ensures (fill_rx_vec i p) s (fun _ s' => exists old,
  buffers (side Rx s) !! i = Some old /\ dropped s' = dropped s ++ buf_list (v_ptr <$> old)).
Proof.
  unfold fill_rx_vec. eapply ensures_bind; [apply set_desc_quiet|]. intros [] s1 [E1 B1].
  eapply ensures_mono; [apply (assign_between (set_desc Rx i _) (_ ← set_slot Rx i true; give Rx i))|].
  - apply set_desc_quiet.
  - apply quiet_bind; [apply set_slot_quiet|intros []; apply give_quiet].
  - intros [] s' (old & Ho & ->). exists old. by rewrite E1, <- B1.
Qed.

Lemma poll_loop_freed d l reap n s : ensures (poll_loop d l reap n) s (fun r s' => freed s reap s' r.1).
Proof.
  revert reap n s. induction l as [|i l IH]; intros reap n s; cbn [poll_loop]; [apply ensures_ret, freed_refl|].
  eapply ensures_bind; [apply read_status_dropped|]. intros st s1 E1.
  eapply ensures_bind with (mid := fun _ s' => s' = s1); [destruct d; [by apply ensures_ret|apply check_eop_same]|]. intros [] _ ->.
  eapply ensures_bind; [apply slot_at_same|]. intros sl _ ->. destruct (_ && _).
  - eapply ensures_bind; [apply buffer_at_same|]. intros o _ [-> Ho]. eapply ensures_bind; [apply desc_at_same|]. intros de _ ->.
    eapply ensures_bind; [apply set_slot_quiet|]. intros [] s2 [E2 B2].
    eapply ensures_bind; [apply assign_buffer_dropped|]. intros [] s3 (o' & Ho' & E3). rewrite B2, Ho in Ho'. injection Ho' as <-.
    eapply ensures_mono; [apply IH|]. intros r s' F. eapply freed_trans; [|exact F]. apply (freed_back s s3 reap o); [by rewrite E3, E2, E1|].
    intros v Hv. destruct o as [pkt|]; [|by left]. apply elem_of_cons in Hv as [-> | Hv]; [right; by exists pkt|by left].
  - eapply ensures_mono; [apply IH|]. intros r s' F. eapply freed_trans; [apply freed_same; exact E1|exact F].
Qed.

Lemma tx_submit_freed packets l s : ensures (tx_submit_vec packets l) s (fun r s' => freed s (vl_reap l) s' (vl_reap r.2)).
Proof.
  revert l s. induction packets as [|packet rest IH]; intros l s; cbn [tx_submit_vec]; [apply ensures_ret, freed_refl|].
  eapply ensures_bind; [apply read_status_dropped|]. intros st s1 E1. eapply ensures_bind; [apply slot_at_same|]. intros sl _ ->.
  destruct (_ && _); [apply ensures_ret; by apply freed_same|].
  eapply ensures_bind with (mid := fun p s' => s' = s1 /\ forall o, buffers (side Tx s1) !! vl_index l = Some o ->
    forall v, v ∈ p.1 -> v ∈ vl_reap l \/ exists pkt, o = Some pkt /\ v_ptr v = v_ptr pkt).
  { destruct sl; [|apply ensures_ret; split; [done|by left]].
    eapply ensures_bind; [apply buffer_at_same|]. intros o _ [-> Ho]. eapply ensures_bind; [apply pure_same|]. intros c _ ->.
    apply ensures_ret. split; [done|]. intros o' Ho' v Hv. rewrite Ho in Ho'. injection Ho' as <-. cbn [fst] in Hv.
    destruct o as [pkt|]; [|by left]. apply elem_of_cons in Hv as [-> | Hv]; [right; by exists pkt|by left]. }
  intros p _ [-> Hp]. eapply ensures_bind; [apply fill_tx_dropped|]. intros [] s2 (o & Ho & E2).
  eapply ensures_bind; [apply next_quiet|]. intros i s3 [E3 _]. eapply ensures_mono; [apply IH|]. intros r s' F.
  eapply freed_trans; [|exact F]. apply (freed_back s s3 (vl_reap l) o); [by rewrite E3, E2, E1|by apply Hp].
Qed.

(** The end of a round of a reaping loop. *)
Lemma reap_freed d (loop : list Vec -> nat -> M IxgbeDevice (list Vec * nat)) n reap s r s1 :
  (forall reap clean s, ensures (loop reap clean) s (fun r s' => freed s reap s' r.1)) -> freed s reap s1 r.1 ->
  ensures (sd ← gets (side d); if (r.2 =? index_ sd) || (n =? 0) then mret r else loop r.1 r.2) s1 (fun r s' => freed s reap s' r.1).
Proof.
  intros IH F x s' E. rewrite bind_gets in E. destruct (_ || _); [by injection E as <- <-|].
  eapply freed_trans; [exact F|]. by apply IH in E.
Qed.

Lemma tx_reap_freed n reap clean s : ensures (tx_reap_vec n reap clean) s (fun r s' => freed s reap s' r.1).
Proof.
  revert reap clean s. induction n as [|n IH]; intros reap clean s; cbn [tx_reap_vec]; [apply ensures_ret, freed_refl|].
  eapply ensures_bind; [apply read_status_dropped|]. intros st s1 E1.
  eapply ensures_bind with (mid := fun r s' => freed s reap s' r.1); [|intros r s2 F; by apply (reap_freed Tx (tx_reap_vec n))].
  destruct (has_dd st); [|apply ensures_ret; by apply freed_same].
  eapply ensures_bind; [apply slot_at_same|]. intros sl _ ->.
  eapply ensures_bind with (mid := fun reap' s' => freed s reap s' reap').
  { destruct sl; [|apply ensures_ret; by apply freed_same]. eapply ensures_bind; [apply buffer_at_same|]. intros o _ [-> Ho].
    eapply ensures_bind; [apply set_slot_quiet|]. intros [] s2 [E2 B2].
    eapply ensures_bind; [apply assign_buffer_dropped|]. intros [] s3 (o' & Ho' & E3). rewrite B2, Ho in Ho'. injection Ho' as <-.
    apply ensures_ret. apply (freed_back s s3 reap o); [by rewrite E3, E2, E1|]. intros v Hv.
    destruct o as [pkt|]; [|by left]. apply elem_of_cons in Hv as [-> | Hv]; [right; by exists pkt|by left]. }
  intros reap' s2 F. eapply ensures_bind; [apply pure_same|]. intros c _ ->. by apply ensures_ret.
Qed.

Lemma rx_submit_freed packets l s : ensures (rx_submit_vec packets l) s (fun r s' => freed s (vl_reap l) s' (vl_reap r.2)).
Proof.
  revert l s. induction packets as [|packet rest IH]; intros l s; cbn [rx_submit_vec]; [apply ensures_ret, freed_refl|].
  eapply ensures_bind; [apply read_status_dropped|]. intros st s1 E1. eapply ensures_bind; [apply slot_at_same|]. intros sl _ ->.
  destruct (_ && _); [apply ensures_ret; by apply freed_same|].
  eapply ensures_bind; [apply check_eop_same|]. intros [] _ ->. eapply ensures_bind; [apply desc_at_same|]. intros de _ ->.
  eapply ensures_bind with (mid := fun p s' => freed s1 (vl_reap l) s' p.1).
  { destruct sl; [|apply ensures_ret, freed_refl]. eapply ensures_bind; [apply buffer_at_same|]. intros o _ [-> Ho].
    eapply ensures_bind with (mid := fun reap s' => freed s1 (vl_reap l) s' reap).
    - destruct o as [pkt|]; [|apply ensures_ret, freed_refl]. eapply ensures_bind; [apply assign_buffer_dropped|].
      intros [] s2 (o' & Ho' & E2). rewrite Ho in Ho'. injection Ho' as <-. apply ensures_ret.
      apply (freed_back s1 s2 _ (Some pkt)); [done|]. intros v Hv. destruct (_ <=? _); [|by left].
      apply elem_of_app in Hv as [Hv | ->%list_elem_of_singleton]; [by left|right; by exists pkt].
    - intros reap s2 F. eapply ensures_bind; [apply set_slot_quiet|]. intros [] s3 [E3 _]. eapply ensures_bind; [apply pure_same|].
      intros c _ ->. apply ensures_ret. eapply freed_trans; [exact F|by apply freed_same]. }
  intros p s2 F2. eapply ensures_bind; [apply fill_rx_dropped|]. intros [] s3 (o & Ho & E3).
  eapply ensures_bind; [apply next_quiet|]. intros i s4 [E4 _]. eapply ensures_mono; [apply IH|]. intros r s' F.
  eapply freed_trans; [apply (freed_same s s1); exact E1|]. eapply freed_trans; [exact F2|]. eapply freed_trans; [|exact F].
  apply (freed_back s2 s4 _ o); [by rewrite E4, E3|by left].
Qed.

Lemma rx_reap_freed n reap clean s : ensures (rx_reap_vec n reap clean) s (fun r s' => freed s reap s' r.1).
Proof.
  revert reap clean s. induction n as [|n IH]; intros reap clean s; cbn [rx_reap_vec]; [apply ensures_ret, freed_refl|].
  eapply ensures_bind; [apply read_status_dropped|]. intros st s1 E1. destruct (has_dd st); [|apply ensures_ret; by apply freed_same].
  eapply ensures_bind; [apply check_eop_same|]. intros [] _ ->. eapply ensures_bind; [apply slot_at_same|]. intros sl _ ->.
  eapply ensures_bind with (mid := fun r s' => freed s reap s' r.1); [|intros r s2 F; by apply (reap_freed Rx (rx_reap_vec n))].
  destruct sl; [|apply ensures_ret; by apply freed_same]. eapply ensures_bind; [apply buffer_at_same|]. intros o _ [-> Ho].
  eapply ensures_bind; [apply desc_at_same|]. intros de _ ->. eapply ensures_bind; [apply set_slot_quiet|]. intros [] s2 [E2 B2].
  eapply ensures_bind; [apply assign_buffer_dropped|]. intros [] s3 (o' & Ho' & E3). rewrite B2, Ho in Ho'. injection Ho' as <-.
  eapply ensures_bind; [apply pure_same|]. intros c _ ->. apply ensures_ret. apply (freed_back s s3 reap o); [by rewrite E3, E2, E1|].
  intros v Hv. cbn [fst] in Hv. destruct o as [pkt|]; [|by left].
  apply elem_of_app in Hv as [Hv | ->%list_elem_of_singleton]; [by left|right; by exists pkt].
Qed.

Lemma tx_call_freed packets reap s : ensures (tx_submit_and_poll packets reap) s (fun r s' => freed s reap s' r.2).
Proof.
  unfold tx_submit_and_poll. eapply ensures_bind with (mid := fun sd s' => s' = s); [by intros ? ? [= <- <-]|]. intros sd _ ->.
  eapply ensures_bind with (mid := fun r s' => freed s reap s' (vl_reap r.2)).
  - destruct (0 <? length packets); [|apply ensures_ret, freed_refl]. eapply ensures_bind; [apply tx_submit_freed|]. intros r s1 F1.
    destruct (_ <? _); [|by apply ensures_ret]. eapply ensures_bind; [apply tx_reap_freed|]. intros p s2 F2.
    eapply ensures_bind; [apply next_quiet|]. intros c s3 [E3 _]. eapply ensures_bind; [by apply (quiet_modify Tx)|]. intros [] s4 [E4 _].
    apply ensures_ret. eapply freed_trans; [exact F1|]. eapply freed_trans; [exact F2|]. apply freed_same. congruence.
  - intros r s1 F. eapply ensures_bind with (mid := fun _ s' => dropped s' = dropped s1).
    + destruct (_ =? _); [by apply ensures_ret|]. eapply ensures_mono; [by apply (quiet_modify Tx)|]. by intros [] s2 [E _].
    + intros [] s2 E. apply ensures_ret. eapply freed_trans; [exact F|by apply freed_same].
Qed.

Lemma rx_call_freed packets reap s : ensures (rx_submit_and_poll packets reap) s (fun r s' => freed s reap s' r.2).
Proof.
  unfold rx_submit_and_poll. eapply ensures_bind with (mid := fun sd s' => s' = s); [by intros ? ? [= <- <-]|]. intros sd _ ->.
  eapply ensures_bind; [apply rx_submit_freed|]. intros r s1 F1. eapply ensures_bind; [apply pure_same|]. intros c _ ->.
  eapply ensures_bind with (mid := fun p s' => freed s reap s' p.1).
  - destruct (_ <? _); [|by apply ensures_ret]. eapply ensures_bind; [apply rx_reap_freed|]. intros p s2 F2.
    pose proof (freed_trans _ _ _ _ _ _ F1 F2) as F. destruct (_ =? _); [by apply ensures_ret|].
    eapply ensures_bind; [apply pure_same|]. intros c' _ ->. by apply ensures_ret.
  - intros p s2 F. eapply ensures_bind with (mid := fun _ s' => dropped s' = dropped s2).
    + destruct (_ =? _); [by apply ensures_ret|]. eapply ensures_mono; [by apply (quiet_modify Rx)|]. by intros [] s3 [E _].
    + intros [] s3 E. apply ensures_ret. eapply freed_trans; [exact F|by apply freed_same].
Qed.

(** C17: every buffer that the [Vec] interface gives back is memory that the driver has
    freed: the vector it builds over the buffer does not own it, and the driver drops the
    vector that does. *)
Theorem vec_reaped_is_freed (tx : bool) (packets reap : list Vec) s n packets' reap' s' :
  submit_and_poll packets reap tx s = Done (n, packets', reap', s') ->
  forall v, v ∈ reap' -> v ∈ reap \/ v_ptr v ∈ dropped s'.
Proof. destruct tx; intros E; [apply tx_call_freed in E|apply rx_call_freed in E]; apply E. Qed.
End Freed.

(** One packet is submitted, and the card completes it before the driver looks again. *)
Definition completes_at_once : IxgbeDevice := IxgbeDevice_new ∅ [[]; [Complete Tx 0 (mkDesc 0 (Z.shiftl 1 32)) []]].

Lemma vec_reaped_is_freed_witness :
  exists s', submit_and_poll (H := true) [mkVec 4096 64 2048] [] true completes_at_once = Done (1, [], [mkVec 4096 64 2048], s') /\
    4096%Z ∈ dropped s'.
Proof.
  assert (Es : shows (submit_and_poll (H := true) [mkVec 4096 64 2048] [] true completes_at_once) = Done (1, [], [mkVec 4096 64 2048]))
    by (vm_compute; reflexivity).
  destruct (submit_and_poll (H := true) [mkVec 4096 64 2048] [] true completes_at_once) as [[[[n p] r] s']| |] eqn:E; [|discriminate Es..].
  cbn [shows] in Es. injection Es as -> -> ->. exists s'. split; [reflexivity|].
  destruct (vec_reaped_is_freed (H := true) true _ _ _ _ _ _ _ E (mkVec 4096 64 2048)) as [Hv|Hv]; [left| |exact Hv].
  destruct (not_elem_of_nil _ Hv).
Defined.

(** ** [submit] *)

Section Submit.
Context `{Profile}.

Definition tx_ready (s : IxgbeDevice) : Prop :=
  length (ring (transmit s)) = NUM_DESCS /\ index_ (transmit s) < NUM_DESCS /\ transmit_clean_index s < NUM_DESCS.

Lemma card_events_ready es s : let s' := card_events es s in
  length (ring (transmit s')) = length (ring (transmit s)) /\ index_ (transmit s') = index_ (transmit s) /\
  transmit_clean_index s' = transmit_clean_index s.
Proof.
  revert s. induction es as [|e es IH]; intros s; [done|]. unfold card_events in *. cbn [foldl]. destruct (IH (card_event e s)) as (A & B & C).
  cbn zeta. rewrite A, B, C. unfold card_event. case_decide; [|done]. destruct (ring _ !! _); [|done].
  destruct (e_dir e); cbn [on_side transmit with_owned with_ring ring index_ transmit_clean_index with_memory]; by rewrite ?length_insert.
Qed.

Lemma read_status_ready i s : length (ring (transmit s)) = NUM_DESCS -> i < NUM_DESCS ->
  run (read_status Tx i) s (fun _ s' => length (ring (transmit s')) = NUM_DESCS /\ index_ (transmit s') = index_ (transmit s) /\
    transmit_clean_index s' = transmit_clean_index s).
Proof.
  intros Hl Hi. unfold read_status, tick. rewrite <- Hl. eapply run_step; [reflexivity|].
  assert (Hs : exists s1, s1 = match script s with [] => s | es :: sc => card_events es (with_script sc s) end /\
    length (ring (transmit s1)) = length (ring (transmit s)) /\ index_ (transmit s1) = index_ (transmit s) /\
    transmit_clean_index s1 = transmit_clean_index s).
  { eexists. split; [reflexivity|]. destruct (script s) as [|es sc]; [done|]. apply (card_events_ready es (with_script sc s)). }
  destruct Hs as (s1 & <- & A & B & C). destruct (lookup_lt_is_Some_2 (ring (transmit s1)) i) as [de Hde]; [lia|].
  unfold desc_at. apply run_assoc. eapply run_step; [reflexivity|]. eapply run_lift; [by apply index_Some|]. by apply run_ret.
Qed.

(** How many descriptors [clean_loop] has in front of it. *)
Definition ahead (cur clean : nat) : nat := if cur <? clean then cur + NUM_DESCS - clean else cur - clean.

Lemma next_index_succ i : i < NUM_DESCS -> wrap_ring i NUM_DESCS = Done (if decide (i = 511) then 0 else S i).
Proof.
  intros Hi. unfold wrap_ring, uadd, usub, NUM_DESCS in *. rewrite checked_ok by (unfold in_width; lia). cbn [mbind outcome_bind].
  rewrite checked_ok by (unfold in_width; lia). cbn [mbind outcome_bind]. change (Z.of_nat 512 - 1)%Z with (Z.ones 9).
  rewrite Z.land_ones by lia. change (2 ^ 9)%Z with 512%Z. destruct (decide (i = 511)) as [->|]; [reflexivity|].
  rewrite Z.mod_small by lia. f_equal. lia.
Qed.

Lemma clean_loop_returns fuel cur clean s : tx_ready s -> cur < NUM_DESCS -> clean < NUM_DESCS -> ahead cur clean < fuel ->
  run (clean_loop fuel cur clean) s (fun c s' => c < NUM_DESCS /\ ahead cur c <= ahead cur clean /\
    Nat.min (TX_CLEAN_BATCH - 1) (ahead cur clean) <= ahead cur c /\ index_ (transmit s') = index_ (transmit s)).
Proof.
  revert clean s. induction fuel as [|fuel IH]; intros clean s (Hl & Hi & Ht) Hcur Hc Hf; [lia|]. cbn [clean_loop].
  assert (E : ((if Z.of_nat cur - Z.of_nat clean <? 0 then Z.of_nat cur - Z.of_nat clean + Z.of_nat NUM_DESCS else Z.of_nat cur - Z.of_nat clean)
    = Z.of_nat (ahead cur clean))%Z).
  { unfold ahead, NUM_DESCS in *. destruct (Z.ltb_spec (Z.of_nat cur - Z.of_nat clean) 0), (Nat.ltb_spec cur clean); lia. }
  rewrite E. destruct (Z.ltb_spec (Z.of_nat (ahead cur clean)) (Z.of_nat TX_CLEAN_BATCH)) as [Hlt|Hge].
  { apply run_ret. split_and!; [done|lia|lia|done]. }
  eapply run_bind; [by apply read_status_ready|]. intros st s1 (Hl1 & Hi1 & Ht1). destruct (has_dd st).
  - unfold next_index. eapply run_lift; [by apply next_index_succ|]. set (c := if decide (clean = 511) then 0 else S clean).
    assert (Ha : S (ahead cur c) = ahead cur clean /\ c < NUM_DESCS).
    { unfold c, ahead, NUM_DESCS, TX_CLEAN_BATCH in *. destruct (Nat.ltb_spec cur clean), (decide (clean = 511)); zcase; lia. }
    destruct Ha as [Ha Hc']. eapply run_mono; [apply IH; [unfold tx_ready; rewrite Hi1, Ht1; done|done|done|lia]|].
    intros c' s' (Hc2 & Hle & Hb & Hi2). split_and!; [done|lia|unfold TX_CLEAN_BATCH in *; lia|congruence].
  - apply run_ret. split_and!; [done|lia|lia|done].
Qed.

(** [clean_tx_queue] ends; it leaves the last 31 descriptors in front of it alone. *)
Lemma clean_tx_queue_returns s : tx_ready s ->
  run clean_tx_queue s (fun c s' => c < NUM_DESCS /\ transmit_clean_index s' = c /\
    Nat.min (TX_CLEAN_BATCH - 1) (ahead (index_ (transmit s)) (transmit_clean_index s)) <= ahead (index_ (transmit s)) c
      <= ahead (index_ (transmit s)) (transmit_clean_index s)).
Proof.
  intros R. pose proof R as (Hl & Hi & Ht). unfold clean_tx_queue. eapply run_step; [reflexivity|].
  eapply run_bind; [apply clean_loop_returns; [done|done|done|]|].
  { unfold ahead, NUM_DESCS in *. destruct (Nat.ltb_spec (index_ (transmit s)) (transmit_clean_index s)); lia. }
  intros c s1 (Hc & Hle & Hb & _). eapply run_step; [reflexivity|]. by apply run_ret.
Qed.
End Submit.

(** ** The driver domain

    [IxgbeInternal] behind its lock: every call of the [Net] interface takes the device
    out of its cell or answers [UninitializedDevice]. *)

Definition IxgbeInternal : Type := Cell IxgbeDevice.
Definition IxgbeInternal_new : IxgbeInternal := mkCell 0x8086 0x10fb false None.

Section Net.
Context `{Profile}.
Definition Net_submit_and_poll (packets collect : list Vec) (tx : bool) := with_device (submit_and_poll packets collect tx).
Definition Net_submit_and_poll_rref (packets collect : list Z) (tx : bool) := with_device (submit_and_poll_rref packets collect tx).
Definition Net_poll (collect : list Vec) (tx : bool) := with_device (poll collect (if tx then Tx else Rx)).
Definition Net_poll_rref (collect : list Z) (tx : bool) := with_device (poll_rref collect (if tx then Tx else Rx)).
End Net.

(** [NullNet]: a device that gives back what it gets. *)
Fixpoint null_loop {A} (packets collect : list A) : list A :=
  match packets with [] => collect | pkt :: packets => null_loop packets (collect ++ [pkt]) end.
Definition Null_submit_and_poll (packets collect : list Vec) : nat * list Vec * list Vec :=
  (length packets, [], null_loop packets collect).

(** The queue of 32 references; a packet that finds it full is dropped. *)
Fixpoint null_loop_rref (packets collect dropped : list Z) : list Z * list Z :=
  match packets with
  | [] => (collect, dropped)
  | pkt :: packets => let r := push_back BATCH_SIZE collect pkt in null_loop_rref packets r.2 (dropped ++ buf_list r.1)
  end.
Definition Null_submit_and_poll_rref (packets collect : list Z) : (nat * list Z * list Z) * list Z :=
  let r := null_loop_rref packets collect [] in (length r.1, [], r.1, r.2).

