(* ===== verification/Nvme.v ===== *)
(** * The NVMe queues and the block driver on them
    (lib/devices/nvme/src/queue.rs, nvme_cmd.rs, lib.rs; lib/devices/libdma/src/nvme.rs)

    A submission queue and a completion queue in memory shared with the controller.  The
    driver fills command slots in ring order and rings the tail doorbell; the controller
    takes the commands, works on them and posts an entry with a phase tag for each; the
    driver reads the entries in ring order, recognises new ones by their phase tag and
    rings the head doorbell.

    The controller is not code of the repository.  It runs between any two accesses of
    the driver and is given by a script: one list of events for each time the driver reads
    a completion entry.  An event fetches the next command of the submission queue or posts
    the completion of one of the commands that were fetched.  A controller whose place in
    the submission queue is at the tail sees an empty queue; one that finds the completion
    queue full waits.  An [RRef] to
    a [BlkReq] is named by its address, which is also that of its data (its first field).
    Printing is left out; [dropped] lists the requests whose last owner was the driver. *)

From Stdlib Require Import ZArith Lia.
From stdpp Require Import base gmap list.
From stdpp Require Import options.
From S2P Require Import Prelude.

Set Default Proof Using "Type".

Create HintDb nvme.

Definition QUEUE_DEPTH : nat := 1024.
Definition NUM_LBAS : Z := 781422768.

(** ** Commands *)

Record NvmeCommand := mkCmd {
  opcode : Z; flags : Z; cid : Z; nsid : Z; mptr : Z; dptr0 : Z; dptr1 : Z;
  cdw10 : Z; cdw11 : Z; cdw12 : Z; cdw13 : Z; cdw14 : Z; cdw15 : Z }.

Definition with_cid (v : Z) (c : NvmeCommand) : NvmeCommand :=
  mkCmd (opcode c) (flags c) v (nsid c) (mptr c) (dptr0 c) (dptr1 c) (cdw10 c) (cdw11 c) (cdw12 c) (cdw13 c) (cdw14 c) (cdw15 c).
Definition with_cdw10 (v : Z) (c : NvmeCommand) : NvmeCommand :=
  mkCmd (opcode c) (flags c) (cid c) (nsid c) (mptr c) (dptr0 c) (dptr1 c) v (cdw11 c) (cdw12 c) (cdw13 c) (cdw14 c) (cdw15 c).
Definition zero_cmd : NvmeCommand := mkCmd 0 0 0 0 0 0 0 0 0 0 0 0 0.

Definition CREATE_IO_SQ : Z := 0x01.
Definition CREATE_IO_CQ : Z := 0x05.
Definition IDENTIFY_COMMAND : Z := 0x06.
Definition WRITE : Z := 0x01.
Definition READ : Z := 0x02.

Definition create_io_completion_queue (cid qid ptr size : Z) : NvmeCommand :=
  mkCmd CREATE_IO_CQ 0 cid 0 0 ptr 0 (Z.lor (wrap 32 (Z.shiftl size 16)) qid) 1 0 0 0 0.
Definition create_io_submission_queue (cid qid ptr size cqid : Z) : NvmeCommand :=
  mkCmd CREATE_IO_SQ 0 cid 0 0 ptr 0 (Z.lor (wrap 32 (Z.shiftl size 16)) qid) (Z.lor (wrap 32 (Z.shiftl cqid 16)) 1) 0 0 0 0.
Definition identify_namespace (cid ptr nsid : Z) : NvmeCommand := mkCmd IDENTIFY_COMMAND 0 cid nsid 0 ptr 0 0 0 0 0 0 0.
Definition identify_controller (cid ptr : Z) : NvmeCommand := mkCmd IDENTIFY_COMMAND 0 cid 0 0 ptr 0 1 0 0 0 0 0.
Definition identify_namespace_list (cid ptr base : Z) : NvmeCommand := mkCmd IDENTIFY_COMMAND 0 cid base 0 ptr 0 2 0 0 0 0 0.
Definition io_read (cid nsid lba blocks_1 ptr0 ptr1 : Z) : NvmeCommand :=
  mkCmd READ 0 cid nsid 0 ptr0 ptr1 (wrap 32 lba) (wrap 32 (Z.shiftr lba 32)) blocks_1 0 0 0.
Definition io_write (cid nsid lba blocks_1 ptr0 ptr1 : Z) : NvmeCommand :=
  mkCmd WRITE 0 cid nsid 0 ptr0 ptr1 (wrap 32 lba) (wrap 32 (Z.shiftr lba 32)) blocks_1 0 0 0.

(** ** The submission queue *)

Record Request := mkRequest { r_block : Z; num_blocks : Z; r_data : Z }.
(** [BlockReq], its data by its address and length. *)
Record BlockReq := mkBreq { b_block : Z; b_num_blocks : Z; b_data : Z; b_len : Z; b_cid : Z }.

Record NvmeCommandQueue := mkSq {
  sq_data : list NvmeCommand; seed : Z; sq_i : nat; requests : list (option Request); brequests : list (option BlockReq);
  rrequests : list (option Z); raw_requests : list (option Z); blkreq_rrefs : list (option Z); req_slot : list bool; sq_block : Z }.

Definition NvmeCommandQueue_new : NvmeCommandQueue :=
  mkSq (replicate QUEUE_DEPTH zero_cmd) 123456789 0 (replicate QUEUE_DEPTH None) (replicate QUEUE_DEPTH None) (replicate QUEUE_DEPTH None)
    (replicate QUEUE_DEPTH None) (replicate QUEUE_DEPTH None) (replicate QUEUE_DEPTH false) 0.

Definition upd_data f (q : NvmeCommandQueue) := mkSq (f (sq_data q)) (seed q) (sq_i q) (requests q) (brequests q) (rrequests q) (raw_requests q) (blkreq_rrefs q) (req_slot q) (sq_block q).
Definition upd_seed v (q : NvmeCommandQueue) := mkSq (sq_data q) v (sq_i q) (requests q) (brequests q) (rrequests q) (raw_requests q) (blkreq_rrefs q) (req_slot q) (sq_block q).
Definition upd_i v (q : NvmeCommandQueue) := mkSq (sq_data q) (seed q) v (requests q) (brequests q) (rrequests q) (raw_requests q) (blkreq_rrefs q) (req_slot q) (sq_block q).
Definition upd_requests f (q : NvmeCommandQueue) := mkSq (sq_data q) (seed q) (sq_i q) (f (requests q)) (brequests q) (rrequests q) (raw_requests q) (blkreq_rrefs q) (req_slot q) (sq_block q).
Definition upd_brequests f (q : NvmeCommandQueue) := mkSq (sq_data q) (seed q) (sq_i q) (requests q) (f (brequests q)) (rrequests q) (raw_requests q) (blkreq_rrefs q) (req_slot q) (sq_block q).
Definition upd_rrequests f (q : NvmeCommandQueue) := mkSq (sq_data q) (seed q) (sq_i q) (requests q) (brequests q) (f (rrequests q)) (raw_requests q) (blkreq_rrefs q) (req_slot q) (sq_block q).
Definition upd_raw f (q : NvmeCommandQueue) := mkSq (sq_data q) (seed q) (sq_i q) (requests q) (brequests q) (rrequests q) (f (raw_requests q)) (blkreq_rrefs q) (req_slot q) (sq_block q).
Definition upd_rrefs f (q : NvmeCommandQueue) := mkSq (sq_data q) (seed q) (sq_i q) (requests q) (brequests q) (rrequests q) (raw_requests q) (f (blkreq_rrefs q)) (req_slot q) (sq_block q).
Definition upd_slot f (q : NvmeCommandQueue) := mkSq (sq_data q) (seed q) (sq_i q) (requests q) (brequests q) (rrequests q) (raw_requests q) (blkreq_rrefs q) (f (req_slot q)) (sq_block q).
Definition upd_block v (q : NvmeCommandQueue) := mkSq (sq_data q) (seed q) (sq_i q) (requests q) (brequests q) (rrequests q) (raw_requests q) (blkreq_rrefs q) (req_slot q) v.

Section Submission.
Context `{Profile}.

(** [self.seed = (1103515245 * self.seed + 12345) % self.pow; self.seed % NUM_LBAS] *)
Definition get_rand_block (q : NvmeCommandQueue) : outcome (Z * NvmeCommandQueue) :=
  a ← umul 64 1103515245 (seed q);
  b ← uadd 64 a 12345;
  let s := (b mod 2 ^ 31)%Z in Done ((s mod NUM_LBAS)%Z, upd_seed s q).

(** [self.i = (self.i + 1) % self.data.len()] *)
Definition step_i (q : NvmeCommandQueue) : NvmeCommandQueue := upd_i ((sq_i q + 1) mod length (sq_data q)) q.

(** [(self.block + n) % NUM_LBAS] *)
Definition next_block (n : Z) (q : NvmeCommandQueue) : outcome Z := b ← uadd 64 (sq_block q) n; Done (b mod NUM_LBAS)%Z.

(** [self.data[i] = entry]: panics out of range. *)
Definition put_cmd (i : nat) (entry : NvmeCommand) (q : NvmeCommandQueue) : outcome NvmeCommandQueue :=
  if i <? length (sq_data q) then Done (upd_data (<[i := entry]>) q) else Panic.
Definition claim (i : nat) (q : NvmeCommandQueue) : outcome NvmeCommandQueue :=
  if i <? length (req_slot q) then Done (upd_slot (<[i := true]>) q) else Panic.
(** [self.table[i] = Some(x)] *)
Definition put_in {A} (i : nat) (x : A) (l : list (option A)) : outcome (list (option A)) :=
  if i <? length l then Done (<[i := Some x]> l) else Panic.

Definition submit (entry : NvmeCommand) (q : NvmeCommandQueue) : outcome (nat * NvmeCommandQueue) :=
  q ← put_cmd (sq_i q) (with_cid (wrap 16 (Z.of_nat (sq_i q))) entry) q;
  let q := step_i q in Done (sq_i q, q).

Definition is_submittable (q : NvmeCommandQueue) : outcome bool := b ← index (req_slot q) (sq_i q); Done (negb b).

Definition submit_from_slot (entry : NvmeCommand) (slot : nat) (q : NvmeCommandQueue) : outcome (option nat * NvmeCommandQueue) :=
  let slot := sq_i q in
  busy ← index (req_slot q) slot;
  if busy : bool then Done (None, q)
  else
    q ← put_cmd slot (with_cdw10 (wrap 32 (sq_block q)) (with_cid (wrap 16 (Z.of_nat slot)) entry)) q;
    let cdw := wrap 32 (sq_block q) in
    b ← next_block 1 q;
    let q := upd_block b q in
    r ← index (requests q) slot;
    let q := match r with
             | Some _ => upd_requests (<[slot := Some (mkRequest cdw (wrap 16 (cdw12 entry)) (dptr0 entry))]>) q
             | None => q
             end in
    q ← claim slot q;
    let q := step_i q in Done (Some (sq_i q), q).

Definition submit_request (entry : NvmeCommand) (q : NvmeCommandQueue) : outcome (option nat * NvmeCommandQueue) :=
  let cur_idx := sq_i q in
  busy ← index (req_slot q) cur_idx;
  if busy : bool then Done (None, q)
  else
    q ← put_cmd cur_idx (with_cdw10 (wrap 32 (sq_block q)) (with_cid (wrap 16 (Z.of_nat cur_idx)) entry)) q;
    l ← put_in cur_idx (mkRequest (sq_block q) (wrap 16 (cdw12 entry)) (dptr0 entry)) (requests q);
    let q := upd_requests (fun _ => l) q in
    b ← next_block 1 q;
    q ← claim cur_idx (upd_block b q);
    let q := step_i q in Done (Some (sq_i q), q).

Definition submit_raw_request_cid (entry : NvmeCommand) (q : NvmeCommandQueue) : outcome (option nat * NvmeCommandQueue) :=
  let cur_idx := sq_i q in
  let c := Z.to_nat (cid entry) in
  busy ← index (req_slot q) c;
  if busy : bool then Done (None, q)
  else
    b ← next_block 8 q;
    let q := upd_block b q in
    q ← put_cmd cur_idx (with_cdw10 (wrap 32 (sq_block q)) entry) q;
    q ← claim c q;
    let q := step_i q in Done (Some (sq_i q), q).

Definition submit_rrequest_cid (entry : NvmeCommand) (req : Z) (q : NvmeCommandQueue) : outcome (option nat * NvmeCommandQueue) :=
  let cur_idx := sq_i q in
  let c := Z.to_nat (cid entry) in
  busy ← index (req_slot q) c;
  if busy : bool then Done (None, q)
  else
    l ← put_in c req (rrequests q);
    q ← put_cmd cur_idx (with_cdw10 (wrap 32 (sq_block q)) entry) (upd_rrequests (fun _ => l) q);
    b ← next_block 1 q;
    q ← claim c (upd_block b q);
    let q := step_i q in Done (Some (sq_i q), q).

Definition submit_brequest_cid (entry : NvmeCommand) (breq : BlockReq) (q : NvmeCommandQueue) : outcome (option nat * NvmeCommandQueue) :=
  let cur_idx := sq_i q in
  let c := Z.to_nat (b_cid breq) in
  busy ← index (req_slot q) c;
  if busy : bool then Done (None, q)
  else
    l ← put_in c breq (brequests q);
    q ← put_cmd cur_idx (with_cdw10 (wrap 32 (sq_block q)) (with_cid (b_cid breq) entry)) (upd_brequests (fun _ => l) q);
    b ← next_block 1 q;
    q ← claim c (upd_block b q);
    let q := step_i q in Done (Some (sq_i q), q).

Definition submit_request_rref (entry : NvmeCommand) (breq : Z) (q : NvmeCommandQueue) : outcome (option nat * NvmeCommandQueue) :=
  let cur_idx := sq_i q in
  busy ← index (req_slot q) cur_idx;
  if busy : bool then Done (None, q)
  else
    q ← put_cmd cur_idx (with_cdw10 (cdw10 entry mod wrap 32 NUM_LBAS) (with_cid (wrap 16 (Z.of_nat cur_idx)) entry)) q;
    l ← put_in cur_idx breq (blkreq_rrefs q);
    q ← claim cur_idx (upd_rrefs (fun _ => l) q);
    let q := step_i q in Done (Some (sq_i q), q).

Definition submit_request_rand_raw (entry : NvmeCommand) (data : Z) (q : NvmeCommandQueue) : outcome (option nat * NvmeCommandQueue) :=
  let cur_idx := sq_i q in
  busy ← index (req_slot q) cur_idx;
  if busy : bool then Done (None, q)
  else
    l ← put_in cur_idx data (raw_requests q);
    q ← put_cmd cur_idx (with_cdw10 (wrap 32 (sq_block q)) (with_cid (wrap 16 (Z.of_nat cur_idx)) entry)) (upd_raw (fun _ => l) q);
    r ← get_rand_block q;
    q ← claim cur_idx (upd_block r.1 r.2);
    let q := step_i q in Done (Some (sq_i q), q).

Definition submit_request_raw (entry : NvmeCommand) (data : Z) (q : NvmeCommandQueue) : outcome (option nat * NvmeCommandQueue) :=
  let cur_idx := sq_i q in
  busy ← index (req_slot q) cur_idx;
  if busy : bool then Done (None, q)
  else
    l ← put_in cur_idx data (raw_requests q);
    q ← put_cmd cur_idx (with_cdw10 (wrap 32 (sq_block q)) (with_cid (wrap 16 (Z.of_nat cur_idx)) entry)) (upd_raw (fun _ => l) q);
    b ← next_block 8 q;
    q ← claim cur_idx (upd_block b q);
    let q := step_i q in Done (Some (sq_i q), q).

Definition submit_rrequest (entry : NvmeCommand) (v : Z) (q : NvmeCommandQueue) : outcome (option nat * NvmeCommandQueue) :=
  let cur_idx := sq_i q in
  busy ← index (req_slot q) cur_idx;
  if busy : bool then Done (None, q)
  else
    l ← put_in cur_idx v (rrequests q);
    q ← put_cmd cur_idx (with_cdw10 (wrap 32 (sq_block q)) (with_cid (wrap 16 (Z.of_nat cur_idx)) entry)) (upd_rrequests (fun _ => l) q);
    b ← next_block 1 q;
    q ← claim cur_idx (upd_block b q);
    let q := step_i q in Done (Some (sq_i q), q).

Definition submit_brequest (entry : NvmeCommand) (breq : BlockReq) (q : NvmeCommandQueue) : outcome (option nat * NvmeCommandQueue) :=
  let cur_idx := sq_i q in
  busy ← index (req_slot q) cur_idx;
  if busy : bool then Done (None, q)
  else
    q ← put_cmd cur_idx (with_cid (wrap 16 (Z.of_nat cur_idx)) entry) q;
    l ← put_in cur_idx (mkBreq (b_block breq) (b_num_blocks breq) (b_data breq) (b_len breq) (wrap 16 (Z.of_nat cur_idx))) (brequests q);
    q ← claim cur_idx (upd_brequests (fun _ => l) q);
    let q := step_i q in Done (Some (sq_i q), q).
End Submission.

(** ** The completion queue *)

Record NvmeCompletion := mkCpl { command_specific : Z; sq_head : Z; sq_id : Z; cpl_cid : Z; status : Z }.
Definition zero_cpl : NvmeCompletion := mkCpl 0 0 0 0 0.

Record NvmeCompletionQueue := mkCq { cq_data : list NvmeCompletion; cq_i : nat; phase : bool }.
Definition NvmeCompletionQueue_new : NvmeCompletionQueue := mkCq (replicate QUEUE_DEPTH zero_cpl) 0 true.

Definition get_cq_head (q : NvmeCompletionQueue) : nat := cq_i q.

(** [((entry.status & 1) == 1) == self.phase] *)
Definition is_new (entry : NvmeCompletion) (ph : bool) : bool := eqb (Z.land (status entry) 1 =? 1)%Z ph.

Definition advance (q : NvmeCompletionQueue) : NvmeCompletionQueue :=
  let i := (cq_i q + 1) mod length (cq_data q) in mkCq (cq_data q) i (if i =? 0 then negb (phase q) else phase q).

Definition is_valid (q : NvmeCompletionQueue) : outcome (option NvmeCompletion) :=
  entry ← index (cq_data q) (cq_i q); Done (if is_new entry (phase q) then Some entry else None).

(** The new head, the entry and its index. *)
Definition complete (q : NvmeCompletionQueue) : outcome (option (nat * NvmeCompletion * nat) * NvmeCompletionQueue) :=
  entry ← index (cq_data q) (cq_i q);
  if is_new entry (phase q) then
    let cq_entry := cq_i q in
    let q := advance q in Done (Some (cq_i q, entry, cq_entry), q)
  else Done (None, q).

(** ** The controller *)

(** The commands it has fetched, by slot; where it fetches next; where it posts next and
    with which tag; the last values of the doorbells. *)
Record Controller := mkCtl { pending : list nat; fetch_i : nat; post_i : nat; post_phase : bool; head_db : nat; tail_db : nat }.
Definition Controller_new : Controller := mkCtl [] 0 0 true 0 0.

(** The next command is fetched; the [k]-th pending command completes with a status code. *)
Inductive event := Fetch | Post (k : nat) (code : Z).

(** The slots from [a] up to [b] in a ring of [n]. *)
Definition ring_range (n a b : nat) : list nat := if a <=? b then seq a (b - a) else seq a (n - a) ++ seq 0 b.
(** The commands that the controller has or sees in the submission queue. *)
Definition seen (c : Controller) : list nat := pending c ++ ring_range QUEUE_DEPTH (fetch_i c) (tail_db c).

(** The device state of queue pair 1; a [BlkReq] by its block number. *)
Record NvmeDevice := mkDev {
  sq : NvmeCommandQueue; cq : NvmeCompletionQueue; ctl : Controller; submitted : Z; completed : Z;
  blocks : gmap Z Z; script : list (list event); dropped : list Z }.

Definition set_sq v (s : NvmeDevice) := mkDev v (cq s) (ctl s) (submitted s) (completed s) (blocks s) (script s) (dropped s).
Definition set_cq v (s : NvmeDevice) := mkDev (sq s) v (ctl s) (submitted s) (completed s) (blocks s) (script s) (dropped s).
Definition set_ctl v (s : NvmeDevice) := mkDev (sq s) (cq s) v (submitted s) (completed s) (blocks s) (script s) (dropped s).
Definition set_submitted v (s : NvmeDevice) := mkDev (sq s) (cq s) (ctl s) v (completed s) (blocks s) (script s) (dropped s).
Definition set_completed v (s : NvmeDevice) := mkDev (sq s) (cq s) (ctl s) (submitted s) v (blocks s) (script s) (dropped s).
Definition set_script v (s : NvmeDevice) := mkDev (sq s) (cq s) (ctl s) (submitted s) (completed s) (blocks s) v (dropped s).
Definition set_dropped v (s : NvmeDevice) := mkDev (sq s) (cq s) (ctl s) (submitted s) (completed s) (blocks s) (script s) v.

Definition NvmeDevice_new (bl : gmap Z Z) (sc : list (list event)) : NvmeDevice :=
  mkDev NvmeCommandQueue_new NvmeCompletionQueue_new Controller_new 0 0 bl sc [].

Definition fetch (s : NvmeDevice) : NvmeDevice :=
  let c := ctl s in
  if fetch_i c =? tail_db c then s
  else set_ctl (mkCtl (pending c ++ [fetch_i c]) ((fetch_i c + 1) mod QUEUE_DEPTH) (post_i c) (post_phase c) (head_db c) (tail_db c)) s.

Definition post (e : event) (s : NvmeDevice) : NvmeDevice :=
  match e with
  | Fetch => fetch s
  | Post k code =>
      let c := ctl s in
      match pending c !! k with
      | None => s
      | Some slot =>
          let i := (post_i c + 1) mod QUEUE_DEPTH in
          if i =? head_db c then s
          else
            let entry := mkCpl 0 (Z.of_nat (fetch_i c)) 1 (Z.of_nat slot) (Z.lor (Z.shiftl code 1) (Z.b2z (post_phase c))) in
            set_ctl (mkCtl (delete k (pending c)) (fetch_i c) i (if i =? 0 then negb (post_phase c) else post_phase c) (head_db c) (tail_db c))
              (set_cq (mkCq (<[post_i c := entry]> (cq_data (cq s))) (cq_i (cq s)) (phase (cq s))) s)
      end
  end.

Definition posts (es : list event) (s : NvmeDevice) : NvmeDevice := foldl (fun s e => post e s) s es.
Definition tick : M NvmeDevice unit := modify (fun s => match script s with [] => s | es :: sc => posts es (set_script sc s) end).

(** The doorbells. *)
Definition submission_queue_tail (tail : nat) : M NvmeDevice unit := modify (fun s =>
  let c := ctl s in set_ctl (mkCtl (pending c) (fetch_i c) (post_i c) (post_phase c) (head_db c) tail) s).
Definition completion_queue_head (head : nat) : M NvmeDevice unit := modify (fun s =>
  let c := ctl s in set_ctl (mkCtl (pending c) (fetch_i c) (post_i c) (post_phase c) head (tail_db c)) s).

(** ** The block driver, shared-heap requests *)

Section Driver.
Context `{Profile}.

Definition COLLECT_CAP : nat := 128.
Definition POLL_CAP : nat := 1024.
Definition batch_sz : nat := 32.

(** [RRefDeque::push_back] on the bounded queue it refines. *)
Definition push_back (cap : nat) (q : list Z) (a : Z) : option Z * list Z :=
  if length q =? cap then (Some a, q) else (None, q ++ [a]).

Definition drop_opt (o : option Z) : M NvmeDevice unit :=
  match o with Some a => modify (fun s => set_dropped (dropped s ++ [a]) s) | None => mret tt end.

Definition count_completed : M NvmeDevice unit := s ← get; n ← lift (uadd 64 (completed s) 1); put (set_completed n s).
Definition count_submitted : M NvmeDevice unit := s ← get; n ← lift (uadd 64 (submitted s) 1); put (set_submitted n s).

Definition get_stats (s : NvmeDevice) : Z * Z := (submitted s, completed s).
Definition reset_stats (s : NvmeDevice) : NvmeDevice := set_submitted 0 (set_completed 0 s).
(** [NvmeDev::get_stats] starts the counters anew. *)
Definition dev_get_stats : M NvmeDevice (Z * Z) := r ← gets get_stats; _ ← modify reset_stats; mret r.

(** [queue.complete()] *)
Definition dev_complete : M NvmeDevice (option (nat * NvmeCompletion * nat)) :=
  _ ← tick; s ← get; r ← lift (complete (cq s)); _ ← put (set_cq r.2 s); mret r.1.

Definition slot_busy (i : nat) : M NvmeDevice bool := s ← get; lift (index (req_slot (sq s)) i).
Definition free_slot (i : nat) : M NvmeDevice unit := modify (fun s => set_sq (upd_slot (<[i := false]>) (sq s)) s).
(** [sq.blkreq_rrefs[i].take()] *)
Definition take_req (i : nat) : M NvmeDevice (option Z) :=
  s ← get; o ← lift (index (blkreq_rrefs (sq s)) i); _ ← put (set_sq (upd_rrefs (<[i := None]>) (sq s)) s); mret o.
(** [sq.blkreq_rrefs[i] = None] *)
Definition clear_req (i : nat) : M NvmeDevice unit := o ← take_req i; drop_opt o.

(** [queue.submit_request_rref(entry, breq)]; a request in the slot's table is dropped. *)
Definition dev_submit (entry : NvmeCommand) (breq : Z) : M NvmeDevice (option nat) :=
  s ← get;
  r ← lift (submit_request_rref entry breq (sq s));
  _ ← put (set_sq r.2 s);
  _ ← match r.1 with Some _ => drop_opt (default None (blkreq_rrefs (sq s) !! sq_i (sq s))) | None => drop_opt (Some breq) end;
  mret r.1.

(** [while let Some(breq) = submit.pop_front()] *)
Fixpoint submit_loop (write : bool) (submit : list Z) (count tail : nat) : M NvmeDevice (list Z * nat * nat) :=
  match submit with
  | [] => mret ([], count, tail)
  | breq :: rest =>
      s ← get;
      block ← lift (expect (blocks s !! breq));
      let entry := if write then io_write 1 1 block 7 breq 0 else io_read 1 1 block 7 breq 0 in
      ok ← lift (is_submittable (sq s));
      if ok : bool then
        r ← dev_submit entry breq;
        match r with
        | Some tail => _ ← count_submitted; submit_loop write rest (S count) tail
        | None => submit_loop write rest count tail
        end
      else
        let p := push_back COLLECT_CAP rest breq in
        _ ← drop_opt p.1; mret (p.2, count, tail)
  end.

(** The locals of the collecting loops. *)
Record Reap := mkReap { r_collect : list Z; r_count : nat; r_head : nat; r_sq_id : Z }.

(** [for i in 0..batch_sz] *)
Fixpoint collect_loop (n : nat) (r : Reap) : M NvmeDevice Reap :=
  match n with
  | O => mret r
  | S n =>
      if length (r_collect r) =? COLLECT_CAP then mret r
      else
        c ← dev_complete;
        match c with
        | None => mret r
        | Some (head, entry, cq_idx) =>
            busy ← slot_busy cq_idx;
            if busy : bool then
              o ← take_req cq_idx;
              match o with
              | Some req =>
                  match push_back COLLECT_CAP (r_collect r) req with
                  | (Some req, _) =>
                      _ ← drop_opt (Some req); _ ← free_slot cq_idx; mret (mkReap (r_collect r) (r_count r) head (sq_id entry))
                  | (None, collect) =>
                      _ ← free_slot cq_idx; _ ← clear_req cq_idx; _ ← count_completed;
                      collect_loop n (mkReap collect (S (r_count r)) head (sq_id entry))
                  end
              | None =>
                  _ ← free_slot cq_idx; _ ← clear_req cq_idx; _ ← count_completed;
                  collect_loop n (mkReap (r_collect r) (S (r_count r)) head (sq_id entry))
              end
            else _ ← count_completed; collect_loop n (mkReap (r_collect r) (r_count r) head (sq_id entry))
        end
  end.

(** Submitted, tail, head, the queue of the last entry, and both queues of requests. *)
Definition submit_and_poll_rref (submit collect : list Z) (write : bool)
    : M NvmeDevice (nat * nat * nat * Z * list Z * list Z) :=
  p ← submit_loop write submit 0 0;
  let '(submit, sub_count, cur_tail) := p : list Z * nat * nat in
  _ ← (if 0 <? sub_count then submission_queue_tail cur_tail else mret tt);
  r ← collect_loop batch_sz (mkReap collect 0 0 0);
  _ ← (if 0 <? r_count r then completion_queue_head (r_head r) else mret tt);
  mret (sub_count, cur_tail, r_head r, r_sq_id r, submit, r_collect r).

(** The loop of [poll_rref]: while the slot at the head of the completion queue is busy. *)
Fixpoint poll_loop (n : nat) (r : Reap) : M NvmeDevice Reap :=
  match n with
  | O => mret r
  | S n =>
      s ← get;
      busy ← slot_busy (get_cq_head (cq s) mod length (cq_data (cq s)));
      if busy : bool then
        c ← dev_complete;
        match c with
        | None => poll_loop n r
        | Some (head, entry, cq_idx) =>
            o ← take_req cq_idx;
            match o with
            | Some req =>
                match push_back POLL_CAP (r_collect r) req with
                | (Some req, _) => _ ← drop_opt (Some req); _ ← free_slot cq_idx; mret (mkReap (r_collect r) (r_count r) head 0)
                | (None, collect) =>
                    _ ← free_slot cq_idx; _ ← clear_req cq_idx; _ ← count_completed;
                    poll_loop n (mkReap collect (S (r_count r)) head 0)
                end
            | None =>
                _ ← free_slot cq_idx; _ ← clear_req cq_idx; _ ← count_completed;
                poll_loop n (mkReap (r_collect r) (S (r_count r)) head 0)
            end
        end
      else mret r
  end.

Definition poll_rref (collect : list Z) : M NvmeDevice (nat * list Z) :=
  r ← poll_loop QUEUE_DEPTH (mkReap collect 0 0 0);
  _ ← (if 0 <? r_count r then completion_queue_head (r_head r) else mret tt);
  mret (r_count r, r_collect r).
End Driver.

(** ** Rings and phase tags *)

Lemma depth_pos : 0 < QUEUE_DEPTH.
Proof. unfold QUEUE_DEPTH. lia. Qed.
Lemma depth_batch : COLLECT_CAP < QUEUE_DEPTH.
Proof. unfold QUEUE_DEPTH, COLLECT_CAP. lia. Qed.

Lemma depth_width : (Z.of_nat QUEUE_DEPTH < 2 ^ 16)%Z.
Proof. reflexivity. Qed.

#[local] Opaque QUEUE_DEPTH.

Abbreviation at_ j := (j mod QUEUE_DEPTH).

(** The tag of the [j]-th entry that the controller ever posts. *)
Definition tag (j : nat) : bool := Nat.even (j / QUEUE_DEPTH).

Lemma at_lt j : at_ j < QUEUE_DEPTH.
Proof. apply Nat.mod_upper_bound. pose proof depth_pos. lia. Qed.

Lemma at_S j : (at_ j + 1) mod QUEUE_DEPTH = at_ (S j).
Proof. rewrite Nat.Div0.add_mod_idemp_l. f_equal. lia. Qed.

Lemma at_ne a b : a < b < a + QUEUE_DEPTH -> at_ a <> at_ b.
Proof. intros Hab. pose proof (mod_slot_ne QUEUE_DEPTH a 0 (b - a) ltac:(lia)) as Hn. by rewrite Nat.add_0_r, (Nat.add_comm a), Nat.sub_add in Hn by lia. Qed.

Lemma at_add j : at_ (j + QUEUE_DEPTH) = at_ j.
Proof. rewrite <- Nat.Div0.add_mod_idemp_r, Nat.Div0.mod_same. by rewrite Nat.add_0_r. Qed.

Lemma tag_add j : tag (j + QUEUE_DEPTH) = negb (tag j).
Proof.
  pose proof depth_pos. unfold tag. replace (j + QUEUE_DEPTH) with (j + 1 * QUEUE_DEPTH) by lia. rewrite Nat.div_add by lia.
  rewrite Nat.add_1_r, Nat.even_succ. by rewrite <- Nat.negb_even.
Qed.

Lemma tag_S j : tag (S j) = if at_ (S j) =? 0 then negb (tag j) else tag j.
Proof.
  pose proof depth_pos. pose proof (Nat.div_mod_eq j QUEUE_DEPTH) as Hj. pose proof (at_lt j) as Hl. unfold tag.
  destruct (decide (S (at_ j) = QUEUE_DEPTH)) as [E|E].
  - assert (Hq : S j / QUEUE_DEPTH = S (j / QUEUE_DEPTH)) by (symmetry; apply (Nat.div_unique _ _ _ 0); nia).
    assert (Hr : at_ (S j) = 0) by (symmetry; apply (Nat.mod_unique _ _ (S (j / QUEUE_DEPTH))); nia).
    rewrite Hq, Hr. cbn [Nat.eqb]. by rewrite Nat.even_succ, <- Nat.negb_even.
  - assert (Hq : S j / QUEUE_DEPTH = j / QUEUE_DEPTH) by (symmetry; apply (Nat.div_unique _ _ _ (S (at_ j))); nia).
    assert (Hr : at_ (S j) = S (at_ j)) by (symmetry; apply (Nat.mod_unique _ _ (j / QUEUE_DEPTH)); nia).
    by rewrite Hq, Hr.
Qed.

(** The slots between two places of the ring. *)
Lemma ring_range_spec a b : a <= b < a + QUEUE_DEPTH -> ring_range QUEUE_DEPTH (at_ a) (at_ b) = (fun j => at_ j) <$> seq a (b - a).
Proof.
  intros Hab. pose proof depth_pos. pose proof (Nat.div_mod_eq a QUEUE_DEPTH) as Ha. pose proof (Nat.div_mod_eq b QUEUE_DEPTH) as Hb.
  pose proof (at_lt a) as La. pose proof (at_lt b) as Lb.
  assert (Hmap : forall c n, at_ c + n <= QUEUE_DEPTH -> (fun j => at_ j) <$> seq c n = seq (at_ c) n).
  { intros c n Hn. apply list_eq_same_length with n; [by rewrite ?length_fmap, length_seq..|]. intros k x y Hk.
    rewrite list_lookup_fmap, !lookup_seq_lt by done. cbn. intros [= <-] [= <-].
    symmetry. apply (Nat.mod_unique _ _ (c / QUEUE_DEPTH)); [lia|]. pose proof (Nat.div_mod_eq c QUEUE_DEPTH). lia. }
  unfold ring_range. destruct (Nat.leb_spec (at_ a) (at_ b)) as [Hle|Hlt].
  - assert (b / QUEUE_DEPTH = a / QUEUE_DEPTH) by nia. rewrite Hmap by nia. f_equal. nia.
  - assert (E : b / QUEUE_DEPTH = S (a / QUEUE_DEPTH)) by nia.
    replace (b - a) with ((QUEUE_DEPTH - at_ a) + at_ b) by nia. rewrite seq_app, fmap_app, Hmap by lia. f_equal.
    assert (E0 : at_ (a + (QUEUE_DEPTH - at_ a)) = 0) by (symmetry; apply (Nat.mod_unique _ _ (S (a / QUEUE_DEPTH))); nia).
    rewrite Hmap by lia. by rewrite E0.
Qed.

(** ** The invariant

    [D] entries were read, [P] were posted, the controller has fetched [F] of the [R]
    commands that it was told of and knows that [H] entries were read; the outstanding
    requests are [q], oldest first.  [ord] says that the controller completes commands in
    the order in which it fetches them. *)

Section Order.
Variable ord : Prop.

Definition ctag (e : NvmeCompletion) : bool := (Z.land (status e) 1 =? 1)%Z.

Record queues_ok (s : NvmeDevice) (q : list Z) (D P R H : nat) : Prop := {
  v_order : H <= D /\ D <= P /\ P <= R /\ R <= D + length q /\ length q <= QUEUE_DEPTH /\ P < H + QUEUE_DEPTH;
  v_data : length (sq_data (sq s)) = QUEUE_DEPTH;
  v_slots : length (req_slot (sq s)) = QUEUE_DEPTH;
  v_rrefs : length (blkreq_rrefs (sq s)) = QUEUE_DEPTH;
  v_cpls : length (cq_data (cq s)) = QUEUE_DEPTH;
  v_i : sq_i (sq s) = at_ (D + length q);
  v_busy k a : q !! k = Some a -> req_slot (sq s) !! at_ (D + k) = Some true /\ blkreq_rrefs (sq s) !! at_ (D + k) = Some (Some a) /\
    exists c, sq_data (sq s) !! at_ (D + k) = Some c /\ dptr0 c = a;
  v_free j : D + length q <= j < D + QUEUE_DEPTH -> req_slot (sq s) !! at_ j = Some false /\ blkreq_rrefs (sq s) !! at_ j = Some None;
  v_cq : cq_i (cq s) = at_ D /\ phase (cq s) = tag D;
  v_new j : D <= j < P -> exists e, cq_data (cq s) !! at_ j = Some e /\ ctag e = tag j;
  v_old j : P <= j < D + QUEUE_DEPTH -> exists e, cq_data (cq s) !! at_ j = Some e /\ ctag e = negb (tag j);
  v_ctl : exists F pend, P <= F <= R /\ length pend = F - P /\ (ord -> pend = (fun j => at_ j) <$> seq P (F - P)) /\
    ctl s = mkCtl pend (at_ F) (at_ P) (tag P) (at_ H) (at_ R) }.

Definition in_order (e : event) : Prop := match e with Fetch => True | Post k _ => k = 0 end.

Record nvme_ok (s : NvmeDevice) (q held : list Z) (D P R H : nat) : Prop := {
  n_queues : queues_ok s q D P R H;
  n_dup : NoDup (q ++ held);
  n_blocks a : a ∈ q ++ held -> is_Some (blocks s !! a);
  n_script : ord -> Forall (Forall in_order) (script s);
  n_counts : (0 <= completed s /\ 0 <= submitted s /\ completed s + Z.of_nat (length q) <= submitted s + Z.of_nat QUEUE_DEPTH < 2 ^ 64)%Z }.

(** The list of dropped requests does not matter. *)
Lemma queues_ok_ext s s' q D P R H : sq s' = sq s -> cq s' = cq s -> ctl s' = ctl s -> queues_ok s q D P R H -> queues_ok s' q D P R H.
Proof. intros E1 E2 E3 V. split; rewrite ?E1, ?E2, ?E3; apply V. Qed.
Lemma nvme_ok_ext s s' q held D P R H : sq s' = sq s -> cq s' = cq s -> ctl s' = ctl s -> blocks s' = blocks s -> script s' = script s ->
  submitted s' = submitted s -> completed s' = completed s -> nvme_ok s q held D P R H -> nvme_ok s' q held D P R H.
Proof.
  intros E1 E2 E3 E4 E5 E6 E7 N. split; [by apply (queues_ok_ext s); [..|apply N]|apply N|rewrite E4|rewrite E5|rewrite E6, E7]; apply N.
Qed.
Lemma nvme_ok_perm s q held held' D P R H : held ≡ₚ held' -> nvme_ok s q held D P R H -> nvme_ok s q held' D P R H.
Proof.
  intros E N. split; try apply N.
  - rewrite <- E. apply N.
  - intros a. rewrite <- E. apply N.
Qed.

Lemma land_1 x : (Z.land x 1 =? 1)%Z = Z.testbit x 0.
Proof.
  change 1%Z with (Z.ones 1) at 1. rewrite Z.land_ones by lia. change (2 ^ 1)%Z with 2%Z. rewrite <- Z.bit0_mod. by destruct (Z.testbit x 0).
Qed.
Lemma posted_tag a b c d code (ph : bool) : ctag (mkCpl a b c d (Z.lor (Z.shiftl code 1) (Z.b2z ph))) = ph.
Proof. unfold ctag. cbn [status]. rewrite land_1, Z.lor_spec, Z.shiftl_spec_low, orb_false_l by lia. apply Z.b2z_bit0. Qed.

(** *** The controller *)

(** What the controller leaves alone. *)
Record same (s s' : NvmeDevice) : Prop := {
  e_sq : sq s' = sq s; e_blocks : blocks s' = blocks s; e_dropped : dropped s' = dropped s;
  e_submitted : submitted s' = submitted s; e_completed : completed s' = completed s }.
Lemma same_refl s : same s s.
Proof. by split. Qed.
Lemma same_trans s s' s'' : same s s' -> same s' s'' -> same s s''.
Proof. intros A B. destruct A, B. split; congruence. Qed.

Lemma fetch_queues s q D P R H : queues_ok s q D P R H -> queues_ok (fetch s) q D P R H.
Proof.
  intros V. destruct (v_order _ _ _ _ _ _ V) as (H1 & H2 & H3 & H4 & H5 & H6). destruct (v_ctl _ _ _ _ _ _ V) as (F & pend & HF & Hl & Ho & Ec).
  unfold fetch. rewrite Ec. cbn [pending fetch_i post_i post_phase head_db tail_db]. destruct (Nat.eqb_spec (at_ F) (at_ R)) as [|Hne]; [done|].
  assert (F <> R) by congruence. split; cbn [sq cq ctl set_ctl]; try apply V. exists (S F), (pend ++ [at_ F]). rewrite length_app, at_S. cbn [length].
  split_and!; [lia..| |done]. intros O. rewrite (Ho O). replace (S F - P) with (S (F - P)) by lia. rewrite seq_S, fmap_app. cbn.
  by replace (P + (F - P)) with F by lia.
Qed.

Lemma post_queues e s q D P R H : queues_ok s q D P R H -> (ord -> in_order e) -> exists P', queues_ok (post e s) q D P' R H.
Proof.
  intros V Hk. destruct e as [|k code]; [exists P; by apply fetch_queues|]. cbn [in_order post] in *.
  destruct (v_order _ _ _ _ _ _ V) as (H1 & H2 & H3 & H4 & H5 & H6). destruct (v_ctl _ _ _ _ _ _ V) as (F & pend & HF & Hl & Ho & Ec). rewrite Ec.
  cbn [pending fetch_i post_i post_phase head_db tail_db]. destruct (pend !! k) as [slot|] eqn:Ek; [|exists P; apply V].
  pose proof (lookup_lt_Some _ _ _ Ek) as Hlt. rewrite at_S. destruct (Nat.eqb_spec (at_ (S P)) (at_ H)) as [E|E]; [exists P; apply V|].
  assert (S P <> H + QUEUE_DEPTH) by (intros E'; apply E; by rewrite E', at_add).
  exists (S P). set (e := mkCpl _ _ _ _ _). assert (Het : ctag e = tag P) by apply posted_tag. clearbody e.
  assert (HPN : P < D + QUEUE_DEPTH) by lia. pose proof (v_cpls _ _ _ _ _ _ V) as Hlen.
  split; cbn [sq cq ctl set_ctl set_cq cq_data cq_i phase]; try apply V.
  - lia.
  - rewrite length_insert. apply V.
  - intros j Hj. destruct (decide (j = P)) as [->|].
    + exists e. split; [apply list_lookup_insert_eq; rewrite Hlen; apply at_lt|done].
    + rewrite list_lookup_insert_ne by (apply not_eq_sym, at_ne; lia). apply (v_new _ _ _ _ _ _ V). lia.
  - intros j Hj. rewrite list_lookup_insert_ne by (apply at_ne; lia). apply (v_old _ _ _ _ _ _ V). lia.
  - exists F, (delete k pend). rewrite length_delete by (by exists slot). split_and!; [lia..| |by rewrite tag_S].
    intros O. rewrite (Hk O), (Ho O) in *. destruct (F - P) as [|n] eqn:En; [lia|]. by replace (F - S P) with n by lia.
Qed.

Lemma post_same e s : same s (post e s) /\ script (post e s) = script s.
Proof. destruct e as [|k code]; unfold post, fetch; [by destruct (_ =? _)|]. destruct (pending (ctl s) !! k); [|done]. by destruct (_ =? _). Qed.

Lemma posts_ok es s q held D P R H : nvme_ok s q held D P R H -> (ord -> Forall in_order es) ->
  exists P', nvme_ok (posts es s) q held D P' R H /\ same s (posts es s).
Proof.
  revert s P. induction es as [|e es IH]; intros s P N Hes; [exists P; split; [done|apply same_refl]|].
  destruct (post_same e s) as [T Ts].
  destruct (post_queues e s q D P R H (n_queues _ _ _ _ _ _ _ N)) as [P1 V1]; [intros O; specialize (Hes O); by apply list.Forall_cons in Hes as [He _]|].
  assert (N1 : nvme_ok (post e s) q held D P1 R H).
  { split; [done|apply N|rewrite (e_blocks _ _ T)|rewrite Ts|rewrite (e_submitted _ _ T), (e_completed _ _ T)]; apply N. }
  destruct (IH _ _ N1) as (P' & N' & T'); [intros O; specialize (Hes O); by apply list.Forall_cons in Hes as [_ Hes]|].
  exists P'. split; [done|by eapply same_trans].
Qed.

Lemma nvme_tick s q held D P R H : nvme_ok s q held D P R H ->
  run tick s (fun _ s' => exists P', nvme_ok s' q held D P' R H /\ same s s').
Proof.
  intros N. unfold tick. eexists tt, _. split; [done|]. pose proof (n_script _ _ _ _ _ _ _ N) as Hsc.
  destruct (script s) as [|es sc]; [exists P; split; [done|apply same_refl]|]. rewrite list.Forall_cons in Hsc.
  assert (N1 : nvme_ok (set_script sc s) q held D P R H) by (split; [by apply (queues_ok_ext s); [..|apply N]|apply N|apply N|intros O; by apply Hsc|apply N]).
  destruct (posts_ok es _ _ _ _ _ _ _ N1 (fun O => proj1 (Hsc O))) as (P' & N' & T). exists P'. split; [done|]. eapply same_trans; [|exact T]. by split.
Qed.

(** *** Reading a completion *)

Lemma complete_queues s q D P R H : queues_ok s q D P R H ->
  complete (cq s) = Done (if decide (D < P) then match cq_data (cq s) !! at_ D with Some e => Some (at_ (S D), e, at_ D) | None => None end else None,
    if decide (D < P) then mkCq (cq_data (cq s)) (at_ (S D)) (tag (S D)) else cq s).
Proof.
  intros V. destruct (v_order _ _ _ _ _ _ V) as (H1 & H2 & H3 & H4 & H5 & H6). pose proof depth_pos.
  destruct (v_cq _ _ _ _ _ _ V) as [Ei Ep]. unfold complete. rewrite Ei. destruct (decide (D < P)) as [Hlt|Hge].
  - destruct (v_new _ _ _ _ _ _ V D ltac:(lia)) as (e & He & Ht). rewrite (index_Some _ _ _ He), He. cbn [mbind outcome_bind].
    unfold is_new, advance. fold (ctag e). rewrite Ht, Ep, eqb_reflx, Ei, (v_cpls _ _ _ _ _ _ V), at_S, tag_S. done.
  - replace P with D in * by lia. destruct (v_old _ _ _ _ _ _ V D ltac:(lia)) as (e & He & Ht). rewrite (index_Some _ _ _ He). cbn [mbind outcome_bind].
    unfold is_new. fold (ctag e). rewrite Ht, Ep. by destruct (tag D).
Qed.

Lemma dev_complete_spec s q held D P R H : nvme_ok s q held D P R H ->
  run dev_complete s (fun r s' => exists P' s1, nvme_ok s1 q held D P' R H /\ same s s1 /\
    ((r = None /\ s' = s1) \/
     (D < P' /\ exists e, r = Some (at_ (S D), e, at_ D) /\ s' = set_cq (mkCq (cq_data (cq s1)) (at_ (S D)) (tag (S D))) s1))).
Proof.
  intros N. unfold dev_complete. eapply run_bind; [by eapply nvme_tick|]. intros [] s1 (P1 & N1 & T). eapply run_step; [reflexivity|].
  eapply run_lift; [apply (complete_queues _ _ _ _ _ _ (n_queues _ _ _ _ _ _ _ N1))|]. eapply run_step; [reflexivity|]. apply run_ret.
  exists P1, s1. split; [done|]. split; [done|]. cbn [fst snd]. destruct (decide (D < P1)) as [Hlt|Hge].
  - right. split; [done|]. pose proof (v_order _ _ _ _ _ _ (n_queues _ _ _ _ _ _ _ N1)).
    destruct (v_new _ _ _ _ _ _ (n_queues _ _ _ _ _ _ _ N1) D ltac:(lia)) as (e & He & _). rewrite He. by exists e.
  - left. split; [done|]. by destruct s1.
Qed.

(** *** Collecting *)

(** The oldest request leaves the queue. *)
Record released (s : NvmeDevice) (D : nat) (s' : NvmeDevice) : Prop := {
  l_data : sq_data (sq s') = sq_data (sq s); l_sqi : sq_i (sq s') = sq_i (sq s);
  l_slot : req_slot (sq s') = <[at_ D := false]> (req_slot (sq s));
  l_rrefs : blkreq_rrefs (sq s') = <[at_ D := None]> (blkreq_rrefs (sq s));
  l_cq : cq s' = mkCq (cq_data (cq s)) (at_ (S D)) (tag (S D));
  l_ctl : ctl s' = ctl s; l_blocks : blocks s' = blocks s; l_script : script s' = script s;
  l_submitted : submitted s' = submitted s; l_completed : (completed s <= completed s' <= completed s + 1)%Z }.

Lemma released_queues s a q D P R H s' : queues_ok s (a :: q) D P R H -> D < P -> released s D s' -> queues_ok s' q (S D) P R H.
Proof.
  intros V HDP L. destruct L. destruct (v_order _ _ _ _ _ _ V) as (H1 & H2 & H3 & H4 & H5 & H6). cbn [length] in H4, H5.
  pose proof (at_lt D) as HlD.
  split; rewrite ?l_data0, ?l_sqi0, ?l_slot0, ?l_rrefs0, ?l_cq0, ?l_ctl0; cbn [cq_data cq_i phase]; rewrite ?length_insert; try apply V.
  - lia.
  - rewrite (v_i _ _ _ _ _ _ V). f_equal. cbn [length]. lia.
  - intros k b Hk. pose proof (lookup_lt_Some _ _ _ Hk). rewrite !list_lookup_insert_ne by (apply at_ne; lia).
    replace (S D + k) with (D + S k) by lia. by apply (v_busy _ _ _ _ _ _ V).
  - intros j Hj. destruct (decide (j = D + QUEUE_DEPTH)) as [->|].
    + rewrite at_add, !list_lookup_insert_eq; rewrite ?(v_slots _ _ _ _ _ _ V), ?(v_rrefs _ _ _ _ _ _ V); done.
    + rewrite !list_lookup_insert_ne by (apply at_ne; lia). apply (v_free _ _ _ _ _ _ V). cbn [length]. lia.
  - done.
  - intros j Hj. apply (v_new _ _ _ _ _ _ V). lia.
  - intros j Hj. destruct (decide (j = D + QUEUE_DEPTH)) as [->|]; [|apply (v_old _ _ _ _ _ _ V); lia].
    rewrite at_add, tag_add, negb_involutive. apply (v_new _ _ _ _ _ _ V). lia.
Qed.

Lemma released_nvme s a q held D P R H s' : nvme_ok s (a :: q) held D P R H -> D < P -> released s D s' -> nvme_ok s' q (a :: held) (S D) P R H.
Proof.
  intros N HDP L. pose proof (released_queues _ _ _ _ _ _ _ _ (n_queues _ _ _ _ _ _ _ N) HDP L) as V.
  assert (Ep : q ++ a :: held ≡ₚ (a :: q) ++ held) by (cbn; by rewrite <- Permutation_middle).
  pose proof (n_counts _ _ _ _ _ _ _ N) as Hc. cbn [length] in Hc. destruct L. split; [done| | | |].
  - rewrite Ep. apply N.
  - intros b. rewrite Ep, l_blocks0. apply N.
  - rewrite l_script0. apply N.
  - rewrite l_submitted0. lia.
Qed.

(** What a collecting loop did: [got] was appended to [collect], [lost] was dropped. *)
Definition collected (lost : list Z) (s : NvmeDevice) (r : Reap) (q frame : list Z) (D R H : nat) (r' : Reap) (s' : NvmeDevice) : Prop :=
  exists got q' P', q = got ++ lost ++ q' /\ r_collect r' = r_collect r ++ got /\ r_count r' = r_count r + length got /\
    r_head r' = (if decide (got ++ lost = []) then r_head r else at_ (D + length (got ++ lost))) /\
    dropped s' = dropped s ++ lost /\ blocks s' = blocks s /\ submitted s' = submitted s /\
    nvme_ok s' q' (r_collect r' ++ lost ++ frame) (D + length (got ++ lost)) P' R H.

Lemma collected_nil s s' r q frame D P R H : nvme_ok s' q (r_collect r ++ frame) D P R H -> same s s' -> collected [] s r q frame D R H r s'.
Proof.
  intros N T. exists [], q, P. cbn. rewrite !app_nil_r, !Nat.add_0_r. destruct T. by split_and!.
Qed.

Lemma collected_cons lost s s1 r a x q frame D R H r' s' : same s s1 \/ (dropped s1 = dropped s /\ blocks s1 = blocks s /\ submitted s1 = submitted s) ->
  collected lost s1 (mkReap (r_collect r ++ [a]) (S (r_count r)) (at_ (S D)) x) q frame (S D) R H r' s' ->
  collected lost s r (a :: q) frame D R H r' s'.
Proof.
  intros T (got & q' & P' & -> & Ec & En & Eh & Ed & Eb & Es & N). cbn [r_collect r_count r_head] in *. exists (a :: got), q', P'.
  assert (E : dropped s1 = dropped s /\ blocks s1 = blocks s /\ submitted s1 = submitted s) by (destruct T as [[]|]; done).
  destruct E as (E1 & E2 & E3). cbn [app length]. rewrite <- (Nat.add_succ_comm D) . split_and!; [done|by rewrite Ec, <- app_assoc|lia| |congruence..|done].
  rewrite Eh, (decide_False (P := a :: _ = [])) by done. destruct (decide (got ++ lost = [])) as [->|]; [|done]. cbn. by rewrite Nat.add_0_r.
Qed.

Lemma collected_lost s s1 r a q frame D P R H x : dropped s1 = dropped s ++ [a] -> blocks s1 = blocks s -> submitted s1 = submitted s ->
  nvme_ok s1 q (a :: r_collect r ++ frame) (S D) P R H ->
  collected [a] s r (a :: q) frame D R H (mkReap (r_collect r) (r_count r) (at_ (S D)) x) s1.
Proof.
  intros E1 E2 E3 N. exists [], q, P. cbn [app length r_collect r_count r_head]. rewrite app_nil_r, Nat.add_0_r, Nat.add_1_r. split_and!; try done.
  eapply nvme_ok_perm; [|exact N]. apply Permutation_middle.
Qed.

Section Calls.
Context `{Profile}.

Lemma count_completed_run s : (0 <= completed s /\ completed s + 1 < 2 ^ 64)%Z -> count_completed s = Done (tt, set_completed (completed s + 1) s).
Proof. intros Hc. unfold count_completed. rewrite bind_get. unfold uadd. by rewrite checked_ok by (unfold in_width; lia). Qed.

(** The slot that the head of the completion queue points to, once an entry was read. *)
Lemma take_req_run s o i : blkreq_rrefs (sq s) !! i = Some o ->
  take_req i s = Done (o, set_sq (upd_rrefs (<[i := None]>) (sq s)) s).
Proof. intros E. unfold take_req. rewrite bind_get, (index_Some _ _ _ E). done. Qed.
Lemma slot_busy_run s b i : req_slot (sq s) !! i = Some b -> slot_busy i s = Done (b, s).
Proof. intros E. unfold slot_busy. rewrite bind_get, (index_Some _ _ _ E). done. Qed.

(** The entry was read and the slot's request taken. *)
Definition taken (D : nat) (s : NvmeDevice) : NvmeDevice :=
  set_sq (upd_rrefs (<[at_ D := None]>) (sq s)) (set_cq (mkCq (cq_data (cq s)) (at_ (S D)) (tag (S D))) s).

Definition finished (D : nat) (s : NvmeDevice) : NvmeDevice :=
  set_completed (completed s + 1) (set_sq (upd_rrefs (<[at_ D := None]>) (upd_slot (<[at_ D := false]>) (sq (taken D s)))) (taken D s)).

Lemma finish_run {B} (k : M NvmeDevice B) s a q held D P R H' post : nvme_ok s (a :: q) held D P R H' ->
  run k (finished D s) post ->
  run (_ ← free_slot (at_ D); _ ← clear_req (at_ D); _ ← count_completed; k) (taken D s) post.
Proof.
  intros N Hk. pose proof (n_counts _ _ _ _ _ _ _ N) as Hc. cbn [length] in Hc. pose proof (at_lt D) as HD.
  eapply run_step; [reflexivity|]. eapply run_step.
  { unfold clear_req. erewrite bind_Done; [|apply (take_req_run _ None); cbn; apply list_lookup_insert_eq; by rewrite (v_rrefs _ _ _ _ _ _ (n_queues _ _ _ _ _ _ _ N))]. reflexivity. }
  eapply run_step; [apply count_completed_run; cbn; lia|]. exact Hk.
Qed.

Lemma finished_ok s a q held D P R H' : nvme_ok s (a :: q) held D P R H' -> D < P -> nvme_ok (finished D s) q (a :: held) (S D) P R H'.
Proof.
  intros N HDP. apply (released_nvme s); [done..|]. split; cbn; try done; [by rewrite list_insert_insert_eq|lia].
Qed.

Lemma queue_cons s q D P R H' : queues_ok s q D P R H' -> D < P -> exists a q', q = a :: q'.
Proof. intros V HDP. pose proof (v_order _ _ _ _ _ _ V). destruct q as [|a q']; [cbn in *; lia|eauto]. Qed.

Lemma head_slot s a q D P R H' : queues_ok s (a :: q) D P R H' ->
  req_slot (sq s) !! at_ D = Some true /\ blkreq_rrefs (sq s) !! at_ D = Some (Some a).
Proof. intros V. destruct (v_busy _ _ _ _ _ _ V 0 a eq_refl) as (B1 & B2 & _). by rewrite Nat.add_0_r in B1, B2. Qed.

Lemma collect_loop_spec n r s q frame D P R H' : nvme_ok s q (r_collect r ++ frame) D P R H' ->
  run (collect_loop n r) s (collected [] s r q frame D R H').
Proof.
  revert r s q D P. induction n as [|n IH]; intros r s q D P N; cbn [collect_loop]; [apply run_ret; eapply collected_nil; [done|apply same_refl]|].
  destruct (Nat.eqb_spec (length (r_collect r)) COLLECT_CAP) as [Ef|Ef]; [apply run_ret; eapply collected_nil; [done|apply same_refl]|].
  eapply run_bind; [by eapply dev_complete_spec|]. intros c s2 (P1 & s1 & N1 & T & [(-> & ->)|(HDP & e & -> & ->)]); [apply run_ret; by eapply collected_nil|].
  pose proof (n_queues _ _ _ _ _ _ _ N1) as V1. destruct (queue_cons _ _ _ _ _ _ V1 HDP) as (a & q' & ->).
  destruct (head_slot _ _ _ _ _ _ _ V1) as [B1 B2]. eapply run_step; [apply (slot_busy_run _ true); exact B1|].
  eapply run_step; [apply (take_req_run _ (Some a)); exact B2|].
  cbv beta iota. unfold push_back. destruct (Nat.eqb_spec (length (r_collect r)) COLLECT_CAP) as [|_]; [done|].
  eapply (finish_run _ s1); [exact N1|]. eapply run_mono.
  - eapply (IH _ _ q' (S D) P1). cbn [r_collect]. eapply nvme_ok_perm; [|by apply finished_ok].
    rewrite <- app_assoc. apply Permutation_middle.
  - intros r' s' Hr. eapply collected_cons; [|exact Hr]. right. cbn. destruct T. done.
Qed.

Lemma nvme_poll_loop n r s q frame D P R H' : nvme_ok s q (r_collect r ++ frame) D P R H' ->
  run (poll_loop n r) s (fun r' s' => exists lost, collected lost s r q frame D R H' r' s' /\ (lost <> [] -> length (r_collect r') = POLL_CAP)).
Proof.
  revert r s q D P. induction n as [|n IH]; intros r s q D P N; cbn [poll_loop].
  { apply run_ret. exists []. split; [|done]. eapply collected_nil; [done|apply same_refl]. }
  pose proof (n_queues _ _ _ _ _ _ _ N) as V. eapply run_step; [reflexivity|].
  destruct (v_cq _ _ _ _ _ _ V) as [Ei _]. unfold get_cq_head. rewrite Ei, (v_cpls _ _ _ _ _ _ V), Nat.Div0.mod_mod.
  destruct (decide (q = [])) as [->|Hq].
  { eapply run_step; [apply slot_busy_run, (v_free _ _ _ _ _ _ V); cbn; pose proof depth_pos; lia|].
    apply run_ret. exists []. split; [|done]. eapply collected_nil; [done|apply same_refl]. }
  destruct q as [|a0 q0]; [done|]. eapply run_step; [apply (slot_busy_run _ true); by eapply head_slot|]. cbv beta iota. clear Hq.
  eapply run_bind; [by eapply dev_complete_spec|]. intros c s2 (P1 & s1 & N1 & T & [(-> & ->)|(HDP & e & -> & ->)]).
  { eapply run_mono; [by eapply IH|]. intros r' s' (lost & (got & q' & P' & E & Ec & En & Eh & Ed & Eb & Es & N') & Hl).
    exists lost. split; [|done]. destruct T. exists got, q', P'. split_and!; try done; congruence. }
  pose proof (n_queues _ _ _ _ _ _ _ N1) as V1. destruct (head_slot _ _ _ _ _ _ _ V1) as [B1 B2].
  eapply run_step; [apply (take_req_run _ (Some a0)); exact B2|]. cbv beta iota. unfold push_back.
  destruct (Nat.eqb_spec (length (r_collect r)) POLL_CAP) as [Ef|_].
  - do 2 (eapply run_step; [reflexivity|]). apply run_ret. exists [a0]. split; [|done]. destruct T.
    eapply collected_lost; cbn; [congruence..|]. apply (released_nvme s1); [done..|]. split; cbn; try done. lia.
  - eapply (finish_run _ s1); [exact N1|]. eapply run_mono.
    + eapply (IH _ _ q0 (S D) P1). cbn [r_collect]. eapply nvme_ok_perm; [|by apply finished_ok].
      rewrite <- app_assoc. apply Permutation_middle.
    + intros r' s' (lost & Hr & Hl). exists lost. split; [|done]. eapply collected_cons; [|exact Hr]. right. cbn. destruct T. done.
Qed.

(** *** Submitting *)

(** The command slot at the tail is claimed for [breq]. *)
Definition claimed (entry : NvmeCommand) (breq : Z) (q : NvmeCommandQueue) : NvmeCommandQueue :=
  let i := sq_i q in
  step_i (upd_slot (<[i := true]>) (upd_rrefs (<[i := Some breq]>)
    (upd_data (<[i := with_cdw10 (cdw10 entry mod wrap 32 NUM_LBAS) (with_cid (wrap 16 (Z.of_nat i)) entry)]>) q))).

Lemma submit_request_rref_free entry breq s q D P R H' : queues_ok s q D P R H' -> length q < QUEUE_DEPTH ->
  submit_request_rref entry breq (sq s) = Done (Some (at_ (S (D + length q))), claimed entry breq (sq s)).
Proof.
  intros V Hq. pose proof (at_lt (D + length q)) as Hl. destruct (v_free _ _ _ _ _ _ V (D + length q) ltac:(lia)) as [F1 F2].
  unfold submit_request_rref, claimed. rewrite (v_i _ _ _ _ _ _ V), (index_Some _ _ _ F1). cbn [mbind outcome_bind].
  unfold put_cmd, put_in, claim. rewrite (v_data _ _ _ _ _ _ V), (proj2 (Nat.ltb_lt _ _) Hl). cbn [mbind outcome_bind blkreq_rrefs upd_data].
  rewrite (v_rrefs _ _ _ _ _ _ V), (proj2 (Nat.ltb_lt _ _) Hl). cbn [mbind outcome_bind req_slot upd_rrefs upd_data].
  rewrite (v_slots _ _ _ _ _ _ V), (proj2 (Nat.ltb_lt _ _) Hl). cbn [mbind outcome_bind]. unfold step_i.
  cbn [sq_i sq_data upd_slot upd_rrefs upd_data upd_i]. by rewrite length_insert, (v_data _ _ _ _ _ _ V), (v_i _ _ _ _ _ _ V), at_S.
Qed.

Lemma claimed_queues entry breq s q D P R H' : queues_ok s q D P R H' -> length q < QUEUE_DEPTH -> dptr0 entry = breq ->
  queues_ok (set_sq (claimed entry breq (sq s)) s) (q ++ [breq]) D P R H'.
Proof.
  intros V Hq Ep. destruct (v_order _ _ _ _ _ _ V) as (H1 & H2 & H3 & H4 & H5 & H6). pose proof (at_lt (D + length q)) as Hl.
  assert (Hne : forall j, D <= j < D + QUEUE_DEPTH -> j <> D + length q -> at_ (D + length q) <> at_ j).
  { intros j Hj Hn. destruct (decide (j < D + length q)); [apply not_eq_sym|]; apply at_ne; lia. }
  split; unfold claimed, step_i; cbn [sq cq ctl set_sq sq_data req_slot blkreq_rrefs sq_i upd_slot upd_rrefs upd_data upd_i]; rewrite ?(v_i _ _ _ _ _ _ V), ?length_insert, ?length_app; cbn [length]; try apply V.
  - lia.
  - rewrite (v_data _ _ _ _ _ _ V), at_S. f_equal. lia.
  - intros k a Hk. apply lookup_app_Some in Hk as [Hk|[Hk1 Hk2]].
    + pose proof (lookup_lt_Some _ _ _ Hk). rewrite !list_lookup_insert_ne by (apply Hne; lia). by apply (v_busy _ _ _ _ _ _ V).
    + apply list_lookup_singleton_Some in Hk2 as [Hk2 <-]. replace k with (length q) by lia.
      rewrite !list_lookup_insert_eq; rewrite ?(v_slots _ _ _ _ _ _ V), ?(v_rrefs _ _ _ _ _ _ V), ?(v_data _ _ _ _ _ _ V); try done.
      split_and!; [done..|]. by eexists.
  - intros j Hj. rewrite !list_lookup_insert_ne by (apply Hne; lia). apply (v_free _ _ _ _ _ _ V). lia.
Qed.

Lemma dev_submit_run entry breq s q D P R H' : queues_ok s q D P R H' -> length q < QUEUE_DEPTH ->
  dev_submit entry breq s = Done (Some (at_ (S (D + length q))), set_sq (claimed entry breq (sq s)) s).
Proof.
  intros V Hq. destruct (v_free _ _ _ _ _ _ V (D + length q) ltac:(lia)) as [F1 F2].
  unfold dev_submit. rewrite bind_get, (submit_request_rref_free entry breq s q D P R H' V Hq). cbn [fst snd].
  rewrite (v_i _ _ _ _ _ _ V), F2. done.
Qed.

(** What the submitting loop did: the requests [ins] of [submit] were queued. *)
Definition queued (s : NvmeDevice) (submit q frame : list Z) (count : nat) (D P R H : nat) (p : list Z * nat * nat) (tail : nat) (s' : NvmeDevice) : Prop :=
  exists ins rest, submit = ins ++ rest /\ p.1.1 ≡ₚ rest /\ p.1.2 = count + length ins /\
    p.2 = (if decide (ins = []) then tail else at_ (D + length (q ++ ins))) /\
    dropped s' = dropped s /\ blocks s' = blocks s /\ nvme_ok s' (q ++ ins) (p.1.1 ++ frame) D P R H.

Lemma submit_loop_spec write submit s q frame count tail D P R H' : nvme_ok s q (submit ++ frame) D P R H' ->
  length submit <= COLLECT_CAP -> (submitted s + Z.of_nat (length submit) + Z.of_nat QUEUE_DEPTH < 2 ^ 64)%Z ->
  run (submit_loop write submit count tail) s (fun p s' => queued s submit q frame count D P R H' p tail s').
Proof.
  revert s q count tail. induction submit as [|breq rest IH]; intros s q count tail N Hl Hs; cbn [submit_loop].
  { apply run_ret. exists [], []. cbn. rewrite !app_nil_r, Nat.add_0_r. by split_and!. }
  pose proof (n_queues _ _ _ _ _ _ _ N) as V. destruct (v_order _ _ _ _ _ _ V) as (H1 & H2 & H3 & H4 & H5 & H6).
  eapply run_step; [reflexivity|].
  destruct (n_blocks _ _ _ _ _ _ _ N breq) as [block Hb]; [apply elem_of_app; right; cbn; left|].
  eapply run_lift; [by rewrite Hb|]. cbn [length] in Hl, Hs. set (entry := if write then _ else _).
  assert (Ep : dptr0 entry = breq) by (subst entry; by destruct write). clearbody entry.
  destruct (decide (length q = QUEUE_DEPTH)) as [Ef|Hq].
  - destruct q as [|a0 q0] eqn:Eq; [cbn in Ef; pose proof depth_pos; lia|]. rewrite <- Eq in *.
    destruct (head_slot s a0 q0 D P R H') as [B1 B2]; [by rewrite <- Eq|].
    eapply run_lift. { unfold is_submittable. by rewrite (v_i _ _ _ _ _ _ V), Ef, at_add, (index_Some _ _ _ B1). }
    cbv beta iota. unfold push_back. destruct (Nat.eqb_spec (length rest) COLLECT_CAP) as [|_]; [lia|].
    eapply run_step; [reflexivity|]. apply run_ret. exists [], (breq :: rest). cbn [fst snd]. rewrite !app_nil_r, Nat.add_0_r.
    split_and!; try done; [by rewrite Permutation_app_comm|]. eapply nvme_ok_perm; [|exact N]. rewrite <- app_assoc. apply Permutation_middle.
  - destruct (v_free _ _ _ _ _ _ V (D + length q) ltac:(lia)) as [F1 F2].
    eapply run_lift. { unfold is_submittable. by rewrite (v_i _ _ _ _ _ _ V), (index_Some _ _ _ F1). }
    cbv beta iota. eapply run_step; [eapply dev_submit_run; [exact V|lia]|]. cbv beta iota.
    pose proof (n_counts _ _ _ _ _ _ _ N) as Hc.
    eapply run_step. { unfold count_submitted. rewrite bind_get. unfold uadd. rewrite checked_ok by (unfold in_width; cbn; lia). reflexivity. }
    eapply run_mono.
    + eapply (IH _ (q ++ [breq])); [|lia|cbn; lia]. split.
      * eapply (queues_ok_ext (set_sq (claimed entry breq (sq s)) s)); [done..|]. apply claimed_queues; [done|lia|done].
      * rewrite <- app_assoc. apply N.
      * intros a. rewrite <- app_assoc. apply N.
      * apply N.
      * cbn. rewrite length_app. cbn. lia.
    + intros p s' (ins & rest' & -> & Hp & En & Et & Ed & Eb & N'). rewrite <- app_assoc in N'. exists (breq :: ins), rest'.
      split_and!; try done; [cbn; lia|]. rewrite Et, (decide_False (P := breq :: ins = [])) by done.
      destruct (decide (ins = [])) as [->|]; rewrite !length_app; cbn; f_equal; lia.
Qed.

(** *** The doorbells and the calls *)

(** Between calls the controller has been told of every command. *)
Definition idle (s : NvmeDevice) (q held : list Z) : Prop := exists D P H, nvme_ok s q held D P (D + length q) H.

Lemma idle_perm s q held held' : held ≡ₚ held' -> idle s q held -> idle s q held'.
Proof. intros E (D & P & H' & N). exists D, P, H'. by eapply nvme_ok_perm. Qed.

Lemma reset_idle s q held : idle s q held -> idle (reset_stats s) q held.
Proof.
  intros (D & P & H' & N). exists D, P, H'. split; try apply N; [eapply queues_ok_ext; [..|apply N]; done|].
  pose proof (n_counts _ _ _ _ _ _ _ N). pose proof (v_order _ _ _ _ _ _ (n_queues _ _ _ _ _ _ _ N)). cbn. lia.
Qed.

Lemma tail_doorbell_run s q held D P R H' : nvme_ok s q held D P R H' ->
  run (submission_queue_tail (at_ (D + length q))) s (fun _ s' => nvme_ok s' q held D P (D + length q) H' /\ dropped s' = dropped s /\ blocks s' = blocks s).
Proof.
  intros N. eexists tt, _. split; [reflexivity|]. split; [|done]. pose proof (n_queues _ _ _ _ _ _ _ N) as V.
  destruct (v_order _ _ _ _ _ _ V) as (H1 & H2 & H3 & H4 & H5 & H6). destruct (v_ctl _ _ _ _ _ _ V) as (F & pend & HF & Hl & Ho & Ec). split; try apply N.
  split; cbn [sq cq ctl set_ctl]; try apply V; [lia|]. rewrite Ec. exists F, pend. split_and!; [lia..|done|done].
Qed.

Lemma head_doorbell_run s q held D P R H' : nvme_ok s q held D P R H' ->
  run (completion_queue_head (at_ D)) s (fun _ s' => nvme_ok s' q held D P R D /\ dropped s' = dropped s /\ blocks s' = blocks s).
Proof.
  intros N. eexists tt, _. split; [reflexivity|]. split; [|done]. pose proof (n_queues _ _ _ _ _ _ _ N) as V.
  destruct (v_order _ _ _ _ _ _ V) as (H1 & H2 & H3 & H4 & H5 & H6). destruct (v_ctl _ _ _ _ _ _ V) as (F & pend & HF & Hl & Ho & Ec). split; try apply N.
  split; cbn [sq cq ctl set_ctl]; try apply V; [lia|]. rewrite Ec. by exists F, pend.
Qed.

(** Ringing the head doorbell after collecting. *)
Lemma collected_doorbell lost s r0 q frame D H' r s1 : r_count r0 = 0 -> collected lost s r0 q frame D (D + length q) H' r s1 ->
  run (if 0 <? r_count r then completion_queue_head (r_head r) else mret tt) s1 (fun _ s' => exists got q', q = got ++ lost ++ q' /\
    r_collect r = r_collect r0 ++ got /\ r_count r = length got /\ dropped s' = dropped s ++ lost /\ blocks s' = blocks s /\ idle s' q' (r_collect r ++ lost ++ frame)).
Proof.
  intros E0 (got & q' & P' & -> & Ec & En & Eh & Ed & Eb & Es & N). rewrite E0 in En. cbn in En.
  assert (El : D + length (got ++ lost ++ q') = D + length (got ++ lost) + length q') by (rewrite !length_app; lia).
  rewrite El in N. rewrite En. destruct (Nat.ltb_spec 0 (length got)) as [Hg|Hg].
  - destruct got as [|g got]; [cbn in Hg; lia|]. rewrite decide_False in Eh by done. rewrite Eh.
    eapply run_mono; [by eapply head_doorbell_run|]. intros _ s' (N' & Ed' & Eb'). exists (g :: got), q'. rewrite Ed', Eb'.
    split_and!; try done. by eexists _, _, _.
  - apply run_ret. exists got, q'. split_and!; try done. by eexists _, _, _.
Qed.

Lemma submit_and_poll_run submit collect write s q frame : idle s q ((submit ++ collect) ++ frame) ->
  length submit <= COLLECT_CAP -> (submitted s + Z.of_nat (length submit) + Z.of_nat QUEUE_DEPTH < 2 ^ 64)%Z ->
  run (submit_and_poll_rref submit collect write) s (fun r s' => let '(n, _, _, _, sub', col') := r in
    exists ins rest got q', submit = ins ++ rest /\ sub' ≡ₚ rest /\ n = length ins /\ col' = collect ++ got /\ q ++ ins = got ++ q' /\
      dropped s' = dropped s /\ idle s' q' ((sub' ++ col') ++ frame)).
Proof.
  intros (D & P & H' & N) Hl Hs. unfold submit_and_poll_rref. rewrite <- app_assoc in N.
  eapply run_bind; [by eapply submit_loop_spec|]. intros [[sub' n] tail] s1 (ins & rest & -> & Hp & En & Et & Ed & Eb & N1). cbn [fst snd] in *.
  rewrite length_app in Hl. pose proof depth_batch as Hd.
  assert (Hb : run (if 0 <? n then submission_queue_tail tail else mret tt) s1 (fun _ s2 =>
    nvme_ok s2 (q ++ ins) (sub' ++ collect ++ frame) D P (D + length (q ++ ins)) H' /\ dropped s2 = dropped s /\ blocks s2 = blocks s)).
  { rewrite En. destruct ins as [|i ins]; cbn [Nat.add length Nat.ltb Nat.leb].
    - apply run_ret. rewrite app_nil_r in *. done.
    - rewrite Et, decide_False by done. eapply run_mono; [eapply tail_doorbell_run; exact N1|].
      intros _ s2 (N2 & Ed2 & Eb2). split_and!; [done|congruence..]. }
  eapply run_bind; [exact Hb|]. clear Hb. intros _ s2 (N2 & Ed2 & Eb2).
  assert (N2' : nvme_ok s2 (q ++ ins) (collect ++ (sub' ++ frame)) D P (D + length (q ++ ins)) H').
  { eapply nvme_ok_perm; [|exact N2]. rewrite !app_assoc. by rewrite (Permutation_app_comm sub'). }
  eapply run_bind; [exact (collect_loop_spec batch_sz (mkReap collect 0 0 0) _ _ _ _ _ _ _ N2')|]. intros r s3 Hr.
  eapply run_bind; [by eapply collected_doorbell; [|exact Hr]|]. intros _ s4 (got & q' & Eq & Ec & _ & Ed4 & Eb4 & I). apply run_ret.
  cbn [r_collect app] in *. exists ins, rest, got, q'. rewrite app_nil_r in Ed4. split_and!; [done..|congruence|].
  eapply idle_perm; [|exact I]. rewrite !app_assoc. by rewrite (Permutation_app_comm (r_collect r)).
Qed.

Lemma poll_run collect s q frame : idle s q (collect ++ frame) ->
  run (poll_rref collect) s (fun r s' => exists got lost q', q = got ++ lost ++ q' /\ r = (length got, collect ++ got) /\ dropped s' = dropped s ++ lost /\
    idle s' q' ((collect ++ got) ++ lost ++ frame) /\ (length collect + length q <= POLL_CAP -> lost = [])).
Proof.
  intros (D & P & H' & N). unfold poll_rref. eapply run_bind; [exact (nvme_poll_loop QUEUE_DEPTH (mkReap collect 0 0 0) _ _ _ _ _ _ _ N)|].
  intros r s1 (lost & Hr & Hf). eapply run_bind; [by eapply collected_doorbell; [|exact Hr]|]. intros _ s2 (got & q' & Eq & Ec & En & Ed & Eb & I).
  apply run_ret. cbn [r_collect] in Ec. rewrite Ec in *. exists got, lost, q'. rewrite En. split_and!; [done..|].
  intros Hroom. destruct lost as [|a lost]; [done|]. specialize (Hf ltac:(done)). rewrite Eq, !length_app in *. cbn [length] in *. lia.
Qed.
End Calls.

(** ** A client of the driver *)

Section History.
Context `{Profile}.

(** The device, the requests the client holds, those it has sent and got back, in order. *)
Record Client := mkClient { dev : NvmeDevice; held : list Z; sent : list Z; back : list Z }.

Inductive call := SubmitPoll (submit collect : list Z) (write : bool) | Poll (collect : list Z) | GetStats.
Definition call_in (c : call) : list Z := match c with SubmitPoll submit collect _ => submit ++ collect | Poll collect => collect | GetStats => [] end.

(** The client gives requests that it holds, keeping [frame]; a queue of requests to
    submit has at most 128 and the 64-bit counter does not overflow. *)
Definition permitted (c : call) (frame : list Z) (y : Client) : Prop :=
  held y ≡ₚ call_in c ++ frame /\
  match c with
  | SubmitPoll submit _ _ => length submit <= COLLECT_CAP /\ (submitted (dev y) + Z.of_nat (length submit) + Z.of_nat QUEUE_DEPTH < 2 ^ 64)%Z
  | Poll _ | GetStats => True
  end.

(** The requests with the device, oldest first. *)
Definition outstanding (s : NvmeDevice) : list Z :=
  omap (fun k => mjoin (blkreq_rrefs (sq s) !! ((cq_i (cq s) + k) mod QUEUE_DEPTH))) (seq 0 QUEUE_DEPTH).

(** There is room for everything that a poll can give back. *)
Definition roomy (c : call) (y : Client) : Prop :=
  match c with Poll collect => length collect + length (outstanding (dev y)) <= POLL_CAP | _ => True end.

Definition exec (c : call) (frame : list Z) (y : Client) : outcome Client :=
  match c with
  | SubmitPoll submit collect write =>
      p ← submit_and_poll_rref submit collect write (dev y);
      let '(n, _, _, _, sub', col') := p.1 in
      Done (mkClient p.2 ((sub' ++ col') ++ frame) (sent y ++ take n submit) (back y ++ drop (length collect) col'))
  | Poll collect =>
      p ← poll_rref collect (dev y);
      Done (mkClient p.2 (p.1.2 ++ frame) (sent y) (back y ++ drop (length collect) p.1.2))
  | GetStats => p ← dev_get_stats (dev y); Done (mkClient p.2 frame (sent y) (back y))
  end.

Inductive history (bl : gmap Z Z) (sc : list (list event)) (reqs : list Z) : Client -> Prop :=
  | history_new : history bl sc reqs (mkClient (NvmeDevice_new bl sc) reqs [] [])
  | history_call y c frame y' : history bl sc reqs y -> permitted c frame y -> exec c frame y = Done y' -> history bl sc reqs y'.

Lemma omap_seq {A} (f : nat -> option A) (q : list A) c : (forall k a, q !! k = Some a -> f (c + k) = Some a) -> omap f (seq c (length q)) = q.
Proof.
  revert c. induction q as [|a q IH]; intros c Hf; [done|]. cbn. rewrite <- (Nat.add_0_r c), (Hf 0 a), Nat.add_0_r by done. f_equal.
  apply IH. intros k b Hk. rewrite Nat.add_succ_comm. by apply Hf.
Qed.

Lemma outstanding_spec s q D P R H' : queues_ok s q D P R H' -> outstanding s = q.
Proof.
  intros V. destruct (v_order _ _ _ _ _ _ V) as (_ & _ & _ & _ & Hq & _). destruct (v_cq _ _ _ _ _ _ V) as [Ei _]. unfold outstanding. rewrite Ei.
  assert (Es : seq 0 QUEUE_DEPTH = seq 0 (length q) ++ seq (length q) (QUEUE_DEPTH - length q)) by (rewrite <- seq_app; f_equal; lia).
  rewrite Es, omap_app.
  rewrite omap_seq; [|intros k a Hk].
  - etransitivity; [|apply app_nil_r]. f_equal. apply omap_none. intros k Hk. apply elem_of_seq in Hk.
    rewrite Nat.Div0.add_mod_idemp_l. by rewrite (proj2 (v_free _ _ _ _ _ _ V (D + k) ltac:(lia))).
  - cbn [Nat.add]. rewrite Nat.Div0.add_mod_idemp_l. destruct (v_busy _ _ _ _ _ _ V k a Hk) as (_ & -> & _). done.
Qed.

(** Every request is in one place, and requests come back in the order they were sent. *)
Definition client_ok (reqs : list Z) (y : Client) : Prop := exists q, idle (dev y) q (held y ++ dropped (dev y)) /\
  held y ++ q ++ dropped (dev y) ≡ₚ reqs /\ (dropped (dev y) = [] -> sent y = back y ++ q).

Lemma new_ok bl sc reqs : NoDup reqs -> (forall a, a ∈ reqs -> is_Some (bl !! a)) -> (ord -> Forall (Forall in_order) sc) ->
  client_ok reqs (mkClient (NvmeDevice_new bl sc) reqs [] []).
Proof.
  intros Hd Hb Hs. exists []. cbn [dev held sent back dropped NvmeDevice_new app]. rewrite !app_nil_r. split_and!; [|done..].
  pose proof depth_pos as Hp. assert (E0 : at_ 0 = 0) by apply Nat.Div0.mod_0_l. assert (T0 : tag 0 = true) by (unfold tag; by rewrite Nat.Div0.div_0_l).
  exists 0, 0, 0. split; [|done..|pose proof depth_width; cbn; lia].
  split; cbn [sq cq ctl NvmeDevice_new sq_data req_slot blkreq_rrefs cq_data cq_i phase sq_i NvmeCommandQueue_new NvmeCompletionQueue_new length Nat.add];
    rewrite ?length_replicate, ?E0, ?T0; try done.
  - lia.
  - intros j Hj. rewrite !lookup_replicate_2 by apply at_lt. done.
  - intros j Hj. lia.
  - intros j Hj. exists zero_cpl. rewrite lookup_replicate_2 by apply at_lt. split; [done|]. unfold tag. by rewrite Nat.div_small by lia.
  - exists 0, []. rewrite E0. by split_and!.
Qed.

Lemma exec_ok reqs c frame y : client_ok reqs y -> permitted c frame y -> exists y', exec c frame y = Done y' /\ client_ok reqs y' /\ (roomy c y -> dropped (dev y') = dropped (dev y)).
Proof.
  intros (q & I & Hr & Hf) [Hh Hc]. rewrite Hh, <- ?app_assoc in Hr.
  assert (Eo : outstanding (dev y) = q) by (destruct I as (D & P & H' & N); eapply outstanding_spec, N). unfold roomy. rewrite Eo.
  assert (I' : idle (dev y) q (call_in c ++ frame ++ dropped (dev y))) by (eapply idle_perm; [|exact I]; by rewrite Hh, <- app_assoc).
  destruct c as [submit collect write|collect|]; cbn [call_in exec] in *.
  - destruct Hc as [Hl Hs]. destruct (submit_and_poll_run submit collect write _ _ _ I' Hl Hs) as ([[[[[n t1] t2] t3] sub'] col'] & s' & E & Hp).
    destruct Hp as (ins & rest & got & q' & -> & Hp & -> & -> & Eq & Ed & I2). rewrite E. cbn [mbind outcome_bind fst snd]. eexists. split; [reflexivity|]. split; [|done].
    exists q'. cbn [dev held sent back]. rewrite Ed. split_and!.
    + by rewrite <- (app_assoc _ frame).
    + rewrite <- Hr, Hp. rewrite <- !app_assoc. apply (f_equal (fun l => Permutation l (q ++ ins))) in Eq.
      assert (Eq' : got ++ q' ≡ₚ q ++ ins) by (rewrite <- Eq; done).
      transitivity (rest ++ collect ++ frame ++ (got ++ q') ++ dropped (dev y)); [solve_Permutation|]. rewrite Eq'. solve_Permutation.
    + intros Hd. rewrite (Hf Hd), take_app_length, drop_app_length, <- !app_assoc. by f_equal.
  - destruct (poll_run collect _ _ _ I') as (r & s' & E & got & lost & q' & Eq & -> & Ed & I2 & Hl). rewrite E. cbn [mbind outcome_bind fst snd].
    eexists. split; [reflexivity|]. split; [|intros Hroom; cbn [dev]; by rewrite Ed, (Hl Hroom), app_nil_r].
    clear Eo. subst q. exists q'. cbn [dev held sent back]. rewrite Ed. split_and!.
    + eapply idle_perm; [|exact I2]. solve_Permutation.
    + rewrite <- Hr. solve_Permutation.
    + intros [Hd ->]%app_nil. rewrite (Hf Hd), drop_app_length, <- !app_assoc. done.
  - eexists. split; [reflexivity|]. split; [|done]. exists q. cbn [dev held sent back]. split_and!; [|by rewrite <- Hr|done].
    by apply reset_idle.
Qed.

Lemma history_ok bl sc reqs y : NoDup reqs -> (forall a, a ∈ reqs -> is_Some (bl !! a)) -> (ord -> Forall (Forall in_order) sc) ->
  history bl sc reqs y -> client_ok reqs y.
Proof.
  intros Hd Hb Hs Hy. induction Hy as [|y c frame y' Hy IH Hp E]; [by apply new_ok|]. destruct (exec_ok _ _ _ _ IH Hp) as (y2 & E2 & O & _).
  rewrite E in E2. by injection E2 as <-.
Qed.

Lemma seen_outstanding s q held' slot : ord -> idle s q held' -> slot ∈ seen (ctl s) ->
  exists c, sq_data (sq s) !! slot = Some c /\ dptr0 c ∈ q.
Proof.
  intros O (D & P & H' & N). pose proof (n_queues _ _ _ _ _ _ _ N) as V. destruct (v_order _ _ _ _ _ _ V) as (H1 & H2 & H3 & H4 & H5 & H6).
  destruct (v_ctl _ _ _ _ _ _ V) as (F & pend & HF & Hl & Ho & Ec). unfold seen. rewrite Ec, (Ho O). cbn [pending fetch_i tail_db]. intros Hin.
  assert (Hj : exists j, slot = at_ j /\ P <= j < D + length q).
  { apply elem_of_app in Hin as [(j & -> & Hj%elem_of_seq)%list_elem_of_fmap|Hin]; [exists j; split; [done|lia]|].
    destruct (decide (D + length q = F + QUEUE_DEPTH)) as [E|].
    - rewrite E, at_add in Hin. unfold ring_range in Hin. rewrite Nat.leb_refl, Nat.sub_diag in Hin. by apply not_elem_of_nil in Hin.
    - rewrite ring_range_spec in Hin by lia. apply list_elem_of_fmap in Hin as (j & -> & Hj%elem_of_seq). exists j. split; [done|lia]. }
  destruct Hj as (j & -> & Hj). destruct (lookup_lt_is_Some_2 q (j - D) ltac:(lia)) as [a Ha]. destruct (v_busy _ _ _ _ _ _ V _ _ Ha) as (_ & _ & c & Hc & <-).
  replace (D + (j - D)) with j in Hc by lia. exists c. split; [done|]. by eapply list_elem_of_lookup_2.
Qed.
End History.
End Order.

(** C18: with any controller, in every history of permitted calls of submit_and_poll_rref,
    poll_rref and get_stats, each request is in one place only: with the client, with the
    device, or lost because a poll found the client's queue full.  A call with room for the
    outstanding requests loses none, and as long as none was lost, requests come back in the
    order they were sent, whatever the order in which their commands complete.  When the
    controller completes commands in the order it fetches them, every command that it has
    or can fetch points to a request that is with the device and not with the client.
    Every permitted call returns. *)
Theorem nvme_history_safe `{Profile} bl sc reqs y : NoDup reqs -> (forall a, a ∈ reqs -> is_Some (bl !! a)) -> history bl sc reqs y ->
  held y ++ outstanding (dev y) ++ dropped (dev y) ≡ₚ reqs /\
  (dropped (dev y) = [] -> sent y = back y ++ outstanding (dev y)) /\
  (Forall (Forall in_order) sc -> forall slot, slot ∈ seen (ctl (dev y)) ->
    exists c, sq_data (sq (dev y)) !! slot = Some c /\ dptr0 c ∈ outstanding (dev y) /\ dptr0 c ∉ held y) /\
  (forall c frame, permitted c frame y -> exists y', exec c frame y = Done y' /\ (roomy c y -> dropped (dev y') = dropped (dev y))).
Proof.
  intros Hd Hb Hy. destruct (history_ok (Forall (Forall in_order) sc) _ _ _ _ Hd Hb (fun O => O) Hy) as (q & I & Hr & Hf).
  assert (Eo : outstanding (dev y) = q) by (destruct I as (D & P & H' & N); eapply outstanding_spec, N). rewrite Eo. split_and!; [done..| |].
  - intros O slot Hslot. destruct (seen_outstanding _ _ _ _ _ O I Hslot) as (c & Hc & Hin). exists c. split_and!; [done..|]. intros Hh.
    rewrite <- Hr in Hd. apply list.NoDup_app in Hd as (_ & Hd & _). apply (Hd _ Hh). apply elem_of_app. by left.
  - intros c frame Hp. destruct (exec_ok (Forall (Forall in_order) sc) reqs c frame y) as (y' & E & _ & Hl); [by exists q|done|]. by exists y'.
Qed.

(** ** A full submission queue *)

Section Stalled.
Context `{Profile}.

(** The controller has nothing to do and sees an empty submission queue. *)
Definition frozen (s : NvmeDevice) : Prop := pending (ctl s) = [] /\ fetch_i (ctl s) = tail_db (ctl s).

Lemma frozen_posts es s : frozen s -> posts es s = s.
Proof.
  intros [Ep Ef]. induction es as [|e es IH]; [done|]. cbn [posts foldl]. fold (posts es).
  assert (E : post e s = s) by (destruct e; cbn [post]; unfold fetch; rewrite ?Ep, ?Ef, ?Nat.eqb_refl; done). by rewrite E.
Qed.

(** All 1024 slots are taken, none was fetched and no completion waits. *)
Definition stalled (s : NvmeDevice) (q : list Z) : Prop := frozen s /\ length q = QUEUE_DEPTH /\ exists D R H', queues_ok False s q D D R H'.

Lemma stalled_dev_complete s q : stalled s q -> exists sc, dev_complete s = Done (None, set_script sc s) /\ stalled (set_script sc s) q.
Proof.
  intros (Fr & Hq & D & R & H' & V).
  assert (Et : exists sc, tick s = Done (tt, set_script sc s)).
  { unfold tick, modify. destruct (script s) as [|es sc] eqn:Es; [exists []; rewrite <- Es; by destruct s|].
    exists sc. by rewrite frozen_posts. }
  destruct Et as [sc Et]. exists sc. assert (V' : queues_ok False (set_script sc s) q D D R H') by by apply (queues_ok_ext _ s).
  split; [|split_and!; [done..|by exists D, R, H']].
  unfold dev_complete. rewrite (bind_Done _ _ _ _ _ Et), bind_get, (complete_queues _ _ _ _ _ _ _ V').
  rewrite !decide_False by lia. done.
Qed.

Lemma stalled_head s q D R H' : queues_ok False s q D D R H' -> length q = QUEUE_DEPTH -> req_slot (sq s) !! at_ D = Some true.
Proof. intros V Hq. destruct q as [|a q]; [cbn in Hq; pose proof depth_pos; lia|]. by destruct (head_slot _ _ _ _ _ _ _ _ V). Qed.

Lemma stalled_collect n r s q : stalled s q -> run (collect_loop n r) s (fun r' s' => r' = r /\ stalled s' q /\ exists sc, s' = set_script sc s).
Proof.
  intros St. assert (St0 : exists sc, s = set_script sc s) by (exists (script s); by destruct s).
  destruct n as [|n]; cbn [collect_loop]; [by apply run_ret|]. destruct (_ =? _); [by apply run_ret|].
  destruct (stalled_dev_complete s q St) as (sc & E & St'). eapply run_step; [exact E|]. apply run_ret. split_and!; [done..|by exists sc].
Qed.

Lemma stalled_poll n r s q : stalled s q -> run (poll_loop n r) s (fun r' s' => r' = r /\ stalled s' q /\ exists sc, s' = set_script sc s).
Proof.
  revert s. induction n as [|n IH]; intros s St; cbn [poll_loop]; [apply run_ret; split_and!; [done..|exists (script s); by destruct s]|].
  pose proof St as (Fr & Hq & D & R & H' & V). eapply run_step; [reflexivity|]. destruct (v_cq _ _ _ _ _ _ _ V) as [Ei _].
  unfold get_cq_head. rewrite Ei, (v_cpls _ _ _ _ _ _ _ V), Nat.Div0.mod_mod.
  eapply run_step; [apply (slot_busy_run _ true); by eapply stalled_head|]. cbv beta iota.
  destruct (stalled_dev_complete s q St) as (sc & E & St'). eapply run_step; [exact E|]. cbv beta iota.
  eapply run_mono; [by apply IH|]. intros r' s' (-> & St2 & sc' & ->). split_and!; [done..|]. by exists sc'.
Qed.

Lemma stalled_submit write submit s q : stalled s q -> length submit <= COLLECT_CAP -> (forall a, a ∈ submit -> is_Some (blocks s !! a)) ->
  run (submit_loop write submit 0 0) s (fun p s' => p.1.1 ≡ₚ submit /\ p.1.2 = 0 /\ s' = s).
Proof.
  intros (Fr & Hq & D & R & H' & V) Hl Hb. destruct submit as [|breq rest]; cbn [submit_loop]; [by apply run_ret|].
  eapply run_step; [reflexivity|]. destruct (Hb breq) as [block Eb]; [left|]. eapply run_lift; [by rewrite Eb|].
  eapply run_lift; [unfold is_submittable; rewrite (v_i _ _ _ _ _ _ _ V), Hq, at_add; by rewrite (index_Some _ _ _ (stalled_head _ _ _ _ _ V Hq))|].
  cbv beta iota. cbn [negb]. unfold push_back. cbn [length] in Hl. destruct (Nat.eqb_spec (length rest) COLLECT_CAP) as [|_]; [lia|].
  eapply run_step; [reflexivity|]. apply run_ret. cbn [fst snd]. split_and!; [by rewrite Permutation_app_comm|done..].
Qed.

Lemma stalled_exec c frame y q y' : stalled (dev y) q -> (forall a, a ∈ held y -> is_Some (blocks (dev y) !! a)) -> permitted c frame y ->
  exec c frame y = Done y' ->
  stalled (dev y') q /\ held y' ≡ₚ held y /\ blocks (dev y') = blocks (dev y) /\ sent y' = sent y /\ back y' = back y.
Proof.
  intros St Hb [Hh Hc] E. destruct c as [submit collect write|collect|]; cbn [exec call_in] in *.
  - assert (Hr : run (submit_and_poll_rref submit collect write) (dev y) (fun r s' => let '(n, _, _, _, sub', col') := r in
      n = 0 /\ sub' ≡ₚ submit /\ col' = collect /\ stalled s' q /\ blocks s' = blocks (dev y))).
    { unfold submit_and_poll_rref. eapply run_bind; [apply (stalled_submit write submit (dev y) q St); [apply Hc|intros a Ha; apply Hb; rewrite Hh; set_solver]|].
      intros [[sub' n] tail] s1 (Hs & Hn & ->). cbn [fst snd] in *. subst n. eapply run_step; [reflexivity|].
      eapply run_bind; [by apply stalled_collect|]. intros r s2 (-> & St2 & sc & ->). eapply run_step; [reflexivity|]. by apply run_ret. }
    destruct Hr as ([[[[[n t1] t2] t3] sub'] col'] & s' & Er & -> & Hs & -> & St' & Eb). rewrite Er in E. injection E as <-. cbn [dev held sent back].
    split_and!; [done|by rewrite Hh, Hs|done|by rewrite take_0, app_nil_r|by rewrite drop_all, app_nil_r].
  - assert (Hr : run (poll_rref collect) (dev y) (fun r s' => r.2 = collect /\ stalled s' q /\ blocks s' = blocks (dev y))).
    { unfold poll_rref. eapply run_bind; [by apply stalled_poll|]. intros r s2 (-> & St2 & sc & ->). eapply run_step; [reflexivity|]. by apply run_ret. }
    destruct Hr as (r & s' & Er & Ec & St' & Eb). rewrite Er in E. injection E as <-. cbn [dev held sent back fst]. rewrite Ec.
    split_and!; [done|by rewrite Hh|done|done|by rewrite drop_all, app_nil_r].
  - injection E as <-. cbn [dev held sent back]. destruct St as (Fr & Hq & D & R & H' & V). split_and!; [|by rewrite Hh|done..].
    split_and!; [done..|]. exists D, R, H'. by apply (queues_ok_ext _ (dev y)).
Qed.

(** The calls that a client may make from [y] on. *)
Inductive later (y : Client) : Client -> Prop :=
  | later_refl : later y y
  | later_call y1 c frame y2 : later y y1 -> permitted c frame y1 -> exec c frame y1 = Done y2 -> later y y2.

Lemma frozen_stalled ord s q held' : idle ord s q held' -> length q = QUEUE_DEPTH -> seen (ctl s) = [] -> stalled s q.
Proof.
  intros (D & P & H' & N) Hq Hs. pose proof (n_queues _ _ _ _ _ _ _ _ N) as V. destruct (v_order _ _ _ _ _ _ _ V) as (H1 & H2 & H3 & H4 & H5 & H6).
  destruct (v_ctl _ _ _ _ _ _ _ V) as (F & pend & HF & Hl & Ho & Ec). unfold seen in Hs. rewrite Ec in Hs. cbn [pending fetch_i tail_db] in Hs.
  apply app_nil in Hs as [-> Hs]. cbn in Hl. assert (F = P) by lia. subst F. rewrite Hq in *.
  assert (P = D) as ->.
  { destruct (decide (P = D)) as [|Hne]; [done|]. rewrite ring_range_spec in Hs by lia. apply fmap_nil_inv in Hs.
    destruct (D + QUEUE_DEPTH - P) eqn:En; [lia|done]. }
  split_and!; [|done|].
  - unfold frozen. rewrite Ec. cbn [pending fetch_i tail_db]. by rewrite at_add.
  - exists D, (D + QUEUE_DEPTH), H'. destruct V. split; try done. exists D, []. rewrite Ec. split_and!; [lia|lia|cbn; lia|done|done].
Qed.

(** C36: is_submittable looks only at the slot at the tail, so the client can fill all 1024
    slots of the submission queue.  If the controller has fetched none of them, the tail is
    back at its place and it sees an empty queue.  From then on no call takes a request or
    gives one back, whatever the controller does: all 1024 requests stay with the device
    for ever. *)
Theorem full_queue_stalls bl sc reqs y y' : NoDup reqs -> (forall a, a ∈ reqs -> is_Some (bl !! a)) -> history bl sc reqs y ->
  length (outstanding (dev y)) = QUEUE_DEPTH -> seen (ctl (dev y)) = [] -> later y y' ->
  outstanding (dev y') = outstanding (dev y) /\ sent y' = sent y /\ back y' = back y.
Proof.
  intros Hd Hb Hy Hq Hs Hl. destruct (history_ok False _ _ _ _ Hd Hb (fun O => match O with end) Hy) as (q & I & _).
  assert (Eo : outstanding (dev y) = q) by (destruct I as (D & P & H' & N); eapply outstanding_spec, N). rewrite Eo in *.
  assert (Hk : forall a, a ∈ held y -> is_Some (blocks (dev y) !! a)).
  { intros a Ha. destruct I as (D & P & H' & N). apply (n_blocks _ _ _ _ _ _ _ _ N). apply elem_of_app. right. apply elem_of_app. by left. }
  pose proof (frozen_stalled _ _ _ _ I Hq Hs) as St. clear Hs.
  enough (Hi : stalled (dev y') q /\ held y' ≡ₚ held y /\ blocks (dev y') = blocks (dev y) /\ sent y' = sent y /\ back y' = back y).
  { destruct Hi as ((_ & _ & D & R & H' & V) & _ & _ & Es & Eb). split_and!; [exact (outstanding_spec _ _ _ _ _ _ _ V)|exact Es|exact Eb]. }
  induction Hl as [|y1 c frame y2 Hl (St1 & Hh1 & Eb1 & Es1 & Ek1) Hp E]; [split_and!; [exact St|reflexivity..]|].
  destruct (stalled_exec c frame y1 q y2 St1) as (St2 & Hh2 & Eb2 & Es2 & Ek2); [intros a; rewrite Hh1, Eb1; apply Hk|exact Hp|exact E|].
  split_and!; [exact St2|by rewrite Hh2|congruence..].
Qed.
End Stalled.

#[local] Transparent QUEUE_DEPTH.

Definition sample_blocks : gmap Z Z := {[ 4096%Z := 0%Z; 8192%Z := 8%Z ]}.

(** Two requests are sent; the controller completes one during the call. *)
Lemma nvme_history_safe_witness : exists y, history (H := true) sample_blocks [[Fetch; Fetch; Post 0 0]] [4096%Z; 8192%Z] y /\
  back y = [4096%Z] /\ sent y = [4096%Z; 8192%Z] /\ outstanding (dev y) = [8192%Z].
Proof.
  assert (Ec : match exec (H := true) (SubmitPoll [4096%Z; 8192%Z] [] false) [] (mkClient (NvmeDevice_new sample_blocks [[Fetch; Fetch; Post 0 0]]) [4096%Z; 8192%Z] [] []) with
    | Done y => (back y, sent y, dropped (dev y)) = ([4096%Z], [4096%Z; 8192%Z], []) | _ => False end) by (vm_compute; reflexivity).
  destruct (exec _ _ _) as [y| |] eqn:E; [|destruct Ec..]. injection Ec as Eb Es Ed.
  assert (Hy : history (H := true) sample_blocks [[Fetch; Fetch; Post 0 0]] [4096%Z; 8192%Z] y).
  { eapply history_call; [apply history_new| |exact E]. split; [reflexivity|]. unfold COLLECT_CAP, QUEUE_DEPTH. cbn. lia. }
  exists y. split; [exact Hy|]. split; [exact Eb|]. split; [exact Es|].
  destruct (nvme_history_safe (H := true) sample_blocks [[Fetch; Fetch; Post 0 0]] [4096%Z; 8192%Z] y) as (_ & Hf & _);
    [apply list.NoDup_cons; split; [intros Hin; apply list_elem_of_singleton in Hin; discriminate Hin|apply NoDup_singleton]| |exact Hy|].
  - intros a Ha. apply elem_of_cons in Ha as [->|Ha]; [by eexists|]. apply list_elem_of_singleton in Ha as ->. by eexists.
  - specialize (Hf Ed). rewrite Eb, Es in Hf. exact (eq_sym (app_inv_head [4096%Z] [8192%Z] _ Hf)).
Defined.

(** A client that sends what it holds, 128 requests at a time. *)
Fixpoint send_all (n : nat) (y : Client) : outcome Client :=
  match n with
  | O => Done y
  | S n =>
      if (submitted (dev y) <? 2 ^ 63)%Z then
        y ← exec (H := true) (SubmitPoll (take COLLECT_CAP (held y)) [] false) (drop COLLECT_CAP (held y)) y; send_all n y
      else Panic
  end.

Lemma send_all_history n bl sc reqs y y' : history (H := true) bl sc reqs y -> send_all n y = Done y' -> history (H := true) bl sc reqs y'.
Proof.
  revert y. induction n as [|n IH]; intros y Hy E; cbn [send_all] in E; [by injection E as <-|].
  destruct (Z.ltb_spec (submitted (dev y)) (2 ^ 63)) as [Hs|]; [|done]. destruct (exec _ _ y) as [y1| |] eqn:E1; [|done..].
  eapply IH; [|exact E]. eapply history_call; [exact Hy| |exact E1]. split; [cbn [call_in]; by rewrite app_nil_r, take_drop|].
  rewrite length_take. unfold COLLECT_CAP, QUEUE_DEPTH. lia.
Qed.

Definition many_reqs : list Z := Z.of_nat <$> seq 1 1024.
Definition many_blocks : gmap Z Z := list_to_map ((fun a => (a, a)) <$> many_reqs).

Lemma many_NoDup : NoDup many_reqs.
Proof. apply NoDup_fmap_2; [intros a b; lia|apply NoDup_seq]. Qed.
Lemma many_numbered a : a ∈ many_reqs -> is_Some (many_blocks !! a).
Proof.
  intros Ha. exists a. apply elem_of_list_to_map_1; [|apply list_elem_of_fmap; by exists a].
  rewrite <- list_fmap_compose. change (NoDup (id <$> many_reqs)). rewrite list_fmap_id. apply many_NoDup.
Qed.

(** 1024 requests are sent in eight calls while the controller is busy; it wakes up then. *)
Lemma full_queue_stalls_witness : exists y, history (H := true) many_blocks (replicate 8 [] ++ [[Fetch; Post 0 0]]) many_reqs y /\
  forall y', later (H := true) y y' -> back y' = [] /\ outstanding (dev y') = many_reqs.
Proof.
  assert (Ec : match send_all 8 (mkClient (NvmeDevice_new many_blocks (replicate 8 [] ++ [[Fetch; Post 0 0]])) many_reqs [] []) with
    | Done y => outstanding (dev y) = many_reqs /\ seen (ctl (dev y)) = [] /\ back y = [] | _ => False end) by (vm_compute; repeat split).
  destruct (send_all _ _) as [y| |] eqn:E; [|destruct Ec..]. destruct Ec as (Eo & Es & Eb). exists y.
  assert (Hy : history (H := true) many_blocks (replicate 8 [] ++ [[Fetch; Post 0 0]]) many_reqs y) by (eapply send_all_history; [apply history_new|exact E]).
  split; [exact Hy|]. intros y' Hl.
  destruct (full_queue_stalls (H := true) many_blocks (replicate 8 [] ++ [[Fetch; Post 0 0]]) many_reqs y y') as (Eo' & _ & Eb').
  - exact many_NoDup.
  - exact many_numbered.
  - exact Hy.
  - rewrite Eo. reflexivity.
  - exact Es.
  - exact Hl.
  - split; [rewrite Eb'; exact Eb|rewrite Eo'; exact Eo].
Defined.

(** Completions are matched to requests by their place in the completion queue and not by
    the command identifier they carry.  When the controller completes the second of two
    commands first, as it may, the driver hands the first request back to the client while
    the controller still has the command that reads into it. *)
Example out_of_order_returns_wrong_request : exists y,
  exec (H := true) (SubmitPoll [4096%Z; 8192%Z] [] false) [] (mkClient (NvmeDevice_new sample_blocks [[Fetch; Fetch; Post 1 0]]) [4096%Z; 8192%Z] [] []) = Done y /\
  (cpl_cid <$> cq_data (cq (dev y)) !! 0) = Some 1%Z /\ held y = [4096%Z] /\ outstanding (dev y) = [8192%Z] /\
  pending (ctl (dev y)) = [0] /\ (dptr0 <$> sq_data (sq (dev y)) !! 0) = Some 4096%Z.
Proof.
  assert (Ec : match exec (H := true) (SubmitPoll [4096%Z; 8192%Z] [] false) [] (mkClient (NvmeDevice_new sample_blocks [[Fetch; Fetch; Post 1 0]]) [4096%Z; 8192%Z] [] []) with
    | Done y => (cpl_cid <$> cq_data (cq (dev y)) !! 0, held y, outstanding (dev y), pending (ctl (dev y)), dptr0 <$> sq_data (sq (dev y)) !! 0)
        = (Some 1%Z, [4096%Z], [8192%Z], [0], Some 4096%Z) | _ => False end) by (vm_compute; reflexivity).
  destruct (exec _ _ _) as [y| |] eqn:E; [|destruct Ec..]. injection Ec as E1 E2 E3 E4 E5. exists y. split_and!; [reflexivity|assumption..].
Qed.

(** ** The types of the queue and of its commands *)

Definition cmd_typed (c : NvmeCommand) : Prop :=
  in_width 8 (opcode c) /\ in_width 8 (flags c) /\ in_width 16 (cid c) /\ in_width 32 (nsid c) /\ in_width 64 (mptr c) /\
  in_width 64 (dptr0 c) /\ in_width 64 (dptr1 c) /\ in_width 32 (cdw10 c) /\ in_width 32 (cdw11 c) /\ in_width 32 (cdw12 c) /\
  in_width 32 (cdw13 c) /\ in_width 32 (cdw14 c) /\ in_width 32 (cdw15 c).

Record sq_typed (q : NvmeCommandQueue) : Prop := {
  ty_data : length (sq_data q) = QUEUE_DEPTH; ty_requests : length (requests q) = QUEUE_DEPTH;
  ty_brequests : length (brequests q) = QUEUE_DEPTH; ty_rrequests : length (rrequests q) = QUEUE_DEPTH;
  ty_raw : length (raw_requests q) = QUEUE_DEPTH; ty_rrefs : length (blkreq_rrefs q) = QUEUE_DEPTH;
  ty_slot : length (req_slot q) = QUEUE_DEPTH; ty_i : sq_i q < QUEUE_DEPTH;
  ty_seed : in_width 31 (seed q); ty_block : (0 <= sq_block q < NUM_LBAS)%Z;
  ty_cmds : Forall cmd_typed (sq_data q) }.

(** The ways to submit, with what each takes besides the command. *)
Inductive sq_op :=
  | Submit | FromSlot (slot : nat) | SubmitRequest | RawCid | RRequestCid (req : Z) | BRequestCid (breq : BlockReq)
  | SubmitRref (breq : Z) | RandRaw (data : Z) | Raw (data : Z) | RRequest (v : Z) | BRequest (breq : BlockReq).

Section Typing.
Context `{Profile}.

Definition sq_run (o : sq_op) (entry : NvmeCommand) (q : NvmeCommandQueue) : outcome (option nat * NvmeCommandQueue) :=
  match o with
  | Submit => r ← submit entry q; Done (Some r.1, r.2)
  | FromSlot slot => submit_from_slot entry slot q
  | SubmitRequest => submit_request entry q
  | RawCid => submit_raw_request_cid entry q
  | RRequestCid req => submit_rrequest_cid entry req q
  | BRequestCid breq => submit_brequest_cid entry breq q
  | SubmitRref breq => submit_request_rref entry breq q
  | RandRaw data => submit_request_rand_raw entry data q
  | Raw data => submit_request_raw entry data q
  | RRequest v => submit_rrequest entry v q
  | BRequest breq => submit_brequest entry breq q
  end.

(** A command identifier chosen by the caller is used as an index. *)
Definition op_ok (o : sq_op) (entry : NvmeCommand) : Prop :=
  match o with
  | RawCid | RRequestCid _ => (cid entry < Z.of_nat QUEUE_DEPTH)%Z
  | BRequestCid breq => (0 <= b_cid breq < Z.of_nat QUEUE_DEPTH)%Z
  | _ => True
  end.

Definition typed_step (r : option nat * NvmeCommandQueue) : Prop := sq_typed r.2 /\ (forall t, r.1 = Some t -> t = sq_i r.2).
Definition well (o : outcome (option nat * NvmeCommandQueue)) : Prop := exists r, o = Done r /\ typed_step r.

Lemma wrap_width w a : (0 <= w)%Z -> in_width w (wrap w a).
Proof. intros Hw. apply Z.mod_pos_bound, Z.pow_pos_nonneg; lia. Qed.

Lemma lba_width a : in_width 32 (a mod wrap 32 NUM_LBAS).
Proof. change (wrap 32 NUM_LBAS) with 781422768%Z. pose proof (Z.mod_pos_bound a 781422768 eq_refl). unfold in_width. lia. Qed.
Lemma index_width i : (0 <= i < Z.of_nat QUEUE_DEPTH)%Z -> in_width 16 i /\ Z.to_nat i < QUEUE_DEPTH.
Proof. intros Hi. split; [unfold in_width, QUEUE_DEPTH in *; lia|lia]. Qed.

Lemma with_cid_typed v c : cmd_typed c -> in_width 16 v -> cmd_typed (with_cid v c).
Proof. unfold cmd_typed. cbn. tauto. Qed.
Lemma with_cdw10_typed v c : cmd_typed c -> in_width 32 v -> cmd_typed (with_cdw10 v c).
Proof. unfold cmd_typed. cbn. tauto. Qed.

#[local] Opaque QUEUE_DEPTH.

Lemma index_bind {A B} (l : list A) i (k : A -> outcome B) (post : outcome B -> Prop) : i < length l -> (forall a, post (k a)) -> post (index l i ≫= k).
Proof. intros Hi Hk. destruct (lookup_lt_is_Some_2 l i Hi) as [a Ha]. rewrite (index_Some _ _ _ Ha). exact (Hk a). Qed.

Lemma slot_well i q (k : bool -> outcome (option nat * NvmeCommandQueue)) : sq_typed q -> i < QUEUE_DEPTH -> (forall b, well (k b)) -> well (index (req_slot q) i ≫= k).
Proof. intros T Hi Hk. apply index_bind; [by rewrite (ty_slot _ T)|done]. Qed.

Lemma put_cmd_well i c q k : sq_typed q -> i < QUEUE_DEPTH -> cmd_typed c ->
  (forall q', sq_typed q' -> sq_i q' = sq_i q -> sq_block q' = sq_block q -> well (k q')) -> well (put_cmd i c q ≫= k).
Proof.
  intros T Hi Hc Hk. unfold put_cmd. rewrite (ty_data _ T), (proj2 (Nat.ltb_lt _ _) Hi). apply Hk; [|done..].
  destruct T. split; cbn; rewrite ?length_insert; try done. by apply Forall_insert.
Qed.

Lemma claim_well i q k : sq_typed q -> i < QUEUE_DEPTH -> (forall q', sq_typed q' -> well (k q')) -> well (claim i q ≫= k).
Proof.
  intros T Hi Hk. unfold claim. rewrite (ty_slot _ T), (proj2 (Nat.ltb_lt _ _) Hi). apply Hk. destruct T. split; cbn; rewrite ?length_insert; done.
Qed.

Lemma put_in_well {A} i (x : A) l (k : list (option A) -> outcome (option nat * NvmeCommandQueue)) : length l = QUEUE_DEPTH -> i < QUEUE_DEPTH ->
  (forall l', length l' = QUEUE_DEPTH -> well (k l')) -> well (put_in i x l ≫= k).
Proof. intros Hl Hi Hk. unfold put_in. rewrite Hl, (proj2 (Nat.ltb_lt _ _) Hi). apply Hk. by rewrite length_insert. Qed.

Lemma next_block_well n q k : sq_typed q -> (0 <= n <= 8)%Z -> (forall b, sq_typed (upd_block b q) -> well (k b)) -> well (next_block n q ≫= k).
Proof.
  intros T Hn Hk. pose proof (ty_block _ T) as Hb. unfold next_block, uadd. unfold NUM_LBAS in *.
  rewrite checked_ok by (unfold in_width; lia). cbn [mbind outcome_bind]. apply Hk.
  destruct T. split; cbn; try done. apply Z.mod_pos_bound. done.
Qed.

Lemma rand_block_well q k : sq_typed q -> (forall r, sq_typed (upd_block r.1 r.2) -> well (k r)) -> well (get_rand_block q ≫= k).
Proof.
  intros T Hk. pose proof (ty_seed _ T) as Hs. unfold in_width in Hs. unfold get_rand_block, umul, uadd.
  rewrite checked_ok by (unfold in_width; lia). cbn [mbind outcome_bind]. rewrite checked_ok by (unfold in_width; lia). cbn [mbind outcome_bind].
  apply Hk. destruct T. split; cbn; try done; apply Z.mod_pos_bound; done.
Qed.

Lemma step_well q : sq_typed q -> well (Done (Some (sq_i (step_i q)), step_i q)).
Proof.
  intros T. eexists. split; [reflexivity|]. split; cbn; [|by intros t [= <-]]. destruct T. split; cbn; try done.
  rewrite ty_data0. apply at_lt.
Qed.

Lemma stay_well q : sq_typed q -> well (Done (None, q)).
Proof. intros T. eexists. split; [reflexivity|]. by split. Qed.

(** One table of the queue is replaced by one of the same length. *)
Ltac retable T := destruct T; split; cbn [upd_requests upd_brequests upd_rrequests upd_raw upd_rrefs sq_data requests brequests rrequests raw_requests blkreq_rrefs req_slot sq_i seed sq_block];
  rewrite ?length_insert; done.

Lemma requests_typed f q : sq_typed q -> length (f (requests q)) = QUEUE_DEPTH -> sq_typed (upd_requests f q).
Proof. intros T E. retable T. Qed.
Lemma brequests_typed l q : sq_typed q -> length l = QUEUE_DEPTH -> sq_typed (upd_brequests (fun _ => l) q).
Proof. intros T E. retable T. Qed.
Lemma rrequests_typed l q : sq_typed q -> length l = QUEUE_DEPTH -> sq_typed (upd_rrequests (fun _ => l) q).
Proof. intros T E. retable T. Qed.
Lemma raw_typed l q : sq_typed q -> length l = QUEUE_DEPTH -> sq_typed (upd_raw (fun _ => l) q).
Proof. intros T E. retable T. Qed.
Lemma rrefs_typed l q : sq_typed q -> length l = QUEUE_DEPTH -> sq_typed (upd_rrefs (fun _ => l) q).
Proof. intros T E. retable T. Qed.

#[local] Hint Resolve ty_data ty_requests ty_brequests ty_rrequests ty_raw ty_rrefs ty_slot ty_i with_cid_typed with_cdw10_typed
  requests_typed brequests_typed rrequests_typed raw_typed rrefs_typed : nvme.
#[local] Hint Extern 1 (in_width _ (wrap _ _)) => apply wrap_width; lia : nvme.
#[local] Hint Extern 1 (in_width _ (_ mod _)) => apply lba_width : nvme.

(** One step of a submission. *)
Ltac well_step :=
  match goal with
  | |- well (index (req_slot _) _ ≫= _) => apply slot_well; [..|intros ?]
  | |- well (index _ _ ≫= _) => apply index_bind; [|intros ?]
  | |- well (put_cmd _ _ _ ≫= _) => apply put_cmd_well; [..|intros ? ? ? ?]
  | |- well (claim _ _ ≫= _) => apply claim_well; [..|intros ? ?]
  | |- well (put_in _ _ _ ≫= _) => apply put_in_well; [..|intros ? ?]
  | |- well (next_block _ _ ≫= _) => apply next_block_well; [|lia|intros ? ?]
  | |- well (get_rand_block _ ≫= _) => apply rand_block_well; [..|intros ? ?]
  | |- well (if ?b then _ else _) => destruct b
  | |- well (Done (None, _)) => apply stay_well
  | |- well (Done (Some _, _)) => apply step_well
  end.

Lemma sq_run_well o entry q : sq_typed q -> cmd_typed entry -> op_ok o entry -> well (sq_run o entry q).
Proof.
  intros T Hc Ho. pose proof (ty_i _ T) as Hi. destruct o; cbn [sq_run op_ok] in *.
  1: { unfold submit, put_cmd. rewrite (ty_data _ T), (proj2 (Nat.ltb_lt _ _) Hi). apply step_well. destruct T. split; cbn; rewrite ?length_insert; try done.
       apply Forall_insert; eauto with nvme. }
  3-4: destruct (index_width (cid entry)) as [Hw Hn]; [unfold cmd_typed, in_width in Hc; lia|].
  5: destruct (index_width (b_cid breq) Ho) as [Hw Hn].
  all: unfold submit_from_slot, submit_request, submit_raw_request_cid, submit_rrequest_cid, submit_brequest_cid,
    submit_request_rref, submit_request_rand_raw, submit_request_raw, submit_rrequest, submit_brequest.
  all: repeat (cbv beta zeta; well_step); eauto 8 with nvme.
  - rewrite (ty_requests (upd_block _ _)) by done. done.
  - destruct a; [|done]. apply requests_typed; [done|]. rewrite length_insert. eauto with nvme.
Qed.

(** C22: whichever way a well-typed command is submitted to a well-typed queue, the call
    returns (no index is out of range and no arithmetic overflows, given that a command
    identifier chosen by the caller is below the depth of the queue), the queue stays
    well-typed (all eight tables keep their 1024 entries, the tail stays in range, the next
    block stays on the disk, every field of every command stays within its width) and the
    tail returned is the queue's. *)
Theorem submissions_well_typed o entry q : sq_typed q -> cmd_typed entry -> op_ok o entry ->
  exists r q', sq_run o entry q = Done (r, q') /\ sq_typed q' /\ (forall t, r = Some t -> t = sq_i q').
Proof. intros T Hc Ho. destruct (sq_run_well o entry q T Hc Ho) as ([r q'] & E & Hr). by exists r, q'. Qed.

#[local] Transparent QUEUE_DEPTH.

Lemma new_typed : sq_typed NvmeCommandQueue_new.
Proof.
  split; cbn [NvmeCommandQueue_new sq_data requests brequests rrequests raw_requests blkreq_rrefs req_slot sq_i seed sq_block]; rewrite ?length_replicate; try reflexivity.
  - apply depth_pos.
  - unfold in_width. lia.
  - unfold NUM_LBAS. lia.
  - apply Forall_replicate. unfold cmd_typed, in_width. cbn. lia.
Qed.

End Typing.

Lemma submissions_well_typed_witness : exists r q',
  sq_run (H := true) (SubmitRref 4096) (io_write 1 1 0x1_0000_0007 7 4096 0) NvmeCommandQueue_new = Done (r, q') /\ sq_typed q'.
Proof.
  destruct (submissions_well_typed (H := true) (SubmitRref 4096) (io_write 1 1 0x1_0000_0007 7 4096 0) NvmeCommandQueue_new new_typed) as (r & q' & E & T & _).
  - repeat split; vm_compute; discriminate || reflexivity.
  - exact I.
  - exists r, q'. split; [exact E|exact T].
Defined.
