(* ===== verification/NvmeVec.v ===== *)
(** * The NVMe driver on plain vectors (lib/devices/nvme/src/lib.rs) and the driver domain
    (domains/sys/driver/nvme/src/lib.rs, nullnvme.rs)

    The calls that take [BlockReq]s, vectors and raw pointers, on the device of [Nvme].  A
    vector is named by the address of its memory; [dropped] lists the memory that was freed,
    in order, so that an address in it is free from then on.  Handing out a second vector over
    the same memory ([Vec::from_raw_parts]) is handing out the same address. *)

From Stdlib Require Import ZArith Lia.
From stdpp Require Import base gmap list.
From stdpp Require Import options.
From S2P Require Import Prelude DriverCell Nvme.

Set Default Proof Using "Type".

Section Ops.
Context `{Profile}.

(** [BlockReq::new], [BlockReq::from]: the copy shares the memory of the original. *)
Definition BlockReq_new (block num_blocks data len : Z) : BlockReq := mkBreq block num_blocks data len 0.
Definition BlockReq_from (r : BlockReq) : BlockReq := r.

Definition io_entry (write : bool) (cid lba blocks_1 ptr : Z) : NvmeCommand :=
  if write then io_write cid 1 lba blocks_1 ptr 0 else io_read cid 1 lba blocks_1 ptr 0.

(** [(data.len() + 511) / 512] *)
Definition len_blocks (len : Z) : outcome Z := n ← uadd 64 len 511; Done (n / 512)%Z.

(** The commands that [submit], [submit_io] and [submit_and_poll] build for a request. *)
Definition submit_entry (breq : BlockReq) (write : bool) : outcome NvmeCommand :=
  num_blocks ← len_blocks (b_len breq);
  Done (io_entry write 1 (b_block breq) (wrap 16 num_blocks) (b_data breq)).
Definition submit_io_entry (breq : BlockReq) (write : bool) : outcome NvmeCommand :=
  num_blocks ← len_blocks (b_len breq);
  n ← usub 64 num_blocks 1;
  Done (io_entry write 1 (b_block breq) (wrap 16 n) (b_data breq)).
Definition submit_and_poll_entry (breq : BlockReq) (write : bool) : outcome NvmeCommand :=
  n ← len_blocks (b_len breq);
  num_blocks ← usub 64 n 1;
  n ← usub 64 num_blocks 1;
  Done (io_entry write 1 (b_block breq) (wrap 16 n) (b_data breq)).

(** What a submission method of the queue leaves behind: the new queue, and what the
    table entry it overwrites frees. *)
Definition on_sq {A} (f : NvmeCommandQueue -> outcome (A * NvmeCommandQueue)) : M NvmeDevice A :=
  s ← get; r ← lift (f (sq s)); _ ← put (set_sq r.2 s); mret r.1.

(** [self.table[i] = Some(v)] frees the vector that was there; [None] means the call refused
    the vector it was given, which is freed instead. *)
Definition overwrite (r : option nat) (old : option Z) (given : Z) : M NvmeDevice unit :=
  match r with Some _ => drop_opt old | None => drop_opt (Some given) end.

Definition brequest_at (i : nat) (s : NvmeDevice) : option Z := b_data <$> mjoin (brequests (sq s) !! i).
Definition rrequest_at (i : nat) (s : NvmeDevice) : option Z := mjoin (rrequests (sq s) !! i).

Definition ring_tail (r : option nat) : M NvmeDevice unit :=
  match r with Some tail => submission_queue_tail tail | None => mret tt end.

(** ** One request at a time *)

Definition submit_block (breq : BlockReq) (write : bool) : M NvmeDevice unit :=
  entry ← lift (submit_entry breq write);
  old ← gets (brequest_at (Z.to_nat (b_cid breq)));
  r ← on_sq (submit_brequest_cid entry breq);
  _ ← overwrite r old (b_data breq);
  _ ← ring_tail r;
  count_submitted.

Definition submit_raw (data cid : Z) (write : bool) : M NvmeDevice unit :=
  r ← on_sq (submit_raw_request_cid (io_entry write cid 0 7 data));
  _ ← ring_tail r;
  count_submitted.

Definition submit_v (vec cid : Z) (write : bool) : M NvmeDevice unit :=
  old ← gets (rrequest_at (Z.to_nat cid));
  r ← on_sq (submit_rrequest_cid (io_entry write cid 0 7 vec) vec);
  _ ← overwrite r old vec;
  _ ← ring_tail r;
  count_submitted.

Definition dev_submit_from_slot (cid block num_blocks data_ptr : Z) (is_write : bool) : M NvmeDevice unit :=
  r ← on_sq (submit_from_slot (io_entry is_write 1 block (wrap 16 num_blocks) data_ptr) (Z.to_nat cid));
  _ ← ring_tail r;
  count_submitted.

(** ** Batches *)

(** What is left of the queue, the number submitted and the last tail. *)
Fixpoint submit_io_raw_loop (write : bool) (q : list Z) (count tail : nat) : M NvmeDevice (list Z * nat * nat) :=
  match q with
  | [] => mret ([], count, tail)
  | req :: rest =>
      r ← on_sq (submit_request_raw (io_entry write 1 0 7 req) req);
      match r with
      | Some tail => _ ← count_submitted; _ ← drop_opt (Some req); submit_io_raw_loop write rest (S count) tail
      | None => mret (req :: rest, count, tail)
      end
  end.

Definition submit_io_raw (submit_queue : list Z) (write : bool) : M NvmeDevice (nat * list Z) :=
  p ← submit_io_raw_loop write submit_queue 0 0;
  _ ← (if 0 <? p.1.2 then submission_queue_tail p.2 else mret tt);
  mret (p.1.2, p.1.1).

Fixpoint submit_iov_loop (write : bool) (q : list Z) (count tail : nat) : M NvmeDevice (nat * nat) :=
  match q with
  | [] => mret (count, tail)
  | req :: rest =>
      s ← get;
      r ← on_sq (submit_rrequest (io_entry write 1 0 7 req) req);
      _ ← overwrite r (rrequest_at (sq_i (sq s)) s) req;
      _ ← count_submitted;
      match r with Some tail => submit_iov_loop write rest (S count) tail | None => submit_iov_loop write rest count tail end
  end.

Definition submit_iov (submit_queue : list Z) (write : bool) : M NvmeDevice nat :=
  p ← submit_iov_loop write submit_queue 0 0;
  _ ← (if 0 <? p.1 then submission_queue_tail p.2 else mret tt);
  mret p.1.

Fixpoint submit_io_loop (write : bool) (q : list BlockReq) (count tail : nat) : M NvmeDevice (nat * nat) :=
  match q with
  | [] => mret (count, tail)
  | breq :: rest =>
      entry ← lift (submit_io_entry breq write);
      s ← get;
      r ← on_sq (submit_brequest entry breq);
      _ ← overwrite r (brequest_at (sq_i (sq s)) s) (b_data breq);
      _ ← count_submitted;
      match r with Some tail => submit_io_loop write rest (S count) tail | None => submit_io_loop write rest count tail end
  end.

Definition submit_io (submit_queue : list BlockReq) (write : bool) : M NvmeDevice nat :=
  p ← submit_io_loop write submit_queue 0 0;
  _ ← (if 0 <? p.1 then submission_queue_tail p.2 else mret tt);
  mret p.1.

(** ** Polling *)

(** [complete_spin]: the loop goes on until the controller posts; when it never does again
    the call does not return. *)
Fixpoint spin (n : nat) : M NvmeDevice (nat * NvmeCompletion * nat) :=
  c ← dev_complete;
  match c, n with
  | Some e, _ => mret e
  | None, S n => spin n
  | None, O => lift Hang
  end.
Definition complete_spin : M NvmeDevice (nat * NvmeCompletion * nat) := s ← get; spin (length (script s)).

Definition complete_or_spin (reap_all : bool) : M NvmeDevice (option (nat * NvmeCompletion * nat)) :=
  if reap_all then e ← complete_spin; mret (Some e) else dev_complete.

(** The reaped requests, newest first, their number and the last head. *)
Record Reaped (A : Type) := mkReaped { p_reap : list A; p_count : nat; p_head : nat }.
#[global] Arguments mkReaped {A}.
#[global] Arguments p_reap {A}.
#[global] Arguments p_count {A}.
#[global] Arguments p_head {A}.

(** The request in the slot at the entry's index is handed out; the table keeps it. *)
Definition reap_entry {A} (table : NvmeCommandQueue -> list (option A)) (head cq_idx : nat) (r : Reaped A) : M NvmeDevice (Reaped A) :=
  busy ← slot_busy cq_idx;
  r ← (if busy : bool then
         s ← get;
         o ← lift (index (table (sq s)) cq_idx);
         _ ← free_slot cq_idx;
         mret (mkReaped (match o with Some req => req :: p_reap r | None => p_reap r end) (S (p_count r)) head)
       else mret (mkReaped (p_reap r) (p_count r) head));
  _ ← count_completed;
  mret r.

Fixpoint poll_entries (n : nat) (reap_all : bool) (r : Reaped BlockReq) : M NvmeDevice (Reaped BlockReq) :=
  match n with
  | O => mret r
  | S n =>
      c ← complete_or_spin reap_all;
      match c with
      | Some (head, entry, cq_idx) => r ← reap_entry brequests head cq_idx r; poll_entries n reap_all r
      | None => poll_entries n reap_all r
      end
  end.

Definition ring_head {A} (r : Reaped A) : M NvmeDevice unit :=
  if 0 <? p_count r then completion_queue_head (p_head r) else mret tt.

Definition poll (num_reqs : nat) (reap : list BlockReq) (reap_all : bool) : M NvmeDevice (list BlockReq) :=
  r ← poll_entries num_reqs reap_all (mkReaped reap 0 0);
  _ ← ring_head r;
  mret (p_reap r).

Fixpoint poll_raw_loop (n : nat) (r : Reaped Z) : M NvmeDevice (Reaped Z) :=
  match n with
  | O => mret r
  | S n =>
      s ← get;
      busy ← slot_busy (get_cq_head (cq s) mod length (cq_data (cq s)));
      if busy : bool then
        c ← dev_complete;
        match c with
        | None => poll_raw_loop n r
        | Some (head, entry, cq_idx) =>
            s ← get;
            o ← lift (index (raw_requests (sq s)) cq_idx);
            _ ← free_slot cq_idx;
            _ ← modify (fun s => set_sq (upd_raw (<[cq_idx := None]>) (sq s)) s);
            _ ← count_completed;
            poll_raw_loop n (mkReaped (match o with Some v => v :: p_reap r | None => p_reap r end) (S (p_count r)) head)
        end
      else mret r
  end.

Definition poll_raw (collect : list Z) : M NvmeDevice (nat * list Z) :=
  r ← poll_raw_loop QUEUE_DEPTH (mkReaped collect 0 0);
  _ ← ring_head r;
  mret (p_count r, p_reap r).

(** ** Submitting and polling in one call *)

(** After each submission one completion entry is tried. *)
Definition reap_one {A} (table : NvmeCommandQueue -> list (option A)) (r : Reaped A) : M NvmeDevice (Reaped A) :=
  c ← dev_complete;
  match c with Some (head, entry, cq_idx) => reap_entry table head cq_idx r | None => mret r end.

(** What is left of the queue, the number submitted, the last tail, and what was reaped. *)
Fixpoint submit_poll_raw_loop (write is_random : bool) (q : list Z) (count tail : nat) (r : Reaped Z) : M NvmeDevice (list Z * nat * nat * Reaped Z) :=
  match q with
  | [] => mret ([], count, tail, r)
  | breq :: rest =>
      let entry := io_entry write 1 0 7 breq in
      s ← get;
      ok ← lift (is_submittable (sq s));
      if ok : bool then
        t ← on_sq (if is_random then submit_request_rand_raw entry breq else submit_request_raw entry breq);
        match t with
        | Some tail =>
            r ← reap_one raw_requests r; _ ← count_submitted; _ ← drop_opt (Some breq);
            submit_poll_raw_loop write is_random rest (S count) tail r
        | None => _ ← drop_opt (Some breq); submit_poll_raw_loop write is_random rest count tail r
        end
      else mret (breq :: rest, count, tail, r)
  end.

Fixpoint reap_batch (n : nat) (r : Reaped Z) : M NvmeDevice (Reaped Z) :=
  match n with
  | O => mret r
  | S n =>
      c ← dev_complete;
      match c with Some (head, entry, cq_idx) => r ← reap_entry raw_requests head cq_idx r; reap_batch n r | None => mret r end
  end.

Definition submit_and_poll_raw (submit collect : list Z) (write is_random : bool) : M NvmeDevice (nat * list Z * list Z) :=
  p ← submit_poll_raw_loop write is_random submit 0 0 (mkReaped collect 0 0);
  let '(rest, sub_count, cur_tail, r) := p : list Z * nat * nat * Reaped Z in
  _ ← (if 0 <? sub_count then submission_queue_tail cur_tail else mret tt);
  r ← reap_batch 32 r;
  _ ← ring_head r;
  mret (sub_count, rest, p_reap r).

Fixpoint submit_poll_loop (write : bool) (q : list BlockReq) (count tail : nat) (r : Reaped BlockReq)
    : M NvmeDevice (list BlockReq * nat * nat * Reaped BlockReq) :=
  match q with
  | [] => mret ([], count, tail, r)
  | breq :: rest =>
      entry ← lift (submit_and_poll_entry breq write);
      s ← get;
      ok ← lift (is_submittable (sq s));
      if ok : bool then
        t ← on_sq (submit_brequest entry breq);
        _ ← overwrite t (brequest_at (sq_i (sq s)) s) (b_data breq);
        match t with
        | Some tail => r ← reap_one brequests r; _ ← count_submitted; submit_poll_loop write rest (S count) tail r
        | None => _ ← count_submitted; submit_poll_loop write rest count tail r
        end
      else mret (breq :: rest, count, tail, r)
  end.

Definition submit_and_poll (submit collect : list BlockReq) (write : bool) : M NvmeDevice (nat * list BlockReq * list BlockReq) :=
  p ← submit_poll_loop write submit 0 0 (mkReaped collect 0 0);
  let '(rest, sub_count, cur_tail, r) := p : list BlockReq * nat * nat * Reaped BlockReq in
  _ ← (if 0 <? sub_count then submission_queue_tail cur_tail else mret tt);
  r ← poll_entries 128 false r;
  _ ← ring_head r;
  mret (sub_count, rest, p_reap r).

(** ** Resubmitting what is complete *)

(** [cq.is_valid()] *)
Definition dev_is_valid : M NvmeDevice (option NvmeCompletion) := _ ← tick; s ← get; lift (is_valid (cq s)).

(** The entry behind the head is read to see whether the loop goes on. *)
Definition peek_next : M NvmeDevice bool :=
  s ← get;
  let next := (cq_i (cq s) + 1) mod length (cq_data (cq s)) in
  let next_phase := if next =? 0 then negb (phase (cq s)) else phase (cq s) in
  _ ← tick;
  s ← get;
  next_cpl ← lift (index (cq_data (cq s)) next);
  mret (Z.land (status next_cpl) 1 =? Z.b2z next_phase)%Z.

Definition dev_advance : M NvmeDevice nat := _ ← modify (fun s => set_cq (advance (cq s)) s); s ← get; mret (cq_i (cq s)).

(** [req_slot[cid]] is set: the request of the table is taken out as a second owner and
    submitted again. *)
Definition resubmit {A} (table : NvmeCommandQueue -> list (option A)) (again : A -> M NvmeDevice unit) (c : nat) : M NvmeDevice unit :=
  busy ← slot_busy c;
  if busy : bool then
    s ← get;
    o ← lift (index (table (sq s)) c);
    match o with Some req => _ ← free_slot c; again req | None => mret tt end
  else mret tt.

(** The loop of [check_io] and [check_iov]: the completions so far and the last head. *)
Fixpoint check_loop (fuel : nat) (again : Z -> M NvmeDevice unit) (batch_sz : nat) (next_is_valid : bool) (num : nat) (head : option nat)
    : M NvmeDevice (nat * option nat) :=
  match fuel with
  | O => lift Hang
  | S fuel =>
      go ← (if next_is_valid then mret true else v ← dev_is_valid; mret (bool_decide (is_Some v)));
      if go : bool then
        v ← dev_is_valid;
        match v with
        | Some entry =>
            next_is_valid ← peek_next;
            h ← dev_advance;
            _ ← count_completed;
            _ ← again (cpl_cid entry);
            if batch_sz <? S num then mret (S num, Some h) else check_loop fuel again batch_sz next_is_valid (S num) (Some h)
        | None => if batch_sz <? num then mret (num, head) else check_loop fuel again batch_sz next_is_valid num head
        end
      else mret (num, head)
  end.

(** Every round but the last handles a completion, so [batch_sz + 1] rounds are enough. *)
Definition check_with (again : Z -> M NvmeDevice unit) (batch_sz : nat) : M NvmeDevice nat :=
  p ← check_loop (batch_sz + 1) again batch_sz false 0 None;
  _ ← match p.1, p.2 with S _, Some head => completion_queue_head head | _, _ => mret tt end;
  mret p.1.

Definition check_io (batch_sz : nat) (is_write : bool) : M NvmeDevice unit :=
  _ ← check_with (fun c => resubmit brequests (fun req => submit_block (BlockReq_from req) is_write) (Z.to_nat c)) batch_sz; mret tt.
Definition check_iov (batch_sz : nat) (is_write : bool) : M NvmeDevice nat :=
  check_with (fun c => resubmit rrequests (fun vec => submit_v vec c is_write) (Z.to_nat c)) batch_sz.

(** The loop of [check_io_raw] stops after [batch_sz] completions, or when there is none. *)
Fixpoint check_raw_loop (fuel batch_sz : nat) (is_write : bool) (next_is_valid : bool) (num : nat) (head : option nat) : M NvmeDevice (nat * option nat) :=
  match fuel with
  | O => lift Hang
  | S fuel =>
      v ← dev_is_valid;
      if negb next_is_valid && negb (bool_decide (is_Some v)) then mret (num, head)
      else
        entry ← lift (expect v);
        next_is_valid ← peek_next;
        h ← dev_advance;
        _ ← count_completed;
        _ ← resubmit raw_requests (fun data => submit_raw data (cpl_cid entry) is_write) (Z.to_nat (cpl_cid entry));
        if S num =? batch_sz then mret (S num, Some h) else check_raw_loop fuel batch_sz is_write next_is_valid (S num) (Some h)
  end.

(** Each round but the last reads an entry that was there or that the script posts. *)
Definition rounds (s : NvmeDevice) : nat := S (QUEUE_DEPTH + sum_list (length <$> script s)).

Definition check_io_raw (batch_sz : nat) (is_write : bool) : M NvmeDevice nat :=
  s ← get;
  p ← check_raw_loop (rounds s) batch_sz is_write false 0 None;
  _ ← match p.1, p.2 with S _, Some head => completion_queue_head head | _, _ => mret tt end;
  mret p.1.
End Ops.

#[local] Opaque QUEUE_DEPTH.

(** ** The completion queue, with any controller

    [D] entries were read, [P] were posted, and the controller knows that [H] were read. *)

Record cq_ok (s : NvmeDevice) (D P H : nat) : Prop := {
  c_order : H <= D /\ D <= P /\ P < H + QUEUE_DEPTH;
  c_len : length (cq_data (cq s)) = QUEUE_DEPTH;
  c_at : cq_i (cq s) = at_ D /\ phase (cq s) = tag D;
  c_new j : D <= j < P -> exists e, cq_data (cq s) !! at_ j = Some e /\ ctag e = tag j;
  c_old j : P <= j < D + QUEUE_DEPTH -> exists e, cq_data (cq s) !! at_ j = Some e /\ ctag e = negb (tag j);
  c_post : post_i (ctl s) = at_ P /\ post_phase (ctl s) = tag P /\ head_db (ctl s) = at_ H }.

Lemma queues_cq ord s q D P R H : queues_ok ord s q D P R H -> cq_ok s D P H.
Proof.
  intros V. pose proof (v_order _ _ _ _ _ _ _ V). destruct (v_ctl _ _ _ _ _ _ _ V) as (F & pend & _ & _ & _ & Ec). split; try apply V; [lia|]. by rewrite Ec.
Qed.

(** The entries that were posted and not read. *)
Fixpoint new_entries (n : nat) (data : list NvmeCompletion) (i : nat) (ph : bool) : list NvmeCompletion :=
  match n with
  | O => []
  | S n =>
      match data !! i with
      | Some e => if is_new e ph then
          e :: (let i := (i + 1) mod length data in new_entries n data i (if i =? 0 then negb ph else ph)) else []
      | None => []
      end
  end.
Definition unread (s : NvmeDevice) : list NvmeCompletion := new_entries QUEUE_DEPTH (cq_data (cq s)) (cq_i (cq s)) (phase (cq s)).

Definition entries (s : NvmeDevice) (D n : nat) : list NvmeCompletion := omap (fun j => cq_data (cq s) !! at_ j) (seq D n).

Lemma is_new_tag e b : is_new e b = eqb (ctag e) b.
Proof. done. Qed.

Lemma unread_spec s D P H : cq_ok s D P H -> unread s = entries s D (P - D).
Proof.
  intros C. destruct (c_order _ _ _ _ C) as (H1 & H2 & H3). destruct (c_at _ _ _ _ C) as [Ei Ep]. unfold unread, entries. rewrite Ei, Ep.
  assert (Hg : forall n D', D <= D' <= P -> P - D' < n -> new_entries n (cq_data (cq s)) (at_ D') (tag D') =
    omap (fun j => cq_data (cq s) !! at_ j) (seq D' (P - D'))).
  { induction n as [|n IH]; intros D' HD Hn; [lia|]. cbn [new_entries]. destruct (decide (D' = P)) as [->|Hne].
    - rewrite Nat.sub_diag. destruct (c_old _ _ _ _ C P) as (e & He & Ht); [lia|]. rewrite He, is_new_tag, Ht. by destruct (tag P).
    - destruct (c_new _ _ _ _ C D') as (e & He & Ht); [lia|]. rewrite He, is_new_tag, Ht, eqb_reflx.
      replace (P - D') with (S (P - S D')) by lia. cbn [seq omap list_omap]. rewrite He, (c_len _ _ _ _ C), at_S, <- tag_S. f_equal. apply IH; lia. }
  apply Hg; lia.
Qed.

Lemma entries_cons s D n e : cq_data (cq s) !! at_ D = Some e -> entries s D (S n) = e :: entries s (S D) n.
Proof. intros E. unfold entries. cbn. by rewrite E. Qed.

Lemma length_omap_all {A B} (f : A -> option B) (l : list A) : (forall a, a ∈ l -> is_Some (f a)) -> length (omap f l) = length l.
Proof.
  induction l as [|a l IH]; intros Hf; [done|]. cbn. destruct (Hf a) as [b ->]; [left|]. cbn. rewrite IH; [done|]. intros c Hc. apply Hf. by right.
Qed.

Lemma entries_snoc s D n : entries s D (S n) = entries s D n ++ option_list (cq_data (cq s) !! at_ (D + n)).
Proof. unfold entries. rewrite seq_S, omap_app. done. Qed.

Lemma entries_ext s s' D n : (forall j, D <= j < D + n -> cq_data (cq s') !! at_ j = cq_data (cq s) !! at_ j) -> entries s' D n = entries s D n.
Proof.
  unfold entries. revert D. induction n as [|n IH]; intros D E; [done|]. cbn. rewrite E by lia. rewrite IH by (intros; apply E; lia). done.
Qed.

Lemma length_entries s D P H : cq_ok s D P H -> length (entries s D (P - D)) = P - D.
Proof.
  intros C. unfold entries. etransitivity; [|apply (length_seq (P - D) D)]. apply length_omap_all.
  intros j Hj. apply elem_of_seq in Hj. destruct (c_new _ _ _ _ C j ltac:(lia)) as (e & -> & _). by eexists.
Qed.

(** An event fetches a command, or it is one new entry for a command the controller had. *)
Definition posted_by (e : event) (s s' : NvmeDevice) : Prop :=
  (s' = s) \/
  (e = Fetch /\ pending (ctl s') = pending (ctl s) ++ [fetch_i (ctl s)] /\ unread s' = unread s) \/
  exists k code slot c, e = Post k code /\ pending (ctl s) !! k = Some slot /\ cpl_cid c = Z.of_nat slot /\
    pending (ctl s') = delete k (pending (ctl s)) /\ unread s' = unread s ++ [c].

Lemma post_cq e s D P H : cq_ok s D P H -> (exists P', cq_ok (post e s) D P' H) /\ posted_by e s (post e s).
Proof.
  intros C. destruct (c_order _ _ _ _ C) as (H1 & H2 & H3). destruct (c_post _ _ _ _ C) as (E1 & E2 & E3). unfold posted_by. destruct e as [|k code].
  { unfold post, fetch. destruct (_ =? _); [split; [by exists P|by left]|]. split; [|by right; left]. exists P. destruct C. by split. }
  unfold post. destruct (pending (ctl s) !! k) as [slot|] eqn:Ek; [|split; [by exists P|by left]].
  rewrite E1, at_S, E3. destruct (Nat.eqb_spec (at_ (S P)) (at_ H)) as [E|E]; [split; [by exists P|by left]|].
  assert (S P <> H + QUEUE_DEPTH) by (intros E'; apply E; by rewrite E', at_add). rewrite E2.
  set (e := mkCpl _ _ _ _ _). assert (Het : ctag e = tag P) by apply posted_tag. assert (Hec : cpl_cid e = Z.of_nat slot) by done. clearbody e.
  match goal with |- context [set_ctl ?a ?b] => set (s' := set_ctl a b) end.
  assert (C' : cq_ok s' D (S P) H).
  { split; cbn [sq cq ctl s' set_ctl set_cq cq_data cq_i phase post_i post_phase head_db]; rewrite ?length_insert; try apply C.
    - lia.
    - intros j Hj. destruct (decide (j = P)) as [->|].
      + exists e. split; [apply list_lookup_insert_eq; rewrite (c_len _ _ _ _ C); apply at_lt|done].
      + rewrite list_lookup_insert_ne by (apply not_eq_sym, at_ne; lia). apply (c_new _ _ _ _ C). lia.
    - intros j Hj. rewrite list_lookup_insert_ne by (apply at_ne; lia). apply (c_old _ _ _ _ C). lia.
    - by rewrite tag_S. }
  split; [by exists (S P)|]. right. right. exists k, code, slot, e. split_and!; try done.
  rewrite (unread_spec _ _ _ _ C'), (unread_spec _ _ _ _ C). replace (S P - D) with (S (P - D)) by lia. rewrite entries_snoc. f_equal.
  - apply entries_ext. intros j Hj. cbn. apply list_lookup_insert_ne, not_eq_sym, at_ne. lia.
  - replace (D + (P - D)) with P by lia. cbn. rewrite list_lookup_insert_eq by (rewrite (c_len _ _ _ _ C); apply at_lt). done.
Qed.

Lemma pop_cq s D P H e : cq_ok s D P H -> D < P -> cq_data (cq s) !! at_ D = Some e ->
  let s' := set_cq (mkCq (cq_data (cq s)) (at_ (S D)) (tag (S D))) s in cq_ok s' (S D) P H /\ unread s = e :: unread s'.
Proof.
  intros C HDP He s'. destruct (c_order _ _ _ _ C) as (H1 & H2 & H3). assert (C' : cq_ok s' (S D) P H).
  { split; cbn [s' cq ctl set_cq cq_data cq_i phase]; try apply C; [lia|done| |].
    - intros j Hj. apply (c_new _ _ _ _ C). lia.
    - intros j Hj. destruct (decide (j = D + QUEUE_DEPTH)) as [->|]; [|apply (c_old _ _ _ _ C); lia].
      rewrite at_add, tag_add, negb_involutive. apply (c_new _ _ _ _ C). lia. }
  split; [done|]. rewrite (unread_spec _ _ _ _ C), (unread_spec _ _ _ _ C'). replace (P - D) with (S (P - S D)) by lia.
  by rewrite (entries_cons s D _ e He).
Qed.

(** *** Reading it *)

Section Reading.
Context `{Profile}.

(** What the controller does while the driver reads: some of the script's events. *)
Definition quiet (s s' : NvmeDevice) : Prop := cq_i (cq s') = cq_i (cq s) /\ unread s `prefix_of` unread s' /\
  length (unread s') + sum_list (length <$> script s') <= length (unread s) + sum_list (length <$> script s).

Lemma posts_cq es s D P H' : cq_ok s D P H' -> (exists P', cq_ok (posts es s) D P' H') /\ unread s `prefix_of` unread (posts es s) /\
  length (unread (posts es s)) <= length (unread s) + length es /\ script (posts es s) = script s.
Proof.
  revert s P. induction es as [|e es IH]; intros s P C; [split_and!; [by exists P|done|cbn; lia|done]|].
  destruct (post_cq e s D P H' C) as [(P1 & C1) Hp]. destruct (IH _ _ C1) as (HP & Hpre & Hle & Hs). destruct (post_same e s) as [_ Es].
  assert (Hu : unread s `prefix_of` unread (post e s) /\ length (unread (post e s)) <= S (length (unread s))).
  { destruct Hp as [->|[(_ & _ & ->)|(k & code & slot & c & _ & _ & _ & _ & ->)]]; [split; [done|lia]..|]. split; [by apply prefix_app_r|]. rewrite length_app. cbn. lia. }
  destruct Hu as [Hu1 Hu2]. change (posts (e :: es) s) with (posts es (post e s)). cbn [length].
  split_and!; [done|by etransitivity|lia|by rewrite Hs].
Qed.

Lemma tick_cq s D P H' : cq_ok s D P H' -> exists s', tick s = Done (tt, s') /\ quiet s s' /\ same s s' /\ exists P', cq_ok s' D P' H'.
Proof.
  intros C. unfold tick. eexists. split; [reflexivity|]. unfold quiet. destruct (script s) as [|es sc] eqn:Es.
  - rewrite Es. split_and!; [done..|apply same_refl|by exists P].
  - assert (C0 : cq_ok (set_script sc s) D P H') by (destruct C; by split).
    destruct (posts_cq es _ _ _ _ C0) as ((P' & C') & Hpre & Hle & Hs). rewrite Hs.
    destruct (c_at _ _ _ _ C') as [-> _]. destruct (c_at _ _ _ _ C) as [-> _]. cbn [script set_script].
    change (sum_list (length <$> es :: sc)) with (length es + sum_list (length <$> sc)).
    change (unread (set_script sc s)) with (unread s) in *. split_and!; [done..|lia| |by exists P'].
    clear. assert (Hsame : forall s0, same s0 (posts es s0)).
    { induction es as [|e es IH]; intros s0; [apply same_refl|]. eapply same_trans; [apply (post_same e s0)|apply (IH (post e s0))]. }
    eapply same_trans; [|apply Hsame]. by split.
Qed.

(** C21: with any controller, whatever the order in which it completes commands, the
    completion queue is a first-in first-out queue: an event of the controller fetches a
    command and leaves the queue alone, or appends one entry, which carries the slot of a
    command that it then no longer has, or changes nothing when the queue is full; complete() takes the oldest unread entry exactly
    once, and finds nothing only when there is no unread entry. *)
Theorem completions_fifo s D P H' : cq_ok s D P H' ->
  (forall e, posted_by e s (post e s) /\ exists P', cq_ok (post e s) D P' H') /\
  exists s1 P1, tick s = Done (tt, s1) /\ unread s `prefix_of` unread s1 /\
    match unread s1 with
    | [] => dev_complete s = Done (None, s1) /\ cq_ok s1 D P1 H'
    | e :: es => exists s', dev_complete s = Done (Some (cq_i (cq s'), e, cq_i (cq s)), s') /\ unread s' = es /\ cq_ok s' (S D) P1 H'
    end.
Proof.
  intros C. split; [intros e; split; by apply (post_cq e s D P H')|]. destruct (tick_cq s D P H' C) as (s1 & E & (Q1 & Q2 & _) & _ & P1 & C1).
  exists s1, P1. split_and!; [done..|]. destruct (c_order _ _ _ _ C1) as (H1 & H2 & H3). destruct (c_at _ _ _ _ C1) as [Ei Ep].
  assert (Hd : dev_complete s = (r ← lift (complete (cq s1)); _ ← put (set_cq r.2 s1); mret r.1) s1) by (unfold dev_complete; by rewrite (bind_Done _ _ _ _ _ E)).
  destruct (decide (D < P1)) as [Hlt|Hge].
  - destruct (c_new _ _ _ _ C1 D ltac:(lia)) as (e & He & Ht). destruct (pop_cq s1 D P1 H' e C1 Hlt He) as [C2 ->]. eexists. split; [|by split].
    rewrite Hd. unfold complete. rewrite Ei, (index_Some _ _ _ He). cbn [mbind outcome_bind]. rewrite is_new_tag, Ht, Ep, eqb_reflx. unfold advance.
    rewrite Ei, Ep, (c_len _ _ _ _ C1), at_S, <- tag_S, <- Q1, Ei. done.
  - replace P1 with D in * by lia. rewrite (unread_spec _ _ _ _ C1), Nat.sub_diag. cbn [entries seq omap list_omap]. split; [|done].
    destruct (c_old _ _ _ _ C1 D ltac:(pose proof depth_pos; lia)) as (e & He & Ht).
    rewrite Hd. unfold complete. rewrite Ei, (index_Some _ _ _ He). cbn [mbind outcome_bind]. rewrite is_new_tag, Ht, Ep.
    destruct (tag D); cbn [eqb negb]; unfold mbind, M_bind; cbn; by destruct s1.
Qed.

(** *** The resubmitting loops come to an end *)

(** What submitting leaves alone. *)
Record frame_cq (s s' : NvmeDevice) : Prop := {
  f_cq : cq s' = cq s; f_script : script s' = script s;
  f_post : post_i (ctl s') = post_i (ctl s) /\ post_phase (ctl s') = post_phase (ctl s) /\ head_db (ctl s') = head_db (ctl s) }.

Lemma frame_cq_refl s : frame_cq s s.
Proof. by split. Qed.
Lemma frame_cq_trans s s' s'' : frame_cq s s' -> frame_cq s' s'' -> frame_cq s s''.
Proof. intros [A1 A2 A3] [B1 B2 B3]. split; intuition congruence. Qed.
Lemma frame_ok s s' D P H' : frame_cq s s' -> cq_ok s D P H' -> cq_ok s' D P H'.
Proof. intros [E1 E2 (A1 & A2 & A3)] C. destruct C. by split; rewrite ?E1, ?A1, ?A2, ?A3. Qed.
Lemma frame_unread s s' : frame_cq s s' -> unread s' = unread s.
Proof. intros [E _ _]. unfold unread. by rewrite E. Qed.

Abbreviation frames m := (forall s, settles m s (fun _ s' => frame_cq s s')).

Lemma frames_bind {A B} (m : M NvmeDevice A) (k : A -> M NvmeDevice B) : frames m -> (forall a, frames (k a)) -> frames (m ≫= k).
Proof.
  intros Hm Hk s. eapply settles_bind; [apply Hm|]. intros a s1 F1. eapply settles_mono; [apply Hk|]. intros b s2 F2. exact (frame_cq_trans _ _ _ F1 F2).
Qed.
Lemma frames_ret {A} (a : A) : frames (mret a : M NvmeDevice A).
Proof. intros s. apply settles_ret, frame_cq_refl. Qed.
Lemma frames_get : frames (get : M NvmeDevice NvmeDevice).
Proof. intros s. apply frame_cq_refl. Qed.
Lemma frames_gets {A} (f : NvmeDevice -> A) : frames (gets f).
Proof. intros s. apply frame_cq_refl. Qed.
Lemma frames_lift {A} (o : outcome A) : o <> Hang -> frames (lift o : M NvmeDevice A).
Proof. intros Ho s. apply settles_lift; [done|]. intros a _. apply frame_cq_refl. Qed.
Lemma checked_no_hang w a : checked w a <> Hang.
Proof. unfold checked. destruct (_ && _); [done|]. by destruct overflow_checks. Qed.
Lemma frames_count_submitted : frames count_submitted.
Proof.
  intros s. unfold count_submitted. eapply (settles_bind _ _ _ (fun a s' => a = s /\ s' = s)); [done|]. intros _ _ [-> ->].
  eapply (settles_bind _ _ _ (fun _ s' => s' = s)); [apply settles_lift; [apply checked_no_hang|done]|]. intros n _ ->. by split.
Qed.
Lemma frames_count_completed : frames count_completed.
Proof.
  intros s. unfold count_completed. eapply (settles_bind _ _ _ (fun a s' => a = s /\ s' = s)); [done|]. intros _ _ [-> ->].
  eapply (settles_bind _ _ _ (fun _ s' => s' = s)); [apply settles_lift; [apply checked_no_hang|done]|]. intros n _ ->. by split.
Qed.
Lemma frames_drop o : frames (drop_opt o).
Proof. intros s. destruct o; by split. Qed.
Lemma frames_tail t : frames (submission_queue_tail t).
Proof. intros s. by split. Qed.
Lemma frames_ring_tail t : frames (ring_tail t).
Proof. destruct t; [apply frames_tail|apply frames_ret]. Qed.
Lemma frames_overwrite r old a : frames (overwrite r old a).
Proof. destruct r; apply frames_drop. Qed.
Lemma frames_slot_busy i : frames (slot_busy i).
Proof. apply frames_bind; [apply frames_get|]. intros s. apply frames_lift. unfold index, expect. by destruct (_ !! _). Qed.
Lemma frames_free_slot i : frames (free_slot i).
Proof. intros s. by split. Qed.
Lemma frames_on_sq {A} (f : NvmeCommandQueue -> outcome (A * NvmeCommandQueue)) : (forall q, f q <> Hang) -> frames (on_sq f).
Proof.
  intros Hf s. unfold on_sq. eapply (settles_bind _ _ _ (fun a s' => a = s /\ s' = s)); [done|]. intros _ _ [-> ->].
  eapply (settles_bind _ _ _ (fun _ s' => s' = s)); [by apply settles_lift|]. intros r _ ->. by split.
Qed.

(** The operations of the queue never hang. *)
Lemma obind_no_hang {A B} (o : outcome A) (k : A -> outcome B) : o <> Hang -> (forall a, k a <> Hang) -> o ≫= k <> Hang.
Proof. intros Ho Hk. destruct o; [apply Hk|done..]. Qed.
Lemma index_no_hang {A} (l : list A) i : index l i <> Hang.
Proof. unfold index, expect. by destruct (_ !! _). Qed.

Ltac no_hang := repeat (cbv beta zeta; match goal with
  | |- _ ≫= _ <> Hang => apply obind_no_hang; [|intros ?]
  | |- (if ?b then _ else _) <> Hang => destruct b
  | |- index _ _ <> Hang => apply index_no_hang
  | |- checked _ _ <> Hang => apply checked_no_hang
  | |- Done _ <> Hang => discriminate
  | |- Panic <> Hang => discriminate
  | |- ?o <> Hang => progress unfold put_cmd, put_in, claim, next_block, uadd, umul, usub, get_rand_block
  end).

Lemma cid_ops_no_hang entry breq req q :
  submit_brequest_cid entry breq q <> Hang /\ submit_raw_request_cid entry q <> Hang /\ submit_rrequest_cid entry req q <> Hang.
Proof. unfold submit_brequest_cid, submit_raw_request_cid, submit_rrequest_cid. split_and!; no_hang. Qed.

#[local] Hint Resolve frames_ret frames_get frames_gets frames_count_submitted frames_drop frames_ring_tail frames_overwrite frames_slot_busy frames_free_slot : nvme.

(** Steps that leave the completion side alone, in sequence. *)
Ltac framed := repeat first [solve [auto with nvme] | apply frames_bind; [solve [auto with nvme]|intros ?]].

Lemma frames_submit_block breq w : frames (submit_block breq w).
Proof.
  unfold submit_block. apply frames_bind; [apply frames_lift; unfold submit_entry, len_blocks; no_hang|]. intros n. apply frames_bind; [apply frames_gets|]. intros old.
  apply frames_bind; [apply frames_on_sq; intros q; by apply (cid_ops_no_hang _ _ 0)|]. intros r. framed.
Qed.
Lemma frames_submit_raw data c w : frames (submit_raw data c w).
Proof.
  unfold submit_raw. apply frames_bind; [apply frames_on_sq; intros q; by apply (cid_ops_no_hang _ (BlockReq_new 0 0 0 0) 0)|].
  intros r. framed.
Qed.
Lemma frames_submit_v vec c w : frames (submit_v vec c w).
Proof.
  unfold submit_v. apply frames_bind; [apply frames_gets|]. intros old.
  apply frames_bind; [apply frames_on_sq; intros q; by apply (cid_ops_no_hang _ (BlockReq_new 0 0 0 0))|].
  intros r. framed.
Qed.
Lemma frames_resubmit {A} (table : NvmeCommandQueue -> list (option A)) again c : (forall a, frames (again a)) -> frames (resubmit table again c).
Proof.
  intros Ha. unfold resubmit. apply frames_bind; [apply frames_slot_busy|]. intros [|]; [|apply frames_ret]. apply frames_bind; [apply frames_get|]. intros s0.
  apply frames_bind; [apply frames_lift, index_no_hang|]. intros [req|]; [|apply frames_ret]. apply frames_bind; [apply frames_free_slot|]. intros _. apply Ha.
Qed.

(** The rest of the driver's reads. *)
Lemma is_valid_cq s D P H' : cq_ok s D P H' -> run dev_is_valid s (fun v s' => quiet s s' /\ v = head (unread s') /\ exists P', cq_ok s' D P' H' /\ (is_Some v <-> D < P')).
Proof.
  intros C. destruct (tick_cq s D P H' C) as (s1 & E & Q & _ & P1 & C1). unfold dev_is_valid. eapply run_step; [exact E|]. eapply run_step; [reflexivity|].
  destruct (c_order _ _ _ _ C1) as (H1 & H2 & H3). destruct (c_at _ _ _ _ C1) as [Ei Ep]. unfold is_valid. rewrite Ei.
  destruct (decide (D < P1)) as [Hlt|Hge].
  - destruct (c_new _ _ _ _ C1 D ltac:(lia)) as (e & He & Ht). destruct (pop_cq s1 D P1 H' e C1 Hlt He) as [_ Eu].
    exists (Some e), s1. split; [by rewrite (index_Some _ _ _ He); cbn; rewrite is_new_tag, Ht, Ep, eqb_reflx|]. split_and!; [done|by rewrite Eu|].
    exists P1. split; [done|]. split; [done|by eexists].
  - replace P1 with D in * by lia. destruct (c_old _ _ _ _ C1 D ltac:(pose proof depth_pos; lia)) as (e & He & Ht).
    exists None, s1. split; [by rewrite (index_Some _ _ _ He); cbn; rewrite is_new_tag, Ht, Ep; destruct (tag D)|].
    split_and!; [done|by rewrite (unread_spec _ _ _ _ C1), Nat.sub_diag|]. exists D. split; [done|]. split; [by intros [? [=]]|lia].
Qed.

Lemma peek_cq s D P H' : cq_ok s D P H' -> run peek_next s (fun b s' => quiet s s' /\ exists P', cq_ok s' D P' H' /\ P <= P' /\ (b = true -> S D < P')).
Proof.
  intros C. destruct (tick_cq s D P H' C) as (s1 & E & Q & _ & P1 & C1). unfold peek_next. eapply run_step; [reflexivity|].
  destruct (c_at _ _ _ _ C) as [Ei Ep]. rewrite Ei, Ep, (c_len _ _ _ _ C), at_S, <- tag_S. eapply run_step; [exact E|]. eapply run_step; [reflexivity|].
  destruct (c_order _ _ _ _ C) as (_ & HDP & _). destruct (c_order _ _ _ _ C1) as (H1 & H2 & H3). pose proof depth_batch as Hb. unfold COLLECT_CAP in Hb.
  assert (HP : P <= P1).
  { destruct Q as (_ & Q & _). apply prefix_length in Q. rewrite (unread_spec _ _ _ _ C), (unread_spec _ _ _ _ C1) in Q.
    rewrite (length_entries _ _ _ _ C), (length_entries _ _ _ _ C1) in Q. lia. }
  destruct (decide (S D < P1)) as [Hlt|Hge].
  - destruct (c_new _ _ _ _ C1 (S D) ltac:(lia)) as (e & He & _). eapply run_lift; [by apply index_Some|]. apply run_ret. split; [done|]. by exists P1.
  - destruct (c_old _ _ _ _ C1 (S D) ltac:(lia)) as (e & He & Ht). eapply run_lift; [by apply index_Some|]. apply run_ret. split; [done|]. exists P1.
    split_and!; [done..|]. intros Hz. apply Z.eqb_eq in Hz. unfold ctag in Ht. rewrite Hz in Ht. by destruct (tag (S D)).
Qed.

Lemma advance_cq s D P H' : cq_ok s D P H' -> D < P ->
  run dev_advance s (fun h s' => cq_ok s' (S D) P H' /\ script s' = script s /\ S (length (unread s')) = length (unread s)).
Proof.
  intros C HDP. destruct (c_at _ _ _ _ C) as [Ei Ep]. destruct (c_new _ _ _ _ C D ltac:(lia)) as (e & He & _).
  destruct (pop_cq s D P H' e C HDP He) as [C' Eu]. unfold dev_advance, advance. eapply run_step; [reflexivity|]. eapply run_step; [reflexivity|].
  apply run_ret. rewrite Ei, Ep, (c_len _ _ _ _ C), at_S, <- tag_S. split_and!; [done..|by rewrite Eu].
Qed.

(** The part of a round that handles an entry. *)
Definition work (s : NvmeDevice) : nat := length (unread s) + sum_list (length <$> script s).

Lemma quiet_work s s' : quiet s s' -> work s' <= work s.
Proof. intros (_ & _ & Hq). done. Qed.

Lemma round_cq (again : M NvmeDevice unit) s D P H' : frames again -> cq_ok s D P H' -> D < P ->
  settles (b ← peek_next; h ← dev_advance; _ ← count_completed; _ ← again; mret (b, h)) s
    (fun p s' => exists P', cq_ok s' (S D) P' H' /\ (p.1 = true -> S D < P') /\ work s' < work s).
Proof.
  intros Ha C HDP. eapply settles_bind; [by eapply run_settles, peek_cq|]. intros b s1 (Q & P1 & C1 & HP & Hb).
  eapply settles_bind; [eapply run_settles, advance_cq; [exact C1|lia]|]. intros h s2 (C2 & Es & Eu).
  eapply settles_bind; [apply frames_count_completed|]. intros [] s3 F3. eapply settles_bind; [apply Ha|]. intros [] s4 F4.
  apply settles_ret. pose proof (frame_cq_trans _ _ _ F3 F4) as F. exists P1. split_and!; [by eapply frame_ok|done|].
  apply quiet_work in Q. unfold work in *. rewrite (frame_unread _ _ F), (f_script _ _ F), Es. lia.
Qed.

(** A loop whose body is a round and a continuation. *)
Lemma round_bind {B} (again : M NvmeDevice unit) (k : bool -> nat -> M NvmeDevice B) s D P H' post : frames again -> cq_ok s D P H' -> D < P ->
  (forall b h s' P', cq_ok s' (S D) P' H' -> (b = true -> S D < P') -> work s' < work s -> settles (k b h) s' post) ->
  settles (b ← peek_next; h ← dev_advance; _ ← count_completed; _ ← again; k b h) s post.
Proof.
  intros Ha C HDP Hk. pose proof (round_cq again s D P H' Ha C HDP) as R. revert R. unfold settles, mbind, M_bind.
  destruct (peek_next s) as [[b s1]| |]; [|done..]. destruct (dev_advance s1) as [[h s2]| |]; [|done..].
  destruct (count_completed s2) as [[[] s3]| |]; [|done..]. destruct (again s3) as [[[] s4]| |]; [|done..].
  intros (P' & C' & Hb & Hw). by eapply Hk.
Qed.

Lemma check_loop_ends again batch fuel nv num head s D P H' : (forall c, frames (again c)) -> cq_ok s D P H' -> (nv = true -> D < P) ->
  num <= batch -> batch < fuel + num -> settles (check_loop fuel again batch nv num head) s (fun _ _ => True).
Proof.
  intros Ha. revert nv num head s D P. induction fuel as [|fuel IH]; intros nv num head s D P C Hnv Hn Hf; cbn [check_loop]; [lia|].
  assert (Hgo : run (if nv then mret true else v ← dev_is_valid; mret (bool_decide (is_Some v))) s
    (fun go s' => exists P', cq_ok s' D P' H' /\ (go = true -> D < P'))).
  { destruct nv; [apply run_ret; exists P; split; [done|auto]|]. eapply run_bind; [by eapply is_valid_cq|]. intros v s1 (_ & _ & P1 & C1 & Hv).
    apply run_ret. exists P1. split; [done|]. intros Hb. apply bool_decide_eq_true in Hb. by apply Hv. }
  eapply settles_bind; [by apply run_settles, Hgo|]. intros [|] s1 (P1 & C1 & HDP); [|by apply settles_ret]. specialize (HDP eq_refl).
  eapply settles_bind; [by eapply run_settles, is_valid_cq|]. intros v s2 (Q & Ev & P2 & C2 & Hv).
  assert (HDP2 : D < P2).
  { destruct Q as (_ & Q & _). apply prefix_length in Q. rewrite (unread_spec _ _ _ _ C1), (unread_spec _ _ _ _ C2) in Q.
    rewrite (length_entries _ _ _ _ C1), (length_entries _ _ _ _ C2) in Q. lia. }
  destruct (proj2 Hv HDP2) as [entry ->]. cbv beta iota. eapply round_bind; [apply Ha|exact C2|done|]. intros b h s3 P3 C3 Hb _.
  destruct (Nat.ltb_spec batch (S num)) as [|Hle]; [by apply settles_ret|]. eapply IH; [exact C3|done|lia|lia].
Qed.

Lemma check_raw_ends w batch fuel nv num head s D P H' : cq_ok s D P H' -> (nv = true -> D < P) -> work s < fuel ->
  settles (check_raw_loop fuel batch w nv num head) s (fun _ _ => True).
Proof.
  revert nv num head s D P. induction fuel as [|fuel IH]; intros nv num head s D P C Hnv Hf; cbn [check_raw_loop]; [lia|].
  eapply settles_bind; [by eapply run_settles, is_valid_cq|]. intros v s1 (Q & Ev & P1 & C1 & Hv). pose proof (quiet_work _ _ Q) as Hw.
  destruct (decide (D < P1)) as [HDP|HDP].
  - destruct (proj2 Hv HDP) as [entry ->]. rewrite (bool_decide_true (is_Some (Some entry))) by (by eexists). rewrite andb_false_r.
    eapply (settles_bind _ _ _ (fun a s' => a = entry /\ s' = s1)); [done|]. intros _ _ [-> ->].
    eapply round_bind; [apply frames_resubmit; intros a; apply frames_submit_raw|exact C1|done|]. intros b h s3 P3 C3 Hb Hw3.
    destruct (S num =? batch); [by apply settles_ret|]. eapply IH; [exact C3|done|lia].
  - assert (Hn : v = None) by (destruct v; [|done]; exfalso; apply HDP; apply Hv; by eexists). clear Ev. subst v.
    rewrite (bool_decide_false (is_Some None)) by apply is_Some_None. destruct nv; [|done].
    exfalso. specialize (Hnv eq_refl). destruct Q as (_ & Q & _). apply prefix_length in Q. rewrite (unread_spec _ _ _ _ C), (unread_spec _ _ _ _ C1) in Q.
    rewrite (length_entries _ _ _ _ C), (length_entries _ _ _ _ C1) in Q. lia.
Qed.

(** Check_io, check_iov and check_io_raw come to an end whatever the controller does
    and whatever the tables hold: the entry behind the head that the loop relies on
    ([next_is_valid]) is never taken back, and every round but the last reads one. *)
Theorem check_calls_end s D P H' batch w : cq_ok s D P H' ->
  check_io batch w s <> Hang /\ check_iov batch w s <> Hang /\ check_io_raw batch w s <> Hang.
Proof.
  intros C. assert (Hend : forall (A : Type) (m : M NvmeDevice A), settles m s (fun _ _ => True) -> m s <> Hang) by (unfold settles; intros A m Hm E; by rewrite E in Hm).
  assert (Hwith : forall again, (forall c, frames (again c)) -> settles (check_with again batch) s (fun _ _ => True)).
  { intros again Ha. unfold check_with. eapply settles_bind; [eapply (check_loop_ends again); [done|exact C|done|lia|lia]|]. intros p s1 _.
    eapply (settles_bind _ _ _ (fun _ _ => True)); [by destruct p.1, p.2|done]. }
  split_and!; apply Hend.
  - unfold check_io. eapply settles_bind; [|done]. apply Hwith. intros c. apply frames_resubmit. intros a. apply frames_submit_block.
  - apply Hwith. intros c. apply frames_resubmit. intros a. apply frames_submit_v.
  - unfold check_io_raw. eapply (settles_bind _ _ _ (fun a s' => a = s /\ s' = s)); [done|]. intros _ _ [-> ->].
    eapply settles_bind; [eapply check_raw_ends; [exact C|done|]|].
    + unfold rounds, work. rewrite (unread_spec _ _ _ _ C), (length_entries _ _ _ _ C). pose proof (c_order _ _ _ _ C). lia.
    + intros p s1 _. eapply (settles_bind _ _ _ (fun _ _ => True)); [by destruct p.1, p.2|done].
Qed.
End Reading.

(** ** How much a command transfers *)

(** The number of blocks of a command; the field counts from zero. *)
Definition nlb (c : NvmeCommand) : Z := (cdw12 c + 1)%Z.

(** The blocks that the request's buffer has. *)
Definition buffer_blocks (breq : BlockReq) : Z := ((b_len breq + 511) / 512)%Z.

Section Sizes.
Context `{Profile}.

Lemma wrap_id w a : in_width w a -> wrap w a = a.
Proof. intros Ha. by apply Z.mod_small. Qed.

Lemma nlb_entry (w : bool) c lba n p : nlb (io_entry w c lba n p) = (n + 1)%Z.
Proof. by destruct w. Qed.

(** C37: of the three calls that submit a BlockReq only submit_io asks for as many blocks as
    the buffer has.  submit asks for one more, so the controller writes past the end of the
    buffer; submit_and_poll asks for one less, and for a buffer of a single block it
    underflows: it panics where overflow is checked and otherwise asks for 65536 blocks. *)
Theorem transfer_sizes breq w : (0 < b_len breq <= 65535 * 512)%Z ->
  (exists c, submit_io_entry breq w = Done c /\ nlb c = buffer_blocks breq) /\
  (exists c, submit_entry breq w = Done c /\ nlb c = (buffer_blocks breq + 1)%Z) /\
  (if decide (buffer_blocks breq = 1%Z) then
     if overflow_checks then submit_and_poll_entry breq w = Panic
     else exists c, submit_and_poll_entry breq w = Done c /\ nlb c = 65536%Z
   else exists c, submit_and_poll_entry breq w = Done c /\ nlb c = (buffer_blocks breq - 1)%Z).
Proof.
  intros Hl. assert (Hb : (1 <= buffer_blocks breq <= 65535)%Z) by (unfold buffer_blocks; Z.to_euclidean_division_equations; lia).
  assert (El : len_blocks (b_len breq) = Done (buffer_blocks breq)) by (unfold len_blocks, uadd; by rewrite checked_ok by (unfold in_width; lia)).
  assert (Es : usub 64 (buffer_blocks breq) 1 = Done (buffer_blocks breq - 1)%Z) by (apply checked_ok; unfold in_width; lia).
  unfold submit_io_entry, submit_entry, submit_and_poll_entry. rewrite El. cbn [mbind outcome_bind]. rewrite Es. cbn [mbind outcome_bind].
  split_and!; [eexists; split; [reflexivity|]; rewrite nlb_entry, wrap_id by (unfold in_width; lia); lia..|].
  destruct (decide (buffer_blocks breq = 1%Z)) as [->|Hne].
  - unfold usub, checked. cbn. destruct overflow_checks; [done|]. eexists. split; [reflexivity|]. by rewrite nlb_entry.
  - unfold usub. rewrite checked_ok by (unfold in_width; lia). eexists. split; [reflexivity|]. rewrite nlb_entry, wrap_id by (unfold in_width; lia). lia.
Qed.
End Sizes.

Lemma transfer_sizes_witness : exists c, submit_entry (H := true) (BlockReq_new 0 8 4096 4096) false = Done c /\ nlb c = 9%Z.
Proof. destruct (transfer_sizes (H := true) (BlockReq_new 0 8 4096 4096) false) as (_ & (c & E & En) & _); [cbn; lia|]. exists c. split; [exact E|exact En]. Defined.

(** ** Who owns a buffer that was handed back *)

Section Owners.
Context `{Profile}.

(** The driver still has a vector over the memory [a], or has freed it. *)
Definition claims (s : NvmeDevice) (a : Z) : Prop := a ∈ dropped s \/ exists i r, brequests (sq s) !! i = Some (Some r) /\ b_data r = a.

(** Everything that the driver claims it goes on claiming. *)
Definition claims_on (s s' : NvmeDevice) : Prop := forall a, claims s a -> claims s' a.

Lemma claims_same s s' : brequests (sq s') = brequests (sq s) -> dropped s `prefix_of` dropped s' -> claims_on s s'.
Proof. intros E [k Ek] a [Ha|Ha]; [left; rewrite Ek; apply elem_of_app; by left|right; by rewrite E]. Qed.

Lemma tick_owners s : ensures tick s (fun _ s' => sq s' = sq s /\ dropped s' = dropped s).
Proof.
  intros a s' E. unfold tick, modify in E. injection E as _ <-. destruct (script s) as [|es sc]; [done|].
  assert (Hp : forall es s0, sq (posts es s0) = sq s0 /\ dropped (posts es s0) = dropped s0).
  { clear. induction es as [|e es IH]; intros s0; [done|]. destruct (IH (post e s0)) as [E1 E2]. destruct (post_same e s0) as [T _]. destruct T.
    change (posts (e :: es) s0) with (posts es (post e s0)). split; congruence. }
  apply (Hp es (set_script sc s)).
Qed.

(** The completion side moves; the tables and what was freed stay. *)
Abbreviation keeps m s := (ensures m s (fun _ s' => brequests (sq s') = brequests (sq s) /\ dropped s' = dropped s)).

Lemma owners_bind {A B} (m : M NvmeDevice A) (k : A -> M NvmeDevice B) s : keeps m s -> (forall a s', keeps (k a) s') -> keeps (m ≫= k) s.
Proof. intros Hm Hk. eapply ensures_bind; [exact Hm|]. intros a s1 [E1 E2]. eapply ensures_mono; [apply Hk|]. intros b s2 [-> ->]. done. Qed.

Lemma complete_owners s : keeps dev_complete s.
Proof.
  unfold dev_complete. eapply ensures_bind; [apply tick_owners|]. intros _ s1 [E1 E2]. apply ensures_get, ensures_lift_bind. intros r _ a s' E. injection E as _ <-.
  cbn. by rewrite E1, E2.
Qed.

Lemma spin_owners n s : keeps (spin n) s.
Proof.
  revert s. induction n as [|n IH]; intros s; (apply owners_bind; [apply complete_owners|]); intros [e|] s1; [by apply ensures_ret| |by apply ensures_ret|apply IH].
  intros r s' [=].
Qed.

Lemma complete_or_spin_owners all s : keeps (complete_or_spin all) s.
Proof.
  destruct all; [|apply complete_owners]. unfold complete_or_spin, complete_spin. apply owners_bind; [apply ensures_get, spin_owners|]. intros e s1. by apply ensures_ret.
Qed.

Lemma count_completed_owners s : keeps count_completed s.
Proof. apply ensures_get, ensures_lift_bind. intros n _ a s' E. by injection E as _ <-. Qed.
Lemma count_submitted_owners s : keeps count_submitted s.
Proof. apply ensures_get, ensures_lift_bind. intros n _ a s' E. by injection E as _ <-. Qed.

Lemma keeps_claims {A} (m : M NvmeDevice A) s : keeps m s -> ensures m s (fun _ s' => claims_on s s').
Proof. intros Hm. eapply ensures_mono; [exact Hm|]. intros a s' [E1 E2]. apply claims_same; [done|by rewrite E2]. Qed.

(** Everything in [col] beyond [col0] is claimed by the driver. *)
Definition aliased (s : NvmeDevice) (col0 col : list BlockReq) : Prop := exists got, col = got ++ col0 /\ forall q, q ∈ got -> claims s (b_data q).

Lemma aliased_refl s col : aliased s col col.
Proof. exists []. split; [done|]. intros q Hq. by apply not_elem_of_nil in Hq. Qed.
Lemma aliased_mono s s' col0 col : claims_on s s' -> aliased s col0 col -> aliased s' col0 col.
Proof. intros Hc (got & -> & Hg). exists got. split; [done|]. intros q Hq. by apply Hc, Hg. Qed.
Lemma aliased_cons s col0 col q : claims s (b_data q) -> aliased s col0 col -> aliased s col0 (q :: col).
Proof. intros Hq (got & -> & Hg). exists (q :: got). split; [done|]. intros q' [->|Hq']%elem_of_cons; [done|by apply Hg]. Qed.

Lemma reap_entry_owners col0 head idx r s : aliased s col0 (p_reap r) ->
  ensures (reap_entry brequests head idx r) s (fun r' s' => aliased s' col0 (p_reap r')).
Proof.
  intros Hr. unfold reap_entry. eapply ensures_bind; [apply (keeps_claims (slot_busy idx)), ensures_get, ensures_lift; done|].
  intros busy s1 C1. apply (aliased_mono _ _ _ _ C1) in Hr. eapply (ensures_bind _ _ _ (fun r' s' => aliased s' col0 (p_reap r'))).
  - destruct busy; [|by apply ensures_ret]. apply ensures_get, ensures_lift_bind. intros o Eo. apply index_Done in Eo. intros r' s' [= <- <-]. cbn [p_reap].
    assert (C2 : claims_on s1 (set_sq (upd_slot (<[idx := false]>) (sq s1)) s1)) by (by apply claims_same).
    apply (aliased_mono _ _ _ _ C2) in Hr. destruct o as [q|]; [|done]. apply aliased_cons; [|done]. right. by exists idx, q.
  - intros r' s2 Hr2. eapply ensures_bind; [apply keeps_claims, count_completed_owners|]. intros [] s3 C3. apply ensures_ret. exact (aliased_mono _ _ _ _ C3 Hr2).
Qed.

Lemma poll_entries_owners n all col0 r s : aliased s col0 (p_reap r) -> ensures (poll_entries n all r) s (fun r' s' => aliased s' col0 (p_reap r')).
Proof.
  revert r s. induction n as [|n IH]; intros r s Hr; cbn [poll_entries]; [by apply ensures_ret|].
  eapply ensures_bind; [apply keeps_claims, complete_or_spin_owners|]. intros [[[head entry] idx]|] s1 C1; apply (aliased_mono _ _ _ _ C1) in Hr; [|by apply IH].
  eapply ensures_bind; [by apply reap_entry_owners|]. intros r' s2 Hr2. by apply IH.
Qed.

Lemma ring_head_owners {A} (r : Reaped A) s : keeps (ring_head r) s.
Proof. unfold ring_head. destruct (0 <? p_count r); [|by apply ensures_ret]. intros a s' E. by injection E as _ <-. Qed.

(** Submitting a request frees the one that the slot had. *)
Lemma submit_brequest_inv entry breq q r q' : submit_brequest entry breq q = Done (r, q') ->
  (r = None /\ q' = q) \/ (r <> None /\ exists b, brequests q' = <[sq_i q := Some b]> (brequests q)).
Proof.
  unfold submit_brequest, put_cmd, put_in, claim. destruct (index _ _) as [[|]| |]; cbn [mbind outcome_bind]; [|..|done|done].
  - intros [= <- <-]. by left.
  - destruct (_ <? _); [|done]. cbn [mbind outcome_bind]. destruct (_ <? _); [|done]. cbn [mbind outcome_bind]. destruct (_ <? _); [|done].
    cbn [mbind outcome_bind]. intros [= <- <-]. right. split; [done|]. by eexists.
Qed.

Lemma overwrite_owners entry breq s r q' : submit_brequest entry breq (sq s) = Done (r, q') ->
  ensures (overwrite r (brequest_at (sq_i (sq s)) s) (b_data breq)) (set_sq q' s) (fun _ s' => claims_on s s').
Proof.
  intros E a s' Es. destruct (submit_brequest_inv _ _ _ _ _ E) as [(-> & ->)|(Hr & b & Eb)].
  - injection Es as _ <-. apply claims_same; [done|]. cbn. by apply prefix_app_r.
  - destruct r as [t|]; [|done]. unfold overwrite, drop_opt in Es. intros x [Hx|(i & b0 & Hi & Hb)].
    + left. destruct (brequest_at _ _); injection Es as _ <-; cbn; [apply elem_of_app; by left|done].
    + destruct (decide (i = sq_i (sq s))) as [->|Hne].
      * left. unfold brequest_at in Es. rewrite Hi in Es. injection Es as _ <-. cbn. apply elem_of_app. right. apply list_elem_of_singleton. done.
      * right. exists i, b0. split; [|done]. assert (Eq : sq s' = q') by (destruct (brequest_at _ _); injection Es as _ <-; done).
        rewrite Eq, Eb. by rewrite list_lookup_insert_ne.
Qed.

Lemma reap_one_owners col0 r s : aliased s col0 (p_reap r) -> ensures (reap_one brequests r) s (fun r' s' => aliased s' col0 (p_reap r')).
Proof.
  intros Hr. unfold reap_one. eapply ensures_bind; [apply keeps_claims, complete_owners|]. intros c s1 C1. apply (aliased_mono _ _ _ _ C1) in Hr.
  destruct c as [[[head entry] idx]|]; [by apply reap_entry_owners|by apply ensures_ret].
Qed.

Lemma submit_poll_loop_owners w q count tail col0 r s : aliased s col0 (p_reap r) ->
  ensures (submit_poll_loop w q count tail r) s (fun p s' => aliased s' col0 (p_reap p.2)).
Proof.
  revert count tail r s. induction q as [|breq q IH]; intros count tail r s Hr; cbn [submit_poll_loop]; [by apply ensures_ret|].
  apply ensures_lift_bind. intros entry _. apply ensures_get, ensures_lift_bind. intros [|] _; [|by apply ensures_ret].
  unfold on_sq. intros p s' E. apply bind_Done_inv in E as (r0 & s0 & E1 & E). revert p s' E. apply bind_Done_inv in E1 as (sx & sy & E0 & E1).
  injection E0 as <- <-. unfold lift in E1. destruct (submit_brequest entry breq (sq s)) as [[t0 q0]| |] eqn:Eq; [|done..]. injection E1 as <- <-.
  change (ensures (_ ← overwrite t0 (brequest_at (sq_i (sq s)) s) (b_data breq);
    match t0 with Some tail0 => r0 ← reap_one brequests r; _ ← count_submitted; submit_poll_loop w q (S count) tail0 r0
    | None => _ ← count_submitted; submit_poll_loop w q count tail r end) (set_sq q0 s) (fun p s' => aliased s' col0 (p_reap p.2))).
  eapply ensures_bind; [by eapply overwrite_owners|]. intros [] s1 C1. apply (aliased_mono _ _ _ _ C1) in Hr. destruct t0 as [t0|].
  - eapply ensures_bind; [by apply reap_one_owners|]. intros r1 s2 Hr2. eapply ensures_bind; [apply keeps_claims, count_submitted_owners|].
    intros [] s3 C3. apply IH. exact (aliased_mono _ _ _ _ C3 Hr2).
  - eapply ensures_bind; [apply keeps_claims, count_submitted_owners|]. intros [] s3 C3. apply IH. exact (aliased_mono _ _ _ _ C3 Hr).
Qed.

(** Every request that poll or submit_and_poll hands back over a BlockReq is still
    claimed by the driver when the call returns: its buffer is still owned by the slot's
    table entry, or the driver has freed it already.  The caller's vector is a second
    owner of the same memory, and the buffer is freed twice.  The last part is a run in
    which a request does come back. *)
Theorem polled_still_owned :
  (forall n reap all s, ensures (poll n reap all) s (fun reap' s' => aliased s' reap reap')) /\
  (forall submit collect w s, ensures (submit_and_poll submit collect w) s (fun p s' => aliased s' collect p.2)) /\
  (exists s', submit_and_poll [BlockReq_new 0 8 4096 4096] [] false (NvmeDevice_new ∅ [[]; [Fetch; Post 0 0]]) = Done (1, [], [BlockReq_new 0 8 4096 4096], s') /\
     brequests (sq s') !! 0 = Some (Some (BlockReq_new 0 8 4096 4096))).
Proof.
  split_and!.
  - intros n reap all s. unfold poll. eapply ensures_bind; [apply (poll_entries_owners n all reap), aliased_refl|]. intros r s1 Hr.
    eapply ensures_bind; [apply keeps_claims, ring_head_owners|]. intros [] s2 C2. apply ensures_ret. exact (aliased_mono _ _ _ _ C2 Hr).
  - intros submit collect w s. unfold submit_and_poll. eapply ensures_bind; [apply (submit_poll_loop_owners w submit 0 0 collect), aliased_refl|].
    intros [[[rest n] tail] r] s1 Hr. cbn [snd] in Hr.
    eapply (ensures_bind _ _ _ (fun _ s' => claims_on s1 s')).
    { apply keeps_claims. destruct (0 <? n); [|by apply ensures_ret]. intros a s' E. by injection E as _ <-. }
    intros [] s2 C2. apply (aliased_mono _ _ _ _ C2) in Hr. eapply ensures_bind; [by apply poll_entries_owners|]. intros r' s3 Hr3.
    eapply ensures_bind; [apply keeps_claims, ring_head_owners|]. intros [] s4 C4. apply ensures_ret. exact (aliased_mono _ _ _ _ C4 Hr3).
  - assert (Ec : match submit_and_poll [BlockReq_new 0 8 4096 4096] [] false (NvmeDevice_new ∅ [[]; [Fetch; Post 0 0]]) with
      | Done (p, s') => p = (1, [], [BlockReq_new 0 8 4096 4096]) /\ brequests (sq s') !! 0 = Some (Some (BlockReq_new 0 8 4096 4096))
      | _ => False end) by (vm_compute; split; reflexivity).
    destruct (submit_and_poll _ _ _ _) as [[p s']| |]; [|destruct Ec..]. destruct Ec as [-> E]. exists s'. split; [reflexivity|exact E].
Qed.
End Owners.

(** ** Buffers that are freed while the controller works on them *)

Section InFlight.
Context `{Profile}.

(** A command that the controller has, or sees in the submission queue, points to the
    memory [a]. *)
Definition in_flight (s : NvmeDevice) (a : Z) : Prop := exists slot c, slot ∈ seen (ctl s) /\ sq_data (sq s) !! slot = Some c /\ dptr0 c = a.

Lemma raw_run entry data q : sq_typed q -> cmd_typed entry ->
  submit_request_raw entry data q = Done (None, q) \/
  exists q' c, submit_request_raw entry data q = Done (Some (sq_i q'), q') /\ sq_typed q' /\ sq_i q' = at_ (S (sq_i q)) /\
    req_slot q !! sq_i q = Some false /\ req_slot q' = <[sq_i q := true]> (req_slot q) /\
    sq_data q' = <[sq_i q := c]> (sq_data q) /\ dptr0 c = dptr0 entry.
Proof.
  intros T Hc. destruct (sq_run_well (Raw data) entry q T Hc I) as ([r q'] & E & T' & Ht). cbn [sq_run] in E. pose proof (ty_i _ T) as Hi.
  revert E. unfold submit_request_raw. destruct (lookup_lt_is_Some_2 (req_slot q) (sq_i q)) as [b Hb]; [by rewrite (ty_slot _ T)|].
  rewrite (index_Some _ _ _ Hb). cbn [mbind outcome_bind]. destruct b; [by left|]. unfold put_in, put_cmd, claim.
  rewrite (ty_raw _ T), (proj2 (Nat.ltb_lt _ _) Hi). cbn [mbind outcome_bind sq_data upd_raw]. rewrite (ty_data _ T), (proj2 (Nat.ltb_lt _ _) Hi).
  cbn [mbind outcome_bind]. destruct (next_block 8 _) as [b| |]; cbn [mbind outcome_bind]; [|done..].
  cbn [req_slot upd_block upd_data upd_raw]. rewrite (ty_slot _ T), (proj2 (Nat.ltb_lt _ _) Hi). cbn [mbind outcome_bind].
  intros E. injection E as <- <-. right. eexists _, _. split; [reflexivity|]. split; [exact T'|]. unfold step_i. cbn.
  split_and!; [by rewrite length_insert, (ty_data _ T), Nat.add_1_r|exact Hb|reflexivity..].
Qed.

(** The loop of [submit_io_raw]: what was submitted is freed, and its commands stand. *)
Lemma submit_io_raw_loop_spec w bufs count tail s : sq_typed (sq s) -> Forall (in_width 64) bufs ->
  (0 <= submitted s /\ submitted s + Z.of_nat (length bufs) < 2 ^ 64)%Z ->
  run (submit_io_raw_loop w bufs count tail) s (fun p s' => exists ins, bufs = ins ++ p.1.1 /\ p.1.2 = count + length ins /\
    p.2 = (if decide (ins = []) then tail else sq_i (sq s')) /\ sq_i (sq s') = at_ (sq_i (sq s) + length ins) /\ dropped s' = dropped s ++ ins /\ ctl s' = ctl s /\
    (forall i, req_slot (sq s) !! i = Some true -> req_slot (sq s') !! i = Some true /\ sq_data (sq s') !! i = sq_data (sq s) !! i) /\
    forall k a, ins !! k = Some a -> exists c, req_slot (sq s') !! at_ (sq_i (sq s) + k) = Some true /\ sq_data (sq s') !! at_ (sq_i (sq s) + k) = Some c /\ dptr0 c = a).
Proof.
  revert count tail s. induction bufs as [|a bufs IH]; intros count tail s T Hw Hs; cbn [submit_io_raw_loop].
  { apply run_ret. exists []. cbn. rewrite app_nil_r, !Nat.add_0_r, Nat.mod_small by apply T. split_and!; try done. }
  apply list.Forall_cons in Hw as [Ha Hw]. cbn [length] in Hs. assert (Hc : cmd_typed (io_entry w 1 0 7 a)).
  { destruct w; unfold cmd_typed; cbn; split_and!; first [exact Ha|split; vm_compute; discriminate || reflexivity]. }
  unfold on_sq. apply run_assoc. eapply run_step; [reflexivity|]. apply run_assoc.
  destruct (raw_run (io_entry w 1 0 7 a) a (sq s) T Hc) as [E|(q' & c & E & T' & Ei & Hf & Es & Ed & Ep)].
  - eapply run_lift; [exact E|]. apply run_assoc. eapply run_step; [reflexivity|]. eapply run_step; [reflexivity|]. apply run_ret. exists []. cbn.
    rewrite app_nil_r, !Nat.add_0_r, Nat.mod_small by apply T. split_and!; try done.
  - eapply run_lift; [exact E|]. apply run_assoc. eapply run_step; [reflexivity|]. eapply run_step; [reflexivity|]. cbv beta iota. cbn [fst].
    eapply run_step. { unfold count_submitted. rewrite bind_get. unfold uadd. rewrite checked_ok by (unfold in_width; cbn; lia). reflexivity. }
    eapply run_step; [reflexivity|]. eapply run_mono; [apply IH; [exact T'|done|cbn; lia]|].
    intros p s' (ins & -> & En & Et & Ei' & Edr & Ec & Hold & Hnew). cbn [sq ctl dropped set_dropped set_submitted set_sq snd] in *.
    assert (Hia : at_ (sq_i (sq s)) = sq_i (sq s)) by apply Nat.mod_small, T. assert (Hi' : sq_i (sq s) < length (req_slot (sq s))) by (rewrite (ty_slot _ T); apply T).
    assert (H0 : req_slot q' !! sq_i (sq s) = Some true) by (rewrite Es; by apply list_lookup_insert_eq).
    destruct (Hold _ H0) as [B1 B2]. exists (a :: ins). cbn [app length]. split_and!; [done|lia| | |by rewrite Edr, <- app_assoc|done| |].
    + rewrite Et. rewrite (decide_False (P := a :: ins = [])) by done. destruct (decide (ins = [])) as [->|]; [|done]. rewrite Ei'. cbn [length]. by rewrite Nat.add_0_r, Nat.mod_small by apply T'.
    + rewrite Ei', Ei, Nat.Div0.add_mod_idemp_l. f_equal. lia.
    + intros i Hi. assert (i <> sq_i (sq s)) by congruence. destruct (Hold i) as [-> ->]; [by rewrite Es, list_lookup_insert_ne|]. rewrite Ed. by rewrite list_lookup_insert_ne.
    + intros [|k] b Hk.
      * injection Hk as <-. rewrite Nat.add_0_r, Hia. exists c. split_and!; [done| |by rewrite Ep; destruct w].
        rewrite B2, Ed. apply list_lookup_insert_eq. rewrite (ty_data _ T). apply T.
      * destruct (Hnew k b Hk) as (c' & Hc'). rewrite Ei, Nat.Div0.add_mod_idemp_l in Hc'. replace (sq_i (sq s) + S k) with (S (sq_i (sq s)) + k) by lia. by exists c'.
Qed.

(** Submit_io_raw gives the controller the address of each vector and then drops the
    vector.  When the call returns, every buffer that it submitted has been freed while
    the controller still has the command that reads or writes it. *)
Theorem raw_buffers_freed_in_flight w bufs s : sq_typed (sq s) -> fetch_i (ctl s) = sq_i (sq s) -> length bufs < QUEUE_DEPTH ->
  Forall (in_width 64) bufs -> (0 <= submitted s /\ submitted s + Z.of_nat (length bufs) < 2 ^ 64)%Z ->
  run (submit_io_raw bufs w) s (fun p s' => exists ins, bufs = ins ++ p.2 /\ p.1 = length ins /\ dropped s' = dropped s ++ ins /\
    forall a, a ∈ ins -> in_flight s' a).
Proof.
  intros T Et Hl Hw Hs. unfold submit_io_raw. eapply run_bind; [by apply submit_io_raw_loop_spec|]. intros [[rest n] tail] s1.
  intros (ins & -> & En & Ett & Ei & Ed & Ec & _ & Hnew). cbn [fst snd] in *. subst n. rewrite length_app in Hl. destruct ins as [|a0 ins].
  { eapply run_step; [reflexivity|]. apply run_ret. exists []. cbn. split_and!; [done..|]. intros a Ha. by apply not_elem_of_nil in Ha. }
  eapply run_step; [reflexivity|]. apply run_ret. exists (a0 :: ins). cbn [Nat.add length fst snd] in *. split_and!; [done..|].
  intros a Ha. apply list_elem_of_lookup in Ha as [k Hk]. destruct (Hnew k a Hk) as (c & _ & Hc & Hp). exists (at_ (sq_i (sq s) + k)), c. split_and!; [|done..].
  unfold seen. cbn [ctl set_ctl pending fetch_i tail_db]. rewrite Ec, Et, Ett, decide_False, Ei by done. apply elem_of_app. right.
  rewrite <- (Nat.mod_small (sq_i (sq s)) QUEUE_DEPTH) at 2 by apply T. rewrite ring_range_spec by lia. apply list_elem_of_fmap. eexists. split; [reflexivity|].
  apply elem_of_seq. apply lookup_lt_Some in Hk. cbn [length] in Hk. lia.
Qed.

Lemma rrequest_cid_run entry vec q c b : sq_typed q -> Z.to_nat (cid entry) = c -> c < QUEUE_DEPTH -> req_slot q !! c = Some false -> next_block 1 q = Done b ->
  exists q' e, submit_rrequest_cid entry vec q = Done (Some (sq_i q'), q') /\ sq_i q' = at_ (S (sq_i q)) /\ sq_data q' !! sq_i q = Some e /\ dptr0 e = dptr0 entry.
Proof.
  intros T <- Hc Hf Hb. pose proof (ty_i _ T) as Hi. unfold submit_rrequest_cid. rewrite (index_Some _ _ _ Hf). cbn [mbind outcome_bind].
  unfold put_in, put_cmd, claim. rewrite (ty_rrequests _ T), (proj2 (Nat.ltb_lt _ _) Hc). cbn [mbind outcome_bind sq_data upd_rrequests].
  rewrite (ty_data _ T), (proj2 (Nat.ltb_lt _ _) Hi). cbn [mbind outcome_bind]. unfold next_block in Hb |- *.
  cbn [sq_block upd_data upd_rrequests] in *. rewrite Hb. cbn [mbind outcome_bind req_slot upd_block upd_data upd_rrequests].
  rewrite (ty_slot _ T), (proj2 (Nat.ltb_lt _ _) Hc). cbn [mbind outcome_bind]. eexists _, _. split; [reflexivity|]. unfold step_i. cbn.
  split_and!; [by rewrite length_insert, (ty_data _ T), Nat.add_1_r|apply list_lookup_insert_eq; by rewrite (ty_data _ T)|done].
Qed.

(** Check_iov takes a second vector over the buffer of a finished request out of the
    table and submits it again under the same identifier; storing it in the table drops
    the first vector.  So each buffer that check_iov resubmits is freed while the
    controller works on it. *)
Theorem resubmitted_buffer_freed c vec w s : sq_typed (sq s) -> fetch_i (ctl s) = sq_i (sq s) -> (0 <= c < Z.of_nat QUEUE_DEPTH)%Z ->
  req_slot (sq s) !! Z.to_nat c = Some true -> rrequests (sq s) !! Z.to_nat c = Some (Some vec) -> (0 <= submitted s /\ submitted s + 1 < 2 ^ 64)%Z ->
  run (resubmit rrequests (fun vec => submit_v vec c w) (Z.to_nat c)) s (fun _ s' => dropped s' = dropped s ++ [vec] /\ in_flight s' vec).
Proof.
  intros T Et Hc Hb Hr Hs. unfold resubmit. eapply run_step; [by apply slot_busy_run|]. cbv beta iota. eapply run_step; [reflexivity|].
  eapply run_lift; [by apply index_Some|]. cbv beta iota. eapply run_step; [reflexivity|]. unfold submit_v. eapply run_step; [reflexivity|].
  assert (Tq : sq_typed (upd_slot (<[Z.to_nat c := false]>) (sq s))) by (destruct T; split; cbn; rewrite ?length_insert; done).
  pose proof (ty_block _ T) as Hbl. destruct (rrequest_cid_run (io_entry w c 0 7 vec) vec _ (Z.to_nat c) ((sq_block (sq s) + 1) mod NUM_LBAS)%Z Tq) as (q' & e & E & Ei & He & Hp).
  - by destruct w.
  - lia.
  - cbn. apply list_lookup_insert_eq. rewrite (ty_slot _ T). lia.
  - unfold next_block, uadd. cbn. unfold NUM_LBAS in *. by rewrite checked_ok by (unfold in_width; lia).
  - eapply run_step. { unfold on_sq. mstep (eq_refl (get (set_sq (upd_slot (<[Z.to_nat c := false]>) (sq s)) s))). cbn [sq set_sq]. rewrite E. reflexivity. }
    cbn [fst snd]. unfold overwrite, rrequest_at, drop_opt, ring_tail. cbn [sq set_sq rrequests upd_slot]. rewrite Hr. cbn [mjoin option_join].
    eapply run_step; [reflexivity|]. eapply run_step; [reflexivity|].
    eexists tt, _. split; [unfold count_submitted; rewrite bind_get; unfold uadd; rewrite checked_ok by (unfold in_width; cbn; lia); reflexivity|].
    split; [done|]. exists (sq_i (sq s)), e. cbn in *. split_and!; [|done|by rewrite Hp; destruct w]. unfold seen. cbn [pending fetch_i tail_db]. rewrite Et, Ei. apply elem_of_app. right.
    rewrite <- (Nat.mod_small (sq_i (sq s)) QUEUE_DEPTH) at 2 by apply T. rewrite ring_range_spec by (pose proof depth_batch; unfold COLLECT_CAP in *; lia).
    apply list_elem_of_fmap. exists (sq_i (sq s)). split; [symmetry; apply Nat.mod_small, T|]. apply elem_of_seq. lia.
Qed.
End InFlight.

(** ** The driver domain *)

Definition NvmeDomain : Type := Cell NvmeDevice.
Definition NvmeDomain_new : NvmeDomain := mkCell 0x8086 0x0953 false None.

Section Domain.
Context `{Profile}.

Definition BDev_submit_and_poll_rref (submit collect : list Z) (write : bool) : M NvmeDomain (result ErrorKind (nat * list Z * list Z)) :=
  with_device (p ← submit_and_poll_rref submit collect write;
    let '(num, _, _, _, submit, collect) := p : nat * nat * nat * Z * list Z * list Z in mret (num, submit, collect)).
Definition BDev_poll_rref (collect : list Z) : M NvmeDomain (result ErrorKind (nat * list Z)) := with_device (poll_rref collect).
Definition BDev_get_stats : M NvmeDomain (result ErrorKind (Z * Z)) := with_device dev_get_stats.

(** [NullNvme] gives back what it gets. *)
Definition Null_submit_and_poll (submit collect : list Z) : nat * list Z * list Z := (length submit, collect, submit).
Definition Null_poll (collect : list Z) : nat * list Z := (length collect, collect).
Definition Null_get_stats : Z * Z := (0, 0)%Z.

(** A client's call through the interface is the call of the device: with a device in the
    cell and a controller that completes in order it keeps the requests apart. *)
Lemma bdev_submit_run ord submit collect write s d q frame : device s = Some d -> idle ord d q ((submit ++ collect) ++ frame) ->
  length submit <= COLLECT_CAP -> (submitted d + Z.of_nat (length submit) + Z.of_nat QUEUE_DEPTH < 2 ^ 64)%Z ->
  run (BDev_submit_and_poll_rref submit collect write) s (fun r s' => exists n sub' col' d' q', r = Ok (n, sub', col') /\ device s' = Some d' /\
    idle ord d' q' ((sub' ++ col') ++ frame)).
Proof.
  intros Ed I Hl Hs. eapply run_mono; [eapply with_device_run; [exact Ed|]|].
  - eapply run_bind; [by eapply submit_and_poll_run|]. intros [[[[[n t1] t2] t3] sub'] col'] d' (ins & rest & got & q' & _ & _ & _ & _ & _ & _ & I').
    apply (run_ret _ _ (fun a d' => exists n sub' col' q', a = (n, sub', col') /\ idle ord d' q' ((sub' ++ col') ++ frame))). by exists n, sub', col', q'.
  - intros r s' (a & d' & -> & Ed' & n & sub' & col' & q' & -> & I'). by exists n, sub', col', d', q'.
Qed.
End Domain.

#[local] Transparent QUEUE_DEPTH.

(** ** The device after start-up *)

Lemma new_cq bl sc : cq_ok (NvmeDevice_new bl sc) 0 0 0.
Proof.
  pose proof depth_pos as Hp. assert (E0 : at_ 0 = 0) by apply Nat.Div0.mod_0_l. assert (T0 : tag 0 = true) by (unfold tag; by rewrite Nat.Div0.div_0_l).
  split; cbn [cq ctl NvmeDevice_new cq_data cq_i phase NvmeCompletionQueue_new post_i post_phase head_db Controller_new]; rewrite ?length_replicate, ?E0, ?T0; try reflexivity.
  - lia.
  - split; reflexivity.
  - intros j Hj. lia.
  - intros j Hj. exists zero_cpl. rewrite lookup_replicate_2 by apply at_lt. split; [reflexivity|]. unfold tag. rewrite Nat.div_small by lia. reflexivity.
  - split_and!; reflexivity.
Qed.

(** One command waits in the submission queue. *)
Definition sample_told : NvmeDevice := set_ctl (mkCtl [] 0 0 true 0 1) (NvmeDevice_new ∅ [[Fetch; Post 0 0]]).

Lemma completions_fifo_witness : exists s' e, dev_complete sample_told = Done (Some (1, e, 0), s') /\ cpl_cid e = 0%Z /\ unread s' = [].
Proof.
  assert (C : cq_ok sample_told 0 0 0) by (destruct (new_cq ∅ [[Fetch; Post 0 0]]); split; assumption).
  destruct (completions_fifo sample_told 0 0 0 C) as (_ & s1 & P1 & E & _ & Hm).
  assert (Eu : exists e, unread s1 = [e] /\ cpl_cid e = 0%Z).
  { assert (Ec : match tick sample_told with Done (_, s) => exists e, unread s = [e] /\ cpl_cid e = 0%Z | _ => False end) by (vm_compute; eexists; split; reflexivity).
    rewrite E in Ec. exact Ec. }
  destruct Eu as (e & Eu & Ee). rewrite Eu in Hm. destruct Hm as (s' & Hd & Hu & C'). exists s', e.
  destruct (c_at _ _ _ _ C') as [Ei _]. rewrite Ei in Hd. split; [exact Hd|]. split; [exact Ee|exact Hu].
Defined.

Lemma check_calls_end_witness : check_io (H := true) 4 false (NvmeDevice_new ∅ []) <> Hang.
Proof. apply (check_calls_end (H := true) (NvmeDevice_new ∅ []) 0 0 0 4 false (new_cq _ _)). Defined.

Lemma raw_buffers_freed_in_flight_witness : run (submit_io_raw (H := true) [4096%Z; 8192%Z] false) (NvmeDevice_new ∅ [])
  (fun p s' => exists ins, [4096%Z; 8192%Z] = ins ++ p.2 /\ p.1 = length ins /\ dropped s' = [] ++ ins /\ forall a, a ∈ ins -> in_flight s' a).
Proof.
  apply (raw_buffers_freed_in_flight (H := true) false [4096%Z; 8192%Z] (NvmeDevice_new ∅ [])).
  - exact new_typed.
  - reflexivity.
  - cbn [length]. pose proof depth_batch. unfold COLLECT_CAP in *. lia.
  - repeat constructor; unfold in_width; lia.
  - cbn [submitted NvmeDevice_new length]. lia.
Defined.

(** A finished request in slot 0. *)
Definition sample_done : NvmeDevice :=
  set_sq (upd_slot (<[0 := true]>) (upd_rrequests (<[0 := Some 4096%Z]>) NvmeCommandQueue_new)) (NvmeDevice_new ∅ []).

Lemma sample_done_typed : sq_typed (sq sample_done).
Proof. pose proof new_typed as T. destruct T. split; cbn [sample_done set_sq sq upd_slot upd_rrequests sq_data requests brequests rrequests raw_requests blkreq_rrefs req_slot sq_i seed sq_block]; rewrite ?length_insert; assumption. Qed.

Lemma resubmitted_buffer_freed_witness : run (resubmit rrequests (fun vec => submit_v (H := true) vec 0 false) 0) sample_done
  (fun _ s' => dropped s' = [] ++ [4096%Z] /\ in_flight s' 4096).
Proof.
  apply (resubmitted_buffer_freed (H := true) 0 4096 false sample_done).
  - exact sample_done_typed.
  - reflexivity.
  - unfold QUEUE_DEPTH. lia.
  - reflexivity.
  - reflexivity.
  - cbn [submitted sample_done set_sq NvmeDevice_new]. lia.
Defined.
