(* ===== verification/Virtio.v ===== *)
(** * Virtio queues
    (lib/devices/virtio/src/{lib,defs}.rs, and what lib/devices/virtio_net/src/lib.rs and
    lib/devices/virtio_block/src/lib.rs do alike)

    A queue is a table of descriptors and two rings.  The driver links descriptors to a chain,
    puts the number of the first one into the available ring and moves the ring's index; the
    device takes chains from there, works on them in any order, and puts their numbers into
    the used ring, which the driver reads.  Both indices are counters of 16 bits.

    A [Channel] is a queue with the driver's book-keeping for it, and the device's side: the
    next available entry to look at and the chains it has.  Memory that descriptors
    point to is named by [Addr]: the packets and requests by the address of their [RRef], the
    elements of the driver's own vectors by their index. *)

From Stdlib Require Import ZArith Lia.
From stdpp Require Import base gmap list numbers options.
From S2P Require Import Prelude.

Inductive Addr :=
  | Header (i : nat)
  | Status (i : nat)
  | Buf (a : Z).

Global Instance Addr_eq_dec : EqDecision Addr.
Proof. solve_decision. Defined.
Global Instance Addr_countable : Countable Addr.
Proof.
  by refine (inj_countable' (fun a => match a with Header i => inl (inl i) | Status i => inl (inr i) | Buf a => inr a end)
    (fun x => match x with inl (inl i) => Header i | inl (inr i) => Status i | inr a => Buf a end) _); intros [].
Defined.

(** ** Queues (defs.rs) *)

Record VirtqDescriptor := mkDescr { addr : Addr; len : Z; flags : Z; next : Z }.
Record VirtqUsedElement := mkElem { e_id : Z; e_len : Z }.

Record VirtqAvailable := mkAvail { a_idx : Z; a_ring : list Z; a_queue_size : Z }.
Record VirtqUsed := mkUsed { u_idx : Z; u_ring : list VirtqUsedElement; u_queue_size : Z }.

Record VirtQueue := mkVQ { descriptors : list VirtqDescriptor; available : VirtqAvailable; used : VirtqUsed }.

Definition VirtqDescriptor_default : VirtqDescriptor := mkDescr (Buf 0) 0 0 0.

(** The memory of the rings is zeroed. *)
Definition VirtqAvailable_new (queue_size : Z) : VirtqAvailable := mkAvail 0 (replicate (Z.to_nat queue_size) 0%Z) queue_size.
Definition VirtqUsed_new (queue_size : Z) : VirtqUsed := mkUsed 0 (replicate (Z.to_nat queue_size) (mkElem 0 0)) queue_size.

Definition VirtQueue_new (queue_size : Z) : VirtQueue :=
  mkVQ (replicate (Z.to_nat queue_size) VirtqDescriptor_default) (VirtqAvailable_new queue_size) (VirtqUsed_new queue_size).

(** [*available.ring(index) = v] and [used.ring(index)] *)
Definition available_ring (index v : Z) (a : VirtqAvailable) : outcome VirtqAvailable :=
  if (index <? a_queue_size a)%Z then Done (mkAvail (a_idx a) (<[Z.to_nat index := v]> (a_ring a)) (a_queue_size a)) else Panic.
Definition used_ring (index : Z) (u : VirtqUsed) : outcome VirtqUsedElement :=
  if (index <? u_queue_size u)%Z then Prelude.index (u_ring u) (Z.to_nat index) else Panic.

(** The remainder of unsigned integers. *)
Definition urem (a b : Z) : outcome Z := if (b =? 0)%Z then Panic else Done (a mod b)%Z.

(** ** Channels *)

Record Channel := mkCh {
  vq : VirtQueue;
  free_descriptors : list bool;
  last_idx : Z;
  buffers : list (option Z);
  seen : Z;
  pending : list nat }.

Definition with_vq (v : VirtQueue) (c : Channel) : Channel := mkCh v (free_descriptors c) (last_idx c) (buffers c) (seen c) (pending c).
Definition with_free (f : list bool) (c : Channel) : Channel := mkCh (vq c) f (last_idx c) (buffers c) (seen c) (pending c).
Definition with_last (i : Z) (c : Channel) : Channel := mkCh (vq c) (free_descriptors c) i (buffers c) (seen c) (pending c).
Definition with_buffers (b : list (option Z)) (c : Channel) : Channel := mkCh (vq c) (free_descriptors c) (last_idx c) b (seen c) (pending c).

Definition Channel_new (queue_size : Z) (buffer_count : nat) : Channel :=
  mkCh (VirtQueue_new queue_size) (replicate buffer_count true) 0 (replicate buffer_count None) 0 [].

(** The first free chain, marked as used. *)
Fixpoint get_free_idx (free_buffers : list bool) : option (nat * list bool) :=
  match free_buffers with
  | [] => None
  | true :: l => Some (0, false :: l)
  | false :: l => match get_free_idx l with Some (i, l) => Some (S i, false :: l) | None => None end
  end.

Definition store_buffer (i : nat) (b : Z) (c : Channel) : outcome Channel :=
  _ ← index (buffers c) i; Done (with_buffers (<[i := Some b]> (buffers c)) c).

Definition set_descriptor (i : nat) (d : VirtqDescriptor) (c : Channel) : outcome Channel :=
  _ ← index (descriptors (vq c)) i; Done (with_vq (mkVQ (<[i := d]> (descriptors (vq c))) (available (vq c)) (used (vq c))) c).

(** [*available.ring(available.data.idx % queue_size) = head as u16] *)
Definition offer (queue_size : Z) (head : nat) (c : Channel) : outcome Channel :=
  i ← urem (a_idx (available (vq c))) queue_size;
  a ← available_ring i (wrap 16 (Z.of_nat head)) (available (vq c));
  Done (with_vq (mkVQ (descriptors (vq c)) a (used (vq c))) c).

(** [available.data.idx = available.data.idx.wrapping_add(1)] *)
Definition advance_available (c : Channel) : Channel :=
  let a := available (vq c) in
  with_vq (mkVQ (descriptors (vq c)) (mkAvail (wrap 16 (a_idx a + 1)) (a_ring a) (a_queue_size a)) (used (vq c))) c.

Definition advance_last (c : Channel) : Channel := with_last (wrap 16 (last_idx c + 1)) c.

(** ** The device *)

(** Descriptors follow each other while the flag NEXT is set. *)
Fixpoint walk (fuel : nat) (ds : list VirtqDescriptor) (head : nat) : list VirtqDescriptor :=
  match fuel with
  | O => []
  | S fuel =>
      match ds !! head with
      | Some d => d :: (if Z.testbit (flags d) 0 then walk fuel ds (Z.to_nat (next d)) else [])
      | None => []
      end
  end.

(** The device looks at the available ring once. *)
Definition dev_take (c : Channel) : Channel :=
  let a := available (vq c) in
  if (seen c =? a_idx a)%Z then c
  else match a_ring a !! Z.to_nat (seen c mod a_queue_size a) with
       | Some h => mkCh (vq c) (free_descriptors c) (last_idx c) (buffers c) (wrap 16 (seen c + 1)) (pending c ++ [Z.to_nat h])
       | None => c
       end.

(** The device is done with the chain it took as the [k]-th of those it has, after
    writing [n] bytes. *)
Definition dev_use (k : nat) (n : Z) (c : Channel) : option (nat * list VirtqDescriptor * Channel) :=
  match pending c !! k with
  | None => None
  | Some h =>
      let u := used (vq c) in
      let u' := mkUsed (wrap 16 (u_idx u + 1)) (<[Z.to_nat (u_idx u mod u_queue_size u) := mkElem (Z.of_nat h) n]> (u_ring u)) (u_queue_size u) in
      Some (h, walk (length (descriptors (vq c))) (descriptors (vq c)) h,
        mkCh (mkVQ (descriptors (vq c)) (available (vq c)) u') (free_descriptors c) (last_idx c) (buffers c) (seen c) (delete k (pending c)))
  end.

(** The chains between two counters of a ring. *)
Definition between (q : Z) (ring : list Z) (from to : Z) : list nat :=
  (fun k => Z.to_nat (default 0%Z (ring !! Z.to_nat (wrap 16 (from + Z.of_nat k) mod q)))) <$> seq 0 (Z.to_nat (wrap 16 (to - from))).

(** The chains that the device has not taken yet, and those the driver has not collected. *)
Definition offered_heads (c : Channel) : list nat :=
  between (a_queue_size (available (vq c))) (a_ring (available (vq c))) (seen c) (a_idx (available (vq c))).
Definition used_heads (c : Channel) : list nat :=
  between (u_queue_size (used (vq c))) (e_id <$> u_ring (used (vq c))) (last_idx c) (u_idx (used (vq c))).

(** ** Counters of 16 bits *)

Section Counters.
Context (q : nat).
Definition queue_ok : Prop := exists k, k <= 15 /\ q = 2 ^ k.
Context (Hq : queue_ok).

Lemma queue_pos : 0 < q /\ (Z.of_nat q < 65536)%Z.
Proof using Hq.
  destruct Hq as (k & Hk & ->). split; [apply Nat.neq_0_lt_0, Nat.pow_nonzero; lia|].
  rewrite Nat2Z.inj_pow. apply (Z.le_lt_trans _ (2 ^ 15)); [apply Z.pow_le_mono_r; lia|done].
Qed.

Lemma slot_of n : Z.to_nat (wrap 16 (Z.of_nat n) mod Z.of_nat q) = n mod q.
Proof using Hq.
  unfold wrap. rewrite Z.mod_mod_divide; [by rewrite <- Nat2Z.inj_mod, Nat2Z.id|]. destruct Hq as (k & Hk & ->). rewrite Nat2Z.inj_pow.
  exists (2 ^ (16 - Z.of_nat k))%Z. rewrite <- Z.pow_add_r by lia. f_equal. lia.
Qed.

Lemma counter_S n : wrap 16 (wrap 16 (Z.of_nat n) + 1) = wrap 16 (Z.of_nat (S n)).
Proof. unfold wrap. rewrite Zplus_mod_idemp_l. f_equal. lia. Qed.

Lemma counter_eq n l : (Z.of_nat l < 65536)%Z -> (wrap 16 (Z.of_nat n) =? wrap 16 (Z.of_nat (n + l)))%Z = (l =? 0).
Proof.
  intros Hl. unfold wrap. change (2 ^ 16)%Z with 65536%Z. destruct (Nat.eqb_spec l 0) as [->|Hn]; [rewrite Nat.add_0_r; apply Z.eqb_refl|].
  apply Z.eqb_neq. intros E. rewrite Nat2Z.inj_add in E. pose proof (Z.div_mod (Z.of_nat n) 65536 ltac:(lia)).
  pose proof (Z.div_mod (Z.of_nat n + Z.of_nat l) 65536 ltac:(lia)).
  assert ((Z.of_nat n + Z.of_nat l) / 65536 - Z.of_nat n / 65536 = 0 \/ (Z.of_nat n + Z.of_nat l) / 65536 - Z.of_nat n / 65536 <= -1 \/
    1 <= (Z.of_nat n + Z.of_nat l) / 65536 - Z.of_nat n / 65536)%Z by lia. lia.
Qed.

Lemma between_ring buf n (l : list nat) : length buf = q -> length l <= q -> ring buf n (Z.of_nat <$> l) ->
  between (Z.of_nat q) buf (wrap 16 (Z.of_nat n)) (wrap 16 (Z.of_nat (n + length l))) = l.
Proof using Hq.
  intros Hb Hl Hr. destruct queue_pos as [_ Hp]. unfold between.
  replace (wrap 16 (wrap 16 (Z.of_nat (n + length l)) - wrap 16 (Z.of_nat n))) with (Z.of_nat (length l)).
  2: { unfold wrap. rewrite <- Zminus_mod, Nat2Z.inj_add. replace (Z.of_nat n + Z.of_nat (length l) - Z.of_nat n)%Z with (Z.of_nat (length l)) by lia.
       symmetry. apply Z.mod_small. lia. }
  rewrite Nat2Z.id. apply list_eq. intros i. rewrite list_lookup_fmap. destruct (decide (i < length l)) as [Hi|Hi].
  - rewrite lookup_seq_lt by done. destruct (lookup_lt_is_Some_2 l i Hi) as [x Hx]. rewrite Hx. cbn.
    replace (wrap 16 (wrap 16 (Z.of_nat n) + Z.of_nat i)) with (wrap 16 (Z.of_nat (n + i))) by (unfold wrap; rewrite Zplus_mod_idemp_l; f_equal; lia).
    rewrite slot_of, <- Hb, (Hr i (Z.of_nat x)) by (by rewrite list_lookup_fmap, Hx). cbn. by rewrite Nat2Z.id.
  - rewrite lookup_seq_ge, lookup_ge_None_2 by lia. done.
Qed.
End Counters.

Lemma ring_snoc {A} (buf : list A) s l x : ring buf s l -> buf !! ((s + length l) mod length buf) = Some x -> ring buf s (l ++ [x]).
Proof.
  intros R Hx i y Hi. apply lookup_app_Some in Hi as [Hi|[Hge Hi]]; [by apply R|].
  apply list_lookup_singleton_Some in Hi as [Hz <-]. by replace i with (length l) by lia.
Qed.

Lemma ring_prefix {A} (buf : list A) s l l' : ring buf s (l ++ l') -> ring buf s l.
Proof. intros R i y Hi. apply R. by apply lookup_app_l_Some. Qed.

(** ** The invariant of a channel

    [g] gives for every chain in use what it is for; [chain] says which descriptors such a
    chain has, and [buf_of] which buffer.  [A] lists the chains that the device has not taken
    yet, [U] those that the driver has not collected yet, and [R] those the driver is
    filling in. *)

Section Invariant.
Context {T : Type} (q bc nd : nat) (chain : nat -> T -> list VirtqDescriptor) (buf_of : T -> Z).

Record layout : Prop := {
  l_queue : queue_ok q;
  l_fit : nd * bc <= q;
  l_nd : 1 < nd;
  l_length i t : length (chain i t) = nd;
  l_flags i t j d : chain i t !! j = Some d -> Z.testbit (flags d) 0 = (S j <? nd);
  l_next i t j d : i < bc -> chain i t !! j = Some d -> S j < nd -> next d = Z.of_nat (i + S j * bc) }.

Record chan_ok (c : Channel) (g : gmap nat T) (A U R : list nat) : Prop := {
  c_desc : length (descriptors (vq c)) = q;
  c_aring : length (a_ring (available (vq c))) = q;
  c_asize : a_queue_size (available (vq c)) = Z.of_nat q;
  c_uring : length (u_ring (used (vq c))) = q;
  c_usize : u_queue_size (used (vq c)) = Z.of_nat q;
  c_free : length (free_descriptors c) = bc;
  c_marks i : i < bc -> free_descriptors c !! i = Some (bool_decide (g !! i = None));
  c_nbufs : length (buffers c) = bc;
  c_bufs i : i < bc -> i ∉ R -> buffers c !! i = Some (buf_of <$> g !! i);
  c_bound i : is_Some (g !! i) -> i < bc;
  c_heads : A ++ pending c ++ U ++ R ≡ₚ (map_to_list g).*1;
  c_avail : exists n, seen c = wrap 16 (Z.of_nat n) /\ a_idx (available (vq c)) = wrap 16 (Z.of_nat (n + length A)) /\
    ring (a_ring (available (vq c))) n (Z.of_nat <$> A);
  c_used : exists m, last_idx c = wrap 16 (Z.of_nat m) /\ u_idx (used (vq c)) = wrap 16 (Z.of_nat (m + length U)) /\
    ring (e_id <$> u_ring (used (vq c))) m (Z.of_nat <$> U);
  c_chains i t j d : g !! i = Some t -> i ∉ R -> chain i t !! j = Some d -> descriptors (vq c) !! (i + j * bc) = Some d }.

Context (L : layout).
Implicit Types (c : Channel) (g : gmap nat T) (A U R : list nat).

Lemma chain_in_use c g A U R i : chan_ok c g A U R -> i ∈ A ++ pending c ++ U ++ R <-> is_Some (g !! i).
Proof.
  intros C. rewrite (c_heads _ _ _ _ _ C), list_elem_of_fmap. split.
  - intros ([j t] & -> & Hi). apply elem_of_map_to_list in Hi. by exists t.
  - intros [t Ht]. exists (i, t). split; [done|]. by apply elem_of_map_to_list.
Qed.

Lemma heads_nodup c g A U R : chan_ok c g A U R -> NoDup (A ++ pending c ++ U ++ R).
Proof. intros C. rewrite (c_heads _ _ _ _ _ C). apply NoDup_fst_map_to_list. Qed.

(** At most [bc] chains are in use. *)
Lemma heads_bound c g A U R : chan_ok c g A U R -> length (A ++ pending c ++ U ++ R) <= bc.
Proof.
  intros C. rewrite <- (length_seq bc 0). apply submseteq_length, list.NoDup_submseteq; [by eapply heads_nodup|].
  intros i Hi. apply elem_of_seq. pose proof (c_bound _ _ _ _ _ C i (proj1 (chain_in_use _ _ _ _ _ i C) Hi)). lia.
Qed.

Lemma chan_bounds c g A U R : chan_ok c g A U R -> length A + length (pending c) + length U + length R <= bc /\ bc <= q /\ (Z.of_nat q < 65536)%Z /\ 0 < q.
Proof using L.
  intros C. pose proof (heads_bound _ _ _ _ _ C) as Hb. rewrite !length_app in Hb. destruct L as [Hq Hf Hn _ _ _].
  pose proof (queue_pos q Hq). split; [lia|]. split; [nia|lia].
Qed.

Lemma head_lt c g A U R i : chan_ok c g A U R -> i ∈ A ++ pending c ++ U ++ R -> i < bc.
Proof. intros C Hi. eapply (c_bound _ _ _ _ _ C), chain_in_use; done. Qed.

Lemma new_channel_ok : chan_ok (Channel_new (Z.of_nat q) bc) ∅ [] [] [].
Proof.
  split; cbn [Channel_new vq VirtQueue_new descriptors available used VirtqAvailable_new VirtqUsed_new a_ring u_ring a_queue_size u_queue_size
    free_descriptors buffers pending seen last_idx a_idx u_idx app length]; rewrite ?length_replicate, ?Nat2Z.id; try done.
  - intros i Hi. by rewrite lookup_replicate_2.
  - intros i Hi. by rewrite lookup_replicate_2.
  - intros i [t Ht]. by rewrite lookup_empty in Ht.
  - exists 0. split_and!; [done..|apply ring_nil].
  - exists 0. split_and!; [done..|apply ring_nil].
Qed.

(** *** The driver fills a chain *)

Lemma get_free_idx_Some l i l' : get_free_idx l = Some (i, l') -> l !! i = Some true /\ l' = <[i := false]> l.
Proof.
  revert i l'. induction l as [|[] l IH]; intros i l' E; cbn in E; [done|by injection E as <- <-|].
  destruct (get_free_idx l) as [[k m]|]; [|done]. injection E as <- <-. destruct (IH k m eq_refl) as [? ->]. done.
Qed.

Lemma get_free_idx_None l i : get_free_idx l = None -> l !! i <> Some true.
Proof.
  revert i. induction l as [|[] l IH]; intros i E; cbn in E; [done..|]. destruct (get_free_idx l) as [[k m]|]; [done|].
  destruct i; [done|]. by apply IH.
Qed.

Lemma reserve_ok c g A U i f t : chan_ok c g A U [] -> get_free_idx (free_descriptors c) = Some (i, f) ->
  i < bc /\ g !! i = None /\ chan_ok (with_free f c) (<[i := t]> g) A U [i].
Proof.
  intros C [Hi ->]%get_free_idx_Some. assert (Hl : i < bc) by (rewrite <- (c_free _ _ _ _ _ C); by eapply lookup_lt_Some).
  rewrite (c_marks _ _ _ _ _ C i Hl) in Hi. assert (Hg : g !! i = None) by (eapply bool_decide_eq_true; congruence).
  split_and!; [done..|]. destruct C as [C1 C2 C3 C4 C5 C6 C7 C8 C9 C10 C11 C12 C13 C14]. split; cbn; rewrite ?length_insert; try done.
  - intros j Hj. destruct (decide (i = j)) as [->|Hn]; [rewrite list_lookup_insert_eq by lia; by rewrite lookup_insert_eq|].
    rewrite list_lookup_insert_ne, lookup_insert_ne by done. by apply C7.
  - intros j Hj Hn. rewrite not_elem_of_cons in Hn. rewrite lookup_insert_ne by (intros ->; tauto). apply C9; [done|apply not_elem_of_nil].
  - intros j [t' Hj]. apply lookup_insert_Some in Hj as [[<- _]|[_ Hj]]; [done|by apply C10].
  - rewrite map_to_list_insert by done. cbn. rewrite <- C11. solve_Permutation.
  - intros j t' k d Hj Hn Hd. rewrite not_elem_of_cons in Hn. destruct Hn as [Hn _]. rewrite lookup_insert_ne in Hj by done.
    by eapply C14; [|apply not_elem_of_nil|].
Qed.

Definition stored (i : nat) (b : Z) c : Channel := with_buffers (<[i := Some b]> (buffers c)) c.

Lemma store_ok c g A U i b : chan_ok c g A U [i] ->
  store_buffer i b c = Done (stored i b c) /\ chan_ok (stored i b c) g A U [i] /\ buffers (stored i b c) !! i = Some (Some b).
Proof.
  intros C. assert (Hi : i < bc) by (eapply head_lt; [done|]; rewrite !elem_of_app; right; right; right; left).
  rewrite <- (c_nbufs _ _ _ _ _ C) in Hi. split_and!; [|..|by apply list_lookup_insert_eq].
  - unfold store_buffer. destruct (lookup_lt_is_Some_2 _ _ Hi) as [o Ho]. by rewrite (index_Some _ _ _ Ho).
  - destruct C as [C1 C2 C3 C4 C5 C6 C7 C8 C9 C10 C11 C12 C13 C14]. split; cbn; rewrite ?length_insert; try done.
    intros j Hj Hn. rewrite not_elem_of_cons in Hn. rewrite list_lookup_insert_ne by (intros ->; tauto). apply C9; [done|by rewrite not_elem_of_cons].
Qed.

Lemma place_inj i j i' j' : i < bc -> i' < bc -> i + j * bc = i' + j' * bc -> i = i' /\ j = j'.
Proof. intros Hi Hi' E. assert (j = j') by nia. nia. Qed.

Definition described (k : nat) (d : VirtqDescriptor) c : Channel :=
  with_vq (mkVQ (<[k := d]> (descriptors (vq c))) (available (vq c)) (used (vq c))) c.

Lemma describe_ok c g A U i j d : chan_ok c g A U [i] -> j < nd ->
  set_descriptor (i + j * bc) d c = Done (described (i + j * bc) d c) /\ chan_ok (described (i + j * bc) d c) g A U [i].
Proof using L.
  intros C Hj. assert (Hi : i < bc) by (eapply head_lt; [done|]; rewrite !elem_of_app; right; right; right; left).
  assert (Hk : i + j * bc < q) by (pose proof (l_fit L); nia). split.
  - unfold set_descriptor. rewrite <- (c_desc _ _ _ _ _ C) in Hk. apply lookup_lt_is_Some_2 in Hk as [d' Hd]. by rewrite (index_Some _ _ _ Hd).
  - pose proof (c_bound _ _ _ _ _ C) as Hb. destruct C as [C1 C2 C3 C4 C5 C6 C7 C8 C9 C10 C11 C12 C13 C14]. split; cbn; rewrite ?length_insert; try done.
    intros i' t j' d' Ht Hn Hd. rewrite list_lookup_insert_ne; [by eapply C14|]. intros E. apply place_inj in E as [-> _]; [|done|by apply Hb].
    apply Hn. left.
Qed.

(** The next available entry is chain [i]. *)
Definition offered c (i : nat) : Prop :=
  a_ring (available (vq c)) !! Z.to_nat (a_idx (available (vq c)) mod Z.of_nat q) = Some (Z.of_nat i).

Definition with_offer (i : nat) c : Channel :=
  let a := available (vq c) in
  with_vq (mkVQ (descriptors (vq c)) (mkAvail (a_idx a) (<[Z.to_nat (a_idx a mod Z.of_nat q) := Z.of_nat i]> (a_ring a)) (a_queue_size a)) (used (vq c))) c.

Lemma offer_ok c g A U i : chan_ok c g A U [i] ->
  offer (Z.of_nat q) i c = Done (with_offer i c) /\ chan_ok (with_offer i c) g A U [i] /\ offered (with_offer i c) i.
Proof using L.
  intros C. destruct (chan_bounds _ _ _ _ _ C) as (Hb1 & Hb2 & Hb3 & Hb4). cbn [length] in Hb1.
  assert (Hi : i < bc) by (eapply head_lt; [done|]; rewrite !elem_of_app; right; right; right; left).
  assert (Hm : (0 <= a_idx (available (vq c)) mod Z.of_nat q < Z.of_nat q)%Z) by (apply Z.mod_pos_bound; lia). split_and!.
  - unfold offer, urem, available_ring. destruct (Z.eqb_spec (Z.of_nat q) 0) as [|_]; [lia|]. cbn [mbind outcome_bind].
    rewrite (c_asize _ _ _ _ _ C). destruct (Z.ltb_spec (a_idx (available (vq c)) mod Z.of_nat q) (Z.of_nat q)) as [_|]; [|lia].
    cbn [mbind outcome_bind]. unfold with_offer. rewrite (c_asize _ _ _ _ _ C). unfold wrap. rewrite (Z.mod_small (Z.of_nat i)); [done|lia].
  - destruct C as [C1 C2 C3 C4 C5 C6 C7 C8 C9 C10 C11 C12 C13 C14]. split; cbn; rewrite ?length_insert; try done.
    destruct C12 as (n & Es & Ea & Hr). exists n. split_and!; [done..|]. rewrite Ea, (slot_of q (l_queue L)). rewrite <- C2 at 1.
    rewrite <- (length_fmap Z.of_nat A). eapply ring_prefix, ring_push; [rewrite length_fmap; lia|done].
  - unfold offered. cbn. apply list_lookup_insert_eq. rewrite (c_aring _ _ _ _ _ C). lia.
Qed.

Lemma publish_ok c g A U i t : chan_ok c g A U [i] -> offered c i -> g !! i = Some t -> buffers c !! i = Some (Some (buf_of t)) ->
  (forall j d, chain i t !! j = Some d -> descriptors (vq c) !! (i + j * bc) = Some d) ->
  chan_ok (advance_available c) g (A ++ [i]) U [].
Proof using L.
  intros C Ho Ht Hb Hd. destruct C as [C1 C2 C3 C4 C5 C6 C7 C8 C9 C10 C11 C12 C13 C14]. split; cbn; try done.
  - intros j Hj _. destruct (decide (j = i)) as [->|Hn]; [by rewrite Ht|]. apply C9; [done|]. by rewrite list_elem_of_singleton.
  - rewrite <- C11. solve_Permutation.
  - destruct C12 as (n & Es & Ea & Hr). exists n. split_and!; [done|rewrite Ea, length_app; cbn [length]; rewrite counter_S; do 2 f_equal; lia|].
    rewrite fmap_app. apply ring_snoc; [done|]. unfold offered in Ho. rewrite Ea, (slot_of q (l_queue L)) in Ho. by rewrite C2, length_fmap.
  - intros i' t' j d Ht' _ Hj. destruct (decide (i' = i)) as [->|Hn]; [|eapply C14; [done| |done]; by rewrite list_elem_of_singleton].
    rewrite Ht in Ht'. injection Ht' as <-. by apply Hd.
Qed.

(** *** The device runs *)

(** What the driver has written is as before. *)
Definition driver_same c c' : Prop :=
  descriptors (vq c') = descriptors (vq c) /\ available (vq c') = available (vq c) /\ free_descriptors c' = free_descriptors c /\
  last_idx c' = last_idx c /\ buffers c' = buffers c.

Lemma take_ok c g A U R : chan_ok c g A U R -> dev_take c = c \/
  exists h A', A = h :: A' /\ chan_ok (dev_take c) g A' U R /\ pending (dev_take c) = pending c ++ [h] /\ driver_same c (dev_take c).
Proof using L.
  intros C. destruct (chan_bounds _ _ _ _ _ C) as (Hb1 & Hb2 & Hb3 & Hb4). destruct (c_avail _ _ _ _ _ C) as (n & Es & Ea & Hr). unfold dev_take.
  rewrite Es, Ea, counter_eq by lia. destruct A as [|h A']; [by left|right]. cbn [length Nat.eqb]. rewrite (c_asize _ _ _ _ _ C), (slot_of q (l_queue L)).
  pose proof (ring_head _ _ _ _ Hr) as Hh. rewrite (c_aring _ _ _ _ _ C) in Hh. rewrite Hh, Nat2Z.id.
  exists h, A'. split_and!; [done| |done|done]. destruct C as [C1 C2 C3 C4 C5 C6 C7 C8 C9 C10 C11 C12 C13 C14]. split; cbn; try done.
  - rewrite <- C11. solve_Permutation.
  - exists (S n). rewrite counter_S. split_and!; [done|rewrite Ea; do 2 f_equal; cbn [length]; lia|by eapply ring_tail].
Qed.

Lemma walk_chain ds i t fuel j : i < bc -> (forall j d, chain i t !! j = Some d -> ds !! (i + j * bc) = Some d) ->
  j < nd -> nd <= fuel + j -> walk fuel ds (i + j * bc) = drop j (chain i t).
Proof using L.
  intros Hi Hd. revert j. induction fuel as [|fuel IH]; intros j Hj Hf; [lia|]. rewrite <- (l_length L i t) in Hj.
  destruct (lookup_lt_is_Some_2 _ _ Hj) as [d Hc]. cbn [walk]. rewrite (Hd _ _ Hc), (drop_S _ _ _ Hc). f_equal.
  rewrite (l_flags L _ _ _ _ Hc). rewrite (l_length L i t) in Hj. destruct (Nat.ltb_spec (S j) nd) as [Hs|Hs].
  - rewrite (l_next L _ _ _ _ Hi Hc Hs), Nat2Z.id. apply IH; lia.
  - symmetry. apply drop_ge. rewrite (l_length L i t). lia.
Qed.

Lemma use_ok c g A U R k n h ds c' : chan_ok c g A U R -> dev_use k n c = Some (h, ds, c') ->
  exists t, g !! h = Some t /\ h ∈ pending c /\ ds = chain h t /\ chan_ok c' g A (U ++ [h]) R /\ pending c ≡ₚ h :: pending c' /\ driver_same c c'.
Proof using L.
  intros C E. destruct (chan_bounds _ _ _ _ _ C) as (Hb1 & Hb2 & Hb3 & Hb4). unfold dev_use in E. destruct (pending c !! k) as [h'|] eqn:Hk; [|done].
  injection E as -> <- <-. pose proof (list_elem_of_lookup_2 _ _ _ Hk) as Hin. pose proof (delete_Permutation _ _ _ Hk) as Hp.
  pose proof (Permutation_length Hp) as Hpl. cbn [length] in Hpl.
  assert (Hg : h ∈ A ++ pending c ++ U ++ R) by (rewrite !elem_of_app; auto). pose proof (head_lt _ _ _ _ _ _ C Hg) as Hh.
  apply (chain_in_use _ _ _ _ _ h C) in Hg as [t Ht]. exists t.
  assert (HR : h ∉ R).
  { intros HR. pose proof (heads_nodup _ _ _ _ _ C) as Hn. apply list.NoDup_app in Hn as (_ & _ & Hn). apply list.NoDup_app in Hn as (_ & Hn & _).
    apply (Hn h Hin). rewrite elem_of_app. auto. }
  split_and!; [done|done| | |done|done].
  - pose proof (l_fit L). pose proof (l_nd L). rewrite <- (drop_0 (chain h t)), <- (walk_chain (descriptors (vq c)) h t (length (descriptors (vq c))) 0);
      [by rewrite Nat.mul_0_l, Nat.add_0_r|done| |lia|rewrite (c_desc _ _ _ _ _ C); nia].
    intros j d. by apply (c_chains _ _ _ _ _ C).
  - destruct C as [C1 C2 C3 C4 C5 C6 C7 C8 C9 C10 C11 C12 C13 C14]. split; cbn; rewrite ?length_insert; try done.
    + rewrite <- C11. rewrite Hp at 2. solve_Permutation.
    + destruct C13 as (m & El & Eu & Hr). exists m. split_and!; [done|rewrite Eu, length_app; cbn [length]; rewrite counter_S; do 2 f_equal; lia|].
      rewrite fmap_app, list_fmap_insert, Eu, C5, (slot_of q (l_queue L)). cbn.
      replace ((m + length U) mod q) with ((m + length (Z.of_nat <$> U)) mod length (e_id <$> u_ring (used (vq c)))) by (by rewrite !length_fmap, C4).
      apply ring_push; [rewrite !length_fmap; lia|done].
Qed.

(** *** The driver collects *)

Lemma collect_done c g A R : chan_ok c g A [] R -> (last_idx c =? u_idx (used (vq c)))%Z = true.
Proof.
  intros C. destruct (c_used _ _ _ _ _ C) as (m & El & Eu & _). rewrite El, Eu. cbn [length]. rewrite Nat.add_0_r. apply Z.eqb_refl.
Qed.

Definition collected (i : nat) c : Channel :=
  advance_last (with_free (<[i := true]> (free_descriptors c)) (with_buffers (<[i := None]> (buffers c)) c)).

Lemma collected_ok c g A i U t : chan_ok c g A (i :: U) [] -> g !! i = Some t -> chan_ok (collected i c) (delete i g) A U [].
Proof.
  intros C Ht. pose proof (c_bound _ _ _ _ _ C i (mk_is_Some _ _ Ht)) as Hi.
  destruct C as [C1 C2 C3 C4 C5 C6 C7 C8 C9 C10 C11 C12 C13 C14]. split; cbn; rewrite ?length_insert; try done.
  - intros j Hj. destruct (decide (i = j)) as [->|Hn]; [rewrite list_lookup_insert_eq by lia; by rewrite lookup_delete_eq|].
    rewrite list_lookup_insert_ne, lookup_delete_ne by done. by apply C7.
  - intros j Hj _. destruct (decide (i = j)) as [->|Hn]; [rewrite list_lookup_insert_eq by lia; by rewrite lookup_delete_eq|].
    rewrite list_lookup_insert_ne, lookup_delete_ne by done. apply C9; [done|apply not_elem_of_nil].
  - intros j [t' Hj]. apply lookup_delete_Some in Hj as [_ Hj]. by apply C10.
  - rewrite <- (map_to_list_delete g i t Ht) in C11. cbn in C11. apply (Permutation_cons_inv (a := i)). rewrite <- C11. solve_Permutation.
  - destruct C13 as (m & El & Eu & Hr). exists (S m). rewrite El, counter_S. split_and!; [done|rewrite Eu; do 2 f_equal; cbn [length]; lia|by eapply ring_tail].
  - intros j t' k d Hj _ Hd. apply lookup_delete_Some in Hj as [_ Hj]. by eapply C14; [|apply not_elem_of_nil|].
Qed.

Lemma collect_next c g A i U : chan_ok c g A (i :: U) [] ->
  (last_idx c =? u_idx (used (vq c)))%Z = false /\
  exists p e d d' t, urem (last_idx c) (Z.of_nat q) = Done p /\ used_ring p (used (vq c)) = Done e /\ e_id e = Z.of_nat i /\
    descriptors (vq c) !! i = Some d /\ descriptors (vq c) !! Z.to_nat (next d) = Some d' /\
    i < bc /\ g !! i = Some t /\ buffers c !! i = Some (Some (buf_of t)) /\ chan_ok (collected i c) (delete i g) A U [].
Proof using L.
  intros C. destruct (chan_bounds _ _ _ _ _ C) as (Hb1 & Hb2 & Hb3 & Hb4). cbn [length] in Hb1. destruct (c_used _ _ _ _ _ C) as (m & El & Eu & Hr).
  assert (Hg : i ∈ A ++ pending c ++ (i :: U) ++ []) by (rewrite !elem_of_app; right; right; left; left).
  pose proof (head_lt _ _ _ _ _ _ C Hg) as Hi. apply (chain_in_use _ _ _ _ _ i C) in Hg as [t Ht].
  split; [rewrite El, Eu, counter_eq by (cbn [length]; lia); done|].
  pose proof (ring_head _ _ _ _ Hr) as He. rewrite length_fmap, (c_uring _ _ _ _ _ C), list_lookup_fmap in He.
  destruct (u_ring (used (vq c)) !! (m mod q)) as [e|] eqn:Ee; [|done]. injection He as He. pose proof (l_nd L) as Hnd.
  destruct (lookup_lt_is_Some_2 (chain i t) 0) as [d Hd]; [rewrite (l_length L); lia|].
  destruct (lookup_lt_is_Some_2 (chain i t) 1) as [d' Hd']; [rewrite (l_length L); lia|].
  assert (Hc : forall j x, chain i t !! j = Some x -> descriptors (vq c) !! (i + j * bc) = Some x).
  { intros j x. apply (c_chains _ _ _ _ _ C); [done|apply not_elem_of_nil]. }
  exists (wrap 16 (Z.of_nat m) mod Z.of_nat q)%Z, e, d, d', t. split_and!; [| |done| | |done|done| |].
  - unfold urem. destruct (Z.eqb_spec (Z.of_nat q) 0); [lia|]. by rewrite El.
  - unfold used_ring. rewrite (c_usize _ _ _ _ _ C), (slot_of q (l_queue L)). rewrite (proj2 (Z.ltb_lt _ _)) by (apply Z.mod_pos_bound; lia).
    by apply index_Some.
  - by rewrite <- (Hc 0 d Hd), Nat.mul_0_l, Nat.add_0_r.
  - rewrite (l_next L _ _ _ _ Hi Hd Hnd), Nat2Z.id. by apply Hc.
  - rewrite (c_bufs _ _ _ _ _ C i Hi) by apply not_elem_of_nil. by rewrite Ht.
  - by eapply collected_ok.
Qed.
(** *** The buffers that the channel holds *)

Lemma vals_keys g : (map_to_list g).*2 = omap (fun i => g !! i) (map_to_list g).*1.
Proof.
  assert (H : forall l, (forall p, p ∈ l -> g !! p.1 = Some p.2) -> l.*2 = omap (fun i => g !! i) l.*1).
  { intros l. induction l as [|[i t] l IH]; intros Hl; [done|]. cbn. rewrite (Hl (i, t) ltac:(left) : g !! i = Some t). cbn. f_equal. apply IH. intros p Hp. apply Hl. by right. }
  apply H. intros [i t] Hp. by apply elem_of_map_to_list in Hp.
Qed.

Lemma buffers_held c g A U : chan_ok c g A U [] -> omap (fun o => o) (buffers c) ≡ₚ buf_of <$> (map_to_list g).*2.
Proof.
  intros C.
  assert (Eb : buffers c = (fun i => buf_of <$> g !! i) <$> seq 0 bc).
  { apply list_eq. intros i. destruct (decide (i < bc)) as [Hi|Hi].
    - rewrite (c_bufs _ _ _ _ _ C i Hi), list_lookup_fmap, lookup_seq_lt by (done || apply not_elem_of_nil). done.
    - rewrite !lookup_ge_None_2; [done|rewrite length_fmap, length_seq; lia|rewrite (c_nbufs _ _ _ _ _ C); lia]. }
  rewrite Eb, vals_keys. assert (Hs : (map_to_list g).*1 ⊆+ seq 0 bc).
  { apply list.NoDup_submseteq; [apply NoDup_fst_map_to_list|]. intros i ([j t] & -> & Hi)%list_elem_of_fmap. apply elem_of_map_to_list in Hi.
    apply elem_of_seq. pose proof (c_bound _ _ _ _ _ C j (mk_is_Some _ _ Hi)). cbn. lia. }
  apply submseteq_Permutation in Hs as [rest Hr]. rewrite Hr, fmap_app, omap_app.
  pose proof (NoDup_seq 0 bc) as Hn. rewrite Hr in Hn. apply list.NoDup_app in Hn as (_ & Hn & _).
  assert (E : forall l : list nat, omap (fun o : option Z => o) ((fun i => buf_of <$> g !! i) <$> l) = buf_of <$> omap (fun i => g !! i) l).
  { intros l. induction l as [|i l IH]; [done|]. cbn. destruct (g !! i); cbn; by rewrite IH. }
  rewrite !E. rewrite (omap_none _ rest); [by rewrite app_nil_r|]. intros i Hi. destruct (g !! i) as [t|] eqn:Ht; [|done]. exfalso.
  apply (Hn i); [|done]. apply list_elem_of_fmap. exists (i, t). split; [done|]. by apply elem_of_map_to_list.
Qed.

Lemma heads_spec c g A U R : chan_ok c g A U R -> offered_heads c = A /\ used_heads c = U.
Proof using L.
  intros C. destruct (chan_bounds _ _ _ _ _ C) as (Hb1 & Hb2 & _). unfold offered_heads, used_heads. rewrite (c_asize _ _ _ _ _ C), (c_usize _ _ _ _ _ C).
  destruct (c_avail _ _ _ _ _ C) as (n & -> & -> & Ha). destruct (c_used _ _ _ _ _ C) as (m & -> & -> & Hu).
  split; apply between_ring; rewrite ?length_fmap; try apply L; try apply C; try done; lia.
Qed.

Lemma heads_buffers c g A U (hs : list nat) : chan_ok c g A U [] -> (forall i, i ∈ hs -> i < bc) ->
  omap (fun i => mjoin (buffers c !! i)) hs = buf_of <$> omap (fun i => g !! i) hs.
Proof.
  intros C. induction hs as [|i hs IH]; intros Hi; [done|]. cbn. rewrite (c_bufs _ _ _ _ _ C) by (apply not_elem_of_nil || (apply Hi; left)).
  rewrite IH by (intros j Hj; apply Hi; by right). cbn. by destruct (g !! i).
Qed.
End Invariant.
