(* ===== verification/VirtioNet.v ===== *)
(** * The virtio network driver
    (lib/devices/virtio_net/src/lib.rs, domains/sys/driver/virtio_net/src/lib.rs)

    A receive and a transmit queue.  A packet takes a chain of two descriptors, a header that
    the driver does not use and the packet; chain [i] consists of the descriptors [i] and
    [i + buffer_count].

    The device is not code of the repository.  It runs between any two stores of the driver
    to the queues and is given by a script: one list of events for each of these times.  In an
    event it takes a chain from an available ring, or finishes any chain that it has, writing
    to the memory behind the descriptors that are marked as writable.  [wire] records the
    frames it sent and [inbound] the frames it delivered, with the contents of the packet then.
    An [RRef] is named by its address; [dropped] lists the packets that the driver freed.
    Registers are written at initialisation only; what the driver reads there is an argument. *)

From Stdlib Require Import ZArith Lia.
From stdpp Require Import base gmap list numbers options.
From S2P Require Import Prelude Virtio.

Inductive Dir := Rx | Tx.
Global Instance Dir_eq_dec : EqDecision Dir.
Proof. solve_decision. Defined.

Inductive event :=
  | Take (d : Dir)
  | Use (d : Dir) (k : nat) (n : Z) (out : list (list Z)).

Record VirtioNetInner := mkNet {
  queue_size : Z;
  buffer_count : nat;
  rx : Channel;
  tx : Channel;
  memory : gmap Addr (list Z);
  script : list (list event);
  wire : list (option (list Z));
  inbound : list (option (list Z));
  dropped : list Z }.

Definition side (d : Dir) (s : VirtioNetInner) : Channel := match d with Rx => rx s | Tx => tx s end.
Definition with_side (d : Dir) (c : Channel) (s : VirtioNetInner) : VirtioNetInner :=
  match d with
  | Rx => mkNet (queue_size s) (buffer_count s) c (tx s) (memory s) (script s) (wire s) (inbound s) (dropped s)
  | Tx => mkNet (queue_size s) (buffer_count s) (rx s) c (memory s) (script s) (wire s) (inbound s) (dropped s)
  end.
Definition with_script sc (s : VirtioNetInner) : VirtioNetInner :=
  mkNet (queue_size s) (buffer_count s) (rx s) (tx s) (memory s) sc (wire s) (inbound s) (dropped s).
Definition with_dropped l (s : VirtioNetInner) : VirtioNetInner :=
  mkNet (queue_size s) (buffer_count s) (rx s) (tx s) (memory s) (script s) (wire s) (inbound s) l.
Definition with_memory m (s : VirtioNetInner) : VirtioNetInner :=
  mkNet (queue_size s) (buffer_count s) (rx s) (tx s) m (script s) (wire s) (inbound s) (dropped s).
Definition record_frame (d : Dir) f (s : VirtioNetInner) : VirtioNetInner :=
  match d with
  | Rx => mkNet (queue_size s) (buffer_count s) (rx s) (tx s) (memory s) (script s) (wire s) (inbound s ++ [f]) (dropped s)
  | Tx => mkNet (queue_size s) (buffer_count s) (rx s) (tx s) (memory s) (script s) (wire s ++ [f]) (inbound s) (dropped s)
  end.

(** ** The device *)

Definition overwrite (o old : list Z) : list Z := take (length old) o ++ drop (length o) old.

(** The device writes the pieces [out] to the writable descriptors of a chain. *)
Fixpoint dev_write (ds : list VirtqDescriptor) (out : list (list Z)) (m : gmap Addr (list Z)) : gmap Addr (list Z) :=
  match ds with
  | [] => m
  | d :: ds =>
      if Z.testbit (flags d) 1 then
        match out with
        | [] => m
        | o :: out => dev_write ds out (alter (overwrite (take (Z.to_nat (len d)) o)) (addr d) m)
        end
      else dev_write ds out m
  end.

(** The frame is behind the second descriptor. *)
Definition frame_of (ds : list VirtqDescriptor) (m : gmap Addr (list Z)) : option (list Z) :=
  match ds !! 1 with Some d => m !! addr d | None => None end.

Definition run_event (e : event) (s : VirtioNetInner) : VirtioNetInner :=
  match e with
  | Take d => with_side d (dev_take (side d s)) s
  | Use d k n out =>
      match dev_use k n (side d s) with
      | None => s
      | Some (_, ds, c) =>
          let m := dev_write ds out (memory s) in
          record_frame d (frame_of ds m) (with_memory m (with_side d c s))
      end
  end.

Abbreviation NetM := (M VirtioNetInner).

Definition tick : NetM unit := modify (fun s =>
  match script s with
  | [] => s
  | es :: sc => fold_left (fun s e => run_event e s) es (with_script sc s)
  end).

(** ** The driver *)

(** [init]: [status] is what the device status reads after FEATURES_OK was set. *)
Definition init (status qs : Z) (m : gmap Addr (list Z)) (sc : list (list event)) : outcome VirtioNetInner :=
  if (Z.land status 8 =? 0)%Z then Panic
  else if (qs =? 0)%Z then Panic
  else
    let n := Z.to_nat (qs / 2) in
    Done (mkNet qs n (Channel_new qs n) (Channel_new qs n)
      (list_to_map ((fun i => (Header i, replicate 10 0%Z)) <$> seq 0 n) ∪ m) sc [] [] []).

Definition upd (d : Dir) (f : Channel -> Channel) : NetM unit := modify (fun s => with_side d (f (side d s)) s).
Definition on (d : Dir) (f : Channel -> outcome Channel) : NetM unit :=
  s ← get; c ← lift (f (side d s)); put (with_side d c s).

Definition header_descriptor (d : Dir) (i buffer_idx : nat) : VirtqDescriptor :=
  mkDescr (Header i) 10 (match d with Rx => Z.lor 1 2 | Tx => 1 end) (wrap 16 (Z.of_nat buffer_idx)).
Definition buffer_descriptor (d : Dir) (buffer_addr : Z) : VirtqDescriptor :=
  mkDescr (Buf buffer_addr) 1514 (match d with Rx => 2 | Tx => 0 end) 0.

(** [add_rx_buffer] and [add_tx_packet] *)
Definition add_packet (d : Dir) (buffer : Z) : NetM (result Z unit) :=
  c ← gets (side d);
  match get_free_idx (free_descriptors c) with
  | Some (header_idx, f) =>
      _ ← upd d (with_free f);
      n ← gets buffer_count;
      let buffer_idx := header_idx + n in
      _ ← on d (store_buffer header_idx buffer);
      _ ← assert (header_idx <? n);
      _ ← on d (set_descriptor header_idx (header_descriptor d header_idx buffer_idx));
      _ ← tick;
      _ ← on d (set_descriptor buffer_idx (buffer_descriptor d buffer));
      _ ← tick;
      qs ← gets queue_size;
      _ ← on d (offer qs header_idx);
      _ ← tick;
      _ ← upd d advance_available;
      _ ← tick;
      mret (Ok tt)
  | None => mret (Err buffer)
  end.
Definition add_rx_buffer : Z -> NetM (result Z unit) := add_packet Rx.
Definition add_tx_packet : Z -> NetM (result Z unit) := add_packet Tx.

(** [RRefDeque::push_back] *)
Definition push_back (cap : nat) (q : list Z) (a : Z) : option Z * list Z :=
  if length q =? cap then (Some a, q) else (None, q ++ [a]).
Definition drop_opt (o : option Z) : NetM unit :=
  match o with Some a => modify (fun s => with_dropped (dropped s ++ [a]) s) | None => mret tt end.

Definition DEQUE_CAP : nat := 32.

(** The loops of [add_rx_buffers] and [add_tx_buffers]: a packet for which there is no room
    goes to the back of the queue. *)
Fixpoint add_loop (add : Z -> NetM (result Z unit)) (packets : list Z) : NetM (list Z) :=
  match packets with
  | [] => mret []
  | b :: rest =>
      r ← add b;
      match r with
      | Ok _ => add_loop add rest
      | Err b => let p := push_back DEQUE_CAP rest b in _ ← drop_opt p.1; mret p.2
      end
  end.
Definition add_rx_buffers (packets : list Z) : NetM (list Z) :=
  if length packets =? 0 then mret packets else add_loop add_rx_buffer packets.
Definition add_tx_buffers (packets : list Z) : NetM (list Z) :=
  if length packets =? 0 then mret packets else add_loop add_tx_packet packets.

(** The loops of [get_received_packets] and [free_processed_tx_packets].  A round collects one
    chain, so the number of chains and one are enough rounds. *)
Fixpoint collect_loop (fuel : nat) (d : Dir) (collect : list Z) (count : nat) : NetM (nat * list Z) :=
  match fuel with
  | O => hang
  | S fuel =>
      _ ← tick;
      c ← gets (side d);
      if (last_idx c =? u_idx (used (vq c)))%Z then mret (count, collect)
      else
        qs ← gets queue_size;
        i ← lift (urem (last_idx c) qs);
        e ← lift (used_ring i (used (vq c)));
        let id := Z.to_nat (e_id e) in
        header ← lift (index (descriptors (vq c)) id);
        _ ← lift (index (descriptors (vq c)) (Z.to_nat (next header)));
        o ← lift (index (buffers c) id);
        r ← match o with
            | Some buffer =>
                _ ← upd d (fun c => with_buffers (<[id := None]> (buffers c)) c);
                let p := push_back DEQUE_CAP collect buffer in
                _ ← drop_opt p.1;
                _ ← lift (index (free_descriptors c) id);
                _ ← upd d (fun c => with_free (<[id := true]> (free_descriptors c)) c);
                mret (S count, p.2)
            | None => mret (count, collect)
            end;
        _ ← upd d advance_last;
        collect_loop fuel d r.2 r.1
  end.
Definition get_received_packets (collect : list Z) : NetM (nat * list Z) :=
  n ← gets buffer_count; collect_loop (S n) Rx collect 0.
Definition free_processed_tx_packets (packets : list Z) : NetM (nat * list Z) :=
  n ← gets buffer_count; collect_loop (S n) Tx packets 0.

(** ** The driver domain *)

Definition submit_and_poll_rref (packets collect : list Z) (is_tx : bool) : NetM (nat * list Z * list Z) :=
  if is_tx then
    r ← free_processed_tx_packets collect; packets ← add_tx_buffers packets; mret (r.1, packets, r.2)
  else
    r ← get_received_packets collect; packets ← add_rx_buffers packets; mret (r.1, packets, r.2).

Definition poll_rref (collect : list Z) (is_tx : bool) : NetM (nat * list Z) := mret (0, collect).

(** ** Histories

    The client fills packets that it holds and passes packets to calls. *)

Record Client := mkClient { net : VirtioNetInner; held : list Z; submitted : list (option (list Z)); got : list (option (list Z)) }.

Inductive call :=
  | Fill (a : Z) (l : list Z)
  | SubmitPoll (packets collect : list Z) (is_tx : bool)
  | Poll (collect : list Z) (is_tx : bool).

Definition contents (s : VirtioNetInner) (a : Z) : option (list Z) := memory s !! Buf a.

Definition call_in (c : call) : list Z := match c with Fill a _ => [a] | SubmitPoll packets collect _ => packets ++ collect | Poll collect _ => collect end.

Definition permitted (c : call) (frame : list Z) (y : Client) : Prop :=
  held y ≡ₚ call_in c ++ frame /\
  match c with SubmitPoll packets collect _ => length packets <= DEQUE_CAP /\ length collect <= DEQUE_CAP | _ => True end.

Definition dir (is_tx : bool) : Dir := if is_tx then Tx else Rx.

(** The packets with the driver; the client's queue has room for those of the direction. *)
Definition in_driver (d : Dir) (s : VirtioNetInner) : list Z := omap (fun o => o) (buffers (side d s)).
Definition roomy (c : call) (y : Client) : Prop :=
  match c with SubmitPoll _ collect is_tx => length collect + length (in_driver (dir is_tx) (net y)) <= DEQUE_CAP | _ => True end.

(** [frame] is what the client keeps to itself during the call. *)
Definition exec (c : call) (frame : list Z) (y : Client) : outcome Client :=
  match c with
  | Fill a l => Done (mkClient (with_memory (<[Buf a := l]> (memory (net y))) (net y)) (held y) (submitted y) (got y))
  | SubmitPoll packets collect is_tx =>
      p ← submit_and_poll_rref packets collect is_tx (net y);
      let '(_, packets', collect', s) := p in
      let taken := contents (net y) <$> take (length packets - length packets') packets in
      let came := contents s <$> drop (length collect) collect' in
      Done (mkClient s (packets' ++ collect' ++ frame) (if is_tx then submitted y ++ taken else submitted y) (if is_tx then got y else got y ++ came))
  | Poll collect is_tx => p ← poll_rref collect is_tx (net y); Done (mkClient p.2 (p.1.2 ++ frame) (submitted y) (got y))
  end.

Inductive history (q : nat) (m : gmap Addr (list Z)) (sc : list (list event)) (pool : list Z) : Client -> Prop :=
  | history_new status s : init status (Z.of_nat q) m sc = Done s -> history q m sc pool (mkClient s pool [] [])
  | history_call y c frame y' : history q m sc pool y -> permitted c frame y -> exec c frame y = Done y' -> history q m sc pool y'.

(** ** The invariant *)

Section Invariant.
Context (q bc : nat) (Hq : queue_ok q) (Hbc : 2 * bc <= q) (pool : list Z) (Hpool : NoDup pool).
Implicit Types (s : VirtioNetInner) (d : Dir).

Definition chain d (i : nat) (a : Z) : list VirtqDescriptor := [header_descriptor d i (i + bc); buffer_descriptor d a].

Lemma net_layout d : layout q bc 2 (chain d).
Proof using Hq Hbc.
  destruct (queue_pos q Hq) as [Hp Hl]. split; [done|done|lia|done| |].
  - intros i a [|[|j]] x E; cbn in E; [injection E as <-; by destruct d..|done].
  - intros i a [|[|j]] x Hi E Hj; cbn in E; [injection E as <-|lia|done]. cbn [next header_descriptor]. unfold wrap.
    rewrite Z.mod_small by lia. lia.
Qed.

(** What the channels are used for: the packet of every chain in use, the chains offered, the
    chains used, and the chain that is being filled. *)
Record ghost := mkGh { g_map : gmap nat Z; g_av : list nat; g_us : list nat; g_r : list nat }.
Implicit Types (f : Dir -> ghost).
Definition vals (x : ghost) : list Z := (map_to_list (g_map x)).*2.
Definition packets_of (x : ghost) (hs : list nat) : list Z := omap (fun i => g_map x !! i) hs.
Definition set d (x : ghost) f : Dir -> ghost := fun d' => match d, d' with Rx, Rx => x | Tx, Tx => x | _, _ => f d' end.

Lemma set_eq d x f : set d x f d = x.
Proof. by destruct d. Qed.
Lemma set_ne d d' x f : d <> d' -> set d x f d' = f d'.
Proof. by destruct d, d'. Qed.
Lemma side_eq d c s : side d (with_side d c s) = c.
Proof. by destruct d. Qed.
Lemma side_ne d d' c s : d <> d' -> side d' (with_side d c s) = side d' s.
Proof. by destruct d, d'. Qed.

(** [W] lists the frames submitted, [G] those collected, with the contents they had. *)
Record net_ok s f (h : list Z) (W G : list (option (list Z))) : Prop := {
  n_size : queue_size s = Z.of_nat q;
  n_count : buffer_count s = bc;
  n_chan d : chan_ok q bc (chain d) (fun a => a) (side d s) (g_map (f d)) (g_av (f d)) (g_us (f d)) (g_r (f d));
  n_pool : vals (f Rx) ++ vals (f Tx) ++ h ++ dropped s ≡ₚ pool;
  n_wire : wire s ++ (contents s <$> packets_of (f Tx) (g_av (f Tx) ++ pending (tx s))) ≡ₚ W;
  n_in : inbound s = G ++ (contents s <$> packets_of (f Rx) (g_us (f Rx))) }.

Lemma net_in_vals x i a : g_map x !! i = Some a -> a ∈ vals x.
Proof. intros Hi. apply list_elem_of_fmap. exists (i, a). split; [done|]. by apply elem_of_map_to_list. Qed.

Lemma packets_in x hs a : a ∈ packets_of x hs -> exists i, i ∈ hs /\ g_map x !! i = Some a.
Proof. intros (i & Hi & Ha)%list_elem_of_omap. by exists i. Qed.

Lemma packets_vals x hs a : a ∈ packets_of x hs -> a ∈ vals x.
Proof. intros (i & _ & Hi)%packets_in. by eapply net_in_vals. Qed.

Lemma net_vals_inj x i j a : NoDup (vals x) -> g_map x !! i = Some a -> g_map x !! j = Some a -> i = j.
Proof.
  intros Hn Hi Hj. destruct (decide (i = j)) as [|Hne]; [done|]. unfold vals in Hn. rewrite <- (map_to_list_delete _ _ _ Hi) in Hn. cbn in Hn.
  apply list.NoDup_cons in Hn as [Hn _]. exfalso. apply Hn. apply list_elem_of_fmap. exists (j, a). split; [done|].
  apply elem_of_map_to_list. by rewrite lookup_delete_ne.
Qed.

Lemma net_pool_split s f h W G : net_ok s f h W G ->
  NoDup (vals (f Rx)) /\ NoDup (vals (f Tx)) /\ (forall a, a ∈ vals (f Tx) -> a ∉ vals (f Rx)) /\ (forall a, a ∈ h -> a ∉ vals (f Rx)) /\
  (forall a, a ∈ dropped s -> a ∉ vals (f Rx)).
Proof using Hpool.
  intros N. pose proof Hpool as Hn. rewrite <- (n_pool _ _ _ _ _ N) in Hn. apply list.NoDup_app in Hn as (H1 & H2 & Hn).
  apply list.NoDup_app in Hn as (H3 & _ & _). split_and!; [done..| | |]; intros a Ha Hr; apply (H2 a Hr); rewrite !elem_of_app; auto.
Qed.

Lemma contents_ext s s' (l : list Z) : (forall a, a ∈ l -> contents s' a = contents s a) -> contents s' <$> l = contents s <$> l.
Proof. intros He. apply list_fmap_ext. intros i a Ha. apply He. by eapply list_elem_of_lookup_2. Qed.

(** ** The device runs *)

Definition steady s s' f f' : Prop :=
  (forall d, g_map (f' d) = g_map (f d) /\ g_r (f' d) = g_r (f d)) /\ (forall d, driver_same (side d s) (side d s')) /\
  (forall a, a ∉ vals (f Rx) -> contents s' a = contents s a) /\ dropped s' = dropped s.

Lemma net_steady_refl s f : steady s s f f.
Proof. done. Qed.

Lemma net_steady_trans s1 s2 s3 f1 f2 f3 : steady s1 s2 f1 f2 -> steady s2 s3 f2 f3 -> steady s1 s3 f1 f3.
Proof.
  intros (G1 & D1 & C1 & E1) (G2 & D2 & C2 & E2). split_and!.
  - intros d. destruct (G1 d), (G2 d). split; congruence.
  - intros d. destruct (D1 d) as (? & ? & ? & ? & ?), (D2 d) as (? & ? & ? & ? & ?). split_and!; congruence.
  - intros a Ha. rewrite C2, C1; [done..|]. unfold vals. by rewrite (proj1 (G1 Rx)).
  - congruence.
Qed.

Lemma net_take_step s f h W G d : net_ok s f h W G ->
  exists f', net_ok (with_side d (dev_take (side d s)) s) f' h W G /\ steady s (with_side d (dev_take (side d s)) s) f f'.
Proof using Hq Hbc.
  intros N. destruct (take_ok q bc 2 (chain d) (fun a => a) (net_layout d) _ _ _ _ _ (n_chan _ _ _ _ _ N d)) as [E|(hd & A' & EA & C & EP & D)].
  - rewrite E. exists f. replace (with_side d (side d s) s) with s by (by destruct d, s). done.
  - exists (set d (mkGh (g_map (f d)) A' (g_us (f d)) (g_r (f d))) f). split.
    + destruct N as [N1 N2 N3 N4 N5 N6]. split.
      * by destruct d.
      * by destruct d.
      * intros d'. destruct (decide (d = d')) as [<-|Hn]; [by rewrite set_eq, side_eq|rewrite set_ne, side_ne by done; apply N3].
      * by destruct d.
      * destruct d; [exact N5|]. cbn in *. rewrite <- N5, EP, EA. unfold packets_of. cbn [g_map]. apply Permutation_app_head, fmap_Permutation.
        apply omap_Permutation. solve_Permutation.
      * by destruct d.
    + split_and!; [|intros d'|by destruct d|by destruct d].
      * intros d'. by destruct d, d'.
      * destruct (decide (d = d')) as [<-|Hn]; [by rewrite side_eq|by rewrite side_ne].
Qed.

Lemma dev_write_tx i a out m : dev_write (chain Tx i a) out m = m.
Proof. done. Qed.

Lemma dev_write_rx i a out m b : b <> a -> dev_write (chain Rx i a) out m !! Buf b = m !! Buf b.
Proof.
  intros Hn. destruct out as [|o [|o' out]]; [done|by exact (lookup_alter_ne _ m (Header i) (Buf b) ltac:(discriminate))|].
  etransitivity; [apply (lookup_alter_ne _ (alter _ (Header i) m) (Buf a) (Buf b)); congruence|by apply lookup_alter_ne].
Qed.

Lemma use_tx s f h W G k n out hd ds c : net_ok s f h W G -> dev_use k n (tx s) = Some (hd, ds, c) ->
  exists f', net_ok (run_event (Use Tx k n out) s) f' h W G /\ steady s (run_event (Use Tx k n out) s) f f'.
Proof using Hq Hbc.
  intros N E. destruct (use_ok q bc 2 (chain Tx) (fun a => a) (net_layout Tx) _ _ _ _ _ _ _ _ _ _ (n_chan _ _ _ _ _ N Tx) E) as (a & Ha & _ & -> & C & EP & D).
  cbn [run_event side]. rewrite E, dev_write_tx. exists (set Tx (mkGh (g_map (f Tx)) (g_av (f Tx)) (g_us (f Tx) ++ [hd]) (g_r (f Tx))) f). split.
  - destruct N as [N1 N2 N3 N4 N5 N6]. split; [done|done| |done| |done].
    + intros []; [apply (N3 Rx)|exact C].
    + cbn. rewrite <- N5, <- app_assoc. apply Permutation_app_head. unfold packets_of. cbn [g_map].
      transitivity (contents s <$> omap (fun i => g_map (f Tx) !! i) (hd :: g_av (f Tx) ++ pending c)).
      * cbn. rewrite Ha. done.
      * apply fmap_Permutation, omap_Permutation. cbn in EP. rewrite EP. solve_Permutation.
  - split_and!; [by intros []| |done|done]. intros []; [done|exact D].
Qed.

Lemma use_rx s f h W G k n out hd ds c : net_ok s f h W G -> dev_use k n (rx s) = Some (hd, ds, c) ->
  exists f', net_ok (run_event (Use Rx k n out) s) f' h W G /\ steady s (run_event (Use Rx k n out) s) f f'.
Proof using Hq Hbc Hpool.
  intros N E. destruct (use_ok q bc 2 (chain Rx) (fun a => a) (net_layout Rx) _ _ _ _ _ _ _ _ _ _ (n_chan _ _ _ _ _ N Rx) E) as (a & Ha & Hin & -> & C & EP & D).
  cbn [run_event side]. rewrite E. destruct (net_pool_split _ _ _ _ _ N) as (Hr & _ & Htx & Hh & Hd).
  set (s' := record_frame _ _ _). assert (Hc : forall b, b <> a -> contents s' b = contents s b) by (intros b Hb; apply dev_write_rx; done).
  assert (Hav : a ∈ vals (f Rx)) by (by eapply net_in_vals).
  exists (set Rx (mkGh (g_map (f Rx)) (g_av (f Rx)) (g_us (f Rx) ++ [hd]) (g_r (f Rx))) f). split.
  - pose proof (heads_nodup _ _ _ _ _ _ _ _ _ (n_chan _ _ _ _ _ N Rx)) as Hn. destruct N as [N1 N2 N3 N4 N5 N6]. split; [done|done| |done| |].
    + intros []; [exact C|apply (N3 Tx)].
    + rewrite contents_ext with (s := s); [done|]. intros b Hb%packets_vals. apply Hc. intros ->. by apply (Htx a Hb).
    + unfold s' at 1. cbn [inbound record_frame with_memory with_side set g_us]. rewrite N6. unfold packets_of. cbn [g_map]. rewrite omap_app, fmap_app, app_assoc.
      cbn. rewrite Ha. cbn. f_equal. f_equal. symmetry. apply contents_ext. intros b (i & Hi & Hb)%packets_in. apply Hc. intros ->.
      pose proof (net_vals_inj _ _ _ _ Hr Ha Hb) as <-. apply list.NoDup_app in Hn as (_ & _ & Hn). apply list.NoDup_app in Hn as (_ & Hn & _).
      apply (Hn hd Hin). apply elem_of_app. by left.
  - split_and!; [by intros []| | |done].
    + intros []; [exact D|done].
    + intros b Hb. apply Hc. by intros ->.
Qed.

Lemma net_event_ok e s f h W G : net_ok s f h W G -> exists f', net_ok (run_event e s) f' h W G /\ steady s (run_event e s) f f'.
Proof using Hq Hbc Hpool.
  intros N. destruct e as [d|[] k n out]; [by apply net_take_step| |].
  - destruct (dev_use k n (rx s)) as [[[hd ds] c]|] eqn:E; [by eapply use_rx|]. cbn. rewrite E. by exists f.
  - destruct (dev_use k n (tx s)) as [[[hd ds] c]|] eqn:E; [by eapply use_tx|]. cbn. rewrite E. by exists f.
Qed.

Lemma net_tick_run s f h W G : net_ok s f h W G -> run tick s (fun _ s' => exists f', net_ok s' f' h W G /\ steady s s' f f').
Proof using Hq Hbc Hpool.
  intros N. unfold tick. eexists _, _. split; [reflexivity|]. destruct (script s) as [|es sc]; [by exists f|].
  assert (N' : net_ok (with_script sc s) f h W G) by (by destruct N as [N1 N2 N3 N4 N5 N6]; split).
  enough (H : forall s1 f1, net_ok s1 f1 h W G -> steady s s1 f f1 -> exists f', net_ok (fold_left (fun s e => run_event e s) es s1) f' h W G /\
    steady s (fold_left (fun s e => run_event e s) es s1) f f') by (by apply (H _ f)).
  clear N N'. induction es as [|e es IH]; intros s1 f1 N1 S1; [by exists f1|]. cbn. destruct (net_event_ok e _ _ _ _ _ N1) as (f2 & N2 & S2).
  apply (IH _ f2 N2). by eapply net_steady_trans.
Qed.

(** ** Adding a packet *)

Lemma net_run_on {A} d (F : Channel -> outcome Channel) (k : unit -> NetM A) s c post :
  F (side d s) = Done c -> run (k tt) (with_side d c s) post -> run (on d F ≫= k) s post.
Proof. intros E Hk. apply (run_step _ _ _ tt (with_side d c s)); [|done]. unfold on. rewrite bind_get. unfold lift, mbind, M_bind. by rewrite E. Qed.

Lemma run_upd {A} d (F : Channel -> Channel) (k : unit -> NetM A) s post : run (k tt) (with_side d (F (side d s)) s) post -> run (upd d F ≫= k) s post.
Proof. intros Hk. by apply (run_step _ _ _ tt (with_side d (F (side d s)) s)). Qed.

Lemma with_side_twice d c c' s : with_side d c' (with_side d c s) = with_side d c' s.
Proof. by destruct d. Qed.

Lemma channel_step s f h W G d c : net_ok s f h W G -> pending c = pending (side d s) ->
  chan_ok q bc (chain d) (fun a => a) c (g_map (f d)) (g_av (f d)) (g_us (f d)) (g_r (f d)) -> net_ok (with_side d c s) f h W G.
Proof.
  intros [N1 N2 N3 N4 N5 N6] Ep C. split; [by destruct d|by destruct d| |by destruct d| |by destruct d].
  - intros d'. destruct (decide (d = d')) as [<-|Hn]; [by rewrite side_eq|rewrite side_ne by done; apply N3].
  - destruct d; [done|]. cbn in *. rewrite Ep. exact N5.
Qed.

(** Chain [i] of channel [d] is being filled for packet [b], since [s0]. *)
Record filling d i b s0 h W G s f : Prop := {
  fi_ok : net_ok s f h W G;
  fi_r d' : g_r (f d') = if decide (d = d') then [i] else [];
  fi_map : g_map (f d) !! i = Some b;
  fi_drop : dropped s = dropped s0;
  fi_kept a : a ∈ h ++ dropped s0 -> contents s a = contents s0 a;
  fi_tx : d = Tx -> contents s b = contents s0 b }.

Lemma net_filling_tick {A} d i b s0 h W G s f (k : unit -> NetM A) post : filling d i b s0 h W G s f ->
  (forall s' f', filling d i b s0 h W G s' f' -> driver_same (side d s) (side d s') -> run (k tt) s' post) -> run (tick ≫= k) s post.
Proof using Hq Hbc Hpool.
  intros [F1 F2 F3 F4 F5 F6] Hk. eapply run_bind; [by apply net_tick_run|]. intros [] s' (f' & N & S1 & S2 & S3 & S4).
  destruct (net_pool_split _ _ _ _ _ F1) as (_ & _ & P1 & P2 & P3). apply (Hk s' f'); [|apply S2]. split; [done|..].
  - intros d'. by rewrite (proj2 (S1 d')), F2.
  - by rewrite (proj1 (S1 d)).
  - congruence.
  - intros a Ha. rewrite S3; [by apply F5|]. rewrite <- F4 in Ha. apply elem_of_app in Ha as [Ha|Ha]; [by apply P2|by apply P3].
  - intros ->. rewrite S3; [by apply F6|]. apply P1. by eapply net_in_vals.
Qed.

Lemma net_filling_step d i b s0 h W G s f c : chan_ok q bc (chain d) (fun a => a) c (g_map (f d)) (g_av (f d)) (g_us (f d)) [i] ->
  filling d i b s0 h W G s f -> pending c = pending (side d s) -> filling d i b s0 h W G (with_side d c s) f.
Proof.
  intros C [F1 F2 F3 F4 F5 F6] Ep. pose proof (F2 d) as Er. rewrite decide_True in Er by done. split; [|done..| | |].
  - apply channel_step; [done..|]. by rewrite Er.
  - by destruct d.
  - intros a Ha. rewrite <- (F5 a Ha). by destruct d.
  - intros ->. by apply F6.
Qed.

Lemma net_filling_chan d i b s0 h W G s f : filling d i b s0 h W G s f ->
  chan_ok q bc (chain d) (fun a => a) (side d s) (g_map (f d)) (g_av (f d)) (g_us (f d)) [i].
Proof. intros F. pose proof (n_chan _ _ _ _ _ (fi_ok _ _ _ _ _ _ _ _ _ F) d) as C. rewrite (fi_r _ _ _ _ _ _ _ _ _ F) in C. by rewrite decide_True in C. Qed.

Lemma packets_insert m i a hs A U R A' U' R' : i ∉ hs -> packets_of (mkGh (<[i := a]> m) A U R) hs = packets_of (mkGh m A' U' R') hs.
Proof.
  intros Hi. unfold packets_of. cbn [g_map]. induction hs as [|j hs IH]; [done|]. apply not_elem_of_cons in Hi as [Hn Hi]. cbn.
  rewrite lookup_insert_ne by done. rewrite IH by done. done.
Qed.

Lemma net_filling_start d s f b h W G i fr : net_ok s f (b :: h) W G -> (forall d, g_r (f d) = []) ->
  get_free_idx (free_descriptors (side d s)) = Some (i, fr) ->
  i < bc /\ exists f', filling d i b s h W G (with_side d (with_free fr (side d s)) s) f'.
Proof.
  intros N Hr Hf. pose proof (n_chan _ _ _ _ _ N d) as C. rewrite Hr in C.
  destruct (reserve_ok q bc (chain d) (fun a => a) _ _ _ _ i fr b C Hf) as (Hi & Hg & C'). split; [done|].
  assert (Hni : i ∉ g_av (f d) ++ pending (side d s) ++ g_us (f d) ++ []).
  { intros Hin. apply (chain_in_use _ _ _ _ _ _ _ _ _ i C) in Hin as [x Hx]. congruence. }
  assert (Ep : forall hs, i ∉ hs -> packets_of (mkGh (<[i := b]> (g_map (f d))) (g_av (f d)) (g_us (f d)) [i]) hs = packets_of (f d) hs)
    by (intros hs; destruct (f d); apply packets_insert).
  exists (set d (mkGh (<[i := b]> (g_map (f d))) (g_av (f d)) (g_us (f d)) [i]) f). split.
  - destruct N as [N1 N2 N3 N4 N5 N6]. split; [by destruct d|by destruct d| | | |].
    + intros d'. destruct (decide (d = d')) as [<-|Hn]; [by rewrite side_eq, set_eq|rewrite side_ne, set_ne by done; apply N3].
    + rewrite <- N4. destruct d; cbn; unfold vals; cbn [g_map]; rewrite map_to_list_insert by done; cbn; solve_Permutation.
    + destruct d; [exact N5|]. rewrite <- N5, <- (Ep (g_av (f Tx) ++ pending (tx s))); [done|]. cbn in Hni. rewrite !elem_of_app in *. tauto.
    + destruct d; [|exact N6]. change (inbound _) with (inbound s). rewrite N6, <- (Ep (g_us (f Rx))); [done|]. rewrite !elem_of_app in *. tauto.
  - intros d'. destruct (decide (d = d')) as [<-|Hn]; [by rewrite set_eq|by rewrite set_ne].
  - rewrite set_eq. apply lookup_insert_eq.
  - by destruct d.
  - intros a _. by destruct d.
  - by intros ->.
Qed.

(** The driver is between calls. *)
Definition idle s (h : list Z) (W G : list (option (list Z))) : Prop := exists f, net_ok s f h W G /\ forall d, g_r (f d) = [].

Definition kept s s' (h : list Z) : Prop := forall a, a ∈ h ++ dropped s -> contents s' a = contents s a.

Definition grown d (W : list (option (list Z))) s (b : Z) : list (option (list Z)) := match d with Rx => W | Tx => W ++ [contents s b] end.

Lemma net_publish_step d i b s0 h W G s f : filling d i b s0 h W G s f -> offered q (side d s) i ->
  buffers (side d s) !! i = Some (Some b) -> (forall j x, chain d i b !! j = Some x -> descriptors (vq (side d s)) !! (i + j * bc) = Some x) ->
  exists f', net_ok (with_side d (advance_available (side d s)) s) f' h (grown d W s0 b) G /\ (forall d, g_r (f' d) = []).
Proof using Hq Hbc.
  intros F Ho Hb Hd. pose proof (publish_ok q bc 2 (chain d) (fun a => a) (net_layout d) _ _ _ _ i b (net_filling_chan _ _ _ _ _ _ _ _ _ F) Ho (fi_map _ _ _ _ _ _ _ _ _ F) Hb Hd) as C.
  destruct F as [[N1 N2 N3 N4 N5 N6] F2 F3 F4 F5 F6].
  exists (set d (mkGh (g_map (f d)) (g_av (f d) ++ [i]) (g_us (f d)) []) f). split; [split; [by destruct d|by destruct d| | | |]|].
  - intros d'. destruct (decide (d = d')) as [<-|Hn]; [by rewrite side_eq, set_eq|rewrite side_ne, set_ne by done; apply N3].
  - rewrite <- N4. by destruct d.
  - destruct d; [exact N5|]. cbn [grown]. rewrite <- (F6 eq_refl), <- N5, <- app_assoc. apply Permutation_app_head.
    transitivity (contents s <$> omap (fun i => g_map (f Tx) !! i) ((g_av (f Tx) ++ pending (tx s)) ++ [i])).
    + apply fmap_Permutation, omap_Permutation. cbn. solve_Permutation.
    + rewrite omap_app, fmap_app. cbn. by rewrite F3.
  - by destruct d.
  - intros d'. destruct (decide (d = d')) as [<-|Hn]; [by rewrite set_eq|rewrite set_ne, F2 by done; by rewrite decide_False].
Qed.

Lemma add_run d b s h W G : idle s (b :: h) W G ->
  run (add_packet d b) s (fun r s' => match r with
    | Ok _ => idle s' h (grown d W s b) G /\ dropped s' = dropped s /\ kept s s' h
    | Err b' => b' = b /\ s' = s end).
Proof using Hq Hbc Hpool.
  intros (f & N & Hr). unfold add_packet. eapply run_step; [reflexivity|].
  destruct (get_free_idx (free_descriptors (side d s))) as [[i fr]|] eqn:Hf; [|by apply run_ret].
  destruct (net_filling_start d s f b h W G i fr N Hr Hf) as (Hi & f0 & F0). apply run_upd. eapply run_step; [reflexivity|].
  rewrite (n_count _ _ _ _ _ (fi_ok _ _ _ _ _ _ _ _ _ F0)). set (s0 := with_side d _ s) in *.
  destruct (store_ok q bc (chain d) (fun a => a) _ _ _ _ i b (net_filling_chan _ _ _ _ _ _ _ _ _ F0)) as (E0 & C0 & B0).
  eapply net_run_on; [exact E0|]. pose proof (net_filling_step _ _ _ _ _ _ _ _ _ _ C0 F0 eq_refl) as F1.
  rewrite <- (side_eq d (stored i b (side d s0)) s0) in B0. set (s1 := with_side d _ s0) in *. clearbody s1.
  rewrite (proj2 (Nat.ltb_lt _ _) Hi). eapply run_step; [reflexivity|]. cbv beta.
  destruct (describe_ok q bc 2 (chain d) (fun a => a) (net_layout d) _ _ _ _ i 0 (header_descriptor d i (i + bc)) (net_filling_chan _ _ _ _ _ _ _ _ _ F1) ltac:(lia)) as [E1 C1].
  rewrite Nat.mul_0_l, Nat.add_0_r in E1, C1. eapply net_run_on; [exact E1|]. pose proof (net_filling_step _ _ _ _ _ _ _ _ _ _ C1 F1 eq_refl) as C1'.
  eapply net_filling_tick; [exact C1'|]. intros s2 f2 F2 D2. rewrite side_eq in D2.
  destruct (describe_ok q bc 2 (chain d) (fun a => a) (net_layout d) _ _ _ _ i 1 (buffer_descriptor d b) (net_filling_chan _ _ _ _ _ _ _ _ _ F2) ltac:(lia)) as [E2 C2].
  rewrite Nat.mul_1_l in E2, C2. eapply net_run_on; [exact E2|]. pose proof (net_filling_step _ _ _ _ _ _ _ _ _ _ C2 F2 eq_refl) as C2'.
  eapply net_filling_tick; [exact C2'|]. intros s3 f3 F3 D3. rewrite side_eq in D3. eapply run_step; [reflexivity|].
  rewrite (n_size _ _ _ _ _ (fi_ok _ _ _ _ _ _ _ _ _ F3)).
  destruct (offer_ok q bc 2 (chain d) (fun a => a) (net_layout d) _ _ _ _ i (net_filling_chan _ _ _ _ _ _ _ _ _ F3)) as (E3 & C3 & O3).
  eapply net_run_on; [exact E3|]. pose proof (net_filling_step _ _ _ _ _ _ _ _ _ _ C3 F3 eq_refl) as C3'.
  eapply net_filling_tick; [exact C3'|]. intros s4 f4 F4 D4. rewrite side_eq in D4. apply run_upd.
  assert (Hd : descriptors (vq (side d s4)) = <[i + bc := buffer_descriptor d b]> (<[i := header_descriptor d i (i + bc)]> (descriptors (vq (side d s1))))).
  { rewrite (proj1 D4). cbn. rewrite (proj1 D3). cbn. by rewrite (proj1 D2). }
  assert (Hl : length (descriptors (vq (side d s1))) = q) by apply (net_filling_chan _ _ _ _ _ _ _ _ _ F1).
  destruct (net_publish_step d i b s h W G s4 f4 F4) as (f5 & N5 & R5).
  - unfold offered in *. by rewrite (proj1 (proj2 D4)).
  - destruct D2 as (_ & _ & _ & _ & B2), D3 as (_ & _ & _ & _ & B3), D4 as (_ & _ & _ & _ & B4). rewrite B4. cbn. rewrite B3. cbn. by rewrite B2.
  - rewrite Hd. intros [|[|j]] x Hx; cbn in Hx; [injection Hx as <-|injection Hx as <-|done].
    + rewrite Nat.mul_0_l, Nat.add_0_r, list_lookup_insert_ne by lia. apply list_lookup_insert_eq. lia.
    + rewrite Nat.mul_1_l. apply list_lookup_insert_eq. rewrite length_insert. lia.
  - set (s5 := with_side d _ s4) in *. eapply run_bind; [by apply net_tick_run|]. intros [] s6 (f6 & N6 & S1 & S2 & S3 & S4). apply run_ret.
    destruct (net_pool_split _ _ _ _ _ N5) as (_ & _ & _ & P2 & P3).
    assert (Ed : dropped s5 = dropped s) by (rewrite <- (fi_drop _ _ _ _ _ _ _ _ _ F4); by destruct d). split_and!.
    + exists f6. split; [done|]. intros d'. by rewrite (proj2 (S1 d')).
    + congruence.
    + intros a Ha. rewrite S3; [|rewrite <- Ed in Ha; apply elem_of_app in Ha as [Ha|Ha]; [by apply P2|by apply P3]].
      rewrite <- (fi_kept _ _ _ _ _ _ _ _ _ F4 a Ha). by destruct d.
Qed.

Lemma net_kept_trans s1 s2 s3 h h' : dropped s2 = dropped s1 -> h' ⊆ h -> kept s1 s2 h -> kept s2 s3 h' -> kept s1 s3 h'.
Proof. intros Ed Hs K1 K2 a Ha. rewrite (K2 a) by (by rewrite Ed). apply K1. rewrite elem_of_app in *. destruct Ha; [left; by apply Hs|by right]. Qed.

Lemma net_idle_perm s h h' W G : h ≡ₚ h' -> idle s h W G -> idle s h' W G.
Proof. intros Hp (f & [N1 N2 N3 N4 N5 N6] & R). exists f. split; [split; try done|done]. by rewrite <- Hp. Qed.

Lemma add_loop_run d packets s h W G : idle s (packets ++ h) W G -> length packets <= DEQUE_CAP ->
  run (add_loop (add_packet d) packets) s (fun r s' => exists ins rest, packets = ins ++ rest /\ r ≡ₚ rest /\ dropped s' = dropped s /\
    idle s' (r ++ h) (match d with Rx => W | Tx => W ++ (contents s <$> ins) end) G /\ kept s s' (rest ++ h)).
Proof using Hq Hbc Hpool.
  revert s W. induction packets as [|b packets IH]; intros s W I Hl; cbn [add_loop].
  - apply run_ret. exists [], []. split_and!; [done..| |done]. destruct d; [exact I|]. cbn. by rewrite app_nil_r.
  - cbn [length app] in *. eapply run_bind; [by apply add_run|]. intros [[]|b'] s1.
    + intros (I1 & E1 & K1). eapply run_mono; [apply IH; [exact I1|lia]|]. intros r s' (ins & rest & -> & Hr & E2 & I2 & K2).
      exists (b :: ins), rest. split_and!; [done..|congruence| |].
      * destruct d; [done|]. cbn [grown] in I2. rewrite <- app_assoc in I2. cbn. rewrite <- (contents_ext s s1); [done|].
        intros a Ha. apply K1. rewrite !elem_of_app. auto.
      * eapply (net_kept_trans _ s1); [done| |exact K1|done]. intros a Ha. rewrite elem_of_app in Ha. rewrite !elem_of_app. tauto.
    + intros [-> ->]. unfold push_back. destruct (Nat.eqb_spec (length packets) DEQUE_CAP) as [|_]; [lia|]. eapply run_step; [reflexivity|]. apply run_ret.
      exists [], (b :: packets). split_and!; [done|cbn; solve_Permutation|done| |done].
      assert (I' : idle s ((packets ++ [b]) ++ h) W G) by (eapply net_idle_perm; [|exact I]; solve_Permutation).
      destruct d; [exact I'|]. cbn. by rewrite app_nil_r.
Qed.

(** ** Collecting packets *)

Lemma packets_delete m i hs A U R A' U' R' : i ∉ hs -> packets_of (mkGh (delete i m) A U R) hs = packets_of (mkGh m A' U' R') hs.
Proof.
  intros Hi. unfold packets_of. cbn [g_map]. induction hs as [|j hs IH]; [done|]. apply not_elem_of_cons in Hi as [Hn Hi]. cbn.
  rewrite lookup_delete_ne by done. rewrite IH by done. done.
Qed.

Definition come d (G : list (option (list Z))) (l : list (option (list Z))) : list (option (list Z)) := match d with Rx => G ++ l | Tx => G end.

Lemma net_collected_step d s f h W G i U b h' o : net_ok s f h W G -> (forall d, g_r (f d) = []) -> g_us (f d) = i :: U -> g_map (f d) !! i = Some b ->
  chan_ok q bc (chain d) (fun a => a) (collected i (side d s)) (delete i (g_map (f d))) (g_av (f d)) U [] -> h' ++ o ≡ₚ b :: h ->
  exists f', net_ok (with_dropped (dropped s ++ o) (with_side d (collected i (side d s)) s)) f' h' W (come d G [contents s b]) /\
    (forall d, g_r (f' d) = []) /\ length (vals (f d)) = S (length (vals (f' d))).
Proof.
  intros N Hr Hu Hb C Hh. pose proof (heads_nodup _ _ _ _ _ _ _ _ _ (n_chan _ _ _ _ _ N d)) as Hn. rewrite Hu in Hn.
  assert (Hi : (i ∉ g_av (f d) ++ pending (side d s)) /\ i ∉ U).
  { apply list.NoDup_app in Hn as (_ & Ha & Hn). apply list.NoDup_app in Hn as (_ & Hp & Hn). apply list.NoDup_app in Hn as (Hn & _).
    apply list.NoDup_cons in Hn as [Hn _]. split; [|done]. rewrite elem_of_app. intros [H1|H1].
    - apply (Ha i H1). rewrite !elem_of_app. right. left. left.
    - apply (Hp i H1). rewrite elem_of_app. left. left. }
  destruct Hi as [Hi1 Hi2]. set (x := mkGh (delete i (g_map (f d))) (g_av (f d)) U []).
  assert (Ep : forall hs, i ∉ hs -> packets_of x hs = packets_of (f d) hs) by (intros hs; unfold x; destruct (f d); apply packets_delete).
  assert (Hv : vals (f d) ≡ₚ b :: vals x) by (unfold vals, x; cbn [g_map]; by rewrite <- (map_to_list_delete _ _ _ Hb)).
  destruct N as [N1 N2 N3 N4 N5 N6]. exists (set d x f). split_and!; [split; [by destruct d|by destruct d| | | |]| |].
  - intros d'. destruct (decide (d = d')) as [<-|Hne].
    + rewrite set_eq. replace (side d _) with (collected i (side d s)) by (by destruct d). exact C.
    + rewrite set_ne by done. replace (side d' _) with (side d' s) by (by destruct d, d'). apply N3.
  - rewrite <- N4. cbn [dropped with_dropped]. transitivity (vals (set d x f Rx) ++ vals (set d x f Tx) ++ (h' ++ o) ++ dropped s); [solve_Permutation|].
    rewrite Hh. destruct d; cbn [set]; rewrite Hv; solve_Permutation.
  - destruct d; [exact N5|]. cbn [set]. rewrite <- N5, <- (Ep (g_av (f Tx) ++ pending (tx s))) by done. done.
  - destruct d; [|exact N6]. cbn [come set]. change (inbound _) with (inbound s). rewrite N6, Hu, <- app_assoc. f_equal.
    unfold packets_of at 1. cbn. rewrite Hb. cbn. f_equal. unfold packets_of in Ep. rewrite <- (Ep U Hi2). done.
  - intros d'. destruct (decide (d = d')) as [<-|Hne]; [by rewrite set_eq|by rewrite set_ne].
  - rewrite set_eq, Hv. done.
Qed.

Lemma net_tick_idle {A} s f h W G (k : unit -> NetM A) post : net_ok s f h W G -> (forall d, g_r (f d) = []) ->
  (forall s' f', net_ok s' f' h W G -> (forall d, g_r (f' d) = []) -> (forall d, length (vals (f' d)) = length (vals (f d))) ->
    dropped s' = dropped s -> kept s s' h -> run (k tt) s' post) -> run (tick ≫= k) s post.
Proof using Hq Hbc Hpool.
  intros N Hr Hk. eapply run_bind; [by apply net_tick_run|]. intros [] s' (f' & N' & S1 & S2 & S3 & S4). destruct (net_pool_split _ _ _ _ _ N) as (_ & _ & _ & P2 & P3).
  apply (Hk s' f'); [done| | |done|].
  - intros d. by rewrite (proj2 (S1 d)).
  - intros d. unfold vals. by rewrite (proj1 (S1 d)).
  - intros a Ha. apply S3. apply elem_of_app in Ha as [Ha|Ha]; [by apply P2|by apply P3].
Qed.

Lemma collect_run fuel d collect count s f h W G : net_ok s f (collect ++ h) W G -> (forall d, g_r (f d) = []) ->
  length collect <= DEQUE_CAP -> length (vals (f d)) < fuel ->
  run (collect_loop fuel d collect count) s (fun r s' => exists new lost, r = (count + length (new ++ lost), collect ++ new) /\
    length (collect ++ new) <= DEQUE_CAP /\ dropped s' = dropped s ++ lost /\
    idle s' (collect ++ new ++ h) W (come d G (contents s' <$> new ++ lost)) /\ kept s s' (collect ++ h) /\
    (length collect + length (vals (f d)) <= DEQUE_CAP -> lost = [])).
Proof using Hq Hbc Hpool.
  revert collect count s f G. induction fuel as [|fuel IH]; intros collect count s f G N Hr Hl Hf; [lia|]. cbn [collect_loop].
  eapply net_tick_idle; [done..|]. intros s1 f1 N1 Hr1 Hv Ed1 K1. rewrite <- Hv in Hf |- *. clear N Hr Hv f. eapply run_step; [reflexivity|].
  pose proof (n_chan _ _ _ _ _ N1 d) as C. rewrite Hr1 in C. destruct (g_us (f1 d)) as [|i U] eqn:Hu.
  { rewrite (collect_done _ _ _ _ _ _ _ _ C). apply run_ret. exists [], []. rewrite Nat.add_0_r, !app_nil_r. split_and!; [done..| |done|done].
    exists f1. split; [|done]. destruct d; [by rewrite fmap_nil; cbn; rewrite app_nil_r|exact N1]. }
  destruct (collect_next q bc 2 (chain d) (fun a => a) (net_layout d) _ _ _ _ _ C) as (-> & p & e & x & x' & b & E1 & E2 & E3 & E4 & E5 & Hi & Hb & Eb & C').
  eapply run_step; [reflexivity|]. rewrite (n_size _ _ _ _ _ N1). eapply run_lift; [exact E1|]. eapply run_lift; [exact E2|]. cbv zeta. rewrite E3, Nat2Z.id.
  eapply run_lift; [by apply index_Some|]. eapply run_lift; [by apply index_Some|]. eapply run_lift; [by apply index_Some|]. cbv beta iota.
  apply run_assoc, run_upd. cbv zeta. set (p' := push_back DEQUE_CAP collect b).
  set (o := match p'.1 with Some a => [a] | None => [] end).
  assert (Hp : p'.2 ++ o ≡ₚ b :: collect /\ length p'.2 <= DEQUE_CAP /\ p'.2 = collect ++ (if length collect =? DEQUE_CAP then [] else [b]) /\
    o = (if length collect =? DEQUE_CAP then [b] else [])).
  { unfold o, p', push_back. destruct (Nat.eqb_spec (length collect) DEQUE_CAP) as [Hc|Hc]; cbn.
    - split_and!; [solve_Permutation|done|by rewrite app_nil_r|done].
    - rewrite length_app. cbn [length]. split_and!; [rewrite app_nil_r; solve_Permutation|lia|done|done]. }
  destruct Hp as (Hp & Hlp & Ep & Eo).
  apply run_assoc. apply (run_step _ _ _ tt (with_dropped (dropped s1 ++ o) (with_side d (with_buffers (<[i := None]> (buffers (side d s1))) (side d s1)) s1))).
  { unfold o, drop_opt. destruct (p'.1); [by destruct d|]. rewrite app_nil_r. by destruct d, s1. }
  apply run_assoc. eapply run_lift; [apply index_Some, (c_marks _ _ _ _ _ _ _ _ _ C i Hi)|]. apply run_assoc, run_upd.
  eapply run_step; [reflexivity|]. apply run_upd.
  set (s2 := with_side d _ _). assert (Es2 : s2 = with_dropped (dropped s1 ++ o) (with_side d (collected i (side d s1)) s1)) by (by destruct d).
  destruct (net_collected_step d s1 f1 (collect ++ h) W G i U b (p'.2 ++ h) o N1 Hr1 Hu Hb C') as (f2 & N2 & Hr2 & Hv2).
  { transitivity ((p'.2 ++ o) ++ h); [solve_Permutation|]. by rewrite Hp. }
  rewrite <- Es2 in N2. cbn [fst snd]. eapply run_mono; [apply (IH _ _ _ f2); [done|done|done|lia]|].
  intros r s' (new & lost & -> & Hln & Ed & I & K & Hno). assert (Ed2 : dropped s2 = dropped s1 ++ o) by (by rewrite Es2).
  assert (Hc2 : forall a, contents s2 a = contents s1 a) by (rewrite Es2; by destruct d). clearbody s2. clear Es2 N2 IH C C'.
  assert (Hbs : contents s' b = contents s1 b).
  { rewrite <- Hc2. apply K. rewrite Ed2. assert (Hin : b ∈ p'.2 ++ o) by (rewrite Hp; left). rewrite !elem_of_app in *. tauto. }
  assert (Hk : kept s s' (collect ++ h)).
  { intros a Ha. rewrite <- (K1 a Ha), <- Hc2. apply K. rewrite Ed2, Ed1, Ep. rewrite !elem_of_app in *. tauto. }
  assert (HG : forall l, come d (come d G [contents s1 b]) (contents s' <$> l) = come d G (contents s' <$> b :: l)).
  { intros l. destruct d; [|done]. cbn. rewrite Hbs, <- app_assoc. done. }
  rewrite HG in I. rewrite Ed2, Ed1, <- app_assoc in Ed. rewrite Ep in *. rewrite Eo in *. destruct (Nat.eqb_spec (length collect) DEQUE_CAP) as [Hc|Hc].
  - rewrite app_nil_r in *. assert (new = []) as -> by (apply nil_length_inv; rewrite length_app in Hln; lia). exists [], (b :: lost). cbn [app length] in *.
    rewrite app_nil_r in *. split_and!; [f_equal; lia|done..|lia].
  - exists (b :: new), lost. rewrite length_app in Hno. rewrite <- !app_assoc in *. cbn [app length] in *. split_and!; [f_equal; lia|done..|].
    intros Hroom. apply Hno. lia.
Qed.

(** ** Calls *)

Lemma net_vals_bound s f h W G d : net_ok s f h W G -> length (vals (f d)) <= bc.
Proof.
  intros N. pose proof (n_chan _ _ _ _ _ N d) as C. pose proof (heads_bound _ _ _ _ _ _ _ _ _ C) as Hb. rewrite (c_heads _ _ _ _ _ _ _ _ _ C) in Hb.
  unfold vals. by rewrite !length_fmap in *.
Qed.

Lemma run_eq {A} (m m' : NetM A) s post : m s = m' s -> run m' s post -> run m s post.
Proof. unfold run. by intros ->. Qed.

Lemma call_shape packets collect is_tx s : submit_and_poll_rref packets collect is_tx s =
  (n ← gets buffer_count; r ← collect_loop (S n) (dir is_tx) collect 0; packets ← add_loop (add_packet (dir is_tx)) packets; mret (r.1, packets, r.2) : NetM _) s.
Proof.
  destruct is_tx; unfold submit_and_poll_rref, free_processed_tx_packets, get_received_packets, add_tx_buffers, add_rx_buffers, add_tx_packet, add_rx_buffer;
    rewrite bind_assoc, !bind_gets; cbn [dir]; by destruct packets.
Qed.

Lemma net_submit_run packets collect is_tx s h W G : idle s (packets ++ collect ++ h) W G -> length packets <= DEQUE_CAP -> length collect <= DEQUE_CAP ->
  run (submit_and_poll_rref packets collect is_tx) s (fun r s' => exists new lost ins rest packets',
    r = (length (new ++ lost), packets', collect ++ new) /\ packets = ins ++ rest /\ packets' ≡ₚ rest /\ dropped s' = dropped s ++ lost /\
    idle s' (packets' ++ collect ++ new ++ h) (match dir is_tx with Rx => W | Tx => W ++ (contents s <$> ins) end)
      (come (dir is_tx) G (contents s' <$> new ++ lost)) /\ kept s s' h /\
    (length collect + length (in_driver (dir is_tx) s) <= DEQUE_CAP -> lost = [])).
Proof using Hq Hbc Hpool.
  intros (f & N & Hr) Hlp Hlc.
  assert (Hin : length (in_driver (dir is_tx) s) = length (vals (f (dir is_tx)))).
  { pose proof (n_chan _ _ _ _ _ N (dir is_tx)) as C. rewrite Hr in C. unfold in_driver, vals. by rewrite (buffers_held _ _ _ _ _ _ _ _ C), list_fmap_id. }
  rewrite Hin. clear Hin. eapply run_eq; [apply call_shape|]. set (d := dir is_tx). eapply run_step; [reflexivity|].
  assert (N' : net_ok s f (collect ++ packets ++ h) W G).
  { destruct N as [N1 N2 N3 N4 N5 N6]. split; try done. rewrite <- N4. solve_Permutation. }
  eapply run_bind; [apply (collect_run _ d collect 0 s f (packets ++ h) W G N' Hr Hlc); rewrite (n_count _ _ _ _ _ N); pose proof (net_vals_bound _ _ _ _ _ d N); lia|].
  intros r s1 (new & lost & -> & Hln & Ed1 & I1 & K1 & Hno). eapply run_bind; [apply (add_loop_run d packets s1 (collect ++ new ++ h))|].
  { eapply net_idle_perm; [|exact I1]. solve_Permutation. } { done. }
  intros packets' s' (ins & rest & -> & Hp & Ed2 & I2 & K2). apply run_ret. exists new, lost, ins, rest, packets'. cbn [fst snd].
  rewrite <- !app_assoc in *. split_and!; [done..|congruence| | |exact Hno].
  - rewrite (contents_ext s1 s'); [|intros a Ha; apply K2; rewrite Ed1; rewrite !elem_of_app in *; tauto].
    rewrite <- (contents_ext s s1 ins); [exact I2|]. intros a Ha. apply K1. rewrite !elem_of_app. tauto.
  - intros a Ha. rewrite <- (K1 a) by (rewrite !elem_of_app in *; tauto). apply K2. rewrite Ed1. rewrite !elem_of_app in *. tauto.
Qed.

(** *** Histories *)

Definition client_ok (y : Client) : Prop := exists G, idle (net y) (held y) (submitted y) G /\ (dropped (net y) = [] -> G = got y).

Lemma net_fill_idle s h W G a l : a ∈ h -> idle s h W G -> idle (with_memory (<[Buf a := l]> (memory s)) s) h W G.
Proof using Hpool.
  intros Ha (f & N & Hr). exists f. split; [|done]. pose proof Hpool as Hn. rewrite <- (n_pool _ _ _ _ _ N) in Hn.
  apply list.NoDup_app in Hn as (_ & Hn1 & Hn). apply list.NoDup_app in Hn as (_ & Hn2 & _).
  assert (Hx : forall x b hs, b ∈ packets_of (f x) hs -> b <> a).
  { intros x b hs Hb%packets_vals ->. destruct x; [apply (Hn1 a Hb)|apply (Hn2 a Hb)]; rewrite !elem_of_app; auto. }
  destruct N as [N1 N2 N3 N4 N5 N6]. split; [done|done| |done| |]; [by intros []|..];
    (rewrite contents_ext with (s := s); [done|]; intros b Hb; unfold contents; cbn [memory with_memory]; apply lookup_insert_ne; intros E; injection E as ->; by eapply Hx).
Qed.

Lemma net_exec_ok c frame y : client_ok y -> permitted c frame y -> exists y', exec c frame y = Done y' /\ client_ok y' /\
  (forall a, a ∈ frame -> contents (net y') a = contents (net y) a) /\ (roomy c y -> dropped (net y') = dropped (net y)).
Proof using Hq Hbc Hpool.
  intros (G & I & HG) [Hh Hc]. destruct c as [a l|packets collect is_tx|collect is_tx]; cbn [exec call_in] in *.
  - eexists. split; [reflexivity|]. assert (Ha : a ∈ held y) by (rewrite Hh; left). split; [exists G; split; [by apply net_fill_idle|done]|]. split; [|done].
    intros b Hb. cbn. unfold contents. cbn. apply lookup_insert_ne. intros E. injection E as ->.
    destruct I as (f & N & _). pose proof Hpool as Hn. rewrite <- (n_pool _ _ _ _ _ N), Hh in Hn. apply list.NoDup_app in Hn as (_ & _ & Hn).
    apply list.NoDup_app in Hn as (_ & _ & Hn). cbn in Hn. apply list.NoDup_cons in Hn as [Hn _]. apply Hn. rewrite elem_of_app. by left.
  - destruct Hc as [Hlp Hlc]. destruct (net_submit_run packets collect is_tx (net y) frame (submitted y) G) as (r & s' & E & new & lost & ins & rest & packets' & -> & -> & Hp & Ed & I' & K & Hno);
      [|done|done|]. { eapply net_idle_perm; [|exact I]. by rewrite Hh, <- app_assoc. }
    rewrite E. cbn [mbind outcome_bind]. eexists. split; [reflexivity|]. cbn [net].
    split; [|split; [intros a Ha; apply K; rewrite elem_of_app; by left|intros Hroom; by rewrite Ed, (Hno Hroom), app_nil_r]].
    exists (come (dir is_tx) G (contents s' <$> new ++ lost)). cbn [net held submitted got]. rewrite (Permutation_length Hp), length_app.
    replace (length ins + length rest - length rest) with (length ins) by lia. rewrite take_app_length, drop_app_length. split.
    + rewrite <- app_assoc. by destruct is_tx.
    + rewrite Ed. intros [H1 ->]%app_nil. rewrite app_nil_r, (HG H1). by destruct is_tx.
  - eexists. split; [reflexivity|]. cbn. split; [|split; done]. exists G. split; [|done]. eapply net_idle_perm; [|exact I]. done.
Qed.
End Invariant.

(** ** Properties *)

(** The frames that the device has not sent yet, and the packets received that are not
    collected yet. *)
Definition packets_at (c : Channel) (hs : list nat) : list Z := omap (fun i => mjoin (buffers c !! i)) hs.
Definition unsent (s : VirtioNetInner) : list Z := packets_at (tx s) (offered_heads (tx s) ++ pending (tx s)).
Definition arrived (s : VirtioNetInner) : list Z := packets_at (rx s) (used_heads (rx s)).

Lemma half_fits q : 2 * Z.to_nat (Z.of_nat q / 2) <= q.
Proof. pose proof (Z.mul_div_le (Z.of_nat q) 2). lia. Qed.

Lemma net_history_ok q m sc pool y : queue_ok q -> NoDup pool -> history q m sc pool y -> client_ok q (Z.to_nat (Z.of_nat q / 2)) pool y.
Proof.
  intros Hq Hn Hy. destruct (queue_pos q Hq) as [Hp _]. induction Hy as [status s E|y c frame y' Hy IH Hc E].
  - unfold init in E. destruct (Z.land status 8 =? 0)%Z; [done|]. destruct (Z.eqb_spec (Z.of_nat q) 0) as [|_]; [lia|]. injection E as <-.
    exists []. split; [|done]. exists (fun _ => mkGh ∅ [] [] []). split; [|done]. split; [done|done|intros []; apply new_channel_ok| |done|done].
    cbn. by rewrite !app_nil_r.
  - destruct (net_exec_ok q _ Hq (half_fits q) pool Hn c frame y IH Hc) as (y2 & E2 & O & _). rewrite E in E2. by injection E2 as <-.
Qed.

Lemma channel_packets q bc (Hq : queue_ok q) (Hbc : 2 * bc <= q) d c x : g_r x = [] ->
  chan_ok q bc (chain bc d) (fun a => a) c (g_map x) (g_av x) (g_us x) (g_r x) ->
  omap (fun o => o) (buffers c) ≡ₚ vals x /\ packets_at c (offered_heads c ++ pending c) = packets_of x (g_av x ++ pending c) /\
  packets_at c (used_heads c) = packets_of x (g_us x).
Proof.
  intros Hr C. rewrite Hr in C. destruct (heads_spec q bc 2 _ _ (net_layout q bc Hq Hbc d) _ _ _ _ _ C) as [-> ->]. unfold packets_at, packets_of, vals.
  rewrite (buffers_held _ _ _ _ _ _ _ _ C), list_fmap_id. split; [done|].
  split; rewrite (heads_buffers _ _ _ _ _ _ _ _ _ C), ?list_fmap_id; try done;
    intros i Hi; (eapply head_lt; [exact C|]); rewrite !elem_of_app in *; tauto.
Qed.

(** C19: in every history of calls of the virtio network driver, with a device that takes and
    finishes packets at any point and in any order: each packet is in one place only, with the
    driver, with the client, or freed because the client's queue was full; a call with room
    for the packets that the driver has of its direction frees none; every
    frame submitted is sent once, with the contents it had when it was submitted; as long as no
    packet was freed, the packets received come to the client in the order of arrival with
    what the device wrote; every permitted call returns, and neither it nor the device touches
    a packet that the client kept.  The number of descriptors is a power of two, as the
    specification of virtio demands. *)
Theorem virtio_net_history_safe q m sc pool y : queue_ok q -> NoDup pool -> history q m sc pool y ->
  in_driver Rx (net y) ++ in_driver Tx (net y) ++ held y ++ dropped (net y) ≡ₚ pool /\
  wire (net y) ++ (contents (net y) <$> unsent (net y)) ≡ₚ submitted y /\
  (dropped (net y) = [] -> inbound (net y) = got y ++ (contents (net y) <$> arrived (net y))) /\
  (forall c frame, permitted c frame y -> exists y', exec c frame y = Done y' /\
    (forall a, a ∈ frame -> contents (net y') a = contents (net y) a) /\ (roomy c y -> dropped (net y') = dropped (net y))).
Proof.
  intros Hq Hn Hy. pose proof (net_history_ok _ _ _ _ _ Hq Hn Hy) as O. split_and!.
  4: { intros c frame Hc. destruct (net_exec_ok q _ Hq (half_fits q) pool Hn c frame y O Hc) as (y' & E & _ & K). by exists y'. }
  all: destruct O as (G & (f & N & Hr) & HG).
  all: destruct (channel_packets q _ Hq (half_fits q) Rx _ _ (Hr Rx) (n_chan _ _ _ _ _ _ _ _ N Rx)) as (R1 & _ & R3).
  all: destruct (channel_packets q _ Hq (half_fits q) Tx _ _ (Hr Tx) (n_chan _ _ _ _ _ _ _ _ N Tx)) as (T1 & T2 & _).
  - unfold in_driver. rewrite R1, T1. apply N.
  - unfold unsent. cbn [side] in T2. rewrite T2. apply N.
  - intros Hd. unfold arrived. cbn [side] in R3. rewrite R3, <- (HG Hd). apply N.
Qed.

(** Two packets are submitted; the device takes both and sends the second one. *)
Definition sample_net_mem : gmap Addr (list Z) := {[ Buf 1 := [11%Z]; Buf 2 := [22%Z] ]}.
Definition sample_net_script : list (list event) := replicate 8 [] ++ [[Take Tx; Take Tx; Use Tx 1 0 []]].

Lemma virtio_net_history_safe_witness : exists y, history 4 sample_net_mem sample_net_script [1%Z; 2%Z] y /\
  wire (net y) = [Some [22%Z]] /\ unsent (net y) = [1%Z] /\ wire (net y) ++ (contents (net y) <$> unsent (net y)) ≡ₚ submitted y.
Proof.
  assert (Ec : match (s ← init 8 4 sample_net_mem sample_net_script; exec (SubmitPoll [1%Z; 2%Z] [] true) [] (mkClient s [1%Z; 2%Z] [] [])) with
    | Done y => wire (net y) = [Some [22%Z]] /\ unsent (net y) = [1%Z] | _ => False end) by (vm_compute; split; reflexivity).
  destruct (init 8 4 sample_net_mem sample_net_script) as [s| |] eqn:E0; [|destruct Ec..]. cbn [mbind outcome_bind] in Ec.
  destruct (exec _ _ _) as [y| |] eqn:E; [|destruct Ec..]. destruct Ec as [Ew Eu].
  assert (Hy : history 4 sample_net_mem sample_net_script [1%Z; 2%Z] y).
  { eapply history_call; [apply (history_new 4 sample_net_mem sample_net_script _ 8 s E0)| |exact E]. split; [reflexivity|]. unfold DEQUE_CAP. cbn. lia. }
  exists y. split; [exact Hy|]. split; [exact Ew|]. split; [exact Eu|].
  apply (virtio_net_history_safe 4 sample_net_mem sample_net_script [1%Z; 2%Z] y); [exists 2; split; [lia|reflexivity]| |exact Hy].
  by apply (bool_decide_unpack _).
Defined.
