(* ===== verification/VirtioBlock.v ===== *)
(** * The virtio block driver
    (lib/devices/virtio_block/src/lib.rs, domains/sys/driver/virtio_block/src/lib.rs)

    One queue of requests.  A request takes a chain of three descriptors: a header with the
    kind of the request and the sector, the data, and a byte for the status; they are the
    descriptors [i], [i + buffer_count] and [i + 2 * buffer_count].

    The device runs between any two stores of the driver to the queue, as in VirtioNet.v.  When
    it finishes a request it reads the header, moves the data and writes the status.
    [served] records what it did: whether it wrote to the disk, the sector, the request, and
    the data it wrote to the disk.  [finished] records the requests with their data
    afterwards. *)

From Stdlib Require Import ZArith Lia.
From stdpp Require Import base gmap list numbers options.
From S2P Require Import Prelude Virtio.

Record BlockBufferHeader := mkHdr { request_type : Z; reserved : Z; sector : Z }.

(** interface/src/bdev.rs *)
Record BlkReq := mkReq { data : list Z; data_len : Z; block : Z }.

Inductive event :=
  | Take
  | Use (k : nat) (out : list Z) (status : Z).

Abbreviation service := (bool * Z * Z * option (list Z))%type.

Record VirtioBlockInner := mkBlk {
  queue_size : Z;
  buffer_count : nat;
  queue : Channel;
  block_headers : list BlockBufferHeader;
  block_status : list Z;
  memory : gmap Z BlkReq;
  script : list (list event);
  served : list service;
  finished : list (Z * option (list Z));
  dropped : list Z }.

Definition with_queue c (s : VirtioBlockInner) : VirtioBlockInner :=
  mkBlk (queue_size s) (buffer_count s) c (block_headers s) (block_status s) (memory s) (script s) (served s) (finished s) (dropped s).
Definition with_headers h (s : VirtioBlockInner) : VirtioBlockInner :=
  mkBlk (queue_size s) (buffer_count s) (queue s) h (block_status s) (memory s) (script s) (served s) (finished s) (dropped s).
Definition with_status st (s : VirtioBlockInner) : VirtioBlockInner :=
  mkBlk (queue_size s) (buffer_count s) (queue s) (block_headers s) st (memory s) (script s) (served s) (finished s) (dropped s).
Definition with_memory m (s : VirtioBlockInner) : VirtioBlockInner :=
  mkBlk (queue_size s) (buffer_count s) (queue s) (block_headers s) (block_status s) m (script s) (served s) (finished s) (dropped s).
Definition with_script sc (s : VirtioBlockInner) : VirtioBlockInner :=
  mkBlk (queue_size s) (buffer_count s) (queue s) (block_headers s) (block_status s) (memory s) sc (served s) (finished s) (dropped s).
Definition with_served v f (s : VirtioBlockInner) : VirtioBlockInner :=
  mkBlk (queue_size s) (buffer_count s) (queue s) (block_headers s) (block_status s) (memory s) (script s) v f (dropped s).
Definition with_dropped l (s : VirtioBlockInner) : VirtioBlockInner :=
  mkBlk (queue_size s) (buffer_count s) (queue s) (block_headers s) (block_status s) (memory s) (script s) (served s) (finished s) l.

(** ** The device *)

Definition contents (s : VirtioBlockInner) (a : Z) : option (list Z) := data <$> memory s !! a.

Definition overwrite (o old : list Z) : list Z := take (length old) o ++ drop (length o) old.

(** The device reads a request, moves [out] to its memory when that is writable, and sets the status. *)
Definition serve (ds : list VirtqDescriptor) (out : list Z) (status : Z) (s : VirtioBlockInner) : VirtioBlockInner :=
  match ds with
  | [dh; dd; dt] =>
      match addr dh, addr dd, addr dt with
      | Header i, Buf a, Status j =>
          match block_headers s !! i with
          | Some h =>
              let write := (request_type h =? 1)%Z in
              let m := if Z.testbit (flags dd) 1
                       then alter (fun r => mkReq (overwrite (take (Z.to_nat (len dd)) out) (data r)) (data_len r) (block r)) a (memory s)
                       else memory s in
              with_served (served s ++ [(write, sector h, a, if write then contents s a else None)]) (finished s ++ [(a, data <$> m !! a)])
                (with_status (<[j := status]> (block_status s)) (with_memory m s))
          | None => s
          end
      | _, _, _ => s
      end
  | _ => s
  end.

Definition run_event (e : event) (s : VirtioBlockInner) : VirtioBlockInner :=
  match e with
  | Take => with_queue (dev_take (queue s)) s
  | Use k out status =>
      match dev_use k 1 (queue s) with
      | None => s
      | Some (_, ds, c) => serve ds out status (with_queue c s)
      end
  end.

Abbreviation BlkM := (M VirtioBlockInner).

Definition tick : BlkM unit := modify (fun s =>
  match script s with
  | [] => s
  | es :: sc => fold_left (fun s e => run_event e s) es (with_script sc s)
  end).

(** ** The driver *)

(** [init]: [status] is what the device status reads after FEATURES_OK was set. *)
Definition init (status qs : Z) (m : gmap Z BlkReq) (sc : list (list event)) : outcome VirtioBlockInner :=
  if (Z.land status 8 =? 0)%Z then Panic
  else
    let n := Z.to_nat (qs / 3) in
    Done (mkBlk qs n (Channel_new qs n) (replicate n (mkHdr 255 0 0)) (replicate n 255%Z) m sc [] [] []).

Definition upd (f : Channel -> Channel) : BlkM unit := modify (fun s => with_queue (f (queue s)) s).
Definition on (f : Channel -> outcome Channel) : BlkM unit :=
  s ← get; c ← lift (f (queue s)); put (with_queue c s).

Definition header_descriptor (i buffer_idx : nat) : VirtqDescriptor := mkDescr (Header i) 16 1 (wrap 16 (Z.of_nat buffer_idx)).
Definition data_descriptor (a : Z) (write : bool) (status_idx : nat) : VirtqDescriptor :=
  mkDescr (Buf a) 4096 (if write then 1 else Z.lor 1 2) (wrap 16 (Z.of_nat status_idx)).
Definition status_descriptor (i : nat) : VirtqDescriptor := mkDescr (Status i) 1 2 0.

Definition submit_request (block_request : Z) (write : bool) : BlkM (result Z unit) :=
  c ← gets queue;
  match get_free_idx (free_descriptors c) with
  | Some (header_idx, f) =>
      _ ← upd (with_free f);
      s ← get;
      r ← lift (expect (memory s !! block_request));
      _ ← lift (index (block_headers s) header_idx);
      _ ← modify (with_headers (<[header_idx := mkHdr (if write then 1 else 0) 0 (block r)]> (block_headers s)));
      _ ← lift (index (block_status s) header_idx);
      _ ← modify (with_status (<[header_idx := 255%Z]> (block_status s)));
      let buffer_idx := header_idx + buffer_count s in
      let status_idx := buffer_idx + buffer_count s in
      _ ← tick;
      _ ← on (set_descriptor header_idx (header_descriptor header_idx buffer_idx));
      _ ← tick;
      _ ← on (set_descriptor buffer_idx (data_descriptor block_request write status_idx));
      _ ← tick;
      _ ← on (set_descriptor status_idx (status_descriptor header_idx));
      _ ← on (store_buffer header_idx block_request);
      _ ← tick;
      qs ← gets queue_size;
      _ ← on (offer qs header_idx);
      _ ← tick;
      _ ← upd advance_available;
      _ ← tick;
      mret (Ok tt)
  | None => mret (Err block_request)
  end.

(** [RRefDeque::push_back] *)
Definition push_back (cap : nat) (q : list Z) (a : Z) : option Z * list Z :=
  if length q =? cap then (Some a, q) else (None, q ++ [a]).
Definition drop_opt (o : option Z) : BlkM unit :=
  match o with Some a => modify (fun s => with_dropped (dropped s ++ [a]) s) | None => mret tt end.

Definition DEQUE_CAP : nat := 128.

(** The loop of [free_request_buffers].  A round collects one request, so the number of chains
    and one are enough rounds. *)
Fixpoint free_loop (fuel : nat) (collect : list Z) (count : nat) : BlkM (nat * list Z) :=
  match fuel with
  | O => hang
  | S fuel =>
      _ ← tick;
      s ← get;
      let c := queue s in
      if (last_idx c =? u_idx (used (vq c)))%Z then mret (count, collect)
      else
        i ← lift (urem (last_idx c) (queue_size s));
        e ← lift (used_ring i (used (vq c)));
        let header_idx := Z.to_nat (e_id e) in
        _ ← lift (index (descriptors (vq c)) header_idx);
        o ← lift (index (buffers c) header_idx);
        match o with
        | Some buffer =>
            _ ← upd (fun c => with_buffers (<[header_idx := None]> (buffers c)) c);
            st ← lift (index (block_status s) header_idx);
            _ ← assert (st =? 0)%Z;
            let p := push_back DEQUE_CAP collect buffer in
            _ ← drop_opt p.1;
            _ ← lift (index (free_descriptors c) header_idx);
            _ ← upd (fun c => with_free (<[header_idx := true]> (free_descriptors c)) c);
            _ ← upd advance_last;
            free_loop fuel p.2 (S count)
        | None => panic
        end
  end.
Definition free_request_buffers (collect : list Z) : BlkM (nat * list Z) :=
  n ← gets buffer_count; free_loop (S n) collect 0.

(** ** The driver domain *)

Fixpoint submit_loop (submit : list Z) (write : bool) : BlkM (list Z) :=
  match submit with
  | [] => mret []
  | b :: rest =>
      r ← submit_request b write;
      match r with
      | Ok _ => submit_loop rest write
      | Err b => let p := push_back DEQUE_CAP rest b in _ ← drop_opt p.1; mret p.2
      end
  end.

Definition submit_and_poll_rref (submit collect : list Z) (write : bool) : BlkM (nat * list Z * list Z) :=
  submit ← submit_loop submit write; r ← free_request_buffers collect; mret (r.1, submit, r.2).

Definition poll_rref (collect : list Z) : BlkM (nat * list Z) := mret (0, collect).
Definition get_stats : BlkM (Z * Z) := mret (9%Z, 9%Z).

(** ** Histories

    The client fills requests that it holds and passes requests to calls. *)

Record Client := mkClient { dev : VirtioBlockInner; held : list Z; submitted : list service; got : list (Z * option (list Z)) }.

Inductive call :=
  | Fill (a : Z) (r : BlkReq)
  | SubmitPoll (submit collect : list Z) (write : bool)
  | Poll (collect : list Z)
  | GetStats.

Definition call_in (c : call) : list Z :=
  match c with Fill a _ => [a] | SubmitPoll submit collect _ => submit ++ collect | Poll collect => collect | GetStats => [] end.

Definition permitted (c : call) (frame : list Z) (y : Client) : Prop :=
  held y ≡ₚ call_in c ++ frame /\
  match c with SubmitPoll submit collect _ => length submit <= DEQUE_CAP /\ length collect <= DEQUE_CAP | _ => True end.

(** The requests with the driver; the client's queue has room for those and the new ones. *)
Definition in_driver (s : VirtioBlockInner) : list Z := omap (fun o => o) (buffers (queue s)).
Definition roomy (c : call) (y : Client) : Prop :=
  match c with SubmitPoll submit collect _ => length collect + length submit + length (in_driver (dev y)) <= DEQUE_CAP | _ => True end.

(** The transfer that request [a] stands for: 4096 bytes from the sector that its block
    number names.  Block numbers count sectors of 512 bytes, as the code uses them. *)
Definition asked (s : VirtioBlockInner) (write : bool) (a : Z) : service :=
  (write, default 0%Z (block <$> memory s !! a), a, if write then contents s a else None).

(** [frame] is what the client keeps to itself during the call. *)
Definition exec (c : call) (frame : list Z) (y : Client) : outcome Client :=
  match c with
  | Fill a r => Done (mkClient (with_memory (<[a := r]> (memory (dev y))) (dev y)) (held y) (submitted y) (got y))
  | SubmitPoll submit collect write =>
      p ← submit_and_poll_rref submit collect write (dev y);
      let '(_, submit', collect', s) := p in
      let taken := asked (dev y) write <$> take (length submit - length submit') submit in
      let came := (fun a => (a, contents s a)) <$> drop (length collect) collect' in
      Done (mkClient s (submit' ++ collect' ++ frame) (submitted y ++ taken) (got y ++ came))
  | Poll collect => p ← poll_rref collect (dev y); Done (mkClient p.2 (p.1.2 ++ frame) (submitted y) (got y))
  | GetStats => p ← get_stats (dev y); Done (mkClient p.2 (held y) (submitted y) (got y))
  end.

(** The device reports no errors. *)
Definition event_fine (e : event) : Prop := match e with Take => True | Use _ _ status => status = 0%Z end.

Inductive history (q : nat) (m : gmap Z BlkReq) (sc : list (list event)) (pool : list Z) : Client -> Prop :=
  | history_new status s : init status (Z.of_nat q) m sc = Done s -> history q m sc pool (mkClient s pool [] [])
  | history_call y c frame y' : history q m sc pool y -> permitted c frame y -> exec c frame y = Done y' -> history q m sc pool y'.

(** ** The invariant *)

Section Invariant.
Context (q bc : nat) (Hq : queue_ok q) (Hbc : 3 * bc <= q) (pool : list Z) (Hpool : NoDup pool).
Implicit Types (s : VirtioBlockInner).

(** What a chain is used for. *)
Record Req := mkR { r_buf : Z; r_write : bool; r_block : Z }.
Implicit Types (t : Req).

Definition chain (i : nat) t : list VirtqDescriptor :=
  [header_descriptor i (i + bc); data_descriptor (r_buf t) (r_write t) (i + bc + bc); status_descriptor i].
Definition header_of t : BlockBufferHeader := mkHdr (if r_write t then 1 else 0) 0 (r_block t).

Lemma blk_layout : layout q bc 3 chain.
Proof using Hq Hbc.
  destruct (queue_pos q Hq) as [Hp Hl]. split; [done|done|lia|done| |].
  - intros i [a [] b] [|[|[|j]]] x E; cbn in E; (discriminate E || (injection E as <-; done)).
  - intros i t [|[|[|j]]] x Hi E Hj; cbn in E; [injection E as <-..|lia|done]; cbn [next header_descriptor data_descriptor]; unfold wrap;
      rewrite Z.mod_small by lia; lia.
Qed.

Record ghost := mkGh { g_map : gmap nat Req; g_av : list nat; g_us : list nat; g_r : list nat }.
Implicit Types (x : ghost).
Definition vals x : list Z := r_buf <$> (map_to_list (g_map x)).*2.
Definition reqs_of x (hs : list nat) : list Req := omap (fun i => g_map x !! i) hs.

Definition entry s t : service := (r_write t, r_block t, r_buf t, if r_write t then contents s (r_buf t) else None).
Definition outcome_of s t : Z * option (list Z) := (r_buf t, contents s (r_buf t)).

(** The chains that the device may still work on. *)
Definition active s x : list nat := g_av x ++ pending (queue s).

(** [W] lists what was submitted, [G] the requests collected. *)
Record blk_ok s x (h : list Z) (W : list service) (G : list (Z * option (list Z))) : Prop := {
  b_size : queue_size s = Z.of_nat q;
  b_count : buffer_count s = bc;
  b_chan : chan_ok q bc chain r_buf (queue s) (g_map x) (g_av x) (g_us x) (g_r x);
  b_nhdrs : length (block_headers s) = bc;
  b_hdrs i t : g_map x !! i = Some t -> block_headers s !! i = Some (header_of t);
  b_nstatus : length (block_status s) = bc;
  b_status i : i ∈ g_us x -> block_status s !! i = Some 0%Z;
  b_pool : vals x ++ h ++ dropped s ≡ₚ pool;
  b_mem a : a ∈ pool -> is_Some (memory s !! a);
  b_script : Forall (Forall event_fine) (script s);
  b_served : served s ++ (entry s <$> reqs_of x (active s x)) ≡ₚ W;
  b_fin : finished s = G ++ (outcome_of s <$> reqs_of x (g_us x)) }.

Lemma in_vals x i t : g_map x !! i = Some t -> r_buf t ∈ vals x.
Proof. intros Hi. apply list_elem_of_fmap. exists t. split; [done|]. apply list_elem_of_fmap. exists (i, t). split; [done|]. by apply elem_of_map_to_list. Qed.

Lemma reqs_in x hs t : t ∈ reqs_of x hs -> exists i, i ∈ hs /\ g_map x !! i = Some t.
Proof. intros (i & Hi & Ht)%list_elem_of_omap. by exists i. Qed.

Lemma vals_inj x i j t t' : NoDup (vals x) -> g_map x !! i = Some t -> g_map x !! j = Some t' -> r_buf t = r_buf t' -> i = j.
Proof.
  intros Hn Hi Hj E. destruct (decide (i = j)) as [|Hne]; [done|]. unfold vals in Hn. rewrite <- (map_to_list_delete _ _ _ Hi) in Hn. cbn in Hn.
  apply list.NoDup_cons in Hn as [Hn _]. exfalso. apply Hn. rewrite E. apply list_elem_of_fmap. exists t'. split; [done|].
  apply list_elem_of_fmap. exists (j, t'). split; [done|]. apply elem_of_map_to_list. by rewrite lookup_delete_ne.
Qed.

Lemma pool_split s x h W G : blk_ok s x h W G -> NoDup (vals x) /\ (forall a, a ∈ h ++ dropped s -> a ∉ vals x).
Proof using Hpool.
  intros N. pose proof Hpool as Hn. rewrite <- (b_pool _ _ _ _ _ N) in Hn. apply list.NoDup_app in Hn as (H1 & H2 & _).
  split; [done|]. intros a Ha Hv. by apply (H2 a Hv).
Qed.

Lemma entry_ext s s' (l : list Req) : (forall t, t ∈ l -> memory s' !! r_buf t = memory s !! r_buf t) ->
  entry s' <$> l = entry s <$> l /\ outcome_of s' <$> l = outcome_of s <$> l.
Proof.
  intros He. split; apply list_fmap_ext; intros i t Ht; unfold entry, outcome_of, contents; by rewrite He by (by eapply list_elem_of_lookup_2).
Qed.

(** ** The device runs *)

Definition steady s s' x x' : Prop :=
  g_map x' = g_map x /\ g_r x' = g_r x /\ driver_same (queue s) (queue s') /\ active s' x' ⊆ active s x /\
  (forall a, (forall t, t ∈ reqs_of x (active s x) -> r_buf t <> a) -> memory s' !! a = memory s !! a) /\ dropped s' = dropped s.

Lemma steady_refl s x : steady s s x x.
Proof. done. Qed.

Lemma steady_trans s1 s2 s3 x1 x2 x3 : steady s1 s2 x1 x2 -> steady s2 s3 x2 x3 -> steady s1 s3 x1 x3.
Proof.
  intros (G1 & R1 & D1 & A1 & C1 & E1) (G2 & R2 & D2 & A2 & C2 & E2). split_and!; [congruence..| | | |congruence].
  - destruct D1 as (? & ? & ? & ? & ?), D2 as (? & ? & ? & ? & ?). split_and!; congruence.
  - by etransitivity.
  - intros a Ha. rewrite C2, C1; [done..|]. intros t (i & Hi & Ht)%reqs_in. apply Ha. apply list_elem_of_omap. exists i. split; [by apply A1|]. by rewrite <- G1.
Qed.

Lemma take_step s x h W G : blk_ok s x h W G ->
  exists x', blk_ok (with_queue (dev_take (queue s)) s) x' h W G /\ steady s (with_queue (dev_take (queue s)) s) x x'.
Proof using Hq Hbc.
  intros N. destruct (take_ok q bc 3 chain r_buf blk_layout _ _ _ _ _ (b_chan _ _ _ _ _ N)) as [E|(hd & A' & EA & C & EP & D)].
  - rewrite E. exists x. replace (with_queue (queue s) s) with s by (by destruct s). done.
  - exists (mkGh (g_map x) A' (g_us x) (g_r x)).
    assert (Ha : active (with_queue (dev_take (queue s)) s) (mkGh (g_map x) A' (g_us x) (g_r x)) ≡ₚ active s x).
    { unfold active. cbn. rewrite EP, EA. solve_Permutation. }
    split.
    + destruct N. split; try done. rewrite <- b_served0. apply Permutation_app_head, fmap_Permutation, omap_Permutation, Ha.
    + split_and!; try done. intros i. by rewrite Ha.
Qed.

(** What the device does to the memory for request [t]. *)
Definition moved t (out : list Z) (m : gmap Z BlkReq) : gmap Z BlkReq :=
  if r_write t then m else alter (fun r => mkReq (overwrite (take (Z.to_nat 4096) out) (data r)) (data_len r) (block r)) (r_buf t) m.

Lemma moved_ne t out m a : r_buf t <> a -> moved t out m !! a = m !! a.
Proof. intros Hn. unfold moved. destruct (r_write t); [done|]. by rewrite lookup_alter_ne. Qed.

Lemma moved_some t out m a : is_Some (m !! a) -> is_Some (moved t out m !! a).
Proof.
  intros [r Hr]. destruct (decide (r_buf t = a)) as [<-|Hn]; [|rewrite moved_ne by done; by exists r]. unfold moved. destruct (r_write t); [by exists r|].
  rewrite lookup_alter_eq, Hr. by eexists.
Qed.

Lemma serve_eq i t out st s : block_headers s !! i = Some (header_of t) ->
  serve (chain i t) out st s = with_served (served s ++ [entry s t]) (finished s ++ [(r_buf t, data <$> moved t out (memory s) !! r_buf t)])
    (with_status (<[i := st]> (block_status s)) (with_memory (moved t out (memory s)) s)).
Proof. intros Hh. cbn. rewrite Hh. destruct t as [a [] b]; done. Qed.

Lemma use_step s x h W G k out hd ds c : blk_ok s x h W G -> dev_use k 1 (queue s) = Some (hd, ds, c) ->
  exists x', blk_ok (serve ds out 0 (with_queue c s)) x' h W G /\ steady s (serve ds out 0 (with_queue c s)) x x'.
Proof using Hq Hbc Hpool.
  intros N E. destruct (use_ok q bc 3 chain r_buf blk_layout _ _ _ _ _ _ _ _ _ _ (b_chan _ _ _ _ _ N) E) as (t & Ht & Hin & -> & C & EP & D).
  rewrite serve_eq by (cbn; by apply (b_hdrs _ _ _ _ _ N)). set (s' := with_served _ _ _). destruct (pool_split _ _ _ _ _ N) as [Hv _].
  pose proof (heads_nodup _ _ _ _ _ _ _ _ _ (b_chan _ _ _ _ _ N)) as Hn. set (x' := mkGh (g_map x) (g_av x) (g_us x ++ [hd]) (g_r x)).
  assert (Hc : forall a, r_buf t <> a -> memory s' !! a = memory s !! a) by (intros a Ha; by apply moved_ne).
  assert (Hother : forall hs u, hd ∉ hs -> u ∈ reqs_of x hs -> memory s' !! r_buf u = memory s !! r_buf u).
  { intros hs u Hni (i & Hi & Hu)%reqs_in. apply Hc. intros Eb. by rewrite (vals_inj _ _ _ _ _ Hv Ht Hu Eb) in Hni. }
  assert (Ha : active s x ≡ₚ hd :: active s' x') by (unfold active; cbn; rewrite EP; solve_Permutation).
  assert (Hna : hd ∉ active s' x').
  { unfold active at 1. cbn. assert (Hd : NoDup (hd :: active s' x')) by (rewrite <- Ha; rewrite app_assoc in Hn; by apply list.NoDup_app in Hn as [Hn _]).
    by apply list.NoDup_cons in Hd as [Hd _]. }
  assert (Hnu : hd ∉ g_us x).
  { apply list.NoDup_app in Hn as (_ & _ & Hn). apply list.NoDup_app in Hn as (_ & Hn & _). intros Hu. apply (Hn hd Hin). rewrite elem_of_app. by left. }
  exists x'. split.
  - destruct N. split; try done.
    + cbn. by rewrite length_insert.
    + intros i [Hi| ->%list_elem_of_singleton]%elem_of_app; cbn.
      * rewrite list_lookup_insert_ne by (by intros ->). by apply b_status0.
      * apply list_lookup_insert_eq. rewrite b_nstatus0. by apply (c_bound _ _ _ _ _ _ _ _ _ b_chan0).
    + intros a Hp. cbn. apply moved_some. by apply b_mem0.
    + change (reqs_of x' (active s' x')) with (reqs_of x (active s' x')).
      rewrite (proj1 (entry_ext s s' _ (fun u => Hother _ u Hna))), <- b_served0. cbn [served with_served s']. rewrite <- app_assoc. apply Permutation_app_head.
      transitivity (entry s <$> reqs_of x (hd :: active s' x')).
      * unfold reqs_of. cbn. rewrite Ht. done.
      * symmetry. apply fmap_Permutation, omap_Permutation, Ha.
    + transitivity (finished s ++ [outcome_of s' t]); [done|]. rewrite b_fin0, <- (proj2 (entry_ext s s' _ (fun u => Hother _ u Hnu))), <- app_assoc. f_equal.
      unfold reqs_of. cbn [g_map g_us x']. rewrite omap_app, fmap_app. f_equal. cbn. by rewrite Ht.
  - split_and!; try done.
    + intros i Hi. rewrite Ha. by right.
    + intros a Hx. apply Hc. apply Hx. apply list_elem_of_omap. exists hd. split; [rewrite Ha; left|done].
Qed.

Lemma event_ok e s x h W G : event_fine e -> blk_ok s x h W G -> exists x', blk_ok (run_event e s) x' h W G /\ steady s (run_event e s) x x'.
Proof using Hq Hbc Hpool.
  intros He N. destruct e as [|k out st]; [by apply take_step|]. cbn in He. subst st. cbn [run_event].
  destruct (dev_use k 1 (queue s)) as [[[hd ds] c]|] eqn:E; [by eapply use_step|]. by exists x.
Qed.

Lemma tick_run s x h W G : blk_ok s x h W G -> run tick s (fun _ s' => exists x', blk_ok s' x' h W G /\ steady s s' x x').
Proof using Hq Hbc Hpool.
  intros N. unfold tick. eexists _, _. split; [reflexivity|]. destruct (script s) as [|es sc] eqn:Es; [by exists x|].
  pose proof (b_script _ _ _ _ _ N) as Hs. rewrite Es in Hs. apply list.Forall_cons in Hs as [He Hs].
  assert (N' : blk_ok (with_script sc s) x h W G) by (destruct N; by split).
  enough (H : forall s1 x1, blk_ok s1 x1 h W G -> steady s s1 x x1 -> exists x', blk_ok (fold_left (fun s e => run_event e s) es s1) x' h W G /\
    steady s (fold_left (fun s e => run_event e s) es s1) x x') by (by apply (H _ x)).
  clear N N' Es. induction He as [|e es He Hes IH]; intros s1 x1 N1 S1; [by exists x1|]. cbn. destruct (event_ok e _ _ _ _ _ He N1) as (x2 & N2 & S2).
  apply (IH _ x2 N2). by eapply steady_trans.
Qed.

(** ** Submitting a request *)

Lemma run_on {A} (F : Channel -> outcome Channel) (k : unit -> BlkM A) s c post :
  F (queue s) = Done c -> run (k tt) (with_queue c s) post -> run (on F ≫= k) s post.
Proof. intros E Hk. apply (run_step _ _ _ tt (with_queue c s)); [|done]. unfold on. rewrite bind_get. unfold lift, mbind, M_bind. by rewrite E. Qed.

(** Chain [i] is being filled for request [t], since [s0]. *)
Record filling i t s0 h W G s x : Prop := {
  fi_ok : blk_ok s x h W G;
  fi_r : g_r x = [i];
  fi_map : g_map x !! i = Some t;
  fi_drop : dropped s = dropped s0;
  fi_kept a : a ∈ h ++ dropped s0 -> memory s !! a = memory s0 !! a;
  fi_buf : memory s !! r_buf t = memory s0 !! r_buf t }.

Lemma not_active s x h W G i t : blk_ok s x h W G -> g_map x !! i = Some t -> i ∈ g_r x ->
  forall u, u ∈ reqs_of x (active s x) -> r_buf u <> r_buf t.
Proof using Hpool.
  intros N Ht Hi u (j & Hj & Hu)%reqs_in E. destruct (pool_split _ _ _ _ _ N) as [Hv _]. pose proof (vals_inj _ _ _ _ _ Hv Hu Ht E) as ->.
  pose proof (heads_nodup _ _ _ _ _ _ _ _ _ (b_chan _ _ _ _ _ N)) as Hn. rewrite app_assoc in Hn. apply list.NoDup_app in Hn as (_ & Hn & _).
  apply (Hn i Hj). rewrite elem_of_app. by right.
Qed.

Lemma kept_active s x h W G a : blk_ok s x h W G -> a ∈ h ++ dropped s -> forall u, u ∈ reqs_of x (active s x) -> r_buf u <> a.
Proof using Hpool.
  intros N Ha u (j & _ & Hu)%reqs_in <-. destruct (pool_split _ _ _ _ _ N) as [_ Hd]. apply (Hd _ Ha). by eapply in_vals.
Qed.

Lemma filling_tick {A} i t s0 h W G s x (k : unit -> BlkM A) post : filling i t s0 h W G s x ->
  (forall s' x', filling i t s0 h W G s' x' -> driver_same (queue s) (queue s') -> run (k tt) s' post) -> run (tick ≫= k) s post.
Proof using Hq Hbc Hpool.
  intros [F1 F2 F3 F4 F5 F6] Hk. eapply run_bind; [by apply tick_run|]. intros [] s' (x' & N & S1 & S2 & S3 & S4 & S5 & S6).
  apply (Hk s' x'); [|done]. split; [done|by rewrite S2|by rewrite S1|congruence| |].
  - intros a Ha. rewrite S5; [by apply F5|]. rewrite <- F4 in Ha. by eapply kept_active.
  - rewrite S5; [done|]. eapply not_active; [done..|]. rewrite F2. left.
Qed.

Lemma filling_step i t s0 h W G s x c : chan_ok q bc chain r_buf c (g_map x) (g_av x) (g_us x) [i] ->
  filling i t s0 h W G s x -> pending c = pending (queue s) -> filling i t s0 h W G (with_queue c s) x.
Proof.
  intros C [F1 F2 F3 F4 F5 F6] Ep. split; try done. destruct F1. split; try done; [by rewrite F2|]. unfold active in *. cbn. by rewrite Ep.
Qed.

Lemma filling_chan i t s0 h W G s x : filling i t s0 h W G s x -> chan_ok q bc chain r_buf (queue s) (g_map x) (g_av x) (g_us x) [i].
Proof. intros F. rewrite <- (fi_r _ _ _ _ _ _ _ _ F). apply F. Qed.

Definition started (i : nat) t (fr : list bool) s : VirtioBlockInner :=
  with_status (<[i := 255%Z]> (block_status s)) (with_headers (<[i := header_of t]> (block_headers s)) (with_queue (with_free fr (queue s)) s)).

Lemma filling_start s x t h W G i fr : blk_ok s x (r_buf t :: h) W G -> g_r x = [] -> get_free_idx (free_descriptors (queue s)) = Some (i, fr) ->
  i < bc /\ exists x', filling i t s h W G (started i t fr s) x'.
Proof using Hbc.
  intros N Hr Hf. pose proof (b_chan _ _ _ _ _ N) as C. rewrite Hr in C.
  destruct (reserve_ok q bc chain r_buf _ _ _ _ i fr t C Hf) as (Hi & Hg & C'). split; [done|].
  assert (Hni : i ∉ g_av x ++ pending (queue s) ++ g_us x ++ []).
  { intros Hin. apply (chain_in_use _ _ _ _ _ _ _ _ _ i C) in Hin as [u Hu]. congruence. }
  set (x' := mkGh (<[i := t]> (g_map x)) (g_av x) (g_us x) [i]).
  assert (Ep : forall hs, i ∉ hs -> reqs_of x' hs = reqs_of x hs).
  { intros hs Hn. unfold reqs_of, x'. cbn [g_map]. induction hs as [|j hs IH]; [done|]. apply not_elem_of_cons in Hn as [Hne Hn]. cbn.
    rewrite lookup_insert_ne by done. by rewrite IH. }
  exists x'. split; try done; [|apply lookup_insert_eq]. destruct N. split; try done.
  - cbn. by rewrite length_insert.
  - intros j u Hj. cbn in *. apply lookup_insert_Some in Hj as [[<- <-]|[Hne Hj]]; [apply list_lookup_insert_eq; lia|].
    rewrite list_lookup_insert_ne by done. by apply b_hdrs0.
  - cbn. by rewrite length_insert.
  - intros j Hj. cbn in *. rewrite list_lookup_insert_ne; [by apply b_status0|]. intros ->. apply Hni. rewrite !elem_of_app. tauto.
  - rewrite <- b_pool0. unfold vals, x'. cbn [g_map]. rewrite map_to_list_insert by done. cbn. solve_Permutation.
  - change (active (started i t fr s) x') with (active s x). rewrite Ep; [done|]. unfold active. rewrite !elem_of_app in *. tauto.
  - cbn [g_us x']. rewrite Ep; [done|]. rewrite !elem_of_app in *. tauto.
Qed.

Definition idle s (h : list Z) (W : list service) (G : list (Z * option (list Z))) : Prop := exists x, blk_ok s x h W G /\ g_r x = [].
Definition kept s s' (h : list Z) : Prop := forall a, a ∈ h ++ dropped s -> memory s' !! a = memory s !! a.

Lemma publish_step i t s0 h W G s x : filling i t s0 h W G s x -> offered q (queue s) i -> buffers (queue s) !! i = Some (Some (r_buf t)) ->
  (forall j d, chain i t !! j = Some d -> descriptors (vq (queue s)) !! (i + j * bc) = Some d) ->
  exists x', blk_ok (with_queue (advance_available (queue s)) s) x' h (W ++ [entry s0 t]) G /\ g_r x' = [].
Proof using Hq Hbc.
  intros F Ho Hb Hd. pose proof (publish_ok q bc 3 chain r_buf blk_layout _ _ _ _ i t (filling_chan _ _ _ _ _ _ _ _ F) Ho (fi_map _ _ _ _ _ _ _ _ F) Hb Hd) as C.
  destruct F as [N F2 F3 F4 F5 F6]. exists (mkGh (g_map x) (g_av x ++ [i]) (g_us x) []). split; [|done]. destruct N. split; try done.
  assert (Ee : entry s0 t = entry s t) by (unfold entry, contents; by rewrite F6). rewrite Ee, <- b_served0, <- app_assoc. apply Permutation_app_head.
  transitivity (entry s <$> omap (fun i => g_map x !! i) (active s x ++ [i])).
  - apply fmap_Permutation, omap_Permutation. unfold active. cbn. solve_Permutation.
  - rewrite omap_app, fmap_app. cbn. by rewrite F3.
Qed.

Lemma submit_run b write s h W G r : idle s (b :: h) W G -> memory s !! b = Some r ->
  run (submit_request b write) s (fun v s' => match v with
    | Ok _ => idle s' h (W ++ [asked s write b]) G /\ dropped s' = dropped s /\ kept s s' h
    | Err b' => b' = b /\ s' = s end).
Proof using Hq Hbc Hpool.
  intros (x & N & Hr) Hm. unfold submit_request. eapply run_step; [reflexivity|].
  destruct (get_free_idx (free_descriptors (queue s))) as [[i fr]|] eqn:Hf; [|by apply run_ret].
  set (t := mkR b write (block r)). destruct (filling_start s x t h W G i fr N Hr Hf) as (Hi & x0 & F0).
  eapply run_step; [reflexivity|]. eapply run_step; [reflexivity|]. eapply run_lift; [cbn; rewrite Hm; reflexivity|].
  destruct (lookup_lt_is_Some_2 (block_headers s) i) as [hd Hh]; [rewrite (b_nhdrs _ _ _ _ _ N); done|].
  destruct (lookup_lt_is_Some_2 (block_status s) i) as [st Hst]; [rewrite (b_nstatus _ _ _ _ _ N); done|].
  eapply run_lift; [by apply index_Some|]. eapply run_step; [reflexivity|]. eapply run_lift; [by apply index_Some|]. eapply run_step; [reflexivity|]. cbv beta zeta.
  change (buffer_count (with_queue _ s)) with (buffer_count s). rewrite (b_count _ _ _ _ _ N).
  change (with_status _ _) with (started i t fr s).
  eapply filling_tick; [exact F0|]. intros s1 x1 F1 _.
  destruct (describe_ok q bc 3 chain r_buf blk_layout _ _ _ _ i 0 (header_descriptor i (i + bc)) (filling_chan _ _ _ _ _ _ _ _ F1) ltac:(lia)) as [E1 C1].
  rewrite Nat.mul_0_l, Nat.add_0_r in E1, C1. eapply run_on; [exact E1|]. pose proof (filling_step _ _ _ _ _ _ _ _ _ C1 F1 eq_refl) as C1'.
  eapply filling_tick; [exact C1'|]. intros s2 x2 F2 D2. cbn [queue with_queue] in D2.
  destruct (describe_ok q bc 3 chain r_buf blk_layout _ _ _ _ i 1 (data_descriptor b write (i + bc + bc)) (filling_chan _ _ _ _ _ _ _ _ F2) ltac:(lia)) as [E2 C2].
  rewrite Nat.mul_1_l in E2, C2. eapply run_on; [exact E2|]. pose proof (filling_step _ _ _ _ _ _ _ _ _ C2 F2 eq_refl) as C2'.
  eapply filling_tick; [exact C2'|]. intros s3 x3 F3 D3. cbn [queue with_queue] in D3.
  destruct (describe_ok q bc 3 chain r_buf blk_layout _ _ _ _ i 2 (status_descriptor i) (filling_chan _ _ _ _ _ _ _ _ F3) ltac:(lia)) as [E3 C3].
  replace (i + 2 * bc) with (i + bc + bc) in E3, C3 by lia. eapply run_on; [exact E3|].
  destruct (store_ok q bc chain r_buf _ _ _ _ i b C3) as (E4 & C4 & B4). eapply run_on; [exact E4|].
  pose proof (filling_step _ _ _ _ _ _ _ _ _ C4 F3 eq_refl) as C4'. change (with_queue _ (with_queue _ s3)) with (with_queue (stored i b (described (i + bc + bc) (status_descriptor i) (queue s3))) s3).
  eapply filling_tick; [exact C4'|]. intros s4 x4 F4 D4. cbn [queue with_queue] in D4. eapply run_step; [reflexivity|].
  rewrite (b_size _ _ _ _ _ (fi_ok _ _ _ _ _ _ _ _ F4)).
  destruct (offer_ok q bc 3 chain r_buf blk_layout _ _ _ _ i (filling_chan _ _ _ _ _ _ _ _ F4)) as (E5 & C5 & O5).
  eapply run_on; [exact E5|]. pose proof (filling_step _ _ _ _ _ _ _ _ _ C5 F4 eq_refl) as C5'.
  eapply filling_tick; [exact C5'|]. intros s5 x5 F5 D5. cbn [queue with_queue] in D5. eapply run_step; [reflexivity|].
  destruct (publish_step i t s h W G s5 x5 F5) as (x6 & N6 & R6).
  - unfold offered in *. by rewrite (proj1 (proj2 D5)).
  - destruct D4 as (_ & _ & _ & _ & B5), D5 as (_ & _ & _ & _ & B6). rewrite B6. cbn. rewrite B5. exact B4.
  - assert (Hd : descriptors (vq (queue s5)) = <[i + bc + bc := status_descriptor i]> (<[i + bc := data_descriptor b write (i + bc + bc)]>
      (<[i := header_descriptor i (i + bc)]> (descriptors (vq (queue s1)))))).
    { rewrite (proj1 D5). cbn. rewrite (proj1 D4). cbn. rewrite (proj1 D3). cbn. by rewrite (proj1 D2). }
    assert (Hl : length (descriptors (vq (queue s1))) = q) by apply (filling_chan _ _ _ _ _ _ _ _ F1).
    rewrite Hd. intros [|[|[|j]]] d Hj; cbn in Hj; [injection Hj as <-|injection Hj as <-|injection Hj as <-|done].
    + rewrite Nat.mul_0_l, Nat.add_0_r, !list_lookup_insert_ne by lia. apply list_lookup_insert_eq. lia.
    + rewrite Nat.mul_1_l, list_lookup_insert_ne by lia. apply list_lookup_insert_eq. rewrite length_insert. lia.
    + replace (i + 2 * bc) with (i + bc + bc) by lia. apply list_lookup_insert_eq. rewrite !length_insert. lia.
  - set (s6 := with_queue _ s5) in *. eapply run_bind; [by apply tick_run|]. intros [] s7 (x7 & N7 & S1 & S2 & S3 & S4 & S5 & S6). apply run_ret.
    assert (Ed : dropped s6 = dropped s) by apply (fi_drop _ _ _ _ _ _ _ _ F5). split_and!.
    + exists x7. split; [|congruence]. unfold asked. rewrite Hm. exact N7.
    + congruence.
    + intros a Ha. rewrite S5; [by apply (fi_kept _ _ _ _ _ _ _ _ F5)|]. rewrite <- Ed in Ha. by eapply kept_active.
Qed.

Lemma kept_trans s1 s2 s3 h h' : dropped s2 = dropped s1 -> h' ⊆ h -> kept s1 s2 h -> kept s2 s3 h' -> kept s1 s3 h'.
Proof. intros Ed Hs K1 K2 a Ha. rewrite (K2 a) by (by rewrite Ed). apply K1. rewrite elem_of_app in *. destruct Ha; [left; by apply Hs|by right]. Qed.

Lemma blk_idle_perm s h h' W G : h ≡ₚ h' -> idle s h W G -> idle s h' W G.
Proof. intros Hp (x & [] & R). exists x. split; [split; try done|done]. by rewrite <- Hp. Qed.

Lemma idle_memory s h W G a : idle s h W G -> a ∈ h -> is_Some (memory s !! a).
Proof. intros (x & N & _) Ha. apply (b_mem _ _ _ _ _ N). rewrite <- (b_pool _ _ _ _ _ N), !elem_of_app. auto. Qed.

Lemma submit_loop_run submit write s h W G : idle s (submit ++ h) W G -> length submit <= DEQUE_CAP ->
  run (submit_loop submit write) s (fun r s' => exists ins rest, submit = ins ++ rest /\ r ≡ₚ rest /\ dropped s' = dropped s /\
    idle s' (r ++ h) (W ++ (asked s write <$> ins)) G /\ kept s s' (rest ++ h)).
Proof using Hq Hbc Hpool.
  revert s W. induction submit as [|b submit IH]; intros s W I Hl; cbn [submit_loop].
  - apply run_ret. exists [], []. split_and!; [done..| |done]. cbn. by rewrite app_nil_r.
  - cbn [length app] in *. destruct (idle_memory _ _ _ _ b I ltac:(left)) as [m Hm]. eapply run_bind; [by eapply submit_run|]. intros [[]|b'] s1.
    + intros (I1 & E1 & K1). eapply run_mono; [apply IH; [exact I1|lia]|]. intros r s' (ins & rest & -> & Hr & E2 & I2 & K2).
      exists (b :: ins), rest. split_and!; [done..|congruence| |].
      * rewrite <- app_assoc in I2. cbn. replace (asked s write <$> ins) with (asked s1 write <$> ins); [done|]. apply list_fmap_ext. intros j a Ha.
        apply list_elem_of_lookup_2 in Ha. unfold asked, contents. rewrite (K1 a); [done|]. rewrite !elem_of_app. auto.
      * eapply (kept_trans _ s1); [done| |exact K1|done]. intros a Ha. rewrite elem_of_app in Ha. rewrite !elem_of_app. tauto.
    + intros [-> ->]. unfold push_back. destruct (Nat.eqb_spec (length submit) DEQUE_CAP) as [|_]; [lia|]. eapply run_step; [reflexivity|]. apply run_ret.
      exists [], (b :: submit). split_and!; [done|cbn; solve_Permutation|done| |done]. cbn. rewrite app_nil_r. eapply blk_idle_perm; [|exact I]. solve_Permutation.
Qed.

(** ** Collecting requests *)

Lemma collected_step s x h W G i U t h' o : blk_ok s x h W G -> g_r x = [] -> g_us x = i :: U -> g_map x !! i = Some t ->
  chan_ok q bc chain r_buf (collected i (queue s)) (delete i (g_map x)) (g_av x) U [] -> h' ++ o ≡ₚ r_buf t :: h ->
  exists x', blk_ok (with_dropped (dropped s ++ o) (with_queue (collected i (queue s)) s)) x' h' W (G ++ [outcome_of s t]) /\ g_r x' = [] /\
    length (vals x) = S (length (vals x')).
Proof.
  intros N Hr Hu Ht C Hh. pose proof (heads_nodup _ _ _ _ _ _ _ _ _ (b_chan _ _ _ _ _ N)) as Hn. rewrite Hu in Hn.
  assert (Hi : (i ∉ active s x) /\ i ∉ U).
  { rewrite app_assoc in Hn. apply list.NoDup_app in Hn as (_ & Ha & Hn). apply list.NoDup_app in Hn as (Hn & _).
    apply list.NoDup_cons in Hn as [Hn _]. split; [|done]. intros Hin. apply (Ha i Hin). rewrite elem_of_app. left. left. }
  destruct Hi as [Hi1 Hi2]. set (x' := mkGh (delete i (g_map x)) (g_av x) U []).
  assert (Ep : forall hs, i ∉ hs -> reqs_of x' hs = reqs_of x hs).
  { intros hs Hne. unfold reqs_of, x'. cbn [g_map]. induction hs as [|j hs IH]; [done|]. apply not_elem_of_cons in Hne as [Hj Hne]. cbn.
    rewrite lookup_delete_ne by done. by rewrite IH. }
  assert (Hv : vals x ≡ₚ r_buf t :: vals x') by (unfold vals, x'; cbn [g_map]; by rewrite <- (map_to_list_delete _ _ _ Ht)).
  exists x'. split_and!; [|done|by rewrite Hv]. destruct N. split; try done.
  - intros j u Hj. cbn in *. apply lookup_delete_Some in Hj as [_ Hj]. by apply b_hdrs0.
  - intros j Hj. apply b_status0. rewrite Hu. by right.
  - rewrite <- b_pool0. cbn [dropped with_dropped]. transitivity (vals x' ++ (h' ++ o) ++ dropped s); [solve_Permutation|]. rewrite Hh, Hv. solve_Permutation.
  - change (active (with_dropped _ _) x') with (active s x). by rewrite Ep.
  - cbn [g_us x']. rewrite Ep by done. change (finished (with_dropped _ _)) with (finished s). rewrite b_fin0, Hu, <- app_assoc. f_equal.
    unfold reqs_of at 1. cbn. by rewrite Ht.
Qed.

Lemma tick_idle {A} s x h W G (k : unit -> BlkM A) post : blk_ok s x h W G -> g_r x = [] ->
  (forall s' x', blk_ok s' x' h W G -> g_r x' = [] -> length (vals x') = length (vals x) -> dropped s' = dropped s -> kept s s' h -> run (k tt) s' post) ->
  run (tick ≫= k) s post.
Proof using Hq Hbc Hpool.
  intros N Hr Hk. eapply run_bind; [by apply tick_run|]. intros [] s' (x' & N' & S1 & S2 & S3 & S4 & S5 & S6).
  apply (Hk s' x'); [done|congruence|unfold vals; by rewrite S1|done|]. intros a Ha. apply S5. by eapply kept_active.
Qed.

Definition results s (l : list Z) : list (Z * option (list Z)) := (fun a => (a, contents s a)) <$> l.

Lemma free_run fuel collect count s x h W G : blk_ok s x (collect ++ h) W G -> g_r x = [] -> length collect <= DEQUE_CAP -> length (vals x) < fuel ->
  run (free_loop fuel collect count) s (fun r s' => exists new lost, r = (count + length (new ++ lost), collect ++ new) /\
    length (collect ++ new) <= DEQUE_CAP /\ dropped s' = dropped s ++ lost /\
    idle s' (collect ++ new ++ h) W (G ++ results s' (new ++ lost)) /\ kept s s' (collect ++ h) /\
    (length collect + length (vals x) <= DEQUE_CAP -> lost = [])).
Proof using Hq Hbc Hpool.
  revert collect count s x G. induction fuel as [|fuel IH]; intros collect count s x G N Hr Hl Hf; [lia|]. cbn [free_loop].
  eapply tick_idle; [done..|]. intros s1 x1 N1 Hr1 Hv Ed1 K1. rewrite <- Hv in Hf |- *. clear N Hr Hv x. eapply run_step; [reflexivity|]. cbv beta zeta.
  pose proof (b_chan _ _ _ _ _ N1) as C. rewrite Hr1 in C. destruct (g_us x1) as [|i U] eqn:Hu.
  { rewrite (collect_done _ _ _ _ _ _ _ _ C). apply run_ret. exists [], []. rewrite Nat.add_0_r, !app_nil_r. split_and!; [done..| |done|done]. by exists x1. }
  destruct (collect_next q bc 3 chain r_buf blk_layout _ _ _ _ _ C) as (-> & p & e & d & d' & t & E1 & E2 & E3 & E4 & _ & Hi & Ht & Eb & C').
  rewrite (b_size _ _ _ _ _ N1). eapply run_lift; [exact E1|]. eapply run_lift; [exact E2|]. cbv zeta. rewrite E3, Nat2Z.id.
  eapply run_lift; [by apply index_Some|]. eapply run_lift; [by apply index_Some|]. cbv beta iota.
  eapply run_step; [reflexivity|]. eapply run_lift; [apply index_Some, (b_status _ _ _ _ _ N1 i); rewrite Hu; left|].
  eapply run_step; [reflexivity|]. cbv beta zeta. set (p' := push_back DEQUE_CAP collect (r_buf t)). set (o := match p'.1 with Some a => [a] | None => [] end).
  assert (Hp : p'.2 ++ o ≡ₚ r_buf t :: collect /\ length p'.2 <= DEQUE_CAP /\ p'.2 = collect ++ (if length collect =? DEQUE_CAP then [] else [r_buf t]) /\
    o = (if length collect =? DEQUE_CAP then [r_buf t] else [])).
  { unfold o, p', push_back. destruct (Nat.eqb_spec (length collect) DEQUE_CAP) as [Hc|Hc]; cbn.
    - split_and!; [solve_Permutation|done|by rewrite app_nil_r|done].
    - rewrite length_app. cbn [length]. split_and!; [rewrite app_nil_r; solve_Permutation|lia|done|done]. }
  destruct Hp as (Hp & Hlp & Ep & Eo).
  apply (run_step _ _ _ tt (with_dropped (dropped s1 ++ o) (with_queue (with_buffers (<[i := None]> (buffers (queue s1))) (queue s1)) s1))).
  { unfold o, drop_opt. destruct (p'.1); [done|]. rewrite app_nil_r. by destruct s1. }
  eapply run_lift; [apply index_Some, (c_marks _ _ _ _ _ _ _ _ _ C i Hi)|]. eapply run_step; [reflexivity|]. eapply run_step; [reflexivity|].
  change (with_queue _ _) with (with_dropped (dropped s1 ++ o) (with_queue (collected i (queue s1)) s1)).
  destruct (collected_step s1 x1 (collect ++ h) W G i U t (p'.2 ++ h) o N1 Hr1 Hu Ht C') as (x2 & N2 & Hr2 & Hv2).
  { transitivity ((p'.2 ++ o) ++ h); [solve_Permutation|]. by rewrite Hp. }
  eapply run_mono; [apply (IH _ _ _ x2); [done|done|done|lia]|]. intros r s' (new & lost & -> & Hln & Ed & I & K & Hno).
  cbn [dropped with_dropped] in Ed. unfold kept in K. cbn [dropped memory with_dropped with_queue] in K.
  assert (Hbs : outcome_of s1 t = (r_buf t, contents s' (r_buf t))).
  { unfold outcome_of, contents. rewrite (K (r_buf t)); [done|]. assert (Hin : r_buf t ∈ p'.2 ++ o) by (rewrite Hp; left). rewrite !elem_of_app in *. tauto. }
  assert (Hk : kept s s' (collect ++ h)).
  { intros a Ha. rewrite <- (K1 a Ha). apply K. rewrite Ed1, Ep. rewrite !elem_of_app in *. tauto. }
  rewrite Hbs, <- app_assoc in I. rewrite Ed1, <- app_assoc in Ed. rewrite Ep in *. rewrite Eo in *. destruct (Nat.eqb_spec (length collect) DEQUE_CAP) as [Hc|Hc].
  - rewrite app_nil_r in *. assert (new = []) as -> by (apply nil_length_inv; rewrite length_app in Hln; lia). exists [], (r_buf t :: lost). cbn [app length] in *.
    rewrite app_nil_r in *. split_and!; [f_equal; lia|done..|lia].
  - exists (r_buf t :: new), lost. rewrite length_app in Hno. rewrite <- !app_assoc in *. cbn [app length] in *. split_and!; [f_equal; lia|done..|].
    intros Hroom. apply Hno. lia.
Qed.

(** ** Calls *)

Lemma vals_bound s x h W G : blk_ok s x h W G -> length (vals x) <= bc.
Proof.
  intros N. pose proof (b_chan _ _ _ _ _ N) as C. pose proof (heads_bound _ _ _ _ _ _ _ _ _ C) as Hb. rewrite (c_heads _ _ _ _ _ _ _ _ _ C) in Hb.
  unfold vals. by rewrite !length_fmap in *.
Qed.

Lemma call_run submit collect write s h W G : idle s (submit ++ collect ++ h) W G -> length submit <= DEQUE_CAP -> length collect <= DEQUE_CAP ->
  run (submit_and_poll_rref submit collect write) s (fun r s' => exists new lost ins rest submit',
    r = (length (new ++ lost), submit', collect ++ new) /\ submit = ins ++ rest /\ submit' ≡ₚ rest /\ dropped s' = dropped s ++ lost /\
    idle s' (submit' ++ collect ++ new ++ h) (W ++ (asked s write <$> ins)) (G ++ results s' (new ++ lost)) /\ kept s s' h /\
    (length collect + length submit + length (in_driver s) <= DEQUE_CAP -> lost = [])).
Proof using Hq Hbc Hpool.
  intros I Hls Hlc. assert (Hin : length (in_driver s) + length (submit ++ collect ++ h) + length (dropped s) = length pool).
  { destruct I as (x & N & Hr). pose proof (b_chan _ _ _ _ _ N) as C. rewrite Hr in C. rewrite <- (b_pool _ _ _ _ _ N), !length_app.
    unfold in_driver, vals. rewrite (buffers_held _ _ _ _ _ _ _ _ C). lia. }
  unfold submit_and_poll_rref. eapply run_bind; [by apply submit_loop_run|]. intros submit' s1 (ins & rest & -> & Hp & Ed1 & (x & N & Hr) & K1).
  unfold free_request_buffers. apply run_assoc. eapply run_step; [reflexivity|]. rewrite (b_count _ _ _ _ _ N).
  assert (N' : blk_ok s1 x (collect ++ submit' ++ h) (W ++ (asked s write <$> ins)) G).
  { destruct N. split; try done. rewrite <- b_pool0. solve_Permutation. }
  eapply run_bind; [apply (free_run _ collect 0 s1 x (submit' ++ h) _ G N' Hr Hlc); pose proof (vals_bound _ _ _ _ _ N); lia|].
  intros r s' (new & lost & -> & Hln & Ed2 & I2 & K2 & Hno). apply run_ret. exists new, lost, ins, rest, submit'. cbn [fst snd].
  split_and!; [done..|congruence| | |].
  - eapply blk_idle_perm; [|exact I2]. solve_Permutation.
  - intros a Ha. rewrite (K2 a) by (rewrite Ed1; rewrite !elem_of_app in *; tauto). apply K1. rewrite !elem_of_app in *. tauto.
  - intros Hroom. apply Hno. rewrite <- (b_pool _ _ _ _ _ N), Ed1, !length_app in Hin. rewrite length_app in Hroom. lia.
Qed.

(** *** Histories *)

Definition client_ok (y : Client) : Prop := exists G, idle (dev y) (held y) (submitted y) G /\ (dropped (dev y) = [] -> G = got y).

Lemma fill_idle s h W G a r : a ∈ h -> idle s h W G -> idle (with_memory (<[a := r]> (memory s)) s) h W G.
Proof using Hpool.
  intros Ha (x & N & Hr). exists x. split; [|done]. destruct (pool_split _ _ _ _ _ N) as [_ Hd].
  assert (Hx : forall hs t, t ∈ reqs_of x hs -> <[a := r]> (memory s) !! r_buf t = memory s !! r_buf t).
  { intros hs t (i & _ & Ht)%reqs_in. apply lookup_insert_ne. intros ->. apply (Hd (r_buf t)); [rewrite elem_of_app; by left|by eapply in_vals]. }
  set (s' := with_memory _ s). destruct N. split; try done.
  - intros b Hb. cbn. destruct (decide (a = b)) as [->|Hn]; [rewrite lookup_insert_eq; by eexists|rewrite lookup_insert_ne by done; by apply b_mem0].
  - change (active s' x) with (active s x). by rewrite (proj1 (entry_ext s s' _ (Hx _))).
  - by rewrite (proj2 (entry_ext s s' _ (Hx _))).
Qed.

Lemma blk_exec_ok c frame y : client_ok y -> permitted c frame y -> exists y', exec c frame y = Done y' /\ client_ok y' /\
  (forall a, a ∈ frame -> memory (dev y') !! a = memory (dev y) !! a) /\ (roomy c y -> dropped (dev y') = dropped (dev y)).
Proof using Hq Hbc Hpool.
  intros (G & I & HG) [Hh Hc]. destruct c as [a r|submit collect write|collect|]; cbn [exec call_in] in *.
  - eexists. split; [reflexivity|]. assert (Ha : a ∈ held y) by (rewrite Hh; left). split; [exists G; split; [by apply fill_idle|done]|]. split; [|done].
    intros b Hb. cbn. apply lookup_insert_ne. intros ->.
    destruct I as (x & N & _). pose proof Hpool as Hn. rewrite <- (b_pool _ _ _ _ _ N), Hh in Hn. apply list.NoDup_app in Hn as (_ & _ & Hn).
    cbn in Hn. apply list.NoDup_cons in Hn as [Hn _]. apply Hn. rewrite elem_of_app. by left.
  - destruct Hc as [Hls Hlc]. destruct (call_run submit collect write (dev y) frame (submitted y) G) as (r & s' & E & new & lost & ins & rest & submit' & -> & -> & Hp & Ed & I' & K & Hno);
      [|done|done|]. { eapply blk_idle_perm; [|exact I]. by rewrite Hh, <- app_assoc. }
    rewrite E. cbn [mbind outcome_bind]. eexists. split; [reflexivity|]. cbn [dev].
    split; [|split; [intros a Ha; apply K; rewrite elem_of_app; by left|intros Hroom; by rewrite Ed, (Hno Hroom), app_nil_r]].
    exists (G ++ results s' (new ++ lost)). cbn [dev held submitted got]. rewrite (Permutation_length Hp), length_app.
    replace (length ins + length rest - length rest) with (length ins) by lia. rewrite take_app_length, drop_app_length. split.
    + by rewrite <- app_assoc.
    + rewrite Ed. intros [H1 ->]%app_nil. by rewrite app_nil_r, (HG H1).
  - eexists. split; [reflexivity|]. cbn. split; [|split; done]. exists G. split; [|done]. eapply blk_idle_perm; [|exact I]. done.
  - eexists. split; [reflexivity|]. split; [|split; done]. by exists G.
Qed.
End Invariant.

(** ** Properties *)

(** What the device has not served yet, and the requests served that are not collected yet. *)
Definition request_at (s : VirtioBlockInner) (i : nat) : option service :=
  h ← block_headers s !! i; a ← mjoin (buffers (queue s) !! i);
  let write := (request_type h =? 1)%Z in Some (write, sector h, a, if write then contents s a else None).
Definition unserved (s : VirtioBlockInner) : list service := omap (request_at s) (offered_heads (queue s) ++ pending (queue s)).
Definition waiting (s : VirtioBlockInner) : list Z := omap (fun i => mjoin (buffers (queue s) !! i)) (used_heads (queue s)).

Lemma third_fits q : 3 * Z.to_nat (Z.of_nat q / 3) <= q.
Proof. pose proof (Z.mul_div_le (Z.of_nat q) 3). lia. Qed.

Lemma blk_history_ok q m sc pool y : queue_ok q -> NoDup pool -> (forall a, a ∈ pool -> is_Some (m !! a)) -> Forall (Forall event_fine) sc ->
  history q m sc pool y -> client_ok q (Z.to_nat (Z.of_nat q / 3)) pool y.
Proof.
  intros Hq Hn Hm Hs Hy. induction Hy as [status s E|y c frame y' Hy IH Hc E].
  - unfold init in E. destruct (Z.land status 8 =? 0)%Z; [done|]. injection E as <-.
    exists []. split; [|done]. exists (mkGh ∅ [] [] []). split; [|done]. split; try done.
    + apply new_channel_ok.
    + apply length_replicate.
    + apply length_replicate.
    + intros i Hi. by apply not_elem_of_nil in Hi.
    + cbn. by rewrite app_nil_r.
  - destruct (blk_exec_ok q _ Hq (third_fits q) pool Hn c frame y IH Hc) as (y2 & E2 & O & _). rewrite E in E2. by injection E2 as <-.
Qed.

Lemma state_requests q bc (Hq : queue_ok q) (Hbc : 3 * bc <= q) pool s x h W G : blk_ok q bc pool s x h W G -> g_r x = [] ->
  in_driver s ≡ₚ vals x /\ unserved s = entry s <$> reqs_of x (active s x) /\
  (fun a => (a, contents s a)) <$> waiting s = outcome_of s <$> reqs_of x (g_us x).
Proof.
  intros N Hr. pose proof (b_chan _ _ _ _ _ _ _ _ N) as C. rewrite Hr in C.
  destruct (heads_spec q bc 3 _ _ (blk_layout q bc Hq Hbc) _ _ _ _ _ C) as [EA EU]. unfold in_driver, unserved, waiting, active. rewrite EA, EU.
  assert (Hb : forall i, i ∈ g_av x ++ pending (queue s) ++ g_us x ++ [] -> i < bc) by (intros i Hi; by eapply head_lt).
  split_and!; [apply (buffers_held _ _ _ _ _ _ _ _ C)| |].
  - unfold reqs_of. assert (Hs : forall i, i ∈ g_av x ++ pending (queue s) -> i < bc) by (intros i Hi; apply Hb; rewrite !elem_of_app in *; tauto).
    induction (g_av x ++ pending (queue s)) as [|i l IH]; [done|]. cbn. rewrite IH by (intros j Hj; apply Hs; by right).
    unfold request_at at 1. rewrite (c_bufs _ _ _ _ _ _ _ _ _ C i) by (apply not_elem_of_nil || (apply Hs; left)).
    destruct (g_map x !! i) as [t|] eqn:Ht; [rewrite (b_hdrs _ _ _ _ _ _ _ _ N i t Ht); by destruct t as [a [] b]|].
    by destruct (block_headers s !! i).
  - rewrite (heads_buffers _ _ _ _ _ _ _ _ _ C) by (intros i Hi; apply Hb; rewrite !elem_of_app; tauto). by rewrite <- list_fmap_compose.
Qed.

(** C20: in every history of calls of the virtio block driver, with a device that serves
    requests at any point and in any order and reports no errors: each request is in one place
    only, with the driver, with the client, or freed because the client's queue was full; a
    call with room for the requests that the driver has and gets frees none; every request
    submitted is served once, as a read or write from the sector that has its block number,
    and a write puts on the disk the data that the request had when it was submitted; as long
    as no request was freed, requests come back in the order in which they were finished, with
    the data the device left there; every permitted call returns and touches no request that
    the client kept.  The number of descriptors is a power of two. *)
Theorem virtio_block_history_safe q m sc pool y : queue_ok q -> NoDup pool -> (forall a, a ∈ pool -> is_Some (m !! a)) ->
  Forall (Forall event_fine) sc -> history q m sc pool y ->
  in_driver (dev y) ++ held y ++ dropped (dev y) ≡ₚ pool /\
  served (dev y) ++ unserved (dev y) ≡ₚ submitted y /\
  (dropped (dev y) = [] -> finished (dev y) = got y ++ ((fun a => (a, contents (dev y) a)) <$> waiting (dev y))) /\
  (forall c frame, permitted c frame y -> exists y', exec c frame y = Done y' /\
    (forall a, a ∈ frame -> memory (dev y') !! a = memory (dev y) !! a) /\ (roomy c y -> dropped (dev y') = dropped (dev y))).
Proof.
  intros Hq Hn Hm Hs Hy. pose proof (blk_history_ok _ _ _ _ _ Hq Hn Hm Hs Hy) as O. split_and!.
  4: { intros c frame Hc. destruct (blk_exec_ok q _ Hq (third_fits q) pool Hn c frame y O Hc) as (y' & E & _ & K). by exists y'. }
  all: destruct O as (G & (x & N & Hr) & HG); destruct (state_requests q _ Hq (third_fits q) _ _ _ _ _ _ N Hr) as (R1 & R2 & R3).
  - rewrite R1. apply N.
  - rewrite R2. apply N.
  - intros Hd. rewrite R3, <- (HG Hd). apply N.
Qed.

(** Two writes are submitted; the device takes both and serves the second one. *)
Definition sample_blk_mem : gmap Z BlkReq := {[ 1%Z := mkReq (replicate 4096 1%Z) 4096 0; 2%Z := mkReq (replicate 4096 2%Z) 4096 1 ]}.
Definition sample_blk_script (es : list event) : list (list event) := replicate 12 [] ++ [Take :: Take :: es].
Definition sample_write (es : list event) : outcome Client :=
  s ← init 8 8 sample_blk_mem (sample_blk_script es); exec (SubmitPoll [1%Z; 2%Z] [] true) [] (mkClient s [1%Z; 2%Z] [] []).

Lemma sample_write_history es y : sample_write es = Done y -> history 8 sample_blk_mem (sample_blk_script es) [1%Z; 2%Z] y.
Proof.
  unfold sample_write. destruct (init 8 8 sample_blk_mem (sample_blk_script es)) as [s| |] eqn:E0; [|discriminate..]. intros E.
  eapply history_call; [apply (history_new 8 sample_blk_mem (sample_blk_script es) _ 8 s E0)| |exact E]. split; [reflexivity|]. unfold DEQUE_CAP. cbn. lia.
Qed.

Lemma virtio_block_history_safe_witness : exists y, history 8 sample_blk_mem (sample_blk_script [Use 1 [] 0]) [1%Z; 2%Z] y /\
  held y = [2%Z] /\ in_driver (dev y) ++ held y ++ dropped (dev y) ≡ₚ [1%Z; 2%Z].
Proof.
  assert (Ec : match sample_write [Use 1 [] 0] with Done y => held y = [2%Z] | _ => False end) by (vm_compute; reflexivity).
  destruct (sample_write [Use 1 [] 0]) as [y| |] eqn:E; [|destruct Ec..]. pose proof (sample_write_history _ _ E) as Hy. exists y. split; [exact Hy|].
  split; [exact Ec|]. clear E Ec. apply (virtio_block_history_safe 8 sample_blk_mem (sample_blk_script [Use 1 [] 0]) [1%Z; 2%Z] y); [exists 3; split; [lia|reflexivity]| | | |exact Hy].
  - by apply (bool_decide_unpack _).
  - intros a Ha. repeat (apply elem_of_cons in Ha as [->|Ha]; [by eexists|]). destruct (not_elem_of_nil a Ha).
  - repeat constructor.
Defined.
